(* ===== verification/_CoqProject ===== *)
-Q . S2P
Prelude.v
StableSort.v
KvCells.v
Memory.v
Batch.v
BatchSplit.v
BatchInit.v
BatchAuto.v
Unicode.v
Grammar.v
GrammarWf.v
GrammarLang.v
GrammarTerm.v
GrammarRec.v
GrammarRun.v
GrammarReject.v
GrammarDecode.v
GrammarParser.v
GrammarParserWf.v
GrammarInit.v
GrammarLazy.v
Trie.v
TrieWf.v
TrieAho.v
ReasoningBudget.v
ReasoningBudgetWf.v
JinjaLexer.v
JinjaLexerWf.v
JinjaLexerPrint.v
KvPlacement.v
JinjaParser.v
JinjaParserTerm.v
JinjaParserPrint.v
JinjaParserRead.v
JinjaParserLevel.v
JinjaParserPrimary.v
JinjaParserChain.v
JinjaParserExpr.v
JinjaParserTemplate.v
JinjaParserStmt.v
KvTail.v
KvTailStore.v
KvTailStoreWf.v
KvTailSpec.v
KvTailRefine.v
KvTailBatch.v
KvTailCopy.v
KvTailState.v
Recurrent.v
RecurrentWf.v
RecurrentOps.v
RecurrentSlot.v
RecurrentGather.v
RecurrentPlace.v
RecurrentState.v
RecurrentBatch.v
RecurrentSave.v
KvCache.v
KvCacheWf.v
KvSlot.v
KvSlotWf.v
KvApplyWf.v
KvPrepareWf.v
