(* ===== verification/Prelude.v ===== *)
(** * The decoding core of llama.cpp (beellama-escha), verified

    The repository is an inference engine for language models.  Around its
    numeric kernels (src/ggml) and graph building (src/src/models) stands a core of
    discrete logic that decides which token goes where, which tokens may be
    sampled, and how texts are cut and recognised.  This development models that
    core and proves what makes it correct.

    ** The program's parts and how they interact

    A client puts tokens in a batch.  The batch allocator ([Batch]) validates it
    against the memory ([Memory], an interface: the smallest and the largest
    position of each sequence), completes it and cuts it into ubatches.  The KV cache
    implements the interface on its cell metadata ([KvCells]), changes it sequence by
    sequence ([KvCache]: remove, keep, shift, divide, copy), finds a slot for each ubatch
    and places it there ([KvSlot]).  The newest tokens of each sequence may be kept in full
    precision beside a compressed cache: requests for such a tail are parsed and resolved
    by [KvTail], and its store ([KvTailStore]) follows the operations of the cache and
    assigns the slots of the payload.  A recurrent model has one state per sequence instead,
    kept in the cells of [Recurrent], which implements the same interface; the graph copies the
    states from row to row ([RecurrentState]).  The component names of the tensors are
    parsed by [KvPlacement].  When tokens are sampled, the grammar sampler ([Grammar], with the
    parser of grammar texts [GrammarParser]) masks the tokens that the grammar cannot
    follow, reading token texts as UTF-8 ([Unicode]), and the reasoning-budget
    sampler ([ReasoningBudget]) recognises the start and the end of a reasoning block with an
    Aho-Corasick automaton ([Trie]) and forces its end.  Prompts are built from chat
    templates, which [JinjaLexer] cuts into tokens and [JinjaParser] makes a program of.

    ** Files, and the code they model

    - [Prelude]: this header, machine integers, and lemmas on lists, options and
      finite maps and sets that several components use.
    - [KvCells]: [class llama_kv_cells] of src/src/llama-kv-cells.h.  The record
      [cells] has the fields of the class; each method is a definition of the same name.
      A failed assertion, a signed overflow or the exception of a bitset for a sequence
      without a bit is [None].  [acells] is the abstract
      specification: an array of cells, with none of the redundant indices.
    - [Memory]: the class [MemoryOps], what src/src/llama-memory.h promises to the
      allocator, and its instance by src/src/llama-kv-cache.cpp on streams of cells.
    - [KvCache]: the operations of src/src/llama-kv-cache.cpp on sequences, and the
      heads of the structured allocation, on the record [kv_cache] (streams of cells
      with their heads); [KvCacheWf] has the abstract cache, an array of cells per stream.
    - [KvSlot]: [find_slot], [apply_ubatch], [prepare] and [init_batch] of the same file;
      the theorems are in [KvSlotWf] (search), [KvApplyWf] (placement) and [KvPrepareWf]
      (the dry run of a batch).
    - [Batch] (src/src/llama-batch.cpp: [init], the three splits, [ubatch_add],
      [ubatch_reserve]), with the theorems on validation in [BatchInit], on splits in
      [BatchSplit], and on generated positions in [BatchAuto].
    - [Unicode]: src/common/unicode.cpp.
    - [Grammar]: the automaton of src/src/llama-grammar.cpp (decoding, matching,
      stacks, candidates, lazy grammars, initialisation); [GrammarParser]: its parser
      of grammar texts.  The theorems are in [GrammarWf] (well-formed rules),
      [GrammarLang] (languages), [GrammarTerm] and [GrammarRec] (termination and left
      recursion), [GrammarRun], [GrammarReject], [GrammarDecode], [GrammarParserWf],
      [GrammarInit] and [GrammarLazy].
    - [Trie]: src/common/trie.cpp, with [TrieWf] (words) and [TrieAho] (the automaton).
    - [ReasoningBudget]: src/common/reasoning-budget.cpp, with [ReasoningBudgetWf].
    - [JinjaLexer]: src/common/jinja/lexer.cpp, with [JinjaLexerWf] (safety and
      termination) and [JinjaLexerPrint] (reading back).
    - [JinjaParser]: [class parser] of src/common/jinja/parser.cpp, a definition for each
      function and for the step of each loop, and the nodes of src/common/jinja/runtime.h.
      [JinjaParserTerm] has termination and safety; [JinjaParserPrint] how an expression is
      written and [JinjaParserTemplate] a program; [JinjaParserRead] (what the parser sees, runs of
      its loops), [JinjaParserLevel] (levels of operators), [JinjaParserPrimary],
      [JinjaParserChain] (members and calls), [JinjaParserExpr] and [JinjaParserStmt] how
      it is read back.
    - [KvPlacement]: the name parser of src/src/llama-kv-cache-placement.cpp.
    - [KvTail]: src/src/llama-kv-tail-request.cpp and the tail policy of
      src/src/llama-kv-cache-kvarn.h.
    - [StableSort]: the stable sort of the C++ library.
    - [KvTailStore]: [class llama_kv_tail_store] of src/src/llama-kv-cache-tail.cpp, on
      the record [tail_store] whose [arena]s hold what the class has for each sequence;
      a definition for each method.  [KvTailStoreWf] has the invariant of one arena and
      a lemma for each elementary step, [KvTailSpec] the abstract tail (a list of entries and
      a record of degradation), [KvTailRefine] the refinement, [KvTailBatch]
      the batch transactions, [KvTailCopy] the copies of sequences, and [KvTailState]
      saving, restoring and cloning.
    - [Recurrent]: [class llama_memory_recurrent] of src/src/llama-memory-recurrent.cpp, on
      the record [memory], whose cells are [mem_cell]s; a definition for each method and for
      each loop of [find_slot].  [RecurrentWf] has the invariant, the view of a sequence
      (the position of its state and the sequences that share it) and what it is to forget
      sequences; [RecurrentOps] the operations on sequences, [RecurrentSlot],
      [RecurrentGather] and [RecurrentPlace] the stages of a placement, [RecurrentState] the
      rows of states and the copies of src/src/llama-graph.cpp, [RecurrentBatch] whole
      batches, and [RecurrentSave] saved states.

    ** What the theorems show

    - Cells: every operation of the class refines the array of cells, keeps the
      redundant indices in agreement with it ([kv_refinement]), answers its queries
      from it ([kv_seq_queries], [kv_used_queries]) and restores what it saved
      ([kv_save_restore]); sequences without a bit are refused; a freed cell keeps its old coordinates on one of two ways
      ([kv_freed_cell_ext]).
    - Cache: every operation on sequences changes exactly the cells the abstract cache
      says ([cache_refinement]; keeping and copying a sequence do more, or less, than the
      public interface says, [seq_keep_other_streams] and [seq_cp_takes_all]).  In a cache
      without structured allocation the search for a slot returns, with distinct usable
      cells, or without a slot only when there is none ([slot_search]); placing a ubatch
      writes its tokens and purges what a sliding window has overwritten ([slot_apply]);
      the dry run of a batch finds the slots of placing its ubatches in order and
      restores the cells ([slot_prepare]).
    - Batches: what an accepted batch guarantees ([batch_init_accepts]), that one of
      its errors is never reported ([batch_never_incompatible]), what positions it
      generates ([batch_auto_positions]); each split selects what it says
      ([batch_split_equal], [batch_split_seq]), and splitting ends with every token in
      exactly one ubatch ([batch_split_partition]).
    - UTF-8: the encoder and the streaming decoder agree ([utf8_roundtrip]), and a cut
      character is incomplete, not invalid ([utf8_truncated]).
    - Grammars: the automaton decides the language of the grammar
      ([grammar_run_language], [grammar_accept_token]); exactly the tokens that cannot
      continue a word are masked ([grammar_reject_candidates]), and the others are
      accepted ([grammar_apply_accept]); expansion returns when the search for left
      recursion finds none ([left_recursion_search]), except for hidden left recursion
      ([hidden_left_recursion]); classes and cut characters ([grammar_match_class],
      [grammar_decode_pieces]); the parser returns well-formed rules or an error
      ([grammar_parse]), and from a text to the stacks of its root rule
      ([grammar_init], [undefined_root_symbol]); replay of lazy grammars
      ([lazy_grammar]).
    - Tries: a trie is the list of its distinct words ([trie_insert]), [check_at]
      agrees with a comparison with every word ([trie_check_at]), and the automaton reports
      the longest word that ends at each position ([aho_corasick_longest_match]).
    - Reasoning budget: the sampler is an abstract machine on the texts read
      ([budget_refinement]), which counts the budget exactly ([budget_exact]), forces
      its sequence in order ([budget_forcing]) and so ends each block, when every token
      ends a character ([budget_block_ends]).
    - Templates: the lexer is safe and terminates ([lexer_safe]), reads back the
      symbols of an expression ([lexer_roundtrip]) and plain text ([lexer_text]).  The parser
      returns a program or an exception on any tokens ([parser_total]), reads back every written
      program whose nodes pass the assertions of their constructors ([checked],
      [program_roundtrip]), and with the lexer the text of an expression
      ([template_roundtrip]).  The examples at the end of [JinjaParserExpr] show what it
      makes of some templates one would write otherwise.
    - Exact tail: every operation outside of a copy refines lists of entries, without an
      exception ([tail_refinement]); no slot is given twice, batches, settled copies, restored
      states and clones included ([tail_slots_safe]); a failed
      batch leaves nothing behind ([tail_transaction]); the tail is a window on the end of the
      sequence ([tail_keeps_newest]); a copy is a transaction ([copy_transaction]); what
      was saved is read back ([tail_state_roundtrip]) and cloned ([tail_clone]).
      Three examples show what goes wrong in the code around the store:
      [removed_while_pending_shares_a_slot], [copy_of_a_reused_cell_throws] and
      [failed_batch_is_not_readable].
    - Recurrent memory: the operations on sequences refine a map from sequences to
      positions and sharing ([recurrent_refinement]); a ubatch processes exactly the states
      of its sequences, though cells move ([recurrent_states]), and the dry run of a batch
      foretells that ([recurrent_batch]); saved states are read back, of all sequences
      ([recurrent_save_roundtrip]) and of one ([recurrent_restore_sequence]).  Examples show
      what goes wrong: [removal_of_all_breaks_the_next_batch], [rollbacks_do_not_add_up],
      [rollback_of_a_shared_state], and what is less than it seems:
      [range_before_the_state_is_kept], [restore_needs_the_sequences].
    - Cache requests and names: the names of components ([component_from_name]); a written
      request is read back ([tail_request_roundtrip]), and a request resolves exactly when it
      fits the groups of the cache ([tail_request_resolved]).

    ** Conventions

    An unsigned integer is a [Z] with its wrap-around written out ([u32], [u64]);
    signed overflow, a read out of range and a failed assertion are [None] or an
    error constructor.  A container of the code is the stdpp one with the same
    order and multiplicity.  What the code takes from elsewhere is a parameter: the
    vocabulary and the texts of its tokens, the matches of regular expressions, the
    logits (any type with a value for minus infinity).

    ** Fuel

    Recursion that is not structural takes fuel, and running out is a result of its
    own, which theorems exclude:
    - the depth of the expansion of stacks and of the search for left recursion is
      bounded by the number of rules ([GrammarTerm], [GrammarRec]); where no bound is
      given, the theorem states that some fuel gives a result and more fuel the same;
    - the parser of grammars, the lexer, [check_at] and the number parsers take one
      unit for each character left, and one or two more;
    - the breadth-first pass over a trie and the climb along failure links take one
      unit for each node and one more;
    - the split loop takes one unit for each token, and one more, and so do the loops of the
      template parser and its recursion, each turn of which takes a token;
    - the search for a slot takes two units for each cell, and three more: it tests each
      cell twice at most, and starts over twice at most; that for an empty cell of a
      recurrent memory looks at each cell once, as its loop does.

    ** Not modelled

    - src/ggml, src/src/models, src/src/llama-graph.cpp, llama-quant.cpp and the
      numeric parts of the caches: floating-point kernels and graphs.
    - The state files, the shifts and copies of tensor data, the graph inputs and the
      batch contexts of src/src/llama-kv-cache.cpp; the hybrid memories; the buffers of a
      recurrent memory, and its rollback snapshots in the theorems on states; the payload of the exact tail, the planning of its storage (the functions of
      src/src/llama-kv-cache-tail.cpp before the class), and its use by the cache ([KvCache]
      and [KvSlot] are about a cache without one).  A tail store after an exception is not
      modelled.
    - Of the modelled files: the printers ([ubatch_print], the printers of a
      grammar), logs and traces, allocation and release of C arrays,
      and [llama_tensor_split_counts] (in [long double], whose format depends on the
      platform).  The [int32_t] counter of the patterns of a trie is not bounded: it
      would take 2^31 words to overflow.
    - The vocabulary and its tokenisers (tables and regular expressions), samplers
      over floating-point distributions, the template interpreter, the
      chat parsers, speculative decoding, and everything that is input and output,
      threads or network (loading of models, src/tools, src/common/arg.cpp and the
      like). *)

From Stdlib Require Import ZArith Lia Ascii String.
From stdpp Require Export sorting base gmap sets strings countable list.
#[global] Open Scope Z_scope.

(** * Machine integers *)

(** Wrap-around of the unsigned C++ integer types, and the conversion to [int32_t]. *)
Definition u32 (x : Z) : Z := x mod 2 ^ 32.
Definition u64 (x : Z) : Z := x mod 2 ^ 64.
Definition i32 (x : Z) : Z := let y := u32 x in if y <? 2 ^ 31 then y else y - 2 ^ 32.
Definition UINT32_MAX : Z := 2 ^ 32 - 1.
Definition UINT64_MAX : Z := 2 ^ 64 - 1.

(** Values a signed 32-bit integer can hold: signed arithmetic that leaves this
    range is undefined behaviour in C++, so the models refuse it. *)
Definition in_i32 (x : Z) : bool := (- 2 ^ 31 <=? x) && (x <? 2 ^ 31).

Lemma u32_small x : 0 <= x < 2 ^ 32 -> u32 x = x.
Proof. apply Z.mod_small. Qed.

Lemma u64_small x : 0 <= x < 2 ^ 64 -> u64 x = x.
Proof. apply Z.mod_small. Qed.

Lemma i32_small x : 0 <= x < 2 ^ 31 -> i32 x = x.
Proof. intros H. unfold i32. rewrite u32_small by lia. destruct (Z.ltb_spec x (2 ^ 31)); lia. Qed.

Lemma u32_range x : 0 <= u32 x < 2 ^ 32.
Proof. apply Z.mod_pos_bound. lia. Qed.

Lemma in_i32_spec x : in_i32 x = true <-> - 2 ^ 31 <= x < 2 ^ 31.
Proof. unfold in_i32. lia. Qed.

(** * Errors *)

(** Calls that throw: [Error] carries what was thrown. *)
Inductive result (E A : Type) : Type :=
| Ok (a : A)
| Error (e : E).
Arguments Ok {E A} a.
Arguments Error {E A} e.

#[export] Instance result_ret {E} : MRet (result E) := fun A a => Ok a.
#[export] Instance result_bind {E} : MBind (result E) := fun A B k r =>
  match r with Ok a => k a | Error e => Error e end.
#[export] Instance result_fmap {E} : FMap (result E) := fun A B f r =>
  match r with Ok a => Ok (f a) | Error e => Error e end.

Definition is_ok {E A} (r : result E A) : bool :=
  match r with Ok _ => true | Error _ => false end.

(** A check that throws [e] when the condition fails. *)
Definition ensure {E} (b : bool) (e : E) : result E unit :=
  if b then Ok tt else Error e.

(** A run-time assertion: [None] is an assertion failure or another undefined
    behaviour of the C++ program. *)
Definition assert_ (b : bool) : option unit := if b then Some tt else None.

Lemma assert_Some b u : assert_ b = Some u <-> b = true.
Proof. destruct b, u; simpl; naive_solver. Qed.

Lemma ensure_Ok {E} b (e : E) u : ensure b e = Ok u <-> b = true.
Proof. destruct b, u; simpl; naive_solver. Qed.

Lemma bind_Ok {E A B} (r : result E A) (k : A -> result E B) b :
  (a ← r; k a) = Ok b -> exists a, r = Ok a /\ k a = Ok b.
Proof. destruct r; simpl; [eauto | discriminate]. Qed.

Lemma bind_Some_inv {A B} (r : option A) (k : A -> option B) b :
  (a ← r; k a) = Some b -> exists a, r = Some a /\ k a = Some b.
Proof. destruct r; simpl; [eauto | discriminate]. Qed.

(** Error types that also record undefined behaviour (an index out of range, a
    null pointer, a failed assertion, a signed overflow). *)
Class Undef (E : Type) := undefined : E.

(** [l[i]], [*p] and signed 32-bit arithmetic in such an error type. *)
Definition at_ {E A} `{Undef E} (l : list A) (i : nat) : result E A :=
  match l !! i with Some x => Ok x | None => Error undefined end.
Definition deref {E A} `{Undef E} (p : option A) : result E A :=
  match p with Some x => Ok x | None => Error undefined end.
Definition int_ {E} `{Undef E} (x : Z) : result E Z :=
  if in_i32 x then Ok x else Error undefined.

Lemma at_Ok {E A} `{Undef E} (l : list A) i x : at_ l i = Ok x <-> l !! i = Some x.
Proof. unfold at_. destruct (l !! i); naive_solver. Qed.

Lemma at_lookup {E A} `{Undef E} (l : list A) i x : l !! i = Some x -> at_ l i = Ok x.
Proof. apply at_Ok. Qed.

Lemma deref_Ok {E A} `{Undef E} (p : option A) x : deref p = Ok x <-> p = Some x.
Proof. unfold deref. destruct p; naive_solver. Qed.

Lemma int_Ok {E} `{Undef E} x y : int_ x = Ok y <-> in_i32 x = true /\ y = x.
Proof. unfold int_. destruct (in_i32 x); naive_solver. Qed.

(** [inv_run H] opens a successful run [H] of either monad into its steps. *)
Ltac inv_step H :=
  match type of H with
  | mbind _ _ = Some _ =>
      let x := fresh "x" in let Hx := fresh "Hx" in
      apply bind_Some_inv in H; destruct H as (x & Hx & H); inv_step Hx; inv_step H
  | mbind _ _ = Ok _ =>
      let x := fresh "x" in let Hx := fresh "Hx" in
      apply bind_Ok in H; destruct H as (x & Hx & H); inv_step Hx; inv_step H
  | assert_ _ = Some _ => apply assert_Some in H
  | ensure _ _ = Ok _ => apply ensure_Ok in H
  | at_ _ _ = Ok _ => apply at_Ok in H
  | deref _ = Ok _ => apply deref_Ok in H
  | int_ _ = Ok _ => apply int_Ok in H; destruct H as [? ->]
  | mret _ = Some _ => injection H as H; subst
  | mret _ = Ok _ => injection H as H; subst
  | Some _ = Some _ => injection H as H; subst
  | Ok _ = Ok _ => injection H as H; subst
  | _ => idtac
  end.
Ltac inv_run H := inv_step H; simplify_eq/=.
(** The same without simplifying the goal. *)
Ltac inv_ok H := inv_step H; simplify_eq.

(** Reduce the binds of a run whose first step is known, and nothing else. *)
Ltac bind_simpl :=
  cbn [mbind option_bind mret option_ret fmap option_fmap option_map assert_
       result_bind result_ret ensure].

(** Boolean hypotheses and goals to propositions. *)
Ltac bool_prop :=
  repeat match goal with
  | H : (_ && _)%bool = true |- _ => apply andb_true_iff in H; destruct H
  | H : (_ || _)%bool = false |- _ => apply orb_false_iff in H; destruct H
  | H : negb _ = true |- _ => apply negb_true_iff in H
  | H : negb _ = false |- _ => apply negb_false_iff in H
  | H : bool_decide _ = true |- _ => apply bool_decide_eq_true in H
  | H : bool_decide _ = false |- _ => apply bool_decide_eq_false in H
  end.

(** * Bytes and characters *)

(** A byte is a [Z] in [0, 256); a C++ string is a list of bytes. *)
Abbreviation bytes := (list Z).

Definition ch (a : ascii) : Z := Z.of_N (N_of_ascii a).
Arguments ch a%_char_scope.
Definition str (s : string) : bytes := map ch (list_ascii_of_string s).

Definition is_byte (b : Z) : Prop := 0 <= b < 256.

(** * Lists *)

Lemma sum_list_with_insert {A} (f : A -> nat) (l : list A) i x y :
  l !! i = Some x ->
  (sum_list_with f (<[i := y]> l) + f x = sum_list_with f l + f y)%nat.
Proof.
  revert i; induction l as [|a l IH]; intros [|i] H; simplify_eq/=; [lia|].
  specialize (IH i H). lia.
Qed.

Lemma sum_list_with_ext {A} (f g : A -> nat) (l : list A) :
  (forall x, x ∈ l -> f x = g x) -> sum_list_with f l = sum_list_with g l.
Proof.
  induction l as [|a l IH]; simpl; intros H; [done|].
  rewrite H by set_solver. f_equal. apply IH. set_solver.
Qed.

Lemma sum_list_with_pos {A} (f : A -> nat) (l : list A) :
  (0 < sum_list_with f l)%nat <-> exists i x, l !! i = Some x /\ (0 < f x)%nat.
Proof.
  induction l as [|a l IH]; simpl.
  - split; [lia|]. intros (i & x & H & _). by destruct i.
  - split.
    + intros H. destruct (decide (0 < f a)%nat) as [Ha|Ha]; [by exists 0%nat, a|].
      destruct (proj1 IH) as (i & x & Hi & Hx); [lia|]. by exists (S i), x.
    + intros ([|i] & x & Hi & Hx); simplify_eq/=; [lia|].
      assert (0 < sum_list_with f l)%nat by (apply IH; eauto). lia.
Qed.

Lemma sum_list_with_le_length {A} (f : A -> nat) (l : list A) :
  (forall x, f x <= 1)%nat -> (sum_list_with f l <= length l)%nat.
Proof.
  intros Hf. induction l as [|a l IH]; simpl; [done|]. specialize (Hf a). lia.
Qed.

Lemma sum_list_with_zero {A} (f : A -> nat) (l : list A) :
  (forall x, x ∈ l -> f x = 0%nat) -> sum_list_with f l = 0%nat.
Proof.
  induction l as [|a l IH]; simpl; intros H; [done|].
  rewrite H, IH by set_solver. done.
Qed.

(** Least and greatest element of a list, as [std::set::begin] and [rbegin]. *)
Definition list_min (l : list Z) : option Z :=
  match l with [] => None | x :: r => Some (foldr Z.min x r) end.
Definition list_max (l : list Z) : option Z :=
  match l with [] => None | x :: r => Some (foldr Z.max x r) end.

Lemma foldr_min_spec x (l : list Z) :
  foldr Z.min x l ∈ x :: l /\ forall y, y ∈ x :: l -> foldr Z.min x l <= y.
Proof.
  induction l as [|a l [IH1 IH2]]; simpl.
  - split; [set_solver|]. intros y ->%list_elem_of_singleton. lia.
  - split.
    + destruct (Z.min_spec a (foldr Z.min x l)) as [[_ ->]|[_ ->]]; set_solver.
    + intros y Hy. assert (y = a \/ y ∈ x :: l) as [->|Hy'] by set_solver; [lia|].
      specialize (IH2 y Hy'). lia.
Qed.

Lemma foldr_max_spec x (l : list Z) :
  foldr Z.max x l ∈ x :: l /\ forall y, y ∈ x :: l -> y <= foldr Z.max x l.
Proof.
  induction l as [|a l [IH1 IH2]]; simpl.
  - split; [set_solver|]. intros y ->%list_elem_of_singleton. lia.
  - split.
    + destruct (Z.max_spec a (foldr Z.max x l)) as [[_ ->]|[_ ->]]; set_solver.
    + intros y Hy. assert (y = a \/ y ∈ x :: l) as [->|Hy'] by set_solver; [lia|].
      specialize (IH2 y Hy'). lia.
Qed.

Lemma list_min_Some (l : list Z) m :
  list_min l = Some m <-> m ∈ l /\ forall y, y ∈ l -> m <= y.
Proof.
  destruct l as [|x l]; simpl; [split; [done|]; intros [H _]; set_solver|].
  destruct (foldr_min_spec x l) as [H1 H2]. split; [by intros [= <-]|].
  intros [H3 H4]. f_equal. apply Z.le_antisymm; auto.
Qed.

Lemma list_max_Some (l : list Z) m :
  list_max l = Some m <-> m ∈ l /\ forall y, y ∈ l -> y <= m.
Proof.
  destruct l as [|x l]; simpl; [split; [done|]; intros [H _]; set_solver|].
  destruct (foldr_max_spec x l) as [H1 H2]. split; [by intros [= <-]|].
  intros [H3 H4]. f_equal. apply Z.le_antisymm; auto.
Qed.

Lemma list_min_None (l : list Z) : list_min l = None <-> l = [].
Proof. by destruct l. Qed.

Lemma list_max_None (l : list Z) : list_max l = None <-> l = [].
Proof. by destruct l. Qed.

(** Loops over a list of indices that may fail or throw. *)
Section FoldM.
  Context {M : Type -> Type} `{!MRet M, !MBind M} {A St : Type}.
  Variable f : St -> A -> M St.

Fixpoint foldM (s : St) (l : list A) : M St :=
    match l with
    | [] => mret s
    | a :: l => s' ← f s a; foldM s' l
    end.
End FoldM.

Lemma foldM_app_Some {A St} (f : St -> A -> option St) s l k s' :
  foldM f s l = Some s' -> foldM f s (l ++ k) = foldM f s' k.
Proof.
  revert s. induction l as [|a l IH]; simpl; intros s H; [injection H as <-; done|].
  destruct (f s a); simpl in *; [by apply IH | done].
Qed.

(** An invariant of the loop body is an invariant of the loop. *)
Lemma foldM_inv {A St} (I : St -> Prop) (f : St -> A -> option St) l s s' :
  (forall a s1 s2, a ∈ l -> I s1 -> f s1 a = Some s2 -> I s2) ->
  I s -> foldM f s l = Some s' -> I s'.
Proof.
  revert s. induction l as [|a l IH]; simpl; intros s Hf Hs H; [injection H as <-; done|].
  inv_run H. apply (IH x); [|apply (Hf a s); [left|done..]|done].
  intros b s1 s2 Hb. apply Hf. by right.
Qed.

Lemma foldM_fmap {A B St} (f : St -> B -> option St) (g : A -> B) s l :
  foldM f s (g <$> l) = foldM (fun s a => f s (g a)) s l.
Proof.
  revert s. induction l as [|a l IH]; intros s; simpl; [done|].
  destruct (f s (g a)); simpl; [apply IH | done].
Qed.

(** The extrema of a list depend only on its elements. *)
Lemma list_min_ext (l k : list Z) : (forall y, y ∈ l <-> y ∈ k) -> list_min l = list_min k.
Proof.
  intros H. destruct (list_min l) as [m|] eqn:E; symmetry.
  - apply list_min_Some in E as [E1 E2]. apply list_min_Some. setoid_rewrite <- H. auto.
  - apply list_min_None in E as ->. apply list_min_None.
    destruct k as [|y k]; [done|]. exfalso. apply (not_elem_of_nil y), H. left.
Qed.

Lemma list_max_ext (l k : list Z) : (forall y, y ∈ l <-> y ∈ k) -> list_max l = list_max k.
Proof.
  intros H. destruct (list_max l) as [m|] eqn:E; symmetry.
  - apply list_max_Some in E as [E1 E2]. apply list_max_Some. setoid_rewrite <- H. auto.
  - apply list_max_None in E as ->. apply list_max_None.
    destruct k as [|y k]; [done|]. exfalso. apply (not_elem_of_nil y), H. left.
Qed.

(** * Sorted enumeration of finite sets of indices *)

Lemma StronglySorted_filter {A} (R : A -> A -> Prop) (P : A -> Prop) `{!forall x, Decision (P x)} l :
  StronglySorted R l -> StronglySorted R (filter P l).
Proof.
  induction 1 as [|a l Hl IH Ha]; [constructor|]. rewrite filter_cons.
  case_decide; [|done]. constructor; [done|]. apply Forall_forall.
  intros x [_ Hx]%list_elem_of_filter. rewrite Forall_forall in Ha. auto.
Qed.

Lemma StronglySorted_seq a n : StronglySorted le (List.seq a n).
Proof.
  revert a. induction n as [|n IH]; intros a; simpl; [constructor|].
  constructor; [apply IH|]. apply Forall_forall. intros x Hx%elem_of_seq. lia.
Qed.

(** Iterating a [std::set<uint32_t>] visits its elements in increasing order. *)
Lemma set_order (X : gset nat) (P : nat -> Prop) `{!forall x, Decision (P x)} n :
  (forall i, i ∈ X <-> P i /\ (i < n)%nat) ->
  merge_sort le (elements X) = filter P (List.seq 0 n).
Proof.
  intros HX. apply (StronglySorted_unique le).
  - apply StronglySorted_merge_sort; [apply _|]. intros x y. lia.
  - apply StronglySorted_filter, StronglySorted_seq.
  - rewrite merge_sort_Permutation. apply NoDup_Permutation.
    + apply NoDup_elements.
    + apply NoDup_filter, NoDup_seq.
    + intros i. rewrite elem_of_elements, HX, list_elem_of_filter, elem_of_seq. naive_solver lia.
Qed.

(** * Loops and gathers that may throw *)

Lemma mapM_Ok {E A B} (f : A -> result E B) (l : list A) (k : list B) :
  mapM f l = Ok k <-> Forall2 (fun x y => f x = Ok y) l k.
Proof.
  revert k. induction l as [|x l IH]; intros k; simpl.
  - split; [intros [= <-]; constructor | by intros ->%Forall2_nil_inv_l].
  - split.
    + intros H. inv_run H. constructor; [done|]. by apply IH.
    + intros (y & k' & Hy & Hk & ->)%Forall2_cons_inv_l. rewrite Hy. simpl.
      apply IH in Hk. rewrite Hk. done.
Qed.

(** A loop runs when its invariant guarantees that each iteration runs. *)
Lemma foldM_total {E A St} (I : list A -> St -> Prop) (f : St -> A -> result E St) l s :
  (forall pre a s1, pre ++ [a] `prefix_of` l -> I pre s1 ->
     exists s2, f s1 a = Ok s2 /\ I (pre ++ [a]) s2) ->
  I [] s -> exists s', foldM f s l = Ok s' /\ I l s'.
Proof.
  induction l as [|a l IH] using rev_ind; intros Hf Hs; [by exists s|].
  destruct IH as (s1 & E1 & H1); [|done|].
  { intros pre b s1 Hp. apply Hf. by apply prefix_app_r. }
  destruct (Hf l a s1) as (s2 & E2 & H2); [done..|]. exists s2. split; [|done].
  clear - E1 E2. revert s E1. induction l as [|b l IH]; intros s; simpl.
  - intros [= <-]. rewrite E2. done.
  - destruct (f s b); simpl; [apply IH | done].
Qed.

(** What a loop that ran establishes, iteration by iteration. *)
Lemma foldM_ok_inv {E A St} (I : list A -> St -> Prop) (f : St -> A -> result E St) l s s' :
  (forall pre a s1 s2, pre ++ [a] `prefix_of` l -> I pre s1 -> f s1 a = Ok s2 -> I (pre ++ [a]) s2) ->
  I [] s -> foldM f s l = Ok s' -> I l s'.
Proof.
  enough (forall pre l s, (forall p a s1 s2, p ++ [a] `prefix_of` pre ++ l -> I p s1 ->
    f s1 a = Ok s2 -> I (p ++ [a]) s2) -> I pre s -> foldM f s l = Ok s' -> I (pre ++ l) s') as Hgen.
  { intros Hf Hs. by apply (Hgen [] l s). }
  clear. intros pre l. revert pre. induction l as [|a l IH]; simpl; intros pre s Hf Hs H.
  - injection H as <-. by rewrite app_nil_r.
  - inv_run H. replace (pre ++ a :: l) with ((pre ++ [a]) ++ l) in * by by rewrite <- app_assoc.
    apply (IH _ x); [done| |done]. apply (Hf _ _ s); [by apply prefix_app_r | done..].
Qed.

Create HintDb errors.

(** A loop of checks passes when every check passes. *)
Lemma foldM_checks {E A} (f : A -> result E unit) (l : list A) u :
  foldM (fun _ => f) u l = Ok tt <-> Forall (fun a => f a = Ok tt) l.
Proof.
  revert u. induction l as [|a l IH]; intros u; simpl.
  - destruct u. split; [constructor | done].
  - rewrite Forall_cons, <- (IH tt). destruct (f a) as [[]|e]; simpl; naive_solver.
Qed.

(** [only P r]: the errors [r] can end with satisfy [P]. *)
Definition only {E A} (P : E -> Prop) (r : result E A) : Prop :=
  match r with Ok _ => True | Error e => P e end.

Section Only.
Context {E : Type} (P : E -> Prop).

Lemma only_ok {A} (a : A) : only P (Ok a).
Proof. done. Qed.

Lemma only_bind {A B} (r : result E A) (k : A -> result E B) :
  only P r -> (forall a, r = Ok a -> only P (k a)) -> only P (r ≫= k).
Proof. destruct r; simpl; auto. Qed.

Lemma only_fmap {A B} (r : result E A) (f : A -> B) : only P r -> only P (f <$> r).
Proof. by destruct r. Qed.

Lemma only_ensure b e : P e -> only P (ensure b e).
Proof. by destruct b. Qed.

Context `{!Undef E} (Hu : P undefined).

Lemma only_at {A} (l : list A) i : only P (at_ l i).
Proof. unfold at_. by destruct (l !! i). Qed.

Lemma only_deref {A} (p : option A) : only P (deref p).
Proof. by destruct p. Qed.

Lemma only_int x : only P (int_ x).
Proof. unfold int_. by destruct (in_i32 x). Qed.

Lemma only_foldM {A St} (f : St -> A -> result E St) s l :
  (forall s a, a ∈ l -> only P (f s a)) -> only P (foldM f s l).
Proof.
  revert s. induction l as [|a l IH]; intros s H; simpl; [done|].
  apply only_bind; [apply H; left|]. intros s' _. apply IH. intros ? ? ?. apply H. by right.
Qed.

(** With an invariant of the states the loop goes through. *)
Lemma only_foldM_inv {A St} (I : St -> Prop) (f : St -> A -> result E St) s l :
  (forall s a, a ∈ l -> I s -> only P (f s a) /\ forall s', f s a = Ok s' -> I s') ->
  I s -> only P (foldM f s l).
Proof.
  revert s. induction l as [|a l IH]; intros s H Hs; simpl; [done|].
  destruct (H s a) as [H1 H2]; [left|done|].
  apply only_bind; [done|]. intros s' E'. apply IH; [|by apply H2].
  intros ? ? ?. apply H. by right.
Qed.

Lemma only_mapM {A B} (f : A -> result E B) l :
  (forall a, a ∈ l -> only P (f a)) -> only P (mapM f l).
Proof.
  induction l as [|a l IH]; intros H; simpl; [done|].
  apply only_bind; [apply H; left|]. intros b _. apply only_bind; [|done].
  apply IH. intros ? ?. apply H. by right.
Qed.
End Only.

#[export] Hint Resolve only_ok only_bind only_fmap only_ensure only_at only_deref only_int
  only_foldM only_mapM : errors.

Lemma filter_all {A} (P : A -> Prop) `{!forall x, Decision (P x)} (l : list A) :
  (forall x, x ∈ l -> P x) -> filter P l = l.
Proof.
  induction l as [|x l IH]; intros Hl; [done|]. rewrite filter_cons_True by (apply Hl; left).
  f_equal. apply IH. intros y Hy. apply Hl. by right.
Qed.

Lemma filter_none {A} (P : A -> Prop) `{!forall x, Decision (P x)} (l : list A) :
  (forall x, x ∈ l -> ~ P x) -> filter P l = [].
Proof.
  intros HP. destruct (filter P l) as [|x k] eqn:E; [done|]. assert (x ∈ filter P l) as Hx by (rewrite E; left).
  apply list_elem_of_filter in Hx as [Hx Hl]. by destruct (HP x Hl).
Qed.

Lemma elem_of_drop {A} (l : list A) n x : x ∈ drop n l -> x ∈ l.
Proof. intros H. rewrite <- (take_drop n l). apply elem_of_app. by right. Qed.

Lemma elem_of_take' {A} (l : list A) n x : x ∈ take n l -> x ∈ l.
Proof. intros H. rewrite <- (take_drop n l). apply elem_of_app. by left. Qed.

Lemma StronglySorted_lt_seq k n : StronglySorted lt (List.seq k n).
Proof.
  revert k. induction n as [|n IH]; intros k; simpl; constructor; [apply IH|].
  apply Forall_forall. intros i Hi%elem_of_seq. lia.
Qed.

Lemma mapM_exists {E A B} (f : A -> result E B) (l : list A) :
  (forall x, x ∈ l -> exists y, f x = Ok y) -> exists k, mapM f l = Ok k.
Proof.
  induction l as [|x l IH]; intros Hf; [by exists []|].
  destruct (Hf x) as [y Hy]; [left|]. destruct IH as [k Hk]; [intros z Hz; apply Hf; by right|].
  exists (y :: k). cbn [mapM]. rewrite Hy. bind_simpl. by rewrite Hk.
Qed.

Lemma gather_omap {E A} `{Undef E} (l k : list A) (idxs : list nat) :
  Forall2 (fun i y => at_ (E := E) l i = Ok y) idxs k -> k = omap (fun i => l !! i) idxs.
Proof.
  induction 1 as [|i y idxs k Hy HF IH]; [done|]. apply at_Ok in Hy. simpl. rewrite Hy. by f_equal.
Qed.

Lemma at_exists {E A} `{Undef E} (l : list A) i : (i < length l)%nat -> exists y, at_ (E := E) l i = Ok y.
Proof. intros [y Hy]%lookup_lt_is_Some_2. exists y. by apply at_Ok. Qed.

Lemma lookup_concat_rows {A} (rows : list (list A)) m j x :
  Forall (fun r => length r = m) rows -> (x < m)%nat ->
  concat rows !! (j * m + x)%nat = rows !! j ≫= (fun r => r !! x).
Proof.
  intros HF Hx. revert j. induction HF as [|r rows Hr HF IH]; intros j; [done|]. cbn [concat].
  destruct j as [|j]; simpl.
  - apply lookup_app_l. lia.
  - rewrite lookup_app_r by lia. rewrite <- IH. f_equal. lia.
Qed.

(** * Counting loops *)

Lemma foldM_app {E A St} (f : St -> A -> result E St) s l k :
  foldM f s (l ++ k) = (s' ← foldM f s l; foldM f s' k).
Proof.
  revert s. induction l as [|a l IH]; intros s; [done|]. cbn [foldM app].
  destruct (f s a); bind_simpl; [apply IH | done].
Qed.

Lemma for_snoc {E St} (f : St -> nat -> result E St) s n :
  foldM f s (List.seq 0 (S n)) = (s' ← foldM f s (List.seq 0 n); f s' n).
Proof.
  rewrite seq_S, foldM_app. destruct (foldM f s (List.seq 0 n)); [|done]. bind_simpl. cbn [foldM].
  simpl. destruct (f _ _); done.
Qed.

(** What a counting loop that ran establishes. *)
Lemma for_inv {E St} (I : nat -> St -> Prop) (f : St -> nat -> result E St) n s s' :
  (forall i s1 s2, (i < n)%nat -> I i s1 -> f s1 i = Ok s2 -> I (S i) s2) ->
  I 0%nat s -> foldM f s (List.seq 0 n) = Ok s' -> I n s'.
Proof.
  revert s'. induction n as [|n IH]; intros s' Hf Hs H; [by injection H as <-|].
  rewrite for_snoc in H. apply bind_Ok in H as (s1 & H1 & H2).
  apply (Hf n s1); [lia| |done]. apply IH; [|done..]. intros i ? ? ?. apply Hf. lia.
Qed.

(** A counting loop runs when its invariant makes every iteration run. *)
Lemma for_total {E St} (I : nat -> St -> Prop) (f : St -> nat -> result E St) n s :
  (forall i s1, (i < n)%nat -> I i s1 -> exists s2, f s1 i = Ok s2 /\ I (S i) s2) ->
  I 0%nat s -> exists s', foldM f s (List.seq 0 n) = Ok s' /\ I n s'.
Proof.
  induction n as [|n IH]; intros Hf Hs; [by exists s|].
  destruct IH as (s1 & E1 & H1); [intros i ? ?; apply Hf; lia|done|].
  destruct (Hf n s1) as (s2 & E2 & H2); [lia|done|]. exists s2. split; [|done].
  rewrite for_snoc, E1. done.
Qed.

(** A set of [hi - lo + 1] integers between [lo] and [hi] holds all of them. *)
Lemma full_interval (X : gset Z) lo hi :
  (forall p, p ∈ X -> lo <= p <= hi) -> hi - lo + 1 <= Z.of_nat (base.size X) ->
  forall p, lo <= p <= hi -> p ∈ X.
Proof.
  intros HX Hsize p Hp. assert (X ⊆ list_to_set (seqZ lo (hi - lo + 1))) as Hsub.
  { intros q Hq%HX. apply elem_of_list_to_set, elem_of_seqZ. lia. }
  assert (X = list_to_set (seqZ lo (hi - lo + 1))) as Heq.
  { apply set_subseteq_size_eq; [done|]. rewrite size_list_to_set by apply NoDup_seqZ.
    rewrite length_seqZ. lia. }
  rewrite Heq. apply elem_of_list_to_set, elem_of_seqZ. lia.
Qed.

Lemma filter_iff_in {A} (P Q : A -> Prop) `{!forall x, Decision (P x), !forall x, Decision (Q x)} (l : list A) :
  (forall x, x ∈ l -> P x <-> Q x) -> filter P l = filter Q l.
Proof.
  induction l as [|x l IH]; intros Hl; [done|]. rewrite !filter_cons.
  rewrite IH by (intros y Hy; apply Hl; by right). specialize (Hl x (list_elem_of_here _ _)).
  repeat case_decide; tauto.
Qed.

(** Walks through a computation whose errors are to satisfy a predicate, leaving
    the errors it throws itself as goals. *)
Ltac only_step :=
  match goal with
  | |- only _ (Ok _) => exact I
  | |- only _ (mret _) => exact I
  | |- only _ (mbind _ _) => apply only_bind; [|intros]
  | |- only _ (fmap _ _) => apply only_fmap
  | |- only _ (ensure _ _) => apply only_ensure
  | |- only _ (at_ _ _) => apply only_at
  | |- only _ (deref _) => apply only_deref
  | |- only _ (int_ _) => apply only_int
  | |- only _ (foldM _ _ _) => apply only_foldM; intros
  | |- only _ (mapM _ _) => apply only_mapM; intros
  | |- only _ (if ?b then _ else _) => destruct b
  | |- only _ (match ?x with _ => _ end) => destruct x
  | |- only _ (let '(_, _) := ?x in _) => destruct x
  end.
Ltac only_solve := repeat only_step.

(** * Bits *)

Lemma lor_shiftl_add a x n :
  0 <= n -> 0 <= x < 2 ^ n -> Z.lor (Z.shiftl a n) x = a * 2 ^ n + x.
Proof.
  intros Hn Hx. assert (Z.land (Z.shiftl a n) x = 0) as H0.
  { apply Z.bits_inj'. intros m Hm. rewrite Z.land_spec, Z.bits_0, Z.shiftl_spec by done.
    destruct (Z.ltb_spec m n) as [Hlt|Hge]; [by rewrite Z.testbit_neg_r by lia|].
    destruct (decide (x = 0)) as [->|Hx0]; [by rewrite Z.bits_0, andb_false_r|].
    rewrite (Z.bits_above_log2 x m); [apply andb_false_r|lia|].
    assert (Z.log2 x < n) by (apply Z.log2_lt_pow2; lia). lia. }
  rewrite <- Z.lxor_lor, <- Z.add_nocarry_lxor by done. by rewrite Z.shiftl_mul_pow2.
Qed.

(** A boolean test on a number of a small range, by trying them all. *)
Lemma below_forallb (P : Z -> bool) n :
  forallb P (seqZ 0 n) = true -> forall x, 0 <= x < n -> P x = true.
Proof.
  intros H x Hx. rewrite forallb_forall in H. apply H, list_elem_of_In, elem_of_seqZ. lia.
Qed.
