(* ===== verification/StableSort.v ===== *)
(** The stable sort of the C++ library ([std::list::sort], [std::stable_sort]) and the
    insertion of one element after those that are not greater. *)

From S2P Require Import Prelude.

Section Sort.
Context {A : Type} (lt : A -> A -> bool).

Fixpoint insert_sorted (x : A) (l : list A) : list A :=
  match l with
  | [] => [x]
  | y :: k => if lt x y then x :: l else y :: insert_sorted x k
  end.

Definition stable_sort (l : list A) : list A := foldl (fun acc x => insert_sorted x acc) [] l.

Definition not_gt (x y : A) : Prop := lt y x = false.

Abbreviation Sorted_by := (StronglySorted not_gt).

Lemma insert_sorted_perm x l : insert_sorted x l ≡ₚ x :: l.
Proof.
  induction l as [|y l IH]; simpl; [done|]. destruct (lt x y); [done|]. rewrite IH. constructor.
Qed.

Lemma elem_of_insert_sorted x y l : y ∈ insert_sorted x l <-> y = x \/ y ∈ l.
Proof. by rewrite insert_sorted_perm, elem_of_cons. Qed.

Lemma length_insert_sorted x l : length (insert_sorted x l) = S (length l).
Proof. by rewrite insert_sorted_perm. Qed.

Lemma foldl_insert_perm l acc : foldl (fun acc x => insert_sorted x acc) acc l ≡ₚ l ++ acc.
Proof.
  revert acc. induction l as [|x l IH]; intros acc; simpl; [done|].
  rewrite IH, insert_sorted_perm. by rewrite Permutation_middle.
Qed.

Lemma stable_sort_perm l : stable_sort l ≡ₚ l.
Proof. unfold stable_sort. by rewrite foldl_insert_perm, app_nil_r. Qed.

Lemma elem_of_stable_sort x l : x ∈ stable_sort l <-> x ∈ l.
Proof. by rewrite stable_sort_perm. Qed.

Lemma length_stable_sort l : length (stable_sort l) = length l.
Proof. by rewrite stable_sort_perm. Qed.

(** An element that is not smaller than any other goes to the end. *)
Lemma insert_sorted_end x l : (forall y, y ∈ l -> lt x y = false) -> insert_sorted x l = l ++ [x].
Proof.
  induction l as [|y l IH]; intros H; simpl; [done|]. rewrite H by left.
  by rewrite IH by (intros z Hz; apply H; by right).
Qed.

(** In general it goes between those that are not greater and a greater one. *)
Lemma insert_sorted_split x l : exists l1 l2, l = l1 ++ l2 /\ insert_sorted x l = l1 ++ x :: l2 /\
  (forall y, y ∈ l1 -> lt x y = false) /\ (forall y, head l2 = Some y -> lt x y = true).
Proof.
  induction l as [|y l IH]; simpl.
  { exists [], []. repeat split; [by intros z Hz%elem_of_nil|done]. }
  destruct (lt x y) eqn:E.
  - exists [], (y :: l). repeat split; [by intros z Hz%elem_of_nil|by intros z [= <-]].
  - destruct IH as (l1 & l2 & -> & -> & H1 & H2). exists (y :: l1), l2. repeat split; [|done].
    intros z [->|Hz]%elem_of_cons; auto.
Qed.

Section Order.
Hypothesis lt_asym : forall x y, lt x y = true -> lt y x = false.
Hypothesis not_gt_trans : forall x y z, not_gt x y -> not_gt y z -> not_gt x z.

Lemma insert_sorted_sorted x l : Sorted_by l -> Sorted_by (insert_sorted x l).
Proof.
  induction 1 as [|y l Hs IH Hf]; simpl; [by repeat constructor|]. destruct (lt x y) eqn:E.
  - assert (not_gt x y) by (by apply lt_asym). constructor; [by constructor|]. constructor; [done|].
    apply (Forall_impl _ _ _ Hf). eauto.
  - constructor; [done|]. rewrite Forall_forall in *. intros z [->|Hz]%elem_of_insert_sorted; [done|auto].
Qed.

Lemma stable_sort_sorted l : Sorted_by (stable_sort l).
Proof.
  unfold stable_sort. assert (Sorted_by []) as H by constructor. revert H. generalize (@nil A) as acc.
  induction l as [|x l IH]; intros acc H; simpl; [done|]. by apply IH, insert_sorted_sorted.
Qed.
End Order.

Lemma stable_sort_id l : Sorted_by l -> stable_sort l = l.
Proof.
  unfold stable_sort. assert (forall acc, Sorted_by (acc ++ l) ->
    foldl (fun acc x => insert_sorted x acc) acc l = acc ++ l) as H; [|intros Hs; by apply (H [])].
  induction l as [|x l IH]; intros acc Hs; simpl; [by rewrite app_nil_r|].
  rewrite insert_sorted_end.
  - rewrite IH; rewrite <- app_assoc; done.
  - intros y Hy. apply (StronglySorted_app_1_elem_of not_gt acc (x :: l) y x); [done|done|left].
Qed.

Lemma insert_sorted_last x l :
  (forall x y z, not_gt x y -> not_gt y z -> not_gt x z) -> Sorted_by l ->
  match last l with None => True | Some b => lt x b = false end -> insert_sorted x l = l ++ [x].
Proof.
  intros Htrans Hs Hl. apply insert_sorted_end. intros y Hy.
  destruct (last l) as [b|] eqn:E; [|apply last_None in E as ->; set_solver].
  apply last_Some in E as [k ->]. apply elem_of_app in Hy as [Hy|Hy%list_elem_of_singleton]; [|by subst].
  apply (Htrans y b x); [|done]. apply (StronglySorted_app_1_elem_of not_gt k [b] y b); [done|done|left].
Qed.
End Sort.

Abbreviation Sorted_by lt := (StronglySorted (not_gt lt)).

(** Sorting by a key. *)
Lemma insert_sorted_fmap {A B} (f : A -> B) (lt : A -> A -> bool) (lt' : B -> B -> bool) x l :
  (forall x y, lt' (f x) (f y) = lt x y) ->
  f <$> insert_sorted lt x l = insert_sorted lt' (f x) (f <$> l).
Proof.
  intros H. induction l as [|y l IH]; simpl; [done|]. rewrite H. destruct (lt x y); simpl; [done|].
  by f_equal.
Qed.

Lemma stable_sort_fmap {A B} (f : A -> B) (lt : A -> A -> bool) (lt' : B -> B -> bool) l :
  (forall x y, lt' (f x) (f y) = lt x y) -> f <$> stable_sort lt l = stable_sort lt' (f <$> l).
Proof.
  intros H. unfold stable_sort. change (@nil B) with (f <$> @nil A). generalize (@nil A) as acc.
  induction l as [|x l IH]; intros acc; simpl; [done|]. by rewrite IH, (insert_sorted_fmap f lt lt').
Qed.

Lemma Sorted_by_fmap {A B} (f : A -> B) (lt : A -> A -> bool) (lt' : B -> B -> bool) l :
  (forall x y, lt' (f x) (f y) = lt x y) -> Sorted_by lt' (f <$> l) <-> Sorted_by lt l.
Proof.
  intros H. induction l as [|x l IH]; simpl; [split; constructor|].
  split; intros Hs; apply StronglySorted_inv in Hs as [Hs Hf]; constructor; try (by apply IH).
  - rewrite Forall_fmap in Hf. apply (Forall_impl _ _ _ Hf). unfold not_gt. intros y. simpl. by rewrite H.
  - apply Forall_fmap, (Forall_impl _ _ _ Hf). unfold not_gt. intros y. simpl. by rewrite H.
Qed.
