(* ===== verification/KvCells.v ===== *)
(** Metadata of the KV cache cells: [class llama_kv_cells] of
    src/llama-kv-cells.h. A cell is free or holds a token position, extra 2D
    coordinates, a pending shift and the set of sequences it belongs to; the
    class maintains the set of used cells and, per sequence, a multiset of
    positions and a cell counter. The file models every operation of the class,
    proves that the redundant indices always agree with the cells, and relates
    the class to an abstract specification: a plain array of cells. *)

From Stdlib Require Import ZArith Lia.
From S2P Require Import Prelude.

Definition LLAMA_MAX_SEQ : Z := 256.

Module Cells.

#[local] Arguments seqZ : simpl never.

Record llama_kv_cell_ext := mk_ext { ext_x : Z; ext_y : Z }.

Definition ext_zero : llama_kv_cell_ext := mk_ext 0 0.

#[export] Instance llama_kv_cell_ext_eq_dec : EqDecision llama_kv_cell_ext.
Proof. solve_decision. Defined.

Definition is_2d_gt (e : llama_kv_cell_ext) (ox oy : Z) : bool :=
  (oy <? ext_y e) || ((ext_y e =? oy) && (ox <? ext_x e)).

(** [std::bitset<LLAMA_MAX_SEQ>] is the finite set of its set bits;
    [std::set<uint32_t>] and [std::map<llama_pos, int>] are finite sets and
    maps; the vectors and arrays are lists. *)
Record llama_kv_cells := mk_cells {
  has_shift : bool;
  used : gset nat;
  pos : list Z;
  ext : list llama_kv_cell_ext;
  shift : list Z;
  seq : list (gset Z);
  seq_pos : list (gmap Z Z);
  seq_used : list Z
}.

Definition with_pos (c : llama_kv_cells) v :=
  mk_cells (has_shift c) (used c) v (ext c) (shift c) (seq c) (seq_pos c) (seq_used c).
Definition with_ext (c : llama_kv_cells) v :=
  mk_cells (has_shift c) (used c) (pos c) v (shift c) (seq c) (seq_pos c) (seq_used c).
Definition with_shift (c : llama_kv_cells) v :=
  mk_cells (has_shift c) (used c) (pos c) (ext c) v (seq c) (seq_pos c) (seq_used c).
Definition with_seq (c : llama_kv_cells) v :=
  mk_cells (has_shift c) (used c) (pos c) (ext c) (shift c) v (seq_pos c) (seq_used c).
Definition with_used (c : llama_kv_cells) v :=
  mk_cells (has_shift c) v (pos c) (ext c) (shift c) (seq c) (seq_pos c) (seq_used c).
Definition with_has_shift (c : llama_kv_cells) v :=
  mk_cells v (used c) (pos c) (ext c) (shift c) (seq c) (seq_pos c) (seq_used c).
Definition with_index (c : llama_kv_cells) sp su :=
  mk_cells (has_shift c) (used c) (pos c) (ext c) (shift c) (seq c) sp su.

(** [seq[i]], as a bitset. *)
Definition seq_at (c : llama_kv_cells) (i : nat) : option (gset Z) := seq c !! i.

(** ** Operations

    [None] is a failed [assert], an access outside a vector, or the [std::out_of_range] that a
    bitset throws for a sequence id it has no bit for. *)

(** [test], [set] and [reset] of a bitset do not throw. *)
Definition has_bit (s : Z) : bool := (0 <=? s) && (s <? LLAMA_MAX_SEQ).

Definition cells_init : llama_kv_cells :=
  mk_cells false ∅ [] [] [] []
    (replicate (Z.to_nat LLAMA_MAX_SEQ) ∅) (replicate (Z.to_nat LLAMA_MAX_SEQ) 0).

Definition reset (c : llama_kv_cells) : llama_kv_cells :=
  let n := length (pos c) in
  mk_cells false ∅ (replicate n (-1)) (replicate n ext_zero) (replicate n 0) (replicate n ∅)
    (replicate (Z.to_nat LLAMA_MAX_SEQ) ∅) (replicate (Z.to_nat LLAMA_MAX_SEQ) 0).

Definition reset_shift (c : llama_kv_cells) : llama_kv_cells :=
  with_has_shift (with_shift c (replicate (length (shift c)) 0)) false.

Definition size (c : llama_kv_cells) : nat := length (pos c).

Definition resize (n : nat) (c : llama_kv_cells) : llama_kv_cells :=
  reset (mk_cells (has_shift c) (used c)
    (list.resize n 0 (pos c)) (list.resize n ext_zero (ext c)) (list.resize n 0 (shift c))
    (list.resize n ∅ (seq c)) (seq_pos c) (seq_used c)).

Definition is_empty (c : llama_kv_cells) (i : nat) : option bool :=
  p ← pos c !! i;
  assert_ ((p =? -1) || (0 <=? p));;
  Some (p =? -1).

Definition get_used (c : llama_kv_cells) : nat := base.size (used c).

Definition used_min (c : llama_kv_cells) : Z :=
  default 0 (list_min (Z.of_nat <$> elements (used c))).

Definition used_max_p1 (c : llama_kv_cells) : Z :=
  match list_max (Z.of_nat <$> elements (used c)) with None => 0 | Some m => m + 1 end.

(** *** The per-sequence index *)

Definition seq_pos_dec (c : llama_kv_cells) (s p : Z) : option llama_kv_cells :=
  m ← seq_pos c !! Z.to_nat s;
  cnt ← m !! p;
  u ← seq_used c !! Z.to_nat s;
  assert_ (0 <? u);;
  let m' := if cnt - 1 =? 0 then delete p m else <[p := cnt - 1]> m in
  Some (with_index c (<[Z.to_nat s := m']> (seq_pos c))
                     (<[Z.to_nat s := u32 (u - 1)]> (seq_used c))).

Definition seq_pos_inc (c : llama_kv_cells) (s p : Z) : option llama_kv_cells :=
  m ← seq_pos c !! Z.to_nat s;
  u ← seq_used c !! Z.to_nat s;
  Some (with_index c (<[Z.to_nat s := <[p := default 0 (m !! p) + 1]> m]> (seq_pos c))
                     (<[Z.to_nat s := u32 (u + 1)]> (seq_used c))).

Definition seq_pos_rm (c : llama_kv_cells) (i : nat) : option llama_kv_cells :=
  p ← pos c !! i;
  b ← seq_at c i;
  foldM (fun c s => if bool_decide (s ∈ b) then seq_pos_dec c s p else Some c)
    c (seqZ 0 LLAMA_MAX_SEQ).

Definition seq_pos_add (c : llama_kv_cells) (i : nat) : option llama_kv_cells :=
  p ← pos c !! i;
  b ← seq_at c i;
  foldM (fun c s => if bool_decide (s ∈ b) then seq_pos_inc c s p else Some c)
    c (seqZ 0 LLAMA_MAX_SEQ).

(** *** Mutators *)

(** [pos[i] = -1; ext[i].reset(); shift[i] = 0; used.erase(i);] *)
Definition clear_cell (c : llama_kv_cells) (i : nat) : llama_kv_cells :=
  with_used (with_shift (with_ext (with_pos c
    (<[i := -1]> (pos c))) (<[i := ext_zero]> (ext c))) (<[i := 0]> (shift c))) (used c ∖ {[i]}).

Definition rm (c : llama_kv_cells) (i : nat) : option llama_kv_cells :=
  p ← pos c !! i;
  assert_ (negb (p =? -1));;
  c ← seq_pos_rm c i;
  Some (clear_cell (with_seq c (<[i := ∅]> (seq c))) i).

Definition seq_rm (c : llama_kv_cells) (i : nat) (s : Z) : option (llama_kv_cells * bool) :=
  p ← pos c !! i;
  b ← seq_at c i;
  assert_ (bool_decide (s ∈ b));;
  assert_ (negb (p =? -1));;
  assert_ (0 <=? s);;
  let b' := b ∖ {[s]} in
  c ← seq_pos_dec (with_seq c (<[i := b']> (seq c))) s p;
  if bool_decide (b' = ∅) then Some (clear_cell c i, true) else Some (c, false).

Definition seq_rm_cell (c : llama_kv_cells) (i : nat) (s : Z) : option (llama_kv_cells * bool) :=
  p ← pos c !! i;
  b ← seq_at c i;
  assert_ (0 <=? s);;
  if p =? -1 then Some (c, false) else
  assert_ (has_bit s);;
  if negb (bool_decide (s ∈ b)) then Some (c, false) else seq_rm c i s.

Definition seq_keep (c : llama_kv_cells) (i : nat) (s : Z) : option (llama_kv_cells * bool) :=
  p ← pos c !! i;
  b ← seq_at c i;
  assert_ (has_bit s);;
  if bool_decide (s ∈ b) then
    c ← seq_pos_rm c i;
    c ← seq_pos_inc (with_seq c (<[i := {[s]}]> (seq c))) s p;
    Some (c, false)
  else if negb (bool_decide (b = ∅)) then
    c ← seq_pos_rm c i;
    Some (clear_cell (with_seq c (<[i := ∅]> (seq c))) i, true)
  else
    assert_ (p =? -1);;
    Some (c, false).

Definition seq_add (c : llama_kv_cells) (i : nat) (s : Z) : option llama_kv_cells :=
  p ← pos c !! i;
  b ← seq_at c i;
  assert_ (negb (p =? -1));;
  assert_ (negb (bool_decide (s ∈ b)));;
  assert_ ((0 <=? s) && (s <? LLAMA_MAX_SEQ));;
  seq_pos_inc (with_seq c (<[i := b ∪ {[s]}]> (seq c))) s p.

Definition pos_set (c : llama_kv_cells) (i : nat) (p : Z) : option llama_kv_cells :=
  p0 ← pos c !! i;
  b ← seq_at c i;
  assert_ (p0 =? -1);;
  assert_ (bool_decide (b = ∅));;
  Some (with_used (with_pos c (<[i := p]> (pos c))) (used c ∪ {[i]})).

Definition ext_set (c : llama_kv_cells) (i : nat) (e : llama_kv_cell_ext) : option llama_kv_cells :=
  _ ← ext c !! i;
  Some (with_ext c (<[i := e]> (ext c))).

Definition pos_add (c : llama_kv_cells) (i : nat) (d : Z) : option (llama_kv_cells * bool) :=
  p ← pos c !! i;
  sh ← shift c !! i;
  assert_ (negb (p =? -1));;
  c ← seq_pos_rm c i;
  assert_ (in_i32 (p + d));;
  assert_ (in_i32 (sh + d));;
  let c := with_has_shift (with_shift (with_pos c
             (<[i := p + d]> (pos c))) (<[i := sh + d]> (shift c))) true in
  if p + d <? 0 then
    Some (with_used (with_shift (with_pos (with_seq c
      (<[i := ∅]> (seq c))) (<[i := -1]> (pos c))) (<[i := 0]> (shift c))) (used c ∖ {[i]}), true)
  else
    c ← seq_pos_add c i;
    Some (c, false).

Definition pos_div (c : llama_kv_cells) (i : nat) (d : Z) : option llama_kv_cells :=
  p ← pos c !! i;
  sh ← shift c !! i;
  assert_ (negb (p =? -1));;
  assert_ (negb (d =? 0));;
  c ← seq_pos_rm c i;
  let p' := Z.quot p d in
  assert_ (in_i32 (sh + (p - p')));;
  c ← seq_pos_add (with_shift (with_pos c (<[i := p']> (pos c)))
                     (<[i := sh + (p - p')]> (shift c))) i;
  Some (with_has_shift c true).

(** *** Saving and restoring cells *)

(** One iteration of the copy loop: [res] receives cell [idx] at [j]. *)
Definition cp_cell (c res : llama_kv_cells) (j idx : nat) : option llama_kv_cells :=
  p ← pos c !! idx;
  e ← ext c !! idx;
  b ← seq_at c idx;
  sh ← shift c !! idx;
  assert_ (sh =? 0);;
  Some (with_seq (with_ext (with_pos res
    (<[j := p]> (pos res))) (<[j := e]> (ext res))) (<[j := b]> (seq res))).

Definition cp (c : llama_kv_cells) (i n : nat) : option llama_kv_cells :=
  assert_ (bool_decide (i + n <= length (pos c))%nat);;
  foldM (fun res j => cp_cell c res j (i + j)) (resize n cells_init) (List.seq 0 n).

Definition cp_idxs (c : llama_kv_cells) (idxs : list nat) : option llama_kv_cells :=
  foldM (fun res (ji : nat * nat) => cp_cell c res ji.1 ji.2)
    (resize (length idxs) cells_init) (imap pair idxs).

(** One iteration of the restore loop: cell [idx] receives cell [j] of [o]. *)
Definition set_cell (o c : llama_kv_cells) (j idx : nat) : option llama_kv_cells :=
  p ← pos c !! idx;
  op ← pos o !! j;
  oe ← ext o !! j;
  ob ← seq_at o j;
  let c := if (p =? -1) && negb (op =? -1) then with_used c (used c ∪ {[idx]}) else c in
  let c := if negb (p =? -1) && (op =? -1) then with_used c (used c ∖ {[idx]}) else c in
  c ← (if negb (p =? -1) then seq_pos_rm c idx else Some c);
  let c := with_seq (with_ext (with_pos c
             (<[idx := op]> (pos c))) (<[idx := oe]> (ext c))) (<[idx := ob]> (seq c)) in
  c ← (if negb (op =? -1) then seq_pos_add c idx else Some c);
  sh ← shift c !! idx;
  assert_ (sh =? 0);;
  Some c.

Definition set (c : llama_kv_cells) (i : nat) (o : llama_kv_cells) : option llama_kv_cells :=
  assert_ (bool_decide (i + length (pos o) <= length (pos c))%nat);;
  foldM (fun c j => set_cell o c j (i + j)) c (List.seq 0 (length (pos o))).

Definition set_idxs (c : llama_kv_cells) (idxs : list nat) (o : llama_kv_cells) : option llama_kv_cells :=
  assert_ (bool_decide (length idxs = length (pos o)));;
  foldM (fun c (ji : nat * nat) => set_cell o c ji.1 ji.2) c (imap pair idxs).

(** *** Queries *)

Definition seq_count (c : llama_kv_cells) (i : nat) : option nat :=
  p ← pos c !! i;
  b ← seq_at c i;
  assert_ (negb (p =? -1));;
  Some (base.size b).

Definition seq_has (c : llama_kv_cells) (i : nat) (s : Z) : option bool :=
  b ← seq_at c i;
  assert_ (has_bit s);;
  Some (bool_decide (s ∈ b)).

Definition seq_size (c : llama_kv_cells) (s : Z) : option Z :=
  assert_ ((0 <=? s) && (s <? LLAMA_MAX_SEQ));;
  seq_used c !! Z.to_nat s.

Definition seq_get (c : llama_kv_cells) (i : nat) : option Z :=
  b ← seq_at c i;
  assert_ (bool_decide (base.size b = 1%nat));;
  Some (default (-1) (head (filter (fun s => s ∈ b) (seqZ 0 LLAMA_MAX_SEQ)))).

Definition seq_pos_min (c : llama_kv_cells) (s : Z) : option Z :=
  assert_ ((0 <=? s) && (s <? LLAMA_MAX_SEQ));;
  m ← seq_pos c !! Z.to_nat s;
  match list_min (map_to_list m).*1 with
  | None => Some (-1)
  | Some p => cnt ← m !! p; assert_ (0 <? cnt);; Some p
  end.

Definition seq_pos_max (c : llama_kv_cells) (s : Z) : option Z :=
  assert_ ((0 <=? s) && (s <? LLAMA_MAX_SEQ));;
  m ← seq_pos c !! Z.to_nat s;
  match list_max (map_to_list m).*1 with
  | None => Some (-1)
  | Some p => cnt ← m !! p; assert_ (0 <? cnt);; Some p
  end.

Definition pos_get (c : llama_kv_cells) (i : nat) : option Z :=
  p ← pos c !! i; assert_ (negb (p =? -1));; Some p.

Definition ext_get (c : llama_kv_cells) (i : nat) : option llama_kv_cell_ext :=
  p ← pos c !! i; assert_ (negb (p =? -1));; ext c !! i.

Definition get_shift (c : llama_kv_cells) (i : nat) : option Z :=
  p ← pos c !! i; assert_ (negb (p =? -1));; shift c !! i.

Definition pos_in (c : llama_kv_cells) (i : nat) (p0 p1 : Z) : option bool :=
  p ← pos c !! i; Some ((p0 <=? p) && (p <? p1)).

(** [used] is iterated in increasing order. *)
Definition cells_at (c : llama_kv_cells) (s p : Z) : option (list nat) :=
  assert_ (0 <=? s);;
  foldM (fun res i =>
    q ← pos c !! i;
    b ← seq_at c i;
    if q =? p then assert_ (has_bit s);; Some (if bool_decide (s ∈ b) then res ++ [i] else res)
    else Some res)
    [] (merge_sort le (elements (used c))).

(** ** Abstract specification

    What the class promises: an array of cells, each operation replacing one of
    them. The preconditions are the "call only if" comments of the source. *)

Record cell := mk_cell {
  c_pos : Z; c_ext : llama_kv_cell_ext; c_shift : Z; c_seq : gset Z
}.

Definition free : cell := mk_cell (-1) ext_zero 0 ∅.

(** Cells that can occur: a free cell is in no sequence and has no shift. *)
Definition cell_ok (x : cell) : Prop :=
  -1 <= c_pos x < 2 ^ 31 /\
  (c_pos x = -1 -> c_seq x = ∅ /\ c_shift x = 0) /\
  set_Forall (fun s => 0 <= s < LLAMA_MAX_SEQ) (c_seq x).

#[export] Instance cell_ok_dec x : Decision (cell_ok x).
Proof. unfold cell_ok. apply _. Defined.

Inductive kv_op :=
| Rm (i : nat)
| SeqRm (i : nat) (s : Z)
| SeqRmCell (i : nat) (s : Z)
| SeqKeep (i : nat) (s : Z)
| SeqAdd (i : nat) (s : Z)
| PosSet (i : nat) (p : Z)
| ExtSet (i : nat) (e : llama_kv_cell_ext)
| PosAdd (i : nat) (d : Z)
| PosDiv (i : nat) (d : Z)
| ResetShift
| Reset
| Resize (n : nat)
| SetAt (i : nat) (o : llama_kv_cells)
| SetIdxs (idxs : list nat) (o : llama_kv_cells).

Definition no_result (r : option llama_kv_cells) : option (llama_kv_cells * bool) :=
  (fun c => (c, false)) <$> r.

(** The class: an operation either fails an assertion or gives the new state and
    the returned boolean ([false] for the operations that return nothing). *)
Definition run_op (o : kv_op) (c : llama_kv_cells) : option (llama_kv_cells * bool) :=
  match o with
  | Rm i => no_result (rm c i)
  | SeqRm i s => seq_rm c i s
  | SeqRmCell i s => seq_rm_cell c i s
  | SeqKeep i s => seq_keep c i s
  | SeqAdd i s => no_result (seq_add c i s)
  | PosSet i p => no_result (pos_set c i p)
  | ExtSet i e => no_result (ext_set c i e)
  | PosAdd i d => pos_add c i d
  | PosDiv i d => no_result (pos_div c i d)
  | ResetShift => Some (reset_shift c, false)
  | Reset => Some (reset c, false)
  | Resize n => Some (resize n c, false)
  | SetAt i o => no_result (set c i o)
  | SetIdxs idxs o => no_result (set_idxs c idxs o)
  end.

Definition spec := (list cell * bool)%type.

Definition spec_seq_rm (l : list cell) (i : nat) (x : cell) (s : Z) : list cell * bool :=
  let b' := c_seq x ∖ {[s]} in
  if bool_decide (b' = ∅) then (<[i := free]> l, true)
  else (<[i := mk_cell (c_pos x) (c_ext x) (c_shift x) b']> l, false).

(** The cells of a snapshot made by [cp]. *)
Definition snapshot (o : llama_kv_cells) : list cell :=
  zip_with (fun pe b => mk_cell pe.1 pe.2 0 b) (zip (pos o) (ext o)) (seq o).

Fixpoint spec_set (l : list cell) (js : list (nat * cell)) : option (list cell) :=
  match js with
  | [] => Some l
  | (i, y) :: js =>
      x ← l !! i;
      assert_ ((c_shift x =? 0) && bool_decide (cell_ok y));;
      spec_set (<[i := y]> l) js
  end.

Definition spec_op (o : kv_op) (st : spec) : option (spec * bool) :=
  let '(l, h) := st in
  match o with
  | Rm i =>
      x ← l !! i; assert_ (negb (c_pos x =? -1));; Some ((<[i := free]> l, h), false)
  | SeqRm i s =>
      x ← l !! i; assert_ (bool_decide (s ∈ c_seq x));;
      let '(l', r) := spec_seq_rm l i x s in Some ((l', h), r)
  | SeqRmCell i s =>
      x ← l !! i; assert_ (has_bit s);;
      if bool_decide (s ∈ c_seq x) then
        let '(l', r) := spec_seq_rm l i x s in Some ((l', h), r)
      else Some ((l, h), false)
  | SeqKeep i s =>
      x ← l !! i; assert_ (has_bit s);;
      if bool_decide (s ∈ c_seq x) then
        Some ((<[i := mk_cell (c_pos x) (c_ext x) (c_shift x) {[s]}]> l, h), false)
      else if bool_decide (c_seq x = ∅) then
        assert_ (c_pos x =? -1);; Some ((l, h), false)
      else Some ((<[i := free]> l, h), true)
  | SeqAdd i s =>
      x ← l !! i;
      assert_ (negb (c_pos x =? -1) && negb (bool_decide (s ∈ c_seq x)) &&
               (0 <=? s) && (s <? LLAMA_MAX_SEQ));;
      Some ((<[i := mk_cell (c_pos x) (c_ext x) (c_shift x) (c_seq x ∪ {[s]})]> l, h), false)
  | PosSet i p =>
      x ← l !! i;
      assert_ ((c_pos x =? -1) && (0 <=? p) && (p <? 2 ^ 31));;
      Some ((<[i := mk_cell p (c_ext x) 0 ∅]> l, h), false)
  | ExtSet i e =>
      x ← l !! i;
      Some ((<[i := mk_cell (c_pos x) e (c_shift x) (c_seq x)]> l, h), false)
  | PosAdd i d =>
      x ← l !! i;
      assert_ (negb (c_pos x =? -1) && in_i32 (c_pos x + d) && in_i32 (c_shift x + d));;
      if c_pos x + d <? 0 then Some ((<[i := mk_cell (-1) (c_ext x) 0 ∅]> l, true), true)
      else Some ((<[i := mk_cell (c_pos x + d) (c_ext x) (c_shift x + d) (c_seq x)]> l, true), false)
  | PosDiv i d =>
      x ← l !! i;
      let p' := Z.quot (c_pos x) d in
      assert_ (negb (c_pos x =? -1) && (0 <? d) && in_i32 (c_shift x + (c_pos x - p')));;
      Some ((<[i := mk_cell p' (c_ext x) (c_shift x + (c_pos x - p')) (c_seq x)]> l, true), false)
  | ResetShift =>
      Some (((fun x => mk_cell (c_pos x) (c_ext x) 0 (c_seq x)) <$> l, false), false)
  | Reset => Some ((replicate (length l) free, false), false)
  | Resize n =>
      assert_ (Z.of_nat n <? 2 ^ 32);; Some ((replicate n free, false), false)
  | SetAt i o =>
      assert_ (bool_decide (i + length (pos o) <= length l)%nat &&
               bool_decide (length (ext o) = length (pos o)) &&
               bool_decide (length (seq o) = length (pos o)));;
      l' ← spec_set l (imap (fun j y => (i + j, y)%nat) (snapshot o));
      Some ((l', h), false)
  | SetIdxs idxs o =>
      assert_ (bool_decide (length idxs = length (pos o)) &&
               bool_decide (length (ext o) = length (pos o)) &&
               bool_decide (length (seq o) = length (pos o)));;
      l' ← spec_set l (zip idxs (snapshot o));
      Some ((l', h), false)
  end.

(** *** The representation relation *)

Definition in_cell (s p : Z) (x : cell) : nat :=
  if bool_decide (c_pos x = p /\ s ∈ c_seq x) then 1 else 0.
Definition of_seq (s : Z) (x : cell) : nat := if bool_decide (s ∈ c_seq x) then 1 else 0.

(** How many cells of [l] hold position [p] of sequence [s], and how many belong to [s]. *)
Definition count (l : list cell) (s p : Z) : nat := sum_list_with (in_cell s p) l.
Definition total (l : list cell) (s : Z) : nat := sum_list_with (of_seq s) l.

Definition tracks (sp : list (gmap Z Z)) (su : list Z) (F : Z -> Z -> nat) (G : Z -> nat) : Prop :=
  length sp = Z.to_nat LLAMA_MAX_SEQ /\ length su = Z.to_nat LLAMA_MAX_SEQ /\
  forall s, 0 <= s < LLAMA_MAX_SEQ ->
    su !! Z.to_nat s = Some (Z.of_nat (G s)) /\
    exists m, sp !! Z.to_nat s = Some m /\
      forall p, m !! p = match F s p with O => None | k => Some (Z.of_nat k) end.

Record rep (c : llama_kv_cells) (l : list cell) (h : bool) : Prop := {
  rep_pos : pos c = c_pos <$> l;
  rep_ext : ext c = c_ext <$> l;
  rep_shift : shift c = c_shift <$> l;
  rep_seq : seq c = c_seq <$> l;
  rep_has_shift : has_shift c = h;
  rep_size : Z.of_nat (length l) < 2 ^ 32;
  rep_ok : forall i x, l !! i = Some x -> cell_ok x;
  rep_used : forall i, i ∈ used c <-> exists x, l !! i = Some x /\ c_pos x <> -1;
  rep_index : tracks (seq_pos c) (seq_used c) (count l) (total l)
}.

(** ** The per-sequence index follows the cells *)

Lemma tracks_ext sp su F G F' G' :
  tracks sp su F G ->
  (forall s p, 0 <= s < LLAMA_MAX_SEQ -> F s p = F' s p) ->
  (forall s, 0 <= s < LLAMA_MAX_SEQ -> G s = G' s) ->
  tracks sp su F' G'.
Proof.
  intros (H1 & H2 & H) HF HG. split; [done|]. split; [done|]. intros s Hs.
  destruct (H s Hs) as (Hu & m & Hm & Hp). rewrite <- HG by done. split; [done|].
  exists m. split; [done|]. intros p. by rewrite <- HF, Hp.
Qed.

Lemma tracks_lookup sp su F G s :
  tracks sp su F G -> 0 <= s < LLAMA_MAX_SEQ ->
  su !! Z.to_nat s = Some (Z.of_nat (G s)) /\
  exists m, sp !! Z.to_nat s = Some m /\
    forall p, m !! p = match F s p with O => None | k => Some (Z.of_nat k) end.
Proof. intros (_ & _ & H). apply H. Qed.

(** Replacing the entries of one sequence. *)
Lemma tracks_update sp su F G s m' g F' :
  tracks sp su F G -> 0 <= s < LLAMA_MAX_SEQ ->
  (forall p, m' !! p = match F' p with O => None | k => Some (Z.of_nat k) end) ->
  tracks (<[Z.to_nat s := m']> sp) (<[Z.to_nat s := Z.of_nat g]> su)
    (fun s' p => if decide (s' = s) then F' p else F s' p)
    (fun s' => if decide (s' = s) then g else G s').
Proof.
  intros (H1 & H2 & H) Hs Hm. split; [by rewrite length_insert|].
  split; [by rewrite length_insert|]. intros s' Hs'.
  destruct (decide (s' = s)) as [->|Hne].
  - rewrite !list_lookup_insert_eq by lia. eauto.
  - rewrite !list_lookup_insert_ne by lia. by apply H.
Qed.

Definition hit (s p : Z) : Z -> Z -> nat :=
  fun s' p' => if bool_decide (s' = s /\ p' = p) then 1%nat else 0%nat.
Definition hit1 (s : Z) : Z -> nat := fun s' => if bool_decide (s' = s) then 1%nat else 0%nat.

Ltac solve_hit :=
  unfold hit, hit1, in_cell, of_seq in *; simpl in *;
  repeat case_bool_decide; repeat case_decide; set_unfold; destruct_and?; subst;
  first [lia | exfalso; naive_solver | destruct_or?; subst; first [lia | exfalso; naive_solver]].

Lemma seq_pos_dec_tracks c F G s p :
  tracks (seq_pos c) (seq_used c) F G -> 0 <= s < LLAMA_MAX_SEQ ->
  (0 < F s p)%nat -> (0 < G s)%nat -> Z.of_nat (G s) < 2 ^ 32 ->
  exists sp su, seq_pos_dec c s p = Some (with_index c sp su) /\
    tracks sp su (fun s' p' => F s' p' - hit s p s' p')%nat (fun s' => G s' - hit1 s s')%nat.
Proof.
  intros HT Hs HF HG HG'. destruct (tracks_lookup _ _ _ _ s HT Hs) as (Hu & m & Hm & Hp).
  unfold seq_pos_dec. rewrite Hm; simpl. rewrite Hp; simpl.
  destruct (F s p) as [|k] eqn:Ek; [lia|]. simpl. rewrite Hu; simpl.
  replace (0 <? Z.of_nat (G s)) with true by lia. simpl. do 2 eexists. split; [done|].
  rewrite u32_small by lia. replace (Z.of_nat (G s) - 1) with (Z.of_nat (G s - 1)) by lia.
  eapply tracks_ext; [eapply (tracks_update _ _ _ _ s _ _ (fun p' => F s p' - hit s p s p')%nat HT Hs)|..].
  - intros p'. destruct (decide (p' = p)) as [->|Hne].
    + unfold hit. rewrite bool_decide_eq_true_2, Ek by done.
      replace (S k - 1)%nat with k by lia. case_match eqn:E0.
      * apply Z.eqb_eq in E0. destruct k; [apply lookup_delete_eq | lia].
      * apply Z.eqb_neq in E0. rewrite lookup_insert_eq. destruct k; [lia|]. f_equal. lia.
    + unfold hit. rewrite bool_decide_eq_false_2 by naive_solver. rewrite Nat.sub_0_r.
      case_match; rewrite ?lookup_delete_ne, ?lookup_insert_ne by done; apply Hp.
  - intros s' p' _. simpl. case_decide; [by subst|]. unfold hit.
    rewrite bool_decide_eq_false_2 by naive_solver. lia.
  - intros s' _. simpl. solve_hit.
Qed.

Lemma seq_pos_inc_tracks c F G s p :
  tracks (seq_pos c) (seq_used c) F G -> 0 <= s < LLAMA_MAX_SEQ ->
  Z.of_nat (G s) + 1 < 2 ^ 32 ->
  exists sp su, seq_pos_inc c s p = Some (with_index c sp su) /\
    tracks sp su (fun s' p' => F s' p' + hit s p s' p')%nat (fun s' => G s' + hit1 s s')%nat.
Proof.
  intros HT Hs HG. destruct (tracks_lookup _ _ _ _ s HT Hs) as (Hu & m & Hm & Hp).
  unfold seq_pos_inc. rewrite Hm; simpl. rewrite Hu; simpl. do 2 eexists. split; [done|].
  rewrite u32_small by lia. replace (Z.of_nat (G s) + 1) with (Z.of_nat (G s + 1)) by lia.
  eapply tracks_ext; [eapply (tracks_update _ _ _ _ s _ _ (fun p' => F s p' + hit s p s p')%nat HT Hs)|..].
  - intros p'. destruct (decide (p' = p)) as [->|Hne].
    + rewrite lookup_insert_eq, Hp. unfold hit. rewrite bool_decide_eq_true_2 by done.
      destruct (F s p); simpl; [done|]. f_equal. lia.
    + rewrite lookup_insert_ne, Hp by done. unfold hit.
      rewrite bool_decide_eq_false_2, Nat.add_0_r by naive_solver. done.
  - intros s' p' _. simpl. case_decide; [by subst|]. unfold hit.
    rewrite bool_decide_eq_false_2 by naive_solver. lia.
  - intros s' _. simpl. solve_hit.
Qed.

Lemma rm_loop_tracks (b : gset Z) p L c F G :
  tracks (seq_pos c) (seq_used c) F G -> NoDup L ->
  (forall s, s ∈ L -> 0 <= s < LLAMA_MAX_SEQ) ->
  (forall s, s ∈ L -> s ∈ b -> (0 < F s p)%nat /\ (0 < G s)%nat /\ Z.of_nat (G s) < 2 ^ 32) ->
  exists sp su,
    foldM (fun c s => if bool_decide (s ∈ b) then seq_pos_dec c s p else Some c) c L
      = Some (with_index c sp su) /\
    tracks sp su
      (fun s' p' => F s' p' - if bool_decide (s' ∈ L /\ s' ∈ b /\ p' = p) then 1 else 0)%nat
      (fun s' => G s' - if bool_decide (s' ∈ L /\ s' ∈ b) then 1 else 0)%nat.
Proof.
  revert c F G. induction L as [|s L IH]; intros c F G HT HN HL Hb; simpl.
  - exists (seq_pos c), (seq_used c). split; [by destruct c|].
    eapply tracks_ext; [exact HT|..]; intros; simpl; lia.
  - apply NoDup_cons in HN as [HsL HN].
    case_bool_decide as Hs.
    + destruct (Hb s) as (HF & HG & HG'); [left|done|].
      destruct (seq_pos_dec_tracks c F G s p HT) as (sp & su & E & HT'); [apply HL; left|done..|].
      rewrite E; simpl.
      edestruct (IH (with_index c sp su)) as (sp' & su' & E' & HT''); [exact HT'|done| | |].
      * intros; apply HL; by right.
      * intros s' Hs' Hb'. destruct (Hb s') as (? & ? & ?); [by right|done|].
        assert (s' <> s) by (by intros ->).
        clear - H H0 H1 H2. solve_hit.
      * rewrite E'. do 2 eexists. split; [done|].
        eapply tracks_ext; [exact HT''|..]; intros; cbn beta; clear - HsL Hs; solve_hit.
    + edestruct (IH c) as (sp' & su' & E' & HT''); [exact HT|done| | |].
      * intros; apply HL; by right.
      * intros; apply Hb; [by right|done].
      * simpl. rewrite E'. do 2 eexists. split; [done|].
        eapply tracks_ext; [exact HT''|..]; intros; cbn beta; clear - HsL Hs; solve_hit.
Qed.

Lemma add_loop_tracks (b : gset Z) p L c F G :
  tracks (seq_pos c) (seq_used c) F G -> NoDup L ->
  (forall s, s ∈ L -> 0 <= s < LLAMA_MAX_SEQ) ->
  (forall s, s ∈ L -> s ∈ b -> Z.of_nat (G s) + 1 < 2 ^ 32) ->
  exists sp su,
    foldM (fun c s => if bool_decide (s ∈ b) then seq_pos_inc c s p else Some c) c L
      = Some (with_index c sp su) /\
    tracks sp su
      (fun s' p' => F s' p' + if bool_decide (s' ∈ L /\ s' ∈ b /\ p' = p) then 1 else 0)%nat
      (fun s' => G s' + if bool_decide (s' ∈ L /\ s' ∈ b) then 1 else 0)%nat.
Proof.
  revert c F G. induction L as [|s L IH]; intros c F G HT HN HL Hb; simpl.
  - exists (seq_pos c), (seq_used c). split; [by destruct c|].
    eapply tracks_ext; [exact HT|..]; intros; simpl; lia.
  - apply NoDup_cons in HN as [HsL HN].
    case_bool_decide as Hs.
    + destruct (seq_pos_inc_tracks c F G s p HT) as (sp & su & E & HT');
        [apply HL; left|apply Hb; [left|done]|].
      rewrite E; simpl.
      edestruct (IH (with_index c sp su)) as (sp' & su' & E' & HT''); [exact HT'|done| | |].
      * intros; apply HL; by right.
      * intros s' Hs' Hb'. specialize (Hb s' ltac:(by right) Hb').
        assert (s' <> s) by (by intros ->). clear - Hb H. solve_hit.
      * rewrite E'. do 2 eexists. split; [done|].
        eapply tracks_ext; [exact HT''|..]; intros; cbn beta; clear - HsL Hs; solve_hit.
    + edestruct (IH c) as (sp' & su' & E' & HT''); [exact HT|done| | |].
      * intros; apply HL; by right.
      * intros; apply Hb; [by right|done].
      * simpl. rewrite E'. do 2 eexists. split; [done|].
        eapply tracks_ext; [exact HT''|..]; intros; cbn beta; clear - HsL Hs; solve_hit.
Qed.

(** ** Facts about the representation relation *)

Lemma count_insert l i x y s p :
  l !! i = Some x ->
  (count (<[i := y]> l) s p + in_cell s p x = count l s p + in_cell s p y)%nat.
Proof. apply sum_list_with_insert. Qed.

Lemma total_insert l i x y s :
  l !! i = Some x ->
  (total (<[i := y]> l) s + of_seq s x = total l s + of_seq s y)%nat.
Proof. apply sum_list_with_insert. Qed.

Lemma in_cell_le l i x s p : l !! i = Some x -> (in_cell s p x <= count l s p)%nat.
Proof. intros H. apply (sum_list_with_in x (in_cell s p)). by eapply list_elem_of_lookup_2. Qed.

Lemma of_seq_le l i x s : l !! i = Some x -> (of_seq s x <= total l s)%nat.
Proof. intros H. apply (sum_list_with_in x (of_seq s)). by eapply list_elem_of_lookup_2. Qed.

Lemma total_le l s : (total l s <= length l)%nat.
Proof. apply sum_list_with_le_length. intros x. unfold of_seq. case_bool_decide; lia. Qed.

Section Rep.
  Context (c : llama_kv_cells) (l : list cell) (h : bool) (HR : rep c l h).

Lemma rep_at i x : l !! i = Some x ->
    pos c !! i = Some (c_pos x) /\ ext c !! i = Some (c_ext x) /\
    shift c !! i = Some (c_shift x) /\ seq_at c i = Some (c_seq x).
  Proof.
    intros Hx. unfold seq_at.
    rewrite (rep_pos _ _ _ HR), (rep_ext _ _ _ HR), (rep_shift _ _ _ HR), (rep_seq _ _ _ HR).
    by rewrite !list_lookup_fmap, Hx.
  Qed.

Lemma rep_at_free i x : l !! i = Some x -> c_pos x = -1 -> c_seq x = ∅ /\ c_shift x = 0.
  Proof. intros Hx. by apply (rep_ok _ _ _ HR i x Hx). Qed.

Lemma rep_at_seq i x s : l !! i = Some x -> s ∈ c_seq x -> c_pos x <> -1.
  Proof. intros Hx Hs Hp. destruct (rep_at_free i x Hx Hp) as [He _]. set_solver. Qed.

Lemma rep_at_bits i x s : l !! i = Some x -> s ∈ c_seq x -> 0 <= s < LLAMA_MAX_SEQ.
  Proof. intros Hx. apply (rep_ok _ _ _ HR i x Hx). Qed.

Lemma total_lt s : Z.of_nat (total l s) < 2 ^ 32.
  Proof. pose proof (total_le l s). pose proof (rep_size _ _ _ HR). lia. Qed.

  (** Replacing one cell, when the index is adjusted accordingly. *)
Lemma rep_insert i x y c' h' F G :
    l !! i = Some x -> cell_ok y -> has_shift c' = h' ->
    pos c' = <[i := c_pos y]> (pos c) -> ext c' = <[i := c_ext y]> (ext c) ->
    shift c' = <[i := c_shift y]> (shift c) -> seq c' = <[i := c_seq y]> (seq c) ->
    (forall j, j ∈ used c' <-> (j = i /\ c_pos y <> -1) \/ (j <> i /\ j ∈ used c)) ->
    tracks (seq_pos c') (seq_used c') F G ->
    (forall s p, (F s p + in_cell s p x = count l s p + in_cell s p y)%nat) ->
    (forall s, (G s + of_seq s x = total l s + of_seq s y)%nat) ->
    rep c' (<[i := y]> l) h'.
  Proof.
    intros Hx Hy Hh Hpos Hext Hsh Hseq Hused HT HF HG. destruct HR as [R1 R2 R3 R4 R5 R6 R7 R8 R9].
    split; try done;
      try (rewrite ?Hpos, ?Hext, ?Hsh, ?Hseq, list_fmap_insert; congruence).
    - by rewrite length_insert.
    - intros j z. destruct (decide (j = i)) as [->|Hne].
      + rewrite list_lookup_insert_eq by (by eapply lookup_lt_Some). by intros [= <-].
      + rewrite list_lookup_insert_ne by done. apply R7.
    - intros j. rewrite Hused, R8. destruct (decide (j = i)) as [->|Hne].
      + rewrite list_lookup_insert_eq by (by eapply lookup_lt_Some). naive_solver.
      + rewrite list_lookup_insert_ne by done. naive_solver.
    - eapply tracks_ext; [exact HT|..].
      + intros s p _. pose proof (count_insert l i x y s p Hx). specialize (HF s p). lia.
      + intros s _. pose proof (total_insert l i x y s Hx). specialize (HG s). lia.
  Qed.
End Rep.

(** [seq_pos_rm] takes the cell out of the index, [seq_pos_add] puts it in. *)
Lemma seq_pos_rm_tracks c i x F G :
  pos c !! i = Some (c_pos x) -> seq_at c i = Some (c_seq x) -> cell_ok x ->
  tracks (seq_pos c) (seq_used c) F G ->
  (forall s p, in_cell s p x <= F s p)%nat -> (forall s, of_seq s x <= G s)%nat ->
  (forall s, Z.of_nat (G s) < 2 ^ 32) ->
  exists sp su, seq_pos_rm c i = Some (with_index c sp su) /\
    tracks sp su (fun s p => F s p - in_cell s p x)%nat (fun s => G s - of_seq s x)%nat.
Proof.
  intros Hp Hb (_ & _ & Hbits) HT HF HG Hlt. unfold seq_pos_rm. rewrite Hp; bind_simpl. rewrite Hb; bind_simpl.
  destruct (rm_loop_tracks (c_seq x) (c_pos x) (seqZ 0 LLAMA_MAX_SEQ) c F G)
    as (sp & su & E & HT'); [done|apply NoDup_seqZ|..].
  - intros s Hs%elem_of_seqZ. lia.
  - intros s _ Hs. specialize (HF s (c_pos x)). specialize (HG s). specialize (Hlt s).
    revert HF HG. unfold in_cell, of_seq. rewrite !bool_decide_eq_true_2 by done. lia.
  - rewrite E. do 2 eexists. split; [done|]. eapply tracks_ext; [exact HT'|..]; intros; simpl.
    + f_equal. unfold in_cell. erewrite bool_decide_ext; [done|]. rewrite elem_of_seqZ. clear - H. intuition lia.
    + f_equal. unfold of_seq. erewrite bool_decide_ext; [done|]. rewrite elem_of_seqZ. clear - H. intuition lia.
Qed.

Lemma seq_pos_add_tracks c i x F G :
  pos c !! i = Some (c_pos x) -> seq_at c i = Some (c_seq x) ->
  tracks (seq_pos c) (seq_used c) F G ->
  (forall s, s ∈ c_seq x -> Z.of_nat (G s) + 1 < 2 ^ 32) ->
  exists sp su, seq_pos_add c i = Some (with_index c sp su) /\
    tracks sp su (fun s p => F s p + in_cell s p x)%nat (fun s => G s + of_seq s x)%nat.
Proof.
  intros Hp Hb HT Hlt. unfold seq_pos_add. rewrite Hp; bind_simpl. rewrite Hb; bind_simpl.
  destruct (add_loop_tracks (c_seq x) (c_pos x) (seqZ 0 LLAMA_MAX_SEQ) c F G)
    as (sp & su & E & HT'); [done|apply NoDup_seqZ|..].
  - intros s Hs%elem_of_seqZ. lia.
  - intros s _. apply Hlt.
  - rewrite E. do 2 eexists. split; [done|]. eapply tracks_ext; [exact HT'|..]; intros; simpl.
    + f_equal. unfold in_cell. erewrite bool_decide_ext; [done|]. rewrite elem_of_seqZ. clear - H. intuition lia.
    + f_equal. unfold of_seq. erewrite bool_decide_ext; [done|]. rewrite elem_of_seqZ. clear - H. intuition lia.
Qed.

Lemma rep_seq_pos_rm c l h i x :
  rep c l h -> l !! i = Some x ->
  exists sp su, seq_pos_rm c i = Some (with_index c sp su) /\
    tracks sp su (fun s p => count l s p - in_cell s p x)%nat
                 (fun s => total l s - of_seq s x)%nat.
Proof.
  intros HR Hx. destruct (rep_at _ _ _ HR i x Hx) as (Hp & _ & _ & Hb).
  apply seq_pos_rm_tracks; [done|done|by eapply rep_ok| apply HR|..]; intros.
  - by eapply in_cell_le.
  - by eapply of_seq_le.
  - by eapply total_lt.
Qed.

Lemma rep_used_at c l h i x :
  rep c l h -> l !! i = Some x -> c_pos x <> -1 <-> i ∈ used c.
Proof. intros HR Hx. rewrite (rep_used _ _ _ HR). naive_solver. Qed.

Lemma in_cell_nil s p x : c_seq x = ∅ -> in_cell s p x = 0%nat.
Proof. intros E. unfold in_cell. rewrite bool_decide_eq_false_2 by (rewrite E; set_solver). done. Qed.

Lemma of_seq_nil s x : c_seq x = ∅ -> of_seq s x = 0%nat.
Proof. intros E. unfold of_seq. rewrite bool_decide_eq_false_2 by (rewrite E; set_solver). done. Qed.

Lemma cell_ok_free : cell_ok free.
Proof. unfold cell_ok, set_Forall; simpl. split; [lia|]. split; [done|set_solver]. Qed.

(** Side conditions of [rep_insert]. *)
Ltac solve_field :=
  simpl; first [done | symmetry; apply list_insert_id; unfold seq_at in *; assumption].

Ltac solve_used HR Hx :=
  let j := fresh "j" in intros j; simpl; pose proof (rep_used_at _ _ _ _ _ HR Hx);
  match type of Hx with _ !! ?i = _ => destruct (decide (j = i)) as [->|]; set_solver end.

Ltac solve_count Hx :=
  intros; cbn beta;
  repeat match goal with
  | |- context [count ?l ?s ?p] =>
      lazymatch goal with H : (in_cell s p _ <= count l s p)%nat |- _ => fail | _ =>
        pose proof (in_cell_le _ _ _ s p Hx) end
  | |- context [total ?l ?s] =>
      lazymatch goal with H : (of_seq s _ <= total l s)%nat |- _ => fail | _ =>
        pose proof (of_seq_le _ _ _ s Hx) end
  end;
  repeat match goal with
  | |- context [in_cell ?s ?p ?y] => rewrite (in_cell_nil s p y eq_refl)
  | |- context [of_seq ?s ?y] => rewrite (of_seq_nil s y eq_refl)
  end;
  first [lia | solve_hit].

(** The simulation of one operation: the class does not fail and refines the array. *)
Definition simulates (o : kv_op) : Prop :=
  forall c l h l' h' r, rep c l h -> spec_op o (l, h) = Some ((l', h'), r) ->
  exists c', run_op o c = Some (c', r) /\ rep c' l' h'.

Lemma rm_sim i : simulates (Rm i).
Proof.
  intros c l h l' h' r HR H; simpl in *. inv_run H.
  destruct (rep_at _ _ _ HR i _ Hx) as (Hp & He & Hs & Hb).
  destruct (rep_seq_pos_rm _ _ _ _ _ HR Hx) as (sp & su & E & HT).
  unfold rm. rewrite Hp; bind_simpl. rewrite Hx0; bind_simpl. rewrite E; bind_simpl.
  eexists; split; [done|].
  eapply (rep_insert _ _ _ HR i _ free); [exact Hx|exact cell_ok_free|apply HR|..|exact HT| |];
    try solve_field; [solve_used HR Hx|solve_count Hx..].
Qed.

(** Opens a specification step: the cell [x] at [i] and what the vectors hold there. *)
Ltac open_sim HR H Hx :=
  intros c l h l' h' r HR H; simpl in H; inv_step H; simplify_eq/=;
  let Hp := fresh "Hp" in let He := fresh "He" in let Hs := fresh "Hs" in let Hb := fresh "Hb" in
  destruct (rep_at _ _ _ HR _ _ Hx) as (Hp & He & Hs & Hb).

Lemma difference_singleton_empty (b : gset Z) s : s ∈ b -> b ∖ {[s]} = ∅ -> b = {[s]}.
Proof. intros Hs Hb. apply set_eq. intros y. destruct (decide (y = s)); set_solver. Qed.

Lemma seq_rm_at c l h i x s :
  rep c l h -> l !! i = Some x -> s ∈ c_seq x ->
  exists c', seq_rm c i s = Some (c', (spec_seq_rm l i x s).2) /\
    rep c' (spec_seq_rm l i x s).1 h.
Proof.
  intros HR Hx Hs. destruct (rep_at _ _ _ HR _ _ Hx) as (Hp & He & Hsh & Hb).
  pose proof (rep_at_seq _ _ _ HR i x s Hx Hs) as Hne.
  pose proof (rep_at_bits _ _ _ HR i x s Hx Hs) as Hrange.
  pose proof (rep_ok _ _ _ HR i x Hx) as Hok.
  assert (0 < count l s (c_pos x) /\ 0 < total l s)%nat as [Hc Ht].
  { pose proof (in_cell_le l i x s (c_pos x) Hx). pose proof (of_seq_le l i x s Hx).
    unfold in_cell, of_seq in *. rewrite !bool_decide_eq_true_2 in * by done. lia. }
  unfold seq_rm. rewrite Hp; bind_simpl. rewrite Hb; bind_simpl.
  rewrite (bool_decide_eq_true_2 (s ∈ c_seq x)) by done. bind_simpl.
  replace (c_pos x =? -1) with false by lia. replace (0 <=? s) with true by lia. bind_simpl.
  destruct (seq_pos_dec_tracks (with_seq c (<[i := c_seq x ∖ {[s]}]> (seq c)))
              (count l) (total l) s (c_pos x)) as (sp & su & E & HT);
    [apply HR|done..|by eapply total_lt|].
  rewrite E; bind_simpl. unfold spec_seq_rm.
  case_bool_decide as Hemp; simpl; (eexists; split; [done|]).
  - eapply (rep_insert _ _ _ HR i _ free);
      [exact Hx|exact cell_ok_free|apply HR|..|exact HT| |]; try solve_field.
    + by simpl; rewrite Hemp.
    + solve_used HR Hx.
    + assert (c_seq x = {[s]}) by (by apply difference_singleton_empty). solve_count Hx.
    + assert (c_seq x = {[s]}) by (by apply difference_singleton_empty). solve_count Hx.
  - eapply (rep_insert _ _ _ HR i);
      [exact Hx| |apply HR|..|exact HT| |]; try solve_field.
    + unfold cell_ok, set_Forall in *. simpl. destruct Hok as (? & ? & ?).
      split; [done|]. split; [done|]. set_solver.
    + solve_used HR Hx.
    + solve_count Hx.
    + solve_count Hx.
Qed.

Lemma seq_rm_sim i s : simulates (SeqRm i s).
Proof.
  open_sim HR H Hx. bool_prop.
  destruct (seq_rm_at _ _ _ _ _ _ HR Hx Hx0) as (c' & E & HR').
  destruct (spec_seq_rm l i x s) as [l1 r1] eqn:E1. simplify_eq/=. eauto.
Qed.

Lemma has_bit_range s : has_bit s = true -> 0 <= s < LLAMA_MAX_SEQ.
Proof. unfold has_bit. lia. Qed.

Lemma seq_rm_cell_sim i s : simulates (SeqRmCell i s).
Proof.
  open_sim HR H Hx. unfold run_op, seq_rm_cell. rewrite Hp; bind_simpl. rewrite Hb; bind_simpl.
  pose proof (has_bit_range _ Hx0) as Hrange.
  replace (0 <=? s) with true by lia. rewrite Hx0; bind_simpl. case_bool_decide as Hs'; simpl in *.
  - destruct (seq_rm_at _ _ _ _ _ _ HR Hx Hs') as (c' & E & HR').
    destruct (spec_seq_rm l i x s) as [l1 r1] eqn:E1. simplify_eq/=.
    pose proof (rep_at_seq _ _ _ HR i x s Hx Hs').
    replace (c_pos x =? -1) with false by lia. eauto.
  - simplify_eq. destruct (_ =? _); eauto.
Qed.

Lemma cell_ok_seq x b :
  cell_ok x -> c_pos x <> -1 -> set_Forall (fun s => 0 <= s < LLAMA_MAX_SEQ) b ->
  cell_ok (mk_cell (c_pos x) (c_ext x) (c_shift x) b).
Proof. unfold cell_ok; simpl. naive_solver. Qed.

Lemma seq_keep_sim i s : simulates (SeqKeep i s).
Proof.
  open_sim HR H Hx. unfold run_op, seq_keep. rewrite Hp; bind_simpl. rewrite Hb; bind_simpl. rewrite Hx0; bind_simpl.
  pose proof (rep_ok _ _ _ HR i x Hx) as Hok.
  destruct (rep_seq_pos_rm _ _ _ _ _ HR Hx) as (sp & su & E & HT).
  case_bool_decide as Hs'; simpl in *; [|case_bool_decide as Hemp; simpl in *].
  - simplify_eq. rewrite E; bind_simpl.
    pose proof (rep_at_seq _ _ _ HR i x s Hx Hs'). pose proof (rep_at_bits _ _ _ HR i x s Hx Hs').
    destruct (seq_pos_inc_tracks (with_seq (with_index c sp su)
       (<[i := {[s]}]> (seq (with_index c sp su)))) _ _ s (c_pos x) HT)
      as (sp' & su' & E' & HT'); [done| |].
    { pose proof (total_lt _ _ _ HR s). pose proof (of_seq_le l i x s Hx).
      unfold of_seq in *. rewrite bool_decide_eq_true_2 in * by done. lia. }
    rewrite E'; bind_simpl. eexists; split; [done|].
    eapply (rep_insert _ _ _ HR i); [exact Hx| |apply HR|..|exact HT'| |]; try solve_field.
    + apply cell_ok_seq; [done..|]. by intros s' ->%elem_of_singleton.
    + solve_used HR Hx.
    + solve_count Hx.
    + solve_count Hx.
  - inv_run H. match goal with H : (c_pos x =? -1) = true |- _ => rewrite H end. eauto.
  - simplify_eq. rewrite E; bind_simpl. eexists; split; [done|].
    eapply (rep_insert _ _ _ HR i _ free); [exact Hx|exact cell_ok_free|apply HR|..|exact HT| |];
      try solve_field; [solve_used HR Hx|solve_count Hx..].
Qed.

Lemma seq_add_sim i s : simulates (SeqAdd i s).
Proof.
  open_sim HR H Hx. bool_prop. unfold run_op, seq_add. rewrite Hp; bind_simpl. rewrite Hb; bind_simpl.
  rewrite (bool_decide_eq_false_2 (s ∈ c_seq x)) by done.
  pose proof (rep_ok _ _ _ HR i x Hx) as Hok.
  replace (c_pos x =? -1) with false by lia. replace (0 <=? s) with true by lia.
  replace (s <? LLAMA_MAX_SEQ) with true by lia. bind_simpl. simpl.
  destruct (seq_pos_inc_tracks (with_seq c (<[i := c_seq x ∪ {[s]}]> (seq c))) (count l) (total l)
       s (c_pos x)) as (sp' & su' & E' & HT'); [apply HR|lia| |].
  { pose proof (total_insert l i x (mk_cell (c_pos x) (c_ext x) (c_shift x) (c_seq x ∪ {[s]})) s Hx).
    pose proof (total_le (<[i:=mk_cell (c_pos x) (c_ext x) (c_shift x) (c_seq x ∪ {[s]})]> l) s) as Hle.
    rewrite length_insert in Hle. pose proof (rep_size _ _ _ HR). unfold of_seq in *; simpl in *.
    rewrite bool_decide_eq_false_2, bool_decide_eq_true_2 in * by set_solver. lia. }
  rewrite E'; simpl. eexists; split; [done|].
  eapply (rep_insert _ _ _ HR i); [exact Hx| |apply HR|..|exact HT'| |]; try solve_field.
  - apply cell_ok_seq; [done|lia|]. intros s' [?| ->%elem_of_singleton]%elem_of_union; [|lia].
    by apply Hok.
  - solve_used HR Hx.
  - solve_count Hx.
  - solve_count Hx.
Qed.

Lemma pos_set_sim i p : simulates (PosSet i p).
Proof.
  open_sim HR H Hx. bool_prop. unfold run_op, pos_set. rewrite Hp; bind_simpl. rewrite Hb; bind_simpl.
  rewrite H. bind_simpl.
  destruct (rep_at_free _ _ _ HR i x Hx ltac:(lia)) as [Hnil Hsh0].
  rewrite Hnil, bool_decide_eq_true_2 by done. simpl. eexists; split; [done|].
  eapply (rep_insert _ _ _ HR i); [exact Hx| |apply HR|..|apply HR| |]; try solve_field.
  - unfold cell_ok; simpl. split; [lia|]. split; [done|]. set_solver.
  - simpl. rewrite <- Hsh0. solve_field.
  - simpl. rewrite <- Hnil. solve_field.
  - intros j; simpl. destruct (decide (j = i)) as [->|]; [|set_solver]. set_unfold. naive_solver lia.
  - intros s q. rewrite !in_cell_nil by done. lia.
  - intros s. rewrite !of_seq_nil by done. lia.
Qed.

Lemma ext_set_sim i e : simulates (ExtSet i e).
Proof.
  open_sim HR H Hx. unfold run_op, ext_set. rewrite He; simpl. eexists; split; [done|].
  eapply (rep_insert _ _ _ HR i); [exact Hx| |apply HR|..|apply HR| |]; try solve_field.
  - by apply (rep_ok _ _ _ HR i x Hx).
  - solve_used HR Hx.
Qed.

Lemma pos_add_sim i d : simulates (PosAdd i d).
Proof.
  open_sim HR H Hx. bool_prop. unfold run_op, pos_add. rewrite Hp; bind_simpl. rewrite Hs; bind_simpl.
  pose proof (rep_ok _ _ _ HR i x Hx) as Hok. replace (c_pos x =? -1) with false by lia. bind_simpl.
  destruct (rep_seq_pos_rm _ _ _ _ _ HR Hx) as (sp & su & E & HT).
  rewrite E; bind_simpl. rewrite H1; bind_simpl. rewrite H2; bind_simpl.
  destruct (c_pos x + d <? 0) eqn:Hneg; simplify_eq/=.
  - eexists; split; [done|].
    eapply (rep_insert _ _ _ HR i); [exact Hx| |done|..|exact HT| |]; try solve_field.
    + simpl. apply list_insert_insert_eq.
    + simpl. apply list_insert_insert_eq.
    + solve_used HR Hx.
    + solve_count Hx.
    + solve_count Hx.
  - match goal with |- context [seq_pos_add ?c1 i] =>
      edestruct (seq_pos_add_tracks c1 i
        (mk_cell (c_pos x + d) (c_ext x) (c_shift x + d) (c_seq x))) as (sp' & su' & E' & HT');
      [| |exact HT| |rewrite E'; bind_simpl] end.
    + simpl. apply list_lookup_insert_eq. by eapply lookup_lt_Some.
    + done.
    + intros s Hin. simpl in Hin. pose proof (total_lt _ _ _ HR s). pose proof (of_seq_le l i x s Hx).
      unfold of_seq in *. rewrite bool_decide_eq_true_2 in * by done. lia.
    + eexists; split; [done|].
      eapply (rep_insert _ _ _ HR i); [exact Hx| |done|..|exact HT'| |]; try solve_field.
      * apply in_i32_spec in H2. unfold cell_ok in *; simpl. destruct Hok as (? & ? & ?).
        split; [lia|]. split; [lia|done].
      * simpl. intros j. pose proof (rep_used_at _ _ _ _ _ HR Hx).
        destruct (decide (j = i)) as [->|]; [|set_solver].
        split; [left; split; [done|lia]|]. intros _. apply H. lia.
      * solve_count Hx.
      * solve_count Hx.
Qed.

Lemma pos_div_sim i d : simulates (PosDiv i d).
Proof.
  open_sim HR H Hx. bool_prop. unfold run_op, pos_div. rewrite Hp; bind_simpl. rewrite Hs; bind_simpl.
  pose proof (rep_ok _ _ _ HR i x Hx) as Hok. replace (c_pos x =? -1) with false by lia. bind_simpl.
  replace (d =? 0) with false by lia. bind_simpl.
  destruct (rep_seq_pos_rm _ _ _ _ _ HR Hx) as (sp & su & E & HT).
  rewrite E; bind_simpl.
  match goal with Hi : in_i32 _ = true |- _ => rewrite Hi; bind_simpl end. set (p' := Z.quot (c_pos x) d) in *.
  assert (0 <= p' <= c_pos x) as Hp'.
  { destruct Hok as [? _]. unfold p'. split; [apply Z.quot_pos; lia|].
    apply Z.quot_le_upper_bound; nia. }
  match goal with |- context [seq_pos_add ?c1 i] =>
    edestruct (seq_pos_add_tracks c1 i
      (mk_cell p' (c_ext x) (c_shift x + (c_pos x - p')) (c_seq x))) as (sp' & su' & E' & HT');
    [| |exact HT| |rewrite E'; bind_simpl] end.
  - simpl. apply list_lookup_insert_eq. by eapply lookup_lt_Some.
  - done.
  - intros s Hin. simpl in Hin. pose proof (total_lt _ _ _ HR s). pose proof (of_seq_le l i x s Hx).
    unfold of_seq in *. rewrite bool_decide_eq_true_2 in * by done. lia.
  - eexists; split; [done|].
    eapply (rep_insert _ _ _ HR i); [exact Hx| |done|..|exact HT'| |]; try solve_field.
    + unfold cell_ok in *; simpl. destruct Hok as (? & ? & ?). split; [lia|]. split; [lia|done].
    + simpl. intros j. pose proof (rep_used_at _ _ _ _ _ HR Hx).
      destruct (decide (j = i)) as [->|]; [|set_solver].
      split; [left; split; [done|lia]|]. intros _. apply H2. lia.
    + solve_count Hx.
    + solve_count Hx.
Qed.

(** *** The operations on all cells *)

Lemma tracks_zero : tracks (replicate (Z.to_nat LLAMA_MAX_SEQ) ∅) (replicate (Z.to_nat LLAMA_MAX_SEQ) 0)
  (fun _ _ => O) (fun _ => O).
Proof.
  split; [by rewrite length_replicate|]. split; [by rewrite length_replicate|]. intros s Hs.
  rewrite !lookup_replicate_2 by lia. split; [done|]. exists ∅. split; [done|]. intros p. apply lookup_empty.
Qed.

Lemma rep_fresh n : Z.of_nat n < 2 ^ 32 -> rep (resize n cells_init) (replicate n free) false.
Proof.
  intros Hn. split; simpl; rewrite ?length_replicate; try done;
    try (by rewrite ?list.length_resize, ?length_replicate, fmap_replicate).
  - intros i x [-> _]%lookup_replicate. apply cell_ok_free.
  - intros i. split; [set_solver|]. intros (x & [-> _]%lookup_replicate & Hne). done.
  - eapply tracks_ext; [apply tracks_zero|..]; intros; symmetry; apply sum_list_with_zero;
      intros x [-> _]%elem_of_replicate; [by apply in_cell_nil|by apply of_seq_nil].
Qed.

Lemma reset_length c n : length (pos c) = n -> reset c = resize n cells_init.
Proof. intros Hn. unfold resize, reset. cbn [pos]. by rewrite list.length_resize, Hn. Qed.

Lemma reset_sim : simulates Reset.
Proof.
  intros c l h l' h' r HR H; simplify_eq/=. eexists; split; [done|].
  rewrite (reset_length c (length l)) by (by rewrite (rep_pos _ _ _ HR), length_fmap).
  apply rep_fresh, HR.
Qed.

Lemma resize_sim n : simulates (Resize n).
Proof.
  intros c l h l' h' r HR H; simpl in H. inv_run H. eexists; split; [done|].
  replace (resize n c) with (resize n cells_init); [apply rep_fresh; lia|].
  unfold resize, reset. cbn [pos]. by rewrite !list.length_resize.
Qed.

Lemma reset_shift_sim : simulates ResetShift.
Proof.
  intros c l h l' h' r HR H; simplify_eq/=. eexists; split; [done|].
  destruct HR as [R1 R2 R3 R4 R5 R6 R7 R8 R9].
  split; simpl; rewrite ?length_fmap, <- ?list_fmap_compose; try done.
  - rewrite R3, length_fmap. clear. induction l; simpl; by f_equal/=.
  - intros i x. rewrite list_lookup_fmap. destruct (l !! i) as [y|] eqn:Hy; [|done].
    intros [= <-]. specialize (R7 i y Hy). unfold cell_ok in *; simpl. naive_solver.
  - intros i. rewrite R8. setoid_rewrite list_lookup_fmap. destruct (l !! i); naive_solver.
  - eapply tracks_ext; [exact R9|..]; intros; unfold count, total; clear;
      (induction l; simpl; [done|by rewrite IHl]).
Qed.

(** *** Saving and restoring *)

Lemma snapshot_lookup o j y :
  snapshot o !! j = Some y ->
  pos o !! j = Some (c_pos y) /\ ext o !! j = Some (c_ext y) /\ seq_at o j = Some (c_seq y) /\
  c_shift y = 0.
Proof.
  unfold snapshot, seq_at. intros (pe & b & -> & Hpe & Hb)%lookup_zip_with_Some.
  apply lookup_zip_with_Some in Hpe as (p & e & -> & ? & ?). simpl. auto.
Qed.

(** The conditional removal and insertion of the restore loop. *)
Lemma cond_rm_tracks c i x F G :
  pos c !! i = Some (c_pos x) -> seq_at c i = Some (c_seq x) -> cell_ok x ->
  tracks (seq_pos c) (seq_used c) F G ->
  (forall s p, in_cell s p x <= F s p)%nat -> (forall s, of_seq s x <= G s)%nat ->
  (forall s, Z.of_nat (G s) < 2 ^ 32) ->
  exists sp su, (if negb (c_pos x =? -1) then seq_pos_rm c i else Some c) = Some (with_index c sp su) /\
    tracks sp su (fun s p => F s p - in_cell s p x)%nat (fun s => G s - of_seq s x)%nat.
Proof.
  intros Hp Hb Hok HT HF HG Hlt. destruct (c_pos x =? -1) eqn:E; simpl;
    [|by apply seq_pos_rm_tracks].
  assert (c_seq x = ∅) by (apply Hok; lia).
  exists (seq_pos c), (seq_used c). split; [by destruct c|].
  eapply tracks_ext; [exact HT|..]; intros; rewrite ?in_cell_nil, ?of_seq_nil by done; lia.
Qed.

Lemma cond_add_tracks c i x F G :
  pos c !! i = Some (c_pos x) -> seq_at c i = Some (c_seq x) -> cell_ok x ->
  tracks (seq_pos c) (seq_used c) F G ->
  (forall s, s ∈ c_seq x -> Z.of_nat (G s) + 1 < 2 ^ 32) ->
  exists sp su, (if negb (c_pos x =? -1) then seq_pos_add c i else Some c) = Some (with_index c sp su) /\
    tracks sp su (fun s p => F s p + in_cell s p x)%nat (fun s => G s + of_seq s x)%nat.
Proof.
  intros Hp Hb Hok HT Hlt. destruct (c_pos x =? -1) eqn:E; simpl;
    [|by apply seq_pos_add_tracks].
  assert (c_seq x = ∅) by (apply Hok; lia).
  exists (seq_pos c), (seq_used c). split; [by destruct c|].
  eapply tracks_ext; [exact HT|..]; intros; rewrite ?in_cell_nil, ?of_seq_nil by done; lia.
Qed.

Lemma total_room c l h i x s :
  rep c l h -> l !! i = Some x -> Z.of_nat (total l s - of_seq s x) + 1 < 2 ^ 32.
Proof.
  intros HR Hx. pose proof (total_insert l i x free s Hx) as E.
  pose proof (total_le (<[i := free]> l) s) as Hle. rewrite length_insert in Hle.
  rewrite (of_seq_nil s free) in E by done.
  assert (i < length l)%nat by (by eapply lookup_lt_Some).
  assert (total (<[i := free]> l) s < length l)%nat; [|pose proof (rep_size _ _ _ HR); lia].
  rewrite (insert_take_drop l i) by done. unfold total. rewrite sum_list_with_app. simpl.
  pose proof (total_le (take i l) s). pose proof (total_le (drop (S i) l) s). unfold total in *.
  rewrite (of_seq_nil s free) by done. rewrite length_take in *. rewrite length_drop in *. lia.
Qed.

Lemma set_cell_sim c l h o j i x y :
  rep c l h -> snapshot o !! j = Some y -> cell_ok y -> l !! i = Some x -> c_shift x = 0 ->
  exists c', set_cell o c j i = Some c' /\ rep c' (<[i := y]> l) h.
Proof.
  intros HR Hy Hok Hx Hsh0. destruct (rep_at _ _ _ HR _ _ Hx) as (Hp & He & Hs & Hb).
  destruct (snapshot_lookup _ _ _ Hy) as (Hyp & Hye & Hyb & Hys).
  unfold set_cell. rewrite Hp; bind_simpl. rewrite Hyp; bind_simpl. rewrite Hye; bind_simpl.
  rewrite Hyb; bind_simpl. set (u1 := used c ∪ {[i]}).
  assert (forall u, exists sp su,
    (if negb (c_pos x =? -1) then seq_pos_rm (with_used c u) i else Some (with_used c u))
      = Some (with_index (with_used c u) sp su) /\
    tracks sp su (fun s p => count l s p - in_cell s p x)%nat (fun s => total l s - of_seq s x)%nat) as Hrm.
  { intros u. apply cond_rm_tracks; [done|done|by eapply rep_ok|apply HR|..]; intros;
      [by eapply in_cell_le|by eapply of_seq_le|by eapply total_lt]. }
  set (c2 := if negb (c_pos x =? -1) && (c_pos y =? -1) then _ else _).
  assert (exists u, c2 = with_used c u /\
    forall k, k ∈ u <-> (k = i /\ c_pos y <> -1) \/ (k <> i /\ k ∈ used c)) as (u & -> & Hu).
  { pose proof (rep_used_at _ _ _ _ _ HR Hx) as Hin. unfold c2, u1.
    destruct (c_pos x =? -1) eqn:E1, (c_pos y =? -1) eqn:E2; simpl.
    - exists (used c). split; [by destruct c|]. intros k. destruct (decide (k = i)) as [->|]; naive_solver lia.
    - eexists; split; [done|]. intros k. destruct (decide (k = i)) as [->|]; set_unfold; naive_solver lia.
    - eexists; split; [done|]. intros k. destruct (decide (k = i)) as [->|]; set_unfold; naive_solver lia.
    - exists (used c). split; [by destruct c|]. intros k. destruct (decide (k = i)) as [->|]; naive_solver lia. }
  destruct (Hrm u) as (sp & su & E & HT). rewrite E; bind_simpl.
  match goal with |- context [seq_pos_add ?c1 i] =>
    destruct (cond_add_tracks c1 i y _ _
      ltac:(simpl; apply list_lookup_insert_eq; by eapply lookup_lt_Some)
      ltac:(simpl; apply list_lookup_insert_eq; by eapply lookup_lt_Some) Hok HT)
      as (sp' & su' & E' & HT'); [|rewrite E'; bind_simpl] end.
  - intros s _. by eapply total_room.
  - simpl. rewrite Hs; bind_simpl. rewrite Hsh0. simpl. eexists; split; [done|].
    eapply (rep_insert _ _ _ HR i); [exact Hx|done|apply HR|..|exact HT'| |]; try solve_field.
    + simpl. rewrite Hys, <- Hsh0. solve_field.
    + solve_count Hx.
    + solve_count Hx.
Qed.

Lemma length_snapshot o :
  length (ext o) = length (pos o) -> length (seq o) = length (pos o) ->
  length (snapshot o) = length (pos o).
Proof. intros He Hs. unfold snapshot. rewrite length_zip_with, length_zip. lia. Qed.

(** The restore loop over pairs (index in the snapshot, index in the cache). *)
Lemma set_loop_sim o h ks js c l l' :
  rep c l h -> Forall2 (fun (k : nat * nat) (iy : nat * cell) =>
    iy.1 = k.2 /\ snapshot o !! k.1 = Some iy.2) ks js ->
  spec_set l js = Some l' ->
  exists c', foldM (fun c k => set_cell o c k.1 k.2) c ks = Some c' /\ rep c' l' h.
Proof.
  intros HR HF. revert c l HR. induction HF as [|k [i y] ks js [Hi Hy] HF IH]; intros c l HR H.
  - simpl in *. simplify_eq. eauto.
  - simpl in H, Hi, Hy. inv_step H. bool_prop. subst i.
    destruct (set_cell_sim _ _ _ o k.1 k.2 x y HR Hy ltac:(done) Hx ltac:(lia)) as (c1 & E & HR1).
    simpl. rewrite E; bind_simpl. by eapply IH.
Qed.

Lemma set_sim i o : simulates (SetAt i o).
Proof.
  intros c l h l' h' r HR H; simpl in H. inv_step H. bool_prop. simplify_eq/=.
  assert (length (pos c) = length l) as Hlen by (by rewrite (rep_pos _ _ _ HR), length_fmap).
  unfold set. rewrite Hlen, bool_decide_eq_true_2 by done. bind_simpl.
  edestruct (set_loop_sim o h' ((fun j => (j, i + j)%nat) <$> List.seq 0 (length (pos o))))
    as (c' & E & HR'); [exact HR| |eassumption|].
  - apply Forall2_same_length_lookup_2.
    { by rewrite length_fmap, length_imap, length_seq, length_snapshot. }
    intros k [j idx] [i' y] Hk Hiy. rewrite list_lookup_fmap in Hk. rewrite list_lookup_imap in Hiy.
    destruct (snapshot o !! k) as [y'|] eqn:Hy; simplify_eq/=.
    apply fmap_Some in Hk as (j' & [-> ?]%lookup_seq & [= -> ->]). simpl. auto.
  - rewrite foldM_fmap in E. simpl in E. rewrite E. simpl. eauto.
Qed.

Lemma set_idxs_sim idxs o : simulates (SetIdxs idxs o).
Proof.
  intros c l h l' h' r HR H; simpl in H. inv_step H. bool_prop. simplify_eq/=.
  unfold set_idxs. rewrite bool_decide_eq_true_2 by done. bind_simpl.
  edestruct (set_loop_sim o h' (imap pair idxs)) as (c' & E & HR'); [exact HR| |eassumption|].
  - apply Forall2_same_length_lookup_2.
    { rewrite length_imap, length_zip, length_snapshot by done. lia. }
    intros k [j idx] [i' y] Hk Hiy. rewrite list_lookup_imap in Hk.
    apply lookup_zip_with_Some in Hiy as (? & ? & [= -> ->] & Hi & Hy).
    rewrite Hi in Hk. simplify_eq/=. auto.
  - rewrite E. simpl. eauto.
Qed.

(** ** Queries *)

(** The positions of sequence [s] in the cells. *)
Definition positions (l : list cell) (s : Z) : list Z :=
  c_pos <$> filter (fun x => s ∈ c_seq x) l.

(** The indices of the cells in use, in increasing order. *)
Definition used_cells (l : list cell) : list nat :=
  filter (fun i => default (-1) (c_pos <$> l !! i) <> -1) (List.seq 0 (length l)).

Lemma elem_of_positions l s p :
  p ∈ positions l s <-> (0 < count l s p)%nat.
Proof.
  unfold positions, count. rewrite sum_list_with_pos, list_elem_of_fmap.
  setoid_rewrite list_elem_of_filter. setoid_rewrite list_elem_of_lookup. unfold in_cell. split.
  - intros (x & -> & Hs & i & Hi). exists i, x. split; [done|]. rewrite bool_decide_eq_true_2 by done. lia.
  - intros (i & x & Hi & H). case_bool_decide as Hb; [|lia]. naive_solver.
Qed.

Lemma length_positions l s : length (positions l s) = total l s.
Proof.
  unfold positions, total, of_seq. rewrite length_fmap.
  induction l as [|x l IH]; [done|]. rewrite filter_cons. simpl. rewrite <- IH.
  case_decide; [rewrite bool_decide_eq_true_2 by done|rewrite bool_decide_eq_false_2 by done]; done.
Qed.

Lemma keys_positions c l h s m :
  rep c l h -> 0 <= s < LLAMA_MAX_SEQ -> seq_pos c !! Z.to_nat s = Some m ->
  forall p, p ∈ (map_to_list m).*1 <-> p ∈ positions l s.
Proof.
  intros HR Hs Hm p. destruct (tracks_lookup _ _ _ _ s (rep_index _ _ _ HR) Hs) as (_ & m' & Hm' & Hp).
  rewrite Hm in Hm'. simplify_eq. rewrite elem_of_positions, list_elem_of_fmap. split.
  - intros ([p' v] & -> & Hv%elem_of_map_to_list). simpl. rewrite Hp in Hv. destruct (count l s p'); [done|lia].
  - intros H. specialize (Hp p). destruct (count l s p) as [|k] eqn:E; [lia|].
    exists (p, Z.of_nat (S k)). split; [done|]. by apply elem_of_map_to_list.
Qed.

Lemma seq_pos_min_spec c l h s :
  rep c l h -> 0 <= s < LLAMA_MAX_SEQ ->
  seq_pos_min c s = Some (default (-1) (list_min (positions l s))).
Proof.
  intros HR Hs. destruct (tracks_lookup _ _ _ _ s (rep_index _ _ _ HR) Hs) as (_ & m & Hm & Hp).
  unfold seq_pos_min. replace ((0 <=? s) && (s <? LLAMA_MAX_SEQ)) with true by lia. bind_simpl.
  rewrite Hm; bind_simpl. rewrite (list_min_ext _ _ (keys_positions _ _ _ _ _ HR Hs Hm)).
  destruct (list_min (positions l s)) as [p|] eqn:E; [|done].
  apply list_min_Some in E as [E%elem_of_positions _]. rewrite Hp.
  by destruct (count l s p); [lia|].
Qed.

Lemma seq_pos_max_spec c l h s :
  rep c l h -> 0 <= s < LLAMA_MAX_SEQ ->
  seq_pos_max c s = Some (default (-1) (list_max (positions l s))).
Proof.
  intros HR Hs. destruct (tracks_lookup _ _ _ _ s (rep_index _ _ _ HR) Hs) as (_ & m & Hm & Hp).
  unfold seq_pos_max. replace ((0 <=? s) && (s <? LLAMA_MAX_SEQ)) with true by lia. bind_simpl.
  rewrite Hm; bind_simpl. rewrite (list_max_ext _ _ (keys_positions _ _ _ _ _ HR Hs Hm)).
  destruct (list_max (positions l s)) as [p|] eqn:E; [|done].
  apply list_max_Some in E as [E%elem_of_positions _]. rewrite Hp.
  by destruct (count l s p); [lia|].
Qed.

Lemma used_in_range c l h i :
  rep c l h ->
  i ∈ used c <-> default (-1) (c_pos <$> l !! i) <> -1 /\ (i < length l)%nat.
Proof.
  intros HR. rewrite (rep_used _ _ _ HR). destruct (l !! i) as [x|] eqn:E; simpl.
  - apply lookup_lt_Some in E as Hlt. naive_solver.
  - naive_solver.
Qed.

Lemma used_in_order c l h : rep c l h -> merge_sort le (elements (used c)) = used_cells l.
Proof. intros HR. apply set_order. intros i. by eapply used_in_range. Qed.

Lemma elements_used c l h : rep c l h -> elements (used c) ≡ₚ used_cells l.
Proof. intros HR. by rewrite <- (used_in_order c l h HR), merge_sort_Permutation. Qed.

Definition holds_at (l : list cell) (s p : Z) (i : nat) : bool :=
  match l !! i with Some x => (c_pos x =? p) && bool_decide (s ∈ c_seq x) | None => false end.

Lemma cells_at_loop c l h s p res idxs :
  rep c l h -> has_bit s = true -> (forall i, i ∈ idxs -> is_Some (l !! i)) ->
  foldM (fun res i =>
    q ← pos c !! i; b ← seq_at c i;
    if q =? p then assert_ (has_bit s);; Some (if bool_decide (s ∈ b) then res ++ [i] else res)
    else Some res) res idxs
  = Some (res ++ filter (fun i => holds_at l s p i = true) idxs).
Proof.
  intros HR Hs. rewrite Hs. cbn [assert_]. bind_simpl. revert res. induction idxs as [|i idxs IH]; intros res His.
  - simpl. by rewrite app_nil_r.
  - destruct (His i ltac:(left)) as [x Hx]. destruct (rep_at _ _ _ HR _ _ Hx) as (Hp & _ & _ & Hb).
    cbn [foldM]. rewrite Hp; bind_simpl. rewrite Hb; bind_simpl.
    rewrite filter_cons.
    assert (holds_at l s p i = (c_pos x =? p) && bool_decide (s ∈ c_seq x)) as ->
      by (unfold holds_at; by rewrite Hx).
    destruct (c_pos x =? p), (bool_decide (s ∈ c_seq x)); cbn [andb]; bind_simpl; rewrite IH by (intros; apply His; by right).
    1: rewrite decide_True by done; by rewrite <- app_assoc.
    all: by rewrite decide_False by done.
Qed.

Lemma cells_at_spec c l h s p :
  rep c l h -> 0 <= s < LLAMA_MAX_SEQ ->
  cells_at c s p = Some (filter (fun i => holds_at l s p i = true) (used_cells l)).
Proof.
  intros HR Hs. unfold cells_at. replace (0 <=? s) with true by lia. bind_simpl.
  rewrite (used_in_order _ _ _ HR), (cells_at_loop c l h); [done|done|unfold has_bit; lia|].
  intros i [_ Hi%elem_of_seq]%list_elem_of_filter. apply lookup_lt_is_Some. lia.
Qed.

(** ** Copies *)

Definition copied (o : llama_kv_cells) (j : nat) (x : cell) : Prop :=
  pos o !! j = Some (c_pos x) /\ ext o !! j = Some (c_ext x) /\ seq_at o j = Some (c_seq x).

Definition sized (o : llama_kv_cells) (n : nat) : Prop :=
  length (pos o) = n /\ length (ext o) = n /\ length (seq o) = n.

Lemma cp_cell_step c l h res n j idx x :
  rep c l h -> l !! idx = Some x -> c_shift x = 0 -> sized res n -> (j < n)%nat ->
  exists res', cp_cell c res j idx = Some res' /\ sized res' n /\ copied res' j x /\
    forall j' x', j' <> j -> copied res j' x' -> copied res' j' x'.
Proof.
  intros HR Hx H0 (H1 & H2 & H3) Hj. destruct (rep_at _ _ _ HR _ _ Hx) as (Hp & He & Hs & Hb).
  unfold cp_cell. rewrite Hp; bind_simpl. rewrite He; bind_simpl. rewrite Hb; bind_simpl.
  rewrite Hs; bind_simpl. rewrite H0; simpl. eexists; split; [done|].
  unfold sized, copied, seq_at; simpl. rewrite !length_insert.
  split; [done|]. split; [by rewrite !list_lookup_insert_eq by lia|].
  intros j' x' Hne Hc. by rewrite !list_lookup_insert_ne by done.
Qed.

Lemma cp_loop c l h n idxs xs k res :
  rep c l h -> Forall2 (fun idx x => l !! idx = Some x /\ c_shift x = 0) idxs xs ->
  sized res n -> (k + length idxs = n)%nat ->
  exists o, foldM (fun res (ji : nat * nat) => cp_cell c res ji.1 ji.2) res
      (imap (fun j idx => (k + j, idx)%nat) idxs) = Some o /\
    sized o n /\ (forall j x, (j < k)%nat -> copied res j x -> copied o j x) /\
    (forall j x, xs !! j = Some x -> copied o (k + j) x).
Proof.
  intros HR HF. revert k res. induction HF as [|idx x idxs xs [Hx H0] HF IH]; intros k res Hn Hk.
  - exists res. naive_solver.
  - simpl in Hk. destruct (cp_cell_step c l h res n k idx x HR Hx H0 Hn) as (res' & E & Hn' & Hc & Hrest); [lia|].
    destruct (IH (S k) res' Hn') as (o & Eo & Hno & Hold & Hnew); [lia|].
    exists o. simpl. rewrite Nat.add_0_r, E; bind_simpl. split_and!.
    + rewrite <- Eo. f_equal. apply imap_ext. intros j y _. simpl. f_equal. lia.
    + done.
    + intros j y Hj Hy. apply Hold; [lia|]. apply Hrest; [lia|done].
    + intros [|j] y Hy; simplify_eq/=.
      * rewrite Nat.add_0_r. apply Hold; [lia|done].
      * rewrite <- Nat.add_succ_comm. by apply Hnew.
Qed.

Lemma snapshot_copied o n xs :
  sized o n -> length xs = n -> Forall (fun x => c_shift x = 0) xs ->
  (forall j x, xs !! j = Some x -> copied o j x) -> snapshot o = xs.
Proof.
  intros (H1 & H2 & H3) Hn H0 Hc. apply list_eq_same_length with n; [done| |].
  - by rewrite length_snapshot by congruence.
  - intros j y x Hj Hy Hx. apply snapshot_lookup in Hy as (Hp & He & Hb & Hs).
    destruct (Hc j x Hx) as (Hp' & He' & Hb'). rewrite Forall_lookup in H0. specialize (H0 j x Hx).
    destruct x, y; simpl in *. congruence.
Qed.

Lemma cp_idxs_snapshot c l h idxs xs :
  rep c l h -> Forall2 (fun idx x => l !! idx = Some x /\ c_shift x = 0) idxs xs ->
  exists o, cp_idxs c idxs = Some o /\ sized o (length idxs) /\ snapshot o = xs.
Proof.
  intros HR HF. unfold cp_idxs.
  destruct (cp_loop c l h (length idxs) idxs xs 0 (resize (length idxs) cells_init) HR HF)
    as (o & E & Hn & _ & Hc); [|done|].
  { unfold sized, resize, reset; simpl. by rewrite ?list.length_resize, !length_replicate, ?list.length_resize. }
  simpl in E. exists o. split; [exact E|]. split; [done|].
  apply (snapshot_copied o (length idxs)); [done|by symmetry; eapply Forall2_length| |exact Hc].
  apply Forall_lookup. intros j x Hj. eapply Forall2_lookup_r in HF as (idx & _ & _ & ?); eauto.
Qed.

Lemma cp_eq c i n : (i + n <= length (pos c))%nat -> cp c i n = cp_idxs c (List.seq i n).
Proof.
  intros Hle. unfold cp, cp_idxs. rewrite bool_decide_eq_true_2 by done. bind_simpl.
  rewrite length_seq. replace (imap pair (List.seq i n)) with ((fun j => (j, i + j)%nat) <$> List.seq 0 n).
  - by rewrite foldM_fmap.
  - apply list_eq. intros j. rewrite list_lookup_fmap, list_lookup_imap.
    destruct (decide (j < n)%nat); [rewrite !lookup_seq_lt by done; done|].
    by rewrite !lookup_seq_ge by lia.
Qed.

Lemma spec_set_range l a xs :
  Forall (fun x => c_shift x = 0) l -> Forall (fun x => c_shift x = 0 /\ cell_ok x) xs ->
  (a + length xs <= length l)%nat ->
  spec_set l (imap (fun j y => (a + j, y)%nat) xs) = Some (take a l ++ xs ++ drop (a + length xs) l).
Proof.
  intros H0 Hok. revert l H0 a. induction Hok as [|x xs [Hx0 Hx] Hok IH]; intros l H0 a Ha; simpl in *.
  - by rewrite Nat.add_0_r, take_drop.
  - rewrite Nat.add_0_r. destruct (lookup_lt_is_Some_2 l a) as [y Hy]; [lia|].
    rewrite Hy; bind_simpl. pose proof (Forall_lookup_1 _ _ _ _ H0 Hy) as Hy0. simpl in Hy0.
    rewrite Hy0, bool_decide_eq_true_2 by done. bind_simpl. simpl.
    rewrite (imap_ext _ (fun j y => (S a + j, y)%nat)) by (intros; simpl; f_equal; lia).
    rewrite IH; [|by apply Forall_insert|rewrite length_insert; lia]. f_equal.
    rewrite (take_S_r _ _ x) by (apply list_lookup_insert_eq; lia).
    rewrite take_insert_ge, drop_insert_lt, <- app_assoc by lia. simpl. by rewrite <- Nat.add_succ_comm.
Qed.

(** ** Traces *)

Definition run_ops (os : list kv_op) (c : llama_kv_cells) : option llama_kv_cells :=
  foldM (fun c o => fst <$> run_op o c) c os.

Definition spec_ops (os : list kv_op) (st : spec) : option spec :=
  foldM (fun st o => fst <$> spec_op o st) st os.

Lemma op_sim o : simulates o.
Proof.
  destruct o;
    [apply rm_sim|apply seq_rm_sim|apply seq_rm_cell_sim|apply seq_keep_sim|apply seq_add_sim
    |apply pos_set_sim|apply ext_set_sim|apply pos_add_sim|apply pos_div_sim|apply reset_shift_sim
    |apply reset_sim|apply resize_sim|apply set_sim|apply set_idxs_sim].
Qed.

Lemma ops_sim os c l h l' h' :
  rep c l h -> spec_ops os (l, h) = Some (l', h') ->
  exists c', run_ops os c = Some c' /\ rep c' l' h'.
Proof.
  unfold spec_ops, run_ops.
  revert c l h. induction os as [|o os IH]; intros c l h HR H; cbn [foldM] in *.
  - injection H as <- <-. eauto.
  - apply bind_Some_inv in H as ([l1 h1] & E & H). apply fmap_Some in E as ([st1 r] & E & [= <-]).
    destruct (op_sim o c l h l1 h1 r HR E) as (c1 & E1 & HR1). rewrite E1. by eapply IH.
Qed.

(** A small cache used by the witnesses: four cells, two sequences sharing one. *)
Definition example_ops : list kv_op :=
  [PosSet 0 3; ExtSet 0 (mk_ext 7 8); SeqAdd 0 1; PosSet 2 4; SeqAdd 2 1; SeqAdd 2 5; PosSet 3 9; SeqAdd 3 5].
Definition example_cells : llama_kv_cells := default cells_init (run_ops example_ops (resize 4 cells_init)).
Definition example_list : list cell :=
  [mk_cell 3 (mk_ext 7 8) 0 {[1]}; free; mk_cell 4 ext_zero 0 {[1; 5]}; mk_cell 9 ext_zero 0 {[5]}].

Lemma example_rep : rep example_cells example_list false.
Proof.
  destruct (ops_sim example_ops _ _ _ example_list false (rep_fresh 4 ltac:(done)) ltac:(by vm_compute))
    as (c & E & HR).
  unfold example_cells. by rewrite E.
Qed.

(** ** Properties *)

(** C1: the class refines an array of cells. Whenever an operation of the array
    is allowed (the "call only if" conditions hold, the bitsets have a bit for the
    sequence, and no signed addition overflows), the class performs it without failing an assertion, returns the
    same boolean, and its cells, its set of used cells, its per-sequence position
    maps and its per-sequence counters represent the resulting array. *)
Theorem kv_refinement o c l h l' h' r :
  rep c l h -> spec_op o (l, h) = Some ((l', h'), r) ->
  exists c', run_op o c = Some (c', r) /\ rep c' l' h'.
Proof. apply op_sim. Qed.

Lemma kv_refinement_witness :
  exists c', run_op (SeqRm 2 1) example_cells = Some (c', false) /\
    rep c' (<[2%nat := mk_cell 4 ext_zero 0 {[5]}]> example_list) false.
Proof.
  apply (kv_refinement (SeqRm 2 1) _ _ _ _ _ _ example_rep). by vm_compute.
Defined.

(** The per-sequence queries answer from the cells: the least and greatest
    position of a sequence ([-1] when it has none) and the number of its cells. *)
Theorem kv_seq_queries c l h s :
  rep c l h -> 0 <= s < LLAMA_MAX_SEQ ->
  seq_pos_min c s = Some (default (-1) (list_min (positions l s))) /\
  seq_pos_max c s = Some (default (-1) (list_max (positions l s))) /\
  seq_size c s = Some (Z.of_nat (length (positions l s))).
Proof.
  intros HR Hs. split; [by eapply seq_pos_min_spec|]. split; [by eapply seq_pos_max_spec|].
  destruct (tracks_lookup _ _ _ _ s (rep_index _ _ _ HR) Hs) as (Hu & _).
  unfold seq_size. replace ((0 <=? s) && (s <? LLAMA_MAX_SEQ)) with true by lia. bind_simpl.
  by rewrite Hu, length_positions.
Qed.

(** The queries on used cells answer from the cells: their number, the first
    and one past the last used index ([0] when none is used), and the indices
    holding a position of a sequence in increasing order. *)
Theorem kv_used_queries c l h s p :
  rep c l h -> 0 <= s < LLAMA_MAX_SEQ ->
  get_used c = length (used_cells l) /\
  used_min c = default 0 (list_min (Z.of_nat <$> used_cells l)) /\
  used_max_p1 c = match list_max (Z.of_nat <$> used_cells l) with None => 0 | Some m => m + 1 end /\
  cells_at c s p = Some (filter (fun i => holds_at l s p i = true) (used_cells l)).
Proof.
  intros HR Hs. pose proof (elements_used _ _ _ HR) as HP.
  assert (forall y, y ∈ Z.of_nat <$> elements (used c) <-> y ∈ Z.of_nat <$> used_cells l) as Hel
    by (intros y; by rewrite HP).
  split; [unfold get_used, base.size, set_size; simpl; by rewrite HP|].
  split; [unfold used_min; by rewrite (list_min_ext _ _ Hel)|].
  split; [unfold used_max_p1; by rewrite (list_max_ext _ _ Hel)|].
  by apply (cells_at_spec c l h).
Qed.

(** Saving a range of cells and restoring the snapshot, possibly into another
    cache and at another place, puts exactly the saved cells there and leaves the
    others alone, when neither cache has pending shifts. *)
Theorem kv_save_restore c l h c2 l2 h2 i n i2 :
  rep c l h -> rep c2 l2 h2 ->
  Forall (fun x => c_shift x = 0) l -> Forall (fun x => c_shift x = 0) l2 ->
  (i + n <= length l)%nat -> (i2 + n <= length l2)%nat ->
  exists o c2', cp c i n = Some o /\ set c2 i2 o = Some c2' /\
    rep c2' (take i2 l2 ++ take n (drop i l) ++ drop (i2 + n) l2) h2.
Proof.
  intros HR HR2 H0 H02 Hi Hi2. set (xs := take n (drop i l)).
  assert (length xs = n) as Hxs by (unfold xs; rewrite length_take, length_drop; lia).
  assert (Forall2 (fun idx x => l !! idx = Some x /\ c_shift x = 0) (List.seq i n) xs) as HF.
  { apply Forall2_same_length_lookup_2; [by rewrite length_seq|]. intros j idx x [-> Hj]%lookup_seq Hx.
    unfold xs in Hx. rewrite lookup_take_lt, lookup_drop in Hx by done.
    split; [done|]. by eapply Forall_lookup_1 in H0. }
  destruct (cp_idxs_snapshot _ _ _ _ _ HR HF) as (o & E & (Ho1 & Ho2 & Ho3) & Hsnap).
  rewrite length_seq in *.
  rewrite <- cp_eq in E by (rewrite (rep_pos _ _ _ HR), length_fmap; lia).
  assert (spec_op (SetAt i2 o) (l2, h2) =
    Some (take i2 l2 ++ xs ++ drop (i2 + n) l2, h2, false)) as Hspec.
  { simpl. rewrite Ho1, Ho2, Ho3. rewrite !bool_decide_eq_true_2 by done. bind_simpl. simpl.
    rewrite Hsnap, (spec_set_range l2 i2 xs), Hxs by (rewrite ?Hxs; done || (
      apply Forall_lookup; intros j x Hj; eapply Forall2_lookup_r in HF as (idx & _ & Hx & ?); [|done];
      split; [done|by eapply (rep_ok _ _ _ HR)])). done. }
  destruct (op_sim (SetAt i2 o) _ _ _ _ _ _ HR2 Hspec) as (c2' & E2 & HR').
  simpl in E2. destruct (set c2 i2 o) as [c3|] eqn:E3; simplify_eq/=. eauto.
Qed.

Lemma kv_seq_queries_witness :
  seq_pos_min example_cells 5 = Some 4 /\ seq_pos_max example_cells 5 = Some 9 /\
  seq_size example_cells 5 = Some 2.
Proof. apply (kv_seq_queries example_cells example_list false 5 example_rep). done. Defined.

Lemma kv_used_queries_witness :
  get_used example_cells = 3%nat /\ used_min example_cells = 0 /\ used_max_p1 example_cells = 4 /\
  cells_at example_cells 5 4 = Some [2%nat].
Proof. apply (kv_used_queries example_cells example_list false 5 4 example_rep). done. Defined.

Lemma kv_save_restore_witness :
  exists o c2', cp example_cells 2 2 = Some o /\ set (resize 3 cells_init) 1 o = Some c2' /\
    rep c2' [free; mk_cell 4 ext_zero 0 {[1; 5]}; mk_cell 9 ext_zero 0 {[5]}] false.
Proof.
  apply (kv_save_restore example_cells example_list false (resize 3 cells_init) (replicate 3 free) false
           2 2 1 example_rep (rep_fresh 3 ltac:(done)));
    [by repeat constructor|by repeat constructor|simpl; lia|simpl; lia].
Defined.

(** What a freed cell remembers. A cell freed by [rm] and then reused has zero
    2D coordinates, while a cell freed by [pos_add] (a negative shift moves its
    position below zero) still shows the coordinates of its previous occupant:
    [pos_add] is the only freeing path that does not call [ext[i].reset()]. *)
Theorem kv_freed_cell_ext c l h i x d p :
  rep c l h -> l !! i = Some x -> c_pos x <> -1 -> c_pos x + d < 0 ->
  in_i32 (c_pos x + d) = true -> in_i32 (c_shift x + d) = true -> 0 <= p < 2 ^ 31 ->
  (exists c1 c2, rm c i = Some c1 /\ pos_set c1 i p = Some c2 /\ ext_get c2 i = Some ext_zero) /\
  (exists c1 c2, pos_add c i d = Some (c1, true) /\ pos_set c1 i p = Some c2 /\
     ext_get c2 i = Some (c_ext x)).
Proof.
  intros HR Hx Hne Hneg Hi1 Hi2 Hp. pose proof (lookup_lt_Some _ _ _ Hx) as Hlt.
  assert (forall c1 h1 y, rep c1 (<[i := y]> l) h1 -> c_pos y = -1 ->
    exists c2, pos_set c1 i p = Some c2 /\ ext_get c2 i = Some (c_ext y)) as Hreuse.
  { intros c1 h1 y HR1 Hy. destruct (pos_set_sim i p c1 (<[i := y]> l) h1
      (<[i := mk_cell p (c_ext y) 0 ∅]> (<[i := y]> l)) h1 false HR1) as (c2 & E & HR2).
    { simpl. rewrite list_lookup_insert_eq by done. bind_simpl. rewrite Hy.
      replace (0 <=? p) with true by lia. by replace (p <? 2 ^ 31) with true by lia. }
    simpl in E. destruct (pos_set c1 i p) as [c3|]; simplify_eq/=. exists c2. split; [done|].
    destruct (rep_at _ _ _ HR2 i (mk_cell p (c_ext y) 0 ∅)) as (Hp2 & He2 & _);
      [by rewrite list_lookup_insert_eq by (by rewrite length_insert)|].
    unfold ext_get. rewrite Hp2; bind_simpl. simpl. by replace (p =? -1) with false by lia. }
  split.
  - destruct (rm_sim i c l h (<[i := free]> l) h false HR) as (c1 & E & HR1).
    { simpl. rewrite Hx; bind_simpl. by replace (c_pos x =? -1) with false by lia. }
    simpl in E. destruct (rm c i) as [c3|]; simplify_eq/=.
    destruct (Hreuse c1 h free HR1) as (c2 & ? & ?); eauto.
  - destruct (pos_add_sim i d c l h (<[i := mk_cell (-1) (c_ext x) 0 ∅]> l) true true HR) as (c1 & E & HR1).
    { simpl. rewrite Hx; bind_simpl. replace (c_pos x =? -1) with false by lia. rewrite Hi1, Hi2. simpl.
      by replace (c_pos x + d <? 0) with true by lia. }
    simpl in E. destruct (Hreuse c1 true _ HR1) as (c2 & ? & ?); eauto.
Qed.

Lemma kv_freed_cell_ext_witness :
  (exists c1 c2, rm example_cells 0 = Some c1 /\ pos_set c1 0 6 = Some c2 /\ ext_get c2 0 = Some ext_zero) /\
  (exists c1 c2, pos_add example_cells 0 (-5) = Some (c1, true) /\ pos_set c1 0 6 = Some c2 /\
     ext_get c2 0 = Some (mk_ext 7 8)).
Proof.
  by apply (kv_freed_cell_ext example_cells example_list false 0 (mk_cell 3 (mk_ext 7 8) 0 {[1]}) (-5) 6
           example_rep).
Defined.

End Cells.
