(* ===== verification/Memory.v ===== *)
(** The part of the memory interface (src/src/llama-memory.h) that the batch
    allocator relies on, and the KV cache's implementation of it
    (src/src/llama-kv-cache.cpp) on top of the cell metadata of [KvCells]. *)

From S2P Require Import Prelude.
From S2P Require Import KvCells.

(** [llama_memory_i::seq_pos_min] and [seq_pos_max]; [None] is a failed
    assertion of the implementation. *)
Class MemoryOps (M : Type) := {
  mem_seq_pos_min : M -> Z -> option Z;
  mem_seq_pos_max : M -> Z -> option Z;
}.

(** What an implementation promises for the states it can be in: each of the
    first [n] sequences has an answer, [-1] twice when it is empty and otherwise
    two positions in order. *)
Class Memory (M : Type) `{MemoryOps M} (wf : Z -> M -> Prop) := {
  mem_positions : forall n m s, wf n m -> 0 <= s < n ->
    exists lo hi, mem_seq_pos_min m s = Some lo /\ mem_seq_pos_max m s = Some hi /\
      (lo = -1 /\ hi = -1 \/ 0 <= lo <= hi /\ hi < 2 ^ 31);
}.

(** The cache keeps one array of cells per stream and the stream of each
    sequence, or shares the cells of an [other] cache. *)
Inductive llama_kv_cache :=
| mk_kv_cache (other : option llama_kv_cache) (v_cells : list Cells.llama_kv_cells)
    (seq_to_stream : list nat).

Definition stream_of (v_cells : list Cells.llama_kv_cells) (seq_to_stream : list nat) (s : Z)
    : option Cells.llama_kv_cells :=
  _ ← assert_ ((0 <=? s) && (s <? Z.of_nat (length seq_to_stream)));
  k ← seq_to_stream !! Z.to_nat s;
  v_cells !! k.

Fixpoint cache_seq_pos_min (m : llama_kv_cache) (s : Z) : option Z :=
  match m with
  | mk_kv_cache (Some other) _ _ => cache_seq_pos_min other s
  | mk_kv_cache None v_cells seq_to_stream =>
      cells ← stream_of v_cells seq_to_stream s; Cells.seq_pos_min cells s
  end.

Fixpoint cache_seq_pos_max (m : llama_kv_cache) (s : Z) : option Z :=
  match m with
  | mk_kv_cache (Some other) _ _ => cache_seq_pos_max other s
  | mk_kv_cache None v_cells seq_to_stream =>
      cells ← stream_of v_cells seq_to_stream s; Cells.seq_pos_max cells s
  end.

#[export] Instance kv_cache_memory_ops : MemoryOps llama_kv_cache := {|
  mem_seq_pos_min := cache_seq_pos_min;
  mem_seq_pos_max := cache_seq_pos_max;
|}.

(** The cell arrays represent some array of cells each, and the first [n]
    sequences have a stream. *)
Fixpoint cache_wf (n : Z) (m : llama_kv_cache) : Prop :=
  match m with
  | mk_kv_cache (Some other) _ _ => cache_wf n other
  | mk_kv_cache None v_cells seq_to_stream =>
      n <= Z.of_nat (length seq_to_stream) /\ n <= LLAMA_MAX_SEQ /\
      Forall (fun c => exists l h, Cells.rep c l h) v_cells /\
      Forall (fun k => (k < length v_cells)%nat) seq_to_stream
  end.

Lemma positions_range c l h s p : Cells.rep c l h -> p ∈ Cells.positions l s -> 0 <= p < 2 ^ 31.
Proof.
  intros HR (x & -> & [Hs Hx]%list_elem_of_filter)%list_elem_of_fmap.
  apply list_elem_of_lookup in Hx as [i Hi].
  destruct (Cells.rep_ok _ _ _ HR i x Hi) as (Hp & Hf & _).
  destruct (decide (Cells.c_pos x = -1)) as [E|E]; [|lia]. destruct (Hf E) as [E' _]. set_solver.
Qed.

Lemma cells_positions c l h s :
  Cells.rep c l h -> 0 <= s < LLAMA_MAX_SEQ ->
  exists lo hi, Cells.seq_pos_min c s = Some lo /\ Cells.seq_pos_max c s = Some hi /\
    (lo = -1 /\ hi = -1 \/ 0 <= lo <= hi /\ hi < 2 ^ 31).
Proof.
  intros HR Hs. do 2 eexists. split; [by eapply Cells.seq_pos_min_spec|].
  split; [by eapply Cells.seq_pos_max_spec|].
  destruct (list_min (Cells.positions l s)) as [lo|] eqn:El;
    destruct (list_max (Cells.positions l s)) as [hi|] eqn:Eh; simpl.
  - apply list_min_Some in El as [El _]. apply list_max_Some in Eh as [Eh Hm].
    specialize (Hm _ El). pose proof (positions_range _ _ _ _ _ HR El).
    pose proof (positions_range _ _ _ _ _ HR Eh). lia.
  - apply list_max_None in Eh. rewrite Eh in El. done.
  - apply list_min_None in El. rewrite El in Eh. done.
  - lia.
Qed.

#[export] Instance kv_cache_memory : Memory llama_kv_cache cache_wf.
Proof.
  split. fix IH 2. intros n [[other|] cs sts] s Hwf Hs; simpl in *; [by eapply IH|].
  destruct Hwf as (Hn & Hmax & Hcs & Hst).
  destruct (lookup_lt_is_Some_2 sts (Z.to_nat s)) as [k Hk]; [lia|].
  destruct (lookup_lt_is_Some_2 cs k) as [c Hc]; [by eapply Forall_lookup_1 in Hst|].
  destruct (Forall_lookup_1 _ _ _ _ Hcs Hc) as (l & h & HR).
  unfold stream_of. replace ((0 <=? s) && (s <? Z.of_nat (length sts))) with true by lia.
  bind_simpl. rewrite Hk. bind_simpl. rewrite Hc. bind_simpl.
  eapply cells_positions; [done|lia].
Qed.

(** A cache of one stream with the cells of [KvCells]: sequence 1 holds the
    positions 3 and 4, sequence 5 the positions 4 and 9. *)
Definition example_memory : llama_kv_cache :=
  mk_kv_cache None [Cells.example_cells] (replicate (Z.to_nat LLAMA_MAX_SEQ) 0%nat).

Lemma example_memory_wf : cache_wf 4 example_memory.
Proof.
  split; [by vm_compute|]. split; [by vm_compute|]. split.
  - constructor; [|constructor]. exists Cells.example_list, false. apply Cells.example_rep.
  - apply Forall_replicate. simpl. lia.
Qed.
