(* ===== verification/Batch.v ===== *)
(** The batch allocator of src/src/llama-batch.cpp: [llama_batch_allocr::init]
    validates an input batch and completes its missing fields against a memory
    ([Memory]), and the split functions cut it into micro-batches.

    A pointer field is an [option] of an array, a sequence set ([std::bitset]) a
    [gset Z], and the vectors [pos], [n_seq_id], [seq_id] and [output] of the
    allocator, which only back the pointers of its [batch], are those fields. *)

From S2P Require Import Prelude.
From S2P Require Import KvCells.
From S2P Require Import Memory.

Module Batch.

(** ** Data *)

(** What [init] reports before it returns false; [Undefined] is undefined
    behaviour or a failed assertion, [OutOfFuel] a loop the model cut short. *)
Inductive batch_error :=
| Undefined
| OutOfFuel
| TooManySeqs
| InvalidToken (i : nat)
| InvalidSeqId (i s : nat)
| NotAfterMemory (s : Z)
| NotConsecutive (s : Z)
| NotContinuous (s : Z)
| Diverged (s0 s1 : Z)
| Incompatible (s : Z)
| Decreasing (s : Z).

#[export] Instance batch_undef : Undef batch_error := Undefined.

Abbreviation R := (result batch_error).

(** [float] is a payload that is only copied. *)
Section Float.
Context {float : Type}.

Record llama_batch := mk_batch {
  n_tokens : Z;
  token : option (list Z);
  embd : option (list float);
  pos : option (list Z);
  n_seq_id : option (list Z);
  seq_id : option (list (list Z));
  logits : option (list Z);
}.

Definition with_pos b v := mk_batch (n_tokens b) (token b) (embd b) v (n_seq_id b) (seq_id b) (logits b).
Definition with_n_seq_id b v := mk_batch (n_tokens b) (token b) (embd b) (pos b) v (seq_id b) (logits b).
Definition with_seq_id b v := mk_batch (n_tokens b) (token b) (embd b) (pos b) (n_seq_id b) v (logits b).
Definition with_logits b v := mk_batch (n_tokens b) (token b) (embd b) (pos b) (n_seq_id b) (seq_id b) v.

(** [seq_id_off i] is the offset of the pointer [seq_id[i]] in [seq_id_data]. *)
Record llama_ubatch := mk_ubatch {
  u_equal_seqs : bool;
  u_n_tokens : nat;
  u_n_seq_tokens : nat;
  u_n_seqs : nat;
  u_n_seqs_unq : nat;
  u_n_pos : nat;
  u_token : option (list Z);
  u_embd : option (list float);
  u_pos : list Z;
  u_n_seq_id : list Z;
  u_seq_id_off : list nat;
  u_seq_id_unq : list Z;
  u_seq_idx : list Z;
  u_output : list Z;
  u_seq_id_data : list Z;
}.

Record llama_batch_allocr := mk_allocr {
  batch : llama_batch;
  n_pos_per_embd : nat;
  n_embd : nat;
  n_seq_max : Z;
  n_outputs : nat;
  seq_id_unq : list Z;
  seq_idx : list Z;
  has_cpl : bool;
  seq_pos : gmap Z (gset Z);
  seq_cpl : gset (Z * Z);
  seq_set : list (gset Z);
  seq_set_map : gmap (gset Z) (list nat);
  out_ids : list nat;
  n_used : nat;
  used : list bool;
}.

Definition no_batch : llama_batch := mk_batch 0 None None None None None None.

Definition seq_idx_init : list Z := replicate (Z.to_nat LLAMA_MAX_SEQ) (-1).

Definition llama_batch_allocr_init (n_pos : nat) : llama_batch_allocr :=
  mk_allocr no_batch n_pos 0 0 0 [] seq_idx_init false ∅ ∅ [] ∅ [] 0 [].

Definition clear (a : llama_batch_allocr) : llama_batch_allocr :=
  mk_allocr no_batch (n_pos_per_embd a) (n_embd a) (n_seq_max a) 0 [] seq_idx_init (has_cpl a)
    ∅ ∅ [] ∅ (out_ids a) (n_used a) (used a).

(** The fields that the split functions change. *)
Definition with_used (a : llama_batch_allocr) (o : list nat) (k : nat) (u : list bool) :=
  mk_allocr (batch a) (n_pos_per_embd a) (n_embd a) (n_seq_max a) (n_outputs a) (seq_id_unq a)
    (seq_idx a) (has_cpl a) (seq_pos a) (seq_cpl a) (seq_set a) (seq_set_map a) o k u.

Definition get_n_tokens (a : llama_batch_allocr) : nat := Z.to_nat (n_tokens (batch a)).
Definition get_n_used (a : llama_batch_allocr) : nat := n_used a.

Definition split_reset (a : llama_batch_allocr) : llama_batch_allocr :=
  with_used a [] 0 (replicate (get_n_tokens a) false).

(** The least and greatest batch position of a sequence. *)
Definition positions_of (sp : gmap Z (gset Z)) (s : Z) : gset Z := default ∅ (sp !! s).
Definition pos_min (sp : gmap Z (gset Z)) (s : Z) : Z :=
  default (-1) (list_min (elements (positions_of sp s))).
Definition pos_max (sp : gmap Z (gset Z)) (s : Z) : Z :=
  default (-1) (list_max (elements (positions_of sp s))).

(** ** Validating and completing a batch *)

Definition tokens_of (b : llama_batch) : list nat := List.seq 0 (Z.to_nat (n_tokens b)).

Definition check_tokens (b : llama_batch) (vocab_n : Z) : R unit :=
  match token b with
  | None => Ok tt
  | Some ts =>
      foldM (fun _ i => t ← at_ ts i; ensure ((0 <=? t) && (t <? vocab_n)) (InvalidToken i))
        tt (tokens_of b)
  end.

Definition check_seq_ids (b : llama_batch) (n_seq_max : Z) : R unit :=
  match seq_id b with
  | None => Ok tt
  | Some ids =>
      foldM (fun _ i =>
        ns ← deref (n_seq_id b); n ← at_ ns i;
        foldM (fun _ s =>
          row ← at_ ids i; x ← at_ row s;
          ensure ((0 <=? x) && (x <? n_seq_max)) (InvalidSeqId i s))
          tt (List.seq 0 (Z.to_nat n)))
        tt (tokens_of b)
  end.

Definition gen_n_seq_id (b : llama_batch) : llama_batch :=
  match n_seq_id b with
  | Some _ => b
  | None => with_n_seq_id b (Some (replicate (Z.to_nat (n_tokens b)) 1))
  end.

Definition gen_seq_id (b : llama_batch) : llama_batch :=
  match seq_id b with
  | Some _ => b
  | None => with_seq_id b (Some (replicate (Z.to_nat (n_tokens b)) [0]))
  end.

(** [batch.seq_id[i]], its first element, and its [n_seq_id[i]] elements. *)
Definition seq_row (b : llama_batch) (i : nat) : R (list Z) := ids ← deref (seq_id b); at_ ids i.
Definition seq_first (b : llama_batch) (i : nat) : R Z := row ← seq_row b i; at_ row 0%nat.
Definition seq_ids (b : llama_batch) (i : nat) : R (list Z) :=
  ns ← deref (n_seq_id b); n ← at_ ns i; row ← seq_row b i;
  mapM (fun s => at_ row s) (List.seq 0 (Z.to_nat n)).

Definition n_seqs (n_seq_max : Z) : list Z := seqZ 0 n_seq_max.

Section Init.
Context {M : Type} `{MemoryOps M}.

Definition memory_pos_min (m : M) (s : Z) : R Z := deref (mem_seq_pos_min m s).
Definition memory_pos_max (m : M) (s : Z) : R Z := deref (mem_seq_pos_max m s).

(** The last position in an optional memory, [-1] without one. *)
Definition last_pos (memory : option M) (s : Z) : R Z :=
  match memory with None => Ok (-1) | Some m => memory_pos_max m s end.

Definition gen_p0 (memory : option M) (n_seq_max : Z) : R (gmap Z Z) :=
  foldM (fun p0 s =>
    match memory with
    | None => Ok (<[s := 0]> p0)
    | Some m => x ← memory_pos_max m s; y ← int_ (x + 1); Ok (<[s := y]> p0)
    end) ∅ (n_seqs n_seq_max).

Definition gen_pos_token (b : llama_batch) (st : list Z * gmap Z Z) (i : nat) : R (list Z * gmap Z Z) :=
  let '(pos, p0) := st in
  s0 ← seq_first b i;
  p ← deref (p0 !! s0);
  ids ← seq_ids b i;
  p0 ← foldM (fun p0 s => y ← int_ (p + 1); Ok (<[s := y]> p0)) p0 ids;
  Ok (pos ++ [p], p0).

Definition gen_pos (b : llama_batch) (memory : option M) (n_seq_max : Z) : R llama_batch :=
  match pos b with
  | Some _ => Ok b
  | None =>
      p0 ← gen_p0 memory n_seq_max;
      st ← foldM (gen_pos_token b) ([], p0) (tokens_of b);
      Ok (with_pos b (Some st.1))
  end.

Definition gen_logits (b : llama_batch) (output_all : bool) : R llama_batch :=
  let n := Z.to_nat (n_tokens b) in
  match logits b with
  | None =>
      Ok (with_logits b (Some
        (if output_all then replicate n 1 else replicate (n - 1) 0 ++ [1])))
  | Some l =>
      if output_all then
        warn ← foldM (fun warn i => x ← at_ l i; Ok (warn || (x =? 0))) false (tokens_of b);
        Ok (if warn : bool then with_logits b (Some (replicate n 1)) else b)
      else Ok b
  end.

(** ** Statistics *)

Definition count_outputs (b : llama_batch) : R nat :=
  foldM (fun n i => ls ← deref (logits b); x ← at_ ls i;
    Ok (if x =? 0 then n else S n)) 0%nat (tokens_of b).

(** Positions of each sequence and pairs of coupled sequences. *)
Record stats := mk_stats {
  st_pos : gmap Z (gset Z);
  st_cpl : gset (Z * Z);
  st_has_cpl : bool;
}.

Definition couple_seq (s0 p : Z) (st : stats) (k : nat) (s1 : Z) : stats :=
  let st := mk_stats (<[s1 := {[p]} ∪ positions_of (st_pos st) s1]> (st_pos st)) (st_cpl st) (st_has_cpl st) in
  if (0 <? k)%nat then mk_stats (st_pos st) ({[(s1, s0)]} ∪ st_cpl st) true else st.

Definition couple_token (b : llama_batch) (st : stats) (i : nat) : R stats :=
  s0 ← seq_first b i;
  ids ← seq_ids b i;
  p ← (ps ← deref (pos b); at_ ps i);
  Ok (foldl (fun st ks => couple_seq s0 p st ks.1 ks.2) st (zip (List.seq 0 (length ids)) ids)).

Definition couple (b : llama_batch) : R stats :=
  foldM (couple_token b) (mk_stats ∅ ∅ false) (tokens_of b).

(** The sequence set of each token, the tokens of each sequence set, and the
    sequences that take part. *)
Record seq_sets := mk_sets {
  ss_set : list (gset Z);
  ss_map : gmap (gset Z) (list nat);
  ss_unq : gset Z;
}.

Definition seq_sets_token (b : llama_batch) (ss : seq_sets) (i : nat) : R seq_sets :=
  ids ← seq_ids b i;
  let cur : gset Z := list_to_set ids in
  Ok (mk_sets (ss_set ss ++ [cur]) (<[cur := default [] (ss_map ss !! cur) ++ [i]]> (ss_map ss))
    (ss_unq ss ∪ cur)).

Definition compute_seq_sets (b : llama_batch) : R seq_sets :=
  foldM (seq_sets_token b) (mk_sets [] ∅ ∅) (tokens_of b).

(** [seq_idx] and [seq_id_unq] from the sequences present. *)
Definition index_seq (unq : gset Z) (st : list Z * list Z) (s : Z) : list Z * list Z :=
  let '(idx, ids) := st in
  if bool_decide (s ∈ unq) then (<[Z.to_nat s := Z.of_nat (length ids)]> idx, ids ++ [s]) else st.

Definition index_seqs (unq : gset Z) (n_seq_max : Z) : list Z * list Z :=
  foldl (index_seq unq) (seq_idx_init, []) (n_seqs n_seq_max).

(** ** Consistency checks *)

Definition check_pos_mrope (has_token : bool) (memory : option M) (sp : gmap Z (gset Z)) (s : Z) : R unit :=
  if bool_decide (positions_of sp s = ∅) then Ok tt else
  p0 ← last_pos memory s;
  if has_token then ensure (negb ((0 <=? p0) && (pos_min sp s <=? p0))) (NotAfterMemory s)
  else ensure (negb ((0 <=? p0) && (pos_min sp s <? p0))) (NotAfterMemory s).

Definition check_pos_1d (memory : option M) (sp : gmap Z (gset Z)) (s : Z) : R unit :=
  if bool_decide (positions_of sp s = ∅) then Ok tt else
  p0 ← last_pos memory s;
  _ ← (if 0 <=? p0 then y ← int_ (p0 + 1); ensure (pos_min sp s =? y) (NotConsecutive s) else Ok tt);
  d ← int_ (pos_max sp s - pos_min sp s);
  d1 ← int_ (d + 1);
  ensure (d1 <=? Z.of_nat (base.size (positions_of sp s))) (NotContinuous s).

Definition check_coupled (memory : option M) (cpl : gset (Z * Z)) (n_seq_max : Z) : R unit :=
  match memory with
  | None => Ok tt
  | Some m =>
      foldM (fun _ s0 => foldM (fun _ s1 =>
        if bool_decide ((s0, s1) ∈ cpl) then
          lo0 ← memory_pos_min m s0; lo1 ← memory_pos_min m s1;
          _ ← ensure (lo0 =? lo1) (Diverged s0 s1);
          hi0 ← memory_pos_max m s0; hi1 ← memory_pos_max m s1;
          ensure (hi0 =? hi1) (Diverged s0 s1)
        else Ok tt) tt (n_seqs n_seq_max)) tt (n_seqs n_seq_max)
  end.

(** The arrays [cur_seq_set] (all ones below [n_seq_max], zeros above) and
    [cur_seq_pos] (uninitialised above [n_seq_max]). *)
Definition all_seqs : gset Z := list_to_set (seqZ 0 LLAMA_MAX_SEQ).
Definition cur_sets_init (n_seq_max : Z) : gmap Z (gset Z) :=
  list_to_map ((fun s => (s, all_seqs)) <$> n_seqs n_seq_max).
Definition cur_pos_init (n_seq_max : Z) : gmap Z Z :=
  list_to_map ((fun s => (s, -1)) <$> n_seqs n_seq_max).

Definition check_order_seq (set : gset Z) (p : Z) (st : gmap Z (gset Z) * gmap Z Z) (s : Z)
    : R (gmap Z (gset Z) * gmap Z Z) :=
  let '(cs, cp) := st in
  let cur := default ∅ (cs !! s) ∩ set in
  _ ← ensure (negb (bool_decide (cur = ∅))) (Incompatible s);
  last ← deref (cp !! s);
  _ ← ensure (last <=? p) (Decreasing s);
  Ok (<[s := cur]> cs, <[s := p]> cp).

Definition check_order_token (b : llama_batch) (sets : list (gset Z))
    (st : gmap Z (gset Z) * gmap Z Z) (i : nat) : R (gmap Z (gset Z) * gmap Z Z) :=
  p ← (ps ← deref (pos b); at_ ps i);
  ids ← seq_ids b i;
  set ← at_ sets i;
  foldM (check_order_seq set p) st ids.

Definition check_order (b : llama_batch) (sets : list (gset Z)) (n_seq_max : Z) : R unit :=
  _ ← foldM (check_order_token b sets) (cur_sets_init n_seq_max, cur_pos_init n_seq_max) (tokens_of b);
  Ok tt.

(** The missing fields, in the order [init] generates them. *)
Definition complete (b : llama_batch) (memory : option M) (n_seq_max : Z) (output_all : bool) : R llama_batch :=
  b ← gen_pos (gen_seq_id (gen_n_seq_id b)) memory n_seq_max;
  gen_logits b output_all.

Definition check_positions (n_pos : nat) (b : llama_batch) (memory : option M) (sp : gmap Z (gset Z))
    (n_seq_max : Z) : R unit :=
  foldM (fun _ s =>
    if (1 <? n_pos)%nat then check_pos_mrope (bool_decide (is_Some (token b))) memory sp s
    else check_pos_1d memory sp s) tt (n_seqs n_seq_max).

Definition init (a : llama_batch_allocr) (batch_inp : llama_batch) (vocab_n : Z) (memory : option M)
    (n_embd : nat) (n_seq_max : Z) (output_all : bool) : R llama_batch_allocr :=
  let a := clear a in
  _ ← ensure (0 <? n_tokens batch_inp) Undefined;
  _ ← ensure (n_seq_max <=? LLAMA_MAX_SEQ) TooManySeqs;
  _ ← check_tokens batch_inp vocab_n;
  _ ← check_seq_ids batch_inp n_seq_max;
  b ← complete batch_inp memory n_seq_max output_all;
  n_out ← count_outputs b;
  st ← couple b;
  ss ← compute_seq_sets b;
  let '(idx, unq) := index_seqs (ss_unq ss) n_seq_max in
  _ ← check_positions (n_pos_per_embd a) b memory (st_pos st) n_seq_max;
  _ ← check_coupled memory (st_cpl st) n_seq_max;
  _ ← check_order b (ss_set ss) n_seq_max;
  Ok (split_reset (mk_allocr b (n_pos_per_embd a) n_embd n_seq_max n_out unq idx (st_has_cpl st)
    (st_pos st) (st_cpl st) (ss_set ss) (ss_map ss) (out_ids a) (n_used a) (used a))).
End Init.

(** ** Splitting *)

(** [used[i] = true; ++n_used] and its inverse. *)
Definition mark (a : llama_batch_allocr) (i : nat) : R llama_batch_allocr :=
  _ ← at_ (used a) i; Ok (with_used a (out_ids a) (S (n_used a)) (<[i := true]> (used a))).
Definition unmark (a : llama_batch_allocr) (i : nat) : R llama_batch_allocr :=
  _ ← at_ (used a) i; Ok (with_used a (out_ids a) (n_used a - 1) (<[i := false]> (used a))).

(** The first index at or after which a token is unused, the number of tokens if
    there is none. *)
Fixpoint first_unused (u : list bool) : nat :=
  match u with true :: u => S (first_unused u) | _ => 0 end.

(** A ubatch is empty ([n_tokens == 0]) when there was nothing left to take;
    otherwise it is built from a list of token indices. *)
Definition selection := option (list nat * nat * bool).

Fixpoint simple_loop (fuel : nat) (a : llama_batch_allocr) (n_ubatch : Z) (cur : nat) (idxs : list nat)
    : R (llama_batch_allocr * list nat) :=
  match fuel with
  | O => Error OutOfFuel
  | S fuel =>
      let idxs := idxs ++ [cur] in
      a ← mark a cur;
      let cur := S cur in
      if (length (used a) <=? cur)%nat then Ok (a, idxs)
      else if n_ubatch <=? Z.of_nat (length idxs) then Ok (a, idxs)
      else simple_loop fuel a n_ubatch cur idxs
  end.

Definition select_simple (a : llama_batch_allocr) (n_ubatch : Z) : R (llama_batch_allocr * selection) :=
  let cur := first_unused (used a) in
  if (length (used a) <=? cur)%nat then Ok (a, None)
  else
    r ← simple_loop (length (used a)) a n_ubatch cur [];
    let '(a, idxs) := r in
    Ok (a, Some (idxs, length idxs, false)).

(** The non-overlapping sequence sets of the next ubatch. *)
Fixpoint equal_sets (a : llama_batch_allocr) (n_ubatch : Z) (sequential : bool) (todo : list nat)
    (cur : list (gset Z)) (last : Z) : R (list (gset Z)) :=
  match todo with
  | [] => Ok cur
  | i :: todo =>
      u ← at_ (used a) i;
      if (u : bool) then equal_sets a n_ubatch sequential todo cur last else
      set ← at_ (seq_set a) i;
      if negb (forallb (fun c => bool_decide (c ∩ set = ∅)) cur) then
        equal_sets a n_ubatch sequential todo cur last
      else
        s0 ← seq_first (batch a) i;
        if sequential && negb (match cur with [] => true | _ => s0 =? last + 1 end) then
          equal_sets a n_ubatch sequential todo cur last
        else
          let cur := cur ++ [set] in
          if n_ubatch <? Z.of_nat (length cur) then Ok cur
          else equal_sets a n_ubatch sequential todo cur s0
  end.

(** One sequence set of the ubatch: the batch indices at which it appears
    ([seq_set_map[cur_seq_set[s]]]), [cur_idx[s]] and [idxs_per_seq[s]]. *)
Record group := mk_group {
  g_all : list nat;
  g_cur : nat;
  g_idxs : list nat;
}.

(** [while (used[seq_set_map[...][cur_idx[s]]]) ++cur_idx[s]] *)
Fixpoint skip_used (u : list bool) (l : list nat) : R nat :=
  match l with
  | [] => Error Undefined
  | i :: l => x ← at_ u i; if (x : bool) then S <$> skip_used u l else Ok 0%nat
  end.

Definition group_of (a : llama_batch_allocr) (set : gset Z) : R group :=
  let l := default [] (seq_set_map a !! set) in
  c ← skip_used (used a) l;
  Ok (mk_group l c []).

Definition can_expand (gs : list group) : bool :=
  forallb (fun g => (g_cur g <? length (g_all g))%nat) gs.

Definition take_one (a : llama_batch_allocr) (g : group) : R (llama_batch_allocr * group) :=
  idx ← at_ (g_all g) (g_cur g);
  a ← mark a idx;
  Ok (a, mk_group (g_all g) (S (g_cur g)) (g_idxs g ++ [idx])).

Fixpoint take_round (a : llama_batch_allocr) (gs : list group) : R (llama_batch_allocr * list group) :=
  match gs with
  | [] => Ok (a, [])
  | g :: gs =>
      r ← take_one a g; let '(a, g) := r in
      r ← take_round a gs; let '(a, gs) := r in
      Ok (a, g :: gs)
  end.

Definition round_size (gs : list group) : nat :=
  match gs with [] => 0 | g :: _ => length (g_idxs g) end.

Fixpoint equal_loop (fuel : nat) (a : llama_batch_allocr) (n_ubatch : Z) (gs : list group)
    : R (llama_batch_allocr * list group) :=
  match fuel with
  | O => Error OutOfFuel
  | S fuel =>
      if can_expand gs then
        r ← take_round a gs; let '(a, gs) := r in
        if n_ubatch <? Z.of_nat ((round_size gs + 1) * length gs) then Ok (a, gs)
        else equal_loop fuel a n_ubatch gs
      else Ok (a, gs)
  end.

Definition n_remaining (g : group) : nat := length (g_all g) - g_cur g.

(** The longest prefix of groups that finish or leave at least [n_keep_tail]. *)
Fixpoint count_keep (n_keep_tail : nat) (gs : list group) : nat :=
  match gs with
  | [] => 0
  | g :: gs =>
      let r := n_remaining g in
      if negb (r =? 0)%nat && (r <? n_keep_tail)%nat then 0%nat else S (count_keep n_keep_tail gs)
  end.

Fixpoint extend_group (fuel : nat) (a : llama_batch_allocr) (g : group) : R (llama_batch_allocr * group) :=
  if (0 <? n_remaining g)%nat then
    match fuel with
    | O => Error OutOfFuel
    | S fuel => r ← take_one a g; let '(a, g) := r in extend_group fuel a g
    end
  else Ok (a, g).

Fixpoint truncate_group (fuel : nat) (a : llama_batch_allocr) (n_keep_tail : nat) (g : group)
    : R (llama_batch_allocr * group) :=
  if (n_remaining g <? n_keep_tail)%nat then
    match fuel with
    | O => Error OutOfFuel
    | S fuel =>
        idx ← deref (last (g_idxs g));
        a ← unmark a idx;
        truncate_group fuel a n_keep_tail
          (mk_group (g_all g) (g_cur g - 1) (removelast (g_idxs g)))
    end
  else Ok (a, g).

(** The deferred groups give their tokens back. *)
Definition release (a : llama_batch_allocr) (gs : list group) : R llama_batch_allocr :=
  foldM unmark a (concat (g_idxs <$> gs)).

Definition keep_tail (a : llama_batch_allocr) (n_ubatch : Z) (n_keep_tail : nat) (gs : list group)
    : R (llama_batch_allocr * list group) :=
  if (n_keep_tail =? 0)%nat then Ok (a, gs) else
  _ ← ensure (Z.of_nat n_keep_tail <? n_ubatch) Undefined;
  match count_keep n_keep_tail gs, gs with
  | O, g :: gs =>
      let fuel := S (length (g_all g)) in
      r ← (if Z.of_nat (length (g_idxs g) + n_remaining g) <=? n_ubatch
           then extend_group fuel a g
           else truncate_group fuel a n_keep_tail g);
      let '(a, g) := r in
      a ← release a gs;
      Ok (a, [g])
  | k, gs =>
      a ← release a (drop k gs);
      Ok (a, take k gs)
  end.

Definition select_equal (a : llama_batch_allocr) (n_ubatch : Z) (sequential : bool) (n_keep_tail : nat)
    : R (llama_batch_allocr * selection) :=
  if sequential && has_cpl a then Ok (a, None) else
  sets ← equal_sets a n_ubatch sequential (tokens_of (batch a)) [] (-1);
  match sets with
  | [] => Ok (a, None)
  | _ =>
      gs ← mapM (group_of a) sets;
      r ← equal_loop (S (get_n_tokens a)) a n_ubatch gs;
      let '(a, gs) := r in
      r ← keep_tail a n_ubatch n_keep_tail gs;
      let '(a, gs) := r in
      Ok (a, Some (concat (g_idxs <$> gs), length gs, true))
  end.

(** [do ++cur_idx while (used or not a subset)]: the next index from [todo]. *)
Fixpoint next_subset (a : llama_batch_allocr) (cur : gset Z) (todo : list nat) : R (option nat) :=
  match todo with
  | [] => Ok None
  | i :: todo =>
      u ← at_ (used a) i;
      if (u : bool) then next_subset a cur todo else
      set ← at_ (seq_set a) i;
      if bool_decide (cur ∩ set = set) then Ok (Some i) else next_subset a cur todo
  end.

Fixpoint seq_loop (fuel : nat) (a : llama_batch_allocr) (n_ubatch : Z) (cur_set : gset Z) (cur : nat)
    (idxs : list nat) : R (llama_batch_allocr * list nat) :=
  match fuel with
  | O => Error OutOfFuel
  | S fuel =>
      let idxs := idxs ++ [cur] in
      a ← mark a cur;
      if n_ubatch <=? Z.of_nat (length idxs) then Ok (a, idxs) else
      next ← next_subset a cur_set (List.seq (S cur) (get_n_tokens a - S cur));
      match next with
      | None => Ok (a, idxs)
      | Some i => set ← at_ (seq_set a) i; seq_loop fuel a n_ubatch set i idxs
      end
  end.

Definition select_seq (a : llama_batch_allocr) (n_ubatch : Z) : R (llama_batch_allocr * selection) :=
  let cur := first_unused (used a) in
  if (length (used a) <=? cur)%nat then Ok (a, None)
  else
    set ← at_ (seq_set a) cur;
    r ← seq_loop (length (used a)) a n_ubatch set cur [];
    let '(a, idxs) := r in
    Ok (a, Some (idxs, 1%nat, true)).

(** ** Building a ubatch *)

Definition memcpy {A} (src : list A) (off n : nat) : R (list A) :=
  mapM (at_ src) (List.seq off n).

(** Offsets of consecutive rows of the given lengths. *)
Fixpoint offsets (off : nat) (ns : list Z) : list nat :=
  match ns with [] => [] | n :: ns => off :: offsets (off + Z.to_nat n) ns end.

(** The position of a text token is broadcast to every section of M-RoPE. *)
Definition src_off (b : llama_batch) (j : nat) : nat :=
  match token b with Some _ => 0 | None => j * Z.to_nat (n_tokens b) end.

Definition ubatch_add (a : llama_batch_allocr) (idxs : list nat) (n_seqs : nat) (equal_seqs : bool)
    : R (llama_batch_allocr * llama_ubatch) :=
  let b := batch a in
  let n := length idxs in
  _ ← ensure ((n mod n_seqs =? 0)%nat && negb (n_seqs =? 0)%nat) Undefined;
  tokens ← match token b with None => Ok None | Some ts => Some <$> mapM (at_ ts) idxs end;
  embds ← match embd b with
          | None => Ok None
          | Some es => Some <$> (@concat _ <$> mapM (fun i => memcpy es (i * n_embd a) (n_embd a)) idxs)
          end;
  poss ← @concat _ <$> mapM (fun j =>
           mapM (fun i => ps ← deref (pos b);
             at_ ps (src_off b j + i)%nat) idxs)
           (List.seq 0 (n_pos_per_embd a));
  ns ← mapM (fun i => l ← deref (n_seq_id b); at_ l i) idxs;
  outs ← mapM (fun i => l ← deref (logits b); at_ l i) idxs;
  rows ← mapM (seq_ids b) idxs;
  let data := concat rows in
  let '(idx, unq) := index_seqs (list_to_set data) (n_seq_max a) in
  Ok (with_used a (out_ids a ++ (filter (fun io => io.2 <> 0) (zip idxs outs)).*1) (n_used a) (used a),
      mk_ubatch equal_seqs n (n / n_seqs)%nat n_seqs (length unq) (n_pos_per_embd a) tokens embds poss ns
        (offsets 0 ns) unq idx outs data).

Definition empty_ubatch : llama_ubatch :=
  mk_ubatch false 0 0 0 0 0 None None [] [] [] [] [] [] [].

Definition finish (r : llama_batch_allocr * selection) : R (llama_batch_allocr * llama_ubatch) :=
  match r with
  | (a, None) => Ok (a, empty_ubatch)
  | (a, Some (idxs, n_seqs, equal_seqs)) => ubatch_add a idxs n_seqs equal_seqs
  end.

Definition split_simple a n_ubatch := select_simple a n_ubatch ≫= finish.
Definition split_equal a n_ubatch sequential n_keep_tail :=
  select_equal a n_ubatch sequential n_keep_tail ≫= finish.
Definition split_seq a n_ubatch := select_seq a n_ubatch ≫= finish.

(** A ubatch of a given shape with no content, for reserving buffers. *)
Definition ubatch_reserve (a : llama_batch_allocr) (n_seq_tokens n_seqs : nat)
    : R (llama_batch_allocr * llama_ubatch) :=
  let n := Z.to_nat (u32 (Z.of_nat (n_seq_tokens * n_seqs))) in
  let a := split_reset (clear a) in
  let idx := (fun s => if s <? Z.of_nat n_seqs then s else -1) <$> seqZ 0 LLAMA_MAX_SEQ in
  _ ← ensure (Z.of_nat n_seqs <=? LLAMA_MAX_SEQ) Undefined;
  Ok (a, mk_ubatch true n n_seq_tokens n_seqs n_seqs (n_pos_per_embd a) (Some (replicate n 0)) None
    (replicate (n * n_pos_per_embd a) 0) (replicate n 0) (replicate n 0%nat) (seqZ 0 (Z.of_nat n_seqs))
    idx (replicate n 0) []).

(** The callers' loop (src/src/llama-kv-cache.cpp and the other memories): split
    until a ubatch is empty, then succeed if every token was used. *)
Inductive split_mode :=
| Simple (n_ubatch : Z)
| Equal (n_ubatch : Z) (sequential : bool) (n_keep_tail : nat)
| Seq (n_ubatch : Z).

Definition select (m : split_mode) (a : llama_batch_allocr) : R (llama_batch_allocr * selection) :=
  match m with
  | Simple n_ubatch => select_simple a n_ubatch
  | Equal n_ubatch sequential n_keep_tail => select_equal a n_ubatch sequential n_keep_tail
  | Seq n_ubatch => select_seq a n_ubatch
  end.

Definition split (m : split_mode) (a : llama_batch_allocr) : R (llama_batch_allocr * llama_ubatch) :=
  match m with
  | Simple n_ubatch => split_simple a n_ubatch
  | Equal n_ubatch sequential n_keep_tail => split_equal a n_ubatch sequential n_keep_tail
  | Seq n_ubatch => split_seq a n_ubatch
  end.

Fixpoint split_loop (fuel : nat) (m : split_mode) (a : llama_batch_allocr) (us : list llama_ubatch)
    : R (llama_batch_allocr * list llama_ubatch) :=
  match fuel with
  | O => Error OutOfFuel
  | S fuel =>
      r ← split m a; let '(a, u) := r in
      if (u_n_tokens u =? 0)%nat then Ok (a, us) else split_loop fuel m a (us ++ [u])
  end.

(** [init_batch] up to the placement of the ubatches: [None] is the failure to
    find a suitable split. *)
Definition split_batch (m : split_mode) (a : llama_batch_allocr)
    : R (llama_batch_allocr * option (list llama_ubatch)) :=
  let a := split_reset a in
  r ← split_loop (S (get_n_tokens a)) m a [];
  let '(a, us) := r in
  Ok (a, if (get_n_used a <? get_n_tokens a)%nat then None else Some us).

End Float.
Arguments llama_batch : clear implicits.
Arguments llama_ubatch : clear implicits.
Arguments llama_batch_allocr : clear implicits.

End Batch.
