(* ===== verification/BatchSplit.v ===== *)
(** Splitting a batch into micro-batches: what each split of [Batch] selects,
    that repeated splits use every token exactly once, and what the ubatches
    contain. *)

From S2P Require Import Prelude.
From S2P Require Import KvCells.
From S2P Require Import Memory.
From S2P Require Import Batch.

Module BatchSplit.
Import Batch.

Section Float.
Context {float : Type}.
Implicit Types a : llama_batch_allocr float.
Implicit Types l idxs : list nat.

(** ** Marking tokens *)

Definition marked (u : list bool) l : list bool := foldl (fun u i => <[i := true]> u) u l.

Lemma marked_lookup u l i :
  marked u l !! i = if bool_decide (i ∈ l) then (fun _ => true) <$> u !! i else u !! i.
Proof.
  revert u. induction l as [|j l IH]; intros u; [done|].
  unfold marked in *. cbn [foldl]. rewrite IH. destruct (decide (i = j)) as [->|Hne].
  - rewrite (bool_decide_eq_true_2 (j ∈ j :: l)) by left.
    destruct (u !! j) eqn:E.
    + rewrite list_lookup_insert_eq by (by eapply lookup_lt_Some). by case_bool_decide.
    + rewrite list_insert_ge by (by apply lookup_ge_None). rewrite E. by case_bool_decide.
  - rewrite list_lookup_insert_ne by done.
    assert (bool_decide (i ∈ j :: l) = bool_decide (i ∈ l)) as -> by (apply bool_decide_ext; set_solver).
    done.
Qed.

Lemma length_marked u l : length (marked u l) = length u.
Proof.
  revert u. induction l as [|j l IH]; intros u; [done|]. unfold marked in *. cbn [foldl].
  by rewrite IH, length_insert.
Qed.

Lemma marked_app u l k : marked (marked u l) k = marked u (l ++ k).
Proof. unfold marked. by rewrite foldl_app. Qed.

Lemma marked_ext u l k : (forall i, i ∈ l <-> i ∈ k) -> marked u l = marked u k.
Proof.
  intros H. apply list_eq. intros i. rewrite !marked_lookup.
  by rewrite (bool_decide_ext _ _ (H i)).
Qed.

(** [a] after the tokens [l] were used. *)
Definition consume a l := with_used a (out_ids a) (n_used a + length l) (marked (used a) l).

Lemma consume_nil a : consume a [] = a.
Proof. destruct a. unfold consume, with_used. simpl. by rewrite Nat.add_0_r. Qed.

Lemma consume_app a l k : consume (consume a l) k = consume a (l ++ k).
Proof.
  unfold consume, with_used. simpl. rewrite marked_app, length_app. f_equal. lia.
Qed.

Lemma consume_perm a l k : l ≡ₚ k -> consume a l = consume a k.
Proof.
  intros HP. unfold consume. rewrite (Permutation_length HP). f_equal.
  apply marked_ext. intros i. by rewrite HP.
Qed.

Lemma mark_consume a i : (i < length (used a))%nat -> mark a i = Ok (consume a [i]).
Proof.
  intros [b Hb]%lookup_lt_is_Some_2. unfold mark, at_. rewrite Hb. simpl.
  unfold consume. simpl. by rewrite Nat.add_1_r.
Qed.

Lemma marks_consume a l :
  (forall i, i ∈ l -> (i < length (used a))%nat) -> foldM mark a l = Ok (consume a l).
Proof.
  revert a. induction l as [|i l IH]; intros a Hl; [by rewrite consume_nil|].
  cbn [foldM]. rewrite mark_consume by (apply Hl; left). bind_simpl. rewrite IH, consume_app; [done|].
  intros j Hj. change (used (consume a [i])) with (marked (used a) [i]).
  rewrite length_marked. apply Hl. by right.
Qed.

(** ** Batches that can be split *)

(** The tokens with sequence set [S], and those not used yet. *)
Definition tokens_with a (S : gset Z) : list nat :=
  filter (fun i => seq_set a !! i = Some S) (List.seq 0 (get_n_tokens a)).
Definition unused_with a (S : gset Z) : list nat :=
  filter (fun i => used a !! i = Some false) (tokens_with a S).

Definition unused_at a (i : nat) : bool := bool_decide (used a !! i = Some false).

(** The state of the allocator between two splits: [n_used] counts the used
    tokens, the sequence sets are indexed, and the tokens of one sequence set are
    used in order. *)
Record ready a : Prop := {
  rd_used : length (used a) = get_n_tokens a;
  rd_sets : length (seq_set a) = get_n_tokens a;
  rd_count : n_used a = sum_list_with (fun b : bool => if b then 1 else 0)%nat (used a);
  rd_map : forall S, S ∈ seq_set a -> seq_set_map a !! S = Some (tokens_with a S);
  rd_nonempty : forall S, S ∈ seq_set a -> S <> ∅;
  rd_first : forall i, (i < get_n_tokens a)%nat -> exists s, seq_first (batch a) i = Ok s;
  rd_order : forall i j S, (i < j)%nat -> seq_set a !! i = Some S -> seq_set a !! j = Some S ->
    used a !! j = Some true -> used a !! i = Some true
}.

(** What a split may take: unused tokens, each once, and in each sequence set the
    first ones. *)
Record takes a l : Prop := {
  tk_nodup : NoDup l;
  tk_unused : forall i, i ∈ l -> used a !! i = Some false;
  tk_order : forall i j S, (i < j)%nat -> seq_set a !! i = Some S -> seq_set a !! j = Some S ->
    j ∈ l -> used a !! i = Some false -> i ∈ l
}.

Lemma sum_marked u l :
  NoDup l -> (forall i, i ∈ l -> u !! i = Some false) ->
  (sum_list_with (fun b : bool => if b then 1 else 0) (marked u l) =
   sum_list_with (fun b : bool => if b then 1 else 0) u + length l)%nat.
Proof.
  revert u. induction l as [|i l IH]; intros u Hnd Hl; [simpl; lia|].
  apply NoDup_cons in Hnd as [Hi Hnd]. unfold marked. cbn [foldl]. fold (marked (<[i := true]> u) l).
  rewrite IH; [|done|].
  - pose proof (sum_list_with_insert (fun b : bool => if b then 1 else 0)%nat u i false true
      (Hl i (list_elem_of_here _ _))). simpl in *. lia.
  - intros j Hj. rewrite list_lookup_insert_ne by (intros ->; done). apply Hl. by right.
Qed.

Lemma ready_consume a l : ready a -> takes a l -> ready (consume a l).
Proof.
  intros [H1 H2 H3 H4 H5 H6 H7] [T1 T2 T3]. split; simpl; try done.
  - by rewrite length_marked.
  - rewrite sum_marked by done. lia.
  - intros i j S Hij Hi Hj. rewrite !marked_lookup.
    assert (is_Some (used a !! i)) as [b Hb].
    { apply lookup_lt_is_Some_2. apply lookup_lt_Some in Hi. lia. }
    rewrite Hb. destruct (decide (i ∈ l)) as [Hil|Hil]; [by rewrite (bool_decide_eq_true_2 (i ∈ l))|].
    rewrite (bool_decide_eq_false_2 (i ∈ l)) by done. destruct b; [done|].
    case_bool_decide as Hjl; intros HU; exfalso.
    + by apply Hil, (T3 i j S).
    + rewrite (H7 i j S) in Hb by done. done.
Qed.

(** ** Simple splits *)

Definition in_order a : Prop := forall i j, (i < j)%nat -> used a !! j = Some true -> used a !! i = Some true.

Lemma first_unused_spec u :
  (forall i, (i < first_unused u)%nat -> u !! i = Some true) /\
  ((first_unused u < length u)%nat -> u !! first_unused u = Some false) /\ (first_unused u <= length u)%nat.
Proof.
  induction u as [|[] u (IH1 & IH2 & IH3)]; simpl.
  - split; [lia|]. split; lia.
  - split; [|split; [intros; apply IH2; lia | lia]]. intros [|i] Hi; [done|]. apply IH1. lia.
  - split; [lia|]. split; [done | lia].
Qed.

Definition simple_size (room : nat) (n_ubatch : Z) (have : nat) : nat :=
  Nat.max 1 (Nat.min room (Z.to_nat n_ubatch - have)).

Lemma simple_loop_spec fuel a n_ubatch cur idxs :
  (cur < length (used a))%nat -> (length (used a) - cur <= fuel)%nat ->
  let m := simple_size (length (used a) - cur) n_ubatch (length idxs) in
  simple_loop fuel a n_ubatch cur idxs = Ok (consume a (List.seq cur m), idxs ++ List.seq cur m).
Proof.
  revert a cur idxs. induction fuel as [|fuel IH]; intros a cur idxs Hcur Hf; [lia|].
  cbn [simple_loop]. rewrite mark_consume by done. bind_simpl.
  change (used (consume a [cur])) with (marked (used a) [cur]). rewrite length_marked, length_app.
  cbn [length]. unfold simple_size. destruct (Nat.leb_spec (length (used a)) (S cur)) as [H|H].
  { by replace (Nat.max _ _) with 1%nat by lia. }
  destruct (Z.leb_spec n_ubatch (Z.of_nat (length idxs + 1))) as [H'|H'].
  { by replace (Nat.max _ _) with 1%nat by lia. }
  rewrite IH; change (used (consume a [cur])) with (marked (used a) [cur]);
    rewrite ?length_marked; [|lia..].
  rewrite consume_app, <- app_assoc, length_app. unfold simple_size. cbn [length].
  replace (Nat.max 1 (Nat.min (length (used a) - cur) (Z.to_nat n_ubatch - length idxs)))
    with (S (Nat.max 1 (Nat.min (length (used a) - S cur) (Z.to_nat n_ubatch - (length idxs + 1))))) by lia.
  done.
Qed.

Definition done_with a : Prop := forall i, (i < get_n_tokens a)%nat -> used a !! i = Some true.

Lemma select_simple_spec a n_ubatch :
  ready a -> in_order a ->
  let c := first_unused (used a) in
  let m := simple_size (get_n_tokens a - c) n_ubatch 0 in
  (done_with a /\ select_simple a n_ubatch = Ok (a, None)) \/
  ((c < get_n_tokens a)%nat /\ takes a (List.seq c m) /\ in_order (consume a (List.seq c m)) /\
   select_simple a n_ubatch = Ok (consume a (List.seq c m), Some (List.seq c m, m, false))).
Proof.
  intros HR Ho c m. destruct (first_unused_spec (used a)) as (F1 & F2 & F3).
  fold c in F1, F2, F3. unfold select_simple. fold c. rewrite (rd_used _ HR) in *.
  destruct (Nat.leb_spec (get_n_tokens a) c) as [H|H].
  { left. split; [|done]. intros i Hi. apply F1. lia. }
  right. assert (m <= get_n_tokens a - c)%nat as Hm by (unfold m, simple_size; lia).
  assert (1 <= m)%nat as Hm1 by (unfold m, simple_size; lia).
  assert (forall i, (c <= i)%nat -> (i < get_n_tokens a)%nat -> used a !! i = Some false) as Hfree.
  { intros i Hi Hlt. destruct (lookup_lt_is_Some_2 (used a) i) as [[] Hb]; [by rewrite (rd_used _ HR)| |done].
    destruct (decide (i = c)) as [->|Hne]; [rewrite F2 in Hb by done; congruence|].
    specialize (F2 H). pose proof (Ho c i ltac:(lia) Hb). congruence. }
  split; [done|]. split; [|split].
  - split; [apply NoDup_seq| |].
    + intros i Hi%elem_of_seq. apply Hfree; lia.
    + intros i j S Hij Hi Hj Hjl%elem_of_seq Hu. apply elem_of_seq.
      destruct (decide (i < c)%nat) as [Hlt|]; [|lia]. rewrite F1 in Hu by done. congruence.
  - intros i j Hij. change (used (consume a _)) with (marked (used a) (List.seq c m)).
    rewrite !marked_lookup. case_bool_decide as Hj; case_bool_decide as Hi; rewrite elem_of_seq in *; intros HU.
    + destruct (lookup_lt_is_Some_2 (used a) i) as [b ->]; [|done]. rewrite (rd_used _ HR). lia.
    + apply F1. lia.
    + by rewrite (Ho i j).
    + by apply (Ho i j).
  - rewrite simple_loop_spec by (rewrite (rd_used _ HR); lia). bind_simpl. fold m.
    rewrite (rd_used _ HR). fold m. rewrite app_nil_l, length_seq. done.
Qed.

(** ** Sequence-set splits *)

(** Token [i] cannot join a ubatch whose current sequence set is [cur]. *)
Definition excluded a (cur : gset Z) (i : nat) : Prop :=
  used a !! i = Some false -> forall S, seq_set a !! i = Some S -> ~ S ⊆ cur.

Lemma next_subset_spec a cur k m :
  (k + m <= length (used a))%nat -> length (seq_set a) = length (used a) ->
  exists r, next_subset a cur (List.seq k m) = Ok r /\
  match r with
  | None => forall i, (k <= i < k + m)%nat -> excluded a cur i
  | Some j => (k <= j < k + m)%nat /\ used a !! j = Some false /\
      (exists S, seq_set a !! j = Some S /\ S ⊆ cur) /\ forall i, (k <= i < j)%nat -> excluded a cur i
  end.
Proof.
  intros Hk Hlen. revert k Hk. induction m as [|m IH]; intros k Hk.
  { exists None. split; [done|]. intros; lia. }
  destruct (lookup_lt_is_Some_2 (used a) k) as [b Hb]; [lia|].
  destruct (lookup_lt_is_Some_2 (seq_set a) k) as [S HS]; [lia|].
  destruct (IH (Datatypes.S k)) as (r & Er & Hr); [lia|]. cbn [List.seq next_subset].
  assert (excluded a cur k -> exists r', next_subset a cur (List.seq (Datatypes.S k) m) = Ok r' /\
    match r' with
    | None => forall i, (k <= i < k + Datatypes.S m)%nat -> excluded a cur i
    | Some j => (k <= j < k + Datatypes.S m)%nat /\ used a !! j = Some false /\
        (exists S, seq_set a !! j = Some S /\ S ⊆ cur) /\ forall i, (k <= i < j)%nat -> excluded a cur i
    end) as Hskip.
  { intros Hex. exists r. split; [done|]. destruct r as [j|].
    - destruct Hr as (H1 & H2 & H3 & H4). split; [lia|]. split_and!; [done..|]. intros i Hi.
      destruct (decide (i = k)) as [->|]; [done|]. apply H4. lia.
    - intros i Hi. destruct (decide (i = k)) as [->|]; [done|]. apply Hr. lia. }
  rewrite (at_lookup _ _ _ Hb). bind_simpl. destruct b; [apply Hskip; intros Hu; congruence|].
  rewrite (at_lookup _ _ _ HS). bind_simpl. case_bool_decide as Hsub.
  - exists (Some k). split; [done|]. split; [lia|]. split; [done|]. split; [|intros; lia].
    exists S. split; [done|]. set_solver.
  - apply Hskip. intros _ S' HS'. simplify_eq. set_solver.
Qed.

(** The tokens of the ubatch so far [idxs] and the next one [cur]. *)
Record chain a idxs (cur : nat) (cur_set : gset Z) : Prop := {
  ch_takes : takes a idxs;
  ch_cur : used a !! cur = Some false /\ seq_set a !! cur = Some cur_set;
  ch_lt : forall i, i ∈ idxs -> (i < cur)%nat;
  ch_sorted : StronglySorted lt idxs;
  ch_subset : forall i S, i ∈ idxs -> seq_set a !! i = Some S -> cur_set ⊆ S;
  ch_excluded : forall i, (i < cur)%nat -> i ∉ idxs -> excluded a cur_set i
}.

Lemma StronglySorted_snoc {A} (R : A -> A -> Prop) (l : list A) x :
  StronglySorted R l -> Forall (fun y => R y x) l -> StronglySorted R (l ++ [x]).
Proof.
  induction 1 as [|y l Hl IH Hy]; intros Hx; simpl; [repeat constructor|].
  apply Forall_cons in Hx as [Hyx Hx]. constructor; [by apply IH|]. apply Forall_app. by split; [|constructor].
Qed.

Lemma chain_takes a idxs cur cur_set :
  chain a idxs cur cur_set -> takes a (idxs ++ [cur]) /\ StronglySorted lt (idxs ++ [cur]).
Proof.
  intros [[T1 T2 T3] [C1 C2] Hlt Hsort Hsub Hex]. split.
  - split.
    + apply NoDup_app. split; [done|]. split; [|apply NoDup_singleton].
      intros i Hi ->%list_elem_of_singleton. specialize (Hlt _ Hi). lia.
    + intros i [Hi| ->%list_elem_of_singleton]%elem_of_app; [by apply T2 | done].
    + intros i j S Hij Hi Hj Hjl Hu. apply elem_of_app.
      apply elem_of_app in Hjl as [Hjl| ->%list_elem_of_singleton]; [left; by apply (T3 i j S)|].
      destruct (decide (i ∈ idxs)) as [|Hni]; [by left|]. exfalso. simplify_eq.
      apply (Hex i Hij Hni Hu _ Hi). done.
  - apply StronglySorted_snoc; [done|]. by apply Forall_forall.
Qed.

Lemma chain_next a idxs cur cur_set j S :
  chain a idxs cur cur_set -> (cur < j)%nat -> used a !! j = Some false -> seq_set a !! j = Some S ->
  S ⊆ cur_set -> (forall i, (cur < i < j)%nat -> excluded a cur_set i) ->
  chain a (idxs ++ [cur]) j S.
Proof.
  intros HC Hj Hu HS Hsub Hbet. destruct (chain_takes _ _ _ _ HC) as [Ht Hsort].
  destruct HC as [_ [C1 C2] Hlt _ Hsup Hex]. split; [done|done| |done| |].
  - intros i [Hi| ->%list_elem_of_singleton]%elem_of_app; [specialize (Hlt _ Hi); lia | done].
  - intros i S' [Hi| ->%list_elem_of_singleton]%elem_of_app HS'; [|by simplify_eq].
    specialize (Hsup _ _ Hi HS'). set_solver.
  - intros i Hi Hni Hui Si HSi HSS. apply not_elem_of_app in Hni as [Hn1 Hn2%not_elem_of_cons].
    destruct (decide (i < cur)%nat).
    + apply (Hex i ltac:(done) Hn1 Hui Si HSi). set_solver.
    + apply (Hbet i ltac:(lia) Hui Si HSi). set_solver.
Qed.

(** What a sequence-set split takes: increasing indices, each token's sequence set
    included in those of the tokens before it, and no more than [n_ubatch]. *)
Definition descending a idxs : Prop :=
  forall x y i j S T, (x < y)%nat -> idxs !! x = Some i -> idxs !! y = Some j ->
    seq_set a !! i = Some S -> seq_set a !! j = Some T -> (i < j)%nat /\ T ⊆ S.

Lemma descending_snoc a idxs cur cur_set :
  chain a idxs cur cur_set -> descending a idxs -> descending a (idxs ++ [cur]).
Proof.
  intros HC HD x y i j S T Hxy Hi Hj HS HT. apply lookup_app_Some in Hj as [Hj|[Hy Hj]].
  - apply (HD x y i j S T); try done. rewrite lookup_app_l in Hi; [done|]. apply lookup_lt_Some in Hj. lia.
  - apply list_lookup_singleton_Some in Hj as [Hy0 <-].
    rewrite lookup_app_l in Hi by lia. apply list_elem_of_lookup_2 in Hi.
    destruct (ch_cur _ _ _ _ HC) as [_ HT']. simplify_eq. split; [by apply (ch_lt _ _ _ _ HC)|].
    by apply (ch_subset _ _ _ _ HC i).
Qed.

(** The token [cur] itself is used when [consume] looks ahead. *)
Lemma excluded_consume a l cur i : i ∉ l -> excluded (consume a l) cur i <-> excluded a cur i.
Proof.
  intros Hi. unfold excluded. change (used (consume a l)) with (marked (used a) l).
  rewrite marked_lookup, bool_decide_eq_false_2 by done. done.
Qed.

Lemma consumed_unused a l i : used (consume a l) !! i = Some false <-> used a !! i = Some false /\ i ∉ l.
Proof.
  change (used (consume a l)) with (marked (used a) l). rewrite marked_lookup.
  case_bool_decide; destruct (used a !! i) as [[]|]; simpl; naive_solver.
Qed.

Lemma seq_loop_spec fuel a n_ubatch cur_set cur idxs :
  ready a -> chain a idxs cur cur_set -> descending a idxs -> (cur < get_n_tokens a)%nat ->
  (get_n_tokens a - cur <= fuel)%nat ->
  (Z.of_nat (length idxs) < Z.max 1 n_ubatch) ->
  exists idxs', seq_loop fuel (consume a idxs) n_ubatch cur_set cur idxs = Ok (consume a idxs', idxs') /\
    takes a idxs' /\ descending a idxs' /\ idxs' <> [] /\ Z.of_nat (length idxs') <= Z.max 1 n_ubatch.
Proof.
  intros HR. revert cur_set cur idxs. induction fuel as [|fuel IH]; intros S cur idxs HC HD Hcur Hf Hlen; [lia|].
  destruct (chain_takes _ _ _ _ HC) as [Ht _]. pose proof (descending_snoc _ _ _ _ HC HD) as HD'.
  assert (idxs ++ [cur] <> []) as Hne by (by destruct idxs).
  cbn [seq_loop]. rewrite mark_consume.
  2:{ change (used (consume a idxs)) with (marked (used a) idxs). by rewrite length_marked, (rd_used _ HR). }
  bind_simpl. rewrite consume_app.
  destruct (Z.leb_spec n_ubatch (Z.of_nat (length (idxs ++ [cur])))) as [H|H].
  { exists (idxs ++ [cur]). split; [done|]. split_and!; [done..|]. rewrite length_app. simpl. lia. }
  destruct (next_subset_spec (consume a (idxs ++ [cur])) S (Datatypes.S cur)
    (get_n_tokens a - Datatypes.S cur)) as (r & Er & Hr);
    [change (used (consume a (idxs ++ [cur]))) with (marked (used a) (idxs ++ [cur]));
     rewrite length_marked, (rd_used _ HR)..|].
  { lia. }
  { apply (rd_sets _ HR). }
  change (get_n_tokens (consume a (idxs ++ [cur]))) with (get_n_tokens a). rewrite Er. bind_simpl.
  destruct r as [j|].
  2:{ exists (idxs ++ [cur]). split; [done|]. split_and!; [done..|]. lia. }
  destruct Hr as (Hj & Hu & (T & HT & Hsub) & Hex). apply consumed_unused in Hu as [Hu Hnj].
  rewrite (at_lookup _ _ _ HT). bind_simpl.
  apply IH; [|done|lia..].
  apply (chain_next a idxs cur S); [done|lia|done|done|done|].
  intros i Hi. apply (excluded_consume a (idxs ++ [cur])); [|apply Hex; lia].
  intros [Hin| ->%list_elem_of_singleton]%elem_of_app; [|lia]. pose proof (ch_lt _ _ _ _ HC i Hin). lia.
Qed.

Lemma select_seq_spec a n_ubatch :
  ready a ->
  (done_with a /\ select_seq a n_ubatch = Ok (a, None)) \/
  exists idxs, takes a idxs /\ descending a idxs /\ idxs <> [] /\
    Z.of_nat (length idxs) <= Z.max 1 n_ubatch /\
    select_seq a n_ubatch = Ok (consume a idxs, Some (idxs, 1%nat, true)).
Proof.
  intros HR. set (c := first_unused (used a)). destruct (first_unused_spec (used a)) as (F1 & F2 & F3).
  fold c in F1, F2, F3. unfold select_seq. fold c. rewrite (rd_used _ HR) in *.
  destruct (Nat.leb_spec (get_n_tokens a) c) as [H|H].
  { left. split; [|done]. intros i Hi. apply F1. lia. }
  right. destruct (lookup_lt_is_Some_2 (seq_set a) c) as [S HS]; [by rewrite (rd_sets _ HR)|].
  rewrite (at_lookup _ _ _ HS). bind_simpl.
  destruct (seq_loop_spec (get_n_tokens a) a n_ubatch S c []) as (idxs & E & Ht & HD & Hne & Hl); try done; try lia.
  - split; [|by auto|by intros i Hi%elem_of_nil|constructor|by intros i T Hi%elem_of_nil|].
    + split; [constructor|by intros i Hi%elem_of_nil|by intros ? ? ? ? ? ? Hi%elem_of_nil].
    + intros i Hi _ Hu. rewrite F1 in Hu by done. congruence.
  - simpl. lia.
  - exists idxs. split_and!; try done. rewrite consume_nil in E. rewrite E. done.
Qed.

(** ** Equal splits: choosing the sequence sets *)

(** Sets that can be split together: each is the set of some unused token, and no
    two of them share a sequence. *)
Record good_sets a (sets : list (gset Z)) : Prop := {
  gs_unused : forall S, S ∈ sets -> S ∈ seq_set a /\ unused_with a S <> [];
  gs_disjoint : forall x y S T, x <> y -> sets !! x = Some S -> sets !! y = Some T -> S ∩ T = ∅
}.

(** The sets start with consecutive sequence ids. *)
Definition consecutive a (sets : list (gset Z)) (last : Z) : Prop :=
  exists s0, (sets <> [] -> last = s0 + Z.of_nat (length sets) - 1) /\
  forall k S, sets !! k = Some S -> exists i, seq_set a !! i = Some S /\
    seq_first (batch a) i = Ok (s0 + Z.of_nat k).

Lemma elem_of_unused_with a S i :
  ready a -> i ∈ unused_with a S <-> seq_set a !! i = Some S /\ used a !! i = Some false.
Proof.
  intros HR. unfold unused_with, tokens_with. rewrite !list_elem_of_filter, elem_of_seq.
  split; [naive_solver|]. intros [H1 H2]. split; [done|]. split; [done|].
  apply lookup_lt_Some in H1. rewrite (rd_sets _ HR) in H1. lia.
Qed.

Lemma good_sets_snoc a sets S :
  good_sets a sets -> S ∈ seq_set a -> unused_with a S <> [] ->
  (forall T, T ∈ sets -> T ∩ S = ∅) -> good_sets a (sets ++ [S]).
Proof.
  intros [H1 H2] HS Hu Hd. split.
  - intros T [HT| ->%list_elem_of_singleton]%elem_of_app; auto.
  - intros x y T U Hxy HT HU.
    apply lookup_app_Some in HT as [HT|[Hx HT]]; apply lookup_app_Some in HU as [HU|[Hy HU]].
    + by apply (H2 x y).
    + apply list_lookup_singleton_Some in HU as [_ <-]. apply Hd. by eapply list_elem_of_lookup_2.
    + apply list_lookup_singleton_Some in HT as [_ <-]. rewrite (intersection_comm_L S U). apply Hd.
      by eapply list_elem_of_lookup_2.
    + apply list_lookup_singleton_Some in HU as [? _]. apply list_lookup_singleton_Some in HT as [? _]. lia.
Qed.

Lemma consecutive_snoc a sets last S i s :
  consecutive a sets last -> (sets = [] \/ s = last + 1) -> seq_set a !! i = Some S ->
  seq_first (batch a) i = Ok s -> consecutive a (sets ++ [S]) s.
Proof.
  intros (s0 & Hl & Hc) Hs HS Hi. destruct sets as [|T sets].
  - exists s. split; [simpl; lia|]. intros [|[|k]] U HU; simplify_eq/=. exists i. by rewrite Z.add_0_r.
  - destruct Hs as [Hs|Hs]; [done|]. specialize (Hl ltac:(done)). exists s0. split.
    { rewrite length_app. simpl in *. lia. }
    intros k U [HU|[Hk HU]]%lookup_app_Some; [by apply Hc|].
    apply list_lookup_singleton_Some in HU as [Hk0 <-]. exists i. split; [done|]. rewrite Hi. f_equal. lia.
Qed.

Lemma equal_sets_spec a n_ubatch (sequential : bool) todo cur last :
  ready a -> 0 <= n_ubatch -> (forall i, i ∈ todo -> (i < get_n_tokens a)%nat) ->
  good_sets a cur -> (sequential = true -> consecutive a cur last) ->
  Z.of_nat (length cur) <= n_ubatch ->
  exists sets, equal_sets a n_ubatch sequential todo cur last = Ok sets /\ good_sets a sets /\
    (sequential = true -> exists last, consecutive a sets last) /\ Z.of_nat (length sets) <= n_ubatch + 1 /\
    (cur <> [] \/ (exists i, i ∈ todo /\ used a !! i = Some false) -> sets <> []).
Proof.
  intros HR Hn. revert cur last. induction todo as [|i todo IH]; intros cur last Htodo HG HC Hlen.
  { exists cur. split; [done|]. split_and!; [done| |lia|].
    - intros Hs. exists last. auto.
    - intros [?|(i & Hi%elem_of_nil & _)]; done. }
  assert (i < get_n_tokens a)%nat as Hi by (apply Htodo; left).
  assert (forall j, j ∈ todo -> (j < get_n_tokens a)%nat) as Htodo' by (intros j Hj; apply Htodo; by right).
  destruct (lookup_lt_is_Some_2 (used a) i) as [b Hb]; [by rewrite (rd_used _ HR)|].
  destruct (lookup_lt_is_Some_2 (seq_set a) i) as [S HS]; [by rewrite (rd_sets _ HR)|].
  destruct (rd_first _ HR i Hi) as [s0 Hs0]. cbn [equal_sets].
  rewrite (at_lookup _ _ _ Hb). bind_simpl.
  assert (cur <> [] \/ b = true -> exists sets, equal_sets a n_ubatch sequential todo cur last = Ok sets /\
    good_sets a sets /\ (sequential = true -> exists last, consecutive a sets last) /\
    Z.of_nat (length sets) <= n_ubatch + 1 /\
    (cur <> [] \/ (exists j, j ∈ i :: todo /\ used a !! j = Some false) -> sets <> [])) as Hskip.
  { intros Hc. destruct (IH cur last) as (sets & E & H1 & H2 & H3 & H4); [done..|].
    exists sets. split_and!; [done..|]. intros [Hne|(j & Hj & Hu)]; apply H4; [by left|].
    destruct Hc as [|Hc]; [by left|]. right. exists j. split; [|done].
    apply elem_of_cons in Hj as [->|]; [congruence|done]. }
  destruct b; [apply Hskip; by right|].
  rewrite (at_lookup _ _ _ HS). bind_simpl.
  destruct (forallb _ cur) eqn:Hall; cbn [negb].
  2:{ apply Hskip. left. intros ->. done. }
  rewrite Hs0. bind_simpl.
  destruct (sequential && negb (match cur with [] => true | _ :: _ => s0 =? last + 1 end)) eqn:Hseq.
  { apply Hskip. left. intros ->. by destruct sequential. }
  assert (good_sets a (cur ++ [S])) as HG'.
  { apply good_sets_snoc; [done|by eapply list_elem_of_lookup_2| |].
    - intros Hnil. eapply (not_elem_of_nil i). rewrite <- Hnil. by apply elem_of_unused_with.
    - intros T HT. rewrite forallb_forall in Hall. apply list_elem_of_In in HT.
      specialize (Hall _ HT). by apply bool_decide_eq_true in Hall. }
  assert (sequential = true -> consecutive a (cur ++ [S]) s0) as HC'.
  { intros ->. apply (consecutive_snoc a cur last S i); [by apply HC| |done..].
    destruct cur; [by left|right]. simpl in Hseq. lia. }
  assert (cur ++ [S] <> []) as Hne by (by destruct cur).
  destruct (Z.ltb_spec n_ubatch (Z.of_nat (length (cur ++ [S])))) as [H|H].
  - exists (cur ++ [S]). split_and!; [done|done| | |done].
    + intros Hs. exists s0. by apply HC'.
    + rewrite length_app in *. simpl in *. lia.
  - destruct (IH (cur ++ [S]) s0) as (sets & E & H1 & H2 & H3 & H4); [done..|].
    exists sets. split_and!; [done..|]. intros _. apply H4. by left.
Qed.

(** ** Equal splits: taking tokens in rounds *)

(** The tokens of a group that were not reached yet, and the group after [k] more. *)
Definition rest (g : group) : list nat := drop (g_cur g) (g_all g).
Definition adv (k : nat) (g : group) : group :=
  mk_group (g_all g) (g_cur g + k) (g_idxs g ++ take k (rest g)).

(** The tokens the groups give up in [k] rounds. *)
Definition firsts (k : nat) (gs : list group) : list nat := concat ((fun g => take k (rest g)) <$> gs).

Lemma n_remaining_rest g : n_remaining g = length (rest g).
Proof. unfold n_remaining, rest. by rewrite length_drop. Qed.

Lemma rest_adv k g : rest (adv k g) = drop k (rest g).
Proof. unfold rest, adv. simpl. by rewrite drop_drop. Qed.

Lemma adv_adv j k g : (j + k <= length (rest g))%nat -> adv k (adv j g) = adv (j + k) g.
Proof.
  intros H. unfold adv at 1. rewrite rest_adv. unfold adv. simpl. f_equal; [lia|].
  by rewrite <- app_assoc, take_take_drop.
Qed.

Lemma skip_used_spec u l :
  StronglySorted lt l -> (forall i, i ∈ l -> (i < length u)%nat) ->
  (forall i j, i ∈ l -> j ∈ l -> (i < j)%nat -> u !! j = Some true -> u !! i = Some true) ->
  filter (fun i => u !! i = Some false) l <> [] ->
  exists c, skip_used u l = Ok c /\ drop c l = filter (fun i => u !! i = Some false) l.
Proof.
  induction 1 as [|x l Hl IH Hx]; intros Hlt Ho Hne; [done|]. cbn [skip_used].
  destruct (lookup_lt_is_Some_2 u x) as [b Hb]; [apply Hlt; left|].
  rewrite (at_lookup _ _ _ Hb). bind_simpl. rewrite filter_cons in *. rewrite Hb in *. destruct b.
  - rewrite decide_False in * by done. destruct IH as (c & E & Hc); [| |done|].
    + intros i Hi. apply Hlt. by right.
    + intros i j Hi Hj. apply Ho; by right.
    + exists (S c). by rewrite E.
  - rewrite decide_True by done. exists 0%nat. split; [done|]. simpl. f_equal.
    rewrite filter_all; [done|]. intros j Hj.
    destruct (lookup_lt_is_Some_2 u j) as [[] Hj']; [apply Hlt; by right| |done].
    rewrite (Ho x j) in Hb; [done|left|by right| |done]. rewrite Forall_forall in Hx. by apply Hx.
Qed.

Lemma tokens_with_sorted a S : StronglySorted lt (tokens_with a S).
Proof.
  apply StronglySorted_filter, StronglySorted_lt_seq.
Qed.

Lemma elem_of_tokens_with a S i : ready a -> i ∈ tokens_with a S <-> seq_set a !! i = Some S.
Proof.
  intros HR. unfold tokens_with. rewrite list_elem_of_filter, elem_of_seq. split; [naive_solver|].
  intros H. split; [done|]. apply lookup_lt_Some in H. rewrite (rd_sets _ HR) in H. lia.
Qed.

(** The group of a set starts at its first unused token. *)
Lemma group_of_spec a S :
  ready a -> S ∈ seq_set a -> unused_with a S <> [] ->
  exists g, group_of a S = Ok g /\ g_all g = tokens_with a S /\ rest g = unused_with a S /\ g_idxs g = [].
Proof.
  intros HR HS Hu. unfold group_of. rewrite (rd_map _ HR S HS). simpl.
  destruct (skip_used_spec (used a) (tokens_with a S)) as (c & E & Hc).
  - apply tokens_with_sorted.
  - intros i Hi%elem_of_tokens_with; [|done]. apply lookup_lt_Some in Hi.
    by rewrite (rd_used _ HR), <- (rd_sets _ HR).
  - intros i j Hi%elem_of_tokens_with Hj%elem_of_tokens_with Hij Huj; [|done..]. by apply (rd_order _ HR i j S).
  - done.
  - rewrite E. bind_simpl. eexists. by split_and!.
Qed.

Definition in_range a (g : group) : Prop := forall i, i ∈ rest g -> (i < length (used a))%nat.

Lemma in_range_adv a l k g : in_range a g -> in_range (consume a l) (adv k g).
Proof.
  intros H i. rewrite rest_adv. change (used (consume a l)) with (marked (used a) l). rewrite length_marked.
  intros Hi. apply H. by eapply elem_of_drop.
Qed.

Lemma take_one_spec a g :
  in_range a g -> rest g <> [] -> take_one a g = Ok (consume a (take 1 (rest g)), adv 1 g).
Proof.
  intros Hr Hne. destruct (rest g) as [|i r] eqn:E; [done|]. unfold take_one.
  assert (g_all g !! g_cur g = Some i) as Hi.
  { unfold rest in E. rewrite <- (Nat.add_0_r (g_cur g)), <- lookup_drop, E. done. }
  rewrite (at_lookup _ _ _ Hi). bind_simpl. rewrite mark_consume by (apply Hr; rewrite E; left).
  bind_simpl. unfold adv. rewrite E. simpl. by rewrite Nat.add_1_r.
Qed.

Lemma can_expand_spec gs : can_expand gs = true <-> Forall (fun g => rest g <> []) gs.
Proof.
  unfold can_expand. induction gs as [|g gs IH]; simpl; [split; constructor|].
  rewrite andb_true_iff, IH, Forall_cons, Nat.ltb_lt. rewrite <- length_zero_iff_nil, <- n_remaining_rest.
  unfold n_remaining. naive_solver lia.
Qed.

Lemma take_round_spec a gs :
  Forall (in_range a) gs -> Forall (fun g => rest g <> []) gs ->
  take_round a gs = Ok (consume a (firsts 1 gs), adv 1 <$> gs).
Proof.
  revert a. induction gs as [|g gs IH]; intros a Hr Hne; [by rewrite consume_nil|].
  apply Forall_cons in Hr as [Hg Hr]. apply Forall_cons in Hne as [Hng Hne]. cbn [take_round].
  rewrite take_one_spec by done. bind_simpl. rewrite IH; [|eapply Forall_impl; [exact Hr|]|done].
  - bind_simpl. rewrite consume_app. done.
  - intros g' Hg' i Hi. change (used (consume a _)) with (marked (used a) (take 1 (rest g))).
    rewrite length_marked. by apply Hg'.
Qed.

Lemma firsts_add j k gs : firsts j gs ++ firsts k (adv j <$> gs) ≡ₚ firsts (j + k) gs.
Proof.
  unfold firsts. induction gs as [|g gs IH]; [done|]. simpl. rewrite rest_adv, <- (take_take_drop _ j k), <- IH.
  rewrite <- !app_assoc. f_equiv. apply Permutation_app_swap_app.
Qed.

(** The rounds stop after [k]: every group had [k] tokens left, and one more round
    would not fit or some group has no more. *)
Lemma equal_loop_spec fuel a n_ubatch gs :
  Forall (in_range a) gs -> gs <> [] ->
  Forall (fun g => (length (rest g) < fuel)%nat) gs ->
  exists k, equal_loop fuel a n_ubatch gs = Ok (consume a (firsts k gs), adv k <$> gs) /\
    Forall (fun g => (k <= length (rest g))%nat) gs /\
    ((k <= 1)%nat \/ Z.of_nat ((round_size gs + k) * length gs) <= n_ubatch) /\
    (n_ubatch < Z.of_nat ((round_size gs + k + 1) * length gs) \/
     exists g, g ∈ gs /\ length (rest g) = k) /\
    (Forall (fun g => rest g <> []) gs -> (1 <= k)%nat).
Proof.
  revert a gs. induction fuel as [|fuel IH]; intros a gs Hr Hne Hf.
  { destruct gs as [|g gs]; [done|]. apply Forall_cons in Hf as [Hf _]. lia. }
  cbn [equal_loop]. destruct (can_expand gs) eqn:Hexp.
  - apply can_expand_spec in Hexp as Hrest. rewrite take_round_spec by done. bind_simpl.
    assert (round_size (adv 1 <$> gs) = S (round_size gs)) as Hrs.
    { destruct gs as [|g gs]; [done|]. simpl. apply Forall_cons in Hrest as [Hrest _].
      destruct (rest g); [done|]. simpl. rewrite length_app. simpl. lia. }
    assert (Forall (fun g => (1 <= length (rest g))%nat) gs) as H1.
    { eapply Forall_impl; [exact Hrest|]. intros g Hg. simpl in *. destruct (rest g); [done|simpl; lia]. }
    rewrite Hrs, length_fmap. destruct (Z.ltb_spec n_ubatch (Z.of_nat ((S (round_size gs) + 1) * length gs))) as [H|H].
    + exists 1%nat. split_and!; [done..|by left| |lia]. left.
      by replace (round_size gs + 1 + 1)%nat with (S (round_size gs) + 1)%nat by lia.
    + destruct (IH (consume a (firsts 1 gs)) (adv 1 <$> gs)) as (k & E & K1 & K2 & K3 & _).
      * apply Forall_fmap. eapply Forall_impl; [exact Hr|]. intros g Hg. by apply in_range_adv.
      * by destruct gs.
      * apply Forall_fmap. apply Forall_forall. intros g Hg. rewrite Forall_forall in Hf, H1.
        specialize (Hf g Hg). specialize (H1 g Hg). simpl. rewrite rest_adv, length_drop. lia.
      * assert (Forall (fun g => (S k <= length (rest g))%nat) gs) as HSk.
        { rewrite Forall_fmap in K1. apply Forall_forall. intros g Hg. rewrite Forall_forall in K1, H1.
          specialize (K1 g Hg). specialize (H1 g Hg). simpl in K1. rewrite rest_adv, length_drop in K1. lia. }
        exists (S k). rewrite E, consume_app, (consume_perm _ _ _ (firsts_add 1 k gs)).
        rewrite <- list_fmap_compose. split_and!; [|done| | |lia].
        -- f_equal. f_equal. apply list_fmap_ext. intros ? g Hg. simpl. apply (adv_adv 1 k).
           rewrite Forall_forall in HSk. apply list_elem_of_lookup_2 in Hg. specialize (HSk g Hg). lia.
        -- rewrite Hrs, length_fmap in K2. right. destruct K2 as [K2|K2]; [|nia].
           assert (k = 0 \/ k = 1)%nat as [-> | ->] by lia; nia.
        -- rewrite Hrs, length_fmap in K3. destruct K3 as [K3|(g' & (g & -> & Hg)%list_elem_of_fmap & Hk)].
           ++ left. by replace (round_size gs + S k + 1)%nat with (S (round_size gs) + k + 1)%nat by lia.
           ++ right. exists g. split; [done|]. rewrite rest_adv, length_drop in Hk.
              rewrite Forall_forall in H1. specialize (H1 g Hg). lia.
  - exists 0%nat.
    assert (firsts 0 gs = []) as -> by (unfold firsts; clear; induction gs as [|g gs IH]; simpl; done).
    assert (adv 0 <$> gs = gs) as ->.
    { clear. induction gs as [|[l c x] gs IH]; [done|]. rewrite fmap_cons, IH. unfold adv. simpl.
      by rewrite app_nil_r, Nat.add_0_r. }
    rewrite consume_nil. assert (~ Forall (fun g => rest g <> []) gs) as Hn.
    { intros HF. apply can_expand_spec in HF. congruence. }
    split_and!; [done| |left; lia| |done].
    + apply Forall_forall. intros; lia.
    + right. apply (not_Forall_Exists _) in Hn. apply Exists_exists in Hn as (g & Hg & Hng).
      exists g. split; [done|]. unfold compose in Hng. simpl in Hng. destruct (rest g); [done|]. by destruct Hng.
Qed.

(** ** Equal splits: keeping the tail of a sequence together *)

Lemma unmark_marked u i l :
  i ∉ l -> u !! i = Some false -> <[i := false]> (marked u (i :: l)) = marked u l.
Proof.
  intros Hi Hu. apply list_eq. intros j. destruct (decide (j = i)) as [->|Hne].
  - rewrite list_lookup_insert_eq by (rewrite length_marked; by eapply lookup_lt_Some).
    rewrite marked_lookup, bool_decide_eq_false_2 by done. by rewrite Hu.
  - rewrite list_lookup_insert_ne, !marked_lookup by done.
    by rewrite (bool_decide_ext (j ∈ i :: l) (j ∈ l)) by set_solver.
Qed.

Lemma unmark_consume a i l :
  NoDup (i :: l) -> used a !! i = Some false -> unmark (consume a (i :: l)) i = Ok (consume a l).
Proof.
  intros [Hi Hnd]%NoDup_cons Hu. unfold unmark.
  assert (used (consume a (i :: l)) !! i = Some true) as Hl.
  { change (used (consume a (i :: l))) with (marked (used a) (i :: l)). rewrite marked_lookup.
    rewrite bool_decide_eq_true_2 by left. by rewrite Hu. }
  rewrite (at_lookup _ _ _ Hl). bind_simpl.
  change (used (consume a (i :: l))) with (marked (used a) (i :: l)). rewrite unmark_marked by done.
  unfold consume, with_used. simpl. do 2 f_equal. lia.
Qed.

Lemma unmarks_consume a m l :
  NoDup (m ++ l) -> (forall i, i ∈ m -> used a !! i = Some false) ->
  foldM unmark (consume a (m ++ l)) m = Ok (consume a l).
Proof.
  induction m as [|i m IH]; intros Hnd Hu; [done|]. cbn [foldM app].
  rewrite unmark_consume; [|done|by apply Hu; left]. bind_simpl. apply IH.
  - by apply NoDup_cons in Hnd as [_ ?].
  - intros j Hj. apply Hu. by right.
Qed.

Lemma extend_group_spec fuel a g :
  in_range a g -> (length (rest g) <= fuel)%nat ->
  extend_group fuel a g = Ok (consume a (rest g), adv (length (rest g)) g).
Proof.
  revert a g. induction fuel as [|fuel IH]; intros a g Hr Hf; cbn [extend_group]; rewrite n_remaining_rest.
  - destruct (rest g) as [|i r] eqn:E; [|simpl in Hf; lia]. simpl. rewrite consume_nil. unfold adv. rewrite E.
    destruct g. simpl. by rewrite app_nil_r, Nat.add_0_r.
  - destruct (Nat.ltb_spec 0 (length (rest g))) as [H|H].
    + rewrite take_one_spec by (done || (intros E; rewrite E in H; simpl in H; lia)). bind_simpl.
      rewrite IH, rest_adv, consume_app, length_drop.
      * rewrite (take_drop 1). do 2 f_equal. rewrite adv_adv by lia. f_equal. lia.
      * by apply in_range_adv.
      * rewrite rest_adv, length_drop. lia.
    + destruct (rest g) as [|i r] eqn:E; [|simpl in H; lia]. simpl. rewrite consume_nil. unfold adv. rewrite E.
      destruct g. simpl. by rewrite app_nil_r, Nat.add_0_r.
Qed.

Lemma take_removelast {A} (l : list A) : removelast l = take (length l - 1) l.
Proof.
  induction l as [|x [|y l] IH]; [done..|]. change (removelast (x :: y :: l)) with (x :: removelast (y :: l)).
  rewrite IH. simpl. by rewrite Nat.sub_0_r.
Qed.

Lemma truncate_group_spec fuel a l n_keep_tail g :
  let j := (n_keep_tail - n_remaining g)%nat in
  (j <= fuel)%nat -> (j <= length (g_idxs g))%nat -> (j <= g_cur g <= length (g_all g))%nat ->
  NoDup (g_idxs g ++ l) -> (forall i, i ∈ g_idxs g -> used a !! i = Some false) ->
  let g' := mk_group (g_all g) (g_cur g - j) (take (length (g_idxs g) - j) (g_idxs g)) in
  truncate_group fuel (consume a (g_idxs g ++ l)) n_keep_tail g = Ok (consume a (g_idxs g' ++ l), g').
Proof.
  revert g. induction fuel as [|fuel IH]; intros g j Hf Hj Hc Hnd Hu; cbn [truncate_group].
  - destruct (Nat.ltb_spec (n_remaining g) n_keep_tail); [lia|]. replace j with 0%nat by lia. simpl.
    rewrite !Nat.sub_0_r, firstn_all. by destruct g.
  - destruct (Nat.ltb_spec (n_remaining g) n_keep_tail) as [H|H].
    2:{ replace j with 0%nat by lia. simpl. rewrite !Nat.sub_0_r, firstn_all. by destruct g. }
    destruct g as [al c xs]. simpl in *. destruct xs as [|x xs _] using rev_ind; [simpl in *; lia|].
    rewrite last_snoc. bind_simpl. cbn [deref]. rewrite length_app in *. simpl in *.
    rewrite (consume_perm _ ((xs ++ [x]) ++ l) (x :: xs ++ l)) by (rewrite <- app_assoc; symmetry; apply Permutation_middle).
    assert (NoDup (x :: xs ++ l)) as Hnd'.
    { eapply NoDup_Permutation_proper; [|exact Hnd]. rewrite <- app_assoc. apply Permutation_middle. }
    rewrite unmark_consume; [|done|apply Hu; set_solver]. bind_simpl. rewrite take_removelast, length_app.
    cbn [length]. rewrite take_app_length' by lia.
    specialize (IH (mk_group al (c - 1) xs)). unfold n_remaining in *. simpl in *.
    rewrite IH; [|lia..| |].
    + replace (n_keep_tail - (length al - (c - 1)))%nat with (j - 1)%nat by lia.
      rewrite take_app_le by lia. replace (length xs - (j - 1))%nat with (length xs + 1 - j)%nat by lia.
      by replace (c - 1 - (j - 1))%nat with (c - j)%nat by lia.
    + by apply NoDup_cons in Hnd' as [_ ?].
    + intros i Hi. apply Hu. set_solver.
Qed.

Lemma count_keep_spec kt gs :
  (count_keep kt gs <= length gs)%nat /\
  Forall (fun g => n_remaining g = 0 \/ kt <= n_remaining g)%nat (take (count_keep kt gs) gs).
Proof.
  induction gs as [|g gs [IH1 IH2]]; simpl; [split; [lia|constructor]|].
  destruct (Nat.eqb_spec (n_remaining g) 0); destruct (Nat.ltb_spec (n_remaining g) kt); simpl;
    split; try lia; constructor; auto; lia.
Qed.

Lemma concat_idxs_adv k gs :
  Forall (fun g => g_idxs g = []) gs -> concat (g_idxs <$> (adv k <$> gs)) = firsts k gs.
Proof.
  unfold firsts. induction 1 as [|g gs Hg Hgs IH]; [done|]. rewrite !fmap_cons. cbn [concat]. rewrite IH.
  by unfold adv at 1; cbn [g_idxs]; rewrite Hg.
Qed.

Lemma firsts_app k gs gs' : firsts k (gs ++ gs') = firsts k gs ++ firsts k gs'.
Proof. unfold firsts. by rewrite fmap_app, concat_app. Qed.

Lemma elem_of_firsts k gs i : i ∈ firsts k gs <-> exists g, g ∈ gs /\ i ∈ take k (rest g).
Proof.
  unfold firsts. rewrite list_elem_of_In, in_concat. setoid_rewrite <- list_elem_of_In.
  setoid_rewrite list_elem_of_fmap. naive_solver.
Qed.

Lemma unused_firsts a k gs :
  (forall g i, g ∈ gs -> i ∈ rest g -> used a !! i = Some false) ->
  forall i, i ∈ firsts k gs -> used a !! i = Some false.
Proof. intros H i (g & Hg & Hi%elem_of_take')%elem_of_firsts. by eapply H. Qed.

Lemma NoDup_concat_sub {A B} (h h' : A -> list B) (xs : list A) :
  (forall x, h' x `sublist_of` h x) -> NoDup (concat (h <$> xs)) -> NoDup (concat (h' <$> xs)).
Proof.
  intros Hs Hnd. eapply sublist_NoDup; [exact Hnd|]. clear Hnd.
  induction xs as [|x xs IH]; [done|]. rewrite !fmap_cons. by apply sublist_app.
Qed.

(** The groups before the rounds: nothing taken yet, distinct unused tokens. *)
Record fresh_groups a (gs : list group) : Prop := {
  fg_idxs : Forall (fun g => g_idxs g = []) gs;
  fg_nodup : NoDup (concat (rest <$> gs));
  fg_unused : forall g i, g ∈ gs -> i ∈ rest g -> used a !! i = Some false
}.

Lemma NoDup_firsts a gs k : fresh_groups a gs -> NoDup (firsts k gs).
Proof. intros H. eapply NoDup_concat_sub; [|by apply (fg_nodup _ _ H)]. intros g. apply sublist_take. Qed.

Lemma release_spec a gs k m :
  fresh_groups a gs ->
  release (consume a (firsts k gs)) (drop m (adv k <$> gs)) = Ok (consume a (firsts k (take m gs))).
Proof.
  intros H. unfold release. rewrite <- fmap_drop.
  rewrite concat_idxs_adv by (apply Forall_drop, (fg_idxs _ _ H)).
  rewrite (consume_perm _ (firsts k gs) (firsts k (drop m gs) ++ firsts k (take m gs))).
  - apply unmarks_consume.
    + eapply NoDup_Permutation_proper; [|apply (NoDup_firsts _ _ k H)].
      rewrite Permutation_app_comm, <- firsts_app, take_drop. done.
    + apply unused_firsts. intros g i Hg. apply (fg_unused _ _ H). by eapply elem_of_drop.
  - by rewrite Permutation_app_comm, <- firsts_app, take_drop.
Qed.

(** Whether [n] tokens are left, or none. *)
Definition tail_ok (n_keep_tail : nat) (k : nat) (g : group) : Prop :=
  (length (rest g) - k = 0 \/ n_keep_tail <= length (rest g) - k)%nat.

(** The groups that are kept and the number of tokens each gives. *)
Record kept (a : llama_batch_allocr float) n_ubatch n_keep_tail (k : nat) (gs : list group) (m k' : nat) : Prop := {
  kp_groups : (1 <= m <= length gs)%nat;
  kp_tokens : (1 <= k')%nat /\ Forall (fun g => k' <= length (rest g))%nat (take m gs);
  kp_all : n_keep_tail = 0%nat -> m = length gs /\ k' = k;
  kp_tail : n_keep_tail <> 0%nat -> Forall (tail_ok n_keep_tail k') (take m gs);
  kp_size : k' = k \/ m = 1%nat /\ Z.of_nat k' <= n_ubatch
}.

Lemma n_remaining_adv k g : n_remaining (adv k g) = (length (rest g) - k)%nat.
Proof. by rewrite n_remaining_rest, rest_adv, length_drop. Qed.

Lemma adv_length k g : (k <= length (rest g))%nat -> g_idxs g = [] -> length (g_idxs (adv k g)) = k.
Proof. intros H Hg. unfold adv. simpl. rewrite Hg. simpl. rewrite length_take. lia. Qed.

(** The first group alone: it is extended to its end, or shortened so that
    [n_keep_tail] tokens are left. *)
Lemma resolve_first a n_ubatch kt k g gs :
  fresh_groups a (g :: gs) -> (1 <= k <= length (rest g))%nat -> Z.of_nat kt < n_ubatch ->
  Z.of_nat k <= n_ubatch -> (length (rest g) - k <> 0)%nat -> (length (rest g) - k < kt)%nat ->
  let fuel := S (length (g_all g)) in let g1 := adv k g in
  exists g' k', (r ← (if Z.of_nat (length (g_idxs g1) + n_remaining g1) <=? n_ubatch
                      then extend_group fuel (consume a (firsts k (g :: gs))) g1
                      else truncate_group fuel (consume a (firsts k (g :: gs))) kt g1);
     let '(a, g) := r in a ← release a (adv k <$> gs); Ok (a, [g])) =
    Ok (consume a (take k' (rest g)), [g']) /\ g_idxs g' = take k' (rest g) /\
    (1 <= k' <= length (rest g))%nat /\ tail_ok kt k' g /\ Z.of_nat k' <= n_ubatch.
Proof.
  intros HF Hk Hkt Hsize Hrem0 Hrem fuel g1.
  pose proof (fg_nodup _ _ HF) as Hnd. rewrite fmap_cons in Hnd. cbn [concat] in Hnd.
  destruct (Forall_cons_1 _ _ _ (fg_idxs _ _ HF)) as [Hg Hgs].
  assert (fresh_groups a gs) as HF'.
  { split; [done| |].
    - by apply NoDup_app in Hnd as (_ & _ & ?).
    - intros g' i Hg'. apply (fg_unused _ _ HF). by right. }
  assert (firsts k (g :: gs) = take k (rest g) ++ firsts k gs) as -> by done.
  assert (g_idxs g1 = take k (rest g)) as Hg1 by (unfold g1, adv; simpl; by rewrite Hg).
  assert (n_remaining g1 = length (rest g) - k)%nat as Hn1 by apply n_remaining_adv.
  assert (NoDup (rest g ++ firsts k gs)) as Hnd1.
  { eapply sublist_NoDup; [exact Hnd|]. apply sublist_app; [done|].
    clear. unfold firsts. induction gs as [|g gs IH]; [done|]. rewrite !fmap_cons. cbn [concat].
    apply sublist_app; [apply sublist_take | done]. }
  assert (forall j, NoDup (take j (rest g) ++ firsts k gs)) as Hndj.
  { intros j. eapply sublist_NoDup; [exact Hnd1|]. apply sublist_app; [apply sublist_take | done]. }
  assert (forall i, i ∈ rest g -> used a !! i = Some false) as Hug.
  { intros i. apply (fg_unused _ _ HF). left. }
  assert (forall j, release (consume a (take j (rest g) ++ firsts k gs)) (adv k <$> gs) =
    Ok (consume a (take j (rest g)))) as Hrel.
  { intros j. unfold release. rewrite concat_idxs_adv by done.
    rewrite (consume_perm _ _ _ (Permutation_app_comm _ _)). apply unmarks_consume.
    - eapply NoDup_Permutation_proper; [apply Permutation_app_comm | apply Hndj].
    - apply unused_firsts, (fg_unused _ _ HF'). }
  rewrite Hn1, Hg1, length_take, Nat.min_l by lia. case_match eqn:Hfit.
  - exists (adv (length (rest g)) g), (length (rest g)).
    assert (rest g1 = drop k (rest g)) as Hr1 by apply rest_adv.
    rewrite extend_group_spec; rewrite ?Hr1.
    + bind_simpl. rewrite consume_app, length_drop.
      rewrite (consume_perm _ _ (take (length (rest g)) (rest g) ++ firsts k gs)).
      * rewrite Hrel. bind_simpl. unfold g1. rewrite adv_adv by lia.
        replace (k + (length (rest g) - k))%nat with (length (rest g)) by lia.
        split; [done|]. unfold adv, tail_ok. simpl. rewrite Hg.
        apply Z.leb_le in Hfit. clear - Hfit Hk. split_and!; [done|lia..].
      * rewrite firstn_all. transitivity ((take k (rest g) ++ drop k (rest g)) ++ firsts k gs); [|by rewrite take_drop].
        rewrite <- !app_assoc. f_equiv. apply Permutation_app_comm.
    + intros i Hi. rewrite Hr1 in Hi. change (used (consume a _)) with (marked (used a) (take k (rest g) ++ firsts k gs)).
      rewrite length_marked. apply elem_of_drop, Hug in Hi. by eapply lookup_lt_Some.
    + unfold fuel, rest. rewrite !length_drop. lia.
  - set (j := (kt - (length (rest g) - k))%nat). exists (mk_group (g_all g1) (g_cur g1 - j) (take (k - j) (rest g))), (k - j)%nat.
    apply Z.leb_gt in Hfit. rewrite <- Hg1. rewrite truncate_group_spec.
    + bind_simpl. rewrite Hn1. fold j. rewrite Hg1, length_take, take_take. simpl.
      replace (Nat.min k (length (rest g)) - j)%nat with (k - j)%nat by lia.
      replace (Nat.min (k - j) k) with (k - j)%nat by lia. rewrite Hrel. bind_simpl.
      split; [done|]. split_and!; [done|lia..| |lia]. right. lia.
    + unfold fuel. rewrite Hn1. unfold rest in *. rewrite length_drop in *. lia.
    + rewrite Hn1, Hg1, length_take. lia.
    + rewrite Hn1. unfold g1, adv. simpl. unfold rest in *. rewrite length_drop in *. lia.
    + rewrite Hg1. apply Hndj.
    + intros i. rewrite Hg1. intros Hi%elem_of_take'. by apply Hug.
Qed.

Lemma keep_tail_spec a n_ubatch kt k gs :
  fresh_groups a gs -> gs <> [] -> (1 <= k)%nat -> Forall (fun g => k <= length (rest g))%nat gs ->
  (kt = 0%nat \/ Z.of_nat kt < n_ubatch /\ Z.of_nat k <= n_ubatch) ->
  exists gs' m k', keep_tail (consume a (firsts k gs)) n_ubatch kt (adv k <$> gs) =
      Ok (consume a (firsts k' (take m gs)), gs') /\
    g_idxs <$> gs' = (fun g => take k' (rest g)) <$> take m gs /\ kept a n_ubatch kt k gs m k'.
Proof.
  intros HF Hne Hk Hall Hkt. pose proof (fg_idxs _ _ HF) as Hidx.
  assert (forall gs1, Forall (fun g => g_idxs g = []) gs1 ->
    g_idxs <$> (adv k <$> gs1) = (fun g => take k (rest g)) <$> gs1) as Hadv.
  { clear. induction 1 as [|g gs1 Hg Hgs IH]; [done|]. rewrite !fmap_cons, IH. unfold adv. simpl. by rewrite Hg. }
  assert (1 <= length gs)%nat as Hlen by (destruct gs; [done|simpl; lia]).
  unfold keep_tail. destruct (Nat.eqb_spec kt 0) as [->|Hkt0].
  { exists (adv k <$> gs), (length gs), k. rewrite firstn_all. split; [done|]. split; [by apply Hadv|].
    split; [lia|split; [done|by rewrite firstn_all]|done|done|by left]. }
  destruct Hkt as [|[Hkt Hsize]]; [done|]. replace (Z.of_nat kt <? n_ubatch) with true by lia. bind_simpl.
  destruct (count_keep_spec kt (adv k <$> gs)) as [Hc1 Hc2]. rewrite length_fmap in Hc1.
  destruct (count_keep kt (adv k <$> gs)) as [|c] eqn:Ec.
  - destruct gs as [|g gs]; [done|]. rewrite fmap_cons. cbn iota.
    apply Forall_cons in Hall as [Hg Hall].
    rewrite fmap_cons in Ec. cbn [count_keep] in Ec. rewrite n_remaining_adv in Ec.
    destruct (Nat.eqb_spec (length (rest g) - k) 0) as [|Hr0]; [done|].
    destruct (Nat.ltb_spec (length (rest g) - k) kt) as [Hr|]; [|done].
    destruct (resolve_first a n_ubatch kt k g gs) as (g' & k' & E & Hg' & Hk' & Ht & Hs); try done.
    exists [g'], 1%nat, k'. cbn zeta in E. change (g_all (adv k g)) with (g_all g).
    rewrite E. unfold firsts. simpl. rewrite app_nil_r, Hg'. split; [done|]. split; [done|].
    split; change (take 1 (g :: gs)) with [g]; [simpl; lia| |done| |right; lia].
    + split; [lia|]. constructor; [lia|constructor].
    + intros _. constructor; [done|constructor].
  - assert (exists gs', (a0 ← release (consume a (firsts k gs)) (drop (S c) (adv k <$> gs));
      Ok (a0, take (S c) (adv k <$> gs))) = Ok (consume a (firsts k (take (S c) gs)), gs') /\
      gs' = adv k <$> take (S c) gs) as (gs' & E & ->).
    { eexists. rewrite release_spec by done. bind_simpl. rewrite fmap_take. done. }
    exists (adv k <$> take (S c) gs), (S c), k. split.
    { rewrite <- E. destruct gs; [done|]. done. }
    split; [by apply Hadv, Forall_take|].
    split; [lia|split; [done|by apply Forall_take]|done| |by left].
    intros _. rewrite <- fmap_take, Forall_fmap in Hc2. eapply Forall_impl; [exact Hc2|].
    intros g. simpl. rewrite n_remaining_adv. done.
Qed.

(** ** Equal splits: the selection *)

(** The tokens of a selection: the first [k] unused tokens of each set. *)
Definition selected a (sets : list (gset Z)) (k : nat) : list nat :=
  concat ((fun S => take k (unused_with a S)) <$> sets).

Record equal_selection a n_ubatch (sequential : bool) n_keep_tail sets (k : nat) : Prop := {
  es_sets : good_sets a sets /\ sets <> [];
  es_tokens : (1 <= k)%nat /\ forall S, S ∈ sets -> (k <= length (unused_with a S))%nat;
  es_size : Z.of_nat (length sets) <= n_ubatch + 1 /\
    (k = 1%nat \/ Z.of_nat (k * length sets) <= n_ubatch);
  es_sequential : sequential = true -> exists last, consecutive a sets last;
  es_tail : n_keep_tail <> 0%nat -> forall S, S ∈ sets ->
    (length (unused_with a S) - k = 0 \/ n_keep_tail <= length (unused_with a S) - k)%nat;
  es_maximal : n_keep_tail = 0%nat ->
    n_ubatch < Z.of_nat ((k + 1) * length sets) \/ exists S, S ∈ sets /\ length (unused_with a S) = k
}.

Lemma unused_with_sorted a S : StronglySorted lt (unused_with a S).
Proof. apply StronglySorted_filter, tokens_with_sorted. Qed.

Lemma StronglySorted_lt_NoDup l : StronglySorted lt l -> NoDup l.
Proof.
  induction 1 as [|i l Hl IH Hi]; constructor; [|done]. intros Hin.
  rewrite Forall_forall in Hi. specialize (Hi i Hin). lia.
Qed.

Lemma take_sorted l k i j :
  StronglySorted lt l -> i ∈ l -> j ∈ take k l -> (i < j)%nat -> i ∈ take k l.
Proof.
  intros Hl. revert k. induction Hl as [|x l Hl IH Hx]; intros k Hi Hj Hij; [by apply elem_of_nil in Hi|].
  destruct k as [|k]; [by apply elem_of_nil in Hj|]. simpl in *. rewrite Forall_forall in Hx.
  apply elem_of_cons in Hi as [->|Hi]; [left|right].
  apply elem_of_cons in Hj as [->|Hj]; [specialize (Hx i Hi); lia|]. by apply IH.
Qed.

Lemma good_sets_cons a S sets : good_sets a (S :: sets) -> good_sets a sets /\ forall T, T ∈ sets -> S ∩ T = ∅.
Proof.
  intros [H1 H2]. split; [split|].
  - intros T HT. apply H1. by right.
  - intros x y T U Hxy HT HU. apply (H2 (Datatypes.S x) (Datatypes.S y)); [lia|done..].
  - intros T [x Hx]%list_elem_of_lookup. by apply (H2 0%nat (Datatypes.S x)).
Qed.

Lemma NoDup_unused_sets a sets : ready a -> good_sets a sets -> NoDup (concat (unused_with a <$> sets)).
Proof.
  intros HR. induction sets as [|S sets IH]; intros HG; [constructor|]. rewrite fmap_cons. cbn [concat].
  apply good_sets_cons in HG as Hc. destruct Hc as [HG' Hd]. apply NoDup_app. split_and!; [|intros i Hi|by apply IH].
  - apply StronglySorted_lt_NoDup, unused_with_sorted.
  - rewrite list_elem_of_In, in_concat. intros (l & Hl & Hil).
    apply list_elem_of_In, list_elem_of_fmap in Hl as (T & -> & HT). apply list_elem_of_In in Hil.
    apply elem_of_unused_with in Hi as [Hi _]; [|done]. apply elem_of_unused_with in Hil as [HiT _]; [|done].
    simplify_eq. specialize (Hd _ HT). apply (rd_nonempty _ HR S); [by eapply list_elem_of_lookup_2|]. set_solver.
Qed.

Lemma groups_of_spec a sets :
  ready a -> good_sets a sets -> exists gs, mapM (group_of a) sets = Ok gs /\
    fresh_groups a gs /\ rest <$> gs = unused_with a <$> sets /\ length gs = length sets.
Proof.
  intros HR HG. assert (exists gs, mapM (group_of a) sets = Ok gs /\
    Forall (fun g => g_idxs g = []) gs /\ rest <$> gs = unused_with a <$> sets) as (gs & E & Hi & Hr).
  { induction sets as [|S sets IH]; [by exists []|]. apply good_sets_cons in HG as Hc. destruct Hc as [HG' _].
    destruct (IH HG') as (gs & E & Hi & Hr).
    destruct (gs_unused _ _ HG S (list_elem_of_here _ _)) as [HS Hne].
    destruct (group_of_spec a S HR HS Hne) as (g & Eg & _ & Hg & Hgi).
    exists (g :: gs). cbn [mapM]. rewrite Eg. bind_simpl. rewrite E. bind_simpl. rewrite !fmap_cons, Hr, Hg.
    split_and!; [done| |done]. by constructor. }
  exists gs. split; [done|]. split; [split|split]; [done| | |done|].
  - rewrite Hr. by apply NoDup_unused_sets.
  - intros g i Hg Hir. assert (rest g ∈ unused_with a <$> sets) as Hin by (rewrite <- Hr; apply list_elem_of_fmap; eauto).
    apply list_elem_of_fmap in Hin as (S & ES & _). rewrite ES in Hir. by apply elem_of_unused_with in Hir as [_ ?].
  - rewrite <- (length_fmap rest gs), Hr. apply length_fmap.
Qed.

Lemma takes_selected a sets k : ready a -> good_sets a sets -> takes a (selected a sets k).
Proof.
  intros HR HG. assert (forall i, i ∈ selected a sets k <-> exists S, S ∈ sets /\ i ∈ take k (unused_with a S)) as Hel.
  { intros i. unfold selected. rewrite list_elem_of_In, in_concat. setoid_rewrite <- list_elem_of_In.
    setoid_rewrite list_elem_of_fmap. naive_solver. }
  split.
  - eapply NoDup_concat_sub; [|by apply NoDup_unused_sets]. intros S. apply sublist_take.
  - intros i (S & _ & Hi%elem_of_take')%Hel. by apply elem_of_unused_with in Hi as [_ ?].
  - intros i j S Hij Hi Hj (T & HT & HjT)%Hel Hu. apply Hel. exists T. split; [done|].
    pose proof HjT as HjT'. apply elem_of_take', elem_of_unused_with in HjT' as [HjS _]; [|done]. simplify_eq.
    eapply take_sorted; [apply unused_with_sorted| |exact HjT|done]. by apply elem_of_unused_with.
Qed.

Lemma good_sets_take a m sets : good_sets a sets -> good_sets a (take m sets).
Proof.
  intros [H1 H2]. split.
  - intros S HS. apply H1. by eapply elem_of_take'.
  - intros x y S T Hxy HS HT. apply lookup_take_Some in HS as [HS _]. apply lookup_take_Some in HT as [HT _].
    by apply (H2 x y).
Qed.

Lemma consecutive_take a m sets last : consecutive a sets last -> exists last, consecutive a (take m sets) last.
Proof.
  intros (s0 & _ & H). exists (s0 + Z.of_nat (length (take m sets)) - 1), s0. split; [done|].
  intros x S HS. apply lookup_take_Some in HS as [HS _]. by apply H.
Qed.

(** A property of the groups' tokens is one of the sets'. *)
Lemma groups_sets_Forall a sets gs (P : list nat -> Prop) :
  rest <$> gs = unused_with a <$> sets ->
  Forall (fun g => P (rest g)) gs <-> forall S, S ∈ sets -> P (unused_with a S).
Proof.
  intros H. rewrite <- (Forall_fmap rest P), H, Forall_fmap, Forall_forall. done.
Qed.

Lemma select_equal_spec a n_ubatch sequential kt :
  ready a -> 0 <= n_ubatch -> (kt = 0%nat \/ Z.of_nat kt < n_ubatch) ->
  sequential && has_cpl a = false ->
  (done_with a /\ select_equal a n_ubatch sequential kt = Ok (a, None)) \/
  exists sets k, equal_selection a n_ubatch sequential kt sets k /\
    select_equal a n_ubatch sequential kt =
      Ok (consume a (selected a sets k), Some (selected a sets k, length sets, true)).
Proof.
  intros HR Hn Hkt Hcpl. unfold select_equal. rewrite Hcpl.
  destruct (equal_sets_spec a n_ubatch sequential (tokens_of (batch a)) [] (-1)) as (sets & E & HG & Hseq & Hlen & Hne);
    [done|done| | | |simpl; lia|].
  { intros i Hi%elem_of_seq. unfold get_n_tokens. lia. }
  { split; [by intros S HS%elem_of_nil|by intros]. }
  { intros _. exists 0. split; [done|]. intros x S HS. by rewrite lookup_nil in HS. }
  rewrite E. bind_simpl. destruct (decide (sets = [])) as [->|Hsets].
  { left. split; [|done]. intros i Hi. destruct (lookup_lt_is_Some_2 (used a) i) as [[] Hu]; [by rewrite (rd_used _ HR)|done|].
    exfalso. apply Hne; [|done]. right. exists i. split; [|done]. apply elem_of_seq. unfold get_n_tokens in Hi. lia. }
  right. destruct (groups_of_spec a sets HR HG) as (gs & Eg & HF & Hrest & Hgs).
  assert (gs <> []) as Hgs0 by (intros ->; by destruct sets).
  assert (Forall (fun g => rest g <> []) gs) as Hfull.
  { apply (groups_sets_Forall a sets gs (fun l => l <> [])); [done|]. intros S HS. by apply (gs_unused _ _ HG). }
  assert (round_size gs = 0%nat) as Hrs.
  { pose proof (fg_idxs _ _ HF) as Hi. destruct gs as [|g gs]; [done|]. apply Forall_cons in Hi as [Hi _]. simpl. by rewrite Hi. }
  destruct (equal_loop_spec (S (get_n_tokens a)) a n_ubatch gs) as (k & El & Hk & Hsize & Hmax & Hk1); [|done| |].
  { apply Forall_forall. intros g Hg i Hi. apply (fg_unused _ _ HF g i Hg) in Hi. by eapply lookup_lt_Some. }
  { apply (groups_sets_Forall a sets gs (fun l => (length l < S (get_n_tokens a))%nat)); [done|].
    intros S _. unfold unused_with, tokens_with. apply Nat.lt_succ_r.
    etransitivity; [apply length_filter|]. etransitivity; [apply length_filter|]. by rewrite length_seq. }
  rewrite Hrs in Hsize, Hmax. specialize (Hk1 Hfull).
  destruct (keep_tail_spec a n_ubatch kt k gs HF Hgs0 Hk1 Hk) as (gs' & m & k' & Ek & Hidx & HK).
  { destruct Hkt as [|Hkt]; [by left|right]. split; [done|]. destruct gs; [done|]. simpl in Hsize. nia. }
  destruct HK as [[Hm1 Hm2] [Hk'1 Hk'2] Hall Htail Hks].
  assert (rest <$> take m gs = unused_with a <$> take m sets) as Hrestm by (by rewrite !fmap_take, Hrest).
  exists (take m sets), k'. split; [split|].
  - split; [by apply good_sets_take|]. destruct sets; [done|]. by destruct m; [lia|].
  - split; [done|]. by apply (groups_sets_Forall a (take m sets) (take m gs) (fun l => (k' <= length l)%nat)).
  - rewrite length_take. split; [lia|]. destruct Hks as [->|[-> Hks]]; [|right; nia].
    destruct Hsize as [Hsize|Hsize]; [left; lia|right; nia].
  - intros Hs. destruct (Hseq Hs) as [last Hc]. by apply (consecutive_take a m sets last).
  - intros H0. by apply (groups_sets_Forall a (take m sets) (take m gs)
      (fun l => (length l - k' = 0 \/ kt <= length l - k')%nat) Hrestm), Htail.
  - intros H0. destruct (Hall H0) as [-> ->]. rewrite Hgs, firstn_all. rewrite Hgs in Hmax.
    destruct Hmax as [Hmax|(g & Hg & Hgk)]; [by left|right].
    assert (rest g ∈ unused_with a <$> sets) as Hin by (rewrite <- Hrest; apply list_elem_of_fmap; eauto).
    apply list_elem_of_fmap in Hin as (S & HS & Hin). exists S. by rewrite <- HS.
  - destruct sets as [|S0 sets0] eqn:Es; [done|]. rewrite <- Es in *. rewrite Eg. bind_simpl.
    rewrite El. bind_simpl. rewrite Ek. bind_simpl.
    assert (firsts k' (take m gs) = selected a (take m sets) k') as Hsel.
    { unfold firsts, selected. f_equal.
      transitivity (take k' <$> (rest <$> take m gs)); [by rewrite <- list_fmap_compose|].
      rewrite Hrestm. by rewrite <- list_fmap_compose. }
    rewrite Hidx. fold (firsts k' (take m gs)). rewrite Hsel. do 4 f_equal.
    rewrite <- (length_fmap g_idxs gs'), Hidx, length_fmap, !length_take, Hgs. done.
Qed.

(** ** The contents of a ubatch *)

(** The arrays of the batch cover its tokens. *)
Record readable a : Prop := {
  rb_token : forall ts, token (batch a) = Some ts -> (get_n_tokens a <= length ts)%nat;
  rb_embd : forall es, embd (batch a) = Some es -> (get_n_tokens a * n_embd a <= length es)%nat;
  rb_pos : exists ps, pos (batch a) = Some ps /\
    forall i j, (i < get_n_tokens a)%nat -> (j < n_pos_per_embd a)%nat ->
      (src_off (batch a) j + i < length ps)%nat;
  rb_n_seq_id : exists ns, n_seq_id (batch a) = Some ns /\ (get_n_tokens a <= length ns)%nat;
  rb_logits : exists ls, logits (batch a) = Some ls /\ (get_n_tokens a <= length ls)%nat;
  rb_seq_ids : forall i, (i < get_n_tokens a)%nat -> exists ids, seq_ids (batch a) i = Ok ids /\
    Forall (fun s => 0 <= s < n_seq_max a) ids;
  rb_seq_max : n_seq_max a <= LLAMA_MAX_SEQ
}.

(** What the ubatch built from the tokens [idxs] of [a] holds. *)
Record gathers a idxs (u : llama_ubatch float) : Prop := {
  ga_count : u_n_tokens u = length idxs /\ (u_n_seq_tokens u * u_n_seqs u = length idxs)%nat;
  ga_token : u_token u = match token (batch a) with
    None => None | Some ts => Some (omap (fun i => ts !! i) idxs) end;
  ga_embd : u_embd u = match embd (batch a) with
    None => None | Some es => Some (concat ((fun i => take (n_embd a) (drop (i * n_embd a) es)) <$> idxs)) end;
  ga_pos : exists ps, pos (batch a) = Some ps /\ forall j x i, (j < n_pos_per_embd a)%nat ->
    idxs !! x = Some i -> u_pos u !! (j * length idxs + x)%nat = ps !! (src_off (batch a) j + i)%nat;
  ga_output : exists ls, logits (batch a) = Some ls /\ u_output u = omap (fun i => ls !! i) idxs;
  ga_seq : forall x i ids, idxs !! x = Some i -> seq_ids (batch a) i = Ok ids ->
    exists n off, u_n_seq_id u !! x = Some n /\ u_seq_id_off u !! x = Some off /\
      take (Z.to_nat n) (drop off (u_seq_id_data u)) = ids;
  ga_unq : forall s, s ∈ u_seq_id_unq u <->
    0 <= s /\ exists i ids, i ∈ idxs /\ seq_ids (batch a) i = Ok ids /\ s ∈ ids;
  ga_unq_sorted : StronglySorted Z.lt (u_seq_id_unq u) /\ u_n_seqs_unq u = length (u_seq_id_unq u);
  ga_seq_idx : forall s, 0 <= s < LLAMA_MAX_SEQ -> exists x, u_seq_idx u !! Z.to_nat s = Some x /\
    (x = -1 /\ s ∉ u_seq_id_unq u \/ 0 <= x /\ u_seq_id_unq u !! Z.to_nat x = Some s)
}.

Lemma seqZ_sorted m n : StronglySorted Z.lt (seqZ m n).
Proof.
  unfold seqZ. generalize (Z.to_nat n) as k. clear n. intros k. generalize 0%nat as b.
  induction k as [|k IH]; intros b; simpl; constructor; [apply IH|].
  apply Forall_fmap, Forall_forall. intros x Hx%elem_of_seq. simpl. lia.
Qed.

(** The index of each sequence present, in increasing order. *)
Lemma index_fold_spec X (L : list Z) :
  NoDup L -> Forall (fun s => 0 <= s < LLAMA_MAX_SEQ) L ->
  let r := foldl (index_seq X) (seq_idx_init, []) L in
  r.2 = filter (fun s => s ∈ X) L /\ length r.1 = Z.to_nat LLAMA_MAX_SEQ /\
  forall s, 0 <= s < LLAMA_MAX_SEQ -> exists x, r.1 !! Z.to_nat s = Some x /\
    (x = -1 /\ s ∉ r.2 \/ 0 <= x /\ r.2 !! Z.to_nat x = Some s).
Proof.
  induction L as [|t L IH] using rev_ind; intros Hnd Hr.
  - split; [done|]. split; [apply length_replicate|]. intros s Hs. exists (-1). split.
    + apply lookup_replicate. lia.
    + left. split; [done|]. apply not_elem_of_nil.
  - apply NoDup_app in Hnd as (Hnd & Ht & _). apply Forall_app in Hr as [Hr Ht'].
    apply Forall_cons in Ht' as [Ht' _]. destruct (IH Hnd Hr) as (E2 & El & Hs). clear IH.
    rewrite foldl_app. cbn [foldl]. destruct (foldl (index_seq X) (seq_idx_init, []) L) as [idx ids] eqn:Ef.
    cbn [fst snd] in *. unfold index_seq. rewrite filter_app, filter_cons, filter_nil.
    destruct (decide (t ∈ X)) as [HX|HX]; [rewrite bool_decide_eq_true_2 by done|rewrite bool_decide_eq_false_2 by done].
    2:{ cbn [fst snd]. rewrite app_nil_r. done. }
    cbn [fst snd]. split; [by rewrite E2|]. split; [by rewrite length_insert|].
    assert (t ∉ ids) as Htids.
    { rewrite E2. intros [_ Hin]%list_elem_of_filter. apply (Ht t Hin). left. }
    intros s Hsr. destruct (decide (s = t)) as [->|Hne].
    + exists (Z.of_nat (length ids)). rewrite list_lookup_insert_eq by lia. split; [done|right].
      split; [lia|]. by rewrite Nat2Z.id, lookup_app_r, Nat.sub_diag by lia.
    + destruct (Hs s Hsr) as (x & Ex & Hx). exists x. rewrite list_lookup_insert_ne by lia. split; [done|].
      destruct Hx as [[-> Hx]|[Hx0 Hx]]; [left|right].
      * split; [done|]. set_solver.
      * split; [done|]. by apply lookup_app_l_Some.
Qed.

Lemma index_seqs_spec X N idx unq :
  N <= LLAMA_MAX_SEQ -> index_seqs X N = (idx, unq) ->
  unq = filter (fun s => s ∈ X) (seqZ 0 N) /\
  forall s, 0 <= s < LLAMA_MAX_SEQ -> exists x, idx !! Z.to_nat s = Some x /\
    (x = -1 /\ s ∉ unq \/ 0 <= x /\ unq !! Z.to_nat x = Some s).
Proof.
  intros HN E. destruct (index_fold_spec X (n_seqs N)) as (H1 & _ & H2).
  - apply NoDup_seqZ.
  - apply Forall_forall. intros s Hs%elem_of_seqZ. lia.
  - unfold index_seqs in E. rewrite E in H1, H2. done.
Qed.

Lemma offsets_spec (ns : list Z) (rows : list (list Z)) off x n r :
  Forall2 (fun n r => Z.to_nat n = length r) ns rows -> rows !! x = Some r -> ns !! x = Some n ->
  exists o, offsets off ns !! x = Some (off + o)%nat /\ take (Z.to_nat n) (drop o (concat rows)) = r.
Proof.
  intros HF. revert off x. induction HF as [|m r0 ns rows Hm HF IH]; intros off x Hr Hn; [done|].
  destruct x as [|x]; simplify_eq/=.
  - exists 0%nat. rewrite Nat.add_0_r. split; [done|]. rewrite drop_0, Hm. apply take_app_length.
  - destruct (IH (off + Z.to_nat m)%nat x Hr Hn) as (o & Eo & Ho). exists (Z.to_nat m + o)%nat.
    rewrite Eo. split; [f_equal; lia|]. rewrite Hm. by rewrite drop_app_add.
Qed.

Lemma memcpy_spec {A} (src : list A) off n :
  (off + n <= length src)%nat -> memcpy src off n = Ok (take n (drop off src)).
Proof.
  intros H. destruct (mapM_exists (at_ (E := batch_error) src) (List.seq off n)) as [k Hk].
  { intros i Hi%elem_of_seq. apply at_exists. lia. }
  unfold memcpy. rewrite Hk. f_equal. apply mapM_Ok, gather_omap in Hk. subst k.
  revert off H. induction n as [|n IH]; intros off H; [done|]. cbn [List.seq omap list_omap].
  destruct (lookup_lt_is_Some_2 src off) as [x Hx]; [lia|]. rewrite Hx.
  rewrite IH by lia. by rewrite (drop_S _ _ _ Hx).
Qed.

Lemma seq_ids_length (b : llama_batch float) i ids :
  seq_ids b i = Ok ids -> exists ns n, n_seq_id b = Some ns /\ ns !! i = Some n /\ length ids = Z.to_nat n.
Proof.
  unfold seq_ids. intros H. inv_run H. exists x, x0. split_and!; [done..|].
  apply mapM_Ok, Forall2_length in H. by rewrite length_seq in H.
Qed.

Definition is_output a (i : nat) : bool :=
  match logits (batch a) ≫= (fun ls => ls !! i) with Some x => negb (x =? 0) | None => false end.

Lemma outputs_spec a ls idxs outs :
  logits (batch a) = Some ls -> Forall2 (fun i x => at_ (E := batch_error) ls i = Ok x) idxs outs ->
  (filter (fun io => io.2 <> 0) (zip idxs outs)).*1 = filter (fun i => is_output a i = true) idxs.
Proof.
  intros Hls. induction 1 as [|i x idxs outs Hx HF IH]; [done|]. apply at_Ok in Hx. cbn [zip zip_with].
  assert (is_output a i = negb (x =? 0)) as Ho by (unfold is_output; rewrite Hls; simpl; by rewrite Hx).
  rewrite !filter_cons. simpl. destruct (Z.eqb_spec x 0) as [->|Hne].
  - rewrite decide_False by naive_solver. rewrite decide_False by (rewrite Ho; naive_solver). done.
  - rewrite decide_True by done. rewrite decide_True by done. rewrite fmap_cons. by rewrite IH.
Qed.

(** The gathers of [ubatch_add] all run. *)
Lemma gathers_run a idxs :
  readable a -> (forall i, i ∈ idxs -> (i < get_n_tokens a)%nat) ->
  exists tokens embds poss ns outs rows ps ls,
    match token (batch a) with None => Ok None | Some ts => Some <$> mapM (at_ ts) idxs end = Ok (E := batch_error) tokens /\
    match embd (batch a) with None => Ok None | Some es =>
      Some <$> (@concat _ <$> mapM (fun i => memcpy es (i * n_embd a) (n_embd a)) idxs) end = Ok embds /\
    mapM (fun j => mapM (fun i => ps ← deref (pos (batch a)); at_ ps (src_off (batch a) j + i)%nat) idxs)
      (List.seq 0 (n_pos_per_embd a)) = Ok (E := batch_error) poss /\
    mapM (fun i => l ← deref (n_seq_id (batch a)); at_ l i) idxs = Ok (E := batch_error) ns /\
    mapM (fun i => l ← deref (logits (batch a)); at_ l i) idxs = Ok (E := batch_error) outs /\
    mapM (seq_ids (batch a)) idxs = Ok rows /\ pos (batch a) = Some ps /\ logits (batch a) = Some ls.
Proof.
  intros [R1 R2 (ps & Ep & R3) (ns0 & En & R4) (ls & El & R5) R6 _] Hi.
  assert (exists tokens, match token (batch a) with None => Ok None | Some ts => Some <$> mapM (at_ ts) idxs end =
    Ok (E := batch_error) tokens) as [tokens Et].
  { destruct (token (batch a)) as [ts|] eqn:E; [|by eexists].
    destruct (mapM_exists (at_ (E := batch_error) ts) idxs) as [k ->]; [|by eexists].
    intros i Hin. apply at_exists. specialize (R1 _ eq_refl). specialize (Hi i Hin). lia. }
  assert (exists embds, match embd (batch a) with None => Ok None | Some es =>
      Some <$> (@concat _ <$> mapM (fun i => memcpy es (i * n_embd a) (n_embd a)) idxs) end = Ok embds) as [embds Ee].
  { destruct (embd (batch a)) as [es|] eqn:E; [|by eexists].
    destruct (mapM_exists (fun i => memcpy es (i * n_embd a) (n_embd a)) idxs) as [k ->]; [|by eexists].
    intros i Hin. eexists. apply memcpy_spec. specialize (R2 _ eq_refl). specialize (Hi i Hin). nia. }
  destruct (mapM_exists (fun j => mapM (fun i => ps ← deref (E := batch_error) (pos (batch a));
    at_ ps (src_off (batch a) j + i)%nat) idxs) (List.seq 0 (n_pos_per_embd a))) as [poss Epp].
  { intros j Hj%elem_of_seq. apply mapM_exists. intros i Hin. rewrite Ep. cbn [deref]. bind_simpl.
    apply at_exists, R3; [by apply Hi|lia]. }
  destruct (mapM_exists (fun i => l ← deref (E := batch_error) (n_seq_id (batch a)); at_ l i) idxs) as [ns Ens].
  { intros i Hin. rewrite En. cbn [deref]. bind_simpl. apply at_exists. specialize (Hi i Hin). lia. }
  destruct (mapM_exists (fun i => l ← deref (E := batch_error) (logits (batch a)); at_ l i) idxs) as [outs Eo].
  { intros i Hin. rewrite El. cbn [deref]. bind_simpl. apply at_exists. specialize (Hi i Hin). lia. }
  destruct (mapM_exists (seq_ids (batch a)) idxs) as [rows Er].
  { intros i Hin. destruct (R6 i (Hi i Hin)) as (ids & E & _). by exists ids. }
  by exists tokens, embds, poss, ns, outs, rows, ps, ls.
Qed.

Lemma gather_pos a idxs ps poss :
  pos (batch a) = Some ps ->
  Forall2 (fun j row => mapM (fun i => ps ← deref (pos (batch a));
    at_ (E := batch_error) ps (src_off (batch a) j + i)%nat) idxs = Ok row) (List.seq 0 (n_pos_per_embd a)) poss ->
  forall j x i, (j < n_pos_per_embd a)%nat -> idxs !! x = Some i ->
    concat poss !! (j * length idxs + x)%nat = ps !! (src_off (batch a) j + i)%nat.
Proof.
  intros Ep HF j x i Hj Hx. rewrite lookup_concat_rows.
  - destruct (Forall2_lookup_l _ _ _ j j HF) as (row & Hrow & E); [by apply lookup_seq_lt|].
    rewrite Hrow. simpl. apply mapM_Ok in E. destruct (Forall2_lookup_l _ _ _ x i E Hx) as (p & -> & Hp).
    rewrite Ep in Hp. cbn [deref] in Hp. bind_simpl. by apply at_Ok in Hp.
  - apply Forall_forall. intros row [k Hk]%list_elem_of_lookup.
    destruct (Forall2_lookup_r _ _ _ k row HF Hk) as (j' & _ & E). apply mapM_Ok, Forall2_length in E. done.
  - by eapply lookup_lt_Some.
Qed.

Lemma gather_seq (b : llama_batch float) idxs ns rows :
  Forall2 (fun i n => (l ← deref (n_seq_id b); at_ (E := batch_error) l i) = Ok n) idxs ns ->
  Forall2 (fun i ids => seq_ids b i = Ok ids) idxs rows ->
  forall x i ids, idxs !! x = Some i -> seq_ids b i = Ok ids ->
    exists n off, ns !! x = Some n /\ offsets 0 ns !! x = Some off /\
      take (Z.to_nat n) (drop off (concat rows)) = ids.
Proof.
  intros Hns Hrows x i ids Hx Hids.
  destruct (Forall2_lookup_l _ _ _ x i Hns Hx) as (n & Hn & _).
  destruct (Forall2_lookup_l _ _ _ x i Hrows Hx) as (ids' & Hr & E). rewrite Hids in E. simplify_eq.
  destruct (offsets_spec ns rows 0 x n ids') as (o & Eo & Ho); [|done|done|].
  - apply Forall2_same_length_lookup_2; [by rewrite <- (Forall2_length _ _ _ Hns), (Forall2_length _ _ _ Hrows)|].
    intros y m r Hm Hry. destruct (Forall2_lookup_r _ _ _ y m Hns Hm) as (i1 & Hi1 & E1).
    destruct (Forall2_lookup_r _ _ _ y r Hrows Hry) as (i2 & Hi2 & E2). simplify_eq.
    destruct (seq_ids_length b i1 r E2) as (l & m' & Hl & Hm' & ->). rewrite Hl in E1. cbn [deref] in E1.
    bind_simpl. apply at_Ok in E1. congruence.
  - by exists n, o.
Qed.

Lemma gather_unq a idxs rows :
  readable a -> (forall i, i ∈ idxs -> (i < get_n_tokens a)%nat) ->
  Forall2 (fun i ids => seq_ids (batch a) i = Ok ids) idxs rows ->
  forall s, s ∈ filter (fun s => s ∈ (list_to_set (concat rows) : gset Z)) (seqZ 0 (n_seq_max a)) <->
    0 <= s /\ exists i ids, i ∈ idxs /\ seq_ids (batch a) i = Ok ids /\ s ∈ ids.
Proof.
  intros HR Hi HF s. rewrite list_elem_of_filter, elem_of_list_to_set, elem_of_seqZ, list_elem_of_In, in_concat.
  setoid_rewrite <- list_elem_of_In. split.
  - intros [(ids & [x Hx]%list_elem_of_lookup & Hs) Hr]. split; [lia|].
    destruct (Forall2_lookup_r _ _ _ x ids HF Hx) as (i & Hix & E). exists i, ids.
    split_and!; [by eapply list_elem_of_lookup_2|done..].
  - intros [Hs0 (i & ids & Hin & E & Hs)]. apply list_elem_of_lookup in Hin as Hx. destruct Hx as [x Hx].
    destruct (Forall2_lookup_l _ _ _ x i HF Hx) as (ids' & Hr & E'). rewrite E in E'. simplify_eq.
    split; [exists ids'; split; [by eapply list_elem_of_lookup_2|done]|].
    destruct (rb_seq_ids _ HR i (Hi i Hin)) as (ids2 & E2 & Hrange). rewrite E in E2. simplify_eq.
    rewrite Forall_forall in Hrange. specialize (Hrange s Hs). lia.
Qed.

Lemma ubatch_add_spec a idxs n_seqs (equal_seqs : bool) :
  readable a -> (forall i, i ∈ idxs -> (i < get_n_tokens a)%nat) ->
  (0 < n_seqs)%nat -> (length idxs mod n_seqs = 0)%nat ->
  exists u, ubatch_add a idxs n_seqs equal_seqs =
      Ok (with_used a (out_ids a ++ filter (fun i => is_output a i = true) idxs) (n_used a) (used a), u) /\
    gathers a idxs u /\ u_n_seqs u = n_seqs /\ u_equal_seqs u = equal_seqs.
Proof.
  intros HR Hi Hs Hmod.
  destruct (gathers_run a idxs HR Hi) as (tokens & embds & poss & ns & outs & rows & ps & ls & Et & Ee & Epp & Ens & Eo & Er & Ep & El).
  unfold ubatch_add. rewrite Hmod, (proj2 (Nat.eqb_neq n_seqs 0)) by lia. cbn [Nat.eqb negb andb].
  bind_simpl. rewrite Et. bind_simpl. rewrite Ee. bind_simpl. rewrite Epp. bind_simpl. rewrite Ens. bind_simpl.
  rewrite Eo. bind_simpl. rewrite Er. bind_simpl.
  destruct (index_seqs (list_to_set (concat rows)) (n_seq_max a)) as [idx unq] eqn:Ei.
  apply mapM_Ok in Er, Ens, Eo, Epp. rewrite El in Eo. cbn [deref] in Eo. bind_simpl.
  eexists. rewrite (outputs_spec a ls idxs outs El Eo). split; [done|].
  apply index_seqs_spec in Ei as [Eunq Eidx]; [|by apply rb_seq_max].
  split; [|done]. split; cbn [u_n_tokens u_n_seq_tokens u_n_seqs u_token u_embd u_pos u_n_seq_id u_seq_id_off
    u_seq_id_unq u_seq_idx u_output u_seq_id_data u_n_seqs_unq].
  - split; [done|]. pose proof (Nat.div_mod_eq (length idxs) n_seqs). lia.
  - destruct (token (batch a)); [|by injection Et]. destruct (mapM _ idxs) eqn:E; [|done]. injection Et as <-.
    f_equal. by apply mapM_Ok, gather_omap in E.
  - destruct (embd (batch a)) as [es|] eqn:Ees; [|by injection Ee]. destruct (mapM _ idxs) eqn:E; [|done].
    injection Ee as <-. do 2 f_equal. apply mapM_Ok in E. pose proof (rb_embd _ HR es Ees) as Hes.
    clear - E Hes Hi. induction E as [|i r idxs rs Hr HF IH]; [done|]. rewrite fmap_cons, <- IH.
    + rewrite memcpy_spec in Hr; [by injection Hr as <-|]. specialize (Hi i (list_elem_of_here _ _)). nia.
    + intros j Hj. apply Hi. by right.
  - exists ps. split; [done|]. by apply (gather_pos a idxs ps poss).
  - exists ls. split; [done|]. by apply gather_omap in Eo.
  - by apply gather_seq.
  - rewrite Eunq. by apply gather_unq.
  - rewrite Eunq. split; [apply StronglySorted_filter, seqZ_sorted|done].
  - done.
Qed.

(** ** Splitting a whole batch *)

(** What the callers must respect: an equal split keeps fewer tail tokens than
    fit in a ubatch and is sequential only without coupled sequences. *)
Definition mode_ok (m : split_mode) a : Prop :=
  match m with
  | Equal n_ubatch sequential kt =>
      0 <= n_ubatch /\ (kt = 0%nat \/ Z.of_nat kt < n_ubatch) /\ sequential && has_cpl a = false
  | _ => True
  end.

Definition mode_inv (m : split_mode) a : Prop :=
  match m with Simple _ => in_order a | _ => True end.

Lemma mod_length_selected a sets k : (0 < length sets)%nat ->
  (forall S, S ∈ sets -> (k <= length (unused_with a S))%nat) -> (length (selected a sets k) mod length sets = 0)%nat.
Proof.
  intros H0 Hk. assert (length (selected a sets k) = k * length sets)%nat as ->; [|by apply Nat.Div0.mod_mul].
  clear H0. unfold selected. induction sets as [|S sets IH]; [simpl; lia|]. rewrite fmap_cons. cbn [concat length].
  rewrite length_app, length_take, IH by (intros; apply Hk; by right).
  specialize (Hk S (list_elem_of_here _ _)). lia.
Qed.

Lemma select_spec m a :
  ready a -> mode_ok m a -> mode_inv m a ->
  (done_with a /\ select m a = Ok (a, None)) \/
  exists idxs n_seqs equal_seqs, idxs <> [] /\ takes a idxs /\ (0 < n_seqs)%nat /\
    (length idxs mod n_seqs = 0)%nat /\ mode_inv m (consume a idxs) /\
    select m a = Ok (consume a idxs, Some (idxs, n_seqs, equal_seqs)).
Proof.
  intros HR Hok Hinv. destruct m as [n_ubatch|n_ubatch sequential kt|n_ubatch]; simpl in *.
  - destruct (select_simple_spec a n_ubatch HR Hinv) as [?|(Hlt & Ht & Ho & E)]; [by left|right].
    do 3 eexists. split_and!; [|exact Ht| | |exact Ho|exact E].
    + unfold simple_size. by destruct (Nat.max 1 _) eqn:Em; [lia|].
    + unfold simple_size. lia.
    + rewrite length_seq. apply Nat.Div0.mod_same.
  - destruct Hok as (Hn & Hkt & Hc).
    destruct (select_equal_spec a n_ubatch sequential kt HR Hn Hkt Hc) as [?|(sets & k & HS & E)]; [by left|right].
    destruct (es_sets _ _ _ _ _ _ HS) as [HG Hne]. destruct (es_tokens _ _ _ _ _ _ HS) as [Hk1 Hk].
    assert (0 < length sets)%nat as Hlen by (destruct sets; [done|simpl; lia]).
    do 3 eexists. split_and!; [|by apply takes_selected|exact Hlen|by apply mod_length_selected|done|exact E].
    destruct sets as [|S sets]; [done|]. specialize (Hk S (list_elem_of_here _ _)).
    unfold selected. rewrite fmap_cons. cbn [concat]. destruct (unused_with a S); [simpl in Hk; lia|].
    destruct k; [lia|done].
  - destruct (select_seq_spec a n_ubatch HR) as [?|(idxs & Ht & _ & Hne & _ & E)]; [by left|right].
    do 3 eexists. split_and!; [exact Hne|exact Ht| | |done|exact E]; [lia|apply Nat.mod_1_r].
Qed.

Lemma split_select m a : split m a = select m a ≫= finish.
Proof. by destruct m. Qed.

(** [a] after the ubatches of [idxs] were built. *)
Definition built a idxs :=
  with_used a (out_ids a ++ filter (fun i => is_output a i = true) idxs) (n_used a + length idxs)
    (marked (used a) idxs).

Lemma split_step m a :
  ready a -> readable a -> mode_ok m a -> mode_inv m a ->
  (done_with a /\ split m a = Ok (a, empty_ubatch)) \/
  exists idxs u, idxs <> [] /\ takes a idxs /\ gathers a idxs u /\
    mode_inv m (built a idxs) /\ split m a = Ok (built a idxs, u).
Proof.
  intros HR Hread Hok Hinv. rewrite split_select.
  destruct (select_spec m a HR Hok Hinv) as [[Hd E]|(idxs & ns & eq & Hne & Ht & Hns & Hmod & Hi & E)].
  - left. by rewrite E.
  - right. rewrite E. bind_simpl. cbn [finish].
    destruct (ubatch_add_spec (consume a idxs) idxs ns eq) as (u & Eu & Hg & _); [by destruct Hread|..|done|done|].
    { intros i Hin. apply (tk_unused _ _ Ht) in Hin. apply lookup_lt_Some in Hin.
      by rewrite (rd_used _ HR) in Hin. }
    exists idxs, u. split_and!; [done|done|by destruct Hg| |exact Eu]. by destruct m.
Qed.

Lemma ready_built a idxs : ready a -> takes a idxs -> ready (built a idxs).
Proof. intros HR Ht. by destruct (ready_consume a idxs HR Ht). Qed.

Lemma count_used_le (u : list bool) : (sum_list_with (fun b : bool => if b then 1 else 0) u <= length u)%nat.
Proof. apply sum_list_with_le_length. intros []; lia. Qed.

Lemma built_nil a : built a [] = a.
Proof. destruct a. unfold built, with_used. simpl. by rewrite Nat.add_0_r, app_nil_r. Qed.

Lemma built_app a idxs idxs' : built (built a idxs) idxs' = built a (idxs ++ idxs').
Proof.
  unfold built, with_used, is_output. simpl. rewrite marked_app, length_app, filter_app, <- app_assoc.
  f_equal. lia.
Qed.

Lemma split_loop_spec fuel m a us :
  ready a -> readable a -> mode_ok m a -> mode_inv m a -> (get_n_tokens a < fuel + n_used a)%nat ->
  exists idxss us', split_loop fuel m a us = Ok (built a (concat idxss), us ++ us') /\
    NoDup (concat idxss) /\ (forall i, i ∈ concat idxss <-> used a !! i = Some false) /\
    Forall2 (gathers a) idxss us'.
Proof.
  revert a us. induction fuel as [|fuel IH]; intros a us HR Hread Hok Hinv Hf.
  { pose proof (count_used_le (used a)) as H. rewrite <- (rd_count _ HR), (rd_used _ HR) in H. lia. }
  cbn [split_loop]. destruct (split_step m a HR Hread Hok Hinv) as [[Hd E]|(idxs & u & Hne & Ht & Hg & Hi & E)];
    rewrite E; bind_simpl.
  - exists [], []. cbn [concat]. rewrite built_nil, app_nil_r. split; [done|]. split_and!; [constructor| |constructor].
    intros i. split; [by intros Hin%elem_of_nil|]. intros Hu. apply lookup_lt_Some in Hu as Hlt.
    rewrite (rd_used _ HR) in Hlt. rewrite (Hd i Hlt) in Hu. done.
  - destruct (ga_count _ _ _ Hg) as [-> _]. destruct idxs as [|i0 idxs0] eqn:Ei; [done|]. rewrite <- Ei in *.
    replace (length idxs =? 0)%nat with false by (by subst idxs).
    destruct (IH (built a idxs) (us ++ [u])) as (idxss & us' & El & Hnd & Hel & HF).
    { by apply ready_built. } { by destruct Hread. } { by destruct m. } { done. }
    { change (get_n_tokens (built a idxs)) with (get_n_tokens a). subst idxs. simpl. lia. }
    exists (idxs :: idxss), (u :: us'). rewrite El, built_app, <- app_assoc. split; [done|]. cbn [concat].
    assert (forall i, i ∈ concat idxss <-> used a !! i = Some false /\ i ∉ idxs) as Hel'.
    { intros i. rewrite Hel. apply (consumed_unused a idxs). }
    split_and!; [|intros i; rewrite elem_of_app, Hel'|].
    + apply NoDup_app. split_and!; [apply Ht| |done]. intros i Hin Hin'. by apply Hel' in Hin' as [_ ?].
    + split; [intros [Hin|[? _]]; [by apply Ht|done]|]. intros Hu. destruct (decide (i ∈ idxs)); [by left|by right].
    + constructor; [done|]. eapply Forall2_impl; [exact HF|]. intros l v Hv. by destruct Hv.
Qed.

(** What [init] establishes and no split changes: the sequence sets of the tokens
    are indexed and none is empty. *)
Record indexed a : Prop := {
  ix_sets : length (seq_set a) = get_n_tokens a;
  ix_map : forall S, S ∈ seq_set a -> seq_set_map a !! S = Some (tokens_with a S);
  ix_nonempty : forall S, S ∈ seq_set a -> S <> ∅;
  ix_first : forall i, (i < get_n_tokens a)%nat -> exists s, seq_first (batch a) i = Ok s
}.

Lemma unused_reset a i : used (split_reset a) !! i = Some false <-> (i < get_n_tokens a)%nat.
Proof. simpl. rewrite lookup_replicate. naive_solver. Qed.

Lemma used_reset a i : used (split_reset a) !! i <> Some true.
Proof. simpl. rewrite lookup_replicate. naive_solver. Qed.

Lemma ready_reset a : indexed a -> ready (split_reset a).
Proof.
  intros [H1 H2 H3 H4]. split; try done.
  - apply length_replicate.
  - simpl. generalize (get_n_tokens a) as n. clear. induction n as [|n IH]; [done|exact IH].
  - intros i j S _ _ _ Hu. by apply used_reset in Hu.
Qed.

Lemma split_batch_spec m a :
  indexed a -> readable a -> mode_ok m a ->
  exists a' idxss us, split_batch m a = Ok (a', Some us) /\
    concat idxss ≡ₚ List.seq 0 (get_n_tokens a) /\ Forall2 (gathers a) idxss us /\
    n_used a' = get_n_tokens a /\ out_ids a' = filter (fun i => is_output a i = true) (concat idxss).
Proof.
  intros Hix Hread Hok. pose proof (ready_reset a Hix) as HR. unfold split_batch.
  destruct (split_loop_spec (S (get_n_tokens (split_reset a))) m (split_reset a) []) as (idxss & us & E & Hnd & Hel & HF).
  { done. } { by destruct Hread. } { by destruct m. }
  { destruct m; [|done..]. intros i j _ Hu. by apply used_reset in Hu. }
  { simpl. lia. }
  assert (concat idxss ≡ₚ List.seq 0 (get_n_tokens a)) as HP.
  { apply NoDup_Permutation; [done|apply NoDup_seq|]. intros i. rewrite Hel, unused_reset, elem_of_seq. lia. }
  assert (length (concat idxss) = get_n_tokens a) as Hlen by (by rewrite HP, length_seq).
  rewrite E. bind_simpl. exists (built (split_reset a) (concat idxss)), idxss, us.
  split_and!; [|exact HP| | |reflexivity].
  - unfold get_n_used. cbn [n_used built with_used split_reset]. rewrite Hlen.
    change (get_n_tokens (built (split_reset a) (concat idxss))) with (get_n_tokens a).
    by rewrite Nat.add_0_l, Nat.ltb_irrefl.
  - eapply Forall2_impl; [exact HF|]. intros l u Hu. by destruct Hu.
  - cbn [n_used built with_used split_reset]. lia.
Qed.
End Float.

(** ** Properties *)

(** An allocator between splits: four tokens of the sequence sets {0}, {1}, {0},
    {1}, none used. *)
Definition example_ready : llama_batch_allocr Z :=
  mk_allocr (mk_batch 4 (Some [11; 12; 13; 14]) None (Some [0; 0; 1; 1]) (Some [1; 1; 1; 1])
      (Some [[0]; [1]; [0]; [1]]) (Some [0; 0; 0; 1]))
    1 0 2 1 [0; 1] seq_idx_init false ∅ ∅ [{[0]}; {[1]}; {[0]}; {[1]}]
    (<[{[0]} := [0; 2]%nat]> (<[{[1]} := [1; 3]%nat]> ∅)) [] 0 [false; false; false; false].

Lemma example_is_ready : ready example_ready.
Proof.
  assert (forall P : gset Z -> Prop, P {[0]} -> P {[1]} -> forall S, S ∈ seq_set example_ready -> P S) as Hin.
  { intros P H0 H1 S HS. simpl in HS. rewrite !elem_of_cons in HS.
    destruct HS as [->|[->|[->|[->|HS]]]]; try done. by apply elem_of_nil in HS. }
  split; [done|done|done| | | |].
  - apply (Hin (fun S => seq_set_map example_ready !! S = Some (tokens_with example_ready S))); by vm_compute.
  - apply Hin; set_solver.
  - intros i Hi. do 4 (destruct i as [|i]; [eexists; by vm_compute|]). unfold get_n_tokens in Hi. simpl in Hi. lia.
  - intros i j S _ _ _ Hu. do 4 (destruct j as [|j]; [done|]). done.
Qed.

(** C8: one equal split. It selects non-overlapping sequence sets, each with an
    unused token (with consecutive first ids when sequential), and the same
    number of first unused tokens of each set; at most [n_ubatch] tokens unless
    it takes one token of each of at most [n_ubatch + 1] sets; as many as fit; and
    with [n_keep_tail] no set keeps fewer than that many unused tokens, unless
    it keeps none. *)
Theorem batch_split_equal {float : Type} (a : llama_batch_allocr float) n_ubatch sequential kt :
  ready a -> 0 <= n_ubatch -> (kt = 0%nat \/ Z.of_nat kt < n_ubatch) ->
  sequential && has_cpl a = false ->
  (done_with a /\ select_equal a n_ubatch sequential kt = Ok (a, None)) \/
  exists sets k, equal_selection a n_ubatch sequential kt sets k /\ takes a (selected a sets k) /\
    select_equal a n_ubatch sequential kt =
      Ok (consume a (selected a sets k), Some (selected a sets k, length sets, true)).
Proof.
  intros HR Hn Hk Hs. destruct (select_equal_spec a n_ubatch sequential kt HR Hn Hk Hs) as [?|(sets & k & HE & E)];
    [by left|right]. exists sets, k. split; [done|]. split; [|done].
  by apply takes_selected, (es_sets _ _ _ _ _ _ HE).
Qed.

Lemma batch_split_equal_witness :
  (done_with example_ready /\ select_equal example_ready 3 true 2 = Ok (example_ready, None)) \/
  exists sets k, equal_selection example_ready 3 true 2 sets k /\
    takes example_ready (selected example_ready sets k) /\
    select_equal example_ready 3 true 2 =
      Ok (consume example_ready (selected example_ready sets k), Some (selected example_ready sets k, length sets, true)).
Proof. apply batch_split_equal; [apply example_is_ready|lia|by right|done]. Defined.

(** One sequence-set split. It takes between one and [n_ubatch] unused tokens
    in increasing order, in each sequence set the first unused ones, and the
    sequence set of each token is included in those of the tokens before it. *)
Theorem batch_split_seq {float : Type} (a : llama_batch_allocr float) n_ubatch :
  ready a ->
  (done_with a /\ select_seq a n_ubatch = Ok (a, None)) \/
  exists idxs, takes a idxs /\ descending a idxs /\ idxs <> [] /\
    Z.of_nat (length idxs) <= Z.max 1 n_ubatch /\
    select_seq a n_ubatch = Ok (consume a idxs, Some (idxs, 1%nat, true)).
Proof. apply select_seq_spec. Qed.

Lemma batch_split_seq_witness :
  (done_with example_ready /\ select_seq example_ready 3 = Ok (example_ready, None)) \/
  exists idxs, takes example_ready idxs /\ descending example_ready idxs /\ idxs <> [] /\
    Z.of_nat (length idxs) <= Z.max 1 3 /\
    select_seq example_ready 3 = Ok (consume example_ready idxs, Some (idxs, 1%nat, true)).
Proof. apply batch_split_seq, example_is_ready. Defined.

End BatchSplit.
