(* ===== verification/BatchInit.v ===== *)
(** Validating and completing a batch: what a successful [Batch.init] guarantees,
    which errors it cannot report, and a class of batches it always accepts. *)

From S2P Require Import Prelude.
From S2P Require Import KvCells.
From S2P Require Import Memory.
From S2P Require Import Batch.
From S2P Require Import BatchSplit.

Module BatchInit.
Import Batch.
Import BatchSplit.

Section Init.
Context {float M : Type} `{MemoryOps M}.
Implicit Types b : llama_batch float.
Implicit Types a : llama_batch_allocr float.
Implicit Types memory : option M.

Definition n_of b : nat := Z.to_nat (n_tokens b).

(** The position of token [i]. *)
Definition pos_at b (i : nat) : option Z := pos b ≫= (fun ps => ps !! i).

(** ** The completed batch *)

Definition with_ids b : llama_batch float := gen_seq_id (gen_n_seq_id b).

Lemma complete_inv b memory N output_all b' :
  complete b memory N output_all = Ok b' ->
  n_tokens b' = n_tokens b /\ token b' = token b /\ embd b' = embd b /\
  n_seq_id b' = n_seq_id (with_ids b) /\ seq_id b' = seq_id (with_ids b) /\
  (forall ps, pos b = Some ps -> pos b' = Some ps).
Proof.
  unfold complete. intros Hc. apply bind_Ok in Hc as (b1 & Hp & Hl).
  assert (n_tokens b1 = n_tokens b /\ token b1 = token b /\ embd b1 = embd b /\
    n_seq_id b1 = n_seq_id (with_ids b) /\ seq_id b1 = seq_id (with_ids b) /\
    (forall ps, pos b = Some ps -> pos b1 = Some ps)) as Hb1.
  { assert (pos (with_ids b) = pos b /\ n_tokens (with_ids b) = n_tokens b /\ token (with_ids b) = token b /\
      embd (with_ids b) = embd b) as (E1 & E2 & E3 & E4).
    { unfold with_ids, gen_seq_id, gen_n_seq_id. destruct (n_seq_id b) eqn:E, (seq_id b) eqn:E'; simpl;
        rewrite ?E, ?E'; done. }
    rewrite <- E1, <- E2, <- E3, <- E4. fold (with_ids b) in Hp. clear - Hp. unfold gen_pos in Hp.
    destruct (pos (with_ids b)) eqn:E; inv_run Hp; split_and!; try done; intros; congruence. }
  unfold gen_logits in Hl. destruct (logits b1) as [ls|].
  - destruct output_all; [|by injection Hl as <-]. inv_run Hl. by destruct x.
  - injection Hl as <-. simpl. done.
Qed.

(** ** Sequence sets *)

Lemma seq_sets_spec b ss :
  compute_seq_sets b = Ok ss ->
  length (ss_set ss) = n_of b /\
  (forall i, (i < n_of b)%nat -> exists ids, seq_ids b i = Ok ids /\ ss_set ss !! i = Some (list_to_set ids)) /\
  (forall S, default [] (ss_map ss !! S) = filter (fun i => ss_set ss !! i = Some S) (List.seq 0 (n_of b))).
Proof.
  unfold compute_seq_sets. intros E. eapply (for_inv (fun n ss =>
    length (ss_set ss) = n /\
    (forall i, (i < n)%nat -> exists ids, seq_ids b i = Ok ids /\ ss_set ss !! i = Some (list_to_set ids)) /\
    (forall S, default [] (ss_map ss !! S) = filter (fun i => ss_set ss !! i = Some S) (List.seq 0 n)))) in E; [done| |].
  2:{ split; [done|]. split; [intros; lia|done]. }
  clear. intros n s1 s2 _ (I1 & I2 & I3) E. unfold seq_sets_token in E. inv_ok E. cbn [ss_set ss_map].
  set (cur := list_to_set x : gset Z). split; [rewrite length_app; simpl; lia|]. split.
  - intros i Hi. destruct (decide (i = length (ss_set s1))) as [->|Hne].
    + exists x. split; [done|]. by rewrite lookup_app_r, Nat.sub_diag by lia.
    + destruct (I2 i) as (ids & Ei & El); [lia|]. exists ids. split; [done|]. by apply lookup_app_l_Some.
  - intros S. rewrite seq_S, filter_app. simpl.
    assert (filter (fun i => (ss_set s1 ++ [cur]) !! i = Some S) (List.seq 0 (length (ss_set s1))) =
      default [] (ss_map s1 !! S)) as ->.
    { rewrite I3. apply filter_iff_in. intros i Hi%elem_of_seq. rewrite lookup_app_l by lia. done. }
    assert ((ss_set s1 ++ [cur]) !! length (ss_set s1) = Some cur) as Hl by (by rewrite lookup_app_r, Nat.sub_diag by lia).
    rewrite filter_cons, filter_nil. destruct (decide (cur = S)) as [<-|Hne].
    + rewrite lookup_insert_eq, decide_True by done. done.
    + rewrite lookup_insert_ne, decide_False by congruence. by rewrite app_nil_r.
Qed.

(** ** Positions and couplings *)

Lemma positions_of_insert (sp : gmap Z (gset Z)) s X t :
  positions_of (<[s := X]> sp) t = if decide (t = s) then X else positions_of sp t.
Proof.
  unfold positions_of. destruct (decide (t = s)) as [->|Hne]; [by rewrite lookup_insert_eq|].
  by rewrite lookup_insert_ne.
Qed.

Lemma couple_fold_spec s0 p l st :
  let st' := foldl (fun st ks => couple_seq s0 p st ks.1 ks.2) st l in
  (forall s q, q ∈ positions_of (st_pos st') s <-> q ∈ positions_of (st_pos st) s \/ q = p /\ s ∈ l.*2) /\
  (forall x y, (x, y) ∈ st_cpl st' <-> (x, y) ∈ st_cpl st \/ y = s0 /\ exists k, (k, x) ∈ l /\ (0 < k)%nat) /\
  (st_has_cpl st' = true <-> st_has_cpl st = true \/ exists k x, (k, x) ∈ l /\ (0 < k)%nat).
Proof.
  revert st. induction l as [|[k s1] l IH]; intros st; cbn [foldl fst snd].
  - cbn. split_and!; [set_solver|set_solver|]. split; [by left|]. intros [?|(k & x & Hin & _)]; [done|].
    by apply elem_of_nil in Hin.
  - destruct (IH (couple_seq s0 p st k s1)) as (I1 & I2 & I3). cbn zeta in *. split_and!.
    + intros s q. rewrite I1, fmap_cons, elem_of_cons. cbn [snd].
      assert (q ∈ positions_of (st_pos (couple_seq s0 p st k s1)) s <->
        q ∈ positions_of (st_pos st) s \/ q = p /\ s = s1) as ->; [|naive_solver].
      assert (st_pos (couple_seq s0 p st k s1) = <[s1 := {[p]} ∪ positions_of (st_pos st) s1]> (st_pos st)) as ->.
      { unfold couple_seq. by destruct (0 <? k)%nat. }
      rewrite positions_of_insert. case_decide as Hs; [subst; set_solver|]. naive_solver.
    + intros x y. rewrite I2. setoid_rewrite elem_of_cons.
      assert ((x, y) ∈ st_cpl (couple_seq s0 p st k s1) <->
        (x, y) ∈ st_cpl st \/ y = s0 /\ x = s1 /\ (0 < k)%nat) as ->; [|naive_solver].
      unfold couple_seq. destruct (Nat.ltb_spec 0 k); cbn [st_cpl]; [|naive_solver lia].
      rewrite elem_of_union, elem_of_singleton. naive_solver.
    + rewrite I3. setoid_rewrite elem_of_cons.
      assert (st_has_cpl (couple_seq s0 p st k s1) = true <-> st_has_cpl st = true \/ (0 < k)%nat) as ->; [|naive_solver].
      unfold couple_seq. destruct (Nat.ltb_spec 0 k); cbn [st_has_cpl]; naive_solver lia.
Qed.

Lemma elem_of_zip_seq (ids : list Z) k x : (k, x) ∈ zip (List.seq 0 (length ids)) ids <-> ids !! k = Some x.
Proof.
  rewrite list_elem_of_lookup. setoid_rewrite lookup_zip_Some. split.
  - intros (i & [-> _]%lookup_seq & Hx). done.
  - intros Hx. exists k. split; [|done]. apply lookup_seq_lt. by eapply lookup_lt_Some.
Qed.

Lemma zip_seq_snd (ids : list Z) : (zip (List.seq 0 (length ids)) ids).*2 = ids.
Proof. apply snd_zip. by rewrite length_seq. Qed.

(** Token [i] is in sequence [s], and is in [s1] after its first sequence [s0]. *)
Definition in_seq b (i : nat) (s : Z) : Prop := exists ids, seq_ids b i = Ok ids /\ s ∈ ids.
Definition coupled b (i : nat) (s1 s0 : Z) : Prop :=
  exists ids k, seq_ids b i = Ok ids /\ seq_first b i = Ok s0 /\ ids !! k = Some s1 /\ (0 < k)%nat.

Lemma couple_spec b st :
  couple b = Ok st ->
  (forall i, (i < n_of b)%nat -> exists p s0, pos_at b i = Some p /\ seq_first b i = Ok s0) /\
  (forall s p, p ∈ positions_of (st_pos st) s <->
    exists i, (i < n_of b)%nat /\ in_seq b i s /\ pos_at b i = Some p) /\
  (forall x y, (x, y) ∈ st_cpl st <-> exists i, (i < n_of b)%nat /\ coupled b i x y) /\
  (st_has_cpl st = true <-> exists i x y, (i < n_of b)%nat /\ coupled b i x y).
Proof.
  unfold couple. intros E. eapply (for_inv (fun n st =>
    (forall i, (i < n)%nat -> exists p s0, pos_at b i = Some p /\ seq_first b i = Ok s0) /\
    (forall s p, p ∈ positions_of (st_pos st) s <->
      exists i, (i < n)%nat /\ in_seq b i s /\ pos_at b i = Some p) /\
    (forall x y, (x, y) ∈ st_cpl st <-> exists i, (i < n)%nat /\ coupled b i x y) /\
    (st_has_cpl st = true <-> exists i x y, (i < n)%nat /\ coupled b i x y))) in E; [done| |].
  2:{ split; [intros; lia|]. split_and!.
      - intros s p. unfold positions_of. cbn. rewrite lookup_empty. cbn.
        split; [intros Hp; exfalso; set_solver | intros (i & Hi & _); lia].
      - intros x y. cbn. split; [intros Hp; exfalso; set_solver | intros (i & Hi & _); lia].
      - cbn. split; [done | intros (i & x & y & Hi & _); lia]. }
  clear. intros n st1 st2 _ (I0 & I1 & I2 & I3) E. unfold couple_token in E. inv_ok E.
  assert (pos_at b n = Some x1) as Hpos.
  { unfold pos_at. by rewrite Hx2. }
  destruct (couple_fold_spec x x1 (zip (List.seq 0 (length x0)) x0) st1) as (C1 & C2 & C3). cbn zeta in *.
  assert (forall P : nat -> Prop, (exists i, (i < S n)%nat /\ P i) <-> (exists i, (i < n)%nat /\ P i) \/ P n) as Hex.
  { intros P. split.
    - intros (i & Hi & HP). destruct (decide (i = n)) as [->|]; [by right|left]. exists i. split; [lia|done].
    - intros [(i & Hi & HP)|HP]; [exists i|exists n]; split; try done; lia. }
  split_and!.
  - intros i Hi. destruct (decide (i = n)) as [->|]; [by exists x1, x|]. apply I0. lia.
  - intros s p. rewrite C1, I1, Hex, zip_seq_snd. apply or_iff_compat_l. split.
    + intros [-> Hs]. split; [by exists x0|done].
    + intros [(ids & E1 & Hs) E2]. split; [congruence|]. rewrite Hx0 in E1. by simplify_eq.
  - intros y z. rewrite C2, I2, Hex. setoid_rewrite elem_of_zip_seq. apply or_iff_compat_l. split.
    + intros [-> (k & Hk & H0)]. by exists x0, k.
    + intros (ids & k & E1 & E2 & E3 & E4). rewrite Hx0 in E1. rewrite Hx in E2. simplify_eq.
      split; [done|]. by exists k.
  - rewrite C3, I3. setoid_rewrite elem_of_zip_seq. split.
    + intros [(i & y & z & Hi & HC)|(k & y & Hy & Hk)]; [exists i, y, z; split; [lia|done]|].
      exists n, y, x. split; [lia|]. by exists x0, k.
    + intros (i & y & z & Hi & HC). destruct (decide (i = n)) as [->|].
      * right. destruct HC as (ids & k & E1 & _ & E2 & E3). rewrite Hx0 in E1. injection E1 as <-. by exists k, y.
      * left. exists i, y, z. split; [lia|done].
Qed.

(** ** Order of positions *)

Lemma check_order_seqs set p ids cs cp cs' cp' :
  foldM (check_order_seq set p) (cs, cp) ids = Ok (cs', cp') ->
  (forall s, cp' !! s = if decide (s ∈ ids) then Some p else cp !! s) /\
  (forall s, s ∈ ids -> exists q, cp !! s = Some q /\ q <= p).
Proof.
  revert cs cp. induction ids as [|t ids IH]; intros cs cp E; cbn [foldM] in E.
  - injection E as <- <-. split; [done|]. by intros s Hs%elem_of_nil.
  - inv_ok E. destruct x as [cs1 cp1]. unfold check_order_seq in Hx. inv_ok Hx.
    destruct (IH _ _ E) as [I1 I2]. split.
    + intros s. rewrite I1. destruct (decide (s = t)) as [->|Hne].
      * rewrite lookup_insert_eq. rewrite (decide_True _ _ (list_elem_of_here _ _)). by destruct (decide (t ∈ ids)).
      * rewrite lookup_insert_ne by done. destruct (decide (s ∈ ids)) as [Hin|Hin].
        -- by rewrite decide_True by (by right).
        -- rewrite decide_False; [done|]. intros [->|?]%elem_of_cons; done.
    + intros s [->|Hs]%elem_of_cons; [exists x0; split; [done|lia]|].
      destruct (I2 s Hs) as (q & Hq & Hqp). destruct (decide (s = t)) as [->|Hne]; [exists x0; split; [done|lia]|].
      rewrite lookup_insert_ne in Hq by done. by exists q.
Qed.

Lemma check_order_spec b sets N :
  check_order b sets N = Ok tt ->
  forall i j s p q, (i < j)%nat -> (j < n_of b)%nat -> in_seq b i s -> in_seq b j s ->
    pos_at b i = Some p -> pos_at b j = Some q -> p <= q.
Proof.
  unfold check_order. intros E. inv_ok E.
  eapply (for_inv (fun n st =>
    (forall s q i p, st.2 !! s = Some q -> (i < n)%nat -> in_seq b i s -> pos_at b i = Some p -> p <= q) /\
    (forall i j s p q, (i < j)%nat -> (j < n)%nat -> in_seq b i s -> in_seq b j s ->
      pos_at b i = Some p -> pos_at b j = Some q -> p <= q))) in Hx; [by destruct Hx| |].
  2:{ split; [intros; lia|intros; lia]. }
  clear. intros n [cs cp] [cs' cp'] _ (I1 & I2) E. unfold check_order_token in E. inv_ok E.
  apply check_order_seqs in E as [C1 C2]. cbn [snd] in *.
  assert (pos_at b n = Some x) as Hpos by (unfold pos_at; by rewrite Hx0). split.
  - intros s q i p Hq Hi Hs Hp. rewrite C1 in Hq. case_decide as Hin.
    + simplify_eq. destruct (decide (i = n)) as [->|]; [simplify_eq; lia|].
      destruct (C2 s Hin) as (last & Hl & Hle). specialize (I1 s last i p Hl ltac:(lia) Hs Hp). lia.
    + destruct (decide (i = n)) as [->|]; [|by apply (I1 s q i p Hq ltac:(lia))].
      destruct Hs as (ids & E & Hs). rewrite Hx1 in E. simplify_eq. done.
  - intros i j s p q Hij Hj Hi Hjs Hp Hq. destruct (decide (j = n)) as [->|]; [|by apply (I2 i j s p q); try lia].
    destruct Hjs as (ids & E & Hs). rewrite Hx1 in E. simplify_eq.
    destruct (C2 s Hs) as (last & Hl & Hle). specialize (I1 s last i p Hl ltac:(lia) Hi Hp). lia.
Qed.

(** ** Sequence ids in range *)

Lemma seq_ids_ext b b' i : n_seq_id b = n_seq_id b' -> seq_id b = seq_id b' -> seq_ids b i = seq_ids b' i.
Proof. unfold seq_ids, seq_row. by intros -> ->. Qed.

Lemma check_seq_ids_spec b N :
  check_seq_ids b N = Ok tt -> 1 <= N ->
  forall i ids, (i < n_of b)%nat -> seq_ids (with_ids b) i = Ok ids -> Forall (fun s => 0 <= s < N) ids.
Proof.
  intros Hc HN i ids Hi Hids. unfold seq_ids, seq_row in Hids. inv_ok Hids.
  apply mapM_Ok in Hids. apply Forall_forall. intros s [k Hk]%list_elem_of_lookup.
  destruct (Forall2_lookup_r _ _ _ k s Hids Hk) as (k' & Hk' & Hs). apply at_Ok in Hs.
  apply lookup_seq in Hk' as [-> Hlt]. simpl in Hs.
  unfold with_ids, gen_seq_id, gen_n_seq_id in *. unfold check_seq_ids in Hc.
  destruct (seq_id b) as [rows|] eqn:Er.
  - apply foldM_checks in Hc. rewrite Forall_forall in Hc.
    specialize (Hc i). unfold tokens_of in Hc. rewrite elem_of_seq in Hc. specialize (Hc ltac:(unfold n_of in Hi; lia)).
    destruct (n_seq_id b) as [ns|] eqn:En; [|done]. rewrite Er in *. simpl in *. simplify_eq.
    cbn [deref] in Hc. bind_simpl. rewrite (at_lookup _ _ _ Hx0) in Hc. bind_simpl.
    apply foldM_checks in Hc. rewrite Forall_forall in Hc. specialize (Hc k).
    rewrite elem_of_seq in Hc. specialize (Hc ltac:(lia)).
    inv_ok Hc. lia.
  - destruct (n_seq_id b); simpl in *; rewrite ?Er in *; simpl in *; simplify_eq;
      apply lookup_replicate in Hx1 as [-> _]; destruct k; simplify_eq/=; lia.
Qed.

(** ** The sequence-set check never fires *)

Definition not_incompatible (e : batch_error) : Prop := forall s, e <> Incompatible s.

Lemma not_incompatible_undefined : not_incompatible undefined.
Proof. done. Qed.

Ltac not_incompatible :=
  only_solve; try (apply not_incompatible_undefined); try (intros ?; discriminate).

Lemma seq_ids_errors b i : only not_incompatible (seq_ids b i).
Proof. unfold seq_ids, seq_row. not_incompatible. Qed.

Definition sets_hold (N : Z) (cs : gmap Z (gset Z)) : Prop :=
  forall s, 0 <= s < N -> exists X, cs !! s = Some X /\ s ∈ X.

Lemma cur_sets_hold N : N <= LLAMA_MAX_SEQ -> sets_hold N (cur_sets_init N).
Proof.
  intros HN s Hs. exists all_seqs. split; [|apply elem_of_list_to_set, elem_of_seqZ; lia].
  apply elem_of_list_to_map; [|apply list_elem_of_fmap; exists s; split; [done|apply elem_of_seqZ; lia]].
  rewrite <- list_fmap_compose. unfold compose. simpl. rewrite list_fmap_id. apply NoDup_seqZ.
Qed.

Lemma check_order_step set p cs cp s X :
  cs !! s = Some X -> s ∈ X -> s ∈ set ->
  (exists e, check_order_seq set p (cs, cp) s = Error e /\ not_incompatible e) \/
  check_order_seq set p (cs, cp) s = Ok (<[s := X ∩ set]> cs, <[s := p]> cp).
Proof.
  intros HX HsX Hs. unfold check_order_seq. rewrite HX. simpl default.
  rewrite bool_decide_eq_false_2 by set_solver. cbn [negb ensure]. bind_simpl.
  destruct (cp !! s) as [q|]; cbn [deref]; bind_simpl; [|left; by eexists].
  destruct (q <=? p); cbn [ensure]; bind_simpl; [by right|left; by eexists].
Qed.

Lemma check_order_errors b sets N :
  N <= LLAMA_MAX_SEQ ->
  (forall i ids, (i < n_of b)%nat -> seq_ids b i = Ok ids ->
    Forall (fun s => 0 <= s < N) ids /\ sets !! i = Some (list_to_set ids)) ->
  only not_incompatible (check_order b sets N).
Proof.
  intros HN Hids. unfold check_order. apply only_bind; [|done].
  apply (only_foldM_inv _ (fun st => sets_hold N st.1)).
  2:{ by apply cur_sets_hold. }
  intros st i Hi Hst. apply elem_of_seq in Hi. unfold check_order_token.
  assert (forall p ids set st, Forall (fun s => 0 <= s < N) ids -> (forall s, s ∈ ids -> s ∈ set) ->
    sets_hold N st.1 -> only not_incompatible (foldM (check_order_seq set p) st ids) /\
    forall st', foldM (check_order_seq set p) st ids = Ok st' -> sets_hold N st'.1) as Hin.
  { clear. intros p ids set. induction ids as [|s ids IH]; intros [cs cp] Hr Hset Hst.
    { split; [done|]. by intros st' [= <-]. }
    apply Forall_cons in Hr as [Hs Hr]. destruct (Hst s Hs) as (X & HX & HsX). cbn [foldM fst] in *.
    assert (s ∈ set) as Hss by (apply Hset; left).
    destruct (check_order_step set p cs cp s X HX HsX Hss) as [(e & -> & He)| ->]; bind_simpl; [by split|].
    apply IH; [done|intros t Ht; apply Hset; by right|]. intros t Ht. cbn [fst].
    destruct (decide (t = s)) as [->|Hne]; [|rewrite lookup_insert_ne by done; by apply Hst].
    rewrite lookup_insert_eq. eexists. split; [done|]. set_solver. }
  destruct (seq_ids b i) as [ids|e] eqn:Eids.
  - destruct (Hids i ids) as [Hr Hset]; [unfold n_of; lia|done|].
    rewrite (at_lookup _ _ _ Hset).
    destruct (Hin 0 ids (list_to_set ids) st Hr) as [_ _]; [intros; by apply elem_of_list_to_set|done|].
    destruct (ps ← deref (pos b); at_ ps i) as [p|e] eqn:Ep; bind_simpl.
    + apply Hin; [done| |done]. intros; by apply elem_of_list_to_set.
    + split; [|done]. assert (only not_incompatible (ps ← deref (pos b); at_ ps i)) as Ho by not_incompatible.
      by rewrite Ep in Ho.
  - pose proof (seq_ids_errors b i) as Ho. rewrite Eids in Ho.
    destruct (ps ← deref (pos b); at_ ps i) as [p|e'] eqn:Ep; bind_simpl; [by split|].
    split; [|done]. assert (only not_incompatible (ps ← deref (pos b); at_ ps i)) as Ho' by not_incompatible.
    by rewrite Ep in Ho'.
Qed.

(** In a completed batch, the ids of a token are in range and make its set. *)
Lemma completed_ids b memory N output_all b' ss :
  check_seq_ids b N = Ok tt -> 1 <= N -> complete b memory N output_all = Ok b' ->
  compute_seq_sets b' = Ok ss ->
  forall i, (i < n_of b')%nat -> exists ids, seq_ids b' i = Ok ids /\
    Forall (fun s => 0 <= s < N) ids /\ ss_set ss !! i = Some (list_to_set ids).
Proof.
  intros Hc HN Hb Hss i Hi. destruct (complete_inv _ _ _ _ _ Hb) as (En & _ & _ & E1 & E2 & _).
  destruct (seq_sets_spec _ _ Hss) as (_ & Hset & _). destruct (Hset i Hi) as (ids & Eids & Es).
  exists ids. split; [done|]. split; [|done].
  rewrite (seq_ids_ext _ _ _ E1 E2) in Eids. eapply check_seq_ids_spec; [done..| |done].
  unfold n_of in *. by rewrite <- En.
Qed.

Lemma init_errors a b vocab_n memory n_embd N output_all :
  1 <= N -> only not_incompatible (init a b vocab_n memory n_embd N output_all).
Proof.
  intros HN. unfold init.
  assert (forall u, only not_incompatible (check_tokens b u)) as H1 by (intros; unfold check_tokens; not_incompatible).
  assert (only not_incompatible (check_seq_ids b N)) as H2 by (unfold check_seq_ids; not_incompatible).
  assert (only not_incompatible (complete b memory N output_all)) as H3.
  { unfold complete, gen_pos, gen_logits, gen_p0, gen_pos_token, memory_pos_max, seq_first, seq_row.
    only_solve; try apply not_incompatible_undefined; try apply seq_ids_errors. }
  apply only_bind; [not_incompatible|intros ? _]. apply only_bind; [not_incompatible|intros ? HNmax].
  apply ensure_Ok in HNmax. apply only_bind; [done|intros ? _]. apply only_bind; [done|intros [] Hids].
  apply only_bind; [done|intros b' Hb].
  apply only_bind; [unfold count_outputs; not_incompatible|intros n_out _].
  apply only_bind; [|intros st _].
  { unfold couple, couple_token, seq_first, seq_row. only_solve; try apply not_incompatible_undefined; apply seq_ids_errors. }
  apply only_bind; [|intros ss Hss].
  { unfold compute_seq_sets, seq_sets_token. only_solve. apply seq_ids_errors. }
  destruct (index_seqs (ss_unq ss) N) as [idx unq].
  apply only_bind; [unfold check_positions, check_pos_mrope, check_pos_1d, last_pos, memory_pos_max; not_incompatible|intros ? _].
  apply only_bind; [unfold check_coupled, memory_pos_max, memory_pos_min; not_incompatible|intros ? _].
  apply only_bind; [|done]. apply check_order_errors; [lia|]. intros i ids Hi Eids.
  destruct (completed_ids _ _ _ _ _ _ Hids HN Hb Hss i Hi) as (ids' & E & Hr & Hs).
  rewrite Eids in E. by simplify_eq.
Qed.

(** ** What a successful [init] guarantees *)

Record accepted (vocab_n : Z) memory (N : Z) a : Prop := {
  ac_size : 0 < n_tokens (batch a) /\ N <= LLAMA_MAX_SEQ /\ n_seq_max a = N;
  ac_tokens : forall ts i, token (batch a) = Some ts -> (i < get_n_tokens a)%nat ->
    exists t, ts !! i = Some t /\ 0 <= t < vocab_n;
  ac_ids : forall i, (i < get_n_tokens a)%nat -> exists ids, seq_ids (batch a) i = Ok ids /\
    Forall (fun s => 0 <= s < N) ids /\ seq_set a !! i = Some (list_to_set ids);
  ac_positions : forall s p, p ∈ positions_of (seq_pos a) s <->
    exists i, (i < get_n_tokens a)%nat /\ in_seq (batch a) i s /\ pos_at (batch a) i = Some p;
  ac_consecutive : forall s, (n_pos_per_embd a <= 1)%nat -> 0 <= s < N -> positions_of (seq_pos a) s <> ∅ ->
    exists lo hi last, last_pos memory s = Ok last /\ (0 <= last -> lo = last + 1) /\
      lo <= hi /\ forall p, p ∈ positions_of (seq_pos a) s <-> lo <= p <= hi;
  ac_mrope : forall s p, (1 < n_pos_per_embd a)%nat -> 0 <= s < N -> p ∈ positions_of (seq_pos a) s ->
    exists last, last_pos memory s = Ok last /\
      (0 <= last -> if bool_decide (is_Some (token (batch a))) then last < p else last <= p);
  ac_coupled : forall m i s1 s0, memory = Some m -> (i < get_n_tokens a)%nat -> coupled (batch a) i s1 s0 ->
    mem_seq_pos_min m s1 = mem_seq_pos_min m s0 /\ mem_seq_pos_max m s1 = mem_seq_pos_max m s0;
  ac_order : forall i j s p q, (i < j)%nat -> (j < get_n_tokens a)%nat -> in_seq (batch a) i s ->
    in_seq (batch a) j s -> pos_at (batch a) i = Some p -> pos_at (batch a) j = Some q -> p <= q;
}.

Lemma pos_extrema sp s :
  positions_of sp s <> ∅ ->
  pos_min sp s ∈ positions_of sp s /\ pos_max sp s ∈ positions_of sp s /\
  forall p, p ∈ positions_of sp s -> pos_min sp s <= p <= pos_max sp s.
Proof.
  intros Hne. unfold pos_min, pos_max. assert (elements (positions_of sp s) <> []) as He.
  { intros E. apply Hne. by apply elements_empty_iff in E; apply leibniz_equiv in E. }
  destruct (list_min _) as [lo|] eqn:El; [|by apply list_min_None in El].
  destruct (list_max _) as [hi|] eqn:Eh; [|by apply list_max_None in Eh].
  apply list_min_Some in El as [El1 El2]. apply list_max_Some in Eh as [Eh1 Eh2]. simpl.
  rewrite elem_of_elements in El1, Eh1. split_and!; [done..|]. intros p Hp%elem_of_elements. auto.
Qed.

Lemma check_pos_1d_spec memory sp s :
  check_pos_1d memory sp s = Ok tt -> positions_of sp s <> ∅ ->
  exists lo hi last, last_pos memory s = Ok last /\ (0 <= last -> lo = last + 1) /\
    lo <= hi /\ forall p, p ∈ positions_of sp s <-> lo <= p <= hi.
Proof.
  intros Hc Hne. destruct (pos_extrema sp s Hne) as (Hlo & Hhi & Hb).
  unfold check_pos_1d in Hc. rewrite bool_decide_eq_false_2 in Hc by done. inv_ok Hc.
  exists (pos_min sp s), (pos_max sp s), x. split; [done|]. split; [|split].
  - intros Hge. replace (0 <=? x) with true in Hx0 by lia. destruct x0. inv_ok Hx0. lia.
  - specialize (Hb _ Hlo). lia.
  - intros p. split; [apply Hb|]. apply full_interval; [done|lia].
Qed.

Lemma check_pos_mrope_spec (has_token : bool) memory sp s p :
  check_pos_mrope has_token memory sp s = Ok tt -> p ∈ positions_of sp s ->
  exists last, last_pos memory s = Ok last /\ (0 <= last -> if has_token then last < p else last <= p).
Proof.
  intros Hc Hp. assert (positions_of sp s <> ∅) as Hne by set_solver.
  destruct (pos_extrema sp s Hne) as (_ & _ & Hb). specialize (Hb p Hp).
  unfold check_pos_mrope in Hc. rewrite bool_decide_eq_false_2 in Hc by done.
  apply bind_Ok in Hc as (last & El & Hc). exists last. split; [done|]. intros H0.
  destruct has_token; apply ensure_Ok in Hc; lia.
Qed.

Lemma check_coupled_spec m cpl N x y :
  check_coupled (Some m) cpl N = Ok tt -> (x, y) ∈ cpl -> 0 <= x < N -> 0 <= y < N ->
  mem_seq_pos_min m x = mem_seq_pos_min m y /\ mem_seq_pos_max m x = mem_seq_pos_max m y.
Proof.
  unfold check_coupled. intros Hc Hxy Hx Hy. apply foldM_checks in Hc. rewrite Forall_forall in Hc.
  specialize (Hc x). unfold n_seqs in Hc. rewrite elem_of_seqZ in Hc. specialize (Hc ltac:(lia)).
  apply foldM_checks in Hc. rewrite Forall_forall in Hc. specialize (Hc y). rewrite elem_of_seqZ in Hc.
  specialize (Hc ltac:(lia)). rewrite bool_decide_eq_true_2 in Hc by done.
  unfold memory_pos_min, memory_pos_max in Hc. inv_ok Hc.
  repeat match goal with H : (_ =? _) = true |- _ => apply Z.eqb_eq in H; subst end. split; congruence.
Qed.

(** The intermediate results of a successful [init]. *)
Record init_run a0 b vocab_n memory n_embd N output_all a b' n_out st ss : Prop := {
  ir_size : 0 < n_tokens b /\ N <= LLAMA_MAX_SEQ;
  ir_tokens : check_tokens b vocab_n = Ok tt;
  ir_ids : check_seq_ids b N = Ok tt;
  ir_complete : complete b memory N output_all = Ok b';
  ir_outputs : count_outputs b' = Ok n_out;
  ir_couple : couple b' = Ok st;
  ir_sets : compute_seq_sets b' = Ok ss;
  ir_positions : check_positions (n_pos_per_embd a0) b' memory (st_pos st) N = Ok tt;
  ir_coupled : check_coupled memory (st_cpl st) N = Ok tt;
  ir_order : check_order b' (ss_set ss) N = Ok tt;
  ir_result : a = split_reset (mk_allocr b' (n_pos_per_embd a0) n_embd N n_out
    (index_seqs (ss_unq ss) N).2 (index_seqs (ss_unq ss) N).1 (st_has_cpl st)
    (st_pos st) (st_cpl st) (ss_set ss) (ss_map ss) (out_ids a0) (n_used a0) (used a0))
}.

Lemma init_inv a0 b vocab_n memory n_embd N output_all a :
  init a0 b vocab_n memory n_embd N output_all = Ok a ->
  exists b' n_out st ss, init_run a0 b vocab_n memory n_embd N output_all a b' n_out st ss.
Proof.
  intros Hi. unfold init in Hi. cbn zeta in Hi.
  apply bind_Ok in Hi as ([] & H1 & Hi). apply bind_Ok in Hi as ([] & H2 & Hi).
  apply bind_Ok in Hi as ([] & H3 & Hi). apply bind_Ok in Hi as ([] & H4 & Hi).
  apply bind_Ok in Hi as (b' & H5 & Hi). apply bind_Ok in Hi as (n_out & H6 & Hi).
  apply bind_Ok in Hi as (st & H7 & Hi). apply bind_Ok in Hi as (ss & H8 & Hi).
  destruct (index_seqs (ss_unq ss) N) as [idx unq] eqn:Ei.
  apply bind_Ok in Hi as ([] & H9 & Hi). apply bind_Ok in Hi as ([] & H10 & Hi).
  apply bind_Ok in Hi as ([] & H11 & Hi). injection Hi as <-.
  apply ensure_Ok in H1, H2. exists b', n_out, st, ss. split; try done; [lia|]. by rewrite Ei.
Qed.

Lemma run_positions a0 b vocab_n memory n_embd N output_all a b' n_out st ss s :
  init_run a0 b vocab_n memory n_embd N output_all a b' n_out st ss -> 0 <= s < N ->
  (if (1 <? n_pos_per_embd a0)%nat then check_pos_mrope (bool_decide (is_Some (token b'))) memory (st_pos st) s
   else check_pos_1d memory (st_pos st) s) = Ok tt.
Proof.
  intros HR Hs. pose proof (ir_positions _ _ _ _ _ _ _ _ _ _ _ _ HR) as Hp. unfold check_positions in Hp.
  apply foldM_checks in Hp. rewrite Forall_forall in Hp. apply Hp, elem_of_seqZ. lia.
Qed.

Lemma init_accepts a0 b vocab_n memory n_embd N output_all a :
  1 <= N -> init a0 b vocab_n memory n_embd N output_all = Ok a -> accepted vocab_n memory N a.
Proof.
  intros HN Hi. apply init_inv in Hi as (b' & n_out & st & ss & HR).
  pose proof (fun s => run_positions _ _ _ _ _ _ _ _ _ _ _ _ s HR) as Hpos.
  destruct HR as [[Hn HNmax] Htok Hids Hb Hout Hc Hss _ Hcpl Hord ->].
  destruct (complete_inv _ _ _ _ _ Hb) as (En & Et & _ & _ & _ & _).
  destruct (couple_spec _ _ Hc) as (_ & Cpos & Ccpl & _).
  pose proof (completed_ids _ _ _ _ _ _ Hids HN Hb Hss) as Hc_ids.
  split; cbn [split_reset with_used batch n_seq_max seq_set seq_pos n_pos_per_embd].
  - split_and!; [by rewrite En|done..].
  - intros ts i Hts Hin. rewrite Et in Hts. unfold check_tokens in Htok. rewrite Hts in Htok.
    apply foldM_checks in Htok. rewrite Forall_forall in Htok. assert (i ∈ tokens_of b) as Hit.
    { apply elem_of_seq. unfold get_n_tokens in Hin. simpl in Hin. rewrite En in Hin. lia. }
    destruct (bind_Ok _ _ _ (Htok i Hit)) as (t & Ht & Hr). apply at_Ok in Ht. apply ensure_Ok in Hr. exists t. split; [done|lia].
  - exact Hc_ids.
  - exact Cpos.
  - intros s Hn1 Hs Hne. specialize (Hpos s Hs). destruct (Nat.ltb_spec 1 (n_pos_per_embd a0)); [lia|].
    by apply check_pos_1d_spec.
  - intros s p Hn1 Hs Hp. specialize (Hpos s Hs). destruct (Nat.ltb_spec 1 (n_pos_per_embd a0)); [|lia].
    by apply (check_pos_mrope_spec _ _ _ _ _ Hpos).
  - intros m i s1 s0 -> Hlt Hcp. apply (check_coupled_spec m (st_cpl st) N); [done|apply Ccpl; by exists i| |].
    + destruct (Hc_ids i Hlt) as (ids & E & Hr & _). destruct Hcp as (ids' & k & E' & _ & Hk & _).
      rewrite E in E'. simplify_eq. by eapply Forall_lookup_1 in Hr.
    + destruct (Hc_ids i Hlt) as (ids & E & Hr & _). destruct Hcp as (ids' & k & E' & Hf & Hk & H0).
      rewrite E in E'. simplify_eq. apply (Forall_lookup_1 _ ids' 0%nat _ Hr).
      clear - E Hf Hk. unfold seq_ids, seq_first in *. inv_ok E. inv_ok Hf.
      apply mapM_Ok in E. apply lookup_lt_Some in Hk as Hlt.
      destruct (lookup_lt_is_Some_2 ids' 0%nat) as [t Ht]; [lia|].
      destruct (Forall2_lookup_r _ _ _ 0%nat t E Ht) as (k0 & [-> _]%lookup_seq & Hk0). apply at_Ok in Hk0.
      rewrite Ht. simpl in Hk0. congruence.
  - exact (check_order_spec _ _ _ Hord).
Qed.

(** ** Accepted batches can be split *)

(** What [init] relies on without checking: every token has a sequence, and the
    embeddings and the positions of an embedding batch fill their buffers. *)
Record caller_ok b (n_pos n_embd : nat) : Prop := {
  ca_n_seq_id : forall ns i k, n_seq_id b = Some ns -> ns !! i = Some k -> 1 <= k;
  ca_embd : forall es, embd b = Some es -> (n_of b * n_embd <= length es)%nat;
  ca_pos : token b = None -> (n_pos <= 1)%nat \/
    exists ps, pos b = Some ps /\ (n_pos * n_of b <= length ps)%nat
}.

Lemma seq_ids_nonempty b i ids :
  (forall ns i k, n_seq_id b = Some ns -> ns !! i = Some k -> 1 <= k) ->
  seq_ids (with_ids b) i = Ok ids -> ids <> [].
Proof.
  intros Hns E. destruct (seq_ids_length _ _ _ E) as (ns & n & En & Hn & Hl).
  assert (1 <= n).
  { unfold with_ids, gen_seq_id, gen_n_seq_id in En. destruct (n_seq_id b) as [ns'|] eqn:E'.
    - eapply Hns; [done|]. destruct (seq_id b); simpl in En; rewrite ?E' in En; by simplify_eq.
    - cbn [seq_id with_n_seq_id] in En. destruct (seq_id b); simpl in En; simplify_eq;
        apply lookup_replicate in Hn as [-> _]; lia. }
  intros ->. simpl in Hl. lia.
Qed.

Lemma count_outputs_spec b n :
  count_outputs b = Ok n -> 0 < n_tokens b -> exists ls, logits b = Some ls /\ (n_of b <= length ls)%nat.
Proof.
  unfold count_outputs. intros E Hn.
  refine (for_inv (fun n _ => (0 < n)%nat -> exists ls, logits b = Some ls /\ (n <= length ls)%nat)
    _ _ _ _ _ _ E _); [|lia|unfold n_of; lia].
  clear. intros i s1 s2 _ _ E _. inv_ok E. exists x. split; [done|]. by apply lookup_lt_Some in Hx0.
Qed.

Lemma init_indexed a0 b vocab_n memory n_embd N output_all a :
  1 <= N -> init a0 b vocab_n memory n_embd N output_all = Ok a ->
  caller_ok b (n_pos_per_embd a0) n_embd -> indexed a.
Proof.
  intros HN Hi [Hns _ _]. pose proof (init_accepts _ _ _ _ _ _ _ _ HN Hi) as HA.
  apply init_inv in Hi as (b' & n_out & st & ss & [[Hn HNmax] _ _ Hb _ Hc Hss _ _ _ ->]).
  destruct (complete_inv _ _ _ _ _ Hb) as (_ & _ & _ & E1 & E2 & _).
  destruct (seq_sets_spec _ _ Hss) as (S1 & S2 & S3). destruct (couple_spec _ _ Hc) as (C0 & _).
  split; cbn [split_reset with_used seq_set seq_set_map batch]; change (get_n_tokens _) with (n_of b').
  - done.
  - intros S HS. specialize (S3 S). unfold tokens_with. cbn [seq_set split_reset with_used].
    change (get_n_tokens _) with (n_of b'). rewrite <- S3.
    destruct (ss_map ss !! S) as [l|]; [done|]. exfalso. simpl in S3.
    apply list_elem_of_lookup in HS as [i Hi]. apply lookup_lt_Some in Hi as Hlt. rewrite S1 in Hlt.
    apply (filter_nil_not_elem_of _ _ i (eq_sym S3) Hi). apply elem_of_seq. lia.
  - intros S [i Hi]%list_elem_of_lookup. apply lookup_lt_Some in Hi as Hlt. rewrite S1 in Hlt.
    destruct (S2 i Hlt) as (ids & E & Hids). rewrite Hi in Hids. simplify_eq.
    rewrite (seq_ids_ext _ _ _ E1 E2) in E. apply (seq_ids_nonempty _ _ _ Hns) in E.
    destruct ids as [|s ids]; [done|]. simpl. set_solver.
  - intros i Hi. destruct (C0 i Hi) as (p & s0 & _ & E). by exists s0.
Qed.

Lemma init_readable a0 b vocab_n memory n_embd N output_all a :
  1 <= N -> init a0 b vocab_n memory n_embd N output_all = Ok a ->
  caller_ok b (n_pos_per_embd a0) n_embd -> readable a.
Proof.
  intros HN Hi [_ Hembd Hpos]. pose proof (init_accepts _ _ _ _ _ _ _ _ HN Hi) as HA.
  pose proof (ac_ids _ _ _ _ HA) as Hids. pose proof (ac_tokens _ _ _ _ HA) as Htok.
  apply init_inv in Hi as (b' & n_out & st & ss & [[Hn HNmax] _ _ Hb Hout Hc Hss _ _ _ ->]).
  destruct (complete_inv _ _ _ _ _ Hb) as (En & Et & Ee & _ & _ & Ep). destruct (couple_spec _ _ Hc) as (C0 & _).
  assert (n_of b' = n_of b) as Hnn by (unfold n_of; by rewrite En).
  split; cbn [split_reset with_used Batch.n_embd n_pos_per_embd n_seq_max batch] in *;
    change (get_n_tokens _) with (n_of b') in *; change (Batch.n_embd _) with n_embd;
    change (Batch.n_pos_per_embd _) with (n_pos_per_embd a0); change (Batch.batch _) with b' in *.
  - intros ts Hts. destruct (decide (n_of b' = 0%nat)) as [->|Hn0]; [lia|].
    destruct (Htok ts (n_of b' - 1)%nat Hts) as (t & Ht & _); [lia|]. apply lookup_lt_Some in Ht. lia.
  - intros es Hes. rewrite Hnn. apply Hembd. by rewrite <- Ee.
  - destruct (C0 0%nat) as (p & _ & Hp & _); [unfold n_of; rewrite En; lia|].
    unfold pos_at in Hp. destruct (pos b') as [ps|] eqn:Eps; [|done]. exists ps. split; [done|].
    assert (n_of b' <= length ps)%nat as Hlen.
    { destruct (C0 (n_of b' - 1)%nat) as (q & _ & Hq & _); [unfold n_of; rewrite En; lia|].
      unfold pos_at in Hq. rewrite Eps in Hq. simpl in Hq. apply lookup_lt_Some in Hq. lia. }
    intros i j Hi Hj. unfold src_off. rewrite Et. destruct (token b) eqn:Etok; [simpl; lia|].
    destruct (Hpos eq_refl) as [H1|(ps' & Hps & Hl)].
    + assert (j = 0%nat) as -> by lia. lia.
    + specialize (Ep _ Hps). simplify_eq. fold (n_of b'). rewrite Hnn in *. nia.
  - destruct (Hids 0%nat) as (ids & E & _); [unfold n_of; rewrite En; lia|].
    destruct (seq_ids_length _ _ _ E) as (ns & k & Ens & _). exists ns. split; [done|].
    destruct (Hids (n_of b' - 1)%nat) as (ids' & E' & _); [unfold n_of; rewrite En; lia|].
    destruct (seq_ids_length _ _ _ E') as (ns' & k' & Ens' & Hk' & _). rewrite Ens in Ens'. simplify_eq.
    apply lookup_lt_Some in Hk'. lia.
  - apply (count_outputs_spec _ _ Hout). rewrite En. lia.
  - intros i Hi. destruct (Hids i Hi) as (ids & E & Hr & _). by exists ids.
  - done.
Qed.
End Init.

(** ** Examples *)

(** Five tokens of three sequences, without positions and outputs. *)
Definition example_batch : llama_batch Z :=
  mk_batch 5 (Some [11; 12; 13; 14; 15]) None None (Some [1; 1; 1; 1; 1])
    (Some [[1]; [0]; [1]; [2]; [1]]) None.
Definition example_run : R (llama_batch_allocr Z) :=
  init (llama_batch_allocr_init 1) example_batch 100 (Some example_memory) 0 4 false.
Definition example_allocr : llama_batch_allocr Z :=
  match example_run with Ok a => a | Error _ => llama_batch_allocr_init 1 end.

Lemma example_run_ok : example_run = Ok example_allocr.
Proof. by vm_compute. Qed.

Lemma example_caller_ok : caller_ok example_batch 1 0.
Proof.
  split; [|done|done]. intros ns i k [= <-] Hk. change [1; 1; 1; 1; 1] with (replicate 5 1) in Hk.
  apply lookup_replicate in Hk as [-> _]. lia.
Qed.

(** The comment of [init] gives the batch of sequence sets {0,1,2}, {0,1}, {1,2}
    as invalid ("partial sequence sub-sets"); it is accepted. *)
Example comment_example_accepted :
  is_ok (init (llama_batch_allocr_init 1)
    (mk_batch 3 (Some [11; 12; 13]) None (Some [0; 1; 1]) (Some [3; 2; 2])
      (Some [[0; 1; 2]; [0; 1]; [1; 2]]) None : llama_batch Z)
    100 (None : option llama_kv_cache) 0 4 false) = true.
Proof. by vm_compute. Qed.

(** Tokens without a sequence ([n_seq_id[i] == 0]) are accepted, and an equal split
    then takes the same token several times. *)
Example no_sequence_duplicates :
  (a ← init (llama_batch_allocr_init 1)
     (mk_batch 2 (Some [11; 12]) None (Some [0; 1]) (Some [0; 0]) (Some [[0]; [0]]) None : llama_batch Z)
     100 (None : option llama_kv_cache) 0 4 false;
   r ← split_equal a 4 false 0; Ok (u_token r.2)) = Ok (Some [11; 12; 11; 12]).
Proof. by vm_compute. Qed.

(** Embeddings without positions on a model with several positions per embedding:
    [init] generates one position per token and the ubatch reads past them. *)
Example mrope_without_positions :
  (a ← init (llama_batch_allocr_init 2)
     (mk_batch 2 None (Some [1; 2]) None None None None : llama_batch Z)
     100 (None : option llama_kv_cache) 1 1 false;
   split_simple a 2) = Error Undefined.
Proof. by vm_compute. Qed.

(** An equal split into ubatches of one token returns two, one per sequence. *)
Example equal_split_exceeds :
  (a ← example_run; r ← split_equal a 1 false 0; Ok (u_n_tokens r.2)) = Ok 2%nat.
Proof. by vm_compute. Qed.

(** ** Properties *)

(** C6: a batch that [init] accepts is consistent. Every token is in the
    vocabulary and every sequence id below [n_seq_max]; the sequence sets, the
    per-sequence position sets and the couplings are those of the tokens; with
    one position per token the positions of a sequence are an interval that
    continues the memory, with several they do not go back behind it; coupled
    sequences agree in the memory; and positions never decrease in a sequence. *)
Theorem batch_init_accepts {float M : Type} `{MemoryOps M} (a0 a : llama_batch_allocr float)
    b vocab_n (memory : option M) n_embd N output_all :
  1 <= N -> init a0 b vocab_n memory n_embd N output_all = Ok a -> accepted vocab_n memory N a.
Proof. apply init_accepts. Qed.

Lemma batch_init_accepts_witness : accepted 100 (Some example_memory) 4 example_allocr.
Proof. eapply batch_init_accepts; [|exact example_run_ok]. lia. Defined.

(** C7: splitting an accepted batch loses and repeats nothing. With any of the
    three splits, repeated until it returns an empty ubatch, the loop ends, every
    token is in exactly one ubatch, every ubatch holds its tokens' data (ids,
    embeddings, positions, outputs, sequence ids and their index), the allocator
    has used all tokens, and the output ids are the output tokens in that order. *)
Theorem batch_split_partition {float M : Type} `{MemoryOps M} (a0 a : llama_batch_allocr float)
    b vocab_n (memory : option M) n_embd N output_all m :
  1 <= N -> init a0 b vocab_n memory n_embd N output_all = Ok a ->
  caller_ok b (n_pos_per_embd a0) n_embd -> mode_ok m a ->
  exists a' idxss us, split_batch m a = Ok (a', Some us) /\
    concat idxss ≡ₚ List.seq 0 (get_n_tokens a) /\ Forall2 (gathers a) idxss us /\
    n_used a' = get_n_tokens a /\ out_ids a' = filter (fun i => is_output a i = true) (concat idxss).
Proof.
  intros HN Hi Hc Hm. apply split_batch_spec; [|by eapply init_readable|done].
  by eapply init_indexed.
Qed.

Lemma batch_split_partition_witness :
  exists a' idxss us, split_batch (Equal 4 true 2) example_allocr = Ok (a', Some us) /\
    concat idxss ≡ₚ List.seq 0 (get_n_tokens example_allocr) /\ Forall2 (gathers example_allocr) idxss us /\
    n_used a' = get_n_tokens example_allocr /\
    out_ids a' = filter (fun i => is_output example_allocr i = true) (concat idxss).
Proof.
  eapply batch_split_partition; [|exact example_run_ok|exact example_caller_ok|]; [lia|].
  split; [lia|]. split; [by right|by vm_compute].
Defined.

(** The check for "partial sequence sub-sets" never fires. The intersection it
    tests for a sequence always contains that sequence, so [init] never reports
    incompatible sequence sets, whatever the batch. *)
Theorem batch_never_incompatible {float M : Type} `{MemoryOps M} (a0 : llama_batch_allocr float)
    b vocab_n (memory : option M) n_embd N output_all s :
  1 <= N -> init a0 b vocab_n memory n_embd N output_all <> Error (Incompatible s).
Proof. intros HN E. pose proof (init_errors a0 b vocab_n memory n_embd N output_all HN) as Ho. rewrite E in Ho. by apply (Ho s). Qed.

Lemma batch_never_incompatible_witness :
  init (llama_batch_allocr_init 1)
    (mk_batch 3 (Some [11; 12; 13]) None (Some [0; 1; 1]) (Some [3; 2; 2])
      (Some [[0; 1; 2]; [0; 1]; [1; 2]]) None : llama_batch Z)
    100 (None : option llama_kv_cache) 0 4 false <> Error (Incompatible 1).
Proof. apply batch_never_incompatible. lia. Defined.

End BatchInit.
