(* ===== verification/BatchAuto.v ===== *)
(** A class of batches that [Batch.init] always accepts: tokens of one sequence
    each, in range, without positions. The positions it generates continue each
    sequence after the last position in the memory. *)

From S2P Require Import Prelude.
From S2P Require Import KvCells.
From S2P Require Import Memory.
From S2P Require Import Batch.
From S2P Require Import BatchSplit.
From S2P Require Import BatchInit.

Module BatchAuto.
Import Batch.
Import BatchSplit.
Import BatchInit.

(** The number of occurrences of [s] before index [i]. *)
Definition before (ids : list Z) (s : Z) (i : nat) : nat :=
  length (filter (fun t => t = s) (take i ids)).

Lemma before_S ids s i t :
  ids !! i = Some t -> before ids s (S i) = (before ids s i + if decide (t = s) then 1 else 0)%nat.
Proof.
  intros Ht. unfold before. rewrite (take_S_r _ _ _ Ht), filter_app, length_app, filter_cons, filter_nil.
  by case_decide.
Qed.

Lemma before_mono ids s i j : (i <= j)%nat -> (before ids s i <= before ids s j)%nat.
Proof.
  intros Hij. unfold before. replace j with (i + (j - i))%nat by lia.
  rewrite <- take_take_drop, filter_app, length_app. lia.
Qed.

Lemma before_le ids s i : (before ids s i <= i)%nat.
Proof. unfold before. etransitivity; [apply length_filter|]. rewrite length_take. lia. Qed.

(** Every rank below the number of occurrences is the rank of an occurrence. *)
Lemma before_onto ids s n k :
  (n <= length ids)%nat -> (k < before ids s n)%nat ->
  exists i, (i < n)%nat /\ ids !! i = Some s /\ before ids s i = k.
Proof.
  induction n as [|n IH]; intros Hn Hk; [unfold before in Hk; rewrite take_0 in Hk; simpl in Hk; lia|].
  destruct (lookup_lt_is_Some_2 ids n) as [t Ht]; [lia|]. rewrite (before_S _ _ _ _ Ht) in Hk.
  destruct (decide (k < before ids s n)%nat) as [Hlt|Hge].
  - destruct (IH ltac:(lia) Hlt) as (i & Hi & E). exists i. split; [lia|done].
  - case_decide as Hts; [|lia]. subst t. exists n. split_and!; [lia|done|lia].
Qed.

Section Auto.
Context {float M : Type} `{Memory M wf}.
Implicit Types b : llama_batch float.
Implicit Types memory : option M.

Variables (b : llama_batch float) (ids : list Z) (memory : option M) (N vocab_n : Z).

(** The position after the last one of [s] in the memory. *)
Definition start (s : Z) : Z :=
  match memory with None => 0 | Some m => default (-1) (mem_seq_pos_max m s) + 1 end.

(** One sequence per token, given or by default. *)
Definition one_seq_each : Prop :=
  n_seq_id b = None /\ seq_id b = None /\ ids = replicate (n_of b) 0 \/
  n_seq_id b = Some (replicate (n_of b) 1) /\ seq_id b = Some ((fun s => [s]) <$> ids).

Record auto_batch : Prop := {
  au_size : 0 < n_tokens b /\ 1 <= N <= LLAMA_MAX_SEQ /\ length ids = n_of b;
  au_ids : one_seq_each /\ Forall (fun s => 0 <= s < N) ids;
  au_tokens : forall ts, token b = Some ts ->
    (n_of b <= length ts)%nat /\ Forall (fun t => 0 <= t < vocab_n) ts;
  au_pos : pos b = None;
  au_logits : forall ls, logits b = Some ls -> (n_of b <= length ls)%nat;
  au_memory : forall m, memory = Some m -> wf N m;
  au_room : forall s, 0 <= s < N -> start s + n_tokens b < 2 ^ 31
}.
Hypothesis HA : auto_batch.

Lemma start_spec s : 0 <= s < N -> last_pos memory s = Ok (start s - 1) /\ 0 <= start s.
Proof.
  intros Hs. unfold last_pos, start, memory_pos_max. destruct memory as [m|] eqn:Em; [|split; [done|lia]].
  destruct (mem_positions N m s (au_memory HA m Em) Hs) as (lo & hi & _ & E & Hr). rewrite E. simpl.
  split; [f_equal; lia|]. lia.
Qed.

Lemma id_at i : (i < n_of b)%nat -> exists s, ids !! i = Some s /\ 0 <= s < N.
Proof.
  intros Hi. destruct (au_size HA) as (_ & _ & Hl). destruct (lookup_lt_is_Some_2 ids i) as [s Hs]; [lia|].
  exists s. split; [done|]. by apply (Forall_lookup_1 _ _ _ _ (proj2 (au_ids HA)) Hs).
Qed.

Lemma seq_ids_auto i s : ids !! i = Some s -> seq_ids (with_ids b) i = Ok [s] /\ seq_first (with_ids b) i = Ok s.
Proof.
  intros Hs. destruct (au_size HA) as (_ & _ & Hl). apply lookup_lt_Some in Hs as Hlt.
  assert (exists ns rows, n_seq_id (with_ids b) = Some ns /\ seq_id (with_ids b) = Some rows /\
    ns !! i = Some 1 /\ rows !! i = Some [s]) as (ns & rows & E1 & E2 & Hn & Hr).
  { unfold with_ids, gen_seq_id, gen_n_seq_id.
    destruct (proj1 (au_ids HA)) as [(En & Es & Eids)|(En & Es)]; rewrite En; simpl; rewrite Es; simpl.
    - do 2 eexists. split_and!; [done..| |]; [apply lookup_replicate; unfold n_of in *; split; [done|lia]|].
      rewrite Eids in Hs. apply lookup_replicate in Hs as [-> _]. apply lookup_replicate. unfold n_of in *. split; [done|lia].
    - exists (replicate (n_of b) 1), ((fun s => [s]) <$> ids). rewrite En. split_and!; [done..| |].
      + apply lookup_replicate. split; [done|lia].
      + by rewrite list_lookup_fmap, Hs. }
  unfold seq_ids, seq_first, seq_row. rewrite E1, E2. cbn [deref]. bind_simpl.
  rewrite (at_lookup _ _ _ Hn). bind_simpl. rewrite (at_lookup _ _ _ Hr). bind_simpl. done.
Qed.

Lemma check_tokens_auto : check_tokens b vocab_n = Ok tt.
Proof.
  unfold check_tokens. destruct (token b) as [ts|] eqn:E; [|done]. destruct (au_tokens HA ts E) as [Hl Ht].
  apply foldM_checks, Forall_forall. intros i Hi%elem_of_seq.
  destruct (lookup_lt_is_Some_2 ts i) as [t Hti]; [unfold n_of in Hl; lia|]. rewrite (at_lookup _ _ _ Hti). bind_simpl.
  apply ensure_Ok. pose proof (Forall_lookup_1 _ _ _ _ Ht Hti) as Hr. simpl in Hr. lia.
Qed.

Lemma check_seq_ids_auto : check_seq_ids b N = Ok tt.
Proof.
  unfold check_seq_ids. destruct (proj1 (au_ids HA)) as [(En & -> & Eids)|(En & Es)]; [done|]. rewrite Es, En.
  apply foldM_checks, Forall_forall. intros i Hi%elem_of_seq. cbn [deref]. bind_simpl.
  destruct (id_at i) as (s & Hs & Hr); [unfold n_of; lia|].
  rewrite (at_lookup _ _ 1) by (apply lookup_replicate; unfold n_of; split; [done|lia]). bind_simpl.
  simpl. rewrite (at_lookup _ _ [s]) by (by rewrite list_lookup_fmap, Hs). bind_simpl. simpl.
  replace ((0 <=? s) && (s <? N)) with true by lia. done.
Qed.

Lemma int_ok x : - 2 ^ 31 <= x < 2 ^ 31 -> int_ (E := batch_error) x = Ok x.
Proof. intros Hx. unfold int_. by rewrite (proj2 (in_i32_spec x)). Qed.

Lemma gen_p0_auto : exists p0, gen_p0 memory N = Ok p0 /\ forall s, 0 <= s < N -> p0 !! s = Some (start s).
Proof.
  destruct (foldM_total (fun pre p0 => forall s, s ∈ pre -> p0 !! s = Some (start s))
    (fun p0 s => match memory with
      | None => Ok (<[s := 0]> p0)
      | Some m => x ← memory_pos_max m s; y ← int_ (x + 1); Ok (<[s := y]> p0)
      end) (n_seqs N) (∅ : gmap Z Z)) as (p0 & E & Hp).
  - intros pre s p0 Hpre HI. assert (s ∈ n_seqs N) as Hs%elem_of_seqZ.
    { destruct Hpre as [k ->]. apply elem_of_app. left. apply elem_of_app. right. left. }
    destruct (start_spec s) as [El Hs0]; [lia|]. pose proof (au_room HA s) as Hroom.
    destruct (au_size HA) as (Hn & _). exists (<[s := start s]> p0). split.
    + destruct memory as [m|] eqn:Em; [|by unfold start in *; rewrite Em].
      simpl in El. rewrite El. bind_simpl. rewrite int_ok by lia. bind_simpl.
      by replace (start s - 1 + 1) with (start s) by lia.
    + intros t [Ht| ->%list_elem_of_singleton]%elem_of_app.
      * destruct (decide (t = s)) as [->|]; [by rewrite lookup_insert_eq|]. rewrite lookup_insert_ne by done. by apply HI.
      * by rewrite lookup_insert_eq.
  - by intros s Hs%elem_of_nil.
  - exists p0. split; [exact E|]. intros s Hs. apply Hp, elem_of_seqZ. lia.
Qed.

(** The position generated for token [i] of sequence [s]. *)
Definition auto_pos (i : nat) (s : Z) : Z := start s + Z.of_nat (before ids s i).

Lemma auto_pos_range i s : (i < n_of b)%nat -> 0 <= s < N -> 0 <= auto_pos i s < 2 ^ 31 - 1.
Proof.
  intros Hi Hs. pose proof (before_le ids s i). pose proof (au_room HA s Hs). destruct (start_spec s Hs).
  unfold auto_pos, n_of in *. lia.
Qed.

Lemma gen_pos_auto : exists ps, gen_pos (with_ids b) memory N = Ok (with_pos (with_ids b) (Some ps)) /\
  length ps = n_of b /\ forall i s, ids !! i = Some s -> ps !! i = Some (auto_pos i s).
Proof.
  destruct gen_p0_auto as (p0 & E0 & Hp0). destruct (au_size HA) as (Hn & HN & Hl).
  destruct (for_total (fun n st => length st.1 = n /\
      (forall i s, (i < n)%nat -> ids !! i = Some s -> st.1 !! i = Some (auto_pos i s)) /\
      forall s, 0 <= s < N -> st.2 !! s = Some (auto_pos n s))
    (gen_pos_token (with_ids b)) (n_of b) ([], p0)) as ([ps p1] & E & Hps & Hat & _).
  - intros i [ps p1] Hi (I1 & I2 & I3). cbn [fst snd] in *. destruct (id_at i Hi) as (s & Hs & Hr).
    destruct (seq_ids_auto i s Hs) as [Eids Ef]. pose proof (auto_pos_range i s Hi Hr).
    exists (ps ++ [auto_pos i s], <[s := auto_pos i s + 1]> p1). split.
    + unfold gen_pos_token. rewrite Ef. bind_simpl. rewrite I3 by done. cbn [deref]. bind_simpl.
      rewrite Eids. bind_simpl. cbn [foldM]. rewrite int_ok by lia. done.
    + cbn [fst snd]. split_and!.
      * rewrite length_app. simpl. lia.
      * intros j t Hj Ht. destruct (decide (j = i)) as [->|].
        -- rewrite lookup_app_r, <- I1, Nat.sub_diag by lia. rewrite <- I1 in *. by simplify_eq/=.
        -- apply lookup_app_l_Some, I2; [lia|done].
      * intros t Ht. unfold auto_pos. rewrite (before_S _ _ _ _ Hs). destruct (decide (s = t)) as [->|Hne].
        -- rewrite lookup_insert_eq. unfold auto_pos. f_equal. lia.
        -- rewrite lookup_insert_ne, I3 by done. unfold auto_pos. f_equal. lia.
  - cbn [fst snd]. split; [done|]. split; [intros; lia|]. intros s Hs. rewrite Hp0 by done.
    unfold auto_pos, before. rewrite take_0. simpl. f_equal. lia.
  - exists ps. split; [|split; [done|]].
    + assert (pos (with_ids b) = None /\ n_tokens (with_ids b) = n_tokens b) as [Ep Ent].
      { pose proof (au_pos HA). unfold with_ids, gen_seq_id, gen_n_seq_id.
        destruct (n_seq_id b), (seq_id b) eqn:Es; simpl; rewrite ?Es; simpl; by rewrite ?H1. }
      unfold gen_pos. rewrite Ep, E0. bind_simpl. unfold tokens_of. rewrite Ent. fold (n_of b).
      cbn [fst snd] in E. rewrite E. done.
    + intros i s Hs. apply Hat; [|done]. apply lookup_lt_Some in Hs. lia.
Qed.

(** The completed batch. *)
Record completed (b' : llama_batch float) : Prop := {
  co_size : n_tokens b' = n_tokens b;
  co_ids : forall i s, ids !! i = Some s -> seq_ids b' i = Ok [s] /\ seq_first b' i = Ok s;
  co_pos : forall i s, ids !! i = Some s -> pos_at b' i = Some (auto_pos i s);
  co_logits : exists ls, logits b' = Some ls /\ (n_of b <= length ls)%nat
}.

Lemma complete_auto output_all : exists b', complete b memory N output_all = Ok b' /\ completed b'.
Proof.
  destruct gen_pos_auto as (ps & E & Hps & Hat). unfold complete. fold (with_ids b). rewrite E. bind_simpl.
  set (b1 := with_pos (with_ids b) (Some ps)).
  assert (n_tokens b1 = n_tokens b /\ logits b1 = logits b) as [En El].
  { unfold b1, with_ids, gen_seq_id, gen_n_seq_id. destruct (n_seq_id b), (seq_id b) eqn:Es; simpl; rewrite ?Es; done. }
  assert (forall ls, (n_of b <= length ls)%nat -> completed (with_logits b1 (Some ls))) as Hlog.
  { intros ls Hls. split; [exact En| | |by exists ls].
    - intros i s Hs. by apply seq_ids_auto.
    - intros i s Hs. unfold pos_at. simpl. by apply Hat. }
  destruct (logits b) as [ls|] eqn:Eb.
  - pose proof (au_logits HA ls Eb) as Hls. unfold gen_logits. rewrite El.
    assert (completed b1) as Hb1.
    { destruct (Hlog ls Hls) as [C1 C2 C3 _]. split; [exact En|exact C2|exact C3|]. exists ls. by rewrite El. }
    destruct output_all; [|by exists b1].
    destruct (for_total (fun _ _ => True) (fun (warn : bool) i => x ← at_ (E := batch_error) ls i; Ok (warn || (x =? 0)))
      (n_of b1) false) as (w & Ew & _); [|done|].
    + intros i w Hi _. destruct (lookup_lt_is_Some_2 ls i) as [x Hx]; [unfold n_of in *; rewrite En in Hi; lia|].
      rewrite (at_lookup _ _ _ Hx). by eexists.
    + unfold tokens_of. fold (n_of b1). rewrite Ew. bind_simpl. destruct w; [|by exists b1].
      eexists. split; [done|]. apply Hlog. rewrite length_replicate. fold b1 in En. rewrite ?En. unfold n_of. rewrite ?En. done.
  - unfold gen_logits. rewrite El. eexists. split; [done|]. apply Hlog. rewrite En.
    destruct (au_size HA) as (Hn & _). unfold n_of. destruct output_all; rewrite ?length_app, !length_replicate; simpl; lia.
Qed.

Lemma runs_auto b' : completed b' ->
  (exists n, count_outputs b' = Ok n) /\ (exists st, couple b' = Ok st) /\ (exists ss, compute_seq_sets b' = Ok ss).
Proof.
  intros [Cn Ci Cp (ls & El & Hl)].
  assert (tokens_of b' = List.seq 0 (n_of b)) as Et by (unfold tokens_of; by rewrite Cn).
  unfold count_outputs, couple, compute_seq_sets. rewrite Et. split_and!.
  - destruct (for_total (fun _ _ => True) (fun n i => ls ← deref (E := batch_error) (logits b'); x ← at_ ls i;
      Ok (if x =? 0 then n else S n)) (n_of b) 0%nat) as (n & E & _); [|done|by exists n].
    intros i n Hi _. rewrite El. cbn [deref]. bind_simpl. destruct (lookup_lt_is_Some_2 ls i) as [x Hx]; [lia|].
    rewrite (at_lookup _ _ _ Hx). by eexists.
  - destruct (for_total (fun _ _ => True) (couple_token b') (n_of b) (mk_stats ∅ ∅ false)) as (st & E & _); [|done|by exists st].
    intros i st Hi _. destruct (id_at i Hi) as (s & Hs & _). destruct (Ci i s Hs) as [E1 E2]. pose proof (Cp i s Hs) as Hp.
    unfold couple_token. rewrite E2. bind_simpl. rewrite E1. bind_simpl. unfold pos_at in Hp.
    destruct (pos b') as [ps|]; [|done]. cbn [deref]. bind_simpl. simpl in Hp. rewrite (at_lookup _ _ _ Hp). by eexists.
  - destruct (for_total (fun _ _ => True) (seq_sets_token b') (n_of b) (mk_sets [] ∅ ∅)) as (ss & E & _); [|done|by exists ss].
    intros i ss Hi _. destruct (id_at i Hi) as (s & Hs & _). destruct (Ci i s Hs) as [E1 _].
    unfold seq_sets_token. rewrite E1. by eexists.
Qed.

(** The batch positions of a sequence are an interval that starts at [start s]. *)
Lemma positions_auto b' st s :
  completed b' -> couple b' = Ok st -> 0 <= s < N ->
  forall p, p ∈ positions_of (st_pos st) s <-> start s <= p < start s + Z.of_nat (before ids s (n_of b)).
Proof.
  intros [Cn Ci Cp _] Hc Hs p. destruct (couple_spec _ _ Hc) as (_ & C1 & _). rewrite C1.
  assert (n_of b' = n_of b) as -> by (unfold n_of; by rewrite Cn).
  destruct (au_size HA) as (_ & _ & Hl). split.
  - intros (i & Hi & (l & E & Hin) & Hp). destruct (id_at i Hi) as (t & Ht & _).
    destruct (Ci i t Ht) as [E1 _]. rewrite E in E1. simplify_eq. apply list_elem_of_singleton in Hin as ->.
    rewrite (Cp i t Ht) in Hp. simplify_eq. unfold auto_pos.
    pose proof (before_mono ids t (S i) (n_of b) ltac:(lia)) as Hm.
    rewrite (before_S _ _ _ _ Ht), decide_True in Hm by done. lia.
  - intros Hr. destruct (before_onto ids s (n_of b) (Z.to_nat (p - start s))) as (i & Hi & Hsi & Hb); [lia|lia|].
    exists i. destruct (Ci i s Hsi) as [E1 _]. split_and!; [done|exists [s]; split; [done|left]|].
    rewrite (Cp i s Hsi). unfold auto_pos. f_equal. lia.
Qed.

Lemma check_pos_auto b' st s (n_pos : nat) (has_token : bool) :
  completed b' -> couple b' = Ok st -> 0 <= s < N ->
  (if (1 <? n_pos)%nat then check_pos_mrope has_token memory (st_pos st) s
   else check_pos_1d memory (st_pos st) s) = Ok tt.
Proof.
  intros Hb Hc Hs. pose proof (positions_auto b' st s Hb Hc Hs) as HX.
  destruct (start_spec s Hs) as [El Hs0]. pose proof (au_room HA s Hs) as Hroom.
  pose proof (before_le ids s (n_of b)) as Hle. destruct (au_size HA) as (Hn & _).
  unfold check_pos_mrope, check_pos_1d.
  destruct (decide (positions_of (st_pos st) s = ∅)) as [He|Hne].
  { rewrite !bool_decide_eq_true_2 by done. by destruct (1 <? n_pos)%nat. }
  rewrite !bool_decide_eq_false_2 by done. rewrite El. bind_simpl.
  destruct (pos_extrema _ _ Hne) as (Hlo & Hhi & Hb'). apply HX in Hlo as Hlo'. apply HX in Hhi as Hhi'.
  assert (pos_min (st_pos st) s = start s) as ->.
  { specialize (Hb' (start s)). rewrite HX in Hb'. specialize (Hb' ltac:(lia)). lia. }
  destruct (1 <? n_pos)%nat.
  - replace (start s <=? start s - 1) with false by lia. replace (start s <? start s - 1) with false by lia.
    rewrite andb_false_r. by destruct has_token.
  - assert ((if 0 <=? start s - 1 then y ← int_ (start s - 1 + 1); ensure (start s =? y) (NotConsecutive s)
      else Ok tt) = Ok tt) as ->.
    { destruct (0 <=? start s - 1); [|done]. unfold n_of in *. rewrite int_ok by lia. bind_simpl.
      by replace (start s =? start s - 1 + 1) with true by lia. }
    bind_simpl. unfold n_of in *. rewrite int_ok by lia. bind_simpl. rewrite int_ok by lia. bind_simpl.
    apply ensure_Ok, Z.leb_le.
    assert (pos_max (st_pos st) s - start s + 1 <= Z.of_nat (base.size (list_to_set (seqZ (start s) (pos_max (st_pos st) s - start s + 1)) : gset Z))) as Hsz.
    { rewrite size_list_to_set by apply NoDup_seqZ. rewrite length_seqZ. lia. }
    etransitivity; [exact Hsz|]. apply inj_le, subseteq_size. intros p Hp%elem_of_list_to_set%elem_of_seqZ. apply HX. lia.
Qed.

Lemma no_coupling b' st : completed b' -> couple b' = Ok st -> st_cpl st = ∅ /\ st_has_cpl st = false.
Proof.
  intros [Cn Ci Cp _] Hc. destruct (couple_spec _ _ Hc) as (_ & _ & C2 & C3).
  assert (forall i x y, (i < n_of b')%nat -> ~ coupled b' i x y) as Hno.
  { intros i x y Hi (l & k & E & _ & Hk & Hk0). destruct (id_at i) as (s & Hs & _); [unfold n_of in *; by rewrite <- Cn|].
    destruct (Ci i s Hs) as [E1 _]. rewrite E in E1. simplify_eq. by destruct k as [|k]; [lia|]. }
  split.
  - apply set_eq. intros [x y]. rewrite C2. split; [intros (i & Hi & Hcp); exfalso; by apply (Hno i x y)|set_solver].
  - destruct (st_has_cpl st) eqn:E; [|done]. exfalso. destruct (proj1 C3 eq_refl) as (i & x & y & Hi & Hcp). by apply (Hno i x y).
Qed.

Lemma check_order_auto b' ss : completed b' -> compute_seq_sets b' = Ok ss -> check_order b' (ss_set ss) N = Ok tt.
Proof.
  intros [Cn Ci Cp _] Hss. destruct (seq_sets_spec _ _ Hss) as (_ & Hset & _). destruct (au_size HA) as (Hn & HN & _).
  assert (tokens_of b' = List.seq 0 (n_of b)) as Et by (unfold tokens_of; by rewrite Cn).
  unfold check_order. rewrite Et.
  destruct (for_total (fun n st => sets_hold N st.1 /\
      forall s, 0 <= s < N -> exists q, st.2 !! s = Some q /\ q < auto_pos n s)
    (check_order_token b' (ss_set ss)) (n_of b) (cur_sets_init N, cur_pos_init N)) as (st & E & _).
  - intros i [cs cp] Hi [I1 I2]. cbn [fst snd] in *. destruct (id_at i Hi) as (s & Hs & Hr).
    destruct (Ci i s Hs) as [E1 _]. pose proof (Cp i s Hs) as Hp. destruct (Hset i) as (l & El & Hl); [unfold n_of in *; by rewrite Cn|].
    rewrite E1 in El. injection El as <-. destruct (I2 s Hr) as (q & Hq & Hlt). destruct (I1 s Hr) as (X & HX & HsX).
    unfold check_order_token. unfold pos_at in Hp. destruct (pos b') as [ps|]; [|done]. cbn [deref]. bind_simpl.
    simpl in Hp. rewrite (at_lookup _ _ _ Hp). bind_simpl. rewrite E1. bind_simpl. rewrite (at_lookup _ _ _ Hl). bind_simpl.
    cbn [foldM]. unfold check_order_seq. rewrite HX. simpl default.
    rewrite bool_decide_eq_false_2 by set_solver. cbn [negb ensure]. bind_simpl. rewrite Hq. cbn [deref]. bind_simpl.
    replace (q <=? auto_pos i s) with true by lia. cbn [ensure]. bind_simpl. eexists. split; [done|]. cbn [fst snd]. split.
    + intros t Ht. destruct (decide (t = s)) as [->|Hne]; [|rewrite lookup_insert_ne by done; by apply I1].
      rewrite lookup_insert_eq. eexists. split; [done|]. set_solver.
    + intros t Ht. unfold auto_pos. rewrite (before_S _ _ _ _ Hs). destruct (decide (s = t)) as [->|Hne].
      * rewrite lookup_insert_eq. eexists. split; [done|]. unfold auto_pos. lia.
      * rewrite lookup_insert_ne by done. destruct (I2 t Ht) as (q' & Hq' & Hlt'). exists q'. split; [done|].
        unfold auto_pos in Hlt'. lia.
  - cbn [fst snd]. split; [intros s Hs; apply cur_sets_hold; lia|]. intros s Hs. exists (-1). split.
    + apply elem_of_list_to_map; [|apply list_elem_of_fmap; exists s; split; [done|apply elem_of_seqZ; lia]].
      rewrite <- list_fmap_compose. unfold compose. simpl. rewrite list_fmap_id. apply NoDup_seqZ.
    + destruct (start_spec s Hs). unfold auto_pos. lia.
  - rewrite E. done.
Qed.

Lemma init_auto a0 n_embd output_all :
  exists a, init a0 b vocab_n memory n_embd N output_all = Ok a /\ completed (batch a) /\ has_cpl a = false.
Proof.
  destruct (complete_auto output_all) as (b' & Eb & Hb). destruct (runs_auto b' Hb) as ((n & En) & (st & Est) & (ss & Ess)).
  destruct (no_coupling b' st Hb Est) as [Hcpl Hhas]. destruct (au_size HA) as (Hn & HN & _).
  unfold init. cbn zeta. replace (0 <? n_tokens b) with true by lia. replace (N <=? LLAMA_MAX_SEQ) with true by lia.
  cbn [ensure]. bind_simpl. rewrite check_tokens_auto. bind_simpl. rewrite check_seq_ids_auto. bind_simpl.
  rewrite Eb. bind_simpl. rewrite En. bind_simpl. rewrite Est. bind_simpl. rewrite Ess. bind_simpl.
  destruct (index_seqs (ss_unq ss) N) as [idx unq].
  assert (check_positions (n_pos_per_embd (clear a0)) b' memory (st_pos st) N = Ok tt) as ->.
  { unfold check_positions. apply foldM_checks, Forall_forall. intros s Hs%elem_of_seqZ.
    apply (check_pos_auto b' st); [done..|lia]. }
  bind_simpl.
  assert (check_coupled memory (st_cpl st) N = Ok tt) as ->.
  { unfold check_coupled. destruct memory as [m|]; [|done]. apply foldM_checks, Forall_forall. intros x _.
    apply foldM_checks, Forall_forall. intros y _. rewrite bool_decide_eq_false_2; [done|]. rewrite Hcpl. set_solver. }
  bind_simpl. rewrite (check_order_auto b' ss Hb Ess). bind_simpl. eexists. split; [done|]. by split.
Qed.
End Auto.

(** ** Properties *)

(** A batch of in-range tokens of one sequence each, without positions, is
    always accepted, and the position of a token is the number of earlier tokens
    of its sequence after the last position of the sequence in the memory. *)
Theorem batch_auto_positions {float M : Type} `{Memory M wf} (a0 : llama_batch_allocr float)
    b ids (memory : option M) N vocab_n n_embd output_all :
  auto_batch (wf := wf) b ids memory N vocab_n ->
  exists a, init a0 b vocab_n memory n_embd N output_all = Ok a /\ has_cpl a = false /\
    forall i s, ids !! i = Some s ->
      pos_at (batch a) i = Some (start memory s + Z.of_nat (before ids s i)).
Proof.
  intros HA. destruct (init_auto b ids memory N vocab_n HA a0 n_embd output_all) as (a & E & Hc & Hh).
  exists a. split; [done|]. split; [done|]. intros i s Hs. by apply (co_pos _ _ _ _ Hc).
Qed.

Lemma batch_auto_positions_witness :
  exists a, init (llama_batch_allocr_init 1) example_batch 100 (Some example_memory) 0 4 false = Ok a /\
    has_cpl a = false /\
    forall i s, [1; 0; 1; 2; 1] !! i = Some s ->
      pos_at (batch a) i = Some (start (Some example_memory) s + Z.of_nat (before [1; 0; 1; 2; 1] s i)).
Proof.
  apply (batch_auto_positions (wf := cache_wf)). split.
  - split; [by vm_compute|]. split; [split; by vm_compute|done].
  - split; [by right|]. repeat constructor; by vm_compute.
  - intros ts [= <-]. split; [done|]. repeat constructor; by vm_compute.
  - done.
  - done.
  - intros m [= <-]. apply example_memory_wf.
  - intros s Hs. assert (s = 0 \/ s = 1 \/ s = 2 \/ s = 3) as [-> |[-> |[-> | ->]]] by lia; by vm_compute.
Defined.

End BatchAuto.
