(* ===== verification/Unicode.v ===== *)
(** UTF-8 as src/common/unicode.cpp reads and writes it: the length of a
    sequence from its first byte, the decoder of one code point that tells
    invalid input from input that may still be completed, the test for a complete
    last sequence, and the encoder.

    A byte is a [Z] in [0, 256): the code masks (possibly signed) characters with
    constants below 256, which gives the same bits. *)

From S2P Require Import Prelude.

Module Unicode.

(** [utf8_parse_result]: a code point and the number of bytes it takes, or not. *)
Inductive utf8_parse_result :=
| SUCCESS (codepoint : Z) (bytes_consumed : nat)
| INCOMPLETE
| INVALID.

Definition common_utf8_sequence_length (first_byte : Z) : Z :=
  let lookup := [1; 1; 1; 1; 1; 1; 1; 1; 1; 1; 1; 1; 2; 2; 3; 4] in
  default 0 (lookup !! Z.to_nat (Z.shiftr first_byte 4)).

Definition is_continuation (b : Z) : bool := Z.land b 0xc0 =? 0x80.

(** [input[offset]], known to be in range. *)
Definition byte_at (input : list Z) (offset : nat) : Z := default 0 (input !! offset).

Definition common_parse_utf8_codepoint (input : list Z) (offset : nat) : utf8_parse_result :=
  let n := length input in
  let b0 := byte_at input offset in
  let b1 := byte_at input (offset + 1) in
  let b2 := byte_at input (offset + 2) in
  let b3 := byte_at input (offset + 3) in
  if (n <=? offset)%nat then INCOMPLETE else
  if Z.land b0 0x80 =? 0 then SUCCESS b0 1 else
  if Z.land b0 0x40 =? 0 then INVALID else
  if Z.land b0 0x20 =? 0 then
    if (n <=? offset + 1)%nat then INCOMPLETE else
    if negb (is_continuation b1) then INVALID else
    SUCCESS (Z.lor (Z.shiftl (Z.land b0 0x1f) 6) (Z.land b1 0x3f)) 2
  else if Z.land b0 0x10 =? 0 then
    if (n <=? offset + 2)%nat then INCOMPLETE else
    if negb (is_continuation b1) || negb (is_continuation b2) then INVALID else
    SUCCESS (Z.lor (Z.lor (Z.shiftl (Z.land b0 0x0f) 12) (Z.shiftl (Z.land b1 0x3f) 6)) (Z.land b2 0x3f)) 3
  else if Z.land b0 0x08 =? 0 then
    if (n <=? offset + 3)%nat then INCOMPLETE else
    if negb (is_continuation b1) || negb (is_continuation b2) || negb (is_continuation b3) then INVALID else
    SUCCESS (Z.lor (Z.lor (Z.lor (Z.shiftl (Z.land b0 0x07) 18) (Z.shiftl (Z.land b1 0x3f) 12))
      (Z.shiftl (Z.land b2 0x3f) 6)) (Z.land b3 0x3f)) 4
  else INVALID.

(** The loop over the last [i] bytes, [i] from 1 to [min(4, size)]. *)
Definition expected_length (c : Z) : nat :=
  if 0xf0 <=? c then 4 else if 0xe0 <=? c then 3 else if 0xc0 <=? c then 2 else 1.

Fixpoint is_complete_loop (s : list Z) (is_ : list nat) : bool :=
  match is_ with
  | [] => false
  | i :: is_ =>
      let c := byte_at s (length s - i) in
      if negb (Z.land c 0xc0 =? 0x80) then (expected_length c <=? i)%nat else is_complete_loop s is_
  end.

Definition common_utf8_is_complete (s : list Z) : bool :=
  match s with [] => true | _ => is_complete_loop s (List.seq 1 (Nat.min 4 (length s))) end.

(** [None] is the exception for an invalid code point. *)
Definition common_unicode_cpt_to_utf8 (cpt : Z) : option (list Z) :=
  if cpt <=? 0x7f then Some [cpt] else
  if (0x80 <=? cpt) && (cpt <=? 0x7ff) then
    Some [Z.lor 0xc0 (Z.land (Z.shiftr cpt 6) 0x1f); Z.lor 0x80 (Z.land cpt 0x3f)] else
  if (0x800 <=? cpt) && (cpt <=? 0xffff) then
    Some [Z.lor 0xe0 (Z.land (Z.shiftr cpt 12) 0x0f); Z.lor 0x80 (Z.land (Z.shiftr cpt 6) 0x3f);
          Z.lor 0x80 (Z.land cpt 0x3f)] else
  if (0x10000 <=? cpt) && (cpt <=? 0x10ffff) then
    Some [Z.lor 0xf0 (Z.land (Z.shiftr cpt 18) 0x07); Z.lor 0x80 (Z.land (Z.shiftr cpt 12) 0x3f);
          Z.lor 0x80 (Z.land (Z.shiftr cpt 6) 0x3f); Z.lor 0x80 (Z.land cpt 0x3f)]
  else None.

Definition common_unicode_cpts_to_utf8 (cps : list Z) : option (list Z) :=
  foldM (fun r cpt => s ← common_unicode_cpt_to_utf8 cpt; Some (r ++ s)) [] cps.

(** ** Bytes of an encoding *)

(** The encodings by ranges, with arithmetic instead of bits. *)
Definition enc (c : Z) : list Z :=
  if c <? 0x80 then [c]
  else if c <? 0x800 then [192 + c / 64; 128 + c mod 64]
  else if c <? 0x10000 then [224 + c / 4096; 128 + c / 64 mod 64; 128 + c mod 64]
  else [240 + c / 2 ^ 18; 128 + c / 4096 mod 64; 128 + c / 64 mod 64; 128 + c mod 64].

Lemma cont_byte x : 0 <= x < 64 ->
  Z.lor 0x80 x = 128 + x /\ Z.land (128 + x) 0x3f = x /\ is_continuation (128 + x) = true /\
  is_byte (128 + x) /\ Z.land (128 + x) 0x80 <> 0 /\ Z.land (128 + x) 0x40 = 0.
Proof.
  intros Hx. assert ((Z.lor 0x80 x =? 128 + x) && (Z.land (128 + x) 0x3f =? x) && is_continuation (128 + x) &&
    negb (Z.land (128 + x) 0x80 =? 0) && (Z.land (128 + x) 0x40 =? 0) = true) as H.
  { by apply (below_forallb (fun x => (Z.lor 0x80 x =? 128 + x) && (Z.land (128 + x) 0x3f =? x) && is_continuation (128 + x) &&
      negb (Z.land (128 + x) 0x80 =? 0) && (Z.land (128 + x) 0x40 =? 0)) 64); [vm_compute|]. }
  bool_prop. unfold is_byte. split_and!; try lia; done.
Qed.

(** A byte decided by testing all 256. *)
Lemma byte_test (P : Z -> bool) b : forallb P (seqZ 0 256) = true -> is_byte b -> P b = true.
Proof. intros H Hb. by apply (below_forallb P 256). Qed.

Lemma lead2 x : 0 <= x < 32 ->
  Z.lor 0xc0 x = 192 + x /\ Z.land (192 + x) 0x1f = x /\ Z.land (192 + x) 0x80 <> 0 /\
  Z.land (192 + x) 0x40 <> 0 /\ Z.land (192 + x) 0x20 = 0.
Proof.
  intros Hx. assert ((Z.lor 0xc0 x =? 192 + x) && (Z.land (192 + x) 0x1f =? x) && negb (Z.land (192 + x) 0x80 =? 0) &&
    negb (Z.land (192 + x) 0x40 =? 0) && (Z.land (192 + x) 0x20 =? 0) = true) as H.
  { by apply (below_forallb (fun x => (Z.lor 0xc0 x =? 192 + x) && (Z.land (192 + x) 0x1f =? x) &&
      negb (Z.land (192 + x) 0x80 =? 0) && negb (Z.land (192 + x) 0x40 =? 0) && (Z.land (192 + x) 0x20 =? 0)) 32); [vm_compute|]. }
  bool_prop. split_and!; lia.
Qed.

Lemma lead3 x : 0 <= x < 16 ->
  Z.lor 0xe0 x = 224 + x /\ Z.land (224 + x) 0x0f = x /\ Z.land (224 + x) 0x80 <> 0 /\
  Z.land (224 + x) 0x40 <> 0 /\ Z.land (224 + x) 0x20 <> 0 /\ Z.land (224 + x) 0x10 = 0.
Proof.
  intros Hx. assert ((Z.lor 0xe0 x =? 224 + x) && (Z.land (224 + x) 0x0f =? x) && negb (Z.land (224 + x) 0x80 =? 0) &&
    negb (Z.land (224 + x) 0x40 =? 0) && negb (Z.land (224 + x) 0x20 =? 0) && (Z.land (224 + x) 0x10 =? 0) = true) as H.
  { by apply (below_forallb (fun x => (Z.lor 0xe0 x =? 224 + x) && (Z.land (224 + x) 0x0f =? x) &&
      negb (Z.land (224 + x) 0x80 =? 0) && negb (Z.land (224 + x) 0x40 =? 0) && negb (Z.land (224 + x) 0x20 =? 0) &&
      (Z.land (224 + x) 0x10 =? 0)) 16); [vm_compute|]. }
  bool_prop. split_and!; lia.
Qed.

Lemma lead4 x : 0 <= x < 8 ->
  Z.lor 0xf0 x = 240 + x /\ Z.land (240 + x) 0x07 = x /\ Z.land (240 + x) 0x80 <> 0 /\
  Z.land (240 + x) 0x40 <> 0 /\ Z.land (240 + x) 0x20 <> 0 /\ Z.land (240 + x) 0x10 <> 0 /\ Z.land (240 + x) 0x08 = 0.
Proof.
  intros Hx. assert ((Z.lor 0xf0 x =? 240 + x) && (Z.land (240 + x) 0x07 =? x) && negb (Z.land (240 + x) 0x80 =? 0) &&
    negb (Z.land (240 + x) 0x40 =? 0) && negb (Z.land (240 + x) 0x20 =? 0) && negb (Z.land (240 + x) 0x10 =? 0) &&
    (Z.land (240 + x) 0x08 =? 0) = true) as H.
  { by apply (below_forallb (fun x => (Z.lor 0xf0 x =? 240 + x) && (Z.land (240 + x) 0x07 =? x) &&
      negb (Z.land (240 + x) 0x80 =? 0) && negb (Z.land (240 + x) 0x40 =? 0) && negb (Z.land (240 + x) 0x20 =? 0) &&
      negb (Z.land (240 + x) 0x10 =? 0) && (Z.land (240 + x) 0x08 =? 0)) 8); [vm_compute|]. }
  bool_prop. split_and!; lia.
Qed.

Lemma ascii_bits x : 0 <= x < 128 -> Z.land x 0x80 = 0.
Proof.
  intros Hx. apply Z.eqb_eq. by apply (below_forallb (fun x => Z.land x 0x80 =? 0) 128); [vm_compute|].
Qed.

Lemma land_63 x : Z.land x 0x3f = x mod 64.
Proof. change 0x3f with (Z.ones 6). rewrite Z.land_ones by lia. done. Qed.

(** Splitting a code point into the digits of its encoding. *)
Lemma digits c : 0 <= c ->
  c = c / 64 * 64 + c mod 64 /\ c / 64 = c / 4096 * 64 + c / 64 mod 64 /\
  c / 4096 = c / 2 ^ 18 * 64 + c / 4096 mod 64 /\
  0 <= c mod 64 < 64 /\ 0 <= c / 64 mod 64 < 64 /\ 0 <= c / 4096 mod 64 < 64 /\ 0 <= c / 64 /\ 0 <= c / 4096 /\ 0 <= c / 2 ^ 18.
Proof.
  intros Hc. replace (c / 4096) with (c / 64 / 64) by (rewrite Z.div_div by lia; done).
  replace (c / 2 ^ 18) with (c / 64 / 64 / 64) by (rewrite !Z.div_div by lia; done).
  pose proof (Z.div_mod c 64 ltac:(lia)). pose proof (Z.div_mod (c / 64) 64 ltac:(lia)).
  pose proof (Z.div_mod (c / 64 / 64) 64 ltac:(lia)).
  pose proof (Z.mod_pos_bound c 64 ltac:(lia)). pose proof (Z.mod_pos_bound (c / 64) 64 ltac:(lia)).
  pose proof (Z.mod_pos_bound (c / 64 / 64) 64 ltac:(lia)). lia.
Qed.

Lemma cpt_to_utf8_enc c : 0 <= c <= 0x10ffff -> common_unicode_cpt_to_utf8 c = Some (enc c).
Proof.
  intros Hc. destruct (digits c ltac:(lia)) as (D1 & D2 & D3 & M1 & M2 & M3 & _).
  unfold common_unicode_cpt_to_utf8, enc.
  rewrite !land_63, !Z.shiftr_div_pow2 by lia. change (2 ^ 6) with 64. change (2 ^ 12) with 4096.
  destruct (Z.leb_spec c 0x7f) as [H1|H1]; [by rewrite (proj2 (Z.ltb_lt _ _)) by lia|].
  rewrite (proj2 (Z.ltb_ge c 0x80)) by lia.
  destruct (cont_byte (c mod 64) ltac:(lia)) as (-> & _). destruct (cont_byte (c / 64 mod 64) ltac:(lia)) as (-> & _).
  destruct (cont_byte (c / 4096 mod 64) ltac:(lia)) as (-> & _).
  destruct (Z.leb_spec c 0x7ff) as [H2|H2].
  { rewrite andb_true_r, (proj2 (Z.leb_le 0x80 c)), (proj2 (Z.ltb_lt _ _)) by lia.
    change 0x1f with (Z.ones 5). rewrite Z.land_ones, Z.mod_small by lia. by rewrite (proj1 (lead2 (c / 64) ltac:(lia))). }
  rewrite andb_false_r, (proj2 (Z.ltb_ge c 0x800)) by lia.
  destruct (Z.leb_spec c 0xffff) as [H3|H3].
  { rewrite andb_true_r, (proj2 (Z.leb_le 0x800 c)), (proj2 (Z.ltb_lt _ _)) by lia.
    change 0x0f with (Z.ones 4). rewrite Z.land_ones, Z.mod_small by lia. by rewrite (proj1 (lead3 (c / 4096) ltac:(lia))). }
  rewrite andb_false_r, (proj2 (Z.ltb_ge c 0x10000)), (proj2 (Z.leb_le 0x10000 c)), (proj2 (Z.leb_le c 0x10ffff)) by lia.
  cbn [andb]. change 0x07 with (Z.ones 3). rewrite Z.land_ones, Z.mod_small by lia.
  by rewrite (proj1 (lead4 (c / 2 ^ 18) ltac:(lia))).
Qed.

(** ** Decoding an encoding *)

Lemma byte_at_app pre l k : byte_at (pre ++ l) (length pre + k) = byte_at l k.
Proof. unfold byte_at. rewrite lookup_app_r by lia. by replace (length pre + k - length pre)%nat with k by lia. Qed.

Lemma parse_app pre l :
  common_parse_utf8_codepoint (pre ++ l) (length pre) = common_parse_utf8_codepoint l 0.
Proof.
  unfold common_parse_utf8_codepoint. rewrite !byte_at_app.
  replace (byte_at (pre ++ l) (length pre)) with (byte_at l 0) by (by rewrite <- (byte_at_app pre), Nat.add_0_r).
  rewrite length_app.
  assert (forall k, (length pre + length l <=? length pre + k)%nat = (length l <=? 0 + k)%nat) as Hk.
  { intros k. destruct (Nat.leb_spec (length pre + length l) (length pre + k)), (Nat.leb_spec (length l) (0 + k)); lia. }
  rewrite !Hk. pose proof (Hk 0%nat) as H0. rewrite Nat.add_0_r in H0. by rewrite H0.
Qed.

(** An encoding is a first byte, which tells its length, and continuation bytes. *)
Inductive encoded (c : Z) : list Z -> Prop :=
| Enc1 : 0 <= c < 128 -> encoded c [c]
| Enc2 x1 x0 : 0 <= x1 < 32 -> 0 <= x0 < 64 -> c = x1 * 64 + x0 -> encoded c [192 + x1; 128 + x0]
| Enc3 x2 x1 x0 : 0 <= x2 < 16 -> 0 <= x1 < 64 -> 0 <= x0 < 64 -> c = x2 * 2 ^ 12 + (x1 * 64 + x0) ->
    encoded c [224 + x2; 128 + x1; 128 + x0]
| Enc4 x3 x2 x1 x0 : 0 <= x3 < 8 -> 0 <= x2 < 64 -> 0 <= x1 < 64 -> 0 <= x0 < 64 ->
    c = x3 * 2 ^ 18 + (x2 * 2 ^ 12 + (x1 * 64 + x0)) ->
    encoded c [240 + x3; 128 + x2; 128 + x1; 128 + x0].

Lemma enc_encoded c : 0 <= c <= 0x10ffff -> encoded c (enc c).
Proof.
  intros Hc. destruct (digits c ltac:(lia)) as (D1 & D2 & D3 & M1 & M2 & M3 & P1 & P2 & P3). unfold enc.
  destruct (Z.ltb_spec c 0x80); [constructor; lia|].
  destruct (Z.ltb_spec c 0x800); [constructor; lia|].
  destruct (Z.ltb_spec c 0x10000); [constructor; lia|]. constructor; lia.
Qed.

Lemma lor_digit a x : 0 <= x < 64 -> Z.lor (Z.shiftl a 6) x = a * 64 + x.
Proof. intros. by rewrite lor_shiftl_add. Qed.

(** Digits combine as in a number of base 64. *)
Lemma lor_digits2 a b x : 0 <= b < 64 -> 0 <= x < 64 ->
  Z.lor (Z.lor (Z.shiftl a 12) (Z.shiftl b 6)) x = a * 2 ^ 12 + (b * 64 + x).
Proof.
  intros. rewrite <- Z.lor_assoc, lor_digit by done. rewrite lor_shiftl_add by lia. done.
Qed.

Lemma lor_digits3 a b c x : 0 <= b < 64 -> 0 <= c < 64 -> 0 <= x < 64 ->
  Z.lor (Z.lor (Z.lor (Z.shiftl a 18) (Z.shiftl b 12)) (Z.shiftl c 6)) x = a * 2 ^ 18 + (b * 2 ^ 12 + (c * 64 + x)).
Proof.
  intros. rewrite <- !Z.lor_assoc. rewrite (Z.lor_assoc (Z.shiftl b 12)), lor_digits2 by done.
  by rewrite lor_shiftl_add by lia.
Qed.

Ltac bits_ne := repeat match goal with H : Z.land _ _ <> 0 |- _ => apply Z.eqb_neq in H; rewrite H; clear H end.

Lemma parse_encoded c l rest :
  encoded c l -> common_parse_utf8_codepoint (l ++ rest) 0 = SUCCESS c (length l).
Proof.
  intros HE. unfold common_parse_utf8_codepoint, byte_at. destruct HE as [Hc|x1 x0 H1 H0 ->|x2 x1 x0 H2 H1 H0 ->|x3 x2 x1 x0 H3 H2 H1 H0 ->];
    cbn [app length lookup list_lookup default Nat.leb Nat.add from_option id].
  - by rewrite ascii_bits.
  - destruct (lead2 x1 H1) as (_ & Hv & B1 & B2 & ->). destruct (cont_byte x0 H0) as (_ & -> & -> & _).
    bits_ne. cbn. by rewrite Hv, lor_digit.
  - destruct (lead3 x2 H2) as (_ & Hv & B1 & B2 & B3 & ->). destruct (cont_byte x0 H0) as (_ & -> & -> & _).
    destruct (cont_byte x1 H1) as (_ & -> & -> & _). bits_ne. cbn -[Z.shiftl Z.lor Z.mul Z.pow].
    by rewrite Hv, lor_digits2.
  - destruct (lead4 x3 H3) as (_ & Hv & B1 & B2 & B3 & B4 & ->). destruct (cont_byte x0 H0) as (_ & -> & -> & _).
    destruct (cont_byte x1 H1) as (_ & -> & -> & _). destruct (cont_byte x2 H2) as (_ & -> & -> & _).
    bits_ne. cbn -[Z.shiftl Z.lor Z.mul Z.pow]. by rewrite Hv, lor_digits3.
Qed.

Lemma parse_truncated c l k :
  encoded c l -> (k < length l)%nat -> common_parse_utf8_codepoint (take k l) 0 = INCOMPLETE.
Proof.
  intros HE Hk. unfold common_parse_utf8_codepoint, byte_at. destruct HE as [Hc|x1 x0 H1 H0 ->|x2 x1 x0 H2 H1 H0 ->|x3 x2 x1 x0 H3 H2 H1 H0 ->];
    cbn [length] in Hk.
  - by assert (k = 0)%nat as -> by lia.
  - destruct (lead2 x1 H1) as (_ & Hv & B1 & B2 & B3).
    assert (k = 0 \/ k = 1)%nat as [-> | ->] by lia; cbn; [done|]. bits_ne. by rewrite B3.
  - destruct (lead3 x2 H2) as (_ & Hv & B1 & B2 & B3 & B4).
    assert (k = 0 \/ k = 1 \/ k = 2)%nat as [-> |[-> | ->]] by lia; cbn; [done|..]; bits_ne; by rewrite B4.
  - destruct (lead4 x3 H3) as (_ & Hv & B1 & B2 & B3 & B4 & B5).
    assert (k = 0 \/ k = 1 \/ k = 2 \/ k = 3)%nat as [-> |[-> |[-> | ->]]] by lia; cbn; [done|..]; bits_ne; by rewrite B5.
Qed.

(** ** Complete and truncated strings *)

Lemma lead_not_continuation c l : encoded c l ->
  exists b bs, l = b :: bs /\ is_continuation b = false /\ expected_length b = length l /\
    Forall (fun x => is_continuation x = true) bs /\ common_utf8_sequence_length b = Z.of_nat (length l).
Proof.
  assert (forall lo n (len : nat), 0 <= lo -> lo + n <= 256 ->
    forallb (fun x => negb (is_continuation (lo + x)) && (expected_length (lo + x) =? len)%nat &&
      (common_utf8_sequence_length (lo + x) =? Z.of_nat len)) (seqZ 0 n) = true ->
    forall x, 0 <= x < n -> is_continuation (lo + x) = false /\ expected_length (lo + x) = len /\
      common_utf8_sequence_length (lo + x) = Z.of_nat len) as Hlead.
  { intros lo n len _ _ H x Hx. pose proof (below_forallb _ _ H x Hx) as Hb. simpl in Hb. bool_prop.
    split_and!; [done|by apply Nat.eqb_eq|lia]. }
  intros HE. destruct HE as [Hc|x1 x0 H1 H0 ->|x2 x1 x0 H2 H1 H0 ->|x3 x2 x1 x0 H3 H2 H1 H0 ->]; eexists _, _; (split; [done|]).
  - destruct (Hlead 0 128 1%nat ltac:(lia) ltac:(lia) ltac:(by vm_compute) c Hc) as (E1 & E2 & E3). done.
  - destruct (Hlead 192 32 2%nat ltac:(lia) ltac:(lia) ltac:(by vm_compute) x1 H1) as (E1 & E2 & E3).
    split_and!; try done. repeat constructor; by apply cont_byte.
  - destruct (Hlead 224 16 3%nat ltac:(lia) ltac:(lia) ltac:(by vm_compute) x2 H2) as (E1 & E2 & E3).
    split_and!; try done. repeat constructor; by apply cont_byte.
  - destruct (Hlead 240 8 4%nat ltac:(lia) ltac:(lia) ltac:(by vm_compute) x3 H3) as (E1 & E2 & E3).
    split_and!; try done. repeat constructor; by apply cont_byte.
Qed.

(** The scan from the end finds the first byte of the last sequence. *)
Lemma is_complete_scan pre b bs i m :
  is_continuation b = false -> Forall (fun x => is_continuation x = true) bs ->
  (1 <= i <= S (length bs))%nat -> (S (length bs) < i + m)%nat ->
  is_complete_loop (pre ++ b :: bs) (List.seq i m) = (expected_length b <=? S (length bs))%nat.
Proof.
  intros Hb Hbs. revert i. induction m as [|m IH]; intros i Hi Hm; [lia|]. cbn [List.seq is_complete_loop].
  assert (byte_at (pre ++ b :: bs) (length (pre ++ b :: bs) - i) = byte_at (b :: bs) (S (length bs) - i)) as ->.
  { rewrite <- (byte_at_app pre (b :: bs)), length_app. f_equal. cbn [length]. lia. }
  destruct (decide (i = S (length bs))) as [->|Hne].
  - rewrite Nat.sub_diag. unfold byte_at. simpl. unfold is_continuation in Hb. by rewrite Hb.
  - destruct (lookup_lt_is_Some_2 bs (length bs - i)) as [x Hx]; [lia|].
    assert (byte_at (b :: bs) (S (length bs) - i) = x) as ->.
    { unfold byte_at. replace (S (length bs) - i)%nat with (S (length bs - i)) by lia. simpl. by rewrite Hx. }
    pose proof (Forall_lookup_1 _ _ _ _ Hbs Hx) as Hc. unfold is_continuation in Hc. simpl in Hc. rewrite Hc.
    cbn [negb]. apply IH; lia.
Qed.

Lemma is_complete_encoded pre c l k :
  encoded c l -> (1 <= k <= length l)%nat ->
  common_utf8_is_complete (pre ++ take k l) = (length l <=? k)%nat.
Proof.
  intros HE Hk. destruct (lead_not_continuation c l HE) as (b & bs & -> & Hb & Hlen & Hbs & _).
  assert (length (b :: bs) <= 4)%nat as H4 by (inversion HE; simpl; lia).
  destruct k as [|k]; [lia|]. cbn [take]. simpl in Hk, H4.
  unfold common_utf8_is_complete. destruct (pre ++ b :: take k bs) as [|y ys] eqn:E; [by destruct pre|].
  rewrite <- E. rewrite is_complete_scan; [|done|by apply Forall_take|lia|].
  - rewrite Hlen, length_take, Nat.min_l by lia. done.
  - rewrite length_app. cbn [length]. rewrite length_take. lia.
Qed.

(** ** Properties *)

(** C9: encoding and decoding. Every code point up to 0x10FFFF is encoded, and
    from any place in a string where its encoding stands the decoder returns the
    code point and the length of the encoding, which is also the length that the
    first byte announces.  A text that ends with the encoding is complete; one that
    ends inside it is not, and decodes there as incomplete.  Larger values are
    refused. *)
Theorem utf8_roundtrip c pre rest :
  0 <= c ->
  (c <= 0x10ffff -> exists l, common_unicode_cpt_to_utf8 c = Some l /\
    common_parse_utf8_codepoint (pre ++ l ++ rest) (length pre) = SUCCESS c (length l) /\
    common_utf8_sequence_length (byte_at l 0) = Z.of_nat (length l) /\
    (forall k, (1 <= k <= length l)%nat -> common_utf8_is_complete (pre ++ take k l) = (length l <=? k)%nat) /\
    (forall k, (k < length l)%nat -> common_parse_utf8_codepoint (pre ++ take k l) (length pre) = INCOMPLETE)) /\
  (0x10ffff < c -> common_unicode_cpt_to_utf8 c = None).
Proof.
  intros Hc. split.
  - intros Hmax. exists (enc c). pose proof (enc_encoded c ltac:(lia)) as HE.
    rewrite cpt_to_utf8_enc, parse_app by lia. split; [done|]. split; [by apply parse_encoded|]. split; [|split].
    2: intros k Hk; by eapply is_complete_encoded.
    2: intros k Hk; rewrite parse_app; by eapply parse_truncated.
    by destruct (lead_not_continuation c _ HE) as (b & bs & -> & _ & _ & _ & Hs).
  - intros Hbig. unfold common_unicode_cpt_to_utf8.
    rewrite (proj2 (Z.leb_gt c 0x7f)), (proj2 (Z.leb_gt c 0x7ff)), (proj2 (Z.leb_gt c 0xffff)), (proj2 (Z.leb_gt c 0x10ffff)) by lia.
    by rewrite !andb_false_r.
Qed.

Lemma utf8_roundtrip_witness :
  (0x20ac <= 0x10ffff -> exists l, common_unicode_cpt_to_utf8 0x20ac = Some l /\
    common_parse_utf8_codepoint ([65; 66] ++ l ++ [67]) 2 = SUCCESS 0x20ac (length l) /\
    common_utf8_sequence_length (byte_at l 0) = Z.of_nat (length l) /\
    (forall k, (1 <= k <= length l)%nat -> common_utf8_is_complete ([65; 66] ++ take k l) = (length l <=? k)%nat) /\
    (forall k, (k < length l)%nat -> common_parse_utf8_codepoint ([65; 66] ++ take k l) 2 = INCOMPLETE)) /\
  (0x10ffff < 0x20ac -> common_unicode_cpt_to_utf8 0x20ac = None).
Proof. apply (utf8_roundtrip 0x20ac [65; 66] [67]). lia. Defined.

(** Truncation. Cut anywhere inside its last code point, a string decodes
    there as incomplete (never as invalid or as another code point) and is not
    complete; with the last code point whole it is complete. *)
Theorem utf8_truncated c pre k :
  0 <= c <= 0x10ffff -> (1 <= k <= length (enc c))%nat ->
  common_utf8_is_complete (pre ++ take k (enc c)) = (length (enc c) <=? k)%nat /\
  ((k < length (enc c))%nat ->
   common_parse_utf8_codepoint (pre ++ take k (enc c)) (length pre) = INCOMPLETE) /\
  common_parse_utf8_codepoint pre (length pre) = INCOMPLETE.
Proof.
  intros Hc Hk. pose proof (enc_encoded c Hc) as HE. split; [by eapply is_complete_encoded|]. split.
  - intros Hlt. rewrite parse_app. by eapply parse_truncated.
  - unfold common_parse_utf8_codepoint. by rewrite Nat.leb_refl.
Qed.

Lemma utf8_truncated_witness :
  common_utf8_is_complete ([65] ++ take 2 (enc 0x20ac)) = (length (enc 0x20ac) <=? 2)%nat /\
  ((2 < length (enc 0x20ac))%nat ->
   common_parse_utf8_codepoint ([65] ++ take 2 (enc 0x20ac)) (length [65]) = INCOMPLETE) /\
  common_parse_utf8_codepoint [65] (length [65]) = INCOMPLETE.
Proof. apply utf8_truncated; [lia|]. vm_compute. lia. Defined.

(** The length announced by a byte that cannot start a sequence is not 0. *)
Example invalid_first_bytes : common_utf8_sequence_length 0x80 = 1 /\ common_utf8_sequence_length 0xff = 4.
Proof. done. Qed.

End Unicode.
