(* ===== verification/Grammar.v ===== *)
(** The grammar sampler of src/src/llama-grammar.cpp: decoding of (possibly cut)
    UTF-8 pieces, matching of characters and tokens, the pushdown automaton that
    follows a grammar, the rejection of candidates, and lazy grammars.

    A pointer to a grammar element is a rule number and an index; a stack is a
    list of them with its top first. A C string is the list of its bytes up to
    the terminating zero. *)

From Stdlib Require Import Ascii.
From S2P Require Import Prelude.

Module Grammar.

(** ** Data *)

Inductive llama_gretype :=
| LLAMA_GRETYPE_END
| LLAMA_GRETYPE_ALT
| LLAMA_GRETYPE_RULE_REF
| LLAMA_GRETYPE_CHAR
| LLAMA_GRETYPE_CHAR_NOT
| LLAMA_GRETYPE_CHAR_RNG_UPPER
| LLAMA_GRETYPE_CHAR_ALT
| LLAMA_GRETYPE_CHAR_ANY
| LLAMA_GRETYPE_TOKEN
| LLAMA_GRETYPE_TOKEN_NOT.

#[export] Instance gretype_eq_dec : EqDecision llama_gretype.
Proof. solve_decision. Defined.

Record llama_grammar_element := mk_elem { type : llama_gretype; value : Z }.

#[export] Instance element_eq_dec : EqDecision llama_grammar_element.
Proof. solve_decision. Defined.

Abbreviation llama_grammar_rule := (list llama_grammar_element).
Abbreviation llama_grammar_rules := (list llama_grammar_rule).

(** [const llama_grammar_element *]: rule and index. *)
Abbreviation position := (nat * nat)%type.
Abbreviation llama_grammar_stack := (list position).
Abbreviation llama_grammar_stacks := (list llama_grammar_stack).

Inductive grammar_error :=
| Undefined
| OutOfFuel
| EmptyStack
| ParseError (at_end : list Z).

#[export] Instance grammar_undef : Undef grammar_error := Undefined.

Abbreviation R := (result grammar_error).

Definition elem_at (rules : llama_grammar_rules) (p : position) : R llama_grammar_element :=
  r ← at_ rules p.1; at_ r p.2.

Definition next (p : position) : position := (p.1, S p.2).

(** ** Decoding *)

(** [partial_utf8]: the bits so far and the number of bytes missing, [-1] after an
    invalid sequence. *)
Record llama_partial_utf8 := mk_partial { p_value : Z; n_remain : Z }.

Definition shift_in (value b : Z) : Z := u32 (u32 (Z.shiftl value 6) + Z.land b 0x3f).

(** The bytes of [c_str()]. *)
Fixpoint c_str (s : list Z) : list Z :=
  match s with b :: s => if b =? 0 then [] else b :: c_str s | [] => [] end.

(** One code point of a grammar text: up to [len - 1] more bytes, stopping at the
    end of the text. *)
Fixpoint decode_more (n : nat) (value : Z) (src : list Z) : Z * list Z :=
  match n, src with
  | S n, b :: src' => if b =? 0 then (value, src) else decode_more n (shift_in value b) src'
  | _, _ => (value, src)
  end.

Definition utf8_len : list Z := [1; 1; 1; 1; 1; 1; 1; 1; 1; 1; 1; 1; 2; 2; 3; 4].

Definition decode_utf8_char (src : list Z) : Z * list Z :=
  match src with
  | [] => (0, [])
  | first_byte :: rest =>
      let len := default 0 (utf8_len !! Z.to_nat (Z.shiftr first_byte 4)) in
      let mask := Z.land (Z.shiftl 1 (8 - len) - 1) 0xff in
      decode_more (Z.to_nat (len - 1)) (Z.land first_byte mask) rest
  end.

(** A piece of output: continue a sequence of the previous piece, then decode the
    sequences that follow. [None] in the place of the missing bytes is an invalid
    continuation byte. *)
Definition utf8_len0 : list Z := [1; 1; 1; 1; 1; 1; 1; 1; 0; 0; 0; 0; 2; 2; 3; 4].

Fixpoint decode_continue (src : list Z) (value n_remain : Z) : option (Z * Z * list Z) :=
  match src with
  | b :: rest =>
      if 0 <? n_remain then
        if negb (Z.shiftr b 6 =? 2) then None
        else decode_continue rest (shift_in value b) (n_remain - 1)
      else Some (value, n_remain, src)
  | [] => Some (value, n_remain, [])
  end.

(** The bytes of one sequence after its first byte. *)
Fixpoint decode_tail (src : list Z) (value n_remain : Z) : Z * Z * list Z :=
  match src with
  | b :: rest =>
      if 0 <? n_remain then decode_tail rest (shift_in value b) (n_remain - 1) else (value, n_remain, src)
  | [] => (value, n_remain, [])
  end.

(** [None]: an invalid first byte, with its [n_remain]. *)
Fixpoint decode_seqs (fuel : nat) (src : list Z) (value n_remain : Z) (cps : list Z)
    : R (list Z * llama_partial_utf8) :=
  match src with
  | [] => Ok (cps ++ [0], mk_partial value n_remain)
  | first_byte :: rest =>
      match fuel with
      | O => Error OutOfFuel
      | S fuel =>
          let n_remain := default 0 (utf8_len0 !! Z.to_nat (Z.shiftr first_byte 4)) - 1 in
          if n_remain <? 0 then Ok ([0], mk_partial 0 n_remain)
          else
            let mask := Z.land (Z.shiftl 1 (7 - n_remain) - 1) 0xff in
            let '(value, n_remain, rest) := decode_tail rest (Z.land first_byte mask) n_remain in
            decode_seqs fuel rest value n_remain (if n_remain =? 0 then cps ++ [value] else cps)
      end
  end.

Definition decode_utf8 (src : list Z) (partial_start : llama_partial_utf8)
    : R (list Z * llama_partial_utf8) :=
  let s := c_str src in
  match decode_continue s (p_value partial_start) (n_remain partial_start) with
  | None => Ok ([0], mk_partial 0 (-1))
  | Some (value, rem, rest) =>
      let cps := if (0 <? n_remain partial_start) && (rem =? 0) then [value] else [] in
      decode_seqs (length s) rest value rem cps
  end.

(** ** Matching *)

Definition is_end_of_sequence (e : llama_grammar_element) : bool :=
  match type e with LLAMA_GRETYPE_END | LLAMA_GRETYPE_ALT => true | _ => false end.

Definition is_positive_char (e : llama_grammar_element) : bool :=
  match type e with LLAMA_GRETYPE_CHAR | LLAMA_GRETYPE_CHAR_ANY => true | _ => false end.

Definition is_alt_char (l : list llama_grammar_element) : bool :=
  match l with e :: _ => bool_decide (type e = LLAMA_GRETYPE_CHAR_ALT) | [] => false end.

(** The [do] loop over the alternatives of a character class, from the elements
    at and after the position; returns how many it skipped. *)
Fixpoint match_class (l : list llama_grammar_element) (chr : Z) (found : bool) (n : nat) : R (bool * nat) :=
  match l with
  | e :: l1 =>
      match l1 with
      | [] => Error Undefined
      | e1 :: l2 =>
          if bool_decide (type e1 = LLAMA_GRETYPE_CHAR_RNG_UPPER) then
            let found := found || ((value e <=? chr) && (chr <=? value e1)) in
            match l2 with
            | [] => Error Undefined
            | _ => if is_alt_char l2 then match_class l2 chr found (S (S n)) else Ok (found, S (S n))
            end
          else
            let found := if bool_decide (type e = LLAMA_GRETYPE_CHAR_ANY) then true
                         else found || (value e =? chr) in
            if is_alt_char l1 then match_class l1 chr found (S n) else Ok (found, S n)
      end
  | [] => Error Undefined
  end.

Definition rest_at (rules : llama_grammar_rules) (p : position) : R (list llama_grammar_element) :=
  r ← at_ rules p.1; Ok (drop p.2 r).

Definition llama_grammar_match_char (rules : llama_grammar_rules) (p : position) (chr : Z) : R (bool * position) :=
  e ← elem_at rules p;
  _ ← ensure (is_positive_char e || bool_decide (type e = LLAMA_GRETYPE_CHAR_NOT)) Undefined;
  l ← rest_at rules p;
  m ← match_class l chr false 0;
  Ok (bool_decide (m.1 = is_positive_char e), (p.1, (p.2 + m.2)%nat)).

(** The range of code points a cut sequence can complete to. *)
Definition partial_low (pu : llama_partial_utf8) : Z :=
  let low := u32 (Z.shiftl (p_value pu) (n_remain pu * 6)) in
  if low =? 0 then
    if n_remain pu =? 2 then Z.shiftl 1 11 else if n_remain pu =? 3 then Z.shiftl 1 16 else low
  else low.
Definition partial_high (pu : llama_partial_utf8) : Z :=
  Z.lor (u32 (Z.shiftl (p_value pu) (n_remain pu * 6))) (Z.shiftl 1 (n_remain pu * 6) - 1).

Fixpoint match_class_partial (l : list llama_grammar_element) (low high : Z) (positive : bool) : R bool :=
  match l with
  | e :: l1 =>
      match l1 with
      | [] => Error Undefined
      | e1 :: l2 =>
          if bool_decide (type e1 = LLAMA_GRETYPE_CHAR_RNG_UPPER) then
            if (value e <=? high) && (low <=? value e1) then Ok positive else
            match l2 with
            | [] => Error Undefined
            | _ => if is_alt_char l2 then match_class_partial l2 low high positive else Ok (negb positive)
            end
          else if bool_decide (type e = LLAMA_GRETYPE_CHAR_ANY) then Ok true
          else if (low <=? value e) && (value e <=? high) then Ok positive
          else if is_alt_char l1 then match_class_partial l1 low high positive else Ok (negb positive)
      end
  | [] => Error Undefined
  end.

Definition llama_grammar_match_partial_char (rules : llama_grammar_rules) (p : position)
    (pu : llama_partial_utf8) : R bool :=
  e ← elem_at rules p;
  _ ← ensure (is_positive_char e || bool_decide (type e = LLAMA_GRETYPE_CHAR_NOT)) Undefined;
  if (n_remain pu <? 0) || ((n_remain pu =? 1) && (p_value pu <? 2)) then Ok false
  else
    l ← rest_at rules p;
    match_class_partial l (partial_low pu) (partial_high pu) (is_positive_char e).

Definition is_token (e : llama_grammar_element) : bool :=
  match type e with LLAMA_GRETYPE_TOKEN | LLAMA_GRETYPE_TOKEN_NOT => true | _ => false end.

(** [static_cast<uint32_t>(token)] *)
Definition llama_grammar_match_token (e : llama_grammar_element) (token : Z) : R bool :=
  match type e with
  | LLAMA_GRETYPE_TOKEN => Ok (value e =? u32 token)
  | LLAMA_GRETYPE_TOKEN_NOT => Ok (negb (value e =? u32 token))
  | _ => Error Undefined
  end.

(** ** The pushdown automaton *)

(** [pos] is pushed unless it stands at the end of an alternative. *)
Definition push (rules : llama_grammar_rules) (p : position) (s : llama_grammar_stack) : R llama_grammar_stack :=
  e ← elem_at rules p; Ok (if is_end_of_sequence e then s else p :: s).

(** The starts of the alternatives of a rule after the first one. *)
Fixpoint scan_alternates (l : llama_grammar_rule) (i : nat) : R (list nat) :=
  match l with
  | [] => Error Undefined
  | e :: l =>
      match type e with
      | LLAMA_GRETYPE_END => Ok []
      | LLAMA_GRETYPE_ALT => starts ← scan_alternates l (S i); Ok (S i :: starts)
      | _ => scan_alternates l (S i)
      end
  end.

Definition alternates (rules : llama_grammar_rules) (rule_id : nat) : R (list position) :=
  r ← at_ rules rule_id;
  starts ← scan_alternates r 0;
  Ok (pair rule_id <$> 0%nat :: starts).

(** The stacks that replace a stack [p :: s] whose top is a reference: one per
    alternative, the element after the reference below it. *)
Definition next_stacks (rules : llama_grammar_rules) (rule_id : nat) (p : position) (s : llama_grammar_stack)
    : R (list llama_grammar_stack) :=
  alts ← alternates rules rule_id;
  mapM (fun q => s ← push rules (next p) s; push rules q s) alts.

Definition add_stack (news : llama_grammar_stacks) (s : llama_grammar_stack) : llama_grammar_stacks :=
  if bool_decide (s ∈ news) then news else news ++ [s].

(** The work list: its head is the stack pushed last. *)
Fixpoint advance_loop (fuel : nat) (rules : llama_grammar_rules) (todo : list llama_grammar_stack)
    (seen : gset llama_grammar_stack) (news : llama_grammar_stacks) : R llama_grammar_stacks :=
  match todo with
  | [] => Ok news
  | curr :: todo =>
      match fuel with
      | O => Error OutOfFuel
      | S fuel =>
          if bool_decide (curr ∈ seen) then advance_loop fuel rules todo seen news else
          let seen := {[curr]} ∪ seen in
          match curr with
          | [] => advance_loop fuel rules todo seen (add_stack news [])
          | p :: s =>
              e ← elem_at rules p;
              match type e with
              | LLAMA_GRETYPE_RULE_REF =>
                  children ← next_stacks rules (Z.to_nat (value e)) p s;
                  advance_loop fuel rules (reverse children ++ todo) seen news
              | LLAMA_GRETYPE_CHAR | LLAMA_GRETYPE_CHAR_NOT | LLAMA_GRETYPE_CHAR_ANY
              | LLAMA_GRETYPE_TOKEN | LLAMA_GRETYPE_TOKEN_NOT =>
                  advance_loop fuel rules todo seen (add_stack news curr)
              | _ => Error Undefined
              end
          end
      end
  end.

Section Automaton.
(** The fuel of each call of [llama_grammar_advance_stack]. *)
Variable fuel : nat.
Variable rules : llama_grammar_rules.

Definition llama_grammar_advance_stack (stack : llama_grammar_stack) (news : llama_grammar_stacks)
    : R llama_grammar_stacks :=
  advance_loop fuel rules [stack] ∅ news.

Definition llama_grammar_accept_chr (stack : llama_grammar_stack) (chr : Z) (news : llama_grammar_stacks)
    : R llama_grammar_stacks :=
  match stack with
  | [] => Ok news
  | p :: s =>
      e ← elem_at rules p;
      if is_token e then Ok news else
      m ← llama_grammar_match_char rules p chr;
      if m.1 : bool then s ← push rules m.2 s; llama_grammar_advance_stack s news else Ok news
  end.

(** [llama_grammar_accept]: all stacks with one character. *)
Definition accept_stacks (stacks : llama_grammar_stacks) (chr : Z) : R llama_grammar_stacks :=
  foldM (fun news s => llama_grammar_accept_chr s chr news) [] stacks.

(** ** Rejecting candidates *)

(** [code_points] is a pointer into the decoded piece: the array and an index. *)
Record llama_grammar_candidate := mk_cand {
  index : nat;
  code_points : list Z;
  cp_off : nat;
  partial_utf8 : llama_partial_utf8;
  id : Z;
}.

Definition cur_cp (tok : llama_grammar_candidate) : R Z := at_ (code_points tok) (cp_off tok).
Definition move (tok : llama_grammar_candidate) (off : nat) : llama_grammar_candidate :=
  mk_cand (index tok) (code_points tok) off (partial_utf8 tok) (id tok).

(** Candidates that fail a test, in order. *)
Fixpoint filter_rejects (test : llama_grammar_candidate -> R bool) (l : list llama_grammar_candidate)
    : R (list llama_grammar_candidate) :=
  match l with
  | [] => Ok []
  | tok :: l => b ← test tok; r ← filter_rejects test l; Ok (if b : bool then tok :: r else r)
  end.

Definition reject_at_end (tok : llama_grammar_candidate) : R bool :=
  c ← cur_cp tok; Ok (negb (c =? 0) || negb (n_remain (partial_utf8 tok) =? 0)).

Definition reject_at_token (e : llama_grammar_element) (tok : llama_grammar_candidate) : R bool :=
  c ← cur_cp tok;
  if c =? 0 then Ok (negb (n_remain (partial_utf8 tok) =? 0))
  else m ← llama_grammar_match_token e (id tok); Ok (negb m).

(** At a character: rejected, kept, or passed on with its first character consumed. *)
Inductive verdict := Reject | Keep | Pass.

Definition judge_at_char (p : position) (tok : llama_grammar_candidate) : R verdict :=
  c ← cur_cp tok;
  if c =? 0 then
    if n_remain (partial_utf8 tok) =? 0 then Ok Keep
    else m ← llama_grammar_match_partial_char rules p (partial_utf8 tok); Ok (if m : bool then Keep else Reject)
  else
    m ← llama_grammar_match_char rules p c; Ok (if m.1 : bool then Pass else Reject).

Fixpoint judge_all (p : position) (l : list llama_grammar_candidate)
    : R (list llama_grammar_candidate * list llama_grammar_candidate) :=
  match l with
  | [] => Ok ([], [])
  | tok :: l =>
      v ← judge_at_char p tok;
      r ← judge_all p l;
      Ok (match v with
          | Reject => (tok :: r.1, r.2)
          | Keep => r
          | Pass => (r.1, move tok (S (cp_off tok)) :: r.2)
          end)
  end.

(** [depth] bounds the recursion on the characters of the candidates. *)
Fixpoint reject_for_stack (depth : nat) (stack : llama_grammar_stack) (cands : list llama_grammar_candidate)
    : R (list llama_grammar_candidate) :=
  match depth with
  | O => Error OutOfFuel
  | S depth =>
      match stack with
      | [] => filter_rejects reject_at_end cands
      | p :: s =>
          e ← elem_at rules p;
          if is_token e then filter_rejects (reject_at_token e) cands else
          r ← judge_all p cands;
          let '(rejects, next_candidates) := r in
          after ← llama_grammar_match_char rules p 0;
          stack_after ← push rules after.2 s;
          nexts ← llama_grammar_advance_stack stack_after [];
          _ ← ensure (negb (bool_decide (nexts = []))) Undefined;
          next_rejects ← match next_candidates with
            | [] => Ok []
            | _ => foldM (fun c st => reject_for_stack depth st c) next_candidates nexts
            end;
          Ok (rejects ++ ((fun tok => move tok (cp_off tok - 1)) <$> next_rejects))
      end
  end.

Definition llama_grammar_reject_candidates (depth : nat) (stacks : llama_grammar_stacks)
    (cands : list llama_grammar_candidate) : R (list llama_grammar_candidate) :=
  _ ← ensure (negb (bool_decide (stacks = []))) Undefined;
  match cands with
  | [] => Ok []
  | _ => foldM (fun c st => reject_for_stack depth st c) cands stacks
  end.
End Automaton.

(** ** Left recursion *)

(** Whether the rule has an alternative without elements: an end of a sequence at
    the start of one. *)
Fixpoint has_empty_alternative (r : llama_grammar_rule) (at_rule_start : bool) : bool :=
  match r with
  | [] => false
  | e :: r =>
      if is_end_of_sequence e then at_rule_start || has_empty_alternative r true
      else has_empty_alternative r false
  end.

Record recursion_state := mk_rec { visited : list bool; in_progress : list bool; may_be_empty : list bool }.

(** The second loop of the search: into the leftmost references of the rule, and
    the next ones as long as the references before them may be empty. *)
Fixpoint scan_refs (detect : recursion_state -> nat -> R (recursion_state * bool)) (st : recursion_state)
    (recurse : bool) (r : llama_grammar_rule) : R (recursion_state * bool) :=
  match r with
  | [] => Ok (st, false)
  | e :: r =>
      if bool_decide (type e = LLAMA_GRETYPE_RULE_REF) && recurse then
        d ← detect st (Z.to_nat (value e));
        let '(st, found) := d in
        if (found : bool) then Ok (st, true) else
        empty ← at_ (may_be_empty st) (Z.to_nat (value e));
        scan_refs detect st empty r
      else scan_refs detect st (is_end_of_sequence e) r
  end.

(** [fuel] bounds the depth of the search. *)
Fixpoint detect_left_recursion (fuel : nat) (rules : llama_grammar_rules) (st : recursion_state) (rule_index : nat)
    : R (recursion_state * bool) :=
  match fuel with
  | O => Error OutOfFuel
  | S fuel =>
      busy ← at_ (in_progress st) rule_index;
      if (busy : bool) then Ok (st, true) else
      rule ← at_ rules rule_index;
      let st := mk_rec (visited st) (<[rule_index := true]> (in_progress st))
        (if has_empty_alternative rule true then <[rule_index := true]> (may_be_empty st) else may_be_empty st) in
      d ← scan_refs (detect_left_recursion fuel rules) st true rule;
      let '(st, found) := d in
      if (found : bool) then Ok (st, true) else
      Ok (mk_rec (<[rule_index := true]> (visited st)) (<[rule_index := false]> (in_progress st)) (may_be_empty st), false)
  end.

(** The loop over all rules; true when left recursion was found. *)
Definition check_left_recursion (rules : llama_grammar_rules) : R bool :=
  let n := length rules in
  r ← foldM (fun r i =>
        let '(st, found) := r in
        if (found : bool) then Ok r else
        done ← at_ (visited st) i;
        if (done : bool) then Ok r else detect_left_recursion (S n) rules st i)
      (mk_rec (replicate n false) (replicate n false) (replicate n false), false) (List.seq 0 n);
  Ok r.2.

(** ** Grammars *)

(** What the code uses of a vocabulary. *)
Record llama_vocab := mk_vocab {
  token_to_piece : Z -> list Z;
  is_eog : Z -> bool;
}.

(** A trigger pattern is the regular expression it compiles to: the groups of a
    match of the whole input, or of the first match anywhere, as positions and
    lengths, the whole match first. *)
Record llama_grammar_trigger_pattern := mk_pattern {
  pattern : list Z;
  regex_match : list Z -> option (list (nat * nat));
  regex_search : list Z -> option (list (nat * nat));
}.

Definition find_start_pos (m : list (nat * nat)) : option nat :=
  match List.find (fun g => (0 <? g.2)%nat) (tail m) with
  | Some g => Some g.1
  | None => fst <$> head m
  end.

(** [llama_grammar_trigger_pattern::find]: [None] is [npos]. *)
Definition trigger_find (t : llama_grammar_trigger_pattern) (input : list Z) : option nat :=
  let anywhere := m ← regex_search t input; find_start_pos m in
  if bool_decide (head (pattern t) = Some (ch "^")) && bool_decide (last (pattern t) = Some (ch "$")) then
    match regex_match t input with Some m => find_start_pos m | None => anywhere end
  else anywhere.

Record llama_grammar := mk_grammar {
  rules : llama_grammar_rules;
  stacks : llama_grammar_stacks;
  g_partial_utf8 : llama_partial_utf8;
  lazy : bool;
  awaiting_trigger : bool;
  trigger_buffer : list Z;
  trigger_buffer_positions : list (Z * (nat * nat));
  trigger_tokens : list Z;
  trigger_patterns : list llama_grammar_trigger_pattern;
}.

Definition with_stacks (g : llama_grammar) st pu :=
  mk_grammar (rules g) st pu (lazy g) (awaiting_trigger g) (trigger_buffer g) (trigger_buffer_positions g)
    (trigger_tokens g) (trigger_patterns g).
Definition with_trigger (g : llama_grammar) awaiting buf positions :=
  mk_grammar (rules g) (stacks g) (g_partial_utf8 g) (lazy g) awaiting buf positions
    (trigger_tokens g) (trigger_patterns g).

(** The initial stacks: one per alternative of the start rule. *)
Definition initial_stacks (fuel : nat) (rules : llama_grammar_rules) (start : nat) : R llama_grammar_stacks :=
  alts ← alternates rules start;
  foldM (fun news q => s ← push rules q []; llama_grammar_advance_stack fuel rules s news) [] alts.

(** Copying a rule stops at its first end marker. *)
Fixpoint copy_rule (r : llama_grammar_rule) : R llama_grammar_rule :=
  match r with
  | [] => Error Undefined
  | e :: r =>
      if bool_decide (type e = LLAMA_GRETYPE_END) then Ok [mk_elem LLAMA_GRETYPE_END 0]
      else c ← copy_rule r; Ok (e :: c)
  end.

Definition valid_refs (rules : llama_grammar_rules) : bool :=
  forallb (forallb (fun e =>
    negb (bool_decide (type e = LLAMA_GRETYPE_RULE_REF)) || (value e <? Z.of_nat (length rules)))) rules.

Definition no_partial : llama_partial_utf8 := mk_partial 0 0.

(** The tail of both [llama_grammar_init_impl]s: [None] is the null pointer. *)
Definition start_grammar (fuel : nat) (vec_rules : llama_grammar_rules) (start : nat) (is_lazy : bool)
    (tokens : list Z) (patterns : list llama_grammar_trigger_pattern) : R (option llama_grammar) :=
  found ← check_left_recursion vec_rules;
  if (found : bool) then Ok None else
  st ← initial_stacks fuel vec_rules start;
  Ok (Some (mk_grammar vec_rules st no_partial is_lazy is_lazy [] [] tokens patterns)).

(** From rules that were built elsewhere. *)
Definition init_from_rules (fuel : nat) (rules : llama_grammar_rules) (start : nat) : R (option llama_grammar) :=
  vec_rules ← mapM copy_rule rules;
  if negb (valid_refs vec_rules) then Ok None
  else start_grammar fuel vec_rules start false [] [].

(** A copy: the rules have other addresses, the positions are the same. *)
Definition llama_grammar_clone_impl (g : llama_grammar) : llama_grammar := g.

Section Runtime.
Variable fuel : nat.

Definition llama_grammar_accept (g : llama_grammar) (chr : Z) : R llama_grammar :=
  st ← accept_stacks fuel (rules g) (stacks g) chr;
  Ok (with_stacks g st (g_partial_utf8 g)).

Definition llama_grammar_accept_str (g : llama_grammar) (piece : list Z) : R llama_grammar :=
  d ← decode_utf8 piece (g_partial_utf8 g);
  g ← foldM llama_grammar_accept g (removelast d.1);
  let g := with_stacks g (stacks g) d.2 in
  _ ← ensure (negb (bool_decide (stacks g = []))) EmptyStack;
  Ok g.

(** The characters of a token from one stack, stopping when no stack is left. *)
Fixpoint accept_chars (rules : llama_grammar_rules) (current : llama_grammar_stacks) (cps : list Z)
    : R llama_grammar_stacks :=
  match cps with
  | [] => Ok current
  | c :: cps =>
      nexts ← accept_stacks fuel rules current c;
      match nexts with [] => Ok [] | _ => accept_chars rules nexts cps end
  end.

Definition accept_token_stack (rules : llama_grammar_rules) (token : Z) (cps : list Z)
    (news : llama_grammar_stacks) (stack : llama_grammar_stack) : R llama_grammar_stacks :=
  match stack with
  | [] => Ok news
  | p :: s =>
      e ← elem_at rules p;
      if is_token e then
        m ← llama_grammar_match_token e token;
        if m : bool then s ← push rules (next p) s; llama_grammar_advance_stack fuel rules s news else Ok news
      else
        current ← accept_chars rules [stack] cps;
        Ok (foldl add_stack news current)
  end.

Definition llama_grammar_accept_token (g : llama_grammar) (token : Z) (piece : list Z) : R llama_grammar :=
  d ← decode_utf8 piece (g_partial_utf8 g);
  st ← foldM (accept_token_stack (rules g) token (removelast d.1)) [] (stacks g);
  let g := with_stacks g st d.2 in
  _ ← ensure (negb (bool_decide (st = []))) EmptyStack;
  Ok g.

(** The tokens of the buffer that end after the start of the match, the first one
    cut if the match starts inside it. *)
Definition replay_token (buffer : list Z) (start : nat) (g : llama_grammar) (tp : Z * (nat * nat)) : R llama_grammar :=
  let '(tok, (tok_start, tok_end)) := tp in
  if (tok_end <=? start)%nat then Ok g
  else
    let piece_start := if (tok_start <? start)%nat then start else tok_start in
    llama_grammar_accept_token g tok (take (tok_end - piece_start) (drop piece_start buffer)).

Fixpoint first_trigger (patterns : list llama_grammar_trigger_pattern) (buffer : list Z) : option nat :=
  match patterns with
  | [] => None
  | t :: patterns =>
      match trigger_find t buffer with Some start => Some start | None => first_trigger patterns buffer end
  end.

Definition llama_grammar_accept_impl (v : llama_vocab) (g : llama_grammar) (token : Z) : R llama_grammar :=
  let piece := token_to_piece v token in
  if awaiting_trigger g then
    if bool_decide (token ∈ trigger_tokens g) then
      llama_grammar_accept_token (with_trigger g false [] (trigger_buffer_positions g)) token piece
    else
      let n := length (trigger_buffer g) in
      let buffer := trigger_buffer g ++ piece in
      let positions := trigger_buffer_positions g ++ [(token, (n, n + length piece)%nat)] in
      match first_trigger (trigger_patterns g) buffer with
      | Some start =>
          g ← foldM (replay_token buffer start) (with_trigger g false buffer positions) positions;
          Ok (with_trigger g false [] [])
      | None => Ok (with_trigger g true buffer positions)
      end
  else if is_eog v token then
    if existsb (fun s => match s with [] => true | _ => false end) (stacks g) then Ok g else Error Undefined
  else llama_grammar_accept_token g token piece.

(** [llama_token_data_array]: a logit is a payload, [masked] is [-INFINITY]. *)
Definition llama_grammar_apply_impl {logit : Type} (masked : logit) (v : llama_vocab) (g : llama_grammar)
    (cur_p : list (Z * logit)) (depth : nat) : R (list (Z * logit)) :=
  if awaiting_trigger g then Ok cur_p else
  let allow_eog := existsb (fun s => match s with [] => true | _ => false end) (stacks g) in
  let mask (l : list (Z * logit)) (i : nat) := alter (fun tl => (tl.1, masked)) i l in
  r ← foldM (fun '(data, cands) i =>
        tl ← at_ cur_p i;
        let piece := token_to_piece v tl.1 in
        if is_eog v tl.1 then Ok (if allow_eog then data else mask data i, cands)
        else if match piece with [] => true | b :: _ => b =? 0 end then Ok (mask data i, cands)
        else d ← decode_utf8 piece (g_partial_utf8 g); Ok (data, cands ++ [mk_cand i d.1 0 d.2 tl.1]))
      (cur_p, []) (List.seq 0 (length cur_p));
  let '(data, cands) := r in
  rejects ← llama_grammar_reject_candidates fuel (rules g) depth (stacks g) cands;
  Ok (foldl (fun data tok => mask data (index tok)) data rejects).
End Runtime.
End Grammar.
