(* ===== verification/GrammarWf.v ===== *)
(** Well-formed rules of a grammar and what the matching and the expansion of
    Grammar.v do on them: no call runs off the end of a rule, and every position
    the automaton keeps stands at the start of a symbol. *)

From S2P Require Import Prelude Grammar.
Import Grammar.

Module GrammarWf.

(** What may follow an element inside a character class: [Free] nothing of the
    class, [Single] an upper bound or an alternative, [Ranged] an alternative. *)
Inductive shape := Free | Single | Ranged.

(** The elements from inside a sequence to the end of the rule, with [n] rules. *)
Fixpoint wf_elems (n : nat) (st : shape) (l : list llama_grammar_element) : bool :=
  match l with
  | [] => false
  | e :: l =>
      match type e with
      | LLAMA_GRETYPE_END => match l with [] => true | _ => false end
      | LLAMA_GRETYPE_ALT => wf_elems n Free l
      | LLAMA_GRETYPE_RULE_REF => (0 <=? value e) && (value e <? Z.of_nat n) && wf_elems n Free l
      | LLAMA_GRETYPE_CHAR | LLAMA_GRETYPE_CHAR_NOT => wf_elems n Single l
      | LLAMA_GRETYPE_CHAR_ANY | LLAMA_GRETYPE_TOKEN | LLAMA_GRETYPE_TOKEN_NOT => wf_elems n Free l
      | LLAMA_GRETYPE_CHAR_RNG_UPPER => match st with Single => wf_elems n Ranged l | _ => false end
      | LLAMA_GRETYPE_CHAR_ALT => match st with Free => false | _ => wf_elems n Single l end
      end
  end.

Definition wf_rules (rules : llama_grammar_rules) : bool :=
  forallb (wf_elems (length rules) Free) rules.

(** A position at the start of a symbol, or at the end of an alternative. *)
Definition pos_ok (rules : llama_grammar_rules) (p : position) : Prop :=
  exists r, rules !! p.1 = Some r /\ wf_elems (length rules) Free (drop p.2 r) = true.

(** A position a stack may hold. *)
Definition item (rules : llama_grammar_rules) (p : position) : Prop :=
  pos_ok rules p /\ forall e, elem_at rules p = Ok e -> is_end_of_sequence e = false.

(** ** Elements *)

Definition in_class (e : llama_grammar_element) : bool :=
  match type e with LLAMA_GRETYPE_CHAR_RNG_UPPER | LLAMA_GRETYPE_CHAR_ALT => true | _ => false end.

Lemma wf_elems_cons n st l : wf_elems n st l = true -> exists e l', l = e :: l'.
Proof. destruct l; [done | eauto]. Qed.

Lemma wf_elems_free n st e l :
  wf_elems n st (e :: l) = true -> in_class e = false -> wf_elems n Free (e :: l) = true.
Proof. unfold in_class. simpl. by destruct (type e). Qed.

Lemma wf_free_head n e l : wf_elems n Free (e :: l) = true -> in_class e = false.
Proof. unfold in_class. simpl. by destruct (type e). Qed.

Definition code_point (c : Z) : Prop := 0 <= c <= UINT32_MAX.

(** The ranges a character class lists, from its first element. *)
Fixpoint members (l : list llama_grammar_element) : list (Z * Z) :=
  match l with
  | e :: l1 =>
      match l1 with
      | [] => []
      | e1 :: l2 =>
          if bool_decide (type e1 = LLAMA_GRETYPE_CHAR_RNG_UPPER) then
            (value e, value e1) :: (if is_alt_char l2 then members l2 else [])
          else
            (if bool_decide (type e = LLAMA_GRETYPE_CHAR_ANY) then (0, UINT32_MAX) else (value e, value e))
              :: (if is_alt_char l1 then members l1 else [])
      end
  | [] => []
  end.

Definition in_range (c : Z) (r : Z * Z) : bool := (r.1 <=? c) && (c <=? r.2).

Lemma in_range_single c v : in_range c (v, v) = (v =? c).
Proof. unfold in_range. simpl. lia. Qed.

Lemma match_class_cons e e1 l2 c found i :
  match_class (e :: e1 :: l2) c found i =
    if bool_decide (type e1 = LLAMA_GRETYPE_CHAR_RNG_UPPER) then
      let found := found || ((value e <=? c) && (c <=? value e1)) in
      match l2 with
      | [] => Error Undefined
      | _ => if is_alt_char l2 then match_class l2 c found (S (S i)) else Ok (found, S (S i))
      end
    else
      let found := if bool_decide (type e = LLAMA_GRETYPE_CHAR_ANY) then true else found || (value e =? c) in
      if is_alt_char (e1 :: l2) then match_class (e1 :: l2) c found (S i) else Ok (found, S i).
Proof. done. Qed.

Lemma members_cons e e1 l2 :
  members (e :: e1 :: l2) =
    if bool_decide (type e1 = LLAMA_GRETYPE_CHAR_RNG_UPPER) then
      (value e, value e1) :: (if is_alt_char l2 then members l2 else [])
    else
      (if bool_decide (type e = LLAMA_GRETYPE_CHAR_ANY) then (0, UINT32_MAX) else (value e, value e))
        :: (if is_alt_char (e1 :: l2) then members (e1 :: l2) else []).
Proof. done. Qed.

(** The loop over a character class finds the character in one of its ranges, and
    ends at the start of the next symbol. *)
Lemma match_class_ok n c k : 0 <= c <= UINT32_MAX -> forall l e st found i,
  (length l <= k)%nat -> wf_elems n st l = true -> st <> Ranged ->
  exists m, match_class (e :: l) c found i = Ok (found || existsb (in_range c) (members (e :: l)), (i + S m)%nat) /\
    wf_elems n Free (drop m l) = true.
Proof.
  intros Hc. induction k as [|k IH]; intros l e st found i Hl Hwf Hst; destruct l as [|e1 l1]; try done.
  { simpl in Hl. lia. }
  rewrite match_class_cons, members_cons. cbv zeta. destruct (bool_decide (type e1 = _)) eqn:Hr; bool_prop.
  - assert (wf_elems n Ranged l1 = true) as Hwf1.
    { revert Hwf. cbn [wf_elems]. rewrite Hr. by destruct st. }
    destruct l1 as [|e2 l2]; [done|]. destruct (is_alt_char (e2 :: l2)) eqn:Ha; cbn [is_alt_char] in Ha; bool_prop.
    + destruct (IH l2 e2 Single (found || ((value e <=? c) && (c <=? value e1))) (S (S i))) as (m & -> & Hm);
        [simpl in *; lia| |done|].
      { revert Hwf1. cbn [wf_elems]. by rewrite Ha. }
      exists (S (S m)). cbn [existsb drop]. rewrite orb_assoc. split; [|done]. do 2 f_equal. lia.
    + exists 1%nat. cbn [existsb drop]. rewrite orb_false_r. split; [do 2 f_equal; lia|].
      apply (wf_elems_free n Ranged); [done|]. revert Hwf1 Ha. unfold in_class. cbn [wf_elems]. by destruct (type e2).
  - assert (existsb (in_range c) [if bool_decide (type e = LLAMA_GRETYPE_CHAR_ANY) then (0, UINT32_MAX) else (value e, value e)]
      = if bool_decide (type e = LLAMA_GRETYPE_CHAR_ANY) then true else value e =? c) as Hv.
    { case_bool_decide; cbn [existsb]; rewrite orb_false_r; [|apply in_range_single].
      unfold in_range. cbn. lia. }
    set (here := if bool_decide (type e = _) then (0, UINT32_MAX) else (value e, value e)) in *.
    set (fnd := if bool_decide (type e = _) then true else found || (value e =? c)).
    assert (fnd = found || existsb (in_range c) [here]) as ->.
    { rewrite Hv. unfold fnd. by case_bool_decide; [rewrite orb_true_r|]. }
    cbn [is_alt_char]. destruct (bool_decide (type e1 = LLAMA_GRETYPE_CHAR_ALT)) eqn:Ha; bool_prop.
    + destruct (IH l1 e1 Single (found || existsb (in_range c) [here]) (S i)) as (m & -> & Hm);
        [simpl in *; lia| |done|].
      { revert Hwf. cbn [wf_elems]. rewrite Ha. by destruct st. }
      exists (S m). cbn [existsb drop]. rewrite orb_false_r, orb_assoc. split; [|done]. do 2 f_equal. lia.
    + exists 0%nat. cbn [existsb drop]. split; [do 2 f_equal; lia|].
      apply (wf_elems_free n st); [done|]. revert Hr Ha. unfold in_class. by destruct (type e1).
Qed.

(** The same loop on the range of code points a cut sequence can complete to. *)
Definition overlaps (low high : Z) (r : Z * Z) : bool := (r.1 <=? high) && (low <=? r.2).

Lemma match_class_partial_cons e e1 l2 low high positive :
  match_class_partial (e :: e1 :: l2) low high positive =
    if bool_decide (type e1 = LLAMA_GRETYPE_CHAR_RNG_UPPER) then
      if (value e <=? high) && (low <=? value e1) then Ok positive else
      match l2 with
      | [] => Error Undefined
      | _ => if is_alt_char l2 then match_class_partial l2 low high positive else Ok (negb positive)
      end
    else if bool_decide (type e = LLAMA_GRETYPE_CHAR_ANY) then Ok true
    else if (low <=? value e) && (value e <=? high) then Ok positive
    else if is_alt_char (e1 :: l2) then match_class_partial (e1 :: l2) low high positive else Ok (negb positive).
Proof. done. Qed.

Lemma match_class_partial_ok n low high positive k :
  0 <= high -> low <= UINT32_MAX -> forall l e st,
  (length l <= k)%nat -> wf_elems n st l = true -> st <> Ranged ->
  (type e = LLAMA_GRETYPE_CHAR_ANY -> positive = true) ->
  match_class_partial (e :: l) low high positive =
    Ok (if existsb (overlaps low high) (members (e :: l)) then positive else negb positive).
Proof.
  intros Hh Hl. induction k as [|k IH]; intros l e st Hk Hwf Hst Hany; destruct l as [|e1 l1]; try done.
  { simpl in Hk. lia. }
  rewrite match_class_partial_cons, members_cons.
  destruct (bool_decide (type e1 = LLAMA_GRETYPE_CHAR_RNG_UPPER)) eqn:Hr; bool_prop.
  - assert (wf_elems n Ranged l1 = true) as Hwf1.
    { revert Hwf. cbn [wf_elems]. rewrite Hr. by destruct st. }
    cbn [existsb]. unfold overlaps at 1. cbn [fst snd].
    destruct ((value e <=? high) && (low <=? value e1)); [done|]. cbn [orb].
    destruct l1 as [|e2 l2]; [done|]. destruct (is_alt_char (e2 :: l2)) eqn:Ha; cbn [is_alt_char] in Ha; bool_prop; [|done].
    apply (IH l2 e2 Single); [simpl in *; lia| |done|by rewrite Ha].
    revert Hwf1. cbn [wf_elems]. by rewrite Ha.
  - cbn [existsb]. destruct (bool_decide (type e = LLAMA_GRETYPE_CHAR_ANY)) eqn:He; bool_prop.
    { assert (overlaps low high (0, UINT32_MAX) = true) as -> by (unfold overlaps; cbn [fst snd]; lia).
      by rewrite Hany. }
    unfold overlaps at 1. cbn [fst snd]. rewrite (andb_comm (value e <=? high)).
    destruct ((low <=? value e) && (value e <=? high)); [done|]. cbn [orb is_alt_char].
    destruct (bool_decide (type e1 = LLAMA_GRETYPE_CHAR_ALT)) eqn:Ha; bool_prop; [|done].
    apply (IH l1 e1 Single); [simpl in *; lia| |done|by rewrite Ha].
    revert Hwf. cbn [wf_elems]. rewrite Ha. by destruct st.
Qed.

(** ** Positions *)

Section Rules.
Variable rules : llama_grammar_rules.

Lemma pos_ok_elem p : pos_ok rules p -> exists e, elem_at rules p = Ok e /\ in_class e = false.
Proof.
  intros (r & Hr & Hwf). destruct (wf_elems_cons _ _ _ Hwf) as (e & l & Hd).
  exists e. unfold elem_at. rewrite (at_lookup _ _ _ Hr). bind_simpl.
  rewrite (at_lookup r p.2 e). 2: { rewrite <- (Nat.add_0_r p.2), <- lookup_drop, Hd. done. }
  split; [done|]. rewrite Hd in Hwf. by eapply wf_free_head.
Qed.

Lemma elem_at_drop p e : elem_at rules p = Ok e ->
  exists r, rules !! p.1 = Some r /\ drop p.2 r = e :: drop (S p.2) r.
Proof.
  unfold elem_at. intros H. inv_ok H. eexists. split; [done|]. by apply drop_S.
Qed.

(** The position after a symbol that takes one element. *)
Lemma pos_ok_next p e : pos_ok rules p -> elem_at rules p = Ok e ->
  match type e with
  | LLAMA_GRETYPE_RULE_REF | LLAMA_GRETYPE_TOKEN | LLAMA_GRETYPE_TOKEN_NOT | LLAMA_GRETYPE_ALT => True
  | _ => False
  end -> pos_ok rules (next p).
Proof.
  intros (r & Hr & Hwf) (r' & Hr' & Hd)%elem_at_drop Ht. simplify_eq. exists r. split; [done|].
  rewrite Hd in Hwf. cbn [next snd]. revert Hwf. cbn [wf_elems]. destruct (type e); try done.
  intros Hwf. by bool_prop.
Qed.

Lemma pos_ok_ref p e : pos_ok rules p -> elem_at rules p = Ok e -> type e = LLAMA_GRETYPE_RULE_REF ->
  (Z.to_nat (value e) < length rules)%nat.
Proof.
  intros (r & Hr & Hwf) (r' & Hr' & Hd)%elem_at_drop Ht. simplify_eq.
  rewrite Hd in Hwf. cbn [wf_elems] in Hwf. rewrite Ht in Hwf. bool_prop. lia.
Qed.

(** What [llama_grammar_match_char] returns. *)
Lemma match_char_ok p e c :
  pos_ok rules p -> elem_at rules p = Ok e -> 0 <= c <= UINT32_MAX ->
  is_positive_char e || bool_decide (type e = LLAMA_GRETYPE_CHAR_NOT) = true ->
  exists r m, rules !! p.1 = Some r /\
    llama_grammar_match_char rules p c =
      Ok (bool_decide (existsb (in_range c) (members (drop p.2 r)) = is_positive_char e), (p.1, (p.2 + S m)%nat)) /\
    pos_ok rules (p.1, (p.2 + S m)%nat).
Proof.
  intros (r & Hr & Hwf) He Hc Ht. pose proof He as (r' & Hr' & Hd)%elem_at_drop. simplify_eq.
  rewrite Hd in Hwf. assert (exists st, wf_elems (length rules) st (drop (S p.2) r) = true /\ st <> Ranged) as (st & Hst & Hne).
  { revert Hwf Ht. unfold is_positive_char. cbn [wf_elems]. destruct (type e); try done; eauto. }
  destruct (match_class_ok _ c _ Hc _ e _ false 0 (reflexivity _) Hst Hne) as (m & Hm & Hw).
  exists r, m. split; [done|]. unfold llama_grammar_match_char. rewrite He. bind_simpl. rewrite Ht. bind_simpl.
  unfold rest_at. rewrite (at_lookup _ _ _ Hr). bind_simpl. rewrite Hd, Hm. bind_simpl. split; [done|].
  exists r. split; [done|]. cbn [fst snd]. rewrite drop_drop in Hw. by replace (p.2 + S m)%nat with (S p.2 + m)%nat by lia.
Qed.

Lemma partial_low_le pu : partial_low pu <= UINT32_MAX.
Proof.
  unfold partial_low. pose proof (u32_range (Z.shiftl (p_value pu) (n_remain pu * 6))) as Hu.
  unfold UINT32_MAX. change (Z.shiftl 1 11) with 2048. change (Z.shiftl 1 16) with 65536.
  destruct (_ =? 0); [|lia]. destruct (_ =? 2); [lia|]. destruct (_ =? 3); lia.
Qed.

Lemma partial_high_nonneg pu : 0 <= n_remain pu -> 0 <= partial_high pu.
Proof.
  intros Hn. unfold partial_high. apply Z.lor_nonneg. split; [apply u32_range|].
  rewrite Z.shiftl_mul_pow2 by lia. pose proof (Z.pow_pos_nonneg 2 (n_remain pu * 6)). lia.
Qed.

Lemma match_partial_ok p e pu :
  pos_ok rules p -> elem_at rules p = Ok e ->
  is_positive_char e || bool_decide (type e = LLAMA_GRETYPE_CHAR_NOT) = true ->
  exists r, rules !! p.1 = Some r /\ llama_grammar_match_partial_char rules p pu =
    Ok (if (n_remain pu <? 0) || ((n_remain pu =? 1) && (p_value pu <? 2)) then false
        else if existsb (overlaps (partial_low pu) (partial_high pu)) (members (drop p.2 r))
        then is_positive_char e else negb (is_positive_char e)).
Proof.
  intros (r & Hr & Hwf) He Ht. pose proof He as (r' & Hr' & Hd)%elem_at_drop.
  rewrite Hr in Hr'. injection Hr' as <-.
  rewrite Hd in Hwf. assert (exists st, wf_elems (length rules) st (drop (S p.2) r) = true /\ st <> Ranged) as (st & Hst & Hne).
  { revert Hwf Ht. unfold is_positive_char. cbn [wf_elems]. destruct (type e); try done; eauto. }
  exists r. split; [done|]. unfold llama_grammar_match_partial_char. rewrite He. bind_simpl. rewrite Ht. bind_simpl.
  destruct ((n_remain pu <? 0) || _) eqn:Hn; [done|]. unfold rest_at. rewrite (at_lookup _ _ _ Hr). bind_simpl.
  rewrite Hd. rewrite (match_class_partial_ok (length rules) _ _ _ (length (drop (S p.2) r))) with (st := st); try done.
  { apply partial_high_nonneg. bool_prop. lia. }
  { apply partial_low_le. }
  unfold is_positive_char. by intros ->.
Qed.

(** ** Alternatives and stacks *)

Lemma scan_alternates_ok n l : forall st i, wf_elems n st l = true ->
  exists starts, scan_alternates l i = Ok starts /\
    forall s, s ∈ starts -> exists k, s = (i + k)%nat /\ wf_elems n Free (drop k l) = true.
Proof.
  induction l as [|e l IH]; intros st i Hwf; [done|].
  assert (forall st', wf_elems n st' l = true -> exists starts, scan_alternates l (S i) = Ok starts /\
    forall s, s ∈ starts -> exists k, s = (i + k)%nat /\ wf_elems n Free (drop k (e :: l)) = true) as Hl.
  { intros st' (starts & HE & Hs)%(IH _ (S i)). exists starts. split; [done|].
    intros s (k & -> & Hk)%Hs. exists (S k). split; [lia | done]. }
  cbn [wf_elems] in Hwf. cbn [scan_alternates].
  destruct (type e); try (by eapply Hl); try (destruct st; try done; by eapply Hl).
  - exists []. split; [done|]. intros s Hs. by apply not_elem_of_nil in Hs.
  - destruct (Hl _ Hwf) as (starts & -> & Hs). bind_simpl. eexists. split; [done|].
    intros s [->|Hin]%elem_of_cons; [|by apply Hs]. exists 1%nat. split; [lia | done].
  - bool_prop. by eapply Hl.
Qed.

Lemma alternates_ok k : wf_rules rules = true -> (k < length rules)%nat ->
  exists alts, alternates rules k = Ok alts /\ alts <> [] /\ forall q, q ∈ alts -> pos_ok rules q /\ q.1 = k.
Proof.
  intros Hwf [r Hr]%lookup_lt_is_Some_2. unfold wf_rules in Hwf. rewrite forallb_forall in Hwf.
  assert (wf_elems (length rules) Free r = true) as Hw.
  { apply Hwf, list_elem_of_In. by eapply list_elem_of_lookup_2. }
  destruct (scan_alternates_ok _ _ _ 0 Hw) as (starts & HE & Hs).
  exists (pair k <$> 0%nat :: starts). split; [|split; [done|]].
  - unfold alternates. rewrite (at_lookup _ _ _ Hr). bind_simpl. by rewrite HE.
  - intros q (i & -> & Hi)%list_elem_of_fmap. split; [|done]. exists r. split; [done|].
    apply elem_of_cons in Hi as [->|(j & -> & Hj)%Hs]; [done | done].
Qed.

(** Stacks of items. *)
Definition stack_ok (s : llama_grammar_stack) : Prop := Forall (item rules) s.

Lemma push_ok p s : pos_ok rules p -> stack_ok s -> exists s', push rules p s = Ok s' /\ stack_ok s'.
Proof.
  intros Hp Hs. destruct (pos_ok_elem _ Hp) as (e & He & _). unfold push. rewrite He. bind_simpl.
  eexists. split; [done|]. destruct (is_end_of_sequence e) eqn:Hend; [done|].
  constructor; [|done]. split; [done|]. intros e' He'. rewrite He in He'. by injection He' as <-.
Qed.

Lemma next_stacks_ok k p s :
  wf_rules rules = true -> (k < length rules)%nat -> pos_ok rules (next p) -> stack_ok s ->
  exists cs, next_stacks rules k p s = Ok cs /\ Forall stack_ok cs.
Proof.
  intros Hwf Hk Hp Hs. destruct (alternates_ok k Hwf Hk) as (alts & Ha & _ & Halts).
  unfold next_stacks. rewrite Ha. bind_simpl. destruct (push_ok _ _ Hp Hs) as (s1 & E1 & Hs1).
  assert (exists cs, mapM (fun q => s ← push rules (next p) s; push rules q s) alts = Ok cs) as [cs Hcs].
  { apply mapM_exists. intros q [Hq _]%Halts. rewrite E1. bind_simpl.
    destruct (push_ok _ _ Hq Hs1) as (s2 & E2 & _). eauto. }
  exists cs. split; [done|]. apply mapM_Ok in Hcs. apply Forall_forall. intros c Hc.
  apply list_elem_of_lookup_1 in Hc as [i Hi].
  destruct (Forall2_lookup_r _ _ _ _ _ Hcs Hi) as (q & Hq & HE). rewrite E1 in HE. cbn in HE.
  destruct (push_ok q s1) as (s2 & E2 & Hs2); [|done|].
  - apply Halts. by eapply list_elem_of_lookup_2.
  - rewrite HE in E2. by simplify_eq.
Qed.
End Rules.

(** ** Characters and cut sequences against a class *)

Lemma partial_low_high pu : 0 < n_remain pu -> partial_low pu <= partial_high pu.
Proof.
  intros Hn. unfold partial_low, partial_high. set (x := u32 (Z.shiftl (p_value pu) (n_remain pu * 6))).
  assert (0 <= x) as Hx by apply u32_range.
  assert (0 <= Z.shiftl 1 (n_remain pu * 6) - 1) as Hm.
  { rewrite Z.shiftl_mul_pow2 by lia. pose proof (Z.pow_pos_nonneg 2 (n_remain pu * 6)). lia. }
  assert (x <= Z.lor x (Z.shiftl 1 (n_remain pu * 6) - 1)) as Hle.
  { apply Z.ldiff_le; [by apply Z.lor_nonneg|]. apply Z.bits_inj'. intros k Hk.
    rewrite Z.ldiff_spec, Z.lor_spec, Z.bits_0. by destruct (Z.testbit x k). }
  destruct (Z.eqb_spec x 0) as [Hx0|_]; [|done].
  destruct (Z.eqb_spec (n_remain pu) 2) as [->|_]; [rewrite Hx0; by vm_compute|].
  destruct (Z.eqb_spec (n_remain pu) 3) as [->|_]; [rewrite Hx0; by vm_compute|]. done.
Qed.

Definition ordered (rs : list (Z * Z)) : Prop := Forall (fun r => r.1 <= r.2) rs.

Lemma overlaps_exists low high rs : low <= high -> ordered rs ->
  existsb (overlaps low high) rs = true <-> exists c, low <= c <= high /\ existsb (in_range c) rs = true.
Proof.
  intros Hlh Ho. unfold ordered in Ho. rewrite Forall_forall in Ho. split.
  - intros (r & Hr & Hov)%existsb_exists. specialize (Ho r (proj2 (list_elem_of_In _ _) Hr)).
    unfold overlaps in Hov. exists (Z.max r.1 low). split; [lia|]. apply existsb_exists. exists r. split; [done|].
    unfold in_range. lia.
  - intros (c & Hc & (r & Hr & Hin)%existsb_exists). apply existsb_exists. exists r. split; [done|].
    unfold in_range in Hin. unfold overlaps. lia.
Qed.

(** On a character class [llama_grammar_match_char] tells whether the character
    is in one of the listed ranges, or in none for a negated class, and ends at the next
    symbol; for a cut sequence that is not an overlong encoding,
    [llama_grammar_match_partial_char] tells whether some code point it can complete to
    is listed, or, for a negated class, that none is: then every completion matches. *)
Theorem grammar_match_class rules p e c pu :
  pos_ok rules p -> elem_at rules p = Ok e -> code_point c ->
  is_positive_char e || bool_decide (type e = LLAMA_GRETYPE_CHAR_NOT) = true ->
  (forall r, rules !! p.1 = Some r -> ordered (members (drop p.2 r))) ->
  exists r m b, rules !! p.1 = Some r /\
    llama_grammar_match_char rules p c =
      Ok (bool_decide (existsb (in_range c) (members (drop p.2 r)) = is_positive_char e), (p.1, (p.2 + S m)%nat)) /\
    pos_ok rules (p.1, (p.2 + S m)%nat) /\
    llama_grammar_match_partial_char rules p pu = Ok b /\
    (0 < n_remain pu -> ~ (n_remain pu = 1 /\ p_value pu < 2) ->
     b = true <->
     if is_positive_char e
     then exists c', partial_low pu <= c' <= partial_high pu /\ existsb (in_range c') (members (drop p.2 r)) = true
     else forall c', partial_low pu <= c' <= partial_high pu -> existsb (in_range c') (members (drop p.2 r)) = false).
Proof.
  intros Hp He Hc Ht Hord. destruct (match_char_ok rules p e c Hp He Hc Ht) as (r & m & Hr & Hm & Hq).
  destruct (match_partial_ok rules p e pu Hp He Ht) as (r' & Hr' & Hb). rewrite Hr in Hr'. injection Hr' as <-.
  exists r, m. eexists. split; [done|]. split; [done|]. split; [done|]. split; [exact Hb|].
  intros Hn Hov. replace ((n_remain pu <? 0) || ((n_remain pu =? 1) && (p_value pu <? 2))) with false by lia.
  pose proof (overlaps_exists _ _ _ (partial_low_high pu Hn) (Hord r Hr)) as Hex.
  destruct (is_positive_char e); cbn [negb].
  - rewrite <- Hex. destruct (existsb (overlaps _ _) _); by split.
  - destruct (existsb (overlaps _ _) _).
    + split; [done|]. intros Hall. destruct (proj1 Hex eq_refl) as (c' & Hc' & Hin). by rewrite (Hall c' Hc') in Hin.
    + split; [|done]. intros _ c' Hc'. destruct (existsb (in_range c') _) eqn:Hin; [|done].
      by discriminate (proj2 Hex (ex_intro _ c' (conj Hc' Hin))).
Qed.

(** [root ::= [a-z] [^b]] *)
Definition class_example : llama_grammar_rules :=
  [[mk_elem LLAMA_GRETYPE_CHAR 97; mk_elem LLAMA_GRETYPE_CHAR_RNG_UPPER 122; mk_elem LLAMA_GRETYPE_CHAR_NOT 98;
    mk_elem LLAMA_GRETYPE_END 0]].

Lemma grammar_match_class_witness :
  llama_grammar_match_char class_example (0, 0)%nat 99 = Ok (true, (0, 2)%nat) /\
  llama_grammar_match_partial_char class_example (0, 2)%nat (mk_partial 2 1) = Ok true.
Proof.
  assert (pos_ok class_example (0, 0)%nat) as Hp0 by (eexists; split; [done|by vm_compute]).
  assert (pos_ok class_example (0, 2)%nat) as Hp2 by (clear; eexists; split; [done|by vm_compute]).
  destruct (grammar_match_class class_example (0, 0)%nat (mk_elem LLAMA_GRETYPE_CHAR 97) 99 no_partial)
    as (r & m & b & Hr & Hm & _); [done|done|by unfold code_point|done|intros r [= <-]; repeat constructor; by cbn|].
  destruct (grammar_match_class class_example (0, 2)%nat (mk_elem LLAMA_GRETYPE_CHAR_NOT 98) 99 (mk_partial 2 1))
    as (r' & m' & b' & Hr' & _ & _ & Hb & Hiff); [done|done|by unfold code_point|done|intros r' [= <-]; repeat constructor; by cbn|].
  split.
  - rewrite Hm. injection Hr as <-. vm_compute in Hm. by injection Hm as <-.
  - rewrite Hb. f_equal. injection Hr' as <-. cbn [n_remain p_value is_positive_char type] in Hiff.
    apply Hiff; [lia|lia|]. intros c' Hc'. change (128 <= c' <= 191) in Hc'.
    change ((98 <=? c') && (c' <=? 98) || false = false). lia.
Defined.

(** A cut sequence that can be completed to characters outside a negated class is
    rejected as soon as one completion is inside it: [[^é]] refuses the first byte of "à". *)
Example negated_class_partial :
  llama_grammar_match_char [[mk_elem LLAMA_GRETYPE_CHAR_NOT 0xe9; mk_elem LLAMA_GRETYPE_END 0]] (0, 0)%nat 0xe0
    = Ok (true, (0, 1)%nat) /\
  llama_grammar_match_partial_char [[mk_elem LLAMA_GRETYPE_CHAR_NOT 0xe9; mk_elem LLAMA_GRETYPE_END 0]] (0, 0)%nat
    (mk_partial 3 1) = Ok false.
Proof. split; by vm_compute. Qed.
End GrammarWf.
