(* ===== verification/GrammarLang.v ===== *)
(** The language of a grammar, and the automaton of Grammar.v as a decision
    procedure for it: what the stacks derive, how expanding a stack keeps it, and
    how consuming a character or a token takes the quotient. *)

From S2P Require Import Prelude Grammar GrammarWf.
Import Grammar GrammarWf.

Module GrammarLang.

(** What a grammar derives: characters, and tokens taken as a whole. *)
Inductive symbol := Chr (c : Z) | Tok (t : Z).

Section Language.
Variable rules : llama_grammar_rules.

(** [derives p w]: the rest of the alternative at [p] derives [w]. *)
Inductive derives : position -> list symbol -> Prop :=
| derives_end p e :
    elem_at rules p = Ok e -> is_end_of_sequence e = true -> derives p []
| derives_char p e c p' w :
    elem_at rules p = Ok e -> is_token e = false ->
    llama_grammar_match_char rules p c = Ok (true, p') -> derives p' w -> derives p (Chr c :: w)
| derives_token p e t w :
    elem_at rules p = Ok e -> llama_grammar_match_token e t = Ok true ->
    derives (next p) w -> derives p (Tok t :: w)
| derives_ref p e alts q u v :
    elem_at rules p = Ok e -> type e = LLAMA_GRETYPE_RULE_REF ->
    alternates rules (Z.to_nat (value e)) = Ok alts -> q ∈ alts ->
    derives q u -> derives (next p) v -> derives p (u ++ v).

(** What a stack derives: the rests of its positions, from the top. *)
Inductive stack_derives : llama_grammar_stack -> list symbol -> Prop :=
| stack_nil : stack_derives [] []
| stack_cons p s u v : derives p u -> stack_derives s v -> stack_derives (p :: s) (u ++ v).

(** What a set of stacks derives. *)
Definition stacks_derive (l : llama_grammar_stacks) (w : list symbol) : Prop :=
  exists s, s ∈ l /\ stack_derives s w.

(** What a rule derives. *)
Definition rule_derives (k : nat) (w : list symbol) : Prop :=
  exists alts q, alternates rules k = Ok alts /\ q ∈ alts /\ derives q w.

(** ** Pushing a position *)

Lemma derives_elem p w : derives p w -> exists e, elem_at rules p = Ok e.
Proof. destruct 1; eauto. Qed.

Lemma match_char_kind p c r : llama_grammar_match_char rules p c = Ok r ->
  exists e, elem_at rules p = Ok e /\ is_positive_char e || bool_decide (type e = LLAMA_GRETYPE_CHAR_NOT) = true.
Proof. unfold llama_grammar_match_char. intros H. apply bind_Ok in H as (e & He & H). inv_ok H. eauto. Qed.

Lemma derives_end_inv p e w :
  elem_at rules p = Ok e -> is_end_of_sequence e = true -> derives p w -> w = [].
Proof.
  intros He Hend Hd. destruct Hd as [| p e' c p' w He' _ Hm _ | p e' t w He' Hm _ | p e' alts q u v He' Ht _ _ _ _];
    [done|..]; rewrite He in He'; injection He' as <-; exfalso; revert Hend; unfold is_end_of_sequence.
  - destruct (match_char_kind _ _ _ Hm) as (e' & He' & Hk). rewrite He in He'. injection He' as <-.
    revert Hk. unfold is_positive_char. by destruct (type e).
  - unfold llama_grammar_match_token in Hm. by destruct (type e).
  - by rewrite Ht.
Qed.

Lemma push_derives p s s' w : push rules p s = Ok s' ->
  stack_derives s' w <-> exists u v, w = u ++ v /\ derives p u /\ stack_derives s v.
Proof.
  unfold push. intros H. inv_ok H. destruct (is_end_of_sequence _) eqn:Hend.
  - split.
    + intros Hs. exists [], w. split; [done|]. split; [by eapply derives_end | done].
    + intros (u & v & -> & Hu%(derives_end_inv _ _ _ Hx Hend) & Hv). by subst u.
  - split.
    + inversion 1; subst. eauto.
    + intros (u & v & -> & Hu & Hv). by constructor.
Qed.

(** ** Expanding a stack *)

Inductive child : llama_grammar_stack -> llama_grammar_stack -> Prop :=
| child_intro p s e alts q s1 c :
    elem_at rules p = Ok e -> type e = LLAMA_GRETYPE_RULE_REF ->
    alternates rules (Z.to_nat (value e)) = Ok alts -> q ∈ alts ->
    push rules (next p) s = Ok s1 -> push rules q s1 = Ok c -> child (p :: s) c.

(** Stacks the automaton keeps: nothing left, or a character or token on top. *)
Definition consumes (e : llama_grammar_element) : bool :=
  match type e with
  | LLAMA_GRETYPE_CHAR | LLAMA_GRETYPE_CHAR_NOT | LLAMA_GRETYPE_CHAR_ANY
  | LLAMA_GRETYPE_TOKEN | LLAMA_GRETYPE_TOKEN_NOT => true
  | _ => false
  end.

Definition terminal (s : llama_grammar_stack) : Prop :=
  match s with [] => True | p :: _ => exists e, elem_at rules p = Ok e /\ consumes e = true end.

Lemma next_stacks_child p s e cs :
  elem_at rules p = Ok e -> type e = LLAMA_GRETYPE_RULE_REF ->
  next_stacks rules (Z.to_nat (value e)) p s = Ok cs -> forall c, c ∈ cs <-> child (p :: s) c.
Proof.
  intros He Ht H c. unfold next_stacks in H. apply bind_Ok in H as (alts & Ha & H). apply mapM_Ok in H. split.
  - intros [i Hi]%list_elem_of_lookup_1.
    destruct (Forall2_lookup_r _ _ _ _ _ H Hi) as (q & Hq & HE). apply bind_Ok in HE as (s1 & E1 & E2).
    econstructor; [done..| |done|done]. by eapply list_elem_of_lookup_2.
  - inversion 1 as [? ? e' alts' q s1 ? He' _ Ha' Hq E1 E2]; subst.
    rewrite He in He'. injection He' as <-. rewrite Ha in Ha'. injection Ha' as <-.
    apply list_elem_of_lookup_1 in Hq as [i Hi].
    destruct (Forall2_lookup_l _ _ _ _ _ H Hi) as (c' & Hc' & HE). rewrite E1 in HE. cbn in HE.
    rewrite E2 in HE. injection HE as ->. by eapply list_elem_of_lookup_2.
Qed.

Lemma child_derives s c w : child s c -> stack_derives c w -> stack_derives s w.
Proof.
  destruct 1 as [p s e alts q s1 c He Ht Ha Hq E1 E2]. rewrite (push_derives _ _ _ _ E2).
  intros (u & v & -> & Hu & Hv). apply (push_derives _ _ _ _ E1) in Hv as (v1 & v2 & -> & Hv1 & Hv2).
  rewrite app_assoc. constructor; [|done]. by eapply derives_ref.
Qed.

Lemma reach_derives s c w : rtc child s c -> stack_derives c w -> stack_derives s w.
Proof. induction 1; eauto using child_derives. Qed.

Definition expands_to (s : llama_grammar_stack) (w : list symbol) : Prop :=
  exists t, rtc child s t /\ terminal t /\ stack_derives t w.

Lemma derives_expands p u : derives p u -> forall s s' v,
  stack_derives s v -> expands_to s v -> push rules p s = Ok s' -> expands_to s' (u ++ v).
Proof.
  induction 1 as [p e He Hend | p e c p' w He Ht Hm Hd IH | p e t w He Hm Hd IH
    | p e alts q u1 u2 He Ht Ha Hq Hd1 IH1 Hd2 IH2]; intros s s' v Hs Hexp Hpush.
  - unfold push in Hpush. rewrite He in Hpush. cbn in Hpush. rewrite Hend in Hpush. by injection Hpush as <-.
  - destruct (match_char_kind _ _ _ Hm) as (e' & He' & Hk). rewrite He in He'. injection He' as <-.
    assert (consumes e = true /\ is_end_of_sequence e = false) as [Hc Hend].
    { revert Hk. unfold consumes, is_positive_char, is_end_of_sequence. by destruct (type e). }
    unfold push in Hpush. rewrite He in Hpush. cbn in Hpush. rewrite Hend in Hpush. injection Hpush as <-.
    exists (p :: s). split; [done|]. split; [by exists e|]. constructor; [|done]. by eapply derives_char.
  - assert (consumes e = true /\ is_end_of_sequence e = false) as [Hc Hend].
    { revert Hm. unfold consumes, llama_grammar_match_token, is_end_of_sequence. by destruct (type e). }
    unfold push in Hpush. rewrite He in Hpush. cbn in Hpush. rewrite Hend in Hpush. injection Hpush as <-.
    exists (p :: s). split; [done|]. split; [by exists e|]. constructor; [|done]. by eapply derives_token.
  - assert (is_end_of_sequence e = false) as Hend by (unfold is_end_of_sequence; by rewrite Ht).
    unfold push in Hpush. rewrite He in Hpush. cbn in Hpush. rewrite Hend in Hpush. injection Hpush as <-.
    destruct (derives_elem _ _ Hd2) as [e2 He2]. destruct (derives_elem _ _ Hd1) as [e1 He1].
    assert (exists s1, push rules (next p) s = Ok s1) as [s1 E1] by (unfold push; rewrite He2; cbn; eauto).
    assert (exists c, push rules q s1 = Ok c) as [c E2] by (unfold push; rewrite He1; cbn; eauto).
    destruct (IH1 s1 c (u2 ++ v)) as (t & Hr & Htt & Htd); [| |done|].
    + apply (push_derives _ _ _ _ E1). eauto.
    + by apply (IH2 s).
    + exists t. rewrite <- app_assoc. split; [|done]. eapply rtc_l; [|done]. by econstructor.
Qed.

(** Every word of a stack is a word of a terminal stack it expands to. *)
Lemma stack_expands s w : stack_derives s w ->
  (forall p, p ∈ s -> exists e, elem_at rules p = Ok e /\ is_end_of_sequence e = false) -> expands_to s w.
Proof.
  induction 1 as [|p s u v Hp Hs IH]; intros Hok.
  - exists []. split; [done|]. split; [done | constructor].
  - apply (derives_expands p u Hp s); [done| |].
    + apply IH. intros q Hq. apply Hok. by right.
    + destruct (Hok p) as (e & He & Hend); [left|]. unfold push. rewrite He. cbn. by rewrite Hend.
Qed.

(** ** The work list *)

Lemma terminal_no_child s c : terminal s -> child s c -> False.
Proof.
  intros Ht Hc. destruct Hc as [p s e ? ? ? ? He Hty]. destruct Ht as (e' & He' & Hcs).
  rewrite He in He'. injection He' as <-. unfold consumes in Hcs. by rewrite Hty in Hcs.
Qed.

Lemma terminal_reach s t : terminal s -> rtc child s t -> t = s.
Proof. intros Hs H. destruct H as [|s c t Hc _]; [done|]. by destruct (terminal_no_child s c). Qed.

Lemma elem_of_add_stack news s t : t ∈ add_stack news s <-> t ∈ news \/ t = s.
Proof. unfold add_stack. case_bool_decide; set_solver. Qed.

(** What has been seen is kept or has its children on the list. *)
Definition closed (seen : gset llama_grammar_stack) (todo news : list llama_grammar_stack) : Prop :=
  forall s, s ∈ seen -> (terminal s -> s ∈ news) /\ forall c, child s c -> c ∈ seen \/ c ∈ todo.

Definition reached (todo : list llama_grammar_stack) (t : llama_grammar_stack) : Prop :=
  exists s, s ∈ todo /\ rtc child s t /\ terminal t.

Lemma advance_loop_step fuel curr todo seen news out :
  advance_loop (S fuel) rules (curr :: todo) seen news = Ok out ->
  curr ∈ seen /\ advance_loop fuel rules todo seen news = Ok out \/
  terminal curr /\ advance_loop fuel rules todo ({[curr]} ∪ seen) (add_stack news curr) = Ok out \/
  exists cs, ~ terminal curr /\ (forall c, c ∈ cs <-> child curr c) /\
    advance_loop fuel rules (reverse cs ++ todo) ({[curr]} ∪ seen) news = Ok out.
Proof.
  cbn [advance_loop]. case_bool_decide as Hin; [by left|]. destruct curr as [|p s]; [by right; left|].
  intros H. apply bind_Ok in H as (e & He & H). right.
  assert (consumes e = true -> terminal (p :: s)) as Hterm by (intros Hc; by exists e).
  unfold consumes in Hterm. destruct (type e) eqn:Ht; try done; try (left; split; [by apply Hterm | done]).
  right. apply bind_Ok in H as (cs & Hcs & H). exists cs. split; [|split; [|done]].
  - intros (e' & He' & Hc). rewrite He in He'. injection He' as <-. unfold consumes in Hc. by rewrite Ht in Hc.
  - by eapply next_stacks_child.
Qed.

Lemma reached_cons todo s t : reached (s :: todo) t <-> (rtc child s t /\ terminal t) \/ reached todo t.
Proof. unfold reached. set_solver. Qed.

Lemma reached_children cs todo s t : ~ terminal s -> (forall c, c ∈ cs <-> child s c) ->
  reached (reverse cs ++ todo) t <-> (rtc child s t /\ terminal t) \/ reached todo t.
Proof.
  intros Hs Hcs. unfold reached. setoid_rewrite elem_of_app. setoid_rewrite elem_of_reverse. setoid_rewrite Hcs. split.
  - intros (c & [Hc|Hc] & Hr & Ht); [left; split; [by eapply rtc_l | done] | eauto].
  - intros [[Hr Ht]|(c & Hc & Hr & Ht)]; [|eauto]. destruct Hr as [|s c t Hc Hr]; [done|]. eauto.
Qed.

Lemma advance_sound fuel : forall todo seen news out,
  advance_loop fuel rules todo seen news = Ok out ->
  forall t, t ∈ out -> t ∈ news \/ reached todo t.
Proof.
  induction fuel as [|fuel IH]; intros todo seen news out H t Ht.
  { destruct todo; [injection H as <-; by left | done]. }
  destruct todo as [|curr todo]; [injection H as <-; by left|]. rewrite reached_cons.
  apply advance_loop_step in H as [[_ H]|[[Hc H]|(cs & Hn & Hcs & H)]].
  - apply (IH _ _ _ _ H) in Ht. tauto.
  - apply (IH _ _ _ _ H) in Ht as [Ht|Ht]; [|tauto]. apply elem_of_add_stack in Ht as [Ht| ->]; [tauto|].
    right. left. by split.
  - apply (IH _ _ _ _ H) in Ht as [Ht|Ht]; [tauto|]. rewrite (reached_children cs _ curr) in Ht by done. tauto.
Qed.

Lemma closed_skip seen curr todo news : closed seen (curr :: todo) news -> curr ∈ seen -> closed seen todo news.
Proof. intros H Hin s Hs. destruct (H s Hs) as [H1 H2]. split; [done|]. intros c Hc%H2. set_solver. Qed.

Lemma closed_terminal seen curr todo news :
  closed seen (curr :: todo) news -> terminal curr -> closed ({[curr]} ∪ seen) todo (add_stack news curr).
Proof.
  intros H Ht s [->%elem_of_singleton|Hs]%elem_of_union.
  - split; [intros _; apply elem_of_add_stack; by right|]. intros c Hc. by destruct (terminal_no_child curr c).
  - destruct (H s Hs) as [H1 H2]. split; [intros ?; apply elem_of_add_stack; left; auto|].
    intros c Hc%H2. set_solver.
Qed.

Lemma closed_expand seen curr todo news cs :
  closed seen (curr :: todo) news -> ~ terminal curr -> (forall c, c ∈ cs <-> child curr c) ->
  closed ({[curr]} ∪ seen) (reverse cs ++ todo) news.
Proof.
  intros H Ht Hcs s [->%elem_of_singleton|Hs]%elem_of_union.
  - split; [done|]. intros c Hc%Hcs. right. apply elem_of_app. left. by apply elem_of_reverse.
  - destruct (H s Hs) as [H1 H2]. split; [done|]. intros c Hc%H2. set_solver.
Qed.

Lemma advance_complete fuel : forall todo seen news out,
  advance_loop fuel rules todo seen news = Ok out -> closed seen todo news ->
  forall t, t ∈ news \/ reached (elements seen ++ todo) t -> t ∈ out.
Proof.
  induction fuel as [|fuel IH]; intros todo seen news out H Hcl t Ht.
  all: assert (todo = [] -> news = out -> t ∈ out) as Hnil.
  1, 3: intros -> <-; destruct Ht as [Ht|(s & Hs & Hr & Ht)]; [done|];
    rewrite app_nil_r in Hs; apply elem_of_elements in Hs;
    apply (Hcl t); [|done]; induction Hr as [|s c t Hc _ IHr]; [done|];
    apply IHr; [|done]; apply (Hcl s) in Hc; [|done]; set_solver.
  { destruct todo; [injection H as <-; by apply Hnil | done]. }
  destruct todo as [|curr todo]; [injection H as <-; by apply Hnil|].
  assert (reached (elements seen ++ curr :: todo) t <->
    (rtc child curr t /\ terminal t) \/ reached (elements seen ++ todo) t) as Heq.
  { rewrite <- reached_cons. unfold reached. set_solver. }
  rewrite Heq in Ht. apply advance_loop_step in H as [[Hin H]|[[Hc H]|(cs & Hn & Hcs & H)]].
  - apply (IH _ _ _ _ H); [by eapply closed_skip|]. unfold reached in *. set_solver.
  - apply (IH _ _ _ _ H); [by apply closed_terminal|]. rewrite elem_of_add_stack.
    destruct Ht as [Ht|[[Hr Ht]|Ht]]; [tauto| |].
    + apply terminal_reach in Hr; tauto.
    + right. unfold reached in *. set_solver.
  - apply (IH _ _ _ _ H); [by apply closed_expand|].
    assert (reached (elements ({[curr]} ∪ seen) ++ reverse cs ++ todo) t <->
      reached (elements seen) t \/ (rtc child curr t /\ terminal t) \/ reached (reverse cs ++ todo) t) as ->.
    { unfold reached. set_solver. }
    rewrite (reached_children cs _ curr) by done.
    assert (reached (elements seen ++ todo) t <-> reached (elements seen) t \/ reached todo t) as Happ
      by (unfold reached; set_solver). tauto.
Qed.

(** The stacks [llama_grammar_advance_stack] adds are the terminal ones the stack
    expands to. *)
Lemma advance_stack_elem fuel s news out :
  llama_grammar_advance_stack fuel rules s news = Ok out ->
  forall t, t ∈ out <-> t ∈ news \/ (rtc child s t /\ terminal t).
Proof.
  unfold llama_grammar_advance_stack. intros H t.
  assert (reached [s] t <-> rtc child s t /\ terminal t) as Hr by (unfold reached; set_solver).
  rewrite <- Hr. split; [by apply (advance_sound _ _ _ _ _ H)|].
  intros Ht. apply (advance_complete _ _ _ _ _ H); [intros ? []%not_elem_of_empty|].
  by rewrite elements_empty.
Qed.

Lemma advance_nodup fuel : forall todo seen news out,
  advance_loop fuel rules todo seen news = Ok out -> NoDup news -> NoDup out.
Proof.
  assert (forall news s, NoDup news -> NoDup (add_stack news s)) as Hadd.
  { intros news s Hn. unfold add_stack. case_bool_decide; [done|]. apply NoDup_app. split_and!; [done| |].
    - intros x Hx ->%list_elem_of_singleton. done.
    - apply NoDup_singleton. }
  induction fuel as [|fuel IH]; intros todo seen news out H Hn.
  { destruct todo; [by injection H as <- | done]. }
  destruct todo as [|curr todo]; [by injection H as <-|].
  apply advance_loop_step in H as [[Hin H]|[[Hc H]|(cs & Hnt & Hcs & H)]]; eauto.
Qed.

(** ** Consuming *)

Definition clean (s : llama_grammar_stack) : Prop :=
  forall p, p ∈ s -> exists e, elem_at rules p = Ok e /\ is_end_of_sequence e = false.

Definition live (s : llama_grammar_stack) : Prop := terminal s /\ clean s.

Lemma clean_nil : clean [].
Proof. intros p Hp. by apply not_elem_of_nil in Hp. Qed.

Lemma clean_tail p s : clean (p :: s) -> clean s.
Proof. intros H q Hq. apply H. by right. Qed.

Lemma push_clean p s s' : clean s -> push rules p s = Ok s' -> clean s'.
Proof.
  unfold push. intros Hs H. apply bind_Ok in H as (e & He & H). destruct (is_end_of_sequence e) eqn:Hend;
    injection H as <-; [done|]. intros q [->|Hq]%elem_of_cons; [eauto | by apply Hs].
Qed.

Lemma reach_clean s t : clean s -> rtc child s t -> clean t.
Proof.
  intros Hs H. induction H as [|s c t Hc _ IH]; [done|]. apply IH.
  destruct Hc as [p s e alts q s1 c He Ht Ha Hq E1 E2].
  eapply push_clean, E2. eapply push_clean, E1. by eapply clean_tail.
Qed.

Lemma advance_derives fuel s news out w : clean s ->
  llama_grammar_advance_stack fuel rules s news = Ok out ->
  stacks_derive out w <-> stacks_derive news w \/ stack_derives s w.
Proof.
  intros Hs H. pose proof (advance_stack_elem _ _ _ _ H) as Hout. unfold stacks_derive.
  setoid_rewrite Hout. split.
  - intros (t & [Ht|[Hr _]] & Hw); [eauto|]. right. by eapply reach_derives.
  - intros [(t & Ht & Hw)|Hw]; [eauto|]. destruct (stack_expands _ _ Hw Hs) as (t & Hr & Ht & Htw). eauto.
Qed.

Lemma advance_live fuel s news out : clean s -> Forall live news ->
  llama_grammar_advance_stack fuel rules s news = Ok out -> Forall live out.
Proof.
  intros Hs Hn H. apply Forall_forall. intros t Ht.
  apply (advance_stack_elem _ _ _ _ H) in Ht as [Ht|[Hr Ht]]; [by eapply Forall_forall in Hn|].
  split; [done|]. by eapply reach_clean.
Qed.

(** A stack that consumes starts every word with a symbol its top matches. *)
Lemma terminal_derives p s w : terminal (p :: s) -> stack_derives (p :: s) w ->
  exists a v, w = a :: v /\
    ((exists e c q, a = Chr c /\ elem_at rules p = Ok e /\ is_token e = false /\
       llama_grammar_match_char rules p c = Ok (true, q) /\
       exists v1 v2, v = v1 ++ v2 /\ derives q v1 /\ stack_derives s v2) \/
     (exists e t, a = Tok t /\ elem_at rules p = Ok e /\ llama_grammar_match_token e t = Ok true /\
       exists v1 v2, v = v1 ++ v2 /\ derives (next p) v1 /\ stack_derives s v2)).
Proof.
  intros (e & He & Hc). inversion 1 as [|? ? u v Hu Hv]; subst.
  destruct Hu as [p e' He' Hend | p e' c q u He' Ht Hm Hu | p e' t u He' Hm Hu | p e' ? ? ? ? He' Ht];
    rewrite He in He'; injection He' as <-.
  - exfalso. revert Hc Hend. unfold consumes, is_end_of_sequence. by destruct (type e).
  - exists (Chr c), (u ++ v). split; [done|]. left. eauto 15.
  - exists (Tok t), (u ++ v). split; [done|]. right. eauto 15.
  - exfalso. unfold consumes in Hc. by rewrite Ht in Hc.
Qed.

Lemma accept_chr_derives fuel s c news out w : live s ->
  llama_grammar_accept_chr fuel rules s c news = Ok out ->
  stacks_derive out w <-> stacks_derive news w \/ stack_derives s (Chr c :: w).
Proof.
  intros [Ht Hc] H. destruct s as [|p s].
  { injection H as <-. split; [tauto|]. intros [?|Hs]; [done | inversion Hs]. }
  cbn [llama_grammar_accept_chr] in H. apply bind_Ok in H as (e & He & H).
  assert (forall v, stack_derives (p :: s) (Chr c :: v) <-> is_token e = false /\ exists q,
    llama_grammar_match_char rules p c = Ok (true, q) /\
    exists v1 v2, v = v1 ++ v2 /\ derives q v1 /\ stack_derives s v2) as Hsd.
  { intros v. split.
    - intros (a & v' & [= <- <-] & [(e' & c' & q & [= <-] & He' & ? & ? & ?)|(? & ? & [=] & _)])%terminal_derives; [|done].
      rewrite He in He'. injection He' as <-. eauto.
    - intros (Hte & q & Hm & v1 & v2 & -> & H1 & H2). apply (stack_cons p s (Chr c :: v1)); [|done].
      by eapply derives_char. }
  rewrite Hsd. destruct (is_token e).
  { injection H as <-. naive_solver. }
  apply bind_Ok in H as ([b q] & Hm & H). setoid_rewrite Hm. cbn [fst snd] in H. destruct b.
  - apply bind_Ok in H as (s' & Hpush & H). rewrite (advance_derives _ _ _ _ _ (push_clean _ _ _ (clean_tail _ _ Hc) Hpush) H).
    rewrite (push_derives _ _ _ _ Hpush). apply or_iff_compat_l. split; [eauto|]. intros (_ & q' & [= <-] & ?). done.
  - injection H as <-. split; [tauto|]. intros [?|(_ & q' & [=] & _)]. done.
Qed.

Lemma accept_chr_live fuel s c news out : live s -> Forall live news ->
  llama_grammar_accept_chr fuel rules s c news = Ok out -> Forall live out.
Proof.
  intros [Ht Hc] Hn H. destruct s as [|p s]; [by injection H as <-|]. cbn [llama_grammar_accept_chr] in H.
  apply bind_Ok in H as (e & He & H). destruct (is_token e); [by injection H as <-|].
  apply bind_Ok in H as ([b q] & Hm & H). destruct b; cbn [fst snd] in H; [|by injection H as <-].
  apply bind_Ok in H as (s' & Hpush & H). eapply advance_live, H; [|done].
  eapply push_clean, Hpush. by eapply clean_tail.
Qed.

Lemma stacks_derive_nil w : ~ stacks_derive [] w.
Proof. intros (s & Hs & _). by apply not_elem_of_nil in Hs. Qed.

Lemma stacks_derive_cons s l w : stacks_derive (s :: l) w <-> stack_derives s w \/ stacks_derive l w.
Proof.
  unfold stacks_derive. setoid_rewrite elem_of_cons. split.
  - intros (t & [->|Ht] & Hw); eauto.
  - intros [Hw|(t & Ht & Hw)]; eauto.
Qed.

(** A loop that adds to the stacks what each element of a list contributes. *)
Lemma gather_derives {A} (f : llama_grammar_stacks -> A -> R llama_grammar_stacks) (P : A -> list symbol -> Prop) l :
  forall news out, Forall live news ->
  (forall a news out, a ∈ l -> Forall live news -> f news a = Ok out ->
     Forall live out /\ forall w, stacks_derive out w <-> stacks_derive news w \/ P a w) ->
  foldM f news l = Ok out ->
  Forall live out /\ forall w, stacks_derive out w <-> stacks_derive news w \/ exists a, a ∈ l /\ P a w.
Proof.
  induction l as [|a l IH]; intros news out Hn Hf H; cbn [foldM] in H.
  - injection H as <-. split; [done|]. set_solver.
  - apply bind_Ok in H as (mid & H1 & H2). apply Hf in H1 as [Hm H1]; [|left|done].
    destruct (IH mid out) as [Hout Hw]; [done| |done|].
    { intros b n o Hb. apply Hf. by right. }
    split; [done|]. intros w. rewrite Hw, H1. set_solver.
Qed.

Lemma accept_stacks_derives fuel l c out : Forall live l -> accept_stacks fuel rules l c = Ok out ->
  Forall live out /\ forall w, stacks_derive out w <-> stacks_derive l (Chr c :: w).
Proof.
  intros Hl H. apply (gather_derives _ (fun s w => stack_derives s (Chr c :: w))) in H as [Hout H].
  - split; [done|]. intros w. rewrite H. unfold stacks_derive. set_solver.
  - constructor.
  - intros s news out' Hs Hn Ho. rewrite Forall_forall in Hl. specialize (Hl s Hs).
    split; [by eapply accept_chr_live | intros w; by eapply accept_chr_derives].
Qed.

Lemma accept_all_derives fuel u : forall l out, Forall live l -> foldM (accept_stacks fuel rules) l u = Ok out ->
  Forall live out /\ forall w, stacks_derive out w <-> stacks_derive l (map Chr u ++ w).
Proof.
  induction u as [|c u IH]; intros l out Hl H; cbn [foldM] in H; [by injection H as <-|].
  apply bind_Ok in H as (mid & H1 & H2). destruct (accept_stacks_derives _ _ _ _ Hl H1) as [Hm Hw].
  destruct (IH _ _ Hm H2) as [Ho Hw']. split; [done|]. intros w. by rewrite Hw', Hw.
Qed.

(** The initial stacks derive what the start rule derives. *)
Lemma initial_stacks_derive fuel start out : initial_stacks fuel rules start = Ok out ->
  Forall live out /\ forall w, stacks_derive out w <-> rule_derives start w.
Proof.
  unfold initial_stacks. intros H. apply bind_Ok in H as (alts & Ha & H).
  apply (gather_derives _ derives) in H as [Hout H].
  - split; [done|]. intros w. rewrite H. unfold rule_derives. setoid_rewrite Ha. split.
    + intros [?%stacks_derive_nil|(q & Hq & Hw)]; [done | eauto].
    + intros (alts' & q & [= <-] & Hq & Hw). eauto.
  - constructor.
  - intros q news out' _ Hn Ho. apply bind_Ok in Ho as (s & Hs & Ho).
    pose proof (push_clean _ _ _ clean_nil Hs) as Hc. split; [by eapply advance_live|].
    intros w. rewrite (advance_derives _ _ _ _ _ Hc Ho), (push_derives _ _ _ _ Hs). apply or_iff_compat_l. split.
    + intros (u & v & -> & Hu & Hv). inversion Hv; subst. by rewrite app_nil_r.
    + intros Hw. exists w, []. rewrite app_nil_r. split_and!; [done..|constructor].
Qed.

(** Only the empty stack derives the empty word. *)
Lemma live_nil l : Forall live l -> stacks_derive l [] <-> [] ∈ l.
Proof.
  intros Hl. split.
  - intros (s & Hs & Hw). rewrite Forall_forall in Hl. destruct s as [|p s]; [done|].
    destruct (terminal_derives p s [] (proj1 (Hl _ Hs)) Hw) as (? & ? & [=] & _).
  - intros H. exists []. split; [done | constructor].
Qed.
End Language.
End GrammarLang.
