(* ===== verification/GrammarTerm.v ===== *)
(** Termination of the expansion of stacks, and the search for left recursion:
    when no rule can reach itself before consuming anything, every call of
    [llama_grammar_advance_stack] returns; the search of the code establishes this
    for rules whose possibly empty rules have an empty alternative. *)

From S2P Require Import Prelude Grammar GrammarWf GrammarLang.
Import Grammar GrammarWf GrammarLang.

Module GrammarTerm.

(** ** The work list returns when the expansion is well-founded *)

Section Terminates.
Variable rules : llama_grammar_rules.
Hypothesis Hwf : wf_rules rules = true.

Abbreviation expanding := (Acc (fun c s => child rules s c)).

Lemma advance_mono fuel fuel' : (fuel <= fuel')%nat -> forall todo seen news out,
  advance_loop fuel rules todo seen news = Ok out -> advance_loop fuel' rules todo seen news = Ok out.
Proof.
  revert fuel'. induction fuel as [|fuel IH]; intros fuel' Hle todo seen news out.
  { destruct todo; [by destruct fuel' | done]. }
  destruct fuel' as [|fuel']; [lia|]. destruct todo as [|curr todo]; [done|]. cbn [advance_loop].
  assert (fuel <= fuel')%nat as Hle' by lia.
  case_bool_decide; [by apply IH|]. destruct curr as [|p s]; [by apply IH|].
  intros H'. apply bind_Ok in H' as (e & He & H'). rewrite He. bind_simpl.
  destruct (type e); try done; try (by apply IH).
  apply bind_Ok in H' as (cs & Hcs & H'). rewrite Hcs. bind_simpl. by apply IH.
Qed.

Definition returns (todo : list llama_grammar_stack) : Prop :=
  forall seen news, exists fuel out, advance_loop fuel rules todo seen news = Ok out.

Lemma stack_ok_top p s : stack_ok rules (p :: s) -> exists e, elem_at rules p = Ok e /\
  (consumes e = true \/ type e = LLAMA_GRETYPE_RULE_REF) /\ pos_ok rules p /\ stack_ok rules s.
Proof.
  intros [[Hp Hne] Hs]%Forall_cons. destruct (pos_ok_elem _ _ Hp) as (e & He & Hic).
  exists e. split; [done|]. split; [|done]. specialize (Hne e He). revert Hne Hic.
  unfold is_end_of_sequence, in_class, consumes. destruct (type e); auto.
Qed.

Lemma ref_children p s e : stack_ok rules (p :: s) -> elem_at rules p = Ok e -> type e = LLAMA_GRETYPE_RULE_REF ->
  exists cs, next_stacks rules (Z.to_nat (value e)) p s = Ok cs /\
    (forall c, c ∈ cs <-> child rules (p :: s) c) /\ Forall (stack_ok rules) cs.
Proof.
  intros Hok He Ht. destruct (stack_ok_top _ _ Hok) as (e' & He' & _ & Hp & Hs). rewrite He in He'.
  injection He' as <-.
  destruct (next_stacks_ok rules (Z.to_nat (value e)) p s) as (cs & Hcs & Hall); [done| | |done|].
  - by eapply pos_ok_ref.
  - eapply pos_ok_next; [done..|]. by rewrite Ht.
  - exists cs. split; [done|]. split; [|done]. by eapply next_stacks_child.
Qed.

Lemma child_ok s c : stack_ok rules s -> child rules s c -> stack_ok rules c.
Proof.
  intros Hok Hc. pose proof Hc as Hc'. destruct Hc' as [p s e alts q s1 c He Ht _ _ _ _].
  destruct (ref_children _ _ _ Hok He Ht) as (cs & _ & Hcs & Hall).
  rewrite Forall_forall in Hall. by apply Hall, Hcs.
Qed.

Lemma returns_app l todo :
  (forall s todo, s ∈ l -> returns todo -> returns (s :: todo)) -> returns todo -> returns (l ++ todo).
Proof.
  induction l as [|s l IH]; intros Hl Ht; [done|]. cbn [app]. apply Hl; [left|].
  apply IH; [|done]. intros s' todo' Hs'. apply Hl. by right.
Qed.

Lemma expanding_returns s : expanding s -> stack_ok rules s -> forall todo, returns todo -> returns (s :: todo).
Proof.
  induction 1 as [s _ IH]. intros Hok todo Ht seen news.
  destruct (decide (s ∈ seen)) as [Hin|Hin].
  { destruct (Ht seen news) as (fuel & out & Hout). exists (S fuel), out. cbn [advance_loop].
    by rewrite bool_decide_eq_true_2. }
  destruct s as [|p s].
  { destruct (Ht ({[[]]} ∪ seen) (add_stack news [])) as (fuel & out & Hout). exists (S fuel), out.
    cbn [advance_loop]. by rewrite bool_decide_eq_false_2. }
  destruct (stack_ok_top _ _ Hok) as (e & He & [Hc|Hr] & _).
  - destruct (Ht ({[p :: s]} ∪ seen) (add_stack news (p :: s))) as (fuel & out & Hout). exists (S fuel), out.
    cbn [advance_loop]. rewrite bool_decide_eq_false_2 by done. rewrite He. bind_simpl.
    revert Hc. unfold consumes. destruct (type e); done.
  - destruct (ref_children _ _ _ Hok He Hr) as (cs & Hcs & Hch & Hall).
    assert (returns (reverse cs ++ todo)) as Hret.
    { apply returns_app; [|done]. intros c todo' Hc Htodo'. rewrite elem_of_reverse in Hc.
      apply IH; [by apply Hch| |done]. rewrite Forall_forall in Hall. by apply Hall. }
    destruct (Hret ({[p :: s]} ∪ seen) news) as (fuel & out & Hout). exists (S fuel), out.
    cbn [advance_loop]. rewrite bool_decide_eq_false_2 by done. rewrite He. bind_simpl. rewrite Hr, Hcs. done.
Qed.

(** With any larger fuel too. *)
Definition runs {A} (r : nat -> R A) : Prop := exists a n, forall fuel, (n <= fuel)%nat -> r fuel = Ok a.

Lemma advance_runs s news : expanding s -> stack_ok rules s ->
  runs (fun fuel => llama_grammar_advance_stack fuel rules s news).
Proof.
  intros Hs Hok. destruct (expanding_returns s Hs Hok []) with (seen := ∅ : gset llama_grammar_stack) (news := news)
    as (n & out & Hout).
  - intros seen' news'. by exists 0%nat, news'.
  - exists out, n. intros fuel Hle. by eapply advance_mono.
Qed.

(** ** The expansion is well-founded without left recursion *)

Lemma expanding_terminal s : terminal rules s -> expanding s.
Proof. intros Ht. constructor. intros c Hc. by destruct (terminal_no_child rules s c). Qed.

Lemma push_app p t s : push rules p (t ++ s) = (t' ← push rules p t; Ok (t' ++ s)).
Proof. unfold push. destruct (elem_at rules p) as [e|]; [|done]. bind_simpl. by destruct (is_end_of_sequence e). Qed.

Lemma child_app p t s c : child rules (p :: t ++ s) c -> exists c', child rules (p :: t) c' /\ c = c' ++ s.
Proof.
  inversion 1 as [? ? e alts q s1 ? He Ht Ha Hq E1 E2]; subst. rewrite push_app in E1.
  apply bind_Ok in E1 as (t' & E1 & E1'). injection E1' as <-. rewrite push_app in E2.
  apply bind_Ok in E2 as (c' & E2 & E2'). injection E2' as <-. exists c'. split; [|done]. by econstructor.
Qed.

Lemma expanding_app t s : expanding t -> (rtc (child rules) t [] -> expanding s) -> expanding (t ++ s).
Proof.
  induction 1 as [t _ IH]. intros Hs. destruct t as [|p t]; [by apply Hs|].
  constructor. intros c (c' & Hc' & ->)%child_app. apply IH; [done|].
  intros Hr. apply Hs. by eapply rtc_l.
Qed.

(** Positions reached from the start of an alternative over possibly empty rules. *)
Inductive left_pos : position -> position -> Prop :=
| left_here q : left_pos q q
| left_skip q p e : left_pos q p -> elem_at rules p = Ok e -> type e = LLAMA_GRETYPE_RULE_REF ->
    rule_derives rules (Z.to_nat (value e)) [] -> left_pos q (next p).

(** Rule [k] can start with rule [j]. *)
Definition left_edge (k j : nat) : Prop :=
  exists alts q p e, alternates rules k = Ok alts /\ q ∈ alts /\ left_pos q p /\
    elem_at rules p = Ok e /\ type e = LLAMA_GRETYPE_RULE_REF /\ Z.to_nat (value e) = j.

Definition no_left_recursion : Prop := forall k, (k < length rules)%nat -> Acc (fun j k => left_edge k j) k.

Lemma push_nil_derives q t : push rules q [] = Ok t -> rtc (child rules) t [] -> derives rules q [].
Proof.
  intros Hq Hr. assert (stack_derives rules t []) as Hd by (eapply reach_derives, stack_nil; done).
  apply (push_derives _ _ _ _ _ Hq) in Hd as (u & v & Heq & Hu & _). destruct u; [done | done].
Qed.

(** One step of the expansion of a position, given the expansion of the rules it
    refers to and of the position after it. *)
Lemma expanding_pos p t :
  pos_ok rules p -> push rules p [] = Ok t ->
  (forall e alts q c, elem_at rules p = Ok e -> type e = LLAMA_GRETYPE_RULE_REF ->
     alternates rules (Z.to_nat (value e)) = Ok alts -> q ∈ alts -> push rules q [] = Ok c -> expanding c) ->
  (forall e t', elem_at rules p = Ok e -> type e = LLAMA_GRETYPE_RULE_REF ->
     rule_derives rules (Z.to_nat (value e)) [] -> push rules (next p) [] = Ok t' -> expanding t') ->
  expanding t.
Proof.
  intros Hp Hpush Hrule Hnext. destruct (pos_ok_elem _ _ Hp) as (e & He & Hic).
  unfold push in Hpush. rewrite He in Hpush. cbn in Hpush.
  destruct (is_end_of_sequence e) eqn:Hend; injection Hpush as <-; [by apply expanding_terminal|].
  destruct (consumes e) eqn:Hc; [apply expanding_terminal; by exists e|].
  assert (type e = LLAMA_GRETYPE_RULE_REF) as Ht.
  { revert Hic Hend Hc. unfold in_class, is_end_of_sequence, consumes. by destruct (type e). }
  constructor. inversion 1 as [? ? e' alts q s1 ? He' _ Ha Hq E1 E2]; subst.
  rewrite He in He'. injection He' as <-.
  change s1 with ([] ++ s1) in E2. rewrite push_app in E2. apply bind_Ok in E2 as (c & E2 & Hc'). injection Hc' as <-.
  apply expanding_app; [by eapply Hrule|]. intros Hr. eapply Hnext; [done..| |done].
  exists alts, q. split; [done|]. split; [done|]. by eapply push_nil_derives.
Qed.

Lemma rule_pos_ok k alts q : (k < length rules)%nat -> alternates rules k = Ok alts -> q ∈ alts -> pos_ok rules q.
Proof.
  intros Hk Ha Hq. destruct (alternates_ok rules k Hwf Hk) as (alts' & Ha' & _ & Hall).
  rewrite Ha in Ha'. injection Ha' as <-. by apply Hall.
Qed.

(** The number of elements from a position to the end of its rule. *)
Definition remaining (p : position) : nat :=
  match rest_at rules p with Ok l => length l | Error _ => 0%nat end.

Lemma remaining_next p e : elem_at rules p = Ok e -> (remaining (next p) < remaining p)%nat.
Proof.
  intros (r & Hr & Hd)%elem_at_drop. unfold remaining, rest_at. cbn [next fst snd].
  rewrite (at_lookup _ _ _ Hr). bind_simpl. rewrite Hd. cbn [length]. lia.
Qed.

Lemma pos_expanding_step (Ctx : position -> Prop) :
  (forall p e alts q c, Ctx p -> pos_ok rules p -> elem_at rules p = Ok e -> type e = LLAMA_GRETYPE_RULE_REF ->
     alternates rules (Z.to_nat (value e)) = Ok alts -> q ∈ alts -> push rules q [] = Ok c -> expanding c) ->
  (forall p e, Ctx p -> elem_at rules p = Ok e -> type e = LLAMA_GRETYPE_RULE_REF ->
     rule_derives rules (Z.to_nat (value e)) [] -> Ctx (next p)) ->
  forall n p t, (remaining p < n)%nat -> Ctx p -> pos_ok rules p -> push rules p [] = Ok t -> expanding t.
Proof.
  intros Hrule Hctx. induction n as [|n IH]; intros p t Hn HC Hp Ht; [lia|].
  eapply expanding_pos; [done..| |].
  - intros e alts q c He Hty. by eapply Hrule.
  - intros e t' He Hty Hd Ht'. apply (IH (next p)); [|by eapply Hctx| |done].
    + pose proof (remaining_next _ _ He). lia.
    + eapply pos_ok_next; [done..|]. by rewrite Hty.
Qed.

Lemma rule_expanding k : (k < length rules)%nat -> Acc (fun j k => left_edge k j) k ->
  forall alts q t, alternates rules k = Ok alts -> q ∈ alts -> push rules q [] = Ok t -> expanding t.
Proof.
  intros Hk Hacc. revert Hk. induction Hacc as [k _ IH]. intros Hk alts q t Ha Hq.
  eapply (pos_expanding_step (left_pos q)); [| |apply Nat.lt_succ_diag_r|constructor|by eapply rule_pos_ok].
  - intros p e alts' q' c Hl Hp He Ht Ha' Hq'. apply (IH (Z.to_nat (value e))) with (alts := alts'); [| |done..].
    + by exists alts, q, p, e.
    + by eapply pos_ok_ref.
  - intros p e Hl He Ht Hd. by econstructor.
Qed.

Lemma pos_expanding p t : no_left_recursion -> pos_ok rules p -> push rules p [] = Ok t -> expanding t.
Proof.
  intros Hn Hp. eapply (pos_expanding_step (fun _ => True)); [| |apply Nat.lt_succ_diag_r|done|done].
  - intros p' e alts q c _ Hp' He Ht Ha. assert (Z.to_nat (value e) < length rules)%nat as Hk by by eapply pos_ok_ref.
    by apply (rule_expanding (Z.to_nat (value e)) Hk (Hn _ Hk) alts).
  - done.
Qed.

Lemma stack_expanding s : no_left_recursion -> stack_ok rules s -> expanding s.
Proof.
  intros Hn. induction 1 as [|p s [Hp He] _ IH]; [by apply expanding_terminal|].
  change (p :: s) with ([p] ++ s). apply expanding_app; [|done]. apply (pos_expanding p); [done..|].
  destruct (pos_ok_elem _ _ Hp) as (e & HE & _). unfold push. rewrite HE. cbn. by rewrite (He e HE).
Qed.

(** ** Runs *)

Lemma runs_ret {A} (a : A) : runs (fun _ => Ok a).
Proof. by exists a, 0%nat. Qed.

Lemma runs_bind {A B} (r : nat -> R A) (k : A -> nat -> R B) :
  runs r -> (forall a, (exists fuel, r fuel = Ok a) -> runs (k a)) -> runs (fun fuel => a ← r fuel; k a fuel).
Proof.
  intros (a & n & Ha) Hk. destruct (Hk a) as (b & m & Hb); [exists n; by apply Ha|].
  exists b, (n + m)%nat. intros fuel Hle. rewrite Ha by lia. bind_simpl. apply Hb. lia.
Qed.

Lemma runs_const {A B} (r : R A) a (k : A -> nat -> R B) : r = Ok a -> runs (k a) -> runs (fun fuel => a ← r; k a fuel).
Proof. by intros ->. Qed.

Lemma runs_foldM {A St} (I : St -> Prop) (f : nat -> St -> A -> R St) l :
  (forall a st, a ∈ l -> I st -> runs (fun fuel => f fuel st a)) ->
  (forall fuel a st st', a ∈ l -> I st -> f fuel st a = Ok st' -> I st') ->
  forall st, I st -> runs (fun fuel => foldM (f fuel) st l).
Proof.
  induction l as [|a l IH]; intros Hf HI st Hst; [apply runs_ret|]. cbn [foldM].
  apply (runs_bind (fun fuel => f fuel st a)); [apply Hf; [left | done]|]. intros st' [fuel Hst'].
  apply IH.
  - intros b s Hb. apply Hf. by right.
  - intros fl b s s' Hb. apply HI. by right.
  - by apply (HI fuel a st); [left|..].
Qed.

Definition sound (s : llama_grammar_stack) : Prop := terminal rules s /\ stack_ok rules s.

Lemma stack_ok_clean s : stack_ok rules s -> clean rules s.
Proof.
  intros Hs p Hp. unfold stack_ok in Hs. rewrite Forall_forall in Hs. destruct (Hs p Hp) as [Hpos He].
  destruct (pos_ok_elem _ _ Hpos) as (e & HE & _). eauto.
Qed.

Lemma sound_live l : Forall sound l -> Forall (live rules) l.
Proof. intros H. eapply Forall_impl; [exact H|]. intros s [Ht Hs]. split; [done | by apply stack_ok_clean]. Qed.

Lemma advance_sound_stacks fuel s news out : stack_ok rules s -> Forall sound news ->
  llama_grammar_advance_stack fuel rules s news = Ok out -> Forall sound out.
Proof.
  intros Hs Hn H. apply Forall_forall. intros t Ht.
  apply (advance_stack_elem _ _ _ _ _ H) in Ht as [Ht|[Hr Ht]]; [rewrite Forall_forall in Hn; by apply Hn|].
  split; [done|]. clear - Hwf Hs Hr. induction Hr as [|s c t Hc _ IH]; [done|]. by apply IH, (child_ok s).
Qed.

(** The top of a sound stack. *)
Lemma sound_top p s c : sound (p :: s) -> code_point c -> exists e, elem_at rules p = Ok e /\ stack_ok rules s /\
  if is_token e then pos_ok rules (next p)
  else exists b q, llama_grammar_match_char rules p c = Ok (b, q) /\ pos_ok rules q.
Proof.
  intros [(e & He & Hc) Hok] Hcp. destruct (stack_ok_top _ _ Hok) as (e' & He' & _ & Hp & Hs).
  rewrite He in He'. injection He' as <-. exists e. split; [done|]. split; [done|].
  destruct (is_token e) eqn:Ht.
  - eapply pos_ok_next; [done..|]. revert Ht. unfold is_token. by destruct (type e).
  - destruct (match_char_ok rules p e c Hp He Hcp) as (r & m & _ & Hm & Hq); [|eauto].
    revert Ht Hc. unfold is_token, consumes, is_positive_char. by destruct (type e).
Qed.

Lemma accept_chr_sound fuel s c news out : sound s -> code_point c -> Forall sound news ->
  llama_grammar_accept_chr fuel rules s c news = Ok out -> Forall sound out.
Proof.
  intros Hs Hc Hn H. destruct s as [|p s]; [by injection H as <-|].
  destruct (sound_top p s c Hs Hc) as (e & He & Hok & Hm). cbn [llama_grammar_accept_chr] in H.
  rewrite He in H. cbn in H. destruct (is_token e); [by injection H as <-|].
  destruct Hm as (b & q & Hm & Hq). rewrite Hm in H. cbn in H. destruct b; [|by injection H as <-].
  destruct (push_ok _ q s Hq Hok) as (s' & E & Hs'). rewrite E in H. cbn in H. by eapply advance_sound_stacks.
Qed.

Lemma gather_sound {A} (f : llama_grammar_stacks -> A -> R llama_grammar_stacks) l news out :
  (forall a news out, a ∈ l -> Forall sound news -> f news a = Ok out -> Forall sound out) ->
  Forall sound news -> foldM f news l = Ok out -> Forall sound out.
Proof.
  revert news. induction l as [|a l IH]; intros news Hf Hn H; cbn [foldM] in H; [by injection H as <-|].
  apply bind_Ok in H as (mid & H1 & H2). apply (IH mid); [|by eapply Hf; [left|..]|done].
  intros b n o Hb. apply Hf. by right.
Qed.

Lemma accept_stacks_sound fuel l c out : Forall sound l -> code_point c ->
  accept_stacks fuel rules l c = Ok out -> Forall sound out.
Proof.
  intros Hl Hc. apply gather_sound; [|constructor]. intros s news out' Hs Hn. rewrite Forall_forall in Hl.
  by apply accept_chr_sound; [apply Hl | ..].
Qed.

Lemma initial_stacks_sound fuel start out : (start < length rules)%nat ->
  initial_stacks fuel rules start = Ok out -> Forall sound out.
Proof.
  intros Hstart H. apply bind_Ok in H as (alts & Ha & H). revert H. apply gather_sound; [|constructor].
  intros q news out' Hq Hn H. destruct (push_ok rules q [] (rule_pos_ok _ _ _ Hstart Ha Hq)) as (s & E & Hs); [constructor|].
  rewrite E in H. cbn in H. by eapply advance_sound_stacks.
Qed.

Hypothesis Hleft : no_left_recursion.

Lemma accept_chr_runs s c news : sound s -> code_point c ->
  runs (fun fuel => llama_grammar_accept_chr fuel rules s c news).
Proof.
  intros Hs Hc. destruct s as [|p s]; [apply runs_ret|].
  destruct (sound_top p s c Hs Hc) as (e & He & Hok & Hm). cbn [llama_grammar_accept_chr].
  apply (runs_const _ e); [done|]. destruct (is_token e); [apply runs_ret|].
  destruct Hm as (b & q & Hm & Hq). apply (runs_const _ (b, q)); [done|]. cbn [fst snd].
  destruct b; [|apply runs_ret]. destruct (push_ok _ q s Hq Hok) as (s' & E & Hs').
  apply (runs_const _ s'); [done|]. apply advance_runs; [|done]. by apply stack_expanding.
Qed.

Lemma accept_stacks_runs l c : Forall sound l -> code_point c -> runs (fun fuel => accept_stacks fuel rules l c).
Proof.
  intros Hl Hc. rewrite Forall_forall in Hl. apply (runs_foldM (Forall sound)); [| |constructor].
  - intros s news Hs _. apply accept_chr_runs; [by apply Hl | done].
  - intros fuel s news out Hs Hn. by apply accept_chr_sound; [apply Hl | ..].
Qed.

Lemma accept_all_runs l u : Forall sound l -> Forall code_point u -> runs (fun fuel => foldM (accept_stacks fuel rules) l u).
Proof.
  intros Hl Hu. rewrite Forall_forall in Hu. apply (runs_foldM (Forall sound)); [| |done].
  - intros c st Hc Hst. by apply accept_stacks_runs; [|apply Hu].
  - intros fuel c st st' Hc Hst. by apply accept_stacks_sound; [|apply Hu].
Qed.

Lemma initial_stacks_runs start : (start < length rules)%nat -> runs (fun fuel => initial_stacks fuel rules start).
Proof.
  intros Hstart. destruct (alternates_ok rules start Hwf Hstart) as (alts & Ha & _ & Hall).
  apply (runs_const _ alts); [done|]. apply (runs_foldM (fun _ => True)); [|done|done].
  intros q news Hq _. destruct (push_ok rules q [] (proj1 (Hall q Hq))) as (s & E & Hs); [constructor|].
  apply (runs_const _ s); [done|]. apply advance_runs; [|done]. by apply stack_expanding.
Qed.
End Terminates.
End GrammarTerm.
