(* ===== verification/GrammarRec.v ===== *)
(** The search for left recursion of [llama_grammar_detect_left_recursion]: it
    returns within a depth of one more than the number of rules, and when it finds
    nothing no rule can start with itself, provided the rules that derive the empty
    string have an empty alternative. *)

From S2P Require Import Prelude Grammar GrammarWf GrammarLang GrammarTerm.
Import Grammar GrammarWf GrammarLang GrammarTerm.

Module GrammarRec.

Section Search.
Variable rules : llama_grammar_rules.

Definition directly_empty (k : nat) : bool :=
  match rules !! k with Some r => has_empty_alternative r true | None => false end.

(** The references the search looks into. *)
Fixpoint left_refs (l : llama_grammar_rule) (recurse : bool) : list nat :=
  match l with
  | [] => []
  | e :: l =>
      if bool_decide (type e = LLAMA_GRETYPE_RULE_REF) && recurse then
        Z.to_nat (value e) :: left_refs l (directly_empty (Z.to_nat (value e)))
      else left_refs l (is_end_of_sequence e)
  end.

Definition looks_into (k j : nat) : Prop := exists r, rules !! k = Some r /\ j ∈ left_refs r true.

Abbreviation acyclic := (Acc (fun j k => looks_into k j)).

Lemma left_refs_mono l : forall a b, (a = true -> b = true) -> forall j, j ∈ left_refs l a -> j ∈ left_refs l b.
Proof.
  induction l as [|e l IH]; intros a b Hab j; [done|]. cbn [left_refs].
  destruct (bool_decide (type e = LLAMA_GRETYPE_RULE_REF)) eqn:Ht; cbn [andb]; [|done].
  destruct a, b; try done; [by specialize (Hab eq_refl)|]. bool_prop.
  intros Hj. right. revert Hj. apply IH. unfold is_end_of_sequence. by rewrite Ht.
Qed.

(** ** What the search keeps *)

(** Flags only go up, and the rules visited have no cycle in front of them. *)
Definition flags_up (st st' : recursion_state) : Prop :=
  (forall k, may_be_empty st !! k = Some true -> may_be_empty st' !! k = Some true) /\
  length (may_be_empty st') = length (may_be_empty st) /\ length (visited st') = length (visited st) /\
  length (in_progress st') = length (in_progress st).

Definition visited_ok (st : recursion_state) : Prop := forall k, visited st !! k = Some true -> acyclic k.

Definition sized (st : recursion_state) : Prop :=
  length (may_be_empty st) = length rules /\ length (visited st) = length rules /\
  length (in_progress st) = length rules.

Lemma flags_up_refl st : flags_up st st.
Proof. by split. Qed.

Lemma flags_up_trans a b c : flags_up a b -> flags_up b c -> flags_up a c.
Proof.
  intros (H1 & H2 & H3 & H4) (H5 & H6 & H7 & H8). split_and!; [auto|congruence..].
Qed.

Lemma flags_up_sized st st' : flags_up st st' -> sized st -> sized st'.
Proof. intros (_ & H1 & H2 & H3) (H4 & H5 & H6). split_and!; congruence. Qed.

(** What one call that finds nothing establishes. *)
Definition searched (st : recursion_state) (k : nat) (st' : recursion_state) : Prop :=
  flags_up st st' /\ acyclic k /\ visited_ok st' /\ (directly_empty k = true -> may_be_empty st' !! k = Some true).

Lemma scan_searched (detect : recursion_state -> nat -> R (recursion_state * bool)) r :
  (forall st k st', sized st -> visited_ok st -> detect st k = Ok (st', false) -> searched st k st') ->
  forall recurse b st st', sized st -> visited_ok st -> (b = true -> recurse = true) ->
  scan_refs detect st recurse r = Ok (st', false) ->
  flags_up st st' /\ visited_ok st' /\ forall j, j ∈ left_refs r b -> acyclic j.
Proof.
  intros Hd. induction r as [|e r IH]; intros recurse b st st' Hsz Hv Hb H; cbn [scan_refs left_refs] in *.
  { injection H as <-. split; [apply flags_up_refl|]. split; [done|]. intros j Hj. by apply not_elem_of_nil in Hj. }
  destruct (bool_decide (type e = LLAMA_GRETYPE_RULE_REF)) eqn:Ht; cbn [andb] in *.
  2: { by apply (IH (is_end_of_sequence e) (is_end_of_sequence e)). }
  destruct recurse.
  - apply bind_Ok in H as ([st1 found] & H1 & H). destruct found; [done|].
    apply bind_Ok in H as (empty & H2 & H). apply at_Ok in H2.
    destruct (Hd st _ st1 Hsz Hv H1) as (Hup & Hac & Hv1 & Hem).
    pose proof (flags_up_sized _ _ Hup Hsz) as Hsz1.
    destruct (IH empty (directly_empty (Z.to_nat (value e))) st1 st') as (Hup' & Hv' & Hj); [done..| |done|].
    { intros Hde%Hem. rewrite H2 in Hde. by injection Hde. }
    split; [by eapply flags_up_trans|]. split; [done|]. intros j Hin. destruct b.
    + apply elem_of_cons in Hin as [->|Hin]; [done | by apply Hj].
    + apply Hj. revert Hin. apply left_refs_mono. unfold is_end_of_sequence. bool_prop. by rewrite Ht.
  - assert (b = false) as -> by (destruct b; [by discriminate Hb | done]).
    by apply (IH (is_end_of_sequence e) (is_end_of_sequence e)).
Qed.

Lemma detect_searched fuel : forall st k st', sized st -> visited_ok st ->
  detect_left_recursion fuel rules st k = Ok (st', false) -> searched st k st'.
Proof.
  induction fuel as [|fuel IH]; intros st k st' Hsz Hv H; [done|]. cbn [detect_left_recursion] in H.
  apply bind_Ok in H as (busy & Hb & H). apply at_Ok in Hb. destruct busy; [done|].
  apply bind_Ok in H as (rule & Hr & H). apply at_Ok in Hr.
  set (st1 := mk_rec _ _ _) in H. apply bind_Ok in H as ([st2 found] & Hs & H). destruct found; [done|].
  injection H as <-.
  assert (directly_empty k = has_empty_alternative rule true) as Hde by (unfold directly_empty; by rewrite Hr).
  assert (k < length rules)%nat as Hk by by eapply lookup_lt_Some.
  pose proof Hsz as (Hs1 & Hs2 & Hs3).
  assert (flags_up st st1) as Hup1.
  { unfold st1. destruct (has_empty_alternative rule true); (split_and!; cbn; [|by rewrite ?length_insert..]); [|done].
    intros j Hj. destruct (decide (j = k)) as [->|Hne]; [apply list_lookup_insert_eq; lia|].
    by rewrite list_lookup_insert_ne. }
  assert (visited_ok st1) as Hv1 by done.
  destruct (scan_searched _ rule IH true true st1 st2) as (Hup2 & Hv2 & Hacc); [by eapply flags_up_sized|done..|].
  assert (acyclic k) as Hac.
  { constructor. intros j (r & Hr' & Hj). simplify_eq. by apply Hacc. }
  pose proof (flags_up_trans _ _ _ Hup1 Hup2) as Hup. split_and!.
  - destruct Hup as (? & ? & ? & ?). split_and!; cbn; rewrite ?length_insert; done.
  - done.
  - intros j Hj. cbn in Hj. destruct (decide (j = k)) as [->|Hne]; [done|].
    rewrite list_lookup_insert_ne in Hj by done. by apply Hv2.
  - rewrite Hde. intros He. cbn. apply Hup2. unfold st1. rewrite He. cbn. apply list_lookup_insert_eq. lia.
Qed.

(** The loop over all rules. *)
Lemma check_acyclic : check_left_recursion rules = Ok false ->
  forall k, (k < length rules)%nat -> acyclic k.
Proof.
  unfold check_left_recursion. intros H. apply bind_Ok in H as ([st found] & H & Hf). injection Hf as ->.
  set (I := fun (i : nat) (r : recursion_state * bool) =>
    r.2 = false -> sized r.1 /\ visited_ok r.1 /\ forall k, (k < i)%nat -> acyclic k).
  enough (I (length rules) (st, false)) as HI by (by destruct (HI eq_refl) as (_ & _ & ?)).
  eapply (for_inv I); [| |exact H].
  - intros i [s1 f1] [s2 f2] Hi HI Hstep. cbn beta iota in Hstep. destruct f1.
    { injection Hstep as <- <-. by intros [=]. }
    apply bind_Ok in Hstep as (done_ & Hd & Hstep). apply at_Ok in Hd.
    destruct (HI eq_refl) as (Hsz & Hv & Hacc). intros Hf2. cbn in Hf2. subst f2.
    assert (sized s2 /\ visited_ok s2 /\ acyclic i) as (Hsz2 & Hv2 & Hi2).
    { destruct done_; [injection Hstep as <-; by auto|].
      apply detect_searched in Hstep as (Hup & Hac & Hv2 & _); [|done..].
      split; [by eapply flags_up_sized | done]. }
    split; [done|]. split; [done|]. intros k Hk. destruct (decide (k = i)) as [->|]; [done|]. apply Hacc. lia.
  - intros _. cbn. split; [by split_and!; apply length_replicate|]. split; [|lia].
    intros k Hk. apply lookup_replicate in Hk as [[=] _].
Qed.

(** ** The references the search looks into are the left edges *)

(** A rule that derives the empty string has an empty alternative. *)
Definition direct_empties : Prop :=
  forall k, rule_derives rules k [] -> directly_empty k = true.

Lemma scan_alternates_refs r : forall l i b starts, scan_alternates l i = Ok starts ->
  l = drop i r -> forall s, s ∈ starts -> forall j, j ∈ left_refs (drop s r) true -> j ∈ left_refs l b.
Proof.
  induction l as [|e l IH]; intros i b starts H Hl s Hs j Hj; [done|].
  assert (l = drop (S i) r) as Hl' by (by rewrite <- (skipn_skipn 1 i), <- Hl). cbn [scan_alternates] in H.
  assert (forall b', s ∉ starts \/ (exists starts', scan_alternates l (S i) = Ok starts' /\ s ∈ starts') ->
    type e <> LLAMA_GRETYPE_ALT -> j ∈ left_refs l b') as Hrest.
  { intros b' [?|(starts' & Hst' & Hs')] _; [done|]. by apply (IH (S i) b' starts' Hst' Hl' s). }
  cbn [left_refs].
  destruct (type e) eqn:Ht; try (case_bool_decide; [done|]; cbn [andb]; apply Hrest; [right; by exists starts|done]).
  - injection H as <-. by apply not_elem_of_nil in Hs.
  - case_bool_decide; [done|]. cbn [andb]. unfold is_end_of_sequence. rewrite Ht.
    apply bind_Ok in H as (starts' & Hst' & H). injection H as <-. apply elem_of_cons in Hs as [->|Hs].
    + by rewrite Hl'.
    + by apply (IH (S i) true starts' Hst' Hl' s).
  - case_bool_decide; [|done]. destruct b; cbn [andb].
    + right. apply Hrest; [right; by exists starts | done].
    + apply Hrest; [right; by exists starts | done].
Qed.

Lemma left_pos_refs q p : direct_empties -> left_pos rules q p -> p.1 = q.1 /\
  forall r j, rules !! q.1 = Some r -> j ∈ left_refs (drop p.2 r) true -> j ∈ left_refs (drop q.2 r) true.
Proof.
  intros Hde. induction 1 as [q|q p e Hl [Hfst IH] He Ht Hem]; [done|]. split; [done|].
  intros r j Hr Hj. apply IH; [done|]. apply elem_at_drop in He as (r' & Hr' & Hd).
  assert (r' = r) as ->. { rewrite Hfst in Hr'. rewrite Hr in Hr'. by injection Hr'. }
  rewrite Hd. cbn [left_refs]. rewrite bool_decide_eq_true_2 by done. cbn [andb]. right.
  by rewrite (Hde _ Hem).
Qed.

Lemma left_edge_refs k j : direct_empties -> left_edge rules k j -> looks_into k j.
Proof.
  intros Hde (alts & q & p & e & Ha & Hq & Hl & He & Ht & <-). unfold alternates in Ha.
  apply bind_Ok in Ha as (r & Hr & Ha). apply at_Ok in Hr. apply bind_Ok in Ha as (starts & Hs & Ha).
  injection Ha as <-. change (q ∈ pair k <$> 0%nat :: starts) in Hq. apply list_elem_of_fmap in Hq as (i & -> & Hi).
  destruct (left_pos_refs _ _ Hde Hl) as [Hfst Hincl]. cbn [fst snd] in *. exists r. split; [done|].
  apply elem_at_drop in He as (r' & Hr' & Hd).
  assert (r' = r) as ->. { rewrite Hfst in Hr'. rewrite Hr in Hr'. by injection Hr'. }
  assert (Z.to_nat (value e) ∈ left_refs (drop i r) true) as Hin.
  { apply (Hincl r); [done|]. rewrite Hd. cbn [left_refs]. rewrite bool_decide_eq_true_2 by done. left. }
  apply elem_of_cons in Hi as [->|Hi]; [done|].
  by apply (scan_alternates_refs r r 0 true starts Hs eq_refl i Hi).
Qed.

Lemma search_no_left_recursion : direct_empties -> check_left_recursion rules = Ok false ->
  no_left_recursion rules.
Proof.
  intros Hde H k Hk. apply (check_acyclic H) in Hk. clear H.
  induction Hk as [k _ IH]. constructor. intros j Hj. by apply IH, left_edge_refs.
Qed.

(** ** The search returns *)

Definition refs_valid (r : llama_grammar_rule) : Prop :=
  forall e, e ∈ r -> type e = LLAMA_GRETYPE_RULE_REF -> (Z.to_nat (value e) < length rules)%nat.

Lemma wf_elems_refs l : forall st, wf_elems (length rules) st l = true -> refs_valid l.
Proof.
  induction l as [|e l IH]; intros st Hwf; [done|].
  assert (l = [] \/ exists st', wf_elems (length rules) st' l = true) as Hl.
  { revert Hwf. cbn [wf_elems]. destruct (type e), st; intros Hwf; bool_prop; try done; eauto; destruct l; try done; eauto. }
  intros e' [->|Hin]%elem_of_cons Ht.
  - cbn [wf_elems] in Hwf. rewrite Ht in Hwf. bool_prop. lia.
  - destruct Hl as [->|[st' Hl]]; [by apply not_elem_of_nil in Hin|]. by apply (IH st').
Qed.

(** Rules the search has not entered. *)
Definition not_entered (st : recursion_state) : nat :=
  sum_list_with (fun b : bool => if b then 0 else 1)%nat (in_progress st).

Definition returns_from (detect : recursion_state -> nat -> R (recursion_state * bool)) (n : nat) : Prop :=
  forall st k, sized st -> (k < length rules)%nat -> (not_entered st < n)%nat ->
  exists st' found, detect st k = Ok (st', found) /\ sized st' /\ (found = false -> in_progress st' = in_progress st).

Lemma scan_returns detect n r : returns_from detect n -> refs_valid r ->
  forall st recurse, sized st -> (not_entered st < n)%nat ->
  exists st' found, scan_refs detect st recurse r = Ok (st', found) /\ sized st' /\
    (found = false -> in_progress st' = in_progress st).
Proof.
  intros Hd. induction r as [|e r IH]; intros Hr st recurse Hsz Hn; cbn [scan_refs]; [by exists st, false|].
  assert (refs_valid r) as Hr' by (intros e' He'; apply Hr; by right).
  destruct (bool_decide (type e = LLAMA_GRETYPE_RULE_REF)) eqn:Ht; cbn [andb]; [|by apply IH].
  destruct recurse; [|by apply IH]. bool_prop.
  destruct (Hd st (Z.to_nat (value e))) as (st1 & found & -> & Hsz1 & Hin); [done|apply Hr; [left|done]|done|].
  bind_simpl. destruct found; [by exists st1, true|]. pose proof Hsz1 as (Hm & _).
  destruct (at_exists (E := grammar_error) (may_be_empty st1) (Z.to_nat (value e))) as [empty He].
  { rewrite Hm. apply Hr; [left|done]. }
  rewrite He. bind_simpl. destruct (IH Hr' st1 empty) as (st2 & f2 & -> & Hsz2 & Hin2); [done| |].
  - unfold not_entered. by rewrite Hin.
  - exists st2, f2. split; [done|]. split; [done|]. intros Hf. by rewrite Hin2, Hin.
Qed.

Lemma detect_returns (Hwf : wf_rules rules = true) fuel : returns_from (detect_left_recursion fuel rules) fuel.
Proof.
  induction fuel as [|fuel IH]; intros st k Hsz Hk Hn; [lia|]. cbn [detect_left_recursion].
  pose proof Hsz as (Hs1 & Hs2 & Hs3).
  destruct (at_exists (E := grammar_error) (in_progress st) k) as [busy Hb]; [lia|]. rewrite Hb. bind_simpl.
  destruct busy; [by exists st, true|]. apply at_Ok in Hb.
  destruct (at_exists (E := grammar_error) rules k Hk) as [rule Hr]. rewrite Hr. bind_simpl. apply at_Ok in Hr.
  assert (refs_valid rule) as Hrv.
  { unfold wf_rules in Hwf. rewrite forallb_forall in Hwf. eapply wf_elems_refs, Hwf, list_elem_of_In.
    by eapply list_elem_of_lookup_2. }
  set (st1 := mk_rec _ _ _).
  assert (sized st1) as Hsz1.
  { unfold st1. split_and!; cbn; rewrite ?length_insert; try done. by destruct (has_empty_alternative rule true); rewrite ?length_insert. }
  assert (not_entered st1 < fuel)%nat as Hn1.
  { unfold not_entered, st1. cbn [in_progress].
    pose proof (sum_list_with_insert (fun b : bool => if b then 0 else 1)%nat _ _ _ true Hb) as Hsum.
    unfold not_entered in Hn. cbn in Hsum. lia. }
  destruct (scan_returns _ fuel rule IH Hrv st1 true Hsz1 Hn1) as (st2 & found & -> & Hsz2 & Hin). bind_simpl.
  destruct found; [by exists st2, true|]. eexists _, false. split; [done|]. split.
  - destruct Hsz2 as (? & ? & ?). split_and!; cbn; rewrite ?length_insert; done.
  - intros _. cbn. rewrite Hin by done. cbn. rewrite list_insert_insert_eq. by apply list_insert_id.
Qed.

Lemma check_returns : wf_rules rules = true -> exists found, check_left_recursion rules = Ok found.
Proof.
  intros Hwf. unfold check_left_recursion.
  destruct (for_total (fun (_ : nat) (r : recursion_state * bool) => sized r.1 /\ (r.2 = false -> in_progress r.1 = replicate (length rules) false))
    (fun (r : recursion_state * bool) i =>
        let '(st, found) := r in
        if (found : bool) then Ok r else
        done ← at_ (visited st) i;
        if (done : bool) then Ok r else detect_left_recursion (S (length rules)) rules st i)
    (length rules) (mk_rec (replicate (length rules) false) (replicate (length rules) false) (replicate (length rules) false), false))
    as ([st found] & -> & _).
  - intros i [st found] Hi [Hsz Hin]. cbn [fst snd] in *. destruct found; [by exists (st, true)|].
    pose proof Hsz as (_ & Hs2 & _). destruct (at_exists (E := grammar_error) (visited st) i) as [b Hb]; [lia|].
    rewrite Hb. bind_simpl. destruct b; [by exists (st, false)|].
    destruct (detect_returns Hwf (S (length rules)) st i Hsz Hi) as (st' & f & -> & Hsz' & Hin').
    + unfold not_entered. rewrite Hin by done.
      pose proof (sum_list_with_le_length (fun b : bool => if b then 0 else 1)%nat (replicate (length rules) false)) as Hle.
      rewrite length_replicate in Hle. assert (forall x : bool, (if x then 0 else 1) <= 1)%nat as Hx by (intros []; lia).
      specialize (Hle Hx). lia.
    + exists (st', f). split; [done|]. split; [done|]. intros Hf. cbn in *. by rewrite Hin', Hin.
  - split; [|done]. cbn. by split_and!; apply length_replicate.
  - by exists found.
Qed.
End Search.
End GrammarRec.
