(* ===== verification/GrammarRun.v ===== *)
(** Runs of the grammar automaton: characters and tokens against the language of
    the grammar, from the rules that pass the checks of
    [llama_grammar_init_impl] to the state after each token. *)

From S2P Require Import Prelude Grammar GrammarWf GrammarLang GrammarTerm GrammarRec.
Import Grammar GrammarWf GrammarLang GrammarTerm GrammarRec.

Module GrammarRun.

(** ** Rules whose empty derivations the code sees *)

Section Empties.
Variable rules : llama_grammar_rules.

(** An alternative of references to rules with an empty alternative, or none. *)
Fixpoint all_empty_refs (l : llama_grammar_rule) : bool :=
  match l with
  | [] => false
  | e :: l =>
      is_end_of_sequence e ||
      (bool_decide (type e = LLAMA_GRETYPE_RULE_REF) && directly_empty rules (Z.to_nat (value e)) && all_empty_refs l)
  end.

Fixpoint some_empty_alternative (l : llama_grammar_rule) (at_start : bool) : bool :=
  match l with
  | [] => false
  | e :: l' => (at_start && all_empty_refs l) || some_empty_alternative l' (is_end_of_sequence e)
  end.

(** No rule is possibly empty only through other rules. *)
Definition empties_closed : bool :=
  forallb (fun r => implb (some_empty_alternative r true) (has_empty_alternative r true)) rules.

Lemma scan_alternates_empty r : forall l i b starts, scan_alternates l i = Ok starts -> l = drop i r ->
  forall s, s ∈ starts -> all_empty_refs (drop s r) = true -> some_empty_alternative l b = true.
Proof.
  induction l as [|e l IH]; intros i b starts H Hl s Hs Hd; [done|].
  assert (l = drop (S i) r) as Hl' by (by rewrite <- (skipn_skipn 1 i), <- Hl). cbn [some_empty_alternative].
  apply orb_true_iff. right. cbn [scan_alternates] in H.
  destruct (type e) eqn:Ht; try (by apply (IH (S i) _ starts H Hl' s)).
  - injection H as <-. by apply not_elem_of_nil in Hs.
  - apply bind_Ok in H as (starts' & Hst' & H). injection H as <-. apply elem_of_cons in Hs as [->|Hs].
    + unfold is_end_of_sequence. rewrite Ht. rewrite <- Hl' in Hd. destruct l; [done|]. cbn [some_empty_alternative].
      by rewrite Hd.
    + by apply (IH (S i) _ starts' Hst' Hl' s).
Qed.

Lemma alternates_empty k alts q r : alternates rules k = Ok alts -> q ∈ alts -> rules !! k = Some r ->
  all_empty_refs (drop q.2 r) = true -> q.1 = k /\ some_empty_alternative r true = true.
Proof.
  intros Ha Hq Hr Hd. unfold alternates in Ha. rewrite (at_lookup _ _ _ Hr) in Ha.
  apply bind_Ok in Ha as (r' & [= <-] & Ha). apply bind_Ok in Ha as (starts & Hs & Ha). injection Ha as <-.
  change (q ∈ pair k <$> 0%nat :: starts) in Hq. apply list_elem_of_fmap in Hq as (i & -> & Hi).
  split; [done|]. cbn [snd] in Hd. apply elem_of_cons in Hi as [->|Hi].
  - destruct r; [done|]. cbn [some_empty_alternative]. rewrite drop_0 in Hd. by rewrite Hd.
  - by apply (scan_alternates_empty r r 0 true starts Hs eq_refl i Hi).
Qed.

Lemma alternates_fst k alts q : alternates rules k = Ok alts -> q ∈ alts -> q.1 = k.
Proof.
  unfold alternates. intros Ha Hq. inv_ok Ha.
  match type of Hq with _ ∈ ?l => change (q ∈ pair k <$> 0%nat :: x0) in Hq end.
  by apply list_elem_of_fmap in Hq as (i & -> & _).
Qed.

Lemma empty_derivation p w : empties_closed = true -> derives rules p w -> w = [] ->
  forall r, rules !! p.1 = Some r -> all_empty_refs (drop p.2 r) = true.
Proof.
  intros Hc Hd. induction Hd as [p e He Hend | | | p e alts q u v He Ht Ha Hq Hd1 IH1 Hd2 IH2];
    intros Hw r Hr; try done.
  - apply elem_at_drop in He as (r' & Hr' & Hdr). rewrite Hr in Hr'. injection Hr' as <-.
    rewrite Hdr. cbn [all_empty_refs]. by rewrite Hend.
  - apply app_eq_nil in Hw as [-> ->]. pose proof He as (r' & Hr' & Hdr)%elem_at_drop.
    rewrite Hr in Hr'. injection Hr' as <-.
    rewrite Hdr. cbn [all_empty_refs]. apply orb_true_iff. right. rewrite bool_decide_eq_true_2 by done.
    cbn [andb]. apply andb_true_iff. split; [|by apply (IH2 eq_refl r)].
    pose proof (alternates_fst _ _ _ Ha Hq) as Hfst. destruct (derives_elem _ _ _ Hd1) as [e1 He1].
    apply elem_at_drop in He1 as (rq & Hrq & _). specialize (IH1 eq_refl rq Hrq). rewrite Hfst in Hrq.
    destruct (alternates_empty _ _ _ _ Ha Hq Hrq IH1) as [_ Hs]. unfold directly_empty. rewrite Hrq.
    unfold empties_closed in Hc. rewrite forallb_forall in Hc.
    assert (implb (some_empty_alternative rq true) (has_empty_alternative rq true) = true) as Hi.
    { apply Hc, list_elem_of_In. by eapply list_elem_of_lookup_2. }
    by rewrite Hs in Hi.
Qed.

Lemma closed_direct_empties : empties_closed = true -> direct_empties rules.
Proof.
  intros Hc k (alts & q & Ha & Hq & Hd). pose proof (alternates_fst _ _ _ Ha Hq) as Hfst.
  destruct (derives_elem _ _ _ Hd) as [e He]. apply elem_at_drop in He as (r & Hr & _).
  pose proof (empty_derivation _ _ Hc Hd eq_refl r Hr) as Hall. rewrite Hfst in Hr.
  destruct (alternates_empty _ _ _ _ Ha Hq Hr Hall) as [_ Hs]. unfold directly_empty. rewrite Hr.
  unfold empties_closed in Hc. rewrite forallb_forall in Hc.
  assert (implb (some_empty_alternative r true) (has_empty_alternative r true) = true) as Hi.
  { apply Hc, list_elem_of_In. by eapply list_elem_of_lookup_2. }
  by rewrite Hs in Hi.
Qed.
End Empties.

(** ** Characters *)

(** [root ::= "(" root ")" root | ""] *)
Definition dyck : llama_grammar_rules :=
  [[mk_elem LLAMA_GRETYPE_CHAR 40; mk_elem LLAMA_GRETYPE_RULE_REF 0; mk_elem LLAMA_GRETYPE_CHAR 41;
    mk_elem LLAMA_GRETYPE_RULE_REF 0; mk_elem LLAMA_GRETYPE_ALT 0; mk_elem LLAMA_GRETYPE_END 0]].

(** C10: For well-formed rules in which the code finds no left recursion, and whose
    possibly empty rules all have an empty alternative, the initial stacks can be
    built and every sequence of characters can be followed (the expansion returns);
    the stacks reached derive exactly the words that complete the sequence to a word
    of the start rule, and an empty stack is among them exactly when the sequence is
    itself such a word. *)
Theorem grammar_run_language rules start u :
  wf_rules rules = true -> (start < length rules)%nat -> Forall code_point u ->
  check_left_recursion rules = Ok false -> empties_closed rules = true ->
  exists fuel st0 st,
    (forall fuel', (fuel <= fuel')%nat -> initial_stacks fuel' rules start = Ok st0 /\
       foldM (accept_stacks fuel' rules) st0 u = Ok st) /\
    (forall w, stacks_derive rules st w <-> rule_derives rules start (map Chr u ++ w)) /\
    ([] ∈ st <-> rule_derives rules start (map Chr u)).
Proof.
  intros Hwf Hstart Hu Hcheck Hempty.
  pose proof (search_no_left_recursion rules (closed_direct_empties rules Hempty) Hcheck) as Hleft.
  destruct (initial_stacks_runs rules Hwf Hleft start Hstart) as (st0 & n0 & H0).
  pose proof (H0 n0 (le_n _)) as Hst0.
  pose proof (initial_stacks_sound rules Hwf n0 start st0 Hstart Hst0) as Hsound.
  destruct (accept_all_runs rules Hwf Hleft st0 u Hsound Hu) as (st & n1 & H1).
  destruct (initial_stacks_derive rules _ _ _ Hst0) as [Hlive Hd0].
  destruct (accept_all_derives rules _ _ _ _ Hlive (H1 n1 (le_n _))) as [Hlive' Hd].
  assert (forall w, stacks_derive rules st w <-> rule_derives rules start (map Chr u ++ w)) as Hw.
  { intros w. by rewrite Hd, Hd0. }
  exists (n0 + n1)%nat, st0, st. split_and!.
  - intros fuel Hle. split; [apply H0 | apply H1]; lia.
  - done.
  - rewrite <- (live_nil rules) by done. rewrite Hw. by rewrite app_nil_r.
Qed.

Lemma grammar_run_language_witness :
  (exists fuel st0 st, initial_stacks fuel dyck 0 = Ok st0 /\
     foldM (accept_stacks fuel dyck) st0 [40; 40; 41; 41] = Ok st /\ [] ∈ st /\
     rule_derives dyck 0 (map Chr [40; 40; 41; 41])).
Proof.
  destruct (grammar_run_language dyck 0 [40; 40; 41; 41]) as (fuel & st0 & st & H & Hw & Hnil);
    [by vm_compute| simpl; lia | | by vm_compute.. |].
  - repeat constructor; unfold code_point, UINT32_MAX; lia.
  - assert ([] ∈ st) as Hin.
    { destruct (H (fuel + 20)%nat) as [H0 H1]; [lia|].
      replace (fuel + 20)%nat with (20 + fuel)%nat in * by lia.
      assert (initial_stacks (20 + fuel) dyck 0 = Ok [[(0, 0)%nat]; []]) as E0 by done.
      rewrite E0 in H0. injection H0 as <-.
      assert (foldM (accept_stacks (20 + fuel) dyck) [[(0, 0)%nat]; []] [40; 40; 41; 41] = Ok [[]; [(0, 0)%nat]]) as E1 by done.
      rewrite E1 in H1. injection H1 as <-. left. }
    exists fuel, st0, st. destruct (H fuel) as [H0 H1]; [lia|]. split_and!; [done..|by apply Hnil].
Defined.

(** ** Tokens *)

Lemma decode_seqs_terminated fuel : forall src v n cps d pu,
  decode_seqs fuel src v n cps = Ok (d, pu) -> exists cps', d = cps' ++ [0].
Proof.
  induction fuel as [|fuel IH]; intros src v n cps d pu H; (destruct src as [|b src]; [injection H as <- <-; eauto|]).
  { done. }
  cbn [decode_seqs] in H. cbv zeta in H. destruct (_ <? 0) eqn:Hn.
  { injection H as <- <-. by exists []. }
  destruct (decode_tail _ _ _) as [[v' n'] rest]. by apply IH in H.
Qed.

Lemma decode_terminated piece pu0 d pu : decode_utf8 piece pu0 = Ok (d, pu) -> exists cps, d = cps ++ [0].
Proof.
  unfold decode_utf8. destruct (decode_continue _ _ _) as [[[v n] rest]|]; [apply decode_seqs_terminated|].
  intros [= <- <-]. by exists [].
Qed.

(** A piece is decoded to code points, whatever its bytes. *)
Lemma shift_in_code_point v b : code_point (shift_in v b).
Proof. unfold shift_in. pose proof (u32_range (u32 (Z.shiftl v 6) + Z.land b 0x3f)). unfold code_point, UINT32_MAX. lia. Qed.

Lemma decode_tail_code_point src : forall v n, code_point v ->
  code_point (decode_tail src v n).1.1 /\ (length (decode_tail src v n).2 <= length src)%nat.
Proof.
  induction src as [|b src IH]; intros v n Hv; cbn [decode_tail]; [done|]. destruct (0 <? n); [|done].
  destruct (IH (shift_in v b) (n - 1)) as [H1 H2]; [apply shift_in_code_point|]. cbn [length]. split; [done|lia].
Qed.


Lemma decode_seqs_total fuel : forall src v n cps, (length src <= fuel)%nat -> Forall code_point cps ->
  exists cps' pu, decode_seqs fuel src v n cps = Ok (cps' ++ [0], pu) /\ Forall code_point cps'.
Proof.
  induction fuel as [|fuel IH]; intros src v n cps Hl Hc; (destruct src as [|b src]; [cbn [decode_seqs]; by eauto|]); [simpl in Hl; lia|].
  cbn [decode_seqs]. cbv zeta. destruct (Z.ltb_spec (default 0 (utf8_len0 !! Z.to_nat (Z.shiftr b 4)) - 1) 0) as [Hn|Hn].
  { eexists [], _. split; [done|constructor]. }
  set (k := default 0 _ - 1) in *.
  assert (Hm : code_point (Z.land b (Z.land (Z.shiftl 1 (7 - k) - 1) 0xff))).
  { change 0xff with (Z.ones 8). rewrite Z.land_ones by lia. assert (0 <= (Z.shiftl 1 (7 - k) - 1) mod 2 ^ 8 < 2 ^ 8) as Hb by (apply Z.mod_pos_bound; lia).
    rewrite Z.land_comm. replace ((Z.shiftl 1 (7 - k) - 1) mod 2 ^ 8) with (Z.land ((Z.shiftl 1 (7 - k) - 1) mod 2 ^ 8) (Z.ones 8)) by (rewrite Z.land_ones by lia; apply Z.mod_small; lia).
    rewrite <- Z.land_assoc, (Z.land_comm (Z.ones 8)), Z.land_assoc, Z.land_ones by lia.
    pose proof (Z.mod_pos_bound (Z.land ((Z.shiftl 1 (7 - k) - 1) mod 2 ^ 8) b) (2 ^ 8) ltac:(lia)). unfold code_point, UINT32_MAX. lia. }
  destruct (decode_tail_code_point src (Z.land b (Z.land (Z.shiftl 1 (7 - k) - 1) 0xff)) k Hm) as [Hv Hr].
  destruct (decode_tail src _ k) as [[v' n'] rest]. cbn [fst snd] in *. cbn [length] in Hl. apply IH; [lia|].
  destruct (n' =? 0); [|done]. apply Forall_app. split; [done|]. by apply Forall_singleton.
Qed.

Lemma decode_continue_code_point src : forall v n v' n' rest, decode_continue src v n = Some (v', n', rest) ->
  (length rest <= length src)%nat /\ (0 < n -> n' = 0 -> code_point v').
Proof.
  induction src as [|b src IH]; intros v n v' n' rest H; cbn [decode_continue] in H; [injection H as <- <- <-; split; [done|lia]|].
  destruct (Z.ltb_spec 0 n) as [Hn|Hn]; [|injection H as <- <- <-; split; [done|lia]]. destruct (negb _); [done|].
  pose proof (IH _ _ _ _ _ H) as [H1 H2]. split; [cbn [length]; lia|]. intros _ Hn'.
  destruct (Z.ltb_spec 0 (n - 1)) as [Hn1|Hn1]; [by apply H2|].
  assert (v' = shift_in v b) as -> by (destruct src; cbn [decode_continue] in H; [by injection H|]; rewrite (proj2 (Z.ltb_ge 0 (n - 1))) in H by lia; by injection H).
  apply shift_in_code_point.
Qed.

Lemma decode_total piece pu0 : exists cps pu, decode_utf8 piece pu0 = Ok (cps ++ [0], pu) /\ Forall code_point cps.
Proof.
  unfold decode_utf8. destruct (decode_continue _ _ _) as [[[v n] rest]|] eqn:E; [|by exists [], (mk_partial 0 (-1))].
  apply decode_continue_code_point in E as [Hl Hv]. apply decode_seqs_total; [done|].
  destruct (Z.ltb_spec 0 (n_remain pu0)) as [H0|H0], (Z.eqb_spec n 0) as [Hn|Hn]; cbn [andb]; try done. apply Forall_singleton. auto.
Qed.

Section Tokens.
Variable rules : llama_grammar_rules.

Definition top_is_token (s : llama_grammar_stack) : bool :=
  match s with
  | p :: _ => match elem_at rules p with Ok e => is_token e | Error _ => false end
  | [] => false
  end.

(** The words [s] derives after the token [t] whose piece decodes to [cps]: a token
    element takes the token as a whole, other elements its characters. *)
Definition token_words (s : llama_grammar_stack) (t : Z) (cps : list Z) (w : list symbol) : Prop :=
  s <> [] /\ stack_derives rules s ((if top_is_token s then [Tok t] else map Chr cps) ++ w).

Lemma token_derives p s e t w : terminal rules (p :: s) -> elem_at rules p = Ok e -> is_token e = true ->
  stack_derives rules (p :: s) (Tok t :: w) <->
    llama_grammar_match_token e t = Ok true /\
    exists u v, w = u ++ v /\ derives rules (next p) u /\ stack_derives rules s v.
Proof.
  intros Ht He Htok. split.
  - intros (a & v & [= <- <-] & [(? & ? & ? & [=] & _)|(e' & t' & [= <-] & He' & Hm & H)])%(terminal_derives _ _ _ _ Ht).
    rewrite He in He'. injection He' as <-. eauto.
  - intros (Hm & u & v & -> & Hu & Hv). apply (stack_cons rules p s (Tok t :: u)); [|done]. by eapply derives_token.
Qed.

Lemma accept_chars_run fuel cps : forall l, accept_chars fuel rules l cps = foldM (accept_stacks fuel rules) l cps.
Proof.
  induction cps as [|c cps IH]; intros l; [done|]. cbn [accept_chars foldM].
  destruct (accept_stacks fuel rules l c) as [nexts|e]; bind_simpl; [|done].
  destruct nexts as [|s nexts]; [|apply IH]. clear. induction cps as [|c' cps IH]; [done|]. done.
Qed.

Lemma elem_of_add_stacks l news t : t ∈ foldl add_stack news l <-> t ∈ news \/ t ∈ l.
Proof.
  revert news. induction l as [|s l IH]; intros news; cbn [foldl]; [set_solver|].
  rewrite IH, elem_of_add_stack. set_solver.
Qed.

Lemma accept_token_stack_derives fuel t cps news s out : live rules s -> Forall (live rules) news ->
  accept_token_stack fuel rules t cps news s = Ok out ->
  Forall (live rules) out /\ forall w, stacks_derive rules out w <-> stacks_derive rules news w \/ token_words s t cps w.
Proof.
  intros Hs Hn H. unfold token_words. destruct s as [|p s].
  { injection H as <-. split; [done|]. naive_solver. }
  pose proof Hs as [Hterm Hclean]. cbn [accept_token_stack] in H. apply bind_Ok in H as (e & He & H).
  cbn [top_is_token]. rewrite He. destruct (is_token e) eqn:Htok.
  - setoid_rewrite (token_derives p s e t _ Hterm He Htok).
    apply bind_Ok in H as (m & Hm & H). rewrite Hm. destruct m.
    + apply bind_Ok in H as (s' & Hp & H). pose proof (push_clean _ _ _ _ (clean_tail _ _ _ Hclean) Hp) as Hc.
      split; [by eapply advance_live|]. intros w. rewrite (advance_derives _ _ _ _ _ _ Hc H), (push_derives _ _ _ _ _ Hp).
      naive_solver.
    + injection H as <-. split; [done|]. naive_solver.
  - apply bind_Ok in H as (cur & Hcur & H). injection H as <-. rewrite accept_chars_run in Hcur.
    apply accept_all_derives in Hcur as [Hlive Hcur]; [|by constructor].
    split.
    + apply Forall_forall. intros x Hx. rewrite Forall_forall in Hn, Hlive. apply elem_of_add_stacks in Hx as [Hx|Hx]; auto.
    + intros w. assert (stacks_derive rules cur w <-> stack_derives rules (p :: s) (map Chr cps ++ w)) as Hw.
      { rewrite Hcur. unfold stacks_derive. setoid_rewrite list_elem_of_singleton. naive_solver. }
      assert (stacks_derive rules (foldl add_stack news cur) w <-> stacks_derive rules news w \/ stacks_derive rules cur w) as ->.
      { unfold stacks_derive. setoid_rewrite elem_of_add_stacks. naive_solver. }
      rewrite Hw. naive_solver.
Qed.

End Tokens.

(** *** The acceptance of a token returns *)

Section TokensRun.
Variable rules : llama_grammar_rules.
Hypothesis Hwf : wf_rules rules = true.
Hypothesis Hleft : no_left_recursion rules.

Lemma accept_all_sound fuel l cps out : Forall (sound rules) l -> Forall code_point cps ->
  foldM (accept_stacks fuel rules) l cps = Ok out -> Forall (sound rules) out.
Proof.
  intros Hl Hc. revert l Hl. induction Hc as [|c cps Hc _ IH]; intros l Hl H; cbn [foldM] in H; [by injection H as <-|].
  apply bind_Ok in H as (mid & H1 & H2). eapply IH; [|done]. by eapply accept_stacks_sound.
Qed.

Lemma match_token_total e t : is_token e = true -> exists b, llama_grammar_match_token e t = Ok b.
Proof. unfold is_token, llama_grammar_match_token. destruct (type e); (done || eauto). Qed.

Lemma zero_code_point : code_point 0.
Proof. unfold code_point, UINT32_MAX. lia. Qed.

Lemma accept_token_stack_sound fuel t cps news s out : sound rules s -> Forall code_point cps -> Forall (sound rules) news ->
  accept_token_stack fuel rules t cps news s = Ok out -> Forall (sound rules) out.
Proof.
  intros Hs Hc Hn H. destruct s as [|p s]; [by injection H as <-|]. cbn [accept_token_stack] in H.
  destruct (sound_top rules p s 0 Hs zero_code_point) as (e & He & Hok & Hm). rewrite He in H. cbn [mbind result_bind] in H.
  destruct (is_token e) eqn:Ht.
  - apply bind_Ok in H as (m & _ & H). destruct m; [|by injection H as <-]. apply bind_Ok in H as (s' & Hp & H).
    destruct (push_ok rules (next p) s Hm Hok) as (s1 & E1 & Hs1). rewrite Hp in E1. injection E1 as <-. by eapply (advance_sound_stacks rules Hwf).
  - apply bind_Ok in H as (cur & Hcur & H). injection H as <-. rewrite accept_chars_run in Hcur.
    apply accept_all_sound in Hcur; [|by constructor|done]. apply Forall_forall. intros x Hx. rewrite Forall_forall in Hn, Hcur.
    apply elem_of_add_stacks in Hx as [Hx|Hx]; auto.
Qed.

Lemma accept_token_stack_runs t cps news s : sound rules s -> Forall code_point cps ->
  runs (fun fuel => accept_token_stack fuel rules t cps news s).
Proof.
  intros Hs Hc. destruct s as [|p s]; [apply runs_ret|]. cbn [accept_token_stack].
  destruct (sound_top rules p s 0 Hs zero_code_point) as (e & He & Hok & Hm). apply (runs_const _ e); [done|].
  destruct (is_token e) eqn:Ht.
  - destruct (match_token_total e t Ht) as [m Em]. apply (runs_const _ m); [done|]. destruct m; [|apply runs_ret].
    destruct (push_ok rules (next p) s Hm Hok) as (s1 & E1 & Hs1). apply (runs_const _ s1); [done|].
    apply advance_runs; [done| |done]. by apply stack_expanding.
  - apply (runs_bind (fun fuel => accept_chars fuel rules [p :: s] cps) (fun cur fuel => Ok (foldl add_stack news cur))); [|intros; apply runs_ret].
    destruct (accept_all_runs rules Hwf Hleft [p :: s] cps) as (a & n & Ha); [by constructor|done|].
    exists a, n. intros fuel Hle. rewrite accept_chars_run. by apply Ha.
Qed.

Lemma accept_token_stacks_run t cps l : Forall (sound rules) l -> Forall code_point cps ->
  runs (fun fuel => foldM (accept_token_stack fuel rules t cps) [] l).
Proof.
  intros Hl Hc. rewrite Forall_forall in Hl. apply (runs_foldM (Forall (sound rules))); [| |constructor].
  - intros s news Hs Hn. by apply accept_token_stack_runs; [apply Hl|].
  - intros fuel s news out Hs Hn H. by eapply accept_token_stack_sound; [apply Hl, Hs|..].
Qed.

Lemma accept_token_stacks_sound fuel t cps l out : Forall (sound rules) l -> Forall code_point cps ->
  foldM (accept_token_stack fuel rules t cps) [] l = Ok out -> Forall (sound rules) out.
Proof.
  intros Hl Hc. rewrite Forall_forall in Hl. apply gather_sound; [|constructor]. intros s news out' Hs Hn.
  apply accept_token_stack_sound; [by apply Hl|done|done].
Qed.
End TokensRun.

(** The rules of a grammar whose stacks can always be expanded. *)
Definition good_rules (rules : llama_grammar_rules) : Prop :=
  wf_rules rules = true /\ check_left_recursion rules = Ok false /\ empties_closed rules = true.

Lemma good_no_left_recursion rules : good_rules rules -> no_left_recursion rules.
Proof. intros (_ & Hc & He). exact (search_no_left_recursion rules (closed_direct_empties rules He) Hc). Qed.

(** What the acceptance of a token gives: the stacks of all that survives it, or the exception. *)
Lemma accept_token_runs g t piece : good_rules (rules g) -> Forall (sound (rules g)) (stacks g) ->
  exists cps pu st fuel, decode_utf8 piece (g_partial_utf8 g) = Ok (cps ++ [0], pu) /\ Forall code_point cps /\
    (forall fuel', (fuel <= fuel')%nat -> foldM (accept_token_stack fuel' (rules g) t cps) [] (stacks g) = Ok st /\
      llama_grammar_accept_token fuel' g t piece = if bool_decide (st = []) then Error EmptyStack else Ok (with_stacks g st pu)) /\
    Forall (sound (rules g)) st /\
    forall w, stacks_derive (rules g) st w <-> exists s, s ∈ stacks g /\ token_words (rules g) s t cps w.
Proof.
  intros Hg Hs. destruct (decode_total piece (g_partial_utf8 g)) as (cps & pu & Hd & Hc).
  destruct (accept_token_stacks_run (rules g) (proj1 Hg) (good_no_left_recursion _ Hg) t cps (stacks g) Hs Hc) as (st & n & Hst).
  exists cps, pu, st, n. split_and!; [done|done| | |].
  - intros fuel Hle. split; [by apply Hst|]. unfold llama_grammar_accept_token. rewrite Hd. bind_simpl. cbn [fst snd].
    rewrite removelast_last, Hst by done. bind_simpl. by case_bool_decide.
  - eapply (accept_token_stacks_sound _ (proj1 Hg)); [done..|apply Hst; apply Nat.le_refl].
  - pose proof (sound_live _ _ Hs) as Hlive. pose proof (Hst n (Nat.le_refl n)) as Hf.
    apply (gather_derives (rules g) _ (fun s w => token_words (rules g) s t cps w)) in Hf as [_ Hw].
    2: constructor.
    2: { intros s news out Hin Hn. rewrite Forall_forall in Hlive. apply accept_token_stack_derives; auto. }
    intros w. rewrite Hw. pose proof (stacks_derive_nil (rules g) w). tauto.
Qed.

(** C11: Accepting a token whose piece decodes to the characters [cps], in a grammar with
    good rules and sound stacks, as [grammar_init] makes them and acceptance keeps them. With
    enough fuel it always ends: with stacks that derive exactly the words that some
    stack derives after the token (as a whole when its top is a token element, after
    the characters [cps] otherwise), which are sound again; or with the empty-stack error,
    exactly when no stack is left, and then no stack derives any word after the token. *)
Theorem grammar_accept_token g t piece : good_rules (rules g) -> Forall (sound (rules g)) (stacks g) ->
  exists fuel cps pu, decode_utf8 piece (g_partial_utf8 g) = Ok (cps ++ [0], pu) /\
    ((exists g', (forall fuel', (fuel <= fuel')%nat -> llama_grammar_accept_token fuel' g t piece = Ok g') /\
        rules g' = rules g /\ g_partial_utf8 g' = pu /\ Forall (sound (rules g)) (stacks g') /\ stacks g' <> [] /\
        forall w, stacks_derive (rules g) (stacks g') w <-> exists s, s ∈ stacks g /\ token_words (rules g) s t cps w) \/
     ((forall fuel', (fuel <= fuel')%nat -> llama_grammar_accept_token fuel' g t piece = Error EmptyStack) /\
        forall s w, s ∈ stacks g -> ~ token_words (rules g) s t cps w)).
Proof.
  intros Hg Hs. destruct (accept_token_runs g t piece Hg Hs) as (cps & pu & st & fuel & Hd & _ & Hrun & Hst & Hw).
  exists fuel, cps, pu. split; [done|]. destruct (decide (st = [])) as [->|Hne]; [right|left].
  - split; [intros fuel' Hle; by apply Hrun|]. intros s w Hin Htw. apply (stacks_derive_nil (rules g) w), Hw. eauto.
  - exists (with_stacks g st pu). split; [|done]. intros fuel' Hle. destruct (Hrun fuel' Hle) as [_ ->]. by rewrite bool_decide_eq_false_2.
Qed.

(** [root ::= "a" <[5]>] at its start. *)
Definition letter_token : llama_grammar :=
  mk_grammar [[mk_elem LLAMA_GRETYPE_CHAR 97; mk_elem LLAMA_GRETYPE_TOKEN 5; mk_elem LLAMA_GRETYPE_END 0]]
    [[(0, 0)%nat]] no_partial false false [] [] [] [].

Lemma grammar_accept_token_witness :
  exists fuel g', llama_grammar_accept_token fuel letter_token 7 [97] = Ok g' /\ stacks g' <> [] /\
    forall w, stacks_derive (rules letter_token) (stacks g') w <->
      exists s, s ∈ stacks letter_token /\ token_words (rules letter_token) s 7 [97] w.
Proof.
  destruct (grammar_accept_token letter_token 7 [97]) as (fuel & cps & pu & Hd & H).
  - split_and!; by vm_compute.
  - constructor; [|constructor]. split; [by eexists|]. repeat constructor; try (by eexists); intros e He; by vm_compute in He; injection He as <-.
  - vm_compute in Hd. destruct cps as [|c [|c' cps]]; [done| |by destruct cps]. injection Hd as <- _. exists fuel.
    destruct H as [(g' & Hg & _ & _ & _ & Hne & Hw)|[Hg Hno]]; [exists g'; split_and!; [by apply Hg|done|exact Hw]|].
    exfalso. specialize (Hg (fuel + 10)%nat ltac:(lia)). rewrite Nat.add_comm in Hg. vm_compute in Hg. done.
Defined.

(** ** Left recursion *)

(** C14: On well-formed rules the search for left recursion returns; when it finds
    none, and the possibly empty rules all have an empty alternative, the expansion of
    every stack of the grammar returns too. *)
Theorem left_recursion_search rules : wf_rules rules = true ->
  exists found, check_left_recursion rules = Ok found /\
    (found = false -> empties_closed rules = true -> forall s news, stack_ok rules s ->
       runs (fun fuel => llama_grammar_advance_stack fuel rules s news)).
Proof.
  intros Hwf. destruct (check_returns rules Hwf) as [found Hf]. exists found. split; [done|].
  intros -> He s news Hs. apply advance_runs; [done| |done]. apply stack_expanding; [done| |done].
  by apply search_no_left_recursion; [apply closed_direct_empties|].
Qed.

Lemma left_recursion_search_witness :
  wf_rules dyck = true /\ runs (fun fuel => llama_grammar_advance_stack fuel dyck [(0, 1)%nat] []).
Proof.
  split; [by vm_compute|]. destruct (left_recursion_search dyck) as (found & Hf & H); [by vm_compute|].
  vm_compute in Hf. injection Hf as <-. apply H; [done|by vm_compute|].
  constructor; [|constructor]. split; [eexists; split; [done|by vm_compute]|].
  intros e He. by vm_compute in He; injection He as <-.
Defined.

(** [root ::= a root "x" | "y"], [a ::= b], [b ::= | "z"]: [root] is left recursive
    through [a], which is empty only through [b]. *)
Definition hidden_recursion : llama_grammar_rules :=
  [[mk_elem LLAMA_GRETYPE_RULE_REF 1; mk_elem LLAMA_GRETYPE_RULE_REF 0; mk_elem LLAMA_GRETYPE_CHAR 120;
    mk_elem LLAMA_GRETYPE_ALT 0; mk_elem LLAMA_GRETYPE_CHAR 121; mk_elem LLAMA_GRETYPE_END 0];
   [mk_elem LLAMA_GRETYPE_RULE_REF 2; mk_elem LLAMA_GRETYPE_END 0];
   [mk_elem LLAMA_GRETYPE_ALT 0; mk_elem LLAMA_GRETYPE_CHAR 122; mk_elem LLAMA_GRETYPE_END 0]].

(** The number of times the end of the first alternative waits on a stack. *)
Fixpoint waiting (s : llama_grammar_stack) : nat :=
  match s with [] => 0%nat | p :: s => ((if bool_decide (p = (0, 2)%nat) then 1 else 0) + waiting s)%nat end.

(** The stacks seen before the [n]-th unfolding of [root], and those of [extra]. *)
Definition seen_before (n : nat) (extra : list llama_grammar_stack) (seen : gset llama_grammar_stack) : Prop :=
  forall s, s ∈ seen -> (waiting s < n)%nat \/ s ∈ extra.

Lemma waiting_repeat n : waiting (replicate n (0, 2)%nat) = n.
Proof. induction n as [|n IH]; [done|]. cbn. by rewrite IH. Qed.

Section Unfold.
Variables (n : nat) (extra : list llama_grammar_stack) (seen : gset llama_grammar_stack).
Hypothesis Hseen : seen_before n extra seen.
Variables (h : position) (s : llama_grammar_stack) (e : llama_grammar_element).
Hypotheses (He : elem_at hidden_recursion h = Ok e) (Hwait : waiting (h :: s) = n) (Hnew : h :: s ∉ extra).

Lemma not_seen : h :: s ∉ seen.
Proof. intros [?|?]%Hseen; [lia|done]. Qed.

Lemma seen_before_add : seen_before n ((h :: s) :: extra) ({[h :: s]} ∪ seen).
Proof. intros x [->%elem_of_singleton|Hx%Hseen]%elem_of_union; [right; left|]. rewrite elem_of_cons. tauto. Qed.

Lemma unfold_ref fuel todo news cs :
  type e = LLAMA_GRETYPE_RULE_REF -> next_stacks hidden_recursion (Z.to_nat (value e)) h s = Ok cs ->
  (forall fuel' seen', (fuel' < fuel)%nat -> seen_before n ((h :: s) :: extra) seen' ->
     advance_loop fuel' hidden_recursion (reverse cs ++ todo) seen' news = Error OutOfFuel) ->
  advance_loop fuel hidden_recursion ((h :: s) :: todo) seen news = Error OutOfFuel.
Proof.
  intros Ht Hcs H. destruct fuel as [|fuel]; [done|]. cbn [advance_loop].
  rewrite bool_decide_eq_false_2 by apply not_seen. rewrite He. bind_simpl. rewrite Ht, Hcs. bind_simpl.
  apply H; [lia | apply seen_before_add].
Qed.

Lemma unfold_char fuel todo news :
  type e = LLAMA_GRETYPE_CHAR ->
  (forall fuel' seen', (fuel' < fuel)%nat -> seen_before n ((h :: s) :: extra) seen' ->
     advance_loop fuel' hidden_recursion todo seen' (add_stack news (h :: s)) = Error OutOfFuel) ->
  advance_loop fuel hidden_recursion ((h :: s) :: todo) seen news = Error OutOfFuel.
Proof.
  intros Ht H. destruct fuel as [|fuel]; [done|]. cbn [advance_loop].
  rewrite bool_decide_eq_false_2 by apply not_seen. rewrite He. bind_simpl. rewrite Ht.
  apply H; [lia | apply seen_before_add].
Qed.
End Unfold.

Ltac new_head := rewrite !not_elem_of_cons; split_and!; try (intros [=]; done); apply not_elem_of_nil.

(** One unfolding of [root], down to the next one. *)
Lemma hidden_unfolds fuel : forall n (seen : gset llama_grammar_stack) news,
  seen_before n [(0, 4)%nat :: replicate n (0, 2)%nat] seen ->
  advance_loop fuel hidden_recursion [(0, 0)%nat :: replicate n (0, 2)%nat] seen news = Error OutOfFuel.
Proof.
  induction (lt_wf fuel) as [fuel _ IH]. intros n seen news H0. pose proof (waiting_repeat n) as Hr.
  pose proof (waiting_repeat (S n)) as Hr'. assert (forall m, (m < fuel)%nat -> forall (seen : gset llama_grammar_stack) news,
    seen_before (S n) [(0, 4)%nat :: (0, 2)%nat :: replicate n (0, 2)%nat] seen ->
    advance_loop m hidden_recursion [(0, 0)%nat :: (0, 2)%nat :: replicate n (0, 2)%nat] seen news = Error OutOfFuel) as IH'
    by (intros m Hm; by apply (IH m Hm (S n))).
  cbn [replicate] in Hr'. clear IH. revert H0 Hr Hr' IH'. generalize (replicate n (0, 2)%nat) as r. intros r H0 Hr Hr' IH.
  eapply (unfold_ref n _ _ H0); [done|exact Hr|new_head|done|done|]. intros m1 seen1 L1 H1. cbn [reverse rev_append app].
  eapply (unfold_ref n _ _ H1); [done|exact Hr|new_head|done|done|]. intros m2 seen2 L2 H2.
  change (advance_loop m2 hidden_recursion [(2, 1)%nat :: (0, 1)%nat :: r; (0, 1)%nat :: r] seen2 news = Error OutOfFuel).
  eapply (unfold_char n _ _ H2); [done|exact Hr|new_head|done|]. intros m3 seen3 L3 H3.
  eapply (unfold_ref n _ _ H3); [done|exact Hr|new_head|done|done|]. intros m4 seen4 L4 H4.
  change (advance_loop m4 hidden_recursion [(0, 4)%nat :: (0, 2)%nat :: r; (0, 0)%nat :: (0, 2)%nat :: r] seen4
    (add_stack news ((2, 1)%nat :: (0, 1)%nat :: r)) = Error OutOfFuel).
  assert (seen_before (S n) [] seen4) as H4'.
  { intros x [Hx|Hx]%H4; left; [lia|]. rewrite !elem_of_cons in Hx.
    destruct Hx as [->|[->|[->|[->|[->|[]%not_elem_of_nil]]]]]; change (waiting r < S n)%nat; lia. }
  eapply (unfold_char (S n) _ _ H4'); [done|exact Hr'|apply not_elem_of_nil|done|]. intros m5 seen5 L5 H5.
  apply IH; [lia | done].
Qed.

(** C15: The search finds no left recursion in these rules, and the expansion of their
    initial stack never returns: [llama_grammar_init_impl] does not terminate on
    them, whatever the bound. *)
Theorem hidden_left_recursion :
  wf_rules hidden_recursion = true /\ valid_refs hidden_recursion = true /\
  check_left_recursion hidden_recursion = Ok false /\
  forall fuel, init_from_rules fuel hidden_recursion 0 = Error OutOfFuel.
Proof.
  split; [by vm_compute|]. split; [by vm_compute|]. split; [by vm_compute|]. intros fuel.
  assert (forall news, llama_grammar_advance_stack fuel hidden_recursion [(0, 0)%nat] news = Error OutOfFuel) as H.
  { intros news. apply (hidden_unfolds fuel 0 ∅). intros s Hs. by apply not_elem_of_empty in Hs. }
  unfold init_from_rules, start_grammar. change (mapM copy_rule hidden_recursion) with (Ok hidden_recursion : R _).
  bind_simpl. change (negb (valid_refs hidden_recursion)) with false. cbv iota.
  change (check_left_recursion hidden_recursion) with (Ok false : R bool). bind_simpl.
  unfold initial_stacks. change (alternates hidden_recursion 0) with (Ok [(0, 0)%nat; (0, 4)%nat] : R _). bind_simpl.
  cbn [foldM]. change (push hidden_recursion (0, 0)%nat []) with (Ok [(0, 0)%nat] : R _). bind_simpl. by rewrite H.
Qed.
End GrammarRun.
