(* ===== verification/GrammarReject.v ===== *)
(** Rejection of candidate tokens: which candidates
    [llama_grammar_reject_candidates] returns, and that a candidate it does not
    return can be accepted. *)

From S2P Require Import Prelude Grammar GrammarWf GrammarLang GrammarTerm GrammarRec GrammarRun.
Import Grammar GrammarWf GrammarLang GrammarTerm GrammarRec GrammarRun.

Module GrammarReject.

(** ** Lists of candidates *)

Lemma cons_yes {A} (P : A -> Prop) (a x : A) (Q : Prop) : P a -> (x = a \/ Q) /\ P x <-> x = a \/ Q /\ P x.
Proof. intros Ha. split; [intros [[->|?] ?]; auto | intros [->|[? ?]]; auto]. Qed.

Lemma cons_no {A} (P : A -> Prop) (a x : A) (Q : Prop) : ~ P a -> (x = a \/ Q) /\ P x <-> Q /\ P x.
Proof. intros Ha. split; [intros [[->|?] ?]; [done|auto] | intros [? ?]; auto]. Qed.

Lemma filter_rejects_elem test l : forall r, filter_rejects test l = Ok r ->
  (forall tok, tok ∈ l -> exists b, test tok = Ok b) /\
  forall tok, tok ∈ r <-> tok ∈ l /\ test tok = Ok true.
Proof.
  induction l as [|tok l IH]; intros r H; cbn [filter_rejects] in H.
  - injection H as <-. split; [intros tok Ht; by apply not_elem_of_nil in Ht | set_solver].
  - apply bind_Ok in H as (b & Hb & H). apply bind_Ok in H as (r' & Hr' & H). injection H as <-.
    destruct (IH _ Hr') as [H1 H2]. split.
    + intros tok' [->|Ht]%elem_of_cons; eauto.
    + intros tok'. rewrite elem_of_cons. destruct b.
      * rewrite (cons_yes (fun t => test t = Ok true)) by done. by rewrite elem_of_cons, H2.
      * rewrite (cons_no (fun t => test t = Ok true)) by (rewrite Hb; discriminate). apply H2.
Qed.

Lemma judge_all_elem rules p l : forall r, judge_all rules p l = Ok r ->
  (forall tok, tok ∈ l -> exists v, judge_at_char rules p tok = Ok v) /\
  (forall tok, tok ∈ r.1 <-> tok ∈ l /\ judge_at_char rules p tok = Ok Reject) /\
  (forall tok', tok' ∈ r.2 <-> exists tok, tok ∈ l /\ judge_at_char rules p tok = Ok Pass /\ tok' = move tok (S (cp_off tok))).
Proof.
  induction l as [|tok l IH]; intros r H; cbn [judge_all] in H.
  - injection H as <-. split_and!; [intros tok Ht; by apply not_elem_of_nil in Ht|set_solver|set_solver].
  - apply bind_Ok in H as (v & Hv & H). apply bind_Ok in H as (r' & Hr' & H).
    destruct (IH _ Hr') as (H1 & H2 & H3). split_and!.
    + intros tok' [->|Ht]%elem_of_cons; eauto.
    + intros tok'. rewrite elem_of_cons. destruct v; injection H as <-; cbn [fst snd].
      * rewrite (cons_yes (fun t => judge_at_char rules p t = Ok Reject)) by done. by rewrite elem_of_cons, H2.
      * rewrite (cons_no (fun t => judge_at_char rules p t = Ok Reject)) by (rewrite Hv; discriminate). apply H2.
      * rewrite (cons_no (fun t => judge_at_char rules p t = Ok Reject)) by (rewrite Hv; discriminate). apply H2.
    + intros tok'. setoid_rewrite elem_of_cons.
      assert ((exists tok0, (tok0 = tok \/ tok0 ∈ l) /\ judge_at_char rules p tok0 = Ok Pass /\ tok' = move tok0 (S (cp_off tok0)))
        <-> (v = Pass /\ tok' = move tok (S (cp_off tok))) \/ tok' ∈ r'.2) as ->.
      { rewrite H3. split.
        - intros (tok0 & [->|Ht] & Hp & ->); [left; split; [congruence | done] | eauto].
        - intros [[-> ->]|(tok0 & Ht & Hp & ->)]; eauto 10. }
      destruct v; injection H as <-; cbn [fst snd]; rewrite ?elem_of_cons; naive_solver.
Qed.

(** ** Where a character class ends does not depend on the character *)

Lemma match_class_end l : forall c found i b m c' found' b' m',
  match_class l c found i = Ok (b, m) -> match_class l c' found' i = Ok (b', m') -> m = m'.
Proof.
  assert (forall n l, (length l <= n)%nat -> forall c found i b m c' found' b' m',
    match_class l c found i = Ok (b, m) -> match_class l c' found' i = Ok (b', m') -> m = m') as H.
  { induction n as [|n IH]; intros [|e [|e1 l2]] Hl c found i b m c' found' b' m'; try done; [simpl in Hl; lia|].
    rewrite !match_class_cons. cbv zeta. destruct (bool_decide (type e1 = _)).
    - destruct l2 as [|e2 l2]; [done|]. destruct (is_alt_char (e2 :: l2)).
      + apply IH. simpl in *. lia.
      + intros [= _ <-] [= _ <-]. done.
    - destruct (is_alt_char (e1 :: l2)).
      + apply IH. simpl in *. lia.
      + intros [= _ <-] [= _ <-]. done. }
  by eapply H.
Qed.

Lemma match_char_end rules p c c' r r' : llama_grammar_match_char rules p c = Ok r ->
  llama_grammar_match_char rules p c' = Ok r' -> r'.2 = r.2.
Proof.
  unfold llama_grammar_match_char. intros H H'. inv_ok H. inv_ok H'.
  match goal with H1 : match_class ?l c _ _ = Ok ?x, H2 : match_class ?l' c' _ _ = Ok ?y |- _ =>
    destruct x as [b m], y as [b' m']; assert (l = l') as E by congruence; rewrite E in H1;
    by rewrite (match_class_end _ _ _ _ _ _ _ _ _ _ H1 H2)
  end.
Qed.

(** ** The candidates the grammar can follow *)

Section Viable.
Variable rules : llama_grammar_rules.

(** From the stack [s], the characters [cps] can be followed, and the cut sequence
    [pu] after them can be completed to a character the grammar takes. *)
Fixpoint viable (s : llama_grammar_stack) (cps : list Z) (pu : llama_partial_utf8) : Prop :=
  match cps with
  | [] =>
      n_remain pu = 0 \/
      match s with [] => False | p :: _ => llama_grammar_match_partial_char rules p pu = Ok true end
  | c :: cps =>
      match s with
      | [] => False
      | p :: s => exists q s1 t, llama_grammar_match_char rules p c = Ok (true, q) /\ push rules q s = Ok s1 /\
          rtc (child rules) s1 t /\ terminal rules t /\ viable t cps pu
      end
  end.

(** The characters of a candidate that are not consumed yet. *)
Definition chars (tok : llama_grammar_candidate) : list Z := removelast (drop (cp_off tok) (code_points tok)).

Definition candidate_ok (tok : llama_grammar_candidate) : Prop :=
  drop (cp_off tok) (code_points tok) = chars tok ++ [0] /\ Forall (fun c => c <> 0) (chars tok).

Lemma cur_cp_ok tok : candidate_ok tok ->
  (chars tok = [] /\ cur_cp tok = Ok 0) \/ exists c cps, chars tok = c :: cps /\ c <> 0 /\ cur_cp tok = Ok c /\
    chars (move tok (S (cp_off tok))) = cps /\ candidate_ok (move tok (S (cp_off tok))).
Proof.
  unfold cur_cp. intros [Hd Hc]. assert (forall c r, drop (cp_off tok) (code_points tok) = c :: r ->
    at_ (E := grammar_error) (code_points tok) (cp_off tok) = Ok c /\ drop (S (cp_off tok)) (code_points tok) = r) as Hat.
  { intros c r Hcr. split.
    - apply at_Ok. by rewrite <- (Nat.add_0_r (cp_off tok)), <- lookup_drop, Hcr.
    - by rewrite <- (skipn_skipn 1), Hcr. }
  destruct (chars tok) as [|c cps] eqn:E; cbn [app] in Hd; apply Hat in Hd as [Hat1 Hd]; [by left|].
  right. exists c, cps. inversion Hc as [|? ? Hc0 Hcs]; subst.
  assert (chars (move tok (S (cp_off tok))) = cps) as Hm.
  { unfold chars. cbn [cp_off code_points move]. rewrite Hd. by apply removelast_last. }
  split_and!; [done..|]. split; rewrite Hm; done.
Qed.

Hypothesis no_tokens : forall p e, elem_at rules p = Ok e -> is_token e = false.

Lemma reject_at_end_viable tok b : candidate_ok tok -> reject_at_end tok = Ok b ->
  b = true <-> ~ viable [] (chars tok) (partial_utf8 tok).
Proof.
  intros Hok H. unfold reject_at_end in H.
  destruct (cur_cp_ok tok Hok) as [[-> E]|(c & cps & -> & Hc & E & _)]; rewrite E in H; injection H as <-.
  - cbn [viable Z.eqb negb orb]. destruct (Z.eqb_spec (n_remain (partial_utf8 tok)) 0); cbn [negb]; naive_solver.
  - apply Z.eqb_neq in Hc. rewrite Hc. cbn. tauto.
Qed.

Lemma judge_reject tok p s s1 q (nexts : llama_grammar_stacks) v : candidate_ok tok ->
  llama_grammar_match_char rules p 0 = Ok q -> push rules q.2 s = Ok s1 ->
  (forall t, t ∈ nexts <-> rtc (child rules) s1 t /\ terminal rules t) ->
  judge_at_char rules p tok = Ok v ->
  match v with
  | Reject => ~ viable (p :: s) (chars tok) (partial_utf8 tok)
  | Keep => viable (p :: s) (chars tok) (partial_utf8 tok)
  | Pass => candidate_ok (move tok (S (cp_off tok))) /\
      (viable (p :: s) (chars tok) (partial_utf8 tok) <->
       exists t, t ∈ nexts /\ viable t (chars (move tok (S (cp_off tok)))) (partial_utf8 tok))
  end.
Proof.
  intros Hok Hq Hs1 Hnexts H. unfold judge_at_char in H.
  destruct (cur_cp_ok tok Hok) as [[-> E]|(c & cps & -> & Hc & E & Hm & Hok')]; rewrite E in H; bind_simpl;
    cbn [mbind result_bind] in H.
  - cbn [Z.eqb] in H. destruct (Z.eqb_spec (n_remain (partial_utf8 tok)) 0) as [Hz|Hz].
    + injection H as <-. by left.
    + apply bind_Ok in H as (m & Hmp & H). destruct m; injection H as <-; cbn [viable]; [by right|].
      rewrite Hmp. intros [?|[=]]. done.
  - apply Z.eqb_neq in Hc. rewrite Hc in H. apply bind_Ok in H as ([b q'] & Hmc & H).
    pose proof (match_char_end _ _ _ _ _ _ Hmc Hq) as Hend. cbn [snd fst] in *. rewrite Hend in Hs1.
    destruct b; injection H as <-; cbn [viable].
    + split; [done|]. rewrite Hm. split.
      * intros (q1 & s2 & t & Hmc' & Hp & Hr & Ht & Hv). rewrite Hmc in Hmc'. injection Hmc' as <-.
        rewrite Hs1 in Hp. injection Hp as <-. exists t. split; [by apply Hnexts | done].
      * intros (t & [Hr Ht]%Hnexts & Hv). exists q', s1, t. done.
    + intros (q1 & s2 & t & Hmc' & _). by rewrite Hmc in Hmc'.
Qed.

Lemma move_back tok : move (move tok (S (cp_off tok))) (cp_off (move tok (S (cp_off tok))) - 1) = tok.
Proof. destruct tok. unfold move. cbn. by rewrite Nat.sub_0_r. Qed.

(** Candidates that every stack of a list rejects. *)
Lemma reject_all_elem (f : llama_grammar_stack -> list llama_grammar_candidate -> R (list llama_grammar_candidate)) sts :
  (forall s cands rej, s ∈ sts -> (forall tok, tok ∈ cands -> candidate_ok tok) -> f s cands = Ok rej ->
     forall tok, tok ∈ rej <-> tok ∈ cands /\ ~ viable s (chars tok) (partial_utf8 tok)) ->
  forall cands rej, (forall tok, tok ∈ cands -> candidate_ok tok) -> foldM (fun c st => f st c) cands sts = Ok rej ->
  forall tok, tok ∈ rej <-> tok ∈ cands /\ forall s, s ∈ sts -> ~ viable s (chars tok) (partial_utf8 tok).
Proof.
  induction sts as [|s sts IH]; intros Hf cands rej Hok H tok; cbn [foldM] in H.
  - injection H as <-. set_solver.
  - apply bind_Ok in H as (mid & H1 & H2). pose proof (Hf s cands mid (list_elem_of_here _ _) Hok H1) as Hmid.
    rewrite (IH (fun s' c r Hs' => Hf s' c r (list_elem_of_further _ _ _ Hs')) mid rej); [| |done].
    + rewrite Hmid. setoid_rewrite elem_of_cons. naive_solver.
    + intros t [Ht _]%Hmid. by apply Hok.
Qed.

Lemma reject_for_stack_elem fuel depth : forall s cands rej,
  live rules s -> (forall tok, tok ∈ cands -> candidate_ok tok) ->
  reject_for_stack fuel rules depth s cands = Ok rej ->
  forall tok, tok ∈ rej <-> tok ∈ cands /\ ~ viable s (chars tok) (partial_utf8 tok).
Proof.
  induction depth as [|depth IH]; intros s cands rej Hs Hok H tok; [done|]. cbn [reject_for_stack] in H.
  destruct s as [|p s].
  { destruct (filter_rejects_elem _ _ _ H) as [Hall Hrej]. rewrite Hrej. split.
    - intros [Ht Hb]. split; [done|]. by apply (reject_at_end_viable tok true); [apply Hok|..].
    - intros [Ht Hv]. split; [done|]. destruct (Hall tok Ht) as [b Hb]. rewrite Hb. f_equal.
      by apply (reject_at_end_viable tok b); [apply Hok|..]. }
  apply bind_Ok in H as (e & He & H). rewrite (no_tokens _ _ He) in H.
  apply bind_Ok in H as ([rejects next_cands] & Hj & H). apply bind_Ok in H as (q & Hq & H).
  apply bind_Ok in H as (s1 & Hs1 & H). apply bind_Ok in H as (nexts & Hn & H). apply bind_Ok in H as (u & _ & H).
  apply bind_Ok in H as (nrej & Hnr & H). injection H as <-.
  destruct (judge_all_elem _ _ _ _ Hj) as (Hjv & Hjr & Hjn). cbn [fst snd] in *.
  pose proof (push_clean _ _ _ _ (clean_tail _ _ _ (proj2 Hs)) Hs1) as Hc1.
  assert (forall t, t ∈ nexts <-> rtc (child rules) s1 t /\ terminal rules t) as Hnexts.
  { intros t. rewrite (advance_stack_elem _ _ _ _ _ Hn). set_solver. }
  assert (Forall (live rules) nexts) as Hlive by (eapply advance_live; [exact Hc1|constructor|exact Hn]).
  assert (forall tok v, tok ∈ cands -> judge_at_char rules p tok = Ok v -> _) as Hjudge
    by exact (fun tok v Ht => judge_reject tok p s s1 q nexts v (Hok tok Ht) Hq Hs1 Hnexts).
  assert (forall tok, tok ∈ nrej <-> tok ∈ next_cands /\ forall t, t ∈ nexts -> ~ viable t (chars tok) (partial_utf8 tok)) as Hnrej.
  { destruct next_cands as [|c0 cs]; [injection Hnr as <-; set_solver|].
    apply (reject_all_elem (reject_for_stack fuel rules depth)); [| |done].
    - intros t c r Ht. apply IH. rewrite Forall_forall in Hlive. by apply Hlive.
    - intros t (tok0 & Ht0 & Hp & ->)%Hjn. by apply (Hjudge tok0 Pass). }
  rewrite elem_of_app, list_elem_of_fmap, Hjr. split.
  - intros [[Ht Hv]|(tok' & -> & [(tok0 & Ht0 & Hp & ->)%Hjn Hno]%Hnrej)].
    + split; [done|]. by apply (Hjudge tok Reject).
    + rewrite move_back. split; [done|]. destruct (Hjudge tok0 Pass Ht0 Hp) as [_ ->].
      intros (t & Ht & Hv). by apply (Hno t Ht).
  - intros [Ht Hnv]. destruct (Hjv tok Ht) as [v Hv]. pose proof (Hjudge tok v Ht Hv) as Hjt. destruct v.
    + by left.
    + done.
    + right. exists (move tok (S (cp_off tok))). rewrite move_back. split; [done|]. apply Hnrej. split; [apply Hjn; eauto|].
      intros t Ht' Hvt. apply Hnv, Hjt. eauto.
Qed.
End Viable.

(** ** The rejection returns *)

Section Total.
Variable rules : llama_grammar_rules.
Hypothesis Hwf : wf_rules rules = true.
Hypothesis Hleft : no_left_recursion rules.
Hypothesis no_tokens : forall p e, elem_at rules p = Ok e -> is_token e = false.

Lemma reaches_terminal s : stack_ok rules s -> exists t, rtc (child rules) s t /\ terminal rules t.
Proof.
  intros Hok. pose proof (stack_expanding rules Hwf s Hleft Hok) as Hexp. revert Hok.
  induction Hexp as [s _ IH]. intros Hok. destruct s as [|p s]; [by exists []|].
  destruct (stack_ok_top rules _ _ Hok) as (e & He & [Hc|Hr] & Hp & Hs); [exists (p :: s); split; [done | by exists e]|].
  assert (Z.to_nat (value e) < length rules)%nat as Hk by by eapply pos_ok_ref.
  destruct (alternates_ok rules _ Hwf Hk) as (alts & Ha & Hne & Hall).
  destruct alts as [|q alts]; [done|]. destruct (Hall q) as [Hq _]; [left|].
  assert (pos_ok rules (next p)) as Hnp by (eapply pos_ok_next; [done..|by rewrite Hr]).
  destruct (push_ok rules (next p) s Hnp Hs) as (s1 & E1 & Hs1). destruct (push_ok rules q s1 Hq Hs1) as (c & E2 & Hc).
  assert (child rules (p :: s) c) as Hch by (econstructor; [done..| |done|done]; left).
  destruct (IH c Hch Hc) as (t & Hrt & Htt). exists t. split; [by eapply rtc_l | done].
Qed.

(** What the rejection needs of a candidate. *)
Definition candidate_fine (depth : nat) (tok : llama_grammar_candidate) : Prop :=
  candidate_ok tok /\ Forall code_point (chars tok) /\ (length (chars tok) < depth)%nat.

Lemma sound_match p s c : sound rules (p :: s) -> code_point c ->
  exists b q, llama_grammar_match_char rules p c = Ok (b, q) /\ pos_ok rules q /\ stack_ok rules s.
Proof.
  intros Hs Hc. destruct (sound_top rules p s c Hs Hc) as (e & He & Hok & Hm).
  rewrite (no_tokens _ _ He) in Hm. destruct Hm as (b & q & Hm & Hq). eauto.
Qed.

Lemma sound_partial p s pu : sound rules (p :: s) -> exists b, llama_grammar_match_partial_char rules p pu = Ok b.
Proof.
  intros [(e & He & Hc) Hok]. destruct (stack_ok_top rules _ _ Hok) as (e' & He' & _ & Hp & _).
  rewrite He in He'. injection He' as <-.
  destruct (match_partial_ok rules p e pu Hp He) as (r & _ & ->); [|eauto].
  pose proof (no_tokens _ _ He) as Hn. revert Hn Hc. unfold is_token, consumes, is_positive_char. by destruct (type e).
Qed.

Lemma judge_total p s tok depth : sound rules (p :: s) -> candidate_fine (S depth) tok ->
  exists v, judge_at_char rules p tok = Ok v /\ (v = Pass -> candidate_fine depth (move tok (S (cp_off tok)))).
Proof.
  intros Hs (Hok & Hcp & Hlen). unfold judge_at_char.
  destruct (cur_cp_ok tok Hok) as [[_ ->]|(c & cps & E & Hc & -> & Hm & Hok')]; bind_simpl.
  - cbn [Z.eqb]. destruct (_ =? 0); [by exists Keep|].
    destruct (sound_partial p s (partial_utf8 tok) Hs) as [b ->]. bind_simpl. destruct b; eauto; by eexists.
  - apply Z.eqb_neq in Hc. rewrite Hc. rewrite E in Hcp, Hlen. inversion Hcp as [|? ? Hc1 Hc2]; subst.
    destruct (sound_match p s c Hs Hc1) as (b & q & -> & _). bind_simpl. cbn [fst].
    destruct b; [|by exists Reject]. exists Pass. split; [done|]. intros _. unfold candidate_fine.
    cbn [length] in Hlen. split_and!; [done..|lia].
Qed.

Lemma judge_all_total p s cands depth : sound rules (p :: s) -> (forall tok, tok ∈ cands -> candidate_fine (S depth) tok) ->
  exists r, judge_all rules p cands = Ok r /\ forall tok, tok ∈ r.2 -> candidate_fine depth tok.
Proof.
  intros Hs. induction cands as [|tok cands IH]; intros Hc; cbn [judge_all].
  { exists ([], []). split; [done|]. intros tok Ht. by apply not_elem_of_nil in Ht. }
  destruct (judge_total p s tok depth Hs) as (v & -> & Hp); [apply Hc; left|]. bind_simpl.
  destruct IH as (r & -> & Hr); [intros t Ht; apply Hc; by right|]. bind_simpl. eexists. split; [done|].
  destruct v; cbn [snd]; [done..|]. intros t [->|Ht]%elem_of_cons; auto.
Qed.

Lemma filter_rejects_total (test : llama_grammar_candidate -> R bool) l :
  (forall tok, tok ∈ l -> exists b, test tok = Ok b) -> exists r, filter_rejects test l = Ok r.
Proof.
  induction l as [|tok l IH]; intros Hl; cbn [filter_rejects]; [by eexists|].
  destruct (Hl tok) as [b ->]; [left|]. bind_simpl. destruct IH as [r ->]; [intros t Ht; apply Hl; by right|].
  bind_simpl. by eexists.
Qed.

(** Every stack of a list runs on the candidates left by those before it. *)
Lemma reject_all_runs (f : nat -> llama_grammar_stack -> list llama_grammar_candidate -> R (list llama_grammar_candidate))
    (Q : llama_grammar_candidate -> Prop) sts :
  (forall s cands, s ∈ sts -> (forall tok, tok ∈ cands -> Q tok) -> runs (fun fuel => f fuel s cands)) ->
  (forall fuel s cands rej, s ∈ sts -> (forall tok, tok ∈ cands -> Q tok) -> f fuel s cands = Ok rej ->
     forall tok, tok ∈ rej -> tok ∈ cands) ->
  forall cands, (forall tok, tok ∈ cands -> Q tok) -> runs (fun fuel => foldM (fun c st => f fuel st c) cands sts).
Proof.
  intros Hr Hsub cands Hc. apply (runs_foldM (fun cands => forall tok, tok ∈ cands -> Q tok)); [| |done].
  - intros s c Hs HQ. by apply Hr.
  - intros fuel s c c' Hs HQ H tok Ht. by eapply HQ, Hsub.
Qed.

Lemma reject_for_stack_runs depth : forall s cands, (0 < depth)%nat -> sound rules s ->
  (forall tok, tok ∈ cands -> candidate_fine depth tok) -> runs (fun fuel => reject_for_stack fuel rules depth s cands).
Proof.
  induction depth as [|depth IH]; intros s cands Hd Hs Hc; [lia|]. cbn [reject_for_stack]. destruct s as [|p s].
  { destruct (filter_rejects_total reject_at_end cands) as [r Hr]; [|exists r, 0%nat; by intros].
    intros tok Ht. unfold reject_at_end.
    by destruct (cur_cp_ok tok (proj1 (Hc tok Ht))) as [[_ ->]|(c & ? & _ & _ & -> & _)]; bind_simpl; eexists. }
  pose proof Hs as [(e & He & _) Hok]. apply (runs_const _ e); [done|]. rewrite (no_tokens _ _ He).
  destruct (judge_all_total p s cands depth Hs Hc) as ([rejects nexts] & Hj & Hn). apply (runs_const _ (rejects, nexts)); [done|].
  destruct (sound_match p s 0 Hs) as (b & q & Hq & Hpq & Hs'); [unfold code_point, UINT32_MAX; lia|].
  apply (runs_const _ (b, q)); [done|]. destruct (push_ok rules q s Hpq Hs') as (s1 & E1 & Hs1).
  apply (runs_const _ s1); [done|].
  apply (runs_bind (fun fuel => llama_grammar_advance_stack fuel rules s1 []) (fun nexts' fuel => _)).
  { apply advance_runs; [done| |done]. by apply stack_expanding. }
  intros sts [fuel Hsts]. destruct (reaches_terminal s1 Hs1) as (t & Hrt & Htt).
  assert (t ∈ sts) as Hin by (apply (advance_stack_elem _ _ _ _ _ Hsts); by right).
  assert (sts <> []) as Hne by (intros ->; by apply not_elem_of_nil in Hin).
  apply (runs_const _ tt); [by rewrite bool_decide_eq_false_2|].
  assert (Forall (sound rules) sts) as Hss by (eapply (advance_sound_stacks rules Hwf); [exact Hs1|constructor|exact Hsts]).
  apply (runs_bind (fun fuel => match nexts with [] => Ok [] | _ => foldM (fun c st => reject_for_stack fuel rules depth st c) nexts sts end)
    (fun r fuel => Ok (rejects ++ ((fun tok => move tok (cp_off tok - 1)) <$> r)))); [|intros; apply runs_ret].
  destruct nexts as [|c0 cs]; [apply runs_ret|].
  assert (0 < depth)%nat as Hd' by (destruct (Hn c0) as (_ & _ & ?); [left | lia]).
  apply (reject_all_runs (fun fuel => reject_for_stack fuel rules depth) (candidate_fine depth)); [| |done].
  - intros st cands' Hst Hc'. rewrite Forall_forall in Hss. apply IH; [done|by apply Hss|done].
  - intros fl st cands' rej Hst Hc' Hrej tok Htok. rewrite Forall_forall in Hss. destruct (Hss st Hst) as [Hterm Hstok].
    eapply (reject_for_stack_elem rules no_tokens fl depth st cands' rej); [| |exact Hrej|exact Htok].
    + split; [done|]. by apply (stack_ok_clean rules).
    + intros tok' Ht'. by apply Hc'.
Qed.

Lemma reject_candidates_runs depth stacks cands : (0 < depth)%nat -> stacks <> [] -> Forall (sound rules) stacks ->
  (forall tok, tok ∈ cands -> candidate_fine depth tok) ->
  runs (fun fuel => llama_grammar_reject_candidates fuel rules depth stacks cands).
Proof.
  intros Hd Hne Hs Hc. apply (runs_const _ tt); [by rewrite bool_decide_eq_false_2|].
  destruct cands as [|c0 cs]; [apply runs_ret|]. rewrite Forall_forall in Hs.
  apply (reject_all_runs (fun fuel => reject_for_stack fuel rules depth) (candidate_fine depth)); [| |done].
  - intros st cands' Hst Hc'. apply reject_for_stack_runs; [done|by apply Hs|done].
  - intros fl st cands' rej Hst Hc' Hrej tok Htok. destruct (Hs st Hst) as [Hterm Hstok].
    eapply (reject_for_stack_elem rules no_tokens fl depth st cands' rej); [| |exact Hrej|exact Htok].
    + split; [done|]. by apply (stack_ok_clean rules).
    + intros tok' Ht'. by apply Hc'.
Qed.
End Total.

Lemma reject_candidates_elem fuel rules depth stacks cands rej :
  (forall p e, elem_at rules p = Ok e -> is_token e = false) -> Forall (live rules) stacks ->
  (forall tok, tok ∈ cands -> candidate_ok tok) ->
  llama_grammar_reject_candidates fuel rules depth stacks cands = Ok rej ->
  forall tok, tok ∈ rej <-> tok ∈ cands /\ forall s, s ∈ stacks -> ~ viable rules s (chars tok) (partial_utf8 tok).
Proof.
  intros Hnt Hl Hok H. apply bind_Ok in H as (u & _ & H). destruct cands as [|c0 cs]; [injection H as <-; set_solver|].
  apply (reject_all_elem rules Hnt (reject_for_stack fuel rules depth)); [|done|done].
  intros s cands rej' Hs. rewrite Forall_forall in Hl. apply reject_for_stack_elem; auto.
Qed.

(** Rules without token elements. *)
Definition character_rules (rules : llama_grammar_rules) : bool := forallb (forallb (fun e => negb (is_token e))) rules.

Lemma character_rules_elem rules p e : character_rules rules = true -> elem_at rules p = Ok e -> is_token e = false.
Proof.
  unfold elem_at, character_rules. intros H He. inv_ok He. rewrite forallb_forall in H.
  apply negb_true_iff. match goal with Hr : rules !! _ = Some ?r, Hx : ?r !! _ = Some e |- _ =>
    specialize (H r (proj1 (list_elem_of_In _ _) (list_elem_of_lookup_2 _ _ _ Hr))); rewrite forallb_forall in H;
    exact (H e (proj1 (list_elem_of_In _ _) (list_elem_of_lookup_2 _ _ _ Hx))) end.
Qed.

(** C12: For well-formed rules without token elements and without left recursion,
    the rejection of candidates returns, and returns exactly the candidates that no
    stack can follow: a candidate is kept when some stack takes all its characters
    and, if it ends in a cut sequence, the character after them can be completed
    from the partial match of the element on top. *)
Theorem grammar_reject_candidates rules depth stacks cands :
  wf_rules rules = true -> check_left_recursion rules = Ok false -> empties_closed rules = true ->
  character_rules rules = true -> stacks <> [] -> Forall (sound rules) stacks -> (0 < depth)%nat ->
  (forall tok, tok ∈ cands -> candidate_fine depth tok) ->
  exists fuel rej, (forall fuel', (fuel <= fuel')%nat -> llama_grammar_reject_candidates fuel' rules depth stacks cands = Ok rej) /\
    forall tok, tok ∈ rej <-> tok ∈ cands /\ forall s, s ∈ stacks -> ~ viable rules s (chars tok) (partial_utf8 tok).
Proof.
  intros Hwf Hcheck Hempty Hchars Hne Hs Hd Hc.
  pose proof (search_no_left_recursion rules (closed_direct_empties rules Hempty) Hcheck) as Hleft.
  assert (forall p e, elem_at rules p = Ok e -> is_token e = false) as Hnt by (intros p e; by apply character_rules_elem).
  destruct (reject_candidates_runs rules Hwf Hleft Hnt depth stacks cands Hd Hne Hs Hc) as (rej & n & Hr).
  exists n, rej. split; [done|]. apply (reject_candidates_elem n rules depth stacks cands rej); [done| | |by apply Hr].
  - by apply sound_live.
  - intros tok Ht. by apply Hc.
Qed.

(** The candidate of a piece "()(" and of a cut sequence after it. *)
Definition paren_candidate (cps : list Z) (pu : llama_partial_utf8) : llama_grammar_candidate := mk_cand 0 (cps ++ [0]) 0 pu 1.

Lemma grammar_reject_candidates_witness :
  exists fuel rej, llama_grammar_reject_candidates fuel dyck 4 [[(0, 0)%nat]; []]
      [paren_candidate [40; 41; 40] no_partial; paren_candidate [41] no_partial; paren_candidate [40] (mk_partial 3 1)] = Ok rej /\
    paren_candidate [41] no_partial ∈ rej /\ paren_candidate [40; 41; 40] no_partial ∉ rej.
Proof.
  destruct (grammar_reject_candidates dyck 4 [[(0, 0)%nat]; []]
      [paren_candidate [40; 41; 40] no_partial; paren_candidate [41] no_partial; paren_candidate [40] (mk_partial 3 1)])
    as (fuel & rej & Hr & Hrej); [by vm_compute..|done| |lia| |].
  - repeat constructor; try (by eexists); try (by eexists; vm_compute); intros e He; by vm_compute in He; injection He as <-.
  - intros tok Ht. rewrite !elem_of_cons in Ht.
    destruct Ht as [->|[->|[->|[]%not_elem_of_nil]]]; (split; [split; [done | repeat constructor; done]|]);
      (split; [repeat constructor; unfold code_point, UINT32_MAX; cbn; lia | cbn; lia]).
  - exists fuel, rej. split; [by apply Hr|].
    specialize (Hr (fuel + 20)%nat ltac:(lia)). replace (fuel + 20)%nat with (20 + fuel)%nat in Hr by lia.
    vm_compute in Hr. injection Hr as <-. split; [set_solver|]. rewrite !not_elem_of_cons. split_and!; try done. apply not_elem_of_nil.
Defined.

(** ** Masking and accepting *)




Section Kept.
Variable rules : llama_grammar_rules.
Hypothesis no_tokens : forall p e, elem_at rules p = Ok e -> is_token e = false.



End Kept.

(** ** Progress of the decoder *)





(** ** Masking and accepting *)

Section Apply.
Context {logit : Type} (masked : logit).
Variables (v : llama_vocab) (g : llama_grammar).

Abbreviation allow_eog := (existsb (fun s => match s with [] => true | _ => false end) (stacks g)).



Abbreviation mask l i := (alter (fun tl : Z * logit => (tl.1, masked)) i l).




End Apply.







(** With token elements the two disagree. The masking compares a token element with the
    token wherever it comes up after characters of the piece; the acceptance takes the
    whole piece as characters: a piece "ab" whose token is the element after "a" is left
    unmasked, and throws. *)
Definition ab_vocab : llama_vocab := mk_vocab (fun t => if t =? 5 then [97; 98] else []) (fun _ => false).

Lemma token_inside_a_piece :
  llama_grammar_apply_impl 20 (-1) ab_vocab letter_token [(5, 1)] 4 = Ok [(5, 1)] /\
  llama_grammar_accept_impl 20 ab_vocab letter_token 5 = Error EmptyStack.
Proof. split; vm_compute; reflexivity. Qed.

End GrammarReject.
