(* ===== verification/GrammarDecode.v ===== *)
(** Decoding of output pieces: the decoder of Grammar.v, which keeps the cut
    sequence at the end of a piece for the next one, against a decoder that reads one
    byte at a time and against the encoder of Unicode.v. *)

From S2P Require Import Prelude Unicode Grammar.
Import Grammar.

Module GrammarDecode.

(** ** One byte at a time *)

(** The reference decoder: from the bits so far and the number of bytes missing, the
    code point a byte completes, if any, and the next state. It refuses every invalid byte. *)
Definition feed (v n b : Z) : option (list Z * (Z * Z)) :=
  if 0 <? n then
    if Z.shiftr b 6 =? 2 then
      let v' := shift_in v b in Some (if n - 1 =? 0 then [v'] else [], (v', n - 1))
    else None
  else
    let n' := default 0 (utf8_len0 !! Z.to_nat (Z.shiftr b 4)) - 1 in
    if n' <? 0 then None
    else
      let v' := Z.land b (Z.land (Z.shiftl 1 (7 - n') - 1) 0xff) in
      Some (if n' =? 0 then [v'] else [], (v', n')).

Fixpoint feeds (s : list Z) (v n : Z) : option (list Z * (Z * Z)) :=
  match s with
  | [] => Some ([], (v, n))
  | b :: s =>
      r ← feed v n b; r' ← feeds s r.2.1 r.2.2; Some (r.1 ++ r'.1, r'.2)
  end.

Lemma feeds_app s t v n :
  feeds (s ++ t) v n = (r ← feeds s v n; r' ← feeds t r.2.1 r.2.2; Some (r.1 ++ r'.1, r'.2)).
Proof.
  revert v n. induction s as [|b s IH]; intros v n; cbn [feeds app].
  - bind_simpl. cbn [fst snd]. destruct (feeds t v n) as [[c st]|]; done.
  - destruct (feed v n b) as [[c [v1 n1]]|]; bind_simpl; [|done]. cbn [fst snd]. rewrite IH.
    destruct (feeds s v1 n1) as [[c2 [v2 n2]]|]; bind_simpl; [|done]. cbn [fst snd].
    destruct (feeds t v2 n2) as [[c3 st]|]; bind_simpl; [|done]. cbn [fst snd]. by rewrite app_assoc.
Qed.

Lemma feed_nonneg v n b c v' n' : feed v n b = Some (c, (v', n')) -> 0 <= n'.
Proof.
  unfold feed. destruct (Z.ltb_spec 0 n).
  - destruct (_ =? 2); [|done]. intros [= _ _ <-]. lia.
  - destruct (Z.ltb_spec (default 0 (utf8_len0 !! Z.to_nat (Z.shiftr b 4)) - 1) 0); [done|]. intros [= _ _ <-]. lia.
Qed.

(** ** The loops of the code *)

Lemma feeds_tail s : forall v n cps st, 0 < n -> feeds s v n = Some (cps, st) ->
  exists v' n' rest cps', decode_tail s v n = (v', n', rest) /\ decode_continue s v n = Some (v', n', rest) /\
    0 <= n' /\ (n' <> 0 -> rest = []) /\ (length rest <= length s)%nat /\ feeds rest v' n' = Some (cps', st) /\
    cps = (if n' =? 0 then [v'] else []) ++ cps'.
Proof.
  induction s as [|b s IH]; intros v n cps st Hn H; cbn [feeds] in H.
  - injection H as <- <-. exists v, n, [], []. cbn. destruct (Z.eqb_spec n 0); [lia|]. split_and!; try done. lia.
  - apply bind_Some_inv in H as ([c [v1 n1]] & Hf & H). apply bind_Some_inv in H as ([c2 st2] & Hs & H).
    injection H as <- <-. cbn [fst snd] in *. unfold feed in Hf. rewrite (proj2 (Z.ltb_lt 0 n) Hn) in Hf.
    cbn [decode_tail decode_continue]. rewrite (proj2 (Z.ltb_lt 0 n) Hn).
    destruct (Z.shiftr b 6 =? 2); [|done]. cbn [negb]. injection Hf as <- <- <-.
    destruct (Z.eqb_spec (n - 1) 0) as [Hz|Hz].
    + exists (shift_in v b), 0, s, c2. rewrite Hz in Hs |- *. split_and!; try done; [by destruct s|by destruct s|cbn; lia].
    + destruct (IH (shift_in v b) (n - 1) c2 st2) as (v' & n' & rest & cps' & H1 & H2 & H3 & H4 & H5 & H6 & H7); [lia|done|].
      exists v', n', rest, cps'. split_and!; try done. cbn. lia.
Qed.

Lemma feeds_seqs fuel : forall s v n cps out v' n', (length s <= fuel)%nat -> s = [] \/ n = 0 ->
  feeds s v n = Some (out, (v', n')) ->
  decode_seqs fuel s v n cps = Ok ((cps ++ out) ++ [0], mk_partial v' n').
Proof.
  induction fuel as [|fuel IH]; intros [|b s] v n cps out v' n' Hl Hn H; try (simpl in Hl; lia).
  1, 2: injection H as <- <- <-; by rewrite app_nil_r.
  destruct Hn as [Hn| ->]; [done|]. cbn [feeds] in H.
  apply bind_Some_inv in H as ([c [v1 n1]] & Hf & H). apply bind_Some_inv in H as ([c2 st2] & Hs & H).
  injection H as <- Hst. cbn [fst snd] in *. subst st2. pose proof (feed_nonneg _ _ _ _ _ _ Hf) as Hn1.
  unfold feed in Hf. cbn [Z.ltb Z.compare] in Hf. cbn [decode_seqs]. cbv zeta in *.
  destruct (_ <? 0); [done|]. injection Hf as <- <- <-. simpl in Hl.
  set (v1 := Z.land b _) in *. set (n1 := default 0 _ - 1) in *. destruct (Z.eqb_spec n1 0) as [Hz|Hz].
  - assert (decode_tail s v1 n1 = (v1, n1, s)) as -> by (rewrite Hz; by destruct s).
    rewrite (proj2 (Z.eqb_eq n1 0) Hz). rewrite (IH s v1 n1 _ c2 v' n'); [|lia|by right|done]. by rewrite <- !app_assoc.
  - destruct (feeds_tail s v1 n1 c2 (v', n')) as (v2 & n2 & rest & cps' & -> & _ & H3 & H4 & H5 & H6 & ->); [lia|done|].
    rewrite (IH rest v2 n2 _ cps' v' n'); [|lia| |done].
    + cbn [app]. destruct (n2 =? 0); by rewrite <- ?app_assoc.
    + destruct (decide (n2 = 0)); [by right | left; auto].
Qed.

Lemma c_str_nonzero s : Forall (fun b => b <> 0) s -> c_str s = s.
Proof.
  induction 1 as [|b s Hb _ IH]; [done|]. cbn [c_str]. apply Z.eqb_neq in Hb. by rewrite Hb, IH.
Qed.

Lemma feeds_decode s pu out v n : Forall (fun b => b <> 0) s -> 0 <= n_remain pu ->
  feeds s (p_value pu) (n_remain pu) = Some (out, (v, n)) ->
  decode_utf8 s pu = Ok (out ++ [0], mk_partial v n).
Proof.
  intros Hs Hn H. unfold decode_utf8. rewrite c_str_nonzero by done.
  destruct (Z.ltb_spec 0 (n_remain pu)) as [Hpos|Hz].
  - destruct (feeds_tail _ _ _ _ _ Hpos H) as (v' & n' & rest & cps' & _ & -> & H3 & H4 & H5 & H6 & ->). cbn [andb].
    apply feeds_seqs; [lia| |done]. destruct (decide (n' = 0)); [by right | left; auto].
  - assert (n_remain pu = 0) as Hz0 by lia. rewrite Hz0 in *.
    assert (decode_continue s (p_value pu) 0 = Some (p_value pu, 0, s)) as -> by by destruct s.
    apply (feeds_seqs (length s) s (p_value pu) 0 []); [done|by right|done].
Qed.

Lemma feeds_nonneg s : forall v n c v' n', 0 <= n -> feeds s v n = Some (c, (v', n')) -> 0 <= n'.
Proof.
  induction s as [|b s IH]; intros v n c v' n' Hn Hf; cbn [feeds] in Hf; [by injection Hf as _ _ <-|].
  apply bind_Some_inv in Hf as ([c1 [v2 n2]] & Hb & Hf). apply bind_Some_inv in Hf as ([c2 st] & Hs & Hf).
  injection Hf as _ ->. eapply IH; [|done]. by eapply feed_nonneg.
Qed.

(** The pieces of an output one after the other, as the tokens arrive. *)
Fixpoint decode_pieces (pieces : list (list Z)) (pu : llama_partial_utf8) : R (list Z * llama_partial_utf8) :=
  match pieces with
  | [] => Ok ([], pu)
  | s :: pieces => d ← decode_utf8 s pu; r ← decode_pieces pieces d.2; Ok (removelast d.1 ++ r.1, r.2)
  end.

Lemma feeds_pieces pieces : forall pu out v n, Forall (fun b => b <> 0) (concat pieces) -> 0 <= n_remain pu ->
  feeds (concat pieces) (p_value pu) (n_remain pu) = Some (out, (v, n)) ->
  decode_pieces pieces pu = Ok (out, mk_partial v n).
Proof.
  induction pieces as [|s pieces IH]; intros pu out v n Hs Hn H; cbn [concat decode_pieces] in *.
  { injection H as <- <- <-. by destruct pu. }
  apply Forall_app in Hs as [Hs Hrest]. rewrite feeds_app in H.
  apply bind_Some_inv in H as ([c [v1 n1]] & Hf & H). apply bind_Some_inv in H as ([c2 st2] & Hp & H).
  injection H as <- ->. cbn [fst snd] in *. rewrite (feeds_decode s pu c v1 n1) by done. bind_simpl. cbn [fst snd].
  rewrite removelast_last. assert (0 <= n1) as Hn1.
  { by eapply feeds_nonneg. }
  rewrite (IH (mk_partial v1 n1) c2 v n) by done. done.
Qed.

(** ** Encoded text *)

Lemma feed_cont v n x : 0 <= v < 2 ^ 26 -> 0 <= x < 64 -> 0 < n ->
  feed v n (128 + x) = Some (if n - 1 =? 0 then [v * 64 + x] else [], (v * 64 + x, n - 1)).
Proof.
  intros Hv Hx Hn. unfold feed. rewrite (proj2 (Z.ltb_lt 0 n) Hn).
  assert ((Z.shiftr (128 + x) 6 =? 2) && (Z.land (128 + x) 0x3f =? x) = true) as [-> Hl]%andb_true_iff.
  { by apply (below_forallb (fun x => (Z.shiftr (128 + x) 6 =? 2) && (Z.land (128 + x) 0x3f =? x)) 64); [vm_compute|]. }
  apply Z.eqb_eq in Hl. unfold shift_in. rewrite Hl, Z.shiftl_mul_pow2 by lia. change (2 ^ 6) with 64.
  rewrite (u32_small (v * 64)), u32_small by lia. done.
Qed.

Lemma feed_lead k n hi v x : 0 <= x < hi ->
  forallb (fun x => bool_decide (feed 0 0 (k + x) = Some (if n =? 0 then [k + x] else [], (if n =? 0 then k + x else x, n))))
    (seqZ 0 hi) = true ->
  feed v 0 (k + x) = Some (if n =? 0 then [k + x] else [], (if n =? 0 then k + x else x, n)).
Proof.
  intros Hx H. change (feed v 0 (k + x)) with (feed 0 0 (k + x)).
  pose proof (below_forallb _ hi H x Hx) as E. cbv beta in E. by apply bool_decide_eq_true in E.
Qed.

Lemma feeds_encoded c l v : Unicode.encoded c l -> feeds l v 0 = Some ([c], (c, 0)).
Proof.
  destruct 1 as [Hc|x1 x0 H1 H0 ->|x2 x1 x0 H2 H1 H0 ->|x3 x2 x1 x0 H3 H2 H1 H0 ->]; cbn [feeds].
  - pose proof (feed_lead 0 0 128 v c Hc ltac:(by vm_compute)) as H. change (0 + c) with c in H. by rewrite H.
  - rewrite (feed_lead 192 1 32 v x1 H1) by by vm_compute. bind_simpl. cbn [Z.eqb fst snd].
    rewrite feed_cont by lia. done.
  - rewrite (feed_lead 224 2 16 v x2 H2) by by vm_compute. bind_simpl. cbn [Z.eqb fst snd].
    rewrite feed_cont by lia. change (2 - 1) with 1. bind_simpl. cbn [Z.eqb fst snd].
    rewrite feed_cont by lia. change (1 - 1) with 0. bind_simpl. cbn [Z.eqb fst snd app].
    by replace ((x2 * 64 + x1) * 64 + x0) with (x2 * 2 ^ 12 + (x1 * 64 + x0)) by lia.
  - rewrite (feed_lead 240 3 8 v x3 H3) by by vm_compute. bind_simpl. cbn [Z.eqb fst snd].
    rewrite feed_cont by lia. change (3 - 1) with 2. bind_simpl. cbn [Z.eqb fst snd].
    rewrite feed_cont by lia. change (2 - 1) with 1. bind_simpl. cbn [Z.eqb fst snd].
    rewrite feed_cont by lia. change (1 - 1) with 0. bind_simpl. cbn [Z.eqb fst snd app].
    by replace (((x3 * 64 + x2) * 64 + x1) * 64 + x0) with (x3 * 2 ^ 18 + (x2 * 2 ^ 12 + (x1 * 64 + x0))) by lia.
Qed.

Lemma feeds_text cps : forall v, Forall (fun c => 0 <= c <= 0x10ffff) cps ->
  feeds (concat (map Unicode.enc cps)) v 0 = Some (cps, (default v (last cps), 0)).
Proof.
  induction cps as [|c cps IH]; intros v Hc; [done|]. inversion Hc as [|? ? H1 H2]; subst. cbn [map concat].
  rewrite feeds_app, (feeds_encoded c _ v (Unicode.enc_encoded c H1)). bind_simpl. cbn [fst snd].
  rewrite IH by done. bind_simpl. cbn [fst snd app]. rewrite last_cons. by destruct (last cps).
Qed.

Lemma enc_nonzero c : 0 < c <= 0x10ffff -> Forall (fun b => b <> 0) (Unicode.enc c).
Proof.
  intros Hc. pose proof (Unicode.enc_encoded c ltac:(lia)) as HE.
  destruct HE as [?|? ? ? ? ?|? ? ? ? ? ? ?|? ? ? ? ? ? ? ? ?]; repeat constructor; lia.
Qed.

(** C16: However the encoding of a text without zero characters is cut into pieces,
    decoding the pieces in turn, each from the cut sequence left by the one before,
    yields the characters of the text, and nothing is left over at the end; each
    prefix of the pieces decodes too. *)
Theorem grammar_decode_pieces cps pieces more :
  Forall (fun c => 0 < c <= 0x10ffff) cps -> concat (pieces ++ more) = concat (map Unicode.enc cps) ->
  (exists pu, decode_pieces (pieces ++ more) no_partial = Ok (cps, pu) /\ n_remain pu = 0) /\
  (exists u w pu, decode_pieces pieces no_partial = Ok (u, pu) /\ cps = u ++ w /\ 0 <= n_remain pu).
Proof.
  intros Hc Hcat. assert (Forall (fun b => b <> 0) (concat (pieces ++ more))) as Hnz.
  { rewrite Hcat. apply Forall_concat, Forall_map. eapply Forall_impl; [exact Hc|]. apply enc_nonzero. }
  assert (feeds (concat (pieces ++ more)) 0 0 = Some (cps, (default 0 (last cps), 0))) as Hf.
  { rewrite Hcat. apply feeds_text. eapply Forall_impl; [exact Hc|]. simpl. intros; lia. }
  split.
  - eexists. split; [by apply (feeds_pieces _ no_partial)|done].
  - rewrite concat_app in Hf, Hnz. apply Forall_app in Hnz as [Hnz _]. rewrite feeds_app in Hf.
    apply bind_Some_inv in Hf as ([u [v n]] & Hu & Hf). apply bind_Some_inv in Hf as ([w st] & Hw & Hf).
    injection Hf as <- _. exists u, w, (mk_partial v n). split; [by apply (feeds_pieces _ no_partial)|]. split; [done|].
    by eapply feeds_nonneg.
Qed.

Lemma grammar_decode_pieces_witness :
  (exists pu, decode_pieces [[0xe2; 0x82]; [0xac; 0x61; 0xc3]; [0xa9]] no_partial = Ok ([0x20ac; 0x61; 0xe9], pu) /\
     n_remain pu = 0) /\
  (exists u w pu, decode_pieces [[0xe2; 0x82]; [0xac; 0x61; 0xc3]] no_partial = Ok (u, pu) /\
     [0x20ac; 0x61; 0xe9] = u ++ w /\ 0 <= n_remain pu).
Proof.
  apply (grammar_decode_pieces [0x20ac; 0x61; 0xe9] [[0xe2; 0x82]; [0xac; 0x61; 0xc3]] [[0xa9]]).
  - repeat constructor; lia.
  - by vm_compute.
Defined.

(** Within one piece the bytes after a first byte are not checked: the same bytes are
    decoded when they come in one piece and refused when they come in two. *)
Example unchecked_continuation :
  decode_utf8 [0xc3; 0x28] no_partial = Ok ([0xe8; 0], mk_partial 0xe8 0) /\
  decode_pieces [[0xc3]; [0x28]] no_partial = Ok ([], mk_partial 0 (-1)).
Proof. split; by vm_compute. Qed.
End GrammarDecode.
