(* ===== verification/GrammarParser.v ===== *)
(** The parser of grammar texts of src/src/llama-grammar.cpp: characters, names,
    numbers and tokens, sequences with their repetitions, alternatives, rules, and
    the construction of a grammar from a text.

    A position in the text is the rest of the text, without its terminating zero; the
    byte at the end reads as 0. A throw of the parser is [ParseError] with the text its
    message quotes. *)

From Stdlib Require Import Ascii.
From stdpp Require Import pretty.
From S2P Require Import Prelude Grammar.
Import Grammar.

Module GrammarParser.

(** [*pos] *)
Definition hd0 (src : list Z) : Z := match src with b :: _ => b | [] => 0 end.

Definition fail {A} (src : list Z) : R A := Error (ParseError src).

(** ** Characters, names, numbers *)

Definition is_digit_char (c : Z) : bool := (ch "0" <=? c) && (c <=? ch "9").

Definition is_word_char (c : Z) : bool :=
  ((ch "a" <=? c) && (c <=? ch "z")) || ((ch "A" <=? c) && (c <=? ch "Z")) || (c =? ch "-") || is_digit_char c.

Definition hex_digit (c : Z) : option Z :=
  if (ch "a" <=? c) && (c <=? ch "f") then Some (c - ch "a" + 10)
  else if (ch "A" <=? c) && (c <=? ch "F") then Some (c - ch "A" + 10)
  else if is_digit_char c then Some (c - ch "0")
  else None.

Fixpoint hex_loop (size : nat) (value : Z) (src start : list Z) : R (Z * list Z) :=
  match size with
  | O => Ok (value, src)
  | S size =>
      match src with
      | b :: rest =>
          match hex_digit b with
          | Some d => hex_loop size (u32 (u32 (Z.shiftl value 4) + d)) rest start
          | None => fail start
          end
      | [] => fail start
      end
  end.

Definition parse_hex (src : list Z) (size : nat) : R (Z * list Z) := hex_loop size 0 src src.

Definition is_newline (b : Z) : bool := (b =? 13) || (b =? 10).

(** [comment] holds after a [#], until the end of the line. *)
Fixpoint space_loop (src : list Z) (newline_ok comment : bool) : list Z :=
  match src with
  | [] => []
  | b :: rest =>
      if comment && negb (is_newline b) then space_loop rest newline_ok true
      else if (b =? 32) || (b =? 9) || (newline_ok && is_newline b) then space_loop rest newline_ok false
      else if b =? ch "#" then space_loop rest newline_ok true
      else src
  end.

Definition parse_space (src : list Z) (newline_ok : bool) : list Z := space_loop src newline_ok false.

(** The longest prefix of characters that satisfy a test, and the rest. *)
Fixpoint span (test : Z -> bool) (src : list Z) : list Z * list Z :=
  match src with
  | b :: rest => if test b then let r := span test rest in (b :: r.1, r.2) else ([], src)
  | [] => ([], [])
  end.

Definition parse_name (src : list Z) : R (list Z * list Z) :=
  let r := span is_word_char src in
  match r.1 with [] => fail src | _ => Ok r end.

Definition parse_int (src : list Z) : R (list Z * list Z) :=
  let r := span is_digit_char src in
  match r.1 with [] => fail src | _ => Ok r end.

(** [std::stoul] and [std::stoull] throw when the number exceeds 64 bits. *)
Definition decimal (digits : list Z) : Z := foldl (fun v b => v * 10 + (b - ch "0")) 0 digits.
Definition stoull (digits : list Z) : R Z :=
  if decimal digits <=? UINT64_MAX then Ok (decimal digits) else fail [].

Definition parse_char (src : list Z) : R (Z * list Z) :=
  match src with
  | [] => fail []
  | b :: rest =>
      if b =? 92 then
        let rest2 := tail rest in
        let c := hd0 rest in
        if c =? ch "x" then parse_hex rest2 2
        else if c =? ch "u" then parse_hex rest2 4
        else if c =? ch "U" then parse_hex rest2 8
        else if c =? ch "t" then Ok (9, rest2)
        else if c =? ch "r" then Ok (13, rest2)
        else if c =? ch "n" then Ok (10, rest2)
        else if (c =? 92) || (c =? 34) || (c =? ch "[") || (c =? ch "]") then Ok (c, rest2)
        else fail src
      else Ok (decode_utf8_char src)
  end.

Definition expect (b : Z) (src : list Z) : R (list Z) :=
  if hd0 src =? b then Ok (tail src) else fail src.

(** [tokenize] is what the code uses of the vocabulary, if there is one. *)
Definition parse_token (tokenize : option (list Z -> list Z)) (src : list Z) : R (Z * list Z) :=
  pos ← expect (ch "<") src;
  if hd0 pos =? ch "[" then
    n ← parse_int (tail pos);
    token_id ← stoull n.1;
    pos ← expect (ch "]") n.2;
    pos ← expect (ch ">") pos;
    Ok (u32 token_id, pos)
  else
    tokenize ← match tokenize with Some t => Ok t | None => fail src end;
    let r := span (fun b => negb (b =? ch ">")) pos in
    pos ← expect (ch ">") r.2;
    match tokenize (ch "<" :: r.1 ++ [ch ">"]) with
    | [t] => Ok (u32 t, pos)
    | _ => fail []
    end.

(** ** The state of the parser *)

Record llama_grammar_parser := mk_parser {
  symbol_ids : gmap (list Z) Z;
  p_rules : llama_grammar_rules;
}.

Definition next_id (st : llama_grammar_parser) : Z := u32 (Z.of_nat (base.size (symbol_ids st))).

Definition get_symbol_id (st : llama_grammar_parser) (name : list Z) : Z * llama_grammar_parser :=
  match symbol_ids st !! name with
  | Some v => (v, st)
  | None => (next_id st, mk_parser (<[name := next_id st]> (symbol_ids st)) (p_rules st))
  end.

(** [std::to_string] *)
Definition to_string (x : Z) : list Z := str (pretty x).

Definition generate_symbol_id (st : llama_grammar_parser) (base_name : list Z) : Z * llama_grammar_parser :=
  let id := next_id st in
  (id, mk_parser (<[base_name ++ [ch "_"] ++ to_string id := id]> (symbol_ids st)) (p_rules st)).

Definition add_rule (st : llama_grammar_parser) (rule_id : Z) (rule : llama_grammar_rule) : llama_grammar_parser :=
  let n := Z.to_nat rule_id in
  let rules := p_rules st in
  let rules := if (length rules <=? n)%nat then rules ++ replicate (S n - length rules) [] else rules in
  mk_parser (symbol_ids st) (<[n := rule]> rules).

(** ** Repetitions *)

Definition MAX_REPETITION_THRESHOLD : Z := 2000.

(** The rules of the optional copies, [k] of them; the identifier of the last one. *)
Fixpoint optional_rules (k : nat) (first no_max : bool) (rule_name : list Z) (prev_rule : llama_grammar_rule)
    (last_id : Z) (st : llama_grammar_parser) : Z * llama_grammar_parser :=
  match k with
  | O => (last_id, st)
  | S k =>
      let '(id, st) := generate_symbol_id st rule_name in
      let next := if negb first || no_max then [mk_elem LLAMA_GRETYPE_RULE_REF (if no_max then id else last_id)] else [] in
      let rec_rule := prev_rule ++ next ++ [mk_elem LLAMA_GRETYPE_ALT 0; mk_elem LLAMA_GRETYPE_END 0] in
      optional_rules k false no_max rule_name prev_rule id (add_rule st id rec_rule)
  end.

(** The state of [parse_sequence]: the rule so far, where its last symbol starts, and
    how many rules the symbol stands for. *)
Record sequence_state := mk_seq { s_rule : llama_grammar_rule; last_sym_start : nat; n_prev_rules : Z }.

Definition handle_repetitions (rule_name : list Z) (st : llama_grammar_parser) (q : sequence_state)
    (min_times max_times : Z) (pos : list Z) : R (sequence_state * llama_grammar_parser) :=
  let no_max := max_times =? UINT64_MAX in
  if (last_sym_start q =? length (s_rule q))%nat then fail pos else
  let prev_rule := drop (last_sym_start q) (s_rule q) in
  let total_rules :=
    if negb no_max && (0 <? max_times) then max_times else if 0 <? min_times then min_times else 1 in
  if MAX_REPETITION_THRESHOLD <=? u64 (n_prev_rules q * total_rules) then fail [] else
  let rule :=
    if min_times =? 0 then take (last_sym_start q) (s_rule q)
    else s_rule q ++ concat (replicate (Z.to_nat (min_times - 1)) prev_rule) in
  let n_opt := if no_max then 1 else u64 (max_times - min_times) in
  let '(last_rec_rule_id, st) := optional_rules (Z.to_nat n_opt) true no_max rule_name prev_rule 0 st in
  let rule := if 0 <? n_opt then rule ++ [mk_elem LLAMA_GRETYPE_RULE_REF last_rec_rule_id] else rule in
  let n := u64 (n_prev_rules q * total_rules) in
  _ ← ensure (1 <=? n) Undefined;
  Ok (mk_seq rule (last_sym_start q) n, st).

(** The numbers between braces. *)
Definition parse_braces (pos : list Z) (is_nested : bool) : R (Z * Z * list Z) :=
  if negb (is_digit_char (hd0 pos)) then fail pos else
  n ← parse_int pos;
  min_times ← stoull n.1;
  let pos := parse_space n.2 is_nested in
  m ← (if hd0 pos =? ch "}" then Ok (min_times, parse_space (tail pos) is_nested)
       else if hd0 pos =? ch "," then
         let pos := parse_space (tail pos) is_nested in
         m ← (if is_digit_char (hd0 pos) then
                n ← parse_int pos; max ← stoull n.1; Ok (max, parse_space n.2 is_nested)
              else Ok (UINT64_MAX, pos));
         if hd0 m.2 =? ch "}" then Ok (m.1, parse_space (tail m.2) is_nested) else fail m.2
       else fail pos);
  let '(max_times, pos) := m in
  if MAX_REPETITION_THRESHOLD <? min_times then fail [] else
  let max_times :=
    if negb (max_times =? UINT64_MAX) && (MAX_REPETITION_THRESHOLD <? max_times) then UINT64_MAX else max_times in
  Ok (min_times, max_times, pos).

(** ** Symbols *)

(** The characters of a string literal, up to its closing quote. *)
Fixpoint literal_loop (fuel : nat) (pos : list Z) (rule : llama_grammar_rule) : R (llama_grammar_rule * list Z) :=
  match pos with
  | [] => fail []
  | b :: rest =>
      if b =? 34 then Ok (rule, rest) else
      match fuel with
      | O => Error OutOfFuel
      | S fuel => c ← parse_char pos; literal_loop fuel c.2 (rule ++ [mk_elem LLAMA_GRETYPE_CHAR c.1])
      end
  end.

(** The ranges of a character class, up to its closing bracket. *)
Fixpoint class_loop (fuel : nat) (start_type : llama_gretype) (pos : list Z) (sym : llama_grammar_rule)
    : R (llama_grammar_rule * list Z) :=
  match pos with
  | [] => fail []
  | b :: rest =>
      if b =? ch "]" then Ok (sym, rest) else
      match fuel with
      | O => Error OutOfFuel
      | S fuel =>
          c ← parse_char pos;
          let '(v, pos) := c in
          let type := match sym with [] => start_type | _ => LLAMA_GRETYPE_CHAR_ALT end in
          let sym := sym ++ [mk_elem type v] in
          if (hd0 pos =? ch "-") && negb (hd0 (tail pos) =? ch "]") then
            if bool_decide (tail pos = []) then fail [] else
            e ← parse_char (tail pos);
            class_loop fuel start_type e.2 (sym ++ [mk_elem LLAMA_GRETYPE_CHAR_RNG_UPPER e.1])
          else class_loop fuel start_type pos sym
      end
  end.

Section Vocab.
Variable tokenize : option (list Z -> list Z).

Definition push_symbol (q : sequence_state) (sym : llama_grammar_rule) : sequence_state :=
  mk_seq (s_rule q ++ sym) (length (s_rule q)) 1.

(** The loop of [parse_sequence], and the loop of [parse_alternates] over its
    sequences. *)
Fixpoint sequence_loop (fuel : nat) (rule_name : list Z) (is_nested : bool) (st : llama_grammar_parser)
    (q : sequence_state) (pos : list Z) {struct fuel} : R (llama_grammar_rule * llama_grammar_parser * list Z) :=
  match pos with
  | [] => Ok (s_rule q, st, pos)
  | b :: rest =>
      match fuel with
      | O => Error OutOfFuel
      | S fuel =>
          let continue := sequence_loop fuel rule_name is_nested in
          let repeat min_times max_times pos :=
            r ← handle_repetitions rule_name st q min_times max_times pos;
            continue r.2 r.1 pos in
          if b =? 34 then
            s ← literal_loop (length rest) rest [];
            continue st (push_symbol q s.1) (parse_space s.2 is_nested)
          else if b =? ch "[" then
            let '(start_type, rest) :=
              if hd0 rest =? ch "^" then (LLAMA_GRETYPE_CHAR_NOT, tail rest) else (LLAMA_GRETYPE_CHAR, rest) in
            s ← class_loop (length rest) start_type rest [];
            continue st (push_symbol q s.1) (parse_space s.2 is_nested)
          else if (b =? ch "<") || (b =? ch "!") then
            let '(type, pos) := if b =? ch "!" then (LLAMA_GRETYPE_TOKEN_NOT, rest) else (LLAMA_GRETYPE_TOKEN, pos) in
            t ← parse_token tokenize pos;
            continue st (push_symbol q [mk_elem type t.1]) (parse_space t.2 is_nested)
          else if is_word_char b then
            n ← parse_name pos;
            let '(ref_rule_id, st) := get_symbol_id st n.1 in
            continue st (push_symbol q [mk_elem LLAMA_GRETYPE_RULE_REF ref_rule_id]) (parse_space n.2 is_nested)
          else if b =? ch "(" then
            let n_rules_before := next_id st in
            let '(sub_rule_id, st) := generate_symbol_id st rule_name in
            a ← alternates_loop fuel rule_name true st [] (parse_space rest true);
            let '(sub_rule, st, pos) := a in
            let st := add_rule st sub_rule_id (sub_rule ++ [mk_elem LLAMA_GRETYPE_END 0]) in
            let q := mk_seq (s_rule q ++ [mk_elem LLAMA_GRETYPE_RULE_REF sub_rule_id]) (length (s_rule q))
              (Z.max 1 (u32 (next_id st - n_rules_before))) in
            pos ← expect (ch ")") pos;
            continue st q (parse_space pos is_nested)
          else if b =? ch "." then
            continue st (push_symbol q [mk_elem LLAMA_GRETYPE_CHAR_ANY 0]) (parse_space rest is_nested)
          else if b =? ch "*" then repeat 0 UINT64_MAX (parse_space rest is_nested)
          else if b =? ch "+" then repeat 1 UINT64_MAX (parse_space rest is_nested)
          else if b =? ch "?" then repeat 0 1 (parse_space rest is_nested)
          else if b =? ch "{" then
            m ← parse_braces (parse_space rest is_nested) is_nested;
            let '(min_times, max_times, pos) := m in
            repeat min_times max_times pos
          else Ok (s_rule q, st, pos)
      end
  end
with alternates_loop (fuel : nat) (rule_name : list Z) (is_nested : bool) (st : llama_grammar_parser)
    (rule : llama_grammar_rule) (pos : list Z) {struct fuel} : R (llama_grammar_rule * llama_grammar_parser * list Z) :=
  match fuel with
  | O => Error OutOfFuel
  | S fuel =>
      s ← sequence_loop fuel rule_name is_nested st (mk_seq rule (length rule) 1) pos;
      let '(rule, st, pos) := s in
      if hd0 pos =? ch "|" then
        alternates_loop fuel rule_name is_nested st (rule ++ [mk_elem LLAMA_GRETYPE_ALT 0]) (parse_space (tail pos) true)
      else Ok (rule, st, pos)
  end.

Definition parse_alternates (fuel : nat) (src rule_name : list Z) (rule_id : Z) (is_nested : bool)
    (st : llama_grammar_parser) : R (llama_grammar_parser * list Z) :=
  a ← alternates_loop fuel rule_name is_nested st [] src;
  let '(rule, st, pos) := a in
  Ok (add_rule st rule_id (rule ++ [mk_elem LLAMA_GRETYPE_END 0]), pos).

Definition parse_rule (fuel : nat) (src : list Z) (st : llama_grammar_parser) : R (llama_grammar_parser * list Z) :=
  n ← parse_name src;
  let '(name, rest) := n in
  let pos := parse_space rest false in
  let '(rule_id, st) := get_symbol_id st name in
  if negb (bool_decide (take 3 pos = [ch ":"; ch ":"; ch "="])) then fail pos else
  a ← parse_alternates fuel (parse_space (drop 3 pos) true) name rule_id false st;
  let '(st, pos) := a in
  pos ← match pos with
    | [] => Ok []
    | b :: rest =>
        if b =? 13 then Ok (if hd0 rest =? 10 then tail rest else rest)
        else if b =? 10 then Ok rest
        else fail pos
    end;
  Ok (st, parse_space pos true).

Fixpoint rules_loop (fuel : nat) (pos : list Z) (st : llama_grammar_parser) : R llama_grammar_parser :=
  match pos with
  | [] => Ok st
  | _ =>
      match fuel with
      | O => Error OutOfFuel
      | S fuel =>
          r ← parse_rule (2 * length pos + 2) pos st;
          rules_loop fuel r.2 r.1
      end
  end.

(** The check that the rules referred to are defined: a missing rule is an error
    when a symbol stands for it. *)
Definition check_defined (st : llama_grammar_parser) : R unit :=
  foldM (fun _ rule =>
    _ ← ensure (negb (bool_decide (rule = []))) (ParseError []);
    foldM (fun _ e =>
      let missing := match p_rules st !! Z.to_nat (value e) with Some (_ :: _) => false | _ => true end in
      ensure (negb (bool_decide (type e = LLAMA_GRETYPE_RULE_REF) && missing &&
        existsb (fun kv => kv.2 =? value e) (map_to_list (symbol_ids st)))) (ParseError [])) tt rule)
    tt (p_rules st).

Definition parse_body (src : list Z) : R llama_grammar_parser :=
  let pos := parse_space src true in
  st ← rules_loop (length pos) pos (mk_parser ∅ []);
  _ ← check_defined st;
  Ok st.

(** [None]: the parser has printed an error, cleared the rules and returned false. *)
Definition parse (src : list Z) : R (option llama_grammar_parser) :=
  match parse_body (c_str src) with
  | Ok st => Ok (Some st)
  | Error (ParseError _) => Ok None
  | Error e => Error e
  end.

(** [c_rules]: a pointer to the first element of each rule. *)
Definition c_rules (st : llama_grammar_parser) : llama_grammar_stack :=
  imap (fun i _ => (i, 0%nat)) (p_rules st).

(** [llama_grammar_init_impl] from a text; [fuel] bounds the expansions. *)
Definition llama_grammar_init_impl (fuel : nat) (grammar_str grammar_root : list Z) (is_lazy : bool)
    (patterns : list llama_grammar_trigger_pattern) (tokens : list Z) : R (option llama_grammar) :=
  p ← parse grammar_str;
  match p with
  | None => Ok None
  | Some st =>
      if bool_decide (p_rules st = []) then Ok None else
      match symbol_ids st !! grammar_root with
      | None => Ok None
      | Some start =>
          vec_rules ← mapM copy_rule (p_rules st);
          start_grammar fuel vec_rules (Z.to_nat start) is_lazy tokens patterns
      end
  end.
End Vocab.
End GrammarParser.
