(* ===== verification/GrammarParserWf.v ===== *)
(** What the grammar parser guarantees: it returns on every text, failing only by its
    own errors, and the rules of a grammar it accepts are well-formed. *)

From Stdlib Require Import Ascii String.
From stdpp Require Import pretty.
From S2P Require Import Prelude Grammar GrammarWf GrammarParser.
Import Grammar GrammarWf GrammarParser.

Module GrammarParserWf.

(** [parses P r]: [r] fails with an error of the parser or returns a value in [P]. *)
Definition parses {A} (P : A -> Prop) (r : R A) : Prop :=
  match r with Ok a => P a | Error (ParseError _) => True | Error _ => False end.

Lemma parses_fail {A} (P : A -> Prop) s : parses P (fail s).
Proof. done. Qed.

Lemma parses_bind {A B} (P : A -> Prop) (Q : B -> Prop) (r : R A) (k : A -> R B) :
  parses P r -> (forall a, r = Ok a -> P a -> parses Q (k a)) -> parses Q (a ← r; k a).
Proof. intros Hr Hk. destruct r as [a|[]]; bind_simpl; try done. by apply Hk. Qed.

Lemma parses_impl {A} (P Q : A -> Prop) (r : R A) : parses P r -> (forall a, r = Ok a -> P a -> Q a) -> parses Q r.
Proof. intros Hr HQ. destruct r as [a|[]]; cbn in *; auto. Qed.

(** ** Positions only move forward *)

Definition within (src : list Z) (pos : list Z) : Prop := (length pos <= length src)%nat.
Definition past (src : list Z) (pos : list Z) : Prop := (length pos < length src)%nat.

Lemma space_loop_within src newline_ok comment : within src (space_loop src newline_ok comment).
Proof.
  unfold within. revert comment. induction src as [|b src IH]; intros comment; cbn [space_loop]; [done|].
  pose proof (IH true) as H1. pose proof (IH false) as H0. repeat case_match; cbn [length]; lia.
Qed.

Lemma parse_space_within src newline_ok : within src (parse_space src newline_ok).
Proof. apply space_loop_within. Qed.

Lemma span_length test src : (length (span test src).1 + length (span test src).2 = length src)%nat.
Proof. induction src as [|b src IH]; cbn [span]; [done|]. destruct (test b); cbn [fst snd length]; lia. Qed.

Lemma span_all test src : Forall (fun b => test b = true) (span test src).1.
Proof. induction src as [|b src IH]; cbn [span]; [constructor|]. destruct (test b) eqn:E; cbn [fst]; by constructor. Qed.

Lemma parse_name_parses src :
  parses (fun n => past src n.2 /\ n.1 <> [] /\ Forall (fun b => is_word_char b = true) n.1) (parse_name src).
Proof.
  unfold parse_name. pose proof (span_length is_word_char src) as Hl. pose proof (span_all is_word_char src) as Ha.
  destruct (span is_word_char src) as [[|b n] r]; cbn [fst snd] in *; [done|]. cbn. unfold past. cbn [length] in Hl.
  split; [simpl; lia|done].
Qed.

Lemma parse_int_parses src :
  parses (fun n => past src n.2 /\ Forall (fun b => is_digit_char b = true) n.1) (parse_int src).
Proof.
  unfold parse_int. pose proof (span_length is_digit_char src) as Hl. pose proof (span_all is_digit_char src) as Ha.
  destruct (span is_digit_char src) as [[|b n] r]; cbn [fst snd] in *; [done|]. cbn. unfold past. cbn [length] in Hl.
  split; [simpl; lia|done].
Qed.

Lemma decimal_nonneg n : Forall (fun b => is_digit_char b = true) n -> 0 <= decimal n.
Proof.
  intros Hn. unfold decimal. enough (forall v, 0 <= v -> 0 <= foldl (fun v b => v * 10 + (b - ch "0")) v n) as H by by apply H.
  induction Hn as [|b n Hb _ IH]; intros v Hv; cbn [foldl]; [done|]. apply IH.
  unfold is_digit_char in Hb. change (ch "0") with 48 in *. change (ch "9") with 57 in *. lia.
Qed.

Lemma stoull_parses n : Forall (fun b => is_digit_char b = true) n ->
  parses (fun v => 0 <= v <= UINT64_MAX) (stoull n).
Proof.
  intros Hn%decimal_nonneg. unfold stoull. destruct (Z.leb_spec (decimal n) UINT64_MAX); [by split | done].
Qed.

Lemma hex_loop_parses size v src start : parses (fun r => within src r.2) (hex_loop size v src start).
Proof.
  revert v src. induction size as [|size IH]; intros v src; cbn [hex_loop]; [cbn; unfold within; lia|].
  destruct src as [|b src]; [done|]. destruct (hex_digit b); [|done]. eapply parses_impl; [apply IH|].
  unfold within. cbn. intros; lia.
Qed.

Lemma decode_more_within n v src : within src (decode_more n v src).2.
Proof.
  unfold within. revert v src. induction n as [|n IH]; intros v [|b src]; cbn [decode_more]; try done.
  destruct (b =? 0); cbn [snd length]; [lia|]. specialize (IH (shift_in v b) src). lia.
Qed.

Lemma tail_within (src : list Z) : within src (tail src).
Proof. unfold within. destruct src; cbn; lia. Qed.

Lemma parse_char_parses src : parses (fun c => past src c.2) (parse_char src).
Proof.
  unfold parse_char. destruct src as [|b rest]; [done|]. pose proof (tail_within rest) as Ht. unfold within in Ht.
  assert (forall n, parses (fun c => past (b :: rest) c.2) (parse_hex (tail rest) n)) as Hhex.
  { intros n. eapply parses_impl; [apply hex_loop_parses|]. unfold within, past. cbn. intros; lia. }
  assert (forall v : Z, parses (fun c : Z * list Z => past (b :: rest) c.2) (Ok (v, tail rest))) as Hok.
  { intros v. cbn. unfold past. cbn. lia. }
  cbv zeta. repeat case_match; auto; try done. cbn [decode_utf8_char]. cbv zeta. cbn.
  unfold past. pose proof (decode_more_within (Z.to_nat (default 0 (utf8_len !! Z.to_nat (Z.shiftr b 4)) - 1))
    (Z.land b (Z.land (Z.shiftl 1 (8 - default 0 (utf8_len !! Z.to_nat (Z.shiftr b 4))) - 1) 255)) rest) as Hd.
  unfold within in Hd. cbn [length]. lia.
Qed.

Lemma expect_parses b src : b <> 0 -> parses (fun pos => past src pos) (expect b src).
Proof.
  intros Hb. unfold expect. destruct src as [|x src]; cbn [hd0 tail].
  - apply Z.neq_sym, Z.eqb_neq in Hb. by rewrite Hb.
  - destruct (x =? b); [|done]. cbn. unfold past. cbn. lia.
Qed.

Lemma parse_token_parses tokenize src : parses (fun t => past src t.2) (parse_token tokenize src).
Proof.
  unfold parse_token. apply (parses_bind (fun pos => past src pos)); [by apply expect_parses|]. intros pos _ Hpos.
  unfold past in *. destruct (hd0 pos =? ch "[").
  - eapply parses_bind; [apply parse_int_parses|]. intros n _ [Hn Hd]. eapply parses_bind; [by apply stoull_parses|].
    intros v _ _. eapply parses_bind; [by apply expect_parses|]. intros p1 _ H1.
    eapply parses_bind; [by apply expect_parses|]. intros p2 _ H2. cbn. pose proof (tail_within pos).
    unfold past, within in *. lia.
  - eapply (parses_bind (fun _ => True)); [by destruct tokenize|]. intros tk _ _. cbv zeta.
    eapply parses_bind; [by apply expect_parses|]. intros p1 _ H1.
    pose proof (span_length (fun b => negb (b =? ch ">")) pos) as Hs.
    destruct (tk _) as [|t [|]]; cbn; try done. unfold past in *. lia.
Qed.

Lemma parse_braces_parses pos is_nested :
  parses (fun m => within pos m.2 /\ 0 <= m.1.1 <= MAX_REPETITION_THRESHOLD /\
    (m.1.2 = UINT64_MAX \/ 0 <= m.1.2 <= MAX_REPETITION_THRESHOLD)) (parse_braces pos is_nested).
Proof.
  unfold parse_braces. destruct (negb _); [done|]. eapply parses_bind; [apply parse_int_parses|]. intros n _ [Hn Hd].
  eapply parses_bind; [by apply stoull_parses|]. intros min _ Hmin. cbv zeta.
  set (p1 := parse_space n.2 is_nested). assert (past pos p1) as H1.
  { unfold past in *. pose proof (parse_space_within n.2 is_nested). unfold within in *. subst p1. lia. }
  apply (parses_bind (fun m => past pos m.2 /\ 0 <= m.1 <= UINT64_MAX)).
  { assert (forall q, within p1 q -> past pos (parse_space (tail q) is_nested)) as Hq.
    { intros q Hq. pose proof (parse_space_within (tail q) is_nested). pose proof (tail_within q). unfold past, within in *. lia. }
    destruct (hd0 p1 =? ch "}").
    { cbn. split; [by apply Hq; unfold within | done]. }
    destruct (hd0 p1 =? ch ","); [|done]. set (p2 := parse_space (tail p1) is_nested).
    assert (within p1 p2) as H2.
    { pose proof (parse_space_within (tail p1) is_nested). pose proof (tail_within p1). unfold within in *. subst p2. lia. }
    apply (parses_bind (fun m => within p1 m.2 /\ 0 <= m.1 <= UINT64_MAX)).
    - destruct (is_digit_char (hd0 p2)); [|cbn; split; [done|by vm_compute]].
      eapply parses_bind; [apply parse_int_parses|]. intros n2 _ [Hn2 Hd2].
      eapply parses_bind; [by apply stoull_parses|]. intros max _ Hmax. cbn. split; [|done].
      pose proof (parse_space_within n2.2 is_nested). unfold past, within in *. lia.
    - intros [v q] _ [Hq2 Hv]. cbn [fst snd] in *. destruct (hd0 q =? ch "}"); [|done]. cbn. split; [by apply Hq | done]. }
  intros [max p2] _ [Hp2 Hmax]. cbn [fst snd] in *. destruct (Z.ltb_spec MAX_REPETITION_THRESHOLD min); [done|].
  cbn. unfold within, past in *. split; [lia|]. split; [lia|].
  destruct (Z.eqb_spec max UINT64_MAX) as [->|Hne]; cbn [negb andb]; [by left|].
  destruct (Z.ltb_spec MAX_REPETITION_THRESHOLD max); [by left | right; lia].
Qed.

(** ** The shape of the elements of a rule under construction *)

Definition step_shape (st : shape) (e : llama_grammar_element) : option shape :=
  match type e with
  | LLAMA_GRETYPE_END => None
  | LLAMA_GRETYPE_ALT | LLAMA_GRETYPE_RULE_REF | LLAMA_GRETYPE_CHAR_ANY
  | LLAMA_GRETYPE_TOKEN | LLAMA_GRETYPE_TOKEN_NOT => Some Free
  | LLAMA_GRETYPE_CHAR | LLAMA_GRETYPE_CHAR_NOT => Some Single
  | LLAMA_GRETYPE_CHAR_RNG_UPPER => match st with Single => Some Ranged | _ => None end
  | LLAMA_GRETYPE_CHAR_ALT => match st with Free => None | _ => Some Single end
  end.

Fixpoint shape_of (st : shape) (l : list llama_grammar_element) : option shape :=
  match l with [] => Some st | e :: l => st ← step_shape st e; shape_of st l end.

(** Elements that may stand in a rule when [n] symbols are known. *)
Definition elems_ok (n : Z) (l : list llama_grammar_element) : Prop :=
  (exists st, shape_of Free l = Some st) /\
  forall e, e ∈ l -> type e = LLAMA_GRETYPE_RULE_REF -> 0 <= value e < n.

Lemma shape_of_app st l k : shape_of st (l ++ k) = (st ← shape_of st l; shape_of st k).
Proof.
  revert st. induction l as [|e l IH]; intros st; [done|]. cbn [shape_of app]. destruct (step_shape st e); [apply IH | done].
Qed.

(** A sequence that may start a rule may stand anywhere in it. *)
Lemma shape_of_any l st : shape_of Free l = Some st -> forall st0, exists st', shape_of st0 l = Some st'.
Proof.
  intros H st0. destruct l as [|e l]; [by exists st0|]. cbn [shape_of] in *.
  apply bind_Some_inv in H as (s1 & H1 & H). exists st.
  assert (step_shape st0 e = Some s1) as ->; [|done]. revert H1. unfold step_shape. by destruct (type e).
Qed.

Lemma elems_ok_nil n : elems_ok n [].
Proof. split; [by exists Free|]. intros e He. by apply not_elem_of_nil in He. Qed.

Lemma elems_ok_app n l k : elems_ok n l -> elems_ok n k -> elems_ok n (l ++ k).
Proof.
  intros [[s1 H1] R1] [[s2 H2] R2]. split.
  - rewrite shape_of_app, H1. bind_simpl. by apply (shape_of_any k s2).
  - intros e [He|He]%elem_of_app; auto.
Qed.

Lemma elems_ok_mono n m l : n <= m -> elems_ok n l -> elems_ok m l.
Proof. intros Hle [H R]. split; [done|]. intros e He Ht. specialize (R e He Ht). lia. Qed.

Lemma elems_ok_take n l i : elems_ok n l -> elems_ok n (take i l).
Proof.
  intros [[st H] R]. rewrite <- (take_drop i l), shape_of_app in H. apply bind_Some_inv in H as (s1 & H1 & _).
  split; [eauto|]. intros e He. apply R. by eapply elem_of_take'.
Qed.

Lemma elems_ok_concat n l ls : (forall k, k ∈ ls -> elems_ok n k) -> elems_ok n l -> elems_ok n (l ++ concat ls).
Proof.
  revert l. induction ls as [|k ls IH]; intros l Hk Hl; cbn [concat]; [by rewrite app_nil_r|].
  rewrite app_assoc. apply IH; [intros k' Hk'; apply Hk; by right|]. apply elems_ok_app; [done|]. apply Hk. left.
Qed.

Lemma elems_ok_one n e :
  match type e with LLAMA_GRETYPE_END | LLAMA_GRETYPE_CHAR_RNG_UPPER | LLAMA_GRETYPE_CHAR_ALT => False
  | LLAMA_GRETYPE_RULE_REF => 0 <= value e < n | _ => True end -> elems_ok n [e].
Proof.
  intros He. split.
  - cbn. unfold step_shape. destruct (type e); by eauto.
  - intros e' ->%list_elem_of_singleton Ht. by rewrite Ht in He.
Qed.

Lemma elems_ok_end n l : elems_ok (Z.of_nat n) l -> wf_elems n Free (l ++ [mk_elem LLAMA_GRETYPE_END 0]) = true.
Proof.
  intros [[st H] R]. revert st H. generalize Free at 1 2. induction l as [|e l IH]; intros s0 st H; [done|].
  assert (forall e', e' ∈ l -> type e' = LLAMA_GRETYPE_RULE_REF -> 0 <= value e' < Z.of_nat n) as R'
    by (intros e' He'; apply R; by right).
  specialize (IH R'). pose proof (R e (list_elem_of_here _ _)) as Re.
  cbn [shape_of app wf_elems] in *. apply bind_Some_inv in H as (s1 & H1 & H). apply IH in H. unfold step_shape in H1.
  destruct (type e); simplify_eq; try done; try (by destruct s0; simplify_eq).
  rewrite H. specialize (Re eq_refl). lia.
Qed.

(** ** Symbols *)

Definition count (st : llama_grammar_parser) : Z := Z.of_nat (base.size (symbol_ids st)).

Definition word (name : list Z) : Prop := Forall (fun b => is_word_char b = true) name.

(** The names the parser makes cannot be written in a text. *)
Definition name_of (name : list Z) (v : Z) : Prop :=
  word name \/ exists base, word base /\ name = base ++ [ch "_"] ++ to_string v.

Definition rule_ok (n : Z) (r : llama_grammar_rule) : Prop :=
  r = [] \/ exists l, r = l ++ [mk_elem LLAMA_GRETYPE_END 0] /\ elems_ok n l.

(** The symbols are numbered from 0, and the rules refer to them. *)
Record good (st : llama_grammar_parser) : Prop := {
  good_values : forall name v, symbol_ids st !! name = Some v -> 0 <= v < count st /\ name_of name v;
  good_names : forall v, 0 <= v < count st -> exists name, symbol_ids st !! name = Some v;
  good_rules : forall r, r ∈ p_rules st -> rule_ok (count st) r;
}.

(** As long as the symbols can be numbered with 32 bits. *)
Definition fits (st : llama_grammar_parser) : Prop := count st < 2 ^ 32.

Lemma word_no_underscore name : word name -> ch "_" ∉ name.
Proof. intros H Hin. unfold word in H. rewrite Forall_forall in H. by specialize (H _ Hin). Qed.

Lemma split_underscore b1 b2 x y : word b1 -> word b2 -> b1 ++ [ch "_"] ++ x = b2 ++ [ch "_"] ++ y -> x = y.
Proof.
  intros H1%word_no_underscore H2%word_no_underscore. revert b2 H2.
  induction b1 as [|a b1 IH]; intros [|b b2] H2 Heq; cbn [app] in Heq; [by injection Heq| | |].
  - injection Heq as Hb _. exfalso. apply H2. rewrite Hb. left.
  - injection Heq as Ha _. exfalso. apply H1. rewrite Ha. left.
  - injection Heq as _ Heq. apply (IH ltac:(set_solver) b2); [set_solver | done].
Qed.

Lemma ch_inj a b : ch a = ch b -> a = b.
Proof.
  unfold ch. intros H%N2Z.inj. rewrite <- (ascii_N_embedding a), <- (ascii_N_embedding b). by rewrite H.
Qed.

Lemma to_string_inj x y : to_string x = to_string y -> x = y.
Proof.
  unfold to_string, str. intros H. apply (inj pretty).
  rewrite <- (string_of_list_ascii_of_string (pretty x)), <- (string_of_list_ascii_of_string (pretty y)). f_equal.
  revert H. generalize (list_ascii_of_string (pretty x)) (list_ascii_of_string (pretty y)).
  intros l. induction l as [|a l IH]; intros [|b k] H; try done. injection H as Ha Hl. f_equal; [by apply ch_inj | by apply IH].
Qed.

Lemma rule_ok_mono n m r : n <= m -> rule_ok n r -> rule_ok m r.
Proof. intros Hle [->|(l & -> & Hl)]; [by left|]. right. exists l. split; [done|]. by eapply elems_ok_mono. Qed.

Lemma next_id_count st : count st < 2 ^ 32 -> next_id st = count st.
Proof. intros H. unfold next_id, count in *. apply u32_small. lia. Qed.

Lemma symbols_insert st name v : symbol_ids st !! name = None ->
  count (mk_parser (<[name := v]> (symbol_ids st)) (p_rules st)) = count st + 1.
Proof. intros H. unfold count. cbn [symbol_ids]. rewrite map_size_insert_None by done. lia. Qed.

Lemma good_insert st name : good st -> count st < 2 ^ 32 -> symbol_ids st !! name = None -> name_of name (count st) ->
  good (mk_parser (<[name := next_id st]> (symbol_ids st)) (p_rules st)).
Proof.
  intros [H1 H2 H3] Hfit Hnew Hname. rewrite next_id_count by done. split; rewrite symbols_insert by done; cbn [symbol_ids p_rules].
  - intros name' v Hv. destruct (decide (name' = name)) as [->|Hne].
    + rewrite lookup_insert_eq in Hv. injection Hv as <-. unfold count. split; [lia | done].
    + rewrite lookup_insert_ne in Hv by done. apply H1 in Hv as [Hv Hn]. split; [lia | done].
  - intros v Hv. destruct (decide (v = count st)) as [->|Hne]; [exists name; apply lookup_insert_eq|].
    destruct (H2 v) as [name' Hn]; [lia|]. exists name'. rewrite lookup_insert_ne; [done|]. intros <-. congruence.
  - intros r Hr. eapply rule_ok_mono; [|by apply H3]. lia.
Qed.

Lemma generated_fresh st base : good st -> word base -> symbol_ids st !! (base ++ [ch "_"] ++ to_string (count st)) = None.
Proof.
  intros [H1 _ _] Hb. destruct (symbol_ids st !! _) as [v|] eqn:E; [|done]. exfalso.
  apply H1 in E as [Hv [Hw|(base' & Hb' & Heq)]].
  - apply word_no_underscore in Hw. apply Hw. set_solver.
  - apply split_underscore in Heq; [|done..]. apply to_string_inj in Heq. lia.
Qed.

(** What a step keeps: more symbols, numbered if they fit, and rules in order. *)
Definition grows (st st' : llama_grammar_parser) : Prop := count st <= count st'.

Lemma get_symbol_id_ok st name : word name ->
  let '(v, st') := get_symbol_id st name in
  grows st st' /\ (fits st' -> good st -> good st' /\ 0 <= v < count st').
Proof.
  intros Hw. unfold get_symbol_id. destruct (symbol_ids st !! name) as [v|] eqn:E.
  - split; [unfold grows; lia|]. intros _ [H1 H2 H3]. split; [done|]. by apply H1 in E as [? _].
  - unfold grows, fits. rewrite symbols_insert by done. split; [lia|]. intros Hfit Hg.
    split; [apply good_insert; try done; [lia | by left]|]. rewrite next_id_count by lia. unfold count. lia.
Qed.

Lemma generate_grows st base : grows st (generate_symbol_id st base).2.
Proof.
  unfold generate_symbol_id, grows, count. cbn [snd symbol_ids].
  destruct (symbol_ids st !! (base ++ [ch "_"] ++ to_string (next_id st))) as [v|] eqn:E.
  - rewrite map_size_insert_Some by (by exists v). lia.
  - rewrite map_size_insert_None by done. lia.
Qed.

Lemma generate_ok st base : word base ->
  let '(v, st') := generate_symbol_id st base in
  grows st st' /\ (count st < 2 ^ 32 -> good st -> good st' /\ count st' = count st + 1 /\ v = count st).
Proof.
  intros Hw. pose proof (generate_grows st base) as Hg. unfold generate_symbol_id in *. cbn [snd] in Hg. split; [done|].
  intros Hfit Hgood. rewrite (next_id_count st Hfit).
  pose proof (generated_fresh st base Hgood Hw) as Hnew.
  split; [|split; [by apply symbols_insert|done]].
  pose proof (good_insert st _ Hgood Hfit Hnew) as H. rewrite (next_id_count st Hfit) in H. apply H.
  right. by exists base.
Qed.

Lemma count_add_rule st id r : count (add_rule st id r) = count st.
Proof. done. Qed.

Lemma add_rule_good st id r : good st -> rule_ok (count st) r -> good (add_rule st id r).
Proof.
  intros [H1 H2 H3] Hr. split; [done|done|]. rewrite count_add_rule. intros x Hx. unfold add_rule in Hx. cbn [p_rules] in Hx.
  apply list_elem_of_lookup_1 in Hx as [i Hi]. apply list_lookup_insert_Some in Hi as [(_ & <- & _)|[_ Hi]]; [done|].
  apply list_elem_of_lookup_2 in Hi. destruct (_ <=? _)%nat; [|by apply H3].
  apply elem_of_app in Hi as [Hi|Hi]; [by apply H3|]. left. by apply elem_of_replicate_inv in Hi.
Qed.

Lemma ref_ok n v : 0 <= v < n -> elems_ok n [mk_elem LLAMA_GRETYPE_RULE_REF v].
Proof. intros H. by apply elems_ok_one. Qed.

Lemma optional_rules_ok no_max rule_name prev : word rule_name -> forall k first last_id st,
  let '(id, st') := optional_rules k first no_max rule_name prev last_id st in
  grows st st' /\ (fits st' -> good st -> elems_ok (count st) prev -> (first = false -> 0 <= last_id < count st) ->
    good st' /\ (k <> 0%nat \/ first = false -> 0 <= id < count st')).
Proof.
  intros Hw. induction k as [|k IH]; intros first last_id st; cbn [optional_rules].
  { split; [unfold grows; lia|]. intros _ Hg _ Hl. split; [done|]. intros [?|?]; [done | auto]. }
  pose proof (generate_ok st rule_name Hw) as Hgen. destruct (generate_symbol_id st rule_name) as [id st1].
  destruct Hgen as [Hg1 Hgen].
  set (next := if negb first || no_max then _ else []). set (rec_rule := prev ++ next ++ _).
  specialize (IH false id (add_rule st1 id rec_rule)). destruct (optional_rules k false _ _ _ _ _) as [id' st'].
  destruct IH as [Hg IH]. unfold grows in *. rewrite count_add_rule in *. split; [lia|].
  intros Hfit Hgood Hprev Hlast.
  destruct (Hgen ltac:(unfold fits in *; lia) Hgood) as (Hgood1 & Hc1 & ->). destruct IH as [Hgood' Hid]; [done| | | |].
  - apply add_rule_good; [done|]. right. exists (prev ++ next ++ [mk_elem LLAMA_GRETYPE_ALT 0]).
    split; [unfold rec_rule; by rewrite <- !app_assoc|].
    apply elems_ok_app; [eapply elems_ok_mono; [|done]; lia|]. apply elems_ok_app; [|by apply elems_ok_one].
    unfold next. destruct first, no_max; cbn [negb orb]; try apply elems_ok_nil; apply ref_ok; unfold count in *; try lia.
  - eapply elems_ok_mono; [|done]. lia.
  - intros _. unfold count in *. lia.
  - split; [done|]. intros _. apply Hid. by right.
Qed.

(** ** Sequences *)

Definition seq_ok (n : Z) (q : sequence_state) : Prop :=
  elems_ok n (s_rule q) /\ elems_ok n (drop (last_sym_start q) (s_rule q)) /\
  (last_sym_start q <= length (s_rule q))%nat.

Definition counted (q : sequence_state) : Prop := 1 <= n_prev_rules q < 2 ^ 32.

Definition state_ok (st : llama_grammar_parser) (n_ok : Z -> Prop) : Prop := fits st -> good st /\ n_ok (count st).

Lemma push_symbol_ok n q sym : seq_ok n q -> elems_ok n sym -> seq_ok n (push_symbol q sym).
Proof.
  intros (H1 & H2 & H3) Hs. split_and!; cbn [s_rule push_symbol last_sym_start]; [by apply elems_ok_app| |rewrite length_app; lia].
  by rewrite drop_app_length.
Qed.

Lemma seq_ok_mono n m q : n <= m -> seq_ok n q -> seq_ok m q.
Proof. intros Hle (H1 & H2 & H3). split_and!; [by eapply elems_ok_mono..|done]. Qed.

Lemma handle_repetitions_parses rule_name st q min_times max_times pos : word rule_name -> counted q ->
  0 <= min_times <= MAX_REPETITION_THRESHOLD ->
  (max_times = UINT64_MAX \/ 0 <= max_times <= MAX_REPETITION_THRESHOLD) ->
  parses (fun r => grows st r.2 /\ counted r.1 /\
    (fits r.2 -> good st -> seq_ok (count st) q -> good r.2 /\ seq_ok (count r.2) r.1))
    (handle_repetitions rule_name st q min_times max_times pos).
Proof.
  intros Hw Hq Hmin Hmax. unfold handle_repetitions. cbv zeta.
  destruct (Nat.eqb_spec (last_sym_start q) (length (s_rule q))) as [|Hne]; [done|].
  set (no_max := max_times =? UINT64_MAX). set (prev := drop (last_sym_start q) (s_rule q)).
  set (total := if negb no_max && (0 <? max_times) then max_times else if 0 <? min_times then min_times else 1).
  assert (1 <= total <= MAX_REPETITION_THRESHOLD) as Htot.
  { unfold total, no_max, MAX_REPETITION_THRESHOLD in *. destruct (Z.eqb_spec max_times UINT64_MAX); cbn [negb andb];
      repeat case_match; lia. }
  assert (u64 (n_prev_rules q * total) = n_prev_rules q * total) as ->.
  { apply u64_small. unfold counted, MAX_REPETITION_THRESHOLD in *. nia. }
  destruct (Z.leb_spec MAX_REPETITION_THRESHOLD (n_prev_rules q * total)) as [|Hlt]; [done|].
  set (n_opt := if no_max then 1 else u64 (max_times - min_times)).
  pose proof (optional_rules_ok no_max rule_name prev Hw (Z.to_nat n_opt) true 0 st) as Hopt.
  destruct (optional_rules _ _ _ _ _ _ _) as [id st']. destruct Hopt as [Hg Hopt].
  replace (1 <=? n_prev_rules q * total) with true by (unfold counted in Hq; nia). bind_simpl. cbn [fst snd].
  split; [done|]. split; [unfold counted, MAX_REPETITION_THRESHOLD in *; cbn; nia|].
  intros Hfit Hgood (Hrule & Hprev & Hle). destruct (Hopt Hfit Hgood Hprev ltac:(done)) as [Hgood' Hid]. split; [done|].
  pose proof (elems_ok_mono _ _ _ Hg Hrule) as Hrule'. pose proof (elems_ok_mono _ _ _ Hg Hprev) as Hprev'. fold prev in Hprev'.
  set (copies := concat (replicate (Z.to_nat (min_times - 1)) prev)).
  set (rest := if 0 <? n_opt then [mk_elem LLAMA_GRETYPE_RULE_REF id] else []).
  assert (elems_ok (count st') rest) as Hrest.
  { unfold rest. destruct (Z.ltb_spec 0 n_opt); [|apply elems_ok_nil]. apply ref_ok, Hid. left. lia. }
  assert (forall l, (if 0 <? n_opt then l ++ [mk_elem LLAMA_GRETYPE_RULE_REF id] else l) = l ++ rest) as Hif.
  { intros l. unfold rest. destruct (0 <? n_opt); [done | by rewrite app_nil_r]. }
  rewrite Hif. assert (elems_ok (count st') (prev ++ copies)) as Hcopies.
  { apply elems_ok_concat; [|done]. intros k ->%elem_of_replicate_inv. done. }
  unfold seq_ok. cbn [fst snd s_rule last_sym_start]. destruct (min_times =? 0).
  - split_and!.
    + apply elems_ok_app; [by apply elems_ok_take | done].
    + by rewrite drop_app_ge, length_take, Nat.min_l, Nat.sub_diag, drop_0 by (rewrite ?length_take; lia).
    + rewrite length_app, length_take. lia.
  - split_and!.
    + rewrite <- app_assoc. apply elems_ok_app; [done|]. apply elems_ok_app; [|done].
      rewrite <- (app_nil_l copies). apply elems_ok_concat; [|apply elems_ok_nil]. by intros k ->%elem_of_replicate_inv.
    + rewrite <- app_assoc, drop_app_le, app_assoc by lia. by apply elems_ok_app.
    + rewrite !length_app. lia.
Qed.

(** ** Symbols of a sequence *)

Lemma literal_loop_parses fuel : forall pos rule, (length pos <= fuel)%nat ->
  parses (fun r => past pos r.2 /\ (forall n, elems_ok n rule -> elems_ok n r.1)) (literal_loop fuel pos rule).
Proof.
  induction fuel as [|fuel IH]; intros [|b pos] rule Hl; cbn [literal_loop]; try done; [simpl in Hl; lia|].
  destruct (b =? 34); [cbn; unfold past; split; [cbn; lia | done]|].
  eapply parses_bind; [apply parse_char_parses|]. intros [v p] _ Hp. unfold past in Hp. cbn [fst snd] in *.
  simpl in Hl, Hp. eapply parses_impl; [apply IH; lia|]. intros [r p'] _ [Hp' Hr]. cbn [fst snd] in *.
  split; [unfold past in *; simpl; lia|]. intros n Hn. apply Hr, elems_ok_app; [done|]. by apply elems_ok_one.
Qed.

(** The elements of a character class. *)
Definition class_sym (sym : llama_grammar_rule) : Prop :=
  (sym = [] \/ exists st, st <> Free /\ shape_of Free sym = Some st) /\
  forall e, e ∈ sym -> type e <> LLAMA_GRETYPE_RULE_REF.

Lemma class_sym_ok n sym : class_sym sym -> elems_ok n sym.
Proof.
  intros [H Hr]. split; [destruct H as [->|(st & _ & H)]; [by exists Free | eauto]|]. intros e He Ht. by destruct (Hr e He).
Qed.

Lemma class_sym_char sym t v : class_sym sym ->
  t = LLAMA_GRETYPE_CHAR \/ t = LLAMA_GRETYPE_CHAR_NOT ->
  let e := mk_elem (match sym with [] => t | _ => LLAMA_GRETYPE_CHAR_ALT end) v in
  class_sym (sym ++ [e]) /\ forall v', class_sym ((sym ++ [e]) ++ [mk_elem LLAMA_GRETYPE_CHAR_RNG_UPPER v']).
Proof.
  intros [H Hr] Ht e. assert (shape_of Free (sym ++ [e]) = Some Single) as Hs.
  { rewrite shape_of_app. destruct sym as [|e0 sym].
    - unfold e. cbn. by destruct Ht as [-> | ->].
    - destruct H as [H|(st & Hne & ->)]; [done|]. bind_simpl. unfold e. cbn. by destruct st. }
  assert (forall x, x ∈ sym ++ [e] -> type x <> LLAMA_GRETYPE_RULE_REF) as Hr1.
  { intros x [Hx| ->%list_elem_of_singleton]%elem_of_app; [by apply Hr|]. unfold e. destruct sym; cbn; [|done].
    by destruct Ht as [-> | ->]. }
  split; [split; [right; by exists Single | done]|]. intros v'. split.
  - right. exists Ranged. split; [done|]. by rewrite shape_of_app, Hs.
  - intros x [Hx| ->%list_elem_of_singleton]%elem_of_app; [by apply Hr1 | done].
Qed.

Lemma class_loop_parses t fuel : t = LLAMA_GRETYPE_CHAR \/ t = LLAMA_GRETYPE_CHAR_NOT ->
  forall pos sym, (length pos <= fuel)%nat -> class_sym sym ->
  parses (fun r => past pos r.2 /\ class_sym r.1) (class_loop fuel t pos sym).
Proof.
  intros Ht. induction fuel as [|fuel IH]; intros [|b pos] sym Hl Hs; cbn [class_loop]; try done; [simpl in Hl; lia|].
  destruct (b =? ch "]"); [cbn; unfold past; split; [cbn; lia | done]|].
  eapply parses_bind; [apply parse_char_parses|]. intros [v p] _ Hp. unfold past in Hp. cbn [fst snd] in *. simpl in Hl, Hp.
  destruct (class_sym_char sym t v Hs Ht) as [H1 H2]. destruct (_ && _).
  - destruct (bool_decide (tail p = [])); [done|]. eapply parses_bind; [apply parse_char_parses|].
    intros [v' p'] _ Hp'. unfold past in Hp'. cbn [fst snd] in *. pose proof (tail_within p) as Htl. unfold within in Htl.
    eapply parses_impl; [apply IH; [lia | apply H2]|]. intros r _ [Hr ?]. split; [|done]. unfold past in *. simpl. lia.
  - eapply parses_impl; [apply IH; [lia | apply H1]|]. intros r _ [Hr ?]. split; [|done]. unfold past in *. simpl. lia.
Qed.

(** ** Sequences and alternatives *)

Section Loops.
Variable tokenize : option (list Z -> list Z).

Definition sequence_spec (fuel : nat) : Prop := forall name nested st q pos,
  word name -> counted q -> (2 * length pos + 1 <= fuel)%nat ->
  parses (fun r => grows st r.1.2 /\ within pos r.2 /\
    (fits r.1.2 -> good st -> seq_ok (count st) q -> good r.1.2 /\ elems_ok (count r.1.2) r.1.1))
    (sequence_loop tokenize fuel name nested st q pos).

Definition alternates_spec (fuel : nat) : Prop := forall name nested st rule pos,
  word name -> (2 * length pos + 2 <= fuel)%nat ->
  parses (fun r => grows st r.1.2 /\ within pos r.2 /\
    (fits r.1.2 -> good st -> elems_ok (count st) rule -> good r.1.2 /\ elems_ok (count r.1.2) r.1.1))
    (alternates_loop tokenize fuel name nested st rule pos).

(** The rest of a sequence, after a step to the state [st1], [q1] and position [pos1]. *)
Lemma sequence_next fuel name nested st q pos st1 q1 pos1 :
  sequence_spec fuel -> word name -> counted q1 -> (2 * length pos <= fuel)%nat -> past pos pos1 -> grows st st1 ->
  (fits st1 -> good st -> seq_ok (count st) q -> good st1 /\ seq_ok (count st1) q1) ->
  parses (fun r => grows st r.1.2 /\ within pos r.2 /\
    (fits r.1.2 -> good st -> seq_ok (count st) q -> good r.1.2 /\ elems_ok (count r.1.2) r.1.1))
    (sequence_loop tokenize fuel name nested st1 q1 (parse_space pos1 nested)).
Proof.
  intros IH Hw Hc Hf Hp Hg Hok. pose proof (parse_space_within pos1 nested) as Hs. unfold past, within in *.
  eapply parses_impl; [apply IH; [done|done|lia]|]. intros r _ (Hg' & Hw' & Hr). unfold grows, fits, within in *.
  split; [lia|]. split; [lia|]. intros Hfit Hgood Hq. destruct (Hok ltac:(lia) Hgood Hq) as [H1 H2]. by apply Hr.
Qed.

Lemma push_counted q sym : counted (push_symbol q sym).
Proof. by split. Qed.

Lemma sequence_push fuel name nested st q pos pos1 sym :
  sequence_spec fuel -> word name -> (2 * length pos <= fuel)%nat -> past pos pos1 -> (forall n, elems_ok n sym) ->
  parses (fun r => grows st r.1.2 /\ within pos r.2 /\
    (fits r.1.2 -> good st -> seq_ok (count st) q -> good r.1.2 /\ elems_ok (count r.1.2) r.1.1))
    (sequence_loop tokenize fuel name nested st (push_symbol q sym) (parse_space pos1 nested)).
Proof.
  intros IH Hw Hf Hp Hsym. eapply sequence_next; [done|done|apply push_counted|done|done|unfold grows; lia|].
  intros _ Hg Hq. split; [done|]. by apply push_symbol_ok.
Qed.

Lemma sequence_repeat fuel name nested st q pos min max pos1 :
  sequence_spec fuel -> word name -> counted q -> (2 * length pos <= fuel)%nat -> past pos pos1 ->
  0 <= min <= MAX_REPETITION_THRESHOLD -> (max = UINT64_MAX \/ 0 <= max <= MAX_REPETITION_THRESHOLD) ->
  parses (fun r => grows st r.1.2 /\ within pos r.2 /\
    (fits r.1.2 -> good st -> seq_ok (count st) q -> good r.1.2 /\ elems_ok (count r.1.2) r.1.1))
    (r ← handle_repetitions name st q min max pos1; sequence_loop tokenize fuel name nested r.2 r.1 pos1).
Proof.
  intros IH Hw Hc Hf Hp Hmin Hmax. eapply parses_bind; [by apply handle_repetitions_parses|].
  intros [q1 st1] _ (Hg & Hc1 & Hok). cbn [fst snd] in *. unfold past in *.
  eapply parses_impl; [apply IH; [done|done|lia]|]. intros r _ (Hg' & Hw' & Hr). unfold grows, fits, within in *.
  split; [lia|]. split; [lia|]. intros Hfit Hgood Hq. destruct (Hok ltac:(lia) Hgood Hq) as [H1 H2]. by apply Hr.
Qed.

Lemma sequence_step fuel : sequence_spec fuel -> alternates_spec fuel -> sequence_spec (S fuel).
Proof.
  intros IHs IHa name nested st q pos Hw Hc Hf. cbn [sequence_loop].
  destruct pos as [|b rest].
  { cbn. unfold grows, within. split; [lia|]. split; [done|]. intros _ Hg [Hq _]. done. }
  assert (2 * length (b :: rest) <= fuel)%nat as Hf' by lia.
  assert (past (b :: rest) rest) as Hrest by (unfold past; cbn; lia).
  assert (forall p, within rest p -> past (b :: rest) p) as Hpast by (unfold past, within; cbn; intros; lia).
  assert (forall p, past rest p -> past (b :: rest) p) as Hpast' by (unfold past; cbn; intros; lia).
  destruct (b =? 34).
  { eapply parses_bind; [by apply literal_loop_parses|]. intros [sym p] _ [Hp Hs]. cbn [fst snd] in *.
    apply sequence_push; auto. intros n. apply Hs, elems_ok_nil. }
  destruct (b =? ch "[").
  { set (c := if hd0 rest =? ch "^" then _ else _).
    assert ((c.1 = LLAMA_GRETYPE_CHAR \/ c.1 = LLAMA_GRETYPE_CHAR_NOT) /\ within rest c.2) as [Ht Hc2].
    { unfold c. destruct (_ =? _); cbn; [split; [by right | apply tail_within] | split; [by left | unfold within; lia]]. }
    destruct c as [t p]. cbn [fst snd] in *.
    eapply parses_bind; [apply (class_loop_parses t (length p) Ht p []); [done|]|].
    { split; [by left|]. intros e He. by apply not_elem_of_nil in He. }
    intros [sym p'] _ [Hp' Hs]. cbn [fst snd] in *. apply sequence_push; auto.
    - unfold past, within in *. cbn. lia.
    - intros n. by apply class_sym_ok. }
  destruct ((b =? ch "<") || (b =? ch "!")).
  { set (c := if b =? ch "!" then _ else _).
    assert ((c.1 = LLAMA_GRETYPE_TOKEN \/ c.1 = LLAMA_GRETYPE_TOKEN_NOT) /\ within (b :: rest) c.2) as [Ht Hc2].
    { unfold c. destruct (_ =? _); cbn; (split; [by auto | unfold within; cbn; lia]). }
    destruct c as [t p]. cbn [fst snd] in *. eapply parses_bind; [apply parse_token_parses|]. intros [v p'] _ Hp'.
    cbn [fst snd] in *. apply sequence_push; auto.
    - unfold past, within in *. lia.
    - intros n. apply elems_ok_one. cbn. by destruct Ht as [-> | ->]. }
  destruct (is_word_char b).
  { eapply parses_bind; [apply parse_name_parses|]. intros [n p] _ (Hp & _ & Hn). cbn [fst snd] in *.
    pose proof (get_symbol_id_ok st n Hn) as Hget. destruct (get_symbol_id st n) as [v st1]. destruct Hget as [Hg Hget].
    eapply sequence_next; [done|done|apply push_counted|done|done|done|]. intros Hfit Hgood Hq.
    destruct (Hget Hfit Hgood) as [Hgood1 Hv]. split; [done|]. apply push_symbol_ok; [by eapply seq_ok_mono|]. by apply ref_ok. }
  destruct (b =? ch "(").
  { pose proof (generate_ok st name Hw) as Hgen. destruct (generate_symbol_id st name) as [id st1] eqn:Eg.
    destruct Hgen as [Hg1 Hgen].
    assert (Hw1 := parse_space_within rest true).
    eapply parses_bind; [apply (IHa name true st1 [] (parse_space rest true) Hw)|].
    { unfold within in Hw1. cbn in Hf. lia. }
    intros [[sub st2] p] _ (Hg2 & Hw2 & Hok). cbn [fst snd] in *.
    eapply parses_bind; [by apply expect_parses|]. intros p' _ Hp'.
    eapply sequence_next; [done|done| |done| | |].
    - unfold counted. cbn [n_prev_rules]. set (d := next_id _ - next_id st). pose proof (u32_range d). lia.
    - unfold past, within in *. cbn. lia.
    - unfold grows in *. rewrite count_add_rule. lia.
    - unfold grows, fits in *. rewrite count_add_rule. intros Hfit Hgood Hq.
      destruct (Hgen ltac:(lia) Hgood) as (Hgood1 & Hc1 & ->).
      destruct (Hok ltac:(lia) Hgood1 (elems_ok_nil _)) as [Hgood2 Hsub]. split.
      + apply add_rule_good; [done|]. right. by exists sub.
      + apply (push_symbol_ok _ q); [eapply seq_ok_mono; [|done]; lia|]. apply ref_ok. unfold count in *. lia. }
  destruct (b =? ch "."); [apply sequence_push; auto; intros n; by apply elems_ok_one|].
  assert (past (b :: rest) (parse_space rest nested)) as Hsp by (apply Hpast, parse_space_within).
  assert (0 <= 0 <= MAX_REPETITION_THRESHOLD /\ 0 <= 1 <= MAX_REPETITION_THRESHOLD) as [H0 H1] by by vm_compute.
  destruct (b =? ch "*"); [by apply sequence_repeat; auto|].
  destruct (b =? ch "+"); [by apply sequence_repeat; auto|].
  destruct (b =? ch "?"); [by apply sequence_repeat; auto|].
  destruct (b =? ch "{").
  { eapply parses_bind; [apply parse_braces_parses|]. intros [[min max] p] _ (Hp & Hmin & Hmax). cbn [fst snd] in *.
    apply sequence_repeat; auto. unfold past, within in *. lia. }
  cbn. unfold grows, within. split; [lia|]. split; [done|]. intros _ Hg [Hq _]. done.
Qed.

Lemma alternates_step fuel : sequence_spec fuel -> alternates_spec fuel -> alternates_spec (S fuel).
Proof.
  intros IHs IHa name nested st rule pos Hw Hf. cbn [alternates_loop].
  eapply parses_bind; [apply IHs; [done|by split|lia]|]. intros [[r1 st1] p] _ (Hg & Hp & Hok). cbn [fst snd] in *.
  assert (forall n, elems_ok n rule -> seq_ok n (mk_seq rule (length rule) 1)) as Hseq.
  { intros n Hn. split_and!; cbn; [done| |done]. rewrite drop_all. apply elems_ok_nil. }
  destruct (hd0 p =? ch "|") eqn:Eb.
  - assert (past p (tail p)) as Htl. { unfold past. destruct p; [done|]. cbn. lia. }
    pose proof (parse_space_within (tail p) true) as Hs.
    eapply parses_impl; [apply IHa; [done|]|].
    { unfold past, within in *. lia. }
    intros r _ (Hg' & Hp' & Hr). unfold grows, fits, past, within in *. split; [lia|]. split; [lia|].
    intros Hfit Hgood Hrule. destruct (Hok ltac:(lia) Hgood (Hseq _ Hrule)) as [Hgood1 Hr1].
    apply Hr; [done..|]. apply elems_ok_app; [done|]. by apply elems_ok_one.
  - cbn. split; [done|]. split; [done|]. intros Hfit Hgood Hrule. apply Hok; auto.
Qed.

Lemma loops_parse fuel : sequence_spec fuel /\ alternates_spec fuel.
Proof.
  induction fuel as [|fuel [IHs IHa]]; [|split; [by apply sequence_step | by apply alternates_step]].
  split; [intros name nested st q pos _ _ Hf | intros name nested st rule pos _ Hf]; lia.
Qed.
End Loops.

(** ** Rules and grammars *)

Lemma parse_rule_parses tokenize fuel src st : (2 * length src + 2 <= fuel)%nat ->
  parses (fun r => grows st r.1 /\ past src r.2 /\ (fits r.1 -> good st -> good r.1)) (parse_rule tokenize fuel src st).
Proof.
  intros Hf. unfold parse_rule. eapply parses_bind; [apply parse_name_parses|]. intros [name rest] _ (Hp & _ & Hw).
  cbn [fst snd] in *. pose proof (parse_space_within rest false) as Hs. set (pos := parse_space rest false) in *.
  pose proof (get_symbol_id_ok st name Hw) as Hget. destruct (get_symbol_id st name) as [id st1]. destruct Hget as [Hg Hget].
  destruct (negb _); [done|]. pose proof (parse_space_within (drop 3 pos) true) as Hs2.
  assert (length (drop 3 pos) <= length pos)%nat as Hd by (rewrite length_drop; lia). unfold past, within in *.
  unfold parse_alternates. eapply parses_bind.
  - eapply parses_bind; [apply (proj2 (loops_parse tokenize fuel)); [exact Hw|lia]|].
    intros [[r st2] p] _ H. cbn [fst snd] in *.
    instantiate (1 := fun a => grows st a.1 /\ within src a.2 /\ (length a.2 < length src)%nat /\ (fits a.1 -> good st -> good a.1)).
    destruct H as (Hg2 & Hp2 & Hok). cbn. unfold grows, within, fits in *. rewrite count_add_rule.
    split; [lia|]. split; [lia|]. split; [lia|]. intros Hfit Hgood. destruct (Hget ltac:(lia) Hgood) as [Hgood1 Hid].
    destruct (Hok ltac:(lia) Hgood1 (elems_ok_nil _)) as [Hgood2 Hr]. apply add_rule_good; [done|]. right. by exists r.
  - intros [st2 p] _ (Hg2 & _ & Hp2 & Hok). cbn [fst snd] in *.
    apply (parses_bind (fun q => (length q <= length p)%nat)).
    + destruct p as [|b p]; [by cbn|]. destruct (b =? 13); [|destruct (b =? 10); [cbn; lia|done]].
      cbn. destruct (hd0 p =? 10); [|lia]. pose proof (tail_within p) as Htl. unfold within in Htl. lia.
    + intros q _ Hq. cbn. pose proof (parse_space_within q true) as Hs3. unfold within in Hs3. split; [done|].
      split; [lia|]. exact Hok.
Qed.

Lemma rules_loop_parses tokenize fuel : forall pos st, (length pos <= fuel)%nat ->
  parses (fun st' => grows st st' /\ (fits st' -> good st -> good st')) (rules_loop tokenize fuel pos st).
Proof.
  induction fuel as [|fuel IH]; intros [|b pos] st Hl; try (simpl in Hl; lia).
  1, 2: cbn; unfold grows; split; [lia|done].
  cbn [rules_loop]. eapply parses_bind; [by apply parse_rule_parses|]. intros [st1 p] _ (Hg & Hp & Hok). cbn [fst snd] in *.
  unfold past in Hp. eapply parses_impl; [apply IH; simpl in *; lia|]. intros st' _ [Hg' Hok']. unfold grows, fits in *.
  split; [lia|]. intros Hfit Hgood. apply Hok'; [done|]. apply Hok; [lia | done].
Qed.

(** A loop of checks that fails only by an error of the parser. *)
Lemma checks_parse {A} (f : A -> R unit) l : (forall a, a ∈ l -> parses (fun _ => True) (f a)) ->
  parses (fun _ => forall a, a ∈ l -> f a = Ok tt) (foldM (fun _ => f) tt l).
Proof.
  induction l as [|a l IH]; intros H; cbn [foldM]; [intros a Ha; by apply not_elem_of_nil in Ha|].
  eapply parses_bind; [apply H; left|]. intros [] Ha _. eapply parses_impl; [apply IH; intros b Hb; apply H; by right|].
  intros [] _ Hall b [->|Hb]%elem_of_cons; auto.
Qed.

Lemma ensure_parses b s : parses (fun _ => b = true) (ensure b (ParseError s) : R unit).
Proof. by destruct b. Qed.

(** [defined]: the rules are not empty, and so are the rules they refer to if a symbol
    stands for them. *)
Lemma check_defined_parses st :
  parses (fun _ => forall r, r ∈ p_rules st -> r <> [] /\ forall e, e ∈ r -> type e = LLAMA_GRETYPE_RULE_REF ->
    (exists name, symbol_ids st !! name = Some (value e)) -> exists r', p_rules st !! Z.to_nat (value e) = Some r' /\ r' <> [])
    (check_defined st).
Proof.
  unfold check_defined. eapply parses_impl.
  - apply checks_parse. intros rule _. eapply parses_bind; [apply ensure_parses|]. intros _ _ _.
    eapply parses_impl; [|by intros]. apply checks_parse. intros e _. eapply parses_impl; [apply ensure_parses|by intros].
  - intros u0 Hu0 Hall r Hr. specialize (Hall r Hr). apply bind_Ok in Hall as (u & Hne & Hall). apply ensure_Ok in Hne.
    split; [bool_prop; done|]. intros e He Ht [name Hname].
    apply foldM_checks in Hall. rewrite Forall_forall in Hall. specialize (Hall e He). apply ensure_Ok in Hall.
    apply negb_true_iff in Hall. rewrite bool_decide_eq_true_2 in Hall by done. cbn [andb] in Hall.
    apply andb_false_iff in Hall as [Hm|Hex].
    + destruct (p_rules st !! Z.to_nat (value e)) as [[|x r']|]; try done. eauto.
    + exfalso. assert (existsb (fun kv : list Z * Z => kv.2 =? value e) (map_to_list (symbol_ids st)) = true) as Htrue; [|congruence].
      apply existsb_exists. exists (name, value e). split; [|cbn; lia].
      by apply list_elem_of_In, elem_of_map_to_list.
Qed.

Lemma empty_good : good (mk_parser ∅ []).
Proof.
  split; cbn [symbol_ids p_rules].
  - intros name v H. by rewrite lookup_empty in H.
  - intros v Hv. unfold count in Hv. cbn [symbol_ids] in Hv. rewrite map_size_empty in Hv. lia.
  - intros r Hr. by apply not_elem_of_nil in Hr.
Qed.

(** What an accepted text leaves in the parser. *)
Definition accepted (st : llama_grammar_parser) : Prop :=
  wf_rules (p_rules st) = true /\
  (forall r, r ∈ p_rules st -> last r = Some (mk_elem LLAMA_GRETYPE_END 0)) /\
  forall v, 0 <= v < count st <-> exists name, symbol_ids st !! name = Some v.

Lemma good_accepted st : good st ->
  (forall r, r ∈ p_rules st -> r <> [] /\ forall e, e ∈ r -> type e = LLAMA_GRETYPE_RULE_REF ->
    (exists name, symbol_ids st !! name = Some (value e)) -> exists r', p_rules st !! Z.to_nat (value e) = Some r' /\ r' <> []) ->
  accepted st.
Proof.
  intros [H1 H2 H3] Hdef. split_and!; [| |intros v; split; [apply H2 | by intros [name [? _]%H1]]].
  2: { intros r Hr. destruct (Hdef r Hr) as [Hne _]. destruct (H3 r Hr) as [->|(l & -> & _)]; [done|]. by rewrite last_snoc. }
  unfold wf_rules. apply forallb_forall. intros r Hr%list_elem_of_In. destruct (Hdef r Hr) as [Hne Hrefs].
  destruct (H3 r Hr) as [->|(l & -> & [[s Hs] Hl])]; [done|]. apply elems_ok_end. split; [by exists s|].
  intros e He Ht. pose proof (Hl e He Ht) as Hv. destruct (Hrefs e) as (r' & Hr' & _); [by apply elem_of_app; left|done|by apply H2|].
  apply lookup_lt_Some in Hr'. lia.
Qed.

Lemma parse_parses tokenize src : parses (fun st => fits st -> accepted st) (parse_body tokenize src).
Proof.
  unfold parse_body. eapply parses_bind; [by apply rules_loop_parses|]. intros st _ [_ Hok].
  eapply parses_bind; [apply check_defined_parses|]. intros [] _ Hdef. cbn. intros Hfit.
  apply good_accepted; [|done]. by apply Hok; [|apply empty_good].
Qed.

Lemma grammar_parse_accepted tokenize src st : parse tokenize src = Ok (Some st) -> fits st -> accepted st.
Proof.
  unfold parse. pose proof (parse_parses tokenize (c_str src)) as H.
  destruct (parse_body tokenize (c_str src)) as [st'|[]]; try done. intros [= ->]. exact H.
Qed.

(** C17: The parser returns on every text: it accepts it or reports an error of its
    own, and never runs off the text or fails an assertion. The rules of an accepted
    text are well-formed (each ends with an end marker and has no other, character
    classes are complete, references are to rules that exist), and its symbols are
    numbered from 0 without gaps. *)
Theorem grammar_parse tokenize src :
  exists r, parse tokenize src = Ok r /\ forall st, r = Some st -> fits st -> accepted st.
Proof.
  pose proof (parse_parses tokenize (c_str src)) as H. unfold parse.
  destruct (parse_body tokenize (c_str src)) as [st|[]]; try done.
  - exists (Some st). split; [done|]. by intros st' [= <-].
  - by exists None.
Qed.

(** [root ::= [(] root [)] root | item{2,3}], [item ::= [a-z^-]+ | <[7]>] *)
Definition sample : list Z := str "root ::= [(] root [)] root | item{2,3}
item ::= [a-z^-]+ | <[7]> # a token".

Lemma grammar_parse_witness : exists st, parse None sample = Ok (Some st) /\ length (p_rules st) = 4%nat /\ accepted st.
Proof.
  destruct (grammar_parse None sample) as (r & Hr & Hacc).
  destruct r as [st|]; [|vm_compute in Hr; discriminate]. exists st. split; [done|].
  assert (length (p_rules st) = 4%nat /\ fits st) as [Hlen Hfit].
  { vm_compute in Hr. injection Hr as <-. split; [done|]. by vm_compute. }
  split; [done|]. by apply Hacc.
Defined.
End GrammarParserWf.
