(* ===== verification/GrammarInit.v ===== *)
(** From a grammar text to the state of the sampler: [llama_grammar_init_impl] composed
    from the parser, the check for left recursion and the initial stacks. *)

From Stdlib Require Import String.
From S2P Require Import Prelude Grammar GrammarWf GrammarLang GrammarTerm GrammarRec GrammarRun GrammarParser GrammarParserWf.
Import Grammar GrammarWf GrammarLang GrammarTerm GrammarRec GrammarRun GrammarParser GrammarParserWf.

Module GrammarInit.

Lemma copy_rule_wf n l : forall st, wf_elems n st l = true ->
  last l = Some (mk_elem LLAMA_GRETYPE_END 0) -> copy_rule l = Ok l.
Proof.
  induction l as [|e l IH]; intros st Hwf Hv; [done|]. cbn [copy_rule]. case_bool_decide as He.
  - cbn [wf_elems] in Hwf. rewrite He in Hwf. destruct l; [|done]. injection Hv as ->. done.
  - assert (exists st', wf_elems n st' l = true) as [st' Hl].
    { revert Hwf. cbn [wf_elems]. destruct (type e), st; intros Hwf; bool_prop; try done; eauto. }
    rewrite (IH st' Hl); [done|]. rewrite last_cons in Hv. destruct (last l) eqn:E; [done|].
    apply last_None in E. by subst.
Qed.

Lemma copy_rules st : accepted st -> mapM copy_rule (p_rules st) = Ok (p_rules st).
Proof.
  intros (Hwf & Hlast & _). unfold wf_rules in Hwf. rewrite forallb_forall in Hwf. apply mapM_Ok.
  apply Forall_Forall2_diag, Forall_forall. intros r Hr. eapply (copy_rule_wf _ r Free); [|by apply Hlast].
  by apply Hwf, list_elem_of_In.
Qed.

(** C18: A text the parser accepts, with a rule for the root symbol, without left
    recursion the code finds and whose possibly empty rules have an empty
    alternative, is made into a grammar: the initialisation returns, the rules are those of
    the text, and the stacks are well-formed and derive exactly the words of the root rule.
    When left recursion is found the result is the null pointer. *)
Theorem grammar_init tokenize src root is_lazy patterns tokens st id :
  parse tokenize src = Ok (Some st) -> fits st ->
  symbol_ids st !! root = Some id -> (Z.to_nat id < length (p_rules st))%nat ->
  (check_left_recursion (p_rules st) = Ok true ->
   forall fuel, llama_grammar_init_impl tokenize fuel src root is_lazy patterns tokens = Ok None) /\
  (check_left_recursion (p_rules st) = Ok false -> empties_closed (p_rules st) = true ->
   exists fuel g, (forall fuel', (fuel <= fuel')%nat ->
      llama_grammar_init_impl tokenize fuel' src root is_lazy patterns tokens = Ok (Some g)) /\
     rules g = p_rules st /\ lazy g = is_lazy /\ awaiting_trigger g = is_lazy /\ g_partial_utf8 g = no_partial /\
     Forall (sound (rules g)) (stacks g) /\
     forall w, stacks_derive (rules g) (stacks g) w <-> rule_derives (rules g) (Z.to_nat id) w).
Proof.
  intros Hparse Hfit Hid Hlt. pose proof (grammar_parse_accepted tokenize src st Hparse Hfit) as Hacc.
  pose proof Hacc as (Hwf & _ & _).
  assert (forall fuel, llama_grammar_init_impl tokenize fuel src root is_lazy patterns tokens =
    start_grammar fuel (p_rules st) (Z.to_nat id) is_lazy tokens patterns) as Heq.
  { intros fuel. unfold llama_grammar_init_impl. rewrite Hparse. bind_simpl.
    rewrite bool_decide_eq_false_2 by (intros E; rewrite E in Hlt; simpl in Hlt; lia).
    rewrite Hid, (copy_rules st Hacc). done. }
  setoid_rewrite Heq. unfold start_grammar. split.
  - intros -> fuel. done.
  - intros Hcheck Hempty. rewrite Hcheck. bind_simpl.
    pose proof (search_no_left_recursion _ (closed_direct_empties _ Hempty) Hcheck) as Hleft.
    destruct (initial_stacks_runs _ Hwf Hleft _ Hlt) as (st0 & n & Hst0).
    exists n, (mk_grammar (p_rules st) st0 no_partial is_lazy is_lazy [] [] tokens patterns).
    split; [intros fuel Hle; by rewrite Hst0|]. split_and!; try done.
    + apply (initial_stacks_sound _ Hwf n (Z.to_nat id)); [done|]. by apply Hst0.
    + eapply initial_stacks_derive. by apply (Hst0 n).
Qed.

Lemma grammar_init_witness :
  exists fuel g, llama_grammar_init_impl None fuel sample (str "root") false [] [] = Ok (Some g) /\
    forall w, stacks_derive (rules g) (stacks g) w <-> rule_derives (rules g) 0 w.
Proof.
  assert (exists st, parse None sample = Ok (Some st) /\ fits st /\ symbol_ids st !! str "root" = Some 0 /\
    length (p_rules st) = 4%nat /\ check_left_recursion (p_rules st) = Ok false /\ empties_closed (p_rules st) = true)
    as (st & Hp & Hfit & Hid & Hlen & Hcheck & Hempty).
  { eexists. split; [vm_compute; reflexivity|]. split_and!; by vm_compute. }
  destruct (grammar_init None sample (str "root") false [] [] st 0 Hp Hfit Hid) as [_ H]; [rewrite Hlen; simpl; lia|].
  destruct (H Hcheck Hempty) as (fuel & g & Hg & _ & _ & _ & _ & _ & Hw). exists fuel, g. split; [by apply Hg | exact Hw].
Defined.

(** A symbol can be known to the parser without having a rule: the text
    [a ::= root{0}] is accepted, [root] is a symbol, and the initialisation then reads past
    the rules. *)
Theorem undefined_root_symbol :
  (exists st, parse None (str "a ::= root{0}") = Ok (Some st) /\ symbol_ids st !! str "root" = Some 1 /\
     length (p_rules st) = 1%nat) /\
  forall fuel, llama_grammar_init_impl None fuel (str "a ::= root{0}") (str "root") false [] [] = Error Undefined.
Proof.
  split; [eexists; split; [vm_compute; reflexivity|]; split; by vm_compute|]. intros fuel.
  unfold llama_grammar_init_impl. set (p := parse None _). vm_compute in p. subst p. bind_simpl.
  set (b := bool_decide _). vm_compute in b. subst b. cbv iota.
  match goal with |- context [?m !! ?k] => set (o := m !! k) end. vm_compute in o. subst o. cbv iota.
  by vm_compute.
Qed.
End GrammarInit.
