(* ===== verification/GrammarLazy.v ===== *)
(** Lazy grammars: what is buffered while the grammar waits for a trigger, and what is
    replayed when a trigger pattern matches. *)

From S2P Require Import Prelude Grammar.
Import Grammar.

Module GrammarLazy.

(** The positions of the buffered tokens follow one another from [i] to [n]. *)
Fixpoint tiles (i n : nat) (positions : list (Z * (nat * nat))) : Prop :=
  match positions with
  | [] => i = n
  | (_, (s, e)) :: positions => s = i /\ (s <= e)%nat /\ tiles e n positions
  end.

Definition buffer_ok (g : llama_grammar) : Prop :=
  tiles 0 (length (trigger_buffer g)) (trigger_buffer_positions g).

(** The tokens that end after [start], with their pieces, the first one cut. *)
Fixpoint replayed (buffer : list Z) (start : nat) (positions : list (Z * (nat * nat))) : list (Z * list Z) :=
  match positions with
  | [] => []
  | (tok, (s, e)) :: positions =>
      if (e <=? start)%nat then replayed buffer start positions
      else (tok, take (e - Nat.max s start) (drop (Nat.max s start) buffer)) :: replayed buffer start positions
  end.

Lemma replay_tokens fuel buffer start positions : forall g,
  foldM (replay_token fuel buffer start) g positions =
  foldM (fun g tp => llama_grammar_accept_token fuel g tp.1 tp.2) g (replayed buffer start positions).
Proof.
  induction positions as [|[tok [s e]] positions IH]; intros g; [done|]. cbn [foldM replayed replay_token].
  destruct (e <=? start)%nat; bind_simpl; [apply IH|]. cbn [foldM fst snd].
  replace (if (s <? start)%nat then start else s) with (Nat.max s start) by (destruct (Nat.ltb_spec s start); lia).
  destruct (llama_grammar_accept_token _ _ _ _); bind_simpl; [apply IH | done].
Qed.

Lemma tiles_le i n positions : tiles i n positions -> (i <= n)%nat.
Proof.
  revert i. induction positions as [|[tok [s e]] positions IH]; intros i H; cbn [tiles] in H; [lia|].
  destruct H as (-> & Hle & H%IH). lia.
Qed.

Lemma replayed_concat buffer start positions : forall i, tiles i (length buffer) positions ->
  concat ((replayed buffer start positions).*2) = drop (Nat.max i start) buffer.
Proof.
  induction positions as [|[tok [s e]] positions IH]; intros i H; cbn [tiles replayed] in *.
  - subst. rewrite drop_ge by lia. done.
  - destruct H as (-> & Hle & H). pose proof (tiles_le _ _ _ H) as Hle'.
    destruct (Nat.leb_spec e start) as [Hs|Hs].
    + rewrite (IH e H). f_equal. lia.
    + cbn [fmap list_fmap concat snd]. rewrite (IH e H).
      replace (Nat.max e start) with (Nat.max i start + (e - Nat.max i start))%nat by lia.
      rewrite <- drop_drop. by rewrite take_drop.
Qed.

Lemma tiles_snoc tok i n m positions : tiles i n positions -> (n <= m)%nat ->
  tiles i m (positions ++ [(tok, (n, m))]).
Proof.
  revert i. induction positions as [|[tok' [s e]] positions IH]; intros i H Hle; cbn [tiles app] in *.
  - by subst.
  - destruct H as (-> & Hs & H). auto.
Qed.

(** C19: While a lazy grammar waits, [llama_grammar_accept_impl] only buffers the piece
    of a token, and the buffered tokens keep tiling the buffer; masking changes nothing.
    A trigger token is accepted by the grammar alone. When a trigger pattern matches from
    [start], the tokens accepted are those that end after [start], in order, and their
    pieces make up the buffer from [start] exactly; then the buffer is empty. *)
Theorem lazy_grammar fuel v g token :
  awaiting_trigger g = true -> buffer_ok g ->
  let buffer := trigger_buffer g ++ token_to_piece v token in
  let positions := trigger_buffer_positions g ++ [(token, (length (trigger_buffer g), length buffer))] in
  (forall (cur_p : list (Z * Z)) masked depth, llama_grammar_apply_impl fuel masked v g cur_p depth = Ok cur_p) /\
  (token ∈ trigger_tokens g ->
     llama_grammar_accept_impl fuel v g token =
       llama_grammar_accept_token fuel (with_trigger g false [] (trigger_buffer_positions g)) token (token_to_piece v token)) /\
  (token ∉ trigger_tokens g ->
     match first_trigger (trigger_patterns g) buffer with
     | None => exists g', llama_grammar_accept_impl fuel v g token = Ok g' /\ awaiting_trigger g' = true /\
         stacks g' = stacks g /\ trigger_buffer g' = buffer /\ buffer_ok g'
     | Some start =>
         concat ((replayed buffer start positions).*2) = drop start buffer /\
         llama_grammar_accept_impl fuel v g token =
           (g' ← foldM (fun g tp => llama_grammar_accept_token fuel g tp.1 tp.2) (with_trigger g false buffer positions)
                   (replayed buffer start positions);
            Ok (with_trigger g' false [] []))
     end).
Proof.
  intros Hawait Hbuf buffer positions.
  assert (tiles 0 (length buffer) positions) as Htiles.
  { apply tiles_snoc; [exact Hbuf|]. unfold buffer. rewrite length_app. lia. }
  unfold llama_grammar_accept_impl, llama_grammar_apply_impl. cbv zeta. rewrite Hawait. split; [done|]. split.
  - intros Hin. by rewrite bool_decide_eq_true_2.
  - intros Hin. rewrite bool_decide_eq_false_2 by done. fold buffer.
    replace (length (trigger_buffer g) + length (token_to_piece v token))%nat with (length buffer)
      by (unfold buffer; by rewrite length_app). fold positions.
    destruct (first_trigger (trigger_patterns g) buffer) as [start|].
    + split; [by rewrite (replayed_concat buffer start positions 0 Htiles)|]. by rewrite replay_tokens.
    + eexists. split; [done|]. by split_and!.
Qed.

(** A pattern that finds the first "x", and a grammar [root ::= "x"] that waits for it. *)
Fixpoint find_x (s : list Z) (i : nat) : option (list (nat * nat)) :=
  match s with [] => None | b :: s => if b =? 120 then Some [(i, 1%nat)] else find_x s (S i) end.

Definition waiting_for_x : llama_grammar :=
  mk_grammar [[mk_elem LLAMA_GRETYPE_CHAR 120; mk_elem LLAMA_GRETYPE_END 0]] [[(0, 0)%nat]] no_partial true true
    [97] [(1, (0, 1)%nat)] [] [mk_pattern [120] (fun _ => None) (fun s => find_x s 0)].

Definition x_vocab : llama_vocab := mk_vocab (fun t => if t =? 1 then [97] else [98; 120]) (fun _ => false).

Lemma lazy_grammar_witness :
  concat ((replayed [97; 98; 120] 2 [(1, (0, 1)%nat); (2, (1, 3)%nat)]).*2) = [120] /\
  exists g', llama_grammar_accept_impl 10 x_vocab waiting_for_x 2 = Ok g' /\ stacks g' = [[]].
Proof.
  destruct (lazy_grammar 10 x_vocab waiting_for_x 2) as (_ & _ & H); [done|by vm_compute; auto|].
  assert (2 ∉ trigger_tokens waiting_for_x) as Hin by apply not_elem_of_nil. specialize (H Hin).
  change (first_trigger (trigger_patterns waiting_for_x) (trigger_buffer waiting_for_x ++ token_to_piece x_vocab 2)) with (Some 2%nat) in H.
  destruct H as [Hc Ha]. split; [exact Hc|]. rewrite Ha. eexists. split; by vm_compute.
Defined.
End GrammarLazy.
