(* ===== verification/Trie.v ===== *)
(** The tries and the Aho-Corasick automaton of src/common/trie.h and
    src/common/trie.cpp: insertion of words and symbol sequences, the test for a
    delimiter at a position, the breadth-first construction of the failure links
    and of the longest pattern of each state, and the transition function.

    A symbol is a [uint32_t] as a [Z]; a node is its index in [nodes].  An index
    out of range is an error of the model, never a default value. *)

From S2P Require Import Prelude.
From S2P Require Import Unicode.

Module Trie.

Inductive trie_error := OutOfRange | OutOfFuel.
#[export] Instance trie_undef : Undef trie_error := OutOfRange.

Abbreviation M := (result trie_error).

(** * The trie *)

Record node := Node {
  children : gmap Z nat;
  pattern : Z;               (* index of the pattern ending at this node, -1 if none *)
}.

Record common_trie := Build_trie {
  nodes : list node;
  n_patterns : Z;
}.

Inductive match_result := NO_MATCH | PARTIAL_MATCH | COMPLETE_MATCH.

Definition new_node : node := Node ∅ (-1).

(** [create_node]: the index of the new node. *)
Definition create_node (t : common_trie) : common_trie * nat :=
  (Build_trie (nodes t ++ [new_node]) (n_patterns t), length (nodes t)).

(** The constructor: only the root. *)
Definition empty_trie : common_trie := (create_node (Build_trie [] 0)).1.

(** [nodes[i].children.find(c)]. *)
Definition child (ns : list node) (i : nat) (c : Z) : M (option nat) :=
  n ← at_ ns i; Ok (children n !! c).

Definition set_node (t : common_trie) (i : nat) (n : node) : common_trie :=
  Build_trie (<[i := n]> (nodes t)) (n_patterns t).

(** One symbol of [insert]: the child for it, created when there is none. *)
Definition descend (st : common_trie * nat) (c : Z) : M (common_trie * nat) :=
  let '(t, current) := st in
  o ← child (nodes t) current c;
  match o with
  | Some j => Ok (t, j)
  | None =>
      let '(t, j) := create_node t in
      n ← at_ (nodes t) current;
      Ok (set_node t current (Node (<[c := j]> (children n)) (pattern n)), j)
  end.

(** [insert(const std::vector<uint32_t> &)]. *)
Definition insert_symbols (t : common_trie) (symbols : list Z) : M (common_trie * Z) :=
  st ← foldM descend (t, 0%nat) symbols;
  let '(t, current) := st in
  n ← at_ (nodes t) current;
  if pattern n <? 0 then
    let t := set_node t current (Node (children n) (n_patterns t)) in
    Ok (Build_trie (nodes t) (n_patterns t + 1), n_patterns t)
  else Ok (t, pattern n).

(** The code points of [word] from [pos], up to the first that is not complete
    and valid. *)
Fixpoint symbols_from (fuel : nat) (word : bytes) (pos : nat) : list Z :=
  match fuel with
  | O => []
  | S fuel =>
      if (pos <? length word)%nat then
        match Unicode.common_parse_utf8_codepoint word pos with
        | Unicode.SUCCESS c n => c :: symbols_from fuel word (pos + n)
        | _ => []
        end
      else []
  end.

Definition symbols_of (word : bytes) (pos : nat) : list Z := symbols_from (length word) word pos.

(** [insert(const std::string &)]. *)
Definition insert (t : common_trie) (word : bytes) : M (common_trie * Z) :=
  insert_symbols t (symbols_of word 0).

Definition insert_all (t : common_trie) (seqs : list (list Z)) : M common_trie :=
  foldM (fun t w => r ← insert_symbols t w; Ok r.1) t seqs.

(** The constructor from a list of words. *)
Definition trie_of_words (words : list bytes) : M common_trie :=
  foldM (fun t w => r ← insert t w; Ok r.1) empty_trie words.

Fixpoint check_loop (fuel : nat) (t : common_trie) (sv : bytes) (current pos : nat) : M match_result :=
  let stop := Ok (if negb (current =? 0)%nat then PARTIAL_MATCH else NO_MATCH) in
  match fuel with
  | O => Error OutOfFuel
  | S fuel =>
      if (pos <? length sv)%nat then
        match Unicode.common_parse_utf8_codepoint sv pos with
        | Unicode.SUCCESS c len =>
            o ← child (nodes t) current c;
            match o with
            | None => Ok NO_MATCH
            | Some current =>
                n ← at_ (nodes t) current;
                if 0 <=? pattern n then Ok COMPLETE_MATCH
                else check_loop fuel t sv current (pos + len)
            end
        | _ => stop
        end
      else stop
  end.

Definition check_at (t : common_trie) (sv : bytes) (start_pos : nat) : M match_result :=
  check_loop (S (length sv)) t sv 0 start_pos.

(** * The automaton *)

Record common_aho_corasick := Build_aho_corasick {
  t : common_trie;
  fail : list nat;
  order : list nat;
  matches : list Z;      (* [match] of the code *)
  alphabet : gset Z;
}.

(** Follow the failure links of [state] until a transition on [c] exists or the
    root is reached. *)
Fixpoint follow (fuel : nat) (ns : list node) (fl : list nat) (state : nat) (c : Z) : M nat :=
  match fuel with
  | O => Error OutOfFuel
  | S fuel =>
      if (state =? 0)%nat then Ok state else
      o ← child ns state c;
      match o with
      | Some _ => Ok state
      | None => f ← at_ fl state; follow fuel ns fl f c
      end
  end.

(** [v[i] = x]. *)
Definition set_at {A} (l : list A) (i : nat) (x : A) : M (list A) :=
  _ ← at_ l i; Ok (<[i := x]> l).

(** The children of a node in the order of [std::map]. *)
Definition key_le (x y : Z * nat) : Prop := x.1 <= y.1.
#[export] Instance key_le_dec x y : Decision (key_le x y) := decide (x.1 <= y.1).
Definition children_of (n : node) : list (Z * nat) := merge_sort key_le (map_to_list (children n)).

(** The failure link of the child [v] of [u] over [c], and [v] in the queue. *)
Definition visit_child (ns : list node) (u : nat) (st : list nat * list nat) (cv : Z * nat)
    : M (list nat * list nat) :=
  let '(fl, queue) := st in
  let '(c, v) := cv in
  fl ← (if (u =? 0)%nat then Ok fl else
        f ← at_ fl u;
        f ← follow (S (length ns)) ns fl f c;
        o ← child ns f c;
        set_at fl v (match o with
                     | Some w => if (w =? v)%nat then 0%nat else w
                     | None => 0%nat
                     end));
  Ok (fl, queue ++ [v]).

Fixpoint bfs (fuel : nat) (ns : list node) (fl order queue : list nat) : M (list nat * list nat) :=
  match fuel with
  | O => Error OutOfFuel
  | S fuel =>
      match queue with
      | [] => Ok (fl, order)
      | u :: queue =>
          n ← at_ ns u;
          st ← foldM (visit_child ns u) (fl, queue) (children_of n);
          bfs fuel ns st.1 (order ++ [u]) st.2
      end
  end.

(** The longest pattern that ends at [u]. *)
Definition match_state (ns : list node) (fl : list nat) (m : list Z) (u : nat) : M (list Z) :=
  n ← at_ ns u;
  x ← (if 0 <=? pattern n then Ok (pattern n)
       else if negb (u =? 0)%nat then f ← at_ fl u; at_ m f else Ok (-1));
  set_at m u x.

Definition alphabet_of (ns : list node) : gset Z := ⋃ ((fun n => dom (children n)) <$> ns).

(** The constructor. *)
Definition aho_corasick (trie : common_trie) : M common_aho_corasick :=
  let ns := nodes trie in
  let n := length ns in
  r ← bfs (S n) ns (replicate n 0%nat) [] [0%nat];
  m ← foldM (match_state ns r.1) (replicate n (-1)) r.2;
  Ok (Build_aho_corasick trie r.1 r.2 m (alphabet_of ns)).

Definition num_states (ac : common_aho_corasick) : nat := length (nodes (t ac)).
Definition match_pattern (ac : common_aho_corasick) (s : nat) : M Z := at_ (matches ac) s.
Definition is_terminal (ac : common_aho_corasick) (s : nat) : M bool :=
  m ← at_ (matches ac) s; Ok (0 <=? m).

Definition next (ac : common_aho_corasick) (state : nat) (c : Z) : M nat :=
  let ns := nodes (t ac) in
  state ← follow (S (length ns)) ns (fail ac) state c;
  o ← child ns state c;
  Ok (default 0%nat o).

(** Reading a text from [state]. *)
Definition run (ac : common_aho_corasick) (state : nat) (s : list Z) : M nat := foldM (next ac) state s.

End Trie.
