(* ===== verification/TrieWf.v ===== *)
(** The trie of [Trie] as a set of words: each node stands for one path from the
    root, the paths are prefix-closed, and the pattern of a node is the index of
    its path among the words inserted so far.  Insertion refines adding a word to
    the list of distinct words, and [check_at] answers by prefixes. *)

From S2P Require Import Prelude.
From S2P Require Import Unicode.
From S2P Require Import Trie.

Module TrieWf.
Import Trie.

(** * The trie as a list of paths *)

(** [labs !! i] is the path of node [i]; [ws] are the words in the order of
    their indices. *)
Record rep (t : common_trie) (labs ws : list (list Z)) : Prop := {
  rep_length : length labs = length (nodes t);
  rep_nodup : NoDup labs;
  rep_root : labs !! 0%nat = Some [];
  rep_child : forall i n p c j, nodes t !! i = Some n -> labs !! i = Some p ->
    children n !! c = Some j <-> labs !! j = Some (p ++ [c]);
  rep_closed : forall p c, p ++ [c] ∈ labs -> p ∈ labs;
  rep_pattern : forall i n p, nodes t !! i = Some n -> labs !! i = Some p ->
    pattern n = -1 /\ p ∉ ws \/ exists k, pattern n = Z.of_nat k /\ ws !! k = Some p;
  rep_words : forall w, w ∈ ws -> w ∈ labs;
  rep_count : n_patterns t = Z.of_nat (length ws);
  rep_distinct : NoDup ws;
}.

(** Every path is the beginning of a word. *)
Definition minimal (labs ws : list (list Z)) : Prop :=
  forall p, p ∈ labs -> p = [] \/ exists w, w ∈ ws /\ p `prefix_of` w.

(** The abstraction: [t] holds the distinct words [ws]. *)
Definition holds (t : common_trie) (ws : list (list Z)) : Prop :=
  exists labs, rep t labs ws /\ minimal labs ws.

Definition add_word (ws : list (list Z)) (w : list Z) : list (list Z) :=
  if bool_decide (w ∈ ws) then ws else ws ++ [w].

Section Rep.
Context {t : common_trie} {labs ws : list (list Z)} (H : rep t labs ws).

Lemma rep_node i p : labs !! i = Some p -> exists n, nodes t !! i = Some n.
Proof. intros Hi%lookup_lt_Some. apply lookup_lt_is_Some_2. rewrite <- (rep_length _ _ _ H). done. Qed.

Lemma rep_inj i j p : labs !! i = Some p -> labs !! j = Some p -> i = j.
Proof. apply NoDup_lookup, H. Qed.

Lemma rep_zero i p : labs !! i = Some p -> i = 0%nat <-> p = [].
Proof.
  intros Hi. pose proof (rep_root _ _ _ H) as H0. split; intros ->; [congruence|].
  by apply (rep_inj i 0 []).
Qed.

Lemma rep_prefix p q : q ∈ labs -> p `prefix_of` q -> p ∈ labs.
Proof.
  intros Hq [s ->]. induction s as [|c s IH] using rev_ind; [by rewrite app_nil_r in Hq|].
  apply IH. rewrite app_assoc in Hq. by apply rep_closed with (1 := H) in Hq.
Qed.

Lemma child_total i p c : labs !! i = Some p ->
  exists o, child (nodes t) i c = Ok o /\
    match o with Some j => labs !! j = Some (p ++ [c]) | None => p ++ [c] ∉ labs end.
Proof.
  intros Hi. destruct (rep_node _ _ Hi) as [n Hn]. unfold child.
  rewrite (at_lookup _ _ _ Hn). bind_simpl. eexists. split; [done|].
  destruct (children n !! c) as [j|] eqn:E;
    [by apply (rep_child _ _ _ H i n p c j Hn Hi)|].
  intros [j Hj]%list_elem_of_lookup. apply (rep_child _ _ _ H i n p c j Hn Hi) in Hj. congruence.
Qed.

Lemma pattern_ok i p : labs !! i = Some p ->
  exists n, nodes t !! i = Some n /\
    (pattern n = -1 /\ p ∉ ws \/ exists k, pattern n = Z.of_nat k /\ ws !! k = Some p).
Proof. intros Hi. destruct (rep_node _ _ Hi) as [n Hn]. eauto using rep_pattern. Qed.
End Rep.

Lemma rep_empty : rep empty_trie [[]] [].
Proof.
  assert (forall i n, nodes empty_trie !! i = Some n -> i = 0%nat /\ n = new_node) as Hn.
  { intros [|i] n; simpl; naive_solver. }
  split; simpl; try done.
  - apply NoDup_singleton.
  - intros i n p c j [-> ->]%Hn [= <-]. simpl. rewrite lookup_empty.
    destruct j as [|[|j]]; simpl; naive_solver.
  - intros p c E%list_elem_of_singleton. by destruct p.
  - intros i n p [-> ->]%Hn _. left. split; [done | apply not_elem_of_nil].
  - intros w Hw. set_solver.
  - constructor.
Qed.

(** * Insertion *)

Lemma rep_create t labs ws i n p c :
  rep t labs ws -> nodes t !! i = Some n -> labs !! i = Some p -> p ++ [c] ∉ labs ->
  rep (set_node (create_node t).1 i (Node (<[c := length (nodes t)]> (children n)) (pattern n)))
    (labs ++ [p ++ [c]]) ws.
Proof.
  intros H Hn Hi Hc. pose proof (rep_length _ _ _ H) as Hl.
  pose proof (lookup_lt_Some _ _ _ Hi) as Hlt.
  set (n' := Node _ _). set (t' := set_node _ _ _).
  assert (forall i' m q, nodes t' !! i' = Some m -> (labs ++ [p ++ [c]]) !! i' = Some q ->
    i' = i /\ m = n' /\ q = p \/ i' = length labs /\ m = new_node /\ q = p ++ [c] \/
    i' <> i /\ nodes t !! i' = Some m /\ labs !! i' = Some q) as Hcases.
  { intros i' m q Hm Hq. simpl in Hm. apply lookup_snoc_Some in Hq as [[Hi' Hq]|[-> <-]].
    - destruct (decide (i' = i)) as [->|Hne].
      + rewrite list_lookup_insert_eq in Hm by (rewrite length_app; lia). left. naive_solver.
      + rewrite list_lookup_insert_ne, lookup_app_l in Hm by lia. auto.
    - rewrite list_lookup_insert_ne, lookup_app_r in Hm by lia.
      replace (length labs - length (nodes t))%nat with 0%nat in Hm by lia. naive_solver. }
  split.
  - simpl. rewrite length_insert, !length_app. simpl. lia.
  - apply NoDup_app. split_and!; [apply H | set_solver | apply NoDup_singleton].
  - rewrite lookup_app_l by lia. apply H.
  - intros i' m q c' j Hm Hq.
    destruct (Hcases _ _ _ Hm Hq) as [(-> & -> & ->)|[(-> & -> & ->)|(Hne & Hm' & Hq')]].
    + unfold n'. simpl. rewrite lookup_snoc_Some. destruct (decide (c' = c)) as [->|Hcc].
      * rewrite lookup_insert_eq, <- Hl. split; [naive_solver|].
        intros [[_ Hj]|[-> _]]; [|done]. by apply list_elem_of_lookup_2 in Hj.
      * rewrite lookup_insert_ne, (rep_child _ _ _ H i n p) by done.
        split; [intros Hj; left; split; [by apply lookup_lt_Some in Hj | done]|].
        intros [[_ Hj]|[_ E]]; [done|]. apply app_inj_tail in E as [_ E]. by destruct Hcc.
    + simpl. rewrite lookup_empty, lookup_snoc_Some. split; [done|].
      intros [[_ Hj%list_elem_of_lookup_2]|[_ E]].
      * by apply rep_closed with (1 := H) in Hj.
      * apply (f_equal length) in E. rewrite !length_app in E. simpl in E. lia.
    + rewrite lookup_snoc_Some, (rep_child _ _ _ H i' m q) by done.
      split; [intros Hj; left; split; [by apply lookup_lt_Some in Hj | done]|].
      intros [[_ Hj]|[_ [-> _]%app_inj_tail]]; [done|]. by destruct Hne; eapply rep_inj.
  - intros q c' [Hq|Hq%list_elem_of_singleton]%elem_of_app; apply elem_of_app; left.
    + by eapply rep_closed.
    + apply app_inj_tail in Hq as [-> _]. by apply list_elem_of_lookup_2 in Hi.
  - intros i' m q Hm Hq.
    destruct (Hcases _ _ _ Hm Hq) as [(-> & -> & ->)|[(-> & -> & ->)|(Hne & Hm' & Hq')]].
    + simpl. by apply (rep_pattern _ _ _ H i).
    + left. split; [done|]. contradict Hc. by eapply rep_words.
    + by apply (rep_pattern _ _ _ H i').
  - intros w Hw. apply elem_of_app. left. by eapply rep_words.
  - apply H.
  - apply H.
Qed.

Lemma descend_ok t labs ws i p c :
  rep t labs ws -> labs !! i = Some p ->
  exists t' j labs', descend (t, i) c = Ok (t', j) /\ rep t' labs' ws /\
    labs' !! j = Some (p ++ [c]) /\ (forall q, q ∈ labs' <-> q ∈ labs \/ q = p ++ [c]).
Proof.
  intros H Hi. destruct (child_total H i p c Hi) as ([j|] & Hc & Hj); cbn [descend]; rewrite Hc; bind_simpl.
  - exists t, j, labs. split_and!; [done..|]. intros q. apply list_elem_of_lookup_2 in Hj. naive_solver.
  - destruct (rep_node H _ _ Hi) as [n Hn]. cbn [create_node nodes].
    rewrite (at_lookup _ i n) by (by apply lookup_app_l_Some). bind_simpl.
    eexists _, _, _. split_and!; [done | by eapply (rep_create t labs ws i n p c) | |].
    + rewrite <- (rep_length _ _ _ H). by rewrite lookup_app_r, Nat.sub_diag by lia.
    + set_solver.
Qed.

Lemma walk_ok t labs ws i p s :
  rep t labs ws -> labs !! i = Some p ->
  exists t' j labs', foldM descend (t, i) s = Ok (t', j) /\ rep t' labs' ws /\
    labs' !! j = Some (p ++ s) /\
    (forall q, q ∈ labs' -> q ∈ labs \/ q `prefix_of` p ++ s) /\ (forall q, q ∈ labs -> q ∈ labs').
Proof.
  revert t labs i p. induction s as [|c s IH]; intros t labs i p H Hi; cbn [foldM].
  - exists t, i, labs. rewrite app_nil_r. split_and!; auto.
  - destruct (descend_ok _ _ _ i p c H Hi) as (t1 & j1 & labs1 & -> & H1 & Hj1 & Hq1). bind_simpl.
    destruct (IH _ _ _ _ H1 Hj1) as (t2 & j2 & labs2 & E & H2 & Hj2 & Hq2 & Hin).
    exists t2, j2, labs2. rewrite <- app_assoc in Hj2, Hq2. split_and!; [done..| |].
    + intros q [[Hq | ->]%Hq1|Hq]%Hq2; [by left | right | by right].
      exists s. by rewrite <- app_assoc.
    + intros q Hq. apply Hin, Hq1. by left.
Qed.

(** Giving the next index to a path that is not a word yet. *)
Lemma rep_mark t labs ws i n p :
  rep t labs ws -> nodes t !! i = Some n -> labs !! i = Some p -> p ∉ ws ->
  rep (Build_trie (nodes (set_node t i (Node (children n) (n_patterns t)))) (n_patterns t + 1))
    labs (ws ++ [p]).
Proof.
  intros H Hn Hi Hp.
  assert (forall i' m q, <[i := Node (children n) (n_patterns t)]> (nodes t) !! i' = Some m ->
    labs !! i' = Some q -> i' = i /\ m = Node (children n) (n_patterns t) /\ q = p \/
    q <> p /\ nodes t !! i' = Some m) as Hcases.
  { intros i' m q Hm Hq. apply list_lookup_insert_Some in Hm as [(-> & <- & _)|[Hne Hm]].
    - left. naive_solver.
    - right. split; [|done]. intros ->. destruct Hne. by eapply rep_inj. }
  split; simpl; try apply H.
  - rewrite length_insert. apply H.
  - intros i' m q c j Hm Hq. destruct (Hcases _ _ _ Hm Hq) as [(-> & -> & ->)|[_ Hm']];
      [by apply (rep_child _ _ _ H i n p) | by apply (rep_child _ _ _ H i' m q)].
  - intros i' m q Hm Hq. destruct (Hcases _ _ _ Hm Hq) as [(-> & -> & ->)|[Hne Hm']].
    + right. exists (length ws). simpl. split; [apply H|]. by rewrite lookup_app_r, Nat.sub_diag.
    + destruct (rep_pattern _ _ _ H i' m q Hm' Hq) as [[??]|(k & ? & Hk)]; [left; set_solver|].
      right. exists k. split; [done|]. by apply lookup_app_l_Some.
  - intros w [Hw|Hw%list_elem_of_singleton]%elem_of_app; [by eapply rep_words|].
    subst w. by apply list_elem_of_lookup_2 in Hi.
  - rewrite (rep_count _ _ _ H), length_app. simpl. lia.
  - apply NoDup_app. split_and!; [apply H | set_solver | apply NoDup_singleton].
Qed.

Lemma insert_symbols_ok t ws w :
  holds t ws ->
  exists t' k, insert_symbols t w = Ok (t', Z.of_nat k) /\ holds t' (add_word ws w) /\
    add_word ws w !! k = Some w.
Proof.
  intros (labs & H & Hmin). unfold insert_symbols, add_word.
  destruct (walk_ok t labs ws 0 [] w H (rep_root _ _ _ H)) as (t' & j & labs' & -> & H' & Hj & Hq & _).
  simpl in Hj, Hq. bind_simpl. destruct (pattern_ok H' _ _ Hj) as (n & Hn & Hp).
  rewrite (at_lookup _ _ _ Hn). bind_simpl.
  destruct Hp as [[-> Hw]|(k & -> & Hk)].
  - rewrite bool_decide_eq_false_2 by done. simpl.
    exists (Build_trie (nodes (set_node t' j (Node (children n) (n_patterns t')))) (n_patterns t' + 1)), (length ws).
    rewrite <- (rep_count _ _ _ H'). split_and!; [done | |by rewrite lookup_app_r, Nat.sub_diag].
    exists labs'. split; [by apply rep_mark|]. intros p Hp. destruct (Hq p Hp) as [Hp'|Hp'].
    + destruct (Hmin p Hp') as [->|(v & ? & ?)]; [by left|]. right. exists v. set_solver.
    + right. exists w. set_solver.
  - rewrite bool_decide_eq_true_2 by (by apply list_elem_of_lookup_2 in Hk).
    destruct (Z.ltb_spec (Z.of_nat k) 0) as [?|_]; [lia|]. exists t', k. split_and!; [done | | done].
    exists labs'. split; [done|]. intros p Hp. destruct (Hq p Hp) as [Hp'|Hp']; [by apply Hmin|].
    right. exists w. by apply list_elem_of_lookup_2 in Hk.
Qed.

Lemma holds_empty : holds empty_trie [].
Proof. exists [[]]. split; [apply rep_empty|]. intros p ->%list_elem_of_singleton. by left. Qed.

Lemma insert_all_ok t ws seqs :
  holds t ws -> exists t', insert_all t seqs = Ok t' /\ holds t' (foldl add_word ws seqs).
Proof.
  revert t ws. induction seqs as [|w seqs IH]; intros t ws H; [by exists t|].
  destruct (insert_symbols_ok t ws w H) as (t' & k & E & H' & _).
  unfold insert_all. cbn [foldM]. rewrite E. bind_simpl. by apply IH.
Qed.

(** * Symbols of a text *)

Lemma parse_consumes word pos c n :
  Unicode.common_parse_utf8_codepoint word pos = Unicode.SUCCESS c n -> (1 <= n)%nat.
Proof.
  unfold Unicode.common_parse_utf8_codepoint. cbv zeta. intros H. repeat case_match; simplify_eq; lia.
Qed.

(** Enough fuel for the rest of the text gives the same symbols. *)
Lemma symbols_fuel f1 f2 word pos :
  (length word - pos <= f1)%nat -> (length word - pos <= f2)%nat ->
  symbols_from f1 word pos = symbols_from f2 word pos.
Proof.
  revert f2 pos. induction f1 as [|f1 IH]; intros [|f2] pos H1 H2; cbn [symbols_from]; try done;
    try (destruct (Nat.ltb_spec pos (length word)); [lia | done]).
  destruct (Nat.ltb_spec pos (length word)); [|done].
  destruct (Unicode.common_parse_utf8_codepoint word pos) eqn:E; [|done..].
  apply parse_consumes in E. f_equal. apply IH; lia.
Qed.

(** * Delimiters *)

(** The reference: a word starts the text, or the text starts a word. *)
Definition delimiter_at (ws : list (list Z)) (s : list Z) : match_result :=
  if bool_decide (Exists (fun w => w <> [] /\ w `prefix_of` s) ws) then COMPLETE_MATCH
  else if bool_decide (s <> [] /\ Exists (fun w => s `prefix_of` w) ws) then PARTIAL_MATCH
  else NO_MATCH.

(** The same with the symbols [p] already read without completing a word. *)
Definition delimiter_from (ws : list (list Z)) (p s : list Z) : match_result :=
  if bool_decide (Exists (fun w => p `prefix_of` w /\ w <> p /\ w `prefix_of` p ++ s) ws) then COMPLETE_MATCH
  else if bool_decide (p ++ s <> [] /\ Exists (fun w => p ++ s `prefix_of` w) ws) then PARTIAL_MATCH
  else NO_MATCH.

Lemma delimiter_from_nil ws s : delimiter_from ws [] s = delimiter_at ws s.
Proof.
  unfold delimiter_from, delimiter_at. simpl.
  rewrite (bool_decide_ext _ (Exists (fun w => w <> [] /\ w `prefix_of` s) ws)); [done|].
  rewrite !Exists_exists. split; intros (w & ? & ?); exists w; split_and!; try naive_solver.
  apply prefix_nil.
Qed.

(** A word that strictly extends [p] and starts [p ++ c :: s] goes through [c]. *)
Lemma prefix_next p c (w s : list Z) :
  p `prefix_of` w -> w <> p -> w `prefix_of` p ++ c :: s -> p ++ [c] `prefix_of` w.
Proof.
  intros [[|d q] ->] Hne Hw; [by rewrite app_nil_r in Hne|].
  apply prefix_app_inv in Hw. pose proof (prefix_cons_inv_1 _ _ _ _ Hw) as ->. exists q. by rewrite <- app_assoc.
Qed.

Lemma delimiter_step ws p c s :
  p ++ [c] ∉ ws -> delimiter_from ws p (c :: s) = delimiter_from ws (p ++ [c]) s.
Proof.
  intros Hc. unfold delimiter_from. rewrite <- app_assoc. simpl.
  rewrite (bool_decide_ext (Exists _ ws) (Exists (fun w => p ++ [c] `prefix_of` w /\ w <> p ++ [c] /\
    w `prefix_of` p ++ c :: s) ws)); [done|].
  rewrite !Exists_exists. split; intros (w & Hw & H1 & H2 & H3); exists w.
  - split_and!; [done | by eapply prefix_next | congruence | done].
  - split_and!; [done | by apply prefix_app_l in H1 | | done]. intros ->. by apply prefix_snoc_not in H1.
Qed.

(** The loop of [check_at] over the symbols. *)
Lemma check_loop_ok t labs ws fuel sv i p pos :
  rep t labs ws -> minimal labs ws -> labs !! i = Some p -> (length sv - pos < fuel)%nat ->
  check_loop fuel t sv i pos = Ok (delimiter_from ws p (symbols_from fuel sv pos)).
Proof.
  intros H Hmin. revert i p pos. induction fuel as [|fuel IH]; intros i p pos Hi Hf; [lia|].
  assert (Ok (if negb (i =? 0)%nat then PARTIAL_MATCH else NO_MATCH) =
    Ok (delimiter_from ws p []) :> result trie_error _) as Hstop.
  { f_equal. unfold delimiter_from. rewrite app_nil_r, (bool_decide_eq_false_2 (Exists _ _)).
    2: { intros (w & _ & H1 & H2 & H3)%Exists_exists. by apply H2, (anti_symm prefix). }
    destruct (rep_zero H _ _ Hi) as [Hz1 Hz2]. destruct (Nat.eqb_spec i 0) as [E|E]; simpl.
    - rewrite bool_decide_eq_false_2; [done|]. rewrite Hz1 by done. by intros [? _].
    - rewrite bool_decide_eq_true_2; [done|]. split; [auto|]. apply Exists_exists.
      destruct (Hmin p) as [->|?]; [by apply list_elem_of_lookup_2 in Hi | by destruct E; auto | done]. }
  cbn [check_loop symbols_from]. destruct (Nat.ltb_spec pos (length sv)) as [Hpos|_]; [|done].
  destruct (Unicode.common_parse_utf8_codepoint sv pos) as [c len| |] eqn:E; [|done..].
  apply parse_consumes in E. destruct (child_total H i p c Hi) as ([j|] & -> & Hj); bind_simpl.
  - destruct (pattern_ok H j _ Hj) as (n & Hn & Hp). rewrite (at_lookup _ _ _ Hn). bind_simpl.
    destruct Hp as [[-> Hw]|(k & -> & Hk)]; [rewrite delimiter_step by done; simpl; apply IH; [done|lia]|].
    destruct (Z.leb_spec 0 (Z.of_nat k)) as [_|?]; [|lia]. unfold delimiter_from.
    rewrite bool_decide_eq_true_2; [done|]. apply Exists_exists. exists (p ++ [c]).
    split_and!; [by apply list_elem_of_lookup_2 in Hk | by apply prefix_app_r | |].
    + intros E'. apply (f_equal length) in E'. rewrite length_app in E'. simpl in E'. lia.
    + apply prefix_app, prefix_cons, prefix_nil.
  - assert (forall w, w ∈ ws -> ¬ p ++ [c] `prefix_of` w) as Hno.
    { intros w Hw Hpre. apply Hj. eapply rep_prefix; [done | by eapply rep_words | done]. }
    unfold delimiter_from. rewrite !bool_decide_eq_false_2; [done | |].
    + intros [_ (w & Hw & Hpre)%Exists_exists]. apply (Hno w Hw). eapply prefix_app_l.
      rewrite <- app_assoc. exact Hpre.
    + intros (w & Hw & ? & ? & ?)%Exists_exists. apply (Hno w Hw). by eapply prefix_next.
Qed.

(** C20: A trie that holds a list of distinct words accepts any further word: the
    insertion runs, the trie then holds the list with the word added at the end
    unless it was there, and the index returned is the position of the word in
    it, so a duplicate gets the index of its first insertion. *)
Theorem trie_insert t ws word :
  holds t ws ->
  let w := symbols_of word 0 in
  exists t' k, insert t word = Ok (t', Z.of_nat k) /\ holds t' (add_word ws w) /\
    add_word ws w !! k = Some w.
Proof. apply insert_symbols_ok. Qed.

Lemma trie_insert_witness :
  holds empty_trie [] /\ exists t' k, insert empty_trie [104; 105] = Ok (t', Z.of_nat k) /\
    holds t' (add_word [] [104; 105]) /\ add_word [] [104; 105] !! k = Some [104; 105].
Proof. split; [exact holds_empty | exact (trie_insert empty_trie [] [104; 105] holds_empty)]. Defined.

(** C21: The test for a delimiter terminates without leaving the trie, and
    answers as the reference: COMPLETE when a non-empty word starts the text at
    the position, else PARTIAL when the text left is not empty and starts a word,
    else NO_MATCH. The text ends at the first byte that is not a complete and
    valid code point. *)
Theorem trie_check_at t ws sv start_pos :
  holds t ws -> check_at t sv start_pos = Ok (delimiter_at ws (symbols_of sv start_pos)).
Proof.
  intros (labs & H & Hmin). unfold check_at, symbols_of.
  rewrite (check_loop_ok t labs ws _ sv 0 [] start_pos H Hmin (rep_root _ _ _ H)) by lia.
  rewrite delimiter_from_nil. do 2 f_equal. apply symbols_fuel; lia.
Qed.

Lemma trie_check_at_witness :
  exists t, trie_of_words [[60; 47]; [60]] = Ok t /\ holds t [[60; 47]; [60]] /\
    check_at t [97; 60; 47] 1 = Ok (delimiter_at [[60; 47]; [60]] (symbols_of [97; 60; 47] 1)).
Proof.
  destruct (insert_all_ok empty_trie [] [[60; 47]; [60]] holds_empty) as (t & E & Ht).
  exists t. split; [exact E|]. split; [exact Ht | apply (trie_check_at t [[60; 47]; [60]]); exact Ht].
Defined.

End TrieWf.
