(* ===== verification/TrieAho.v ===== *)
(** Correctness of the Aho-Corasick construction of [Trie]: the breadth-first
    pass visits every node once, in the order of depth, each failure link is the
    longest proper suffix that is a path, and the automaton reports after any text
    the longest word that ends there. *)

From S2P Require Import Prelude.
From S2P Require Import Trie.
From S2P Require Import TrieWf.

Module TrieAho.
Import Trie TrieWf.

(** * Longest suffixes *)

(** [p] is the longest suffix of [s] among the paths. *)
Record longest (labs : list (list Z)) (s p : list Z) : Prop := {
  longest_in : p ∈ labs;
  longest_suffix : p `suffix_of` s;
  longest_max : forall q, q ∈ labs -> q `suffix_of` s -> (length q <= length p)%nat;
}.

(** [m] is the index of the longest word that ends [s], or [-1]. *)
Inductive longest_match (ws : list (list Z)) (s : list Z) : Z -> Prop :=
| match_none : (forall w, w ∈ ws -> ~ w `suffix_of` s) -> longest_match ws s (-1)
| match_word k w : ws !! k = Some w -> w `suffix_of` s ->
    (forall v, v ∈ ws -> v `suffix_of` s -> (length v <= length w)%nat) ->
    longest_match ws s (Z.of_nat k).

Lemma suffix_shorter (p q s : list Z) :
  p `suffix_of` s -> q `suffix_of` s -> (length p <= length q)%nat -> p `suffix_of` q.
Proof.
  intros Hp Hq Hl. destruct (suffix_weak_total p q s Hp Hq) as [?|[k ->]]; [done|].
  rewrite length_app in Hl. by rewrite (nil_length_inv k) by lia.
Qed.

Lemma suffix_tail (q p : list Z) : q `suffix_of` p -> q <> p -> q `suffix_of` tail p.
Proof. intros [[|c k] ->] Hne; [done|]. simpl. by exists k. Qed.

Lemma longest_match_ext ws s s' m :
  (forall w, w ∈ ws -> w `suffix_of` s <-> w `suffix_of` s') -> longest_match ws s m -> longest_match ws s' m.
Proof.
  intros Hs [H|k w Hk Hw Hmax].
  - constructor. intros w Hw. rewrite <- Hs by done. auto.
  - assert (w ∈ ws) by by apply list_elem_of_lookup_2 in Hk.
    apply (match_word _ _ k w); [done | by apply Hs |]. intros v Hv. rewrite <- Hs by done. auto.
Qed.

Lemma longest_match_longest labs ws s p m :
  (forall w, w ∈ ws -> w ∈ labs) -> longest labs s p -> longest_match ws p m -> longest_match ws s m.
Proof.
  intros Hin [Hp Hs Hmax]. apply longest_match_ext. intros w Hw. split.
  - intros Hwp. by etransitivity.
  - intros Hws. eapply suffix_shorter; [done..|]. apply Hmax; auto.
Qed.

Lemma longest_match_tail ws p m : p ∉ ws -> longest_match ws (tail p) m -> longest_match ws p m.
Proof.
  intros Hp. apply longest_match_ext. intros w Hw. split.
  - intros [k Hk]. destruct p as [|c p]; simpl in Hk; [by exists k|]. exists (c :: k). by rewrite Hk.
  - intros Hs. apply suffix_tail; [done|]. by intros ->.
Qed.

(** * Transitions *)

(** The failure links of the paths up to length [d] are right. *)
Definition fail_ok (labs : list (list Z)) (fl : list nat) (d : nat) : Prop :=
  forall i p, labs !! i = Some p -> p <> [] -> (length p <= d)%nat ->
    exists j r, fl !! i = Some j /\ labs !! j = Some r /\ longest labs (tail p) r.

Lemma StronglySorted_const {A} (R : A -> A -> Prop) l :
  (forall x y, x ∈ l -> y ∈ l -> R x y) -> StronglySorted R l.
Proof.
  induction l as [|a l IH]; intros HR; constructor; [apply IH; set_solver|].
  apply Forall_forall. set_solver.
Qed.

Section Trans.
Context {tr : common_trie} {labs ws : list (list Z)} (H : rep tr labs ws).
Local Abbreviation ns := (nodes tr).

Lemma nil_in : [] ∈ labs.
Proof. eapply list_elem_of_lookup_2, H. Qed.

(** A path is shorter than the number of nodes: its prefixes are nodes. *)
Lemma path_length p : p ∈ labs -> (length p < length ns)%nat.
Proof.
  intros Hp. rewrite <- (rep_length _ _ _ H).
  assert ((fun k => take k p) <$> List.seq 0 (S (length p)) ⊆+ labs) as Hsub%submseteq_length.
  - apply NoDup_submseteq.
    + apply NoDup_fmap_2_strong; [|apply NoDup_seq]. intros x y Hx%elem_of_seq Hy%elem_of_seq E.
      apply (f_equal length) in E. rewrite !length_take in E. lia.
    + intros q (k & -> & _)%list_elem_of_fmap. eapply rep_prefix; [done..|apply prefix_take].
  - rewrite length_fmap, length_seq in Hsub. lia.
Qed.

Lemma suffix_snoc_cases q s (c : Z) :
  q `suffix_of` s ++ [c] -> q = [] \/ exists q0, q = q0 ++ [c] /\ q0 `suffix_of` s.
Proof.
  destruct q as [|d q _] using rev_ind; [by left|]. intros Hq. right. exists q.
  rewrite (suffix_snoc_inv_1 _ _ _ _ Hq) in *. split; [done|]. by eapply suffix_snoc_inv_2.
Qed.

(** Following failure links reaches the longest suffix with a transition. *)
Lemma follow_ok fuel fl d i s p c :
  fail_ok labs fl d -> (length p <= d)%nat -> (length p < fuel)%nat -> labs !! i = Some p ->
  p `suffix_of` s ->
  (forall q, q ∈ labs -> q `suffix_of` s -> q ++ [c] ∈ labs -> (length q <= length p)%nat) ->
  exists f r, follow fuel ns fl i c = Ok f /\ labs !! f = Some r /\ r `suffix_of` s /\
    (r <> [] -> r ++ [c] ∈ labs) /\
    (forall q, q ∈ labs -> q `suffix_of` s -> q ++ [c] ∈ labs -> (length q <= length r)%nat).
Proof.
  intros Hf. revert i p. induction fuel as [|fuel IH]; intros i p Hd Hl Hi Hs Hmax; [lia|].
  cbn [follow]. destruct (Nat.eqb_spec i 0) as [->|Hz].
  { exists 0%nat, p. split_and!; try done. intros Hp. destruct Hp. by apply (rep_zero H 0). }
  assert (p <> []) as Hp by (intros ->; by apply Hz, (rep_zero H i [])).
  destruct (child_total H i p c Hi) as ([j|] & -> & Hj); bind_simpl.
  { exists i, p. split_and!; try done. intros _. by eapply list_elem_of_lookup_2. }
  destruct (Hf i p Hi Hp Hd) as (f & r & Ef & Hr & [Hrin Hrs Hrmax]).
  rewrite (at_lookup _ _ _ Ef). bind_simpl. destruct p as [|a p]; [done|]. simpl in *.
  pose proof (suffix_length _ _ Hrs). apply (IH f r); [lia..|done| |].
  - etransitivity; [done|]. by eapply suffix_cons_l.
  - intros q Hq Hqs Hqc. apply Hrmax; [done|].
    apply (suffix_tail q (a :: p)); [|by intros ->]. eapply suffix_shorter; [done..|]. by apply Hmax.
Qed.

(** The transition on [c] from the state of [s]. *)
Lemma trans_ok fl d i s p c :
  fail_ok labs fl d -> (length p <= d)%nat -> labs !! i = Some p -> longest labs s p ->
  exists f o q, follow (S (length ns)) ns fl i c = Ok f /\ child ns f c = Ok o /\
    labs !! default 0%nat o = Some q /\ longest labs (s ++ [c]) q.
Proof.
  intros Hf Hd Hi [Hp Hs Hmax]. pose proof (path_length p Hp).
  destruct (follow_ok (S (length ns)) fl d i s p c) as (f & r & Ef & Hr & Hrs & Hrc & Hrmax);
    [done | done | lia | done | done | auto |].
  destruct (child_total H f r c Hr) as ([j|] & Ec & Hj); exists f; eexists.
  - exists (r ++ [c]). split_and!; [done..|]. split; [by eapply list_elem_of_lookup_2 | by apply suffix_snoc|].
    intros q Hq [->|(q0 & -> & Hq0)]%suffix_snoc_cases; [simpl; lia|]. rewrite !length_app.
    apply Nat.add_le_mono_r, Hrmax; [|done..]. by eapply rep_closed.
  - exists []. split_and!; [done | done | apply H |]. split; [apply nil_in | apply suffix_nil|].
    intros q Hq [->|(q0 & -> & Hq0)]%suffix_snoc_cases; [done|]. exfalso.
    assert (r = []) as -> by (destruct r; [done | by destruct Hj; apply Hrc]).
    pose proof (Hrmax q0 (rep_closed _ _ _ H _ _ Hq) Hq0 Hq) as Hq0'.
    destruct q0; simpl in *; [done|lia].
Qed.

(** * The breadth-first pass *)

Lemma children_spec i n p c v :
  ns !! i = Some n -> labs !! i = Some p ->
  (c, v) ∈ children_of n <-> labs !! v = Some (p ++ [c]).
Proof.
  intros Hn Hi. unfold children_of. rewrite merge_sort_Permutation, elem_of_map_to_list.
  by apply (rep_child _ _ _ H i).
Qed.

Lemma children_in i n p v :
  ns !! i = Some n -> labs !! i = Some p ->
  v ∈ (children_of n).*2 <-> exists c, labs !! v = Some (p ++ [c]).
Proof.
  intros Hn Hi. rewrite list_elem_of_fmap. split.
  - intros ([c w] & -> & Hc). exists c. by apply (children_spec i n p).
  - intros [c Hc]. exists (c, v). split; [done|]. by apply (children_spec i n p).
Qed.

Lemma children_nodup i n p : ns !! i = Some n -> labs !! i = Some p -> NoDup (children_of n).*2.
Proof.
  intros Hn Hi. apply NoDup_fmap_2_strong.
  - intros [c v] [d w] Hc Hd E. simpl in E. subst w.
    apply (children_spec i n p) in Hc, Hd; [|done..]. rewrite Hc in Hd.
    injection Hd as E. apply app_inj_tail in E as [_ ->]. done.
  - unfold children_of. rewrite merge_sort_Permutation. apply NoDup_map_to_list.
Qed.

(** The failure link of a node is right. *)
Definition link_ok (fl : list nat) (i : nat) (p : list Z) : Prop :=
  exists j r, fl !! i = Some j /\ labs !! j = Some r /\ longest labs (tail p) r.

Lemma longest_nil : longest labs [] [].
Proof. split; [apply nil_in | apply suffix_nil | intros q _ ->%suffix_nil_inv; done]. Qed.

Lemma visit_child_ok u p c v fl queue :
  labs !! u = Some p -> labs !! v = Some (p ++ [c]) -> length fl = length ns ->
  fail_ok labs fl (length p) -> (p = [] -> fl !! v = Some 0%nat) ->
  exists fl', visit_child ns u (fl, queue) (c, v) = Ok (fl', queue ++ [v]) /\ length fl' = length ns /\
    (forall i, i <> v -> fl' !! i = fl !! i) /\ link_ok fl' v (p ++ [c]).
Proof.
  intros Hu Hv Hl Hf H0. unfold visit_child. destruct (Nat.eqb_spec u 0) as [->|Hz].
  - assert (p = []) as -> by by apply (rep_zero H 0). exists fl. bind_simpl. split_and!; try done.
    exists 0%nat, []. split_and!; [auto | apply H | apply longest_nil].
  - assert (p <> []) as Hp by (intros ->; by apply Hz, (rep_zero H u [])).
    destruct (Hf u p Hu Hp) as (f0 & r & Ef & Hr & Hlong); [done|].
    assert (length r <= length (tail p))%nat by apply (suffix_length _ _ (longest_suffix _ _ _ Hlong)).
    assert (length (tail p) < length p)%nat by (destruct p; simpl; [done|lia]).
    rewrite (at_lookup _ _ _ Ef). bind_simpl.
    destruct (trans_ok fl (length p) f0 (tail p) r c) as (f & o & q & -> & Eo & Hq & Hql); [done|lia|done..|].
    bind_simpl. rewrite Eo. bind_simpl. unfold set_at.
    destruct (at_exists (E := trie_error) fl v) as [x ->].
    { rewrite Hl, <- (rep_length _ _ _ H). by eapply lookup_lt_Some. }
    assert (match o with Some w => if (w =? v)%nat then 0%nat else w | None => 0%nat end = default 0%nat o) as ->.
    { destruct o as [w|]; [|done]. simpl in Hq |- *. destruct (Nat.eqb_spec w v) as [->|]; [|done].
      rewrite Hv in Hq. injection Hq as <-.
      pose proof (suffix_length _ _ (longest_suffix _ _ _ Hql)) as Hc. rewrite !length_app in Hc. lia. }
    bind_simpl. eexists. split_and!; [done | by rewrite length_insert | |].
    + intros i Hi. by apply list_lookup_insert_ne.
    + exists (default 0%nat o), q. split_and!; [|done|].
      * apply list_lookup_insert_eq. rewrite Hl, <- (rep_length _ _ _ H). by eapply lookup_lt_Some.
      * by destruct p.
Qed.

Lemma visit_ok u n p fl queue :
  ns !! u = Some n -> labs !! u = Some p -> length fl = length ns ->
  fail_ok labs fl (length p) -> (p = [] -> forall c v, labs !! v = Some [c] -> fl !! v = Some 0%nat) ->
  exists fl', foldM (visit_child ns u) (fl, queue) (children_of n) = Ok (fl', queue ++ (children_of n).*2) /\
    length fl' = length ns /\ (forall i, i ∉ (children_of n).*2 -> fl' !! i = fl !! i) /\
    (forall c v, (c, v) ∈ children_of n -> link_ok fl' v (p ++ [c])).
Proof.
  intros Hn Hu Hl Hf H0.
  destruct (foldM_total (fun pre st => st.2 = queue ++ pre.*2 /\ length st.1 = length ns /\
    (forall i, i ∉ pre.*2 -> st.1 !! i = fl !! i) /\
    (forall c v, (c, v) ∈ pre -> link_ok st.1 v (p ++ [c]))) (visit_child ns u) (children_of n) (fl, queue))
    as ([fl' q'] & E & Hq & Hl' & Hsame & Hok).
  - intros pre [c v] [fl1 q1] Hpre (Hq1 & Hl1 & Hsame & Hok). cbn [fst snd] in *. subst q1.
    assert (forall x, x ∈ pre ++ [(c, v)] -> x ∈ children_of n) as Hsub.
    { intros x Hx. destruct Hpre as [k ->]. apply elem_of_app. by left. }
    assert (labs !! v = Some (p ++ [c])) as Hv by (apply (children_spec u n p); [done..|]; apply Hsub; set_solver).
    destruct (visit_child_ok u p c v fl1 (queue ++ pre.*2)) as (fl2 & -> & Hl2 & Hsame2 & Hok2); [done..| | |].
    { intros i q Hi Hq Hd. rewrite Hsame; [by apply Hf|].
      intros ([c' v'] & -> & Hin)%list_elem_of_fmap.
      assert (labs !! v' = Some (p ++ [c'])) as Hv'
        by (apply (children_spec u n p); [done..|]; apply Hsub, elem_of_app; by left).
      simpl in Hi. rewrite Hi in Hv'. injection Hv' as ->. rewrite length_app in Hd. simpl in Hd. lia. }
    { intros ->. destruct (decide (v ∈ pre.*2)) as [([c' v'] & -> & Hin)%list_elem_of_fmap|Hnot].
      - assert (labs !! v' = Some [c']) as Hv' by (apply (children_spec u n []); [done..|]; apply Hsub, elem_of_app; by left).
        destruct (Hok c' v' Hin) as (j & r & Ej & Hr & Hlr). simpl in *. rewrite Ej. f_equal.
        pose proof (suffix_nil_inv _ (longest_suffix _ _ _ Hlr)) as ->. by apply (rep_zero H j []).
      - rewrite Hsame by done. by apply (H0 eq_refl c). }
    exists (fl2, (queue ++ pre.*2) ++ [v]). split; [done|]. simpl. rewrite fmap_app. split_and!.
    + by rewrite <- app_assoc.
    + done.
    + intros i Hi. rewrite Hsame2 by set_solver. apply Hsame. set_solver.
    + intros c' v' [Hin|[= -> ->]%list_elem_of_singleton]%elem_of_app; [|done].
      destruct (decide (v' = v)) as [->|Hne].
      * assert (labs !! v = Some (p ++ [c'])) as Hv' by (apply (children_spec u n p); [done..|]; apply Hsub, elem_of_app; by left).
        rewrite Hv' in Hv. injection Hv as E. by rewrite E.
      * destruct (Hok c' v' Hin) as (j & r & ? & ?). exists j, r. by rewrite Hsame2.
  - simpl. rewrite app_nil_r. split_and!; [done..|]. intros c v []%not_elem_of_nil.
  - simpl in *. subst q'. exists fl'. auto.
Qed.

Definition dep (i : nat) : nat := length (default [] (labs !! i)).

Lemma dep_eq i p : labs !! i = Some p -> dep i = length p.
Proof. intros E. unfold dep. by rewrite E. Qed.

(** What holds between two rounds: [order ++ queue] are distinct nodes in the
    order of depth, two depths at most in the queue, closed under parents and the
    children of [order], with their failure links. *)
Record bfs_inv (fl order queue : list nat) : Prop := {
  bfs_length : length fl = length ns;
  bfs_nodup : NoDup (order ++ queue);
  bfs_range : forall i, i ∈ order ++ queue -> is_Some (labs !! i);
  bfs_root : 0%nat ∈ order ++ queue;
  bfs_child : forall i p c j, i ∈ order -> labs !! i = Some p -> labs !! j = Some (p ++ [c]) -> j ∈ order ++ queue;
  bfs_parent : forall j p c, j ∈ order ++ queue -> labs !! j = Some (p ++ [c]) ->
    exists i, i ∈ order /\ labs !! i = Some p;
  bfs_sorted : StronglySorted (fun i j => dep i <= dep j)%nat (order ++ queue);
  bfs_queue : forall i j, i ∈ queue -> j ∈ queue -> (dep j <= S (dep i))%nat;
  bfs_fail : forall i p, i ∈ order ++ queue -> labs !! i = Some p -> p <> [] -> link_ok fl i p;
  bfs_fresh : 0%nat ∈ queue -> forall c v, labs !! v = Some [c] -> fl !! v = Some 0%nat;
}.

(** All nodes that are no deeper than the queue have been reached. *)
Lemma bfs_levels fl order queue i p :
  bfs_inv fl order queue -> labs !! i = Some p -> (forall j, j ∈ queue -> length p <= dep j)%nat ->
  i ∈ order ++ queue.
Proof.
  intros HI. revert i. induction p as [|c p IH] using rev_ind; intros i Hi Hq.
  - apply (rep_zero H) in Hi as [_ Hi]. rewrite Hi by done. apply HI.
  - rewrite length_app in Hq. simpl in Hq.
    assert (p ∈ labs) as [k Hk]%list_elem_of_lookup by (eapply rep_closed; [done|]; by eapply list_elem_of_lookup_2).
    assert (k ∈ order ++ queue) as [Hko|Hkq]%elem_of_app.
    { apply IH; [done|]. intros j Hj. specialize (Hq j Hj). lia. }
    + by eapply (bfs_child _ _ _ HI k p c).
    + specialize (Hq k Hkq). rewrite (dep_eq k p Hk) in Hq. lia.
Qed.

(** One round keeps the invariant. *)
Lemma bfs_step fl order u queue n :
  bfs_inv fl order (u :: queue) -> ns !! u = Some n ->
  exists fl', foldM (visit_child ns u) (fl, queue) (children_of n) = Ok (fl', queue ++ (children_of n).*2) /\
    bfs_inv fl' (order ++ [u]) (queue ++ (children_of n).*2).
Proof.
  intros HI Hn. set (L := order ++ u :: queue).
  assert (u ∈ L) as HuL by set_solver.
  destruct (bfs_range _ _ _ HI u HuL) as [p Hu].
  assert (forall j, j ∈ u :: queue -> length p <= dep j)%nat as Hmin.
  { pose proof (bfs_sorted _ _ _ HI) as Hs. apply StronglySorted_app in Hs as (_ & _ & Hs).
    apply StronglySorted_inv in Hs as [_ Hs]. rewrite Forall_forall in Hs.
    intros j [->|Hj]%elem_of_cons; rewrite <- (dep_eq u p Hu); [done | auto]. }
  assert (forall i q, labs !! i = Some q -> (length q <= length p)%nat -> i ∈ L) as Hlev.
  { intros i q Hi Hq. apply (bfs_levels fl order (u :: queue) i q); [done..|].
    intros j Hj. specialize (Hmin j Hj). lia. }
  assert (forall c v, labs !! v = Some (p ++ [c]) -> v ∉ L) as Hnew.
  { intros c v Hv HvL. destruct (bfs_parent _ _ _ HI v p c HvL Hv) as (i & Hi & Hip).
    rewrite (rep_inj H i u p) in Hi by done. pose proof (bfs_nodup _ _ _ HI) as Hnd.
    apply NoDup_app in Hnd as (_ & Hnd & _). apply (Hnd u Hi). left. }
  destruct (visit_ok u n p fl queue) as (fl' & E & Hl' & Hsame & Hok); [done|done|apply HI | | |].
  { intros i q Hi Hq Hd. apply HI; [by eapply Hlev | done..]. }
  { intros -> c v Hv. eapply (bfs_fresh _ _ _ HI); [|done]. apply (rep_zero H) in Hu as [_ ->]; [left|done]. }
  exists fl'. split; [done|].
  assert ((order ++ [u]) ++ queue ++ (children_of n).*2 = L ++ (children_of n).*2) as EL.
  { unfold L. rewrite <- !app_assoc. done. }
  pose proof (fun v => children_in u n p v Hn Hu) as Hch.
  split; rewrite ?EL; try done.
  - apply NoDup_app. split_and!; [apply HI | | by eapply children_nodup].
    intros v HvL [c Hv]%Hch. by eapply Hnew.
  - intros i [Hi|[c Hi]%Hch]%elem_of_app; [by apply HI | by eexists].
  - apply elem_of_app. left. apply HI.
  - intros i q c j [Hi|Hi%list_elem_of_singleton]%elem_of_app Hiq Hj; apply elem_of_app.
    + left. by eapply (bfs_child _ _ _ HI i).
    + right. subst i. apply Hch. rewrite Hu in Hiq. injection Hiq as <-. by exists c.
  - intros j q c [Hj|[d Hj]%Hch]%elem_of_app Hjq.
    + destruct (bfs_parent _ _ _ HI j q c Hj Hjq) as (i & ? & ?). exists i. set_solver.
    + rewrite Hj in Hjq. injection Hjq as Hq. apply app_inj_tail in Hq as [<- _]. exists u. set_solver.
  - apply StronglySorted_app. split_and!; [ | apply HI | ].
    + intros i v Hi [c Hv]%Hch. rewrite (dep_eq v _ Hv), length_app. simpl.
      assert (dep i <= S (dep u))%nat; [|rewrite (dep_eq u p Hu) in *; lia].
      apply elem_of_app in Hi as [Hi|Hi]; [|apply (bfs_queue _ _ _ HI u i); [left | done]].
      pose proof (bfs_sorted _ _ _ HI) as Hs. apply StronglySorted_app in Hs as (Hs & _).
      specialize (Hs i u Hi). cbv beta in Hs. assert (dep i <= dep u)%nat by (apply Hs; left). lia.
    + apply StronglySorted_const. intros i j [c Hi]%Hch [d Hj]%Hch.
      rewrite (dep_eq _ _ Hi), (dep_eq _ _ Hj), !length_app. simpl. lia.
  - assert (forall i, i ∈ queue ++ (children_of n).*2 -> length p <= dep i <= S (length p))%nat as Hb.
    { intros i [Hi|[c Hi]%Hch]%elem_of_app.
      - split; [apply Hmin; by right|]. rewrite <- (dep_eq u p Hu). apply (bfs_queue _ _ _ HI); [left | by right].
      - rewrite (dep_eq _ _ Hi), length_app. simpl. lia. }
    intros i j Hi Hj. apply Hb in Hi, Hj. lia.
  - intros i q [Hi|Hi]%elem_of_app Hiq Hq.
    + destruct (bfs_fail _ _ _ HI i q Hi Hiq Hq) as (j & r & Hj & ?). exists j, r. rewrite Hsame; [done|].
      intros [c Hc]%Hch. by eapply Hnew.
    + apply list_elem_of_fmap in Hi as ([c v] & -> & Hcv). simpl in Hiq.
      pose proof Hcv as Hv. apply (children_spec u n p) in Hv; [|done..]. rewrite Hv in Hiq.
      injection Hiq as <-. by apply (Hok c v).
  - intros [H0|[c H0]%Hch]%elem_of_app; exfalso.
    + assert (p = []) as ->.
      { assert (length p <= dep 0)%nat as Hm by (apply Hmin; by right).
        rewrite (dep_eq 0 [] (rep_root _ _ _ H)) in Hm. destruct p; simpl in *; [done|lia]. }
      apply (rep_zero H) in Hu as [_ Hu]. rewrite Hu in * by done.
      pose proof (bfs_nodup _ _ _ HI) as Hnd. apply NoDup_app in Hnd as (_ & _ & Hnd).
      by apply NoDup_cons in Hnd as [Hnd _].
    + rewrite (rep_root _ _ _ H) in H0. injection H0 as H0. by destruct p.
Qed.

Lemma bfs_init : bfs_inv (replicate (length ns) 0%nat) [] [0%nat].
Proof.
  pose proof (rep_root _ _ _ H) as H0. split; simpl; try set_solver.
  - apply length_replicate.
  - apply NoDup_singleton.
  - intros j p c ->%list_elem_of_singleton E. rewrite H0 in E. injection E as E. by destruct p.
  - repeat constructor.
  - intros _ c v Hv%lookup_lt_Some. apply lookup_replicate. split; [done|].
    by rewrite <- (rep_length _ _ _ H).
Qed.

Lemma bfs_count fl order queue : bfs_inv fl order queue -> (length (order ++ queue) <= length ns)%nat.
Proof.
  intros HI. rewrite <- (length_seq (length ns) 0).
  apply submseteq_length, NoDup_submseteq; [apply HI|]. intros i Hi.
  destruct (bfs_range _ _ _ HI i Hi) as [p Hp%lookup_lt_Some].
  apply elem_of_seq. rewrite <- (rep_length _ _ _ H). lia.
Qed.

(** The pass ends, after one round for each node. *)
Lemma bfs_ok fuel fl order queue :
  bfs_inv fl order queue -> (length ns < length order + fuel)%nat ->
  exists fl' order', bfs fuel ns fl order queue = Ok (fl', order') /\ bfs_inv fl' order' [].
Proof.
  revert fl order queue. induction fuel as [|fuel IH]; intros fl order queue HI Hf.
  - pose proof (bfs_count _ _ _ HI) as Hc. rewrite length_app in Hc. lia.
  - destruct queue as [|u queue]; cbn [bfs]; [by exists fl, order|].
    destruct (bfs_range _ _ _ HI u) as [p Hu]; [set_solver|]. destruct (rep_node H u p Hu) as [n Hn].
    destruct (bfs_step fl order u queue n HI Hn) as (fl' & E & HI').
    rewrite (at_lookup _ _ _ Hn). bind_simpl. rewrite E. bind_simpl. apply IH; [done|].
    rewrite length_app. simpl. lia.
Qed.

Lemma bfs_all fl order i p : bfs_inv fl order [] -> labs !! i = Some p -> i ∈ order.
Proof.
  intros HI Hi. rewrite <- (app_nil_r order). apply (bfs_levels fl order [] i p HI Hi).
  intros j []%not_elem_of_nil.
Qed.

Lemma bfs_fail_ok fl order d : bfs_inv fl order [] -> fail_ok labs fl d.
Proof.
  intros HI i p Hi Hp _. apply (bfs_fail _ _ _ HI); [|done..]. apply elem_of_app. left. by eapply bfs_all.
Qed.

(** * The longest word of each state *)

(** A node at less depth than [u] comes before it. *)
Lemma order_before fl pre u post i :
  bfs_inv fl (pre ++ u :: post) [] -> is_Some (labs !! i) -> (dep i < dep u)%nat -> i ∈ pre.
Proof.
  intros HI [p Hi] Hd. pose proof (bfs_all _ _ i p HI Hi) as Hin.
  pose proof (bfs_sorted _ _ _ HI) as Hs. rewrite app_nil_r in Hs.
  apply StronglySorted_app in Hs as (_ & _ & Hs). apply StronglySorted_inv in Hs as [_ Hs].
  rewrite Forall_forall in Hs.
  apply elem_of_app in Hin as [?|[->|Hin]%elem_of_cons]; [done|lia|]. apply Hs in Hin. lia.
Qed.

Lemma match_state_ok fl pre u post m :
  bfs_inv fl (pre ++ u :: post) [] -> length m = length ns ->
  (forall i p, i ∈ pre -> labs !! i = Some p -> exists x, m !! i = Some x /\ longest_match ws p x) ->
  exists m' x p, match_state ns fl m u = Ok m' /\ m' = <[u := x]> m /\ labs !! u = Some p /\
    (u < length ns)%nat /\ longest_match ws p x.
Proof.
  intros HI Hl Hm. destruct (bfs_range _ _ _ HI u) as [p Hu]; [set_solver|].
  destruct (pattern_ok H u p Hu) as (n & Hn & Hp).
  assert (u < length ns)%nat as Hlt by by apply lookup_lt_Some in Hn.
  unfold match_state, set_at. rewrite (at_lookup _ _ _ Hn). bind_simpl.
  destruct (at_exists (E := trie_error) m u) as [y Hy]; [lia|].
  destruct Hp as [[-> Hp]|(k & -> & Hk)].
  - destruct (Nat.eqb_spec u 0) as [->|Hz]; simpl.
    + rewrite Hy. bind_simpl. exists (<[0%nat := -1]> m), (-1), p. split_and!; try done. constructor.
      apply (rep_zero H) in Hu as [Hu _]. rewrite Hu in * by done.
      intros w Hw ->%suffix_nil_inv. done.
    + assert (p <> []) as Hne by (intros ->; by apply Hz, (rep_zero H u [])).
      destruct (bfs_fail_ok _ _ (length p) HI u p Hu Hne) as (f & r & Ef & Hr & Hlr); [done|].
      pose proof (suffix_length _ _ (longest_suffix _ _ _ Hlr)) as Hlen.
      destruct (Hm f r) as (x & Ex & Hx); [|done|].
      { eapply order_before; [done|by eexists|]. rewrite (dep_eq f r Hr), (dep_eq u p Hu).
        destruct p; simpl in *; [done|lia]. }
      rewrite (at_lookup _ _ _ Ef). bind_simpl. rewrite (at_lookup _ _ _ Ex). bind_simpl. rewrite Hy. bind_simpl.
      exists (<[u := x]> m), x, p. split_and!; try done. apply longest_match_tail; [done|].
      eapply longest_match_longest; [apply H|done..].
  - destruct (Z.leb_spec 0 (Z.of_nat k)) as [_|?]; [|lia]. bind_simpl. rewrite Hy. bind_simpl.
    exists (<[u := Z.of_nat k]> m), (Z.of_nat k), p. split_and!; try done.
    apply (match_word _ _ k p); [done..|]. intros v _ Hv. by apply suffix_length.
Qed.

Lemma match_states_ok fl order :
  bfs_inv fl order [] ->
  exists m, foldM (match_state ns fl) (replicate (length ns) (-1)) order = Ok m /\
    (forall i p, labs !! i = Some p -> exists x, m !! i = Some x /\ longest_match ws p x).
Proof.
  intros HI.
  destruct (foldM_total (fun pre m => length m = length ns /\
    forall i p, i ∈ pre -> labs !! i = Some p -> exists x, m !! i = Some x /\ longest_match ws p x)
    (match_state ns fl) order (replicate (length ns) (-1))) as (m & E & _ & Hm).
  - intros pre u m [post Hpost] [Hl Hm]. rewrite <- app_assoc in Hpost. simpl in Hpost. subst order.
    destruct (match_state_ok fl pre u post m HI Hl Hm) as (m' & x & p & E & -> & Hu & Hlt & Hx).
    exists (<[u := x]> m). split; [done|]. split; [by rewrite length_insert|].
    intros i q Hi Hq. destruct (decide (i = u)) as [->|Hne].
    + exists x. rewrite list_lookup_insert_eq by lia. rewrite Hu in Hq. by injection Hq as <-.
    + rewrite list_lookup_insert_ne by done. apply Hm; [|done]. set_solver.
  - split; [apply length_replicate|]. intros i p []%not_elem_of_nil.
  - exists m. split; [done|]. intros i p Hi. apply Hm; [|done]. by eapply bfs_all.
Qed.
End Trans.

(** * The automaton *)

(** [i] is the state of an automaton for [ws] that has read [s]. *)
Record automaton (ac : common_aho_corasick) (labs ws : list (list Z)) : Prop := {
  automaton_rep : rep (t ac) labs ws;
  automaton_fail : forall d, fail_ok labs (fail ac) d;
  automaton_match : forall i p, labs !! i = Some p -> exists x, matches ac !! i = Some x /\ longest_match ws p x;
}.

Definition state_of (labs : list (list Z)) (s : list Z) (i : nat) : Prop :=
  exists p, labs !! i = Some p /\ longest labs s p.

(** What a client needs of an automaton for the words [ws]: the states after a
    text, from the initial one, with their longest words. *)
Record recognises (ac : common_aho_corasick) (ws : list (list Z)) (after : list Z -> nat -> Prop) : Prop := {
  recognises_start : after [] 0%nat;
  recognises_next : forall s i c, after s i -> exists j, next ac i c = Ok j /\ after (s ++ [c]) j;
  recognises_match : forall s i, after s i -> exists m, match_pattern ac i = Ok m /\ longest_match ws s m;
}.

Lemma automaton_recognises ac labs ws :
  automaton ac labs ws -> recognises ac ws (state_of labs).
Proof.
  intros [H Hf Hm]. split.
  - exists []. split; [apply H | apply (longest_nil H)].
  - intros s i c (p & Hi & Hp). unfold next.
    destruct (trans_ok H (fail ac) (length p) i s p c) as (f & o & q & -> & Eo & Hq & Hlong); [auto|done..|].
    bind_simpl. rewrite Eo. bind_simpl. exists (default 0%nat o). split; [done|]. by exists q.
  - intros s i (p & Hi & Hp). destruct (Hm i p Hi) as (x & Ex & Hx). exists x.
    split; [by apply at_lookup|]. eapply longest_match_longest; [apply H | done..].
Qed.

Lemma aho_corasick_ok t ws :
  holds t ws -> exists ac after, aho_corasick t = Ok ac /\ alphabet ac = alphabet_of (nodes t) /\ recognises ac ws after.
Proof.
  intros (labs & H & _). unfold aho_corasick.
  destruct (bfs_ok H (S (length (nodes t))) _ _ _ (bfs_init H)) as (fl & order & -> & HI); [simpl; lia|].
  bind_simpl. cbn [fst snd]. destruct (match_states_ok H fl order HI) as (m & -> & Hm). bind_simpl.
  eexists _, (state_of labs). split; [done|]. split; [done|]. apply automaton_recognises. split; [done| |done].
  intros d. by apply (bfs_fail_ok H fl order).
Qed.

Lemma run_ok ac ws after s s0 i :
  recognises ac ws after -> after s0 i -> exists j, run ac i s = Ok j /\ after (s0 ++ s) j.
Proof.
  intros HR. revert s0 i. induction s as [|c s IH]; intros s0 i Hi; unfold run; cbn [foldM].
  - exists i. by rewrite app_nil_r.
  - destruct (recognises_next _ _ _ HR _ _ c Hi) as (j & -> & Hj). bind_simpl.
    destruct (IH _ _ Hj) as (k & Ek & Hk). exists k. by rewrite <- app_assoc in Hk.
Qed.

(** A symbol of a word is the end of a path. *)
Lemma alphabet_ok t labs ws c :
  rep t labs ws -> minimal labs ws ->
  c ∈ alphabet_of (nodes t) <-> exists w, w ∈ ws /\ c ∈ w.
Proof.
  intros H Hmin. unfold alphabet_of. rewrite elem_of_union_list. split.
  - intros (X & (n & -> & Hn)%list_elem_of_fmap & [j Hj]%elem_of_dom).
    apply list_elem_of_lookup in Hn as [i Hn].
    assert (is_Some (labs !! i)) as [p Hp].
    { apply lookup_lt_is_Some. rewrite (rep_length _ _ _ H). by eapply lookup_lt_Some. }
    apply (rep_child _ _ _ H i n p) in Hj; [|done..]. apply list_elem_of_lookup_2 in Hj.
    destruct (Hmin _ Hj) as [E|(w & Hw & [k ->])]; [by destruct p|]. exists (p ++ [c] ++ k).
    rewrite <- app_assoc in Hw. split; [done | set_solver].
  - intros (w & Hw & (p & k & ->)%list_elem_of_split).
    assert (p ++ [c] ∈ labs) as Hpc.
    { eapply rep_prefix; [done | by eapply rep_words | exists k; by rewrite <- app_assoc]. }
    pose proof (rep_closed _ _ _ H _ _ Hpc) as [i Hi]%list_elem_of_lookup.
    apply list_elem_of_lookup in Hpc as [j Hj].
    destruct (rep_node H i p Hi) as [n Hn]. exists (dom (children n)). split.
    + apply list_elem_of_fmap. exists n. split; [done|]. by eapply list_elem_of_lookup_2.
    + apply elem_of_dom. exists j. by apply (rep_child _ _ _ H i n p).
Qed.

(** C22: The automaton of a trie is built: the breadth-first pass terminates and
    stays in range, and the alphabet is the symbols of the words. Reading any text
    from the initial state never fails, and the state reached reports the index of
    the longest word that ends the text, or -1 exactly when no word ends it. *)
Theorem aho_corasick_longest_match t ws :
  holds t ws ->
  exists ac, aho_corasick t = Ok ac /\ (forall c, c ∈ alphabet ac <-> exists w, w ∈ ws /\ c ∈ w) /\
    forall s, exists i m, run ac 0 s = Ok i /\ match_pattern ac i = Ok m /\ longest_match ws s m.
Proof.
  intros H. destruct (aho_corasick_ok _ _ H) as (ac & after & E & Ea & HR).
  exists ac. split; [done|]. split; [|intros s].
  { intros c. rewrite Ea. destruct H as (labs & H & Hmin). by eapply alphabet_ok. }
  destruct (run_ok ac ws after s [] 0 HR (recognises_start _ _ _ HR)) as (i & Ei & Hi).
  destruct (recognises_match _ _ _ HR _ _ Hi) as (m & Em & Hm). eauto.
Qed.

Lemma aho_corasick_longest_match_witness :
  exists t, trie_of_words [[104; 101]; [115; 104; 101]; []] = Ok t /\ holds t [[104; 101]; [115; 104; 101]; []] /\
    exists ac, aho_corasick t = Ok ac /\
      (forall c, c ∈ alphabet ac <-> exists w, w ∈ [[104; 101]; [115; 104; 101]; []] /\ c ∈ w) /\
      forall s, exists i m, run ac 0 s = Ok i /\ match_pattern ac i = Ok m /\
        longest_match [[104; 101]; [115; 104; 101]; []] s m.
Proof.
  destruct (insert_all_ok empty_trie [] [[104; 101]; [115; 104; 101]; []] holds_empty) as (t & E & Ht).
  exists t. split; [exact E|]. split; [exact Ht | apply (aho_corasick_longest_match t); exact Ht].
Defined.

End TrieAho.
