(* ===== verification/ReasoningBudget.v ===== *)
(** The reasoning-budget sampler of src/common/reasoning-budget.cpp: the matcher of
    token sequences on the Aho-Corasick automaton of [Trie], the state of the
    sampler, and its operations as the sampler interface calls them.

    A [llama_token] is an [int32_t] as a [Z].  The vocabulary is given by its
    function from a token to its text ([common_token_to_piece]); a null pointer is
    [None].  The logits have any type with a value for minus infinity. *)

From S2P Require Import Prelude.
From S2P Require Import Unicode.
From S2P Require Import Trie.

Module ReasoningBudget.
Export Trie.

(** * Matching token sequences *)

Record token_matcher := Build_matcher {
  seqs : list (list Z);
  ac : common_aho_corasick;
  mstate : nat;
}.

Definition collect (seqs : list (list Z)) : list (list Z) :=
  foldl (fun res seq => if negb (bool_decide (seq = [])) && negb (bool_decide (seq ∈ res)) then res ++ [seq] else res)
    [] seqs.

Definition build_trie (seqs : list (list Z)) : M common_trie :=
  foldM (fun t seq => r ← insert_symbols t (u32 <$> seq); Ok r.1) empty_trie seqs.

(** The constructor of [token_matcher]. *)
Definition new_matcher (seqs : list (list Z)) : M token_matcher :=
  let seqs := collect seqs in
  t ← build_trie seqs;
  a ← aho_corasick t;
  Ok (Build_matcher seqs a 0).

Definition matcher_reset (m : token_matcher) : token_matcher := Build_matcher (seqs m) (ac m) 0.

(** [advance]: the matcher and the index of the longest sequence that ends here. *)
Definition advance (m : token_matcher) (token : Z) : M (token_matcher * Z) :=
  s ← next (ac m) (mstate m) (u32 token);
  p ← match_pattern (ac m) s;
  Ok (Build_matcher (seqs m) (ac m) (if 0 <=? p then 0%nat else s), p).

(** * The sampler *)

Inductive budget_state :=
| REASONING_BUDGET_IDLE
| REASONING_BUDGET_COUNTING
| REASONING_BUDGET_FORCING
| REASONING_BUDGET_WAITING_UTF8
| REASONING_BUDGET_DONE.

#[export] Instance budget_state_eq_dec : EqDecision budget_state.
Proof. solve_decision. Defined.

Record budget_ctx := Build_ctx {
  vocab : option (Z -> bytes);
  start_matcher : token_matcher;
  end_matcher : token_matcher;
  forced_tokens : list Z;
  budget : Z;
  remaining : Z;
  state : budget_state;
  force_pos : nat;
  end_match : Z;
}.

(** Assignments to the fields. *)
Definition with_start c x := Build_ctx (vocab c) x (end_matcher c) (forced_tokens c) (budget c) (remaining c)
  (state c) (force_pos c) (end_match c).
Definition with_end c x := Build_ctx (vocab c) (start_matcher c) x (forced_tokens c) (budget c) (remaining c)
  (state c) (force_pos c) (end_match c).
Definition with_remaining c x := Build_ctx (vocab c) (start_matcher c) (end_matcher c) (forced_tokens c) (budget c) x
  (state c) (force_pos c) (end_match c).
Definition with_state c x := Build_ctx (vocab c) (start_matcher c) (end_matcher c) (forced_tokens c) (budget c)
  (remaining c) x (force_pos c) (end_match c).
Definition with_pos c x := Build_ctx (vocab c) (start_matcher c) (end_matcher c) (forced_tokens c) (budget c)
  (remaining c) (state c) x (end_match c).
Definition with_match c x := Build_ctx (vocab c) (start_matcher c) (end_matcher c) (forced_tokens c) (budget c)
  (remaining c) (state c) (force_pos c) x.

(** [state = FORCING; force_pos = 0]. *)
Definition start_forcing (c : budget_ctx) : budget_ctx := with_pos (with_state c REASONING_BUDGET_FORCING) 0.

(** A start sequence was read: a fresh budget, or forcing at once without one. *)
Definition activate (c : budget_ctx) : budget_ctx :=
  let c := with_remaining (with_state c REASONING_BUDGET_COUNTING) (budget c) in
  if remaining c <=? 0 then start_forcing c else c.

(** Whether the text of the token ends with a complete character. *)
Definition utf8_complete (c : budget_ctx) (token : Z) : bool :=
  match vocab c with
  | Some piece => Unicode.common_utf8_is_complete (piece token)
  | None => true
  end.

Definition accept_idle (c : budget_ctx) (token : Z) : M budget_ctx :=
  r ← advance (start_matcher c) token;
  let c := with_start c r.1 in
  Ok (if 0 <=? r.2 then activate c else c).

Definition accept_counting (c : budget_ctx) (token : Z) : M budget_ctx :=
  r ← advance (end_matcher c) token;
  let c := with_end c r.1 in
  if 0 <=? r.2 then Ok (with_match (with_state c REASONING_BUDGET_DONE) r.2) else
  let complete := utf8_complete c token in
  match state c with
  | REASONING_BUDGET_WAITING_UTF8 =>
      Ok (if complete then with_end (start_forcing c) (matcher_reset (end_matcher c)) else c)
  | REASONING_BUDGET_COUNTING =>
      n ← int_ (remaining c - 1);
      let c := with_remaining c n in
      if n <=? 0 then
        if complete then Ok (with_end (start_forcing c) (matcher_reset (end_matcher c)))
        else Ok (with_end (with_state c REASONING_BUDGET_WAITING_UTF8) (matcher_reset (end_matcher c)))
      else Ok c
  | _ => Ok c
  end.

Definition accept_forcing (c : budget_ctx) (token : Z) : M budget_ctx :=
  r ← advance (end_matcher c) token;
  let c := with_pos (with_end c r.1) (S (force_pos c)) in
  if (length (forced_tokens c) <=? force_pos c)%nat
  then Ok (with_match (with_state c REASONING_BUDGET_DONE) r.2)
  else Ok c.

Definition accept_done (c : budget_ctx) (token : Z) : M budget_ctx :=
  r ← advance (start_matcher c) token;
  let c := with_start c r.1 in
  if 0 <=? r.2 then
    let c := with_remaining (with_state c REASONING_BUDGET_COUNTING) (budget c) in
    let c := with_match (with_end c (matcher_reset (end_matcher c))) (-1) in
    Ok (if remaining c <=? 0 then start_forcing c else c)
  else Ok c.

(** [common_reasoning_budget_accept]. *)
Definition accept (c : budget_ctx) (token : Z) : M budget_ctx :=
  match state c with
  | REASONING_BUDGET_IDLE => accept_idle c token
  | REASONING_BUDGET_COUNTING | REASONING_BUDGET_WAITING_UTF8 => accept_counting c token
  | REASONING_BUDGET_FORCING => accept_forcing c token
  | REASONING_BUDGET_DONE => accept_done c token
  end.

(** [common_reasoning_budget_apply] on the candidates. *)
Definition apply {logit} (neg_infinity : logit) (c : budget_ctx) (cur_p : list (Z * logit)) : list (Z * logit) :=
  if bool_decide (state c = REASONING_BUDGET_FORCING) then
    match forced_tokens c !! force_pos c with
    | None => cur_p
    | Some forced => (fun d => if negb (d.1 =? forced) then (d.1, neg_infinity) else d) <$> cur_p
    end
  else cur_p.

Definition reset (c : budget_ctx) : budget_ctx :=
  let c := with_remaining (with_state c REASONING_BUDGET_IDLE) (budget c) in
  let c := with_start c (matcher_reset (start_matcher c)) in
  let c := with_end c (matcher_reset (end_matcher c)) in
  with_match (with_pos c 0) (-1).

(** A copy: the context is a value. *)
Definition clone (c : budget_ctx) : budget_ctx := c.

Definition init_state (v : option (Z -> bytes)) (start_seqs end_seqs : list (list Z)) (forced : list Z)
    (bud : Z) (initial_state : budget_state) : M budget_ctx :=
  let initial_state :=
    if bool_decide (initial_state = REASONING_BUDGET_COUNTING) && (bud <=? 0)
    then REASONING_BUDGET_FORCING else initial_state in
  s ← new_matcher start_seqs;
  e ← new_matcher end_seqs;
  Ok (Build_ctx v s e forced bud bud initial_state 0 (-1)).

Definition init v start_seqs end_seqs forced bud initial_state : M budget_ctx :=
  init_state v start_seqs end_seqs forced bud initial_state.

(** The functions on a sampler that may be null. *)
Definition get_state (smpl : option budget_ctx) : budget_state :=
  match smpl with None => REASONING_BUDGET_IDLE | Some c => state c end.

Definition get_end_match (smpl : option budget_ctx) : M (option (list Z)) :=
  match smpl with
  | None => Ok None
  | Some c =>
      if end_match c <? 0 then Ok None
      else s ← at_ (seqs (end_matcher c)) (Z.to_nat (end_match c)); Ok (Some s)
  end.

Definition force_end (smpl : option budget_ctx) : option budget_ctx * bool :=
  match smpl with
  | None => (None, false)
  | Some c =>
      if bool_decide (forced_tokens c = []) then (Some c, false)
      else (Some (with_end (start_forcing c) (matcher_reset (end_matcher c))), true)
  end.

Definition forced_token_count (smpl : option budget_ctx) : nat :=
  match smpl with None => 0 | Some c => length (forced_tokens c) end.

Definition force (smpl : option budget_ctx) : option budget_ctx * bool :=
  match smpl with
  | None => (None, false)
  | Some c =>
      if negb (bool_decide (state c = REASONING_BUDGET_COUNTING)) then (Some c, false)
      else (Some (with_end (start_forcing c) (matcher_reset (end_matcher c))), true)
  end.

End ReasoningBudget.
