(* ===== verification/ReasoningBudgetWf.v ===== *)
(** The reasoning-budget sampler against an abstract machine that knows the texts
    read instead of automata: every operation refines a step of the machine, never
    fails, and the budget, the forced sequence and its end are as promised. *)

From S2P Require Import Prelude.
From S2P Require Import Unicode.
From S2P Require Import Trie.
From S2P Require Import TrieWf.
From S2P Require Import TrieAho.
From S2P Require Import ReasoningBudget.

Module ReasoningBudgetWf.
Import ReasoningBudget TrieWf TrieAho.

(** * Matchers *)

(** The conversion to [uint32_t]. *)
Definition symbols (l : list Z) : list Z := u32 <$> l.

Definition tokens (l : list Z) : Prop := Forall (fun x => in_i32 x = true) l.

Lemma u32_inj x y : in_i32 x = true -> in_i32 y = true -> u32 x = u32 y -> x = y.
Proof. rewrite !in_i32_spec. unfold u32. intros Hx Hy E. Z.div_mod_to_equations. lia. Qed.

Lemma tokens_app l k : tokens (l ++ k) <-> tokens l /\ tokens k.
Proof. apply Forall_app. Qed.

Lemma tokens_inj l k : tokens l -> tokens k -> symbols l = symbols k -> l = k.
Proof.
  intros Hl. revert k. induction Hl as [|x l Hx Hl IH]; intros [|y k] Hk E; try done.
  apply Forall_cons in Hk as [Hy Hk]. injection E as Exy E. f_equal; [by apply u32_inj | by apply IH].
Qed.

Lemma tokens_suffix w s : tokens w -> tokens s -> (symbols w) `suffix_of` (symbols s) -> w `suffix_of` s.
Proof.
  unfold symbols. intros Hw Hs [k Hk]. exists (take (length s - length w) s).
  assert (length s = length k + length w)%nat as Hl.
  { apply (f_equal length) in Hk. by rewrite length_app, !length_fmap in Hk. }
  rewrite <- (take_drop (length s - length w) s) at 1. f_equal. apply tokens_inj; [by apply Forall_drop | done|].
  unfold symbols. rewrite fmap_drop, Hk, drop_app_length'; [done | lia].
Qed.

(** The longest sequence that ends a text, if any. *)
Inductive ends_with (seqs : list (list Z)) (s : list Z) : option (list Z) -> Prop :=
| ends_none : (forall w, w ∈ seqs -> ~ w `suffix_of` s) -> ends_with seqs s None
| ends_some w : w ∈ seqs -> w `suffix_of` s ->
    (forall v, v ∈ seqs -> v `suffix_of` s -> (length v <= length w)%nat) -> ends_with seqs s (Some w).

(** [m] has sequences [sq] and has read [s] since its last reset or match. *)
Definition matcher_ok (sq : list (list Z)) (s : list Z) (m : token_matcher) : Prop :=
  seqs m = sq /\ Forall tokens sq /\ tokens s /\
  exists after, recognises (ac m) (symbols <$> sq) after /\ after (symbols s) (mstate m).

Lemma reset_ok sq s m : matcher_ok sq s m -> matcher_ok sq [] (matcher_reset m).
Proof.
  intros (Hs & Hsq & _ & after & HR & _). split_and!; [done | done | constructor|].
  exists after. split; [done | apply HR].
Qed.

(** The index the automaton reports, as a sequence. *)
Lemma ends_with_match sq s p :
  Forall tokens sq -> tokens s -> longest_match (symbols <$> sq) (symbols s) p ->
  p = -1 /\ ends_with sq s None \/ exists k w, p = Z.of_nat k /\ sq !! k = Some w /\ ends_with sq s (Some w).
Proof.
  intros Hsq Hs. rewrite Forall_forall in Hsq. intros [Hno|k w Hk Hw Hmax].
  - left. split; [done|]. constructor. intros w Hin [x ->].
    apply (Hno (symbols w)); [by apply list_elem_of_fmap_2|]. unfold symbols; rewrite fmap_app. by eexists.
  - right. apply list_lookup_fmap_Some in Hk as (v & -> & Hk). exists k, v. split_and!; [done..|].
    assert (v ∈ sq) as Hv by by eapply list_elem_of_lookup_2.
    constructor; [done | apply tokens_suffix; auto |]. intros v' Hin [x ->].
    specialize (Hmax (symbols v')). unfold symbols in Hmax. rewrite !length_fmap in Hmax. apply Hmax; [by apply list_elem_of_fmap_2|].
    unfold symbols; rewrite fmap_app. by eexists.
Qed.

Lemma advance_ok sq s m token :
  matcher_ok sq s m -> in_i32 token = true ->
  exists m' p o, advance m token = Ok (m', p) /\ ends_with sq (s ++ [token]) o /\
    match o with
    | None => p = -1 /\ matcher_ok sq (s ++ [token]) m'
    | Some w => exists k, p = Z.of_nat k /\ sq !! k = Some w /\ matcher_ok sq [] m'
    end.
Proof.
  intros (Hseq & Hsq & Hs & after & HR & Hst) Ht. unfold advance.
  assert (tokens (s ++ [token])) as Hs' by (apply tokens_app; split; [done | by apply Forall_singleton]).
  destruct (recognises_next _ _ _ HR _ _ (u32 token) Hst) as (j & -> & Hj). bind_simpl.
  destruct (recognises_match _ _ _ HR _ _ Hj) as (p & -> & Hp). bind_simpl.
  replace ((symbols s) ++ [u32 token]) with (symbols (s ++ [token])) in * by (unfold symbols; by rewrite fmap_app).
  destruct (ends_with_match sq (s ++ [token]) p Hsq Hs' Hp) as [[-> Ho]|(k & w & -> & Hk & Ho)].
  - eexists _, _, None. split_and!; [done..|]. split_and!; [done..|]. by exists after.
  - eexists _, _, (Some w). split_and!; [done..|]. exists k. split_and!; [done..|].
    destruct (Z.leb_spec 0 (Z.of_nat k)); [|lia]. split_and!; [done | done | constructor|].
    exists after. split; [done | apply HR].
Qed.

Lemma collect_spec_gen (sq res : list (list Z)) :
  NoDup res ->
  let r := foldl (fun res seq => if negb (bool_decide (seq = [])) && negb (bool_decide (seq ∈ res))
                                 then res ++ [seq] else res) res sq in
  NoDup r /\ forall w, w ∈ r <-> w ∈ res \/ w ∈ sq /\ w <> [].
Proof.
  revert res. induction sq as [|x sq IH]; intros res Hres; simpl; [split; [done|]; set_solver|].
  case_bool_decide as H1; [|case_bool_decide as H2]; simpl.
  - subst x. destruct (IH res Hres) as [? Hw]. split; [done|]. set_solver.
  - destruct (IH res Hres) as [? Hw]. split; [done|]. set_solver.
  - destruct (IH (res ++ [x])) as [? Hw].
    { apply NoDup_app. split_and!; [done | set_solver | apply NoDup_singleton]. }
    split; [done|]. set_solver.
Qed.

(** [collect] keeps the distinct sequences that are not empty. *)
Lemma collect_spec sq : NoDup (collect sq) /\ forall w, w ∈ collect sq <-> w ∈ sq /\ w <> [].
Proof. destruct (collect_spec_gen sq [] ltac:(constructor)) as [? Hw]. split; [done|]. set_solver. Qed.

Lemma foldl_add_word (sq ws : list (list Z)) : NoDup (ws ++ sq) -> foldl add_word ws sq = ws ++ sq.
Proof.
  revert ws. induction sq as [|x sq IH]; intros ws Hnd; simpl; [by rewrite app_nil_r|].
  unfold add_word at 2. rewrite bool_decide_eq_false_2.
  - rewrite IH; by rewrite <- app_assoc.
  - apply NoDup_app in Hnd as (_ & Hnd & _). intros Hx. apply (Hnd x Hx). left.
Qed.

Lemma new_matcher_ok sq :
  Forall tokens sq -> exists m, new_matcher sq = Ok m /\ matcher_ok (collect sq) [] m.
Proof.
  intros Hsq. destruct (collect_spec sq) as [Hnd Hin]. unfold new_matcher.
  destruct (insert_all_ok empty_trie [] (symbols <$> collect sq) holds_empty) as (t & Et & Ht).
  assert (Forall tokens (collect sq)) as Htok.
  { rewrite Forall_forall in Hsq |- *. intros w [Hw _]%Hin. auto. }
  rewrite foldl_add_word in Ht.
  2: { simpl. apply NoDup_fmap_2_strong; [|done]. rewrite Forall_forall in Htok.
       intros x y Hx Hy E. apply tokens_inj; auto. }
  assert (build_trie (collect sq) = Ok t) as ->.
  { rewrite <- Et. unfold build_trie, insert_all. generalize empty_trie. clear.
    induction (collect sq) as [|x l IH]; intros t0; [done|]. cbn [foldM fmap list_fmap].
    destruct (insert_symbols t0 _); [apply IH | done]. }
  bind_simpl. destruct (aho_corasick_ok _ _ Ht) as (a & after & -> & _ & HR). bind_simpl.
  eexists. split; [done|]. split_and!; [done | done | constructor|]. exists after. split; [done | apply HR].
Qed.

(** * The abstract machine *)

(** What is fixed when the sampler is created. *)
Record config := Config {
  starts : list (list Z);
  ends : list (list Z);
  forced : list Z;
  limit : Z;
  complete : Z -> bool;
}.

Inductive phase := Idle | Counting (n : Z) | Forcing (k : nat) | Waiting | Done.

(** The phase, the texts of the two matchers, and the sequence that ended the
    block. *)
Record machine := Machine {
  ph : phase;
  start_text : list Z;
  end_text : list Z;
  ended : option (list Z);
}.

Inductive op := Accept (token : Z) | Reset | ForceEnd | Force.

Definition exec (c : budget_ctx) (o : op) : M budget_ctx :=
  match o with
  | Accept token => accept c token
  | Reset => Ok (reset c)
  | ForceEnd => Ok (default c (force_end (Some c)).1)
  | Force => Ok (default c (force (Some c)).1)
  end.

Definition exec_all (c : budget_ctx) (l : list op) : M budget_ctx := foldM exec c l.

Section Machine.
Variable cfg : config.

(** The phase a new block starts in. *)
Definition armed : phase := if limit cfg <=? 0 then Forcing 0 else Counting (limit cfg).

Definition forced_left (k : nat) (o : option (list Z)) (a : machine) (s : list Z) : machine :=
  if (length (forced cfg) <=? S k)%nat
  then Machine Done (start_text a) (match o with Some _ => [] | None => s end) o
  else Machine (Forcing (S k)) (start_text a) (match o with Some _ => [] | None => s end) (ended a).

Inductive step (a : machine) : op -> machine -> Prop :=
| step_arm t w : ph a = Idle \/ ph a = Done -> ends_with (starts cfg) (start_text a ++ [t]) (Some w) ->
    step a (Accept t) (Machine armed [] [] None)
| step_watch t : ph a = Idle \/ ph a = Done -> ends_with (starts cfg) (start_text a ++ [t]) None ->
    step a (Accept t) (Machine (ph a) (start_text a ++ [t]) (end_text a) (ended a))
| step_natural t n w : ph a = Counting n \/ ph a = Waiting ->
    ends_with (ends cfg) (end_text a ++ [t]) (Some w) ->
    step a (Accept t) (Machine Done (start_text a) [] (Some w))
| step_count t n : ph a = Counting n -> 1 < n -> ends_with (ends cfg) (end_text a ++ [t]) None ->
    step a (Accept t) (Machine (Counting (n - 1)) (start_text a) (end_text a ++ [t]) (ended a))
| step_exhaust t n : ph a = Counting n -> n <= 1 -> ends_with (ends cfg) (end_text a ++ [t]) None ->
    step a (Accept t) (Machine (if complete cfg t then Forcing 0 else Waiting) (start_text a) [] (ended a))
| step_wait t : ph a = Waiting -> ends_with (ends cfg) (end_text a ++ [t]) None -> complete cfg t = false ->
    step a (Accept t) (Machine Waiting (start_text a) (end_text a ++ [t]) (ended a))
| step_waited t : ph a = Waiting -> ends_with (ends cfg) (end_text a ++ [t]) None -> complete cfg t = true ->
    step a (Accept t) (Machine (Forcing 0) (start_text a) [] (ended a))
| step_force t k o : ph a = Forcing k -> ends_with (ends cfg) (end_text a ++ [t]) o ->
    step a (Accept t) (forced_left k o a (end_text a ++ [t]))
| step_reset : step a Reset (Machine Idle [] [] None)
| step_force_end : forced cfg <> [] -> step a ForceEnd (Machine (Forcing 0) (start_text a) [] (ended a))
| step_force_end_no : forced cfg = [] -> step a ForceEnd a
| step_force_now n : ph a = Counting n -> step a Force (Machine (Forcing 0) (start_text a) [] (ended a))
| step_force_no : (forall n, ph a <> Counting n) -> step a Force a.

Definition phase_of (c : budget_ctx) (p : phase) : Prop :=
  match p with
  | Idle => state c = REASONING_BUDGET_IDLE
  | Counting n => state c = REASONING_BUDGET_COUNTING /\ remaining c = n /\ 0 < n <= limit cfg
  | Forcing k => state c = REASONING_BUDGET_FORCING /\ force_pos c = k
  | Waiting => state c = REASONING_BUDGET_WAITING_UTF8
  | Done => state c = REASONING_BUDGET_DONE
  end.

Definition match_of (m : Z) (o : option (list Z)) : Prop :=
  match o with
  | None => m = -1
  | Some w => exists k, m = Z.of_nat k /\ ends cfg !! k = Some w
  end.

(** The sampler [c] is in the state of the machine [a]. *)
Record sim (c : budget_ctx) (a : machine) : Prop := {
  sim_forced : forced_tokens c = forced cfg;
  sim_budget : budget c = limit cfg;
  sim_limit : in_i32 (limit cfg) = true;
  sim_complete : forall t, utf8_complete c t = complete cfg t;
  sim_start : matcher_ok (starts cfg) (start_text a) (start_matcher c);
  sim_end : matcher_ok (ends cfg) (end_text a) (end_matcher c);
  sim_phase : phase_of c (ph a);
  sim_match : match_of (end_match c) (ended a);
  sim_idle : ph a = Idle -> end_text a = [] /\ ended a = None;
}.

(** Reading a token outside of a block. *)
Lemma accept_watching c a token :
  sim c a -> in_i32 token = true -> ph a = Idle \/ ph a = Done ->
  exists c' a', accept c token = Ok c' /\ step a (Accept token) a' /\ sim c' a'.
Proof.
  intros [Hf Hb Hl Hc Hst He Hphase Hm Hi] Ht Hph.
  destruct (advance_ok _ _ _ _ Hst Ht) as (m' & p & o & E & Ho & Hp).
  destruct o as [w|].
  - destruct Hp as (k & -> & Hk & Hm').
    destruct Hph as [Hph|Hph]; rewrite Hph in Hphase; cbn in Hphase.
    + destruct (Hi Hph) as [Hen Hed]. exists (activate (with_start c m')), (Machine armed [] [] None).
      split_and!; [|by apply (step_arm a token w); auto|].
      * unfold accept, accept_idle. rewrite Hphase, E. bind_simpl. cbn [snd].
        destruct (Z.leb_spec 0 (Z.of_nat k)); [done|lia].
      * rewrite Hen in He. rewrite Hed in Hm. unfold activate, armed. cbn. rewrite Hb.
        destruct (Z.leb_spec (limit cfg) 0); split; cbn; try done; split_and!; done.
    + eexists _, (Machine armed [] [] None). split_and!; [|by apply (step_arm a token w); auto|].
      * unfold accept, accept_done. rewrite Hphase, E. bind_simpl. cbn [fst snd].
        destruct (Z.leb_spec 0 (Z.of_nat k)); [done|lia].
      * pose proof (reset_ok _ _ _ He) as He'. unfold armed. cbn. rewrite Hb.
        destruct (Z.leb_spec (limit cfg) 0); split; cbn; try done; split_and!; done.
  - destruct Hp as [-> Hm']. exists (with_start c m'), (Machine (ph a) (start_text a ++ [token]) (end_text a) (ended a)).
    split_and!; [|by apply step_watch|by split].
    destruct Hph as [Hph|Hph]; rewrite Hph in Hphase; cbn in Hphase; unfold accept, accept_idle, accept_done;
      rewrite Hphase, E; done.
Qed.

(** Reading a token inside a block. *)
Lemma accept_inside c a token n :
  sim c a -> in_i32 token = true -> ph a = Counting n \/ ph a = Waiting ->
  exists c' a', accept c token = Ok c' /\ step a (Accept token) a' /\ sim c' a'.
Proof.
  intros [Hf Hb Hl Hc Hst He Hphase Hm Hi] Ht Hph.
  destruct (advance_ok _ _ _ _ He Ht) as (m' & p & o & E & Ho & Hp).
  assert (accept c token = accept_counting c token) as ->.
  { unfold accept. destruct Hph as [Hph|Hph]; rewrite Hph in Hphase; cbn in Hphase;
      [by destruct Hphase as [-> _] | by rewrite Hphase]. }
  unfold accept_counting. rewrite E. bind_simpl. cbn [fst snd].
  destruct o as [w|].
  - destruct Hp as (k & -> & Hk & Hm'). destruct (Z.leb_spec 0 (Z.of_nat k)); [|lia].
    eexists _, (Machine Done (start_text a) [] (Some w)). split_and!; [done | by apply (step_natural a token n w) |].
    split; cbn; try done. by exists k.
  - destruct Hp as [-> Hm']. pose proof (reset_ok _ _ _ Hm') as Hr. simpl.
    assert (utf8_complete (with_end c m') token = complete cfg token) as -> by apply Hc.
    destruct Hph as [Hph|Hph]; rewrite Hph in Hphase; cbn in Hphase.
    + destruct Hphase as (Hsc & Hrem & Hn). cbn. rewrite Hsc, Hrem.
      assert (int_ (n - 1) = Ok (n - 1) :> M Z) as ->.
      { apply int_Ok. split; [|done]. apply in_i32_spec in Hl. apply in_i32_spec. lia. }
      bind_simpl. destruct (Z.leb_spec (n - 1) 0) as [Hle|Hgt].
      * exists (if complete cfg token
                then with_end (start_forcing (with_remaining (with_end c m') (n - 1))) (matcher_reset m')
                else with_end (with_state (with_remaining (with_end c m') (n - 1)) REASONING_BUDGET_WAITING_UTF8)
                       (matcher_reset m')).
        eexists. split_and!; [by destruct (complete cfg token) | apply (step_exhaust a token n); [done | lia | done] |].
        destruct (complete cfg token); by split.
      * eexists _, _. split_and!; [done | apply (step_count a token n); [done | lia | done] |].
        split; cbn; try done. split_and!; first [done | lia].
    + rewrite Hphase. destruct (complete cfg token) eqn:Ec.
      * eexists _, _. split_and!; [done | by apply step_waited | by split].
      * eexists _, _. split_and!; [done | by apply step_wait |]. split; cbn; done.
Qed.

(** Reading a token of the forced sequence. *)
Lemma accept_forced c a token k :
  sim c a -> in_i32 token = true -> ph a = Forcing k ->
  exists c' a', accept c token = Ok c' /\ step a (Accept token) a' /\ sim c' a'.
Proof.
  intros [Hf Hb Hl Hc Hst He Hphase Hm Hi] Ht Hph. rewrite Hph in Hphase. destruct Hphase as [Hs Hpos].
  destruct (advance_ok _ _ _ _ He Ht) as (m' & p & o & E & Ho & Hp).
  assert (matcher_ok (ends cfg) (match o with Some _ => [] | None => end_text a ++ [token] end) m') as Hm'.
  { destruct o; [destruct Hp as (? & _ & _ & ?) | destruct Hp as [_ ?]]; done. }
  assert (match_of p o) as Hmo.
  { destruct o; [destruct Hp as (x & ? & ? & _); by exists x | destruct Hp as [? _]; done]. }
  unfold accept. rewrite Hs. unfold accept_forcing. rewrite E. bind_simpl. cbn. rewrite Hf, Hpos.
  destruct (Nat.leb_spec (length (forced cfg)) (S k)) as [Hle|Hgt].
  - eexists _, _. split_and!; [done | by apply (step_force a token k o) |].
    unfold forced_left. destruct (Nat.leb_spec (length (forced cfg)) (S k)); [|lia]. by split.
  - eexists _, _. split_and!; [done | by apply (step_force a token k o) |].
    unfold forced_left. destruct (Nat.leb_spec (length (forced cfg)) (S k)); [lia|]. by split.
Qed.

(** The state a block is forced to end from. *)
Lemma forcing_sim c a : sim c a ->
  sim (with_end (start_forcing c) (matcher_reset (end_matcher c))) (Machine (Forcing 0) (start_text a) [] (ended a)).
Proof. intros [Hf Hb Hl Hc Hst He Hphase Hm Hi]. apply reset_ok in He. by split. Qed.

Lemma exec_sim c a o :
  sim c a -> (forall t, o = Accept t -> in_i32 t = true) ->
  exists c' a', exec c o = Ok c' /\ step a o a' /\ sim c' a'.
Proof.
  intros Hs Ho. pose proof (sim_phase _ _ Hs) as Hp. destruct o as [t| | |]; cbn [exec].
  - specialize (Ho t eq_refl). destruct (ph a) as [|n|k| |] eqn:E.
    + apply accept_watching; auto.
    + apply (accept_inside c a t n); auto.
    + by apply (accept_forced c a t k).
    + apply (accept_inside c a t 0); auto.
    + apply accept_watching; auto.
  - exists (reset c), (Machine Idle [] [] None). split_and!; [done | constructor |].
    destruct Hs as [Hf Hb Hl Hc Hst He _ _ _]. apply reset_ok in Hst, He. by split.
  - unfold force_end. case_bool_decide as Hf; cbn.
    + exists c, a. split_and!; [done | apply step_force_end_no; by rewrite <- (sim_forced _ _ Hs) | done].
    + eexists _, _. split_and!; [done | apply step_force_end; by rewrite <- (sim_forced _ _ Hs) | by apply forcing_sim].
  - unfold force. case_bool_decide as Hf; cbn.
    + destruct (ph a) as [|n|k| |] eqn:E; cbn in Hp; try (destruct Hp; congruence); try congruence.
      eexists _, _. split_and!; [done | by apply (step_force_now a n) | by apply forcing_sim].
    + exists c, a. split_and!; [done | apply step_force_no | done].
      intros n E. rewrite E in Hp. by destruct Hp as [? _].
Qed.

Lemma get_end_match_sim c a : sim c a -> get_end_match (Some c) = Ok (ended a).
Proof.
  intros Hs. pose proof (sim_match _ _ Hs) as Hm. unfold get_end_match.
  destruct (ended a) as [w|]; cbn in Hm; [|by rewrite Hm].
  destruct Hm as (k & -> & Hk). destruct (Z.ltb_spec (Z.of_nat k) 0); [lia|]. rewrite Nat2Z.id.
  destruct (sim_end _ _ Hs) as (-> & _). rewrite (at_lookup _ _ _ Hk). done.
Qed.

Lemma exec_all_sim c a l :
  sim c a -> Forall (fun o => forall t, o = Accept t -> in_i32 t = true) l ->
  exists c' a', exec_all c l = Ok c' /\ sim c' a'.
Proof.
  intros Hs Hl. revert c a Hs. induction Hl as [|o l Ho Hl IH]; intros c a Hs; [by exists c, a|].
  destruct (exec_sim c a o Hs Ho) as (c1 & a1 & E & _ & H1). unfold exec_all. cbn [foldM]. rewrite E. bind_simpl.
  by apply (IH c1 a1).
Qed.

(** * Progress *)

Definition accept_all (c : budget_ctx) (l : list Z) : M budget_ctx := foldM accept c l.

(** The tokens left before the end, when every token ends a character. *)
Definition left_to_force : nat := Nat.max 1 (length (forced cfg)).
Definition measure (a : machine) : nat :=
  match ph a with
  | Counting n => Z.to_nat n + left_to_force
  | Waiting => S left_to_force
  | Forcing k => Nat.max 1 (length (forced cfg) - k)
  | Idle | Done => 0
  end.

Definition inside (a : machine) : Prop :=
  match ph a with Counting n => 0 < n | Waiting | Forcing _ => True | Idle | Done => False end.

Lemma step_progress a t a' :
  inside a -> complete cfg t = true -> step a (Accept t) a' ->
  ph a' = Done \/ inside a' /\ (measure a' < measure a)%nat.
Proof.
  unfold inside, measure, left_to_force. intros Hin Hc Hs. inversion Hs; subst; cbn.
  - by destruct H0 as [E|E]; rewrite E in Hin.
  - by destruct H0 as [E|E]; rewrite E in Hin.
  - by left.
  - right. rewrite H0 in *. lia.
  - right. rewrite H0, Hc in *. split; [done|]. lia.
  - congruence.
  - right. rewrite H0 in *. split; [done|]. lia.
  - unfold forced_left. rewrite H0. destruct (Nat.leb_spec (length (forced cfg)) (S k)); cbn; [by left|].
    right. split; [done|]. lia.
Qed.

(** A block ends within [measure] tokens. *)
Lemma block_ends l c a :
  sim c a -> inside a -> tokens l -> Forall (fun t => complete cfg t = true) l -> (measure a <= length l)%nat ->
  exists pre c' a', pre `prefix_of` l /\ accept_all c pre = Ok c' /\ sim c' a' /\ ph a' = Done.
Proof.
  revert c a. induction l as [|t l IH]; intros c a Hs Hin Hl Hc Hm.
  - exfalso. revert Hin Hm. unfold inside, measure, left_to_force. destruct (ph a); simpl; lia.
  - apply Forall_cons in Hl as [Ht Hl]. apply Forall_cons in Hc as [Hct Hc].
    destruct (exec_sim c a (Accept t) Hs) as (c1 & a1 & E & Hstep & H1); [by intros ? [= <-]|].
    destruct (step_progress a t a1 Hin Hct Hstep) as [Hd|[Hin1 Hlt]].
    + exists [t], c1, a1. split_and!; [apply prefix_cons, prefix_nil | | done..].
      unfold accept_all. cbn [foldM exec] in *. rewrite E. done.
    + simpl in Hm. destruct (IH c1 a1) as (pre & c' & a' & Hpre & E' & H' & Hd); [done..|lia|].
      exists (t :: pre), c', a'. split_and!; [by apply prefix_cons | | done..].
      unfold accept_all in *. cbn [foldM exec] in *. rewrite E. done.
Qed.

Lemma sim_inside c a : sim c a -> ph a <> Idle -> ph a <> Done -> inside a.
Proof. intros Hs. pose proof (sim_phase _ _ Hs) as Hp. unfold inside. destruct (ph a); naive_solver. Qed.

(** The steps of the counting phase. *)
Lemma step_counting a t n a' :
  ph a = Counting n -> step a (Accept t) a' ->
  (exists w, ends_with (ends cfg) (end_text a ++ [t]) (Some w)) \/
  1 < n /\ a' = Machine (Counting (n - 1)) (start_text a) (end_text a ++ [t]) (ended a) \/
  n <= 1 /\ a' = Machine (if complete cfg t then Forcing 0 else Waiting) (start_text a) [] (ended a).
Proof.
  intros Hph Hs. inversion Hs; subst;
    repeat match goal with E : _ \/ _ |- _ => destruct E end; try congruence.
  - left. eauto.
  - right. left. assert (n0 = n) as -> by congruence. done.
  - right. right. assert (n0 = n) as -> by congruence. done.
Qed.

(** Tokens that end no block are counted. *)
Lemma counting_exact l c a n :
  sim c a -> ph a = Counting n -> tokens l -> Z.of_nat (length l) < n ->
  (forall pre w, pre `prefix_of` l -> pre <> [] -> w ∈ ends cfg -> ~ w `suffix_of` end_text a ++ pre) ->
  exists c' a', accept_all c l = Ok c' /\ sim c' a' /\ ph a' = Counting (n - Z.of_nat (length l)) /\
    end_text a' = end_text a ++ l.
Proof.
  revert c a n. induction l as [|t l IH]; intros c a n Hs Hph Hl Hn Hno.
  - exists c, a. rewrite app_nil_r, Z.sub_0_r. done.
  - apply Forall_cons in Hl as [Ht Hl]. simpl in Hn.
    destruct (exec_sim c a (Accept t) Hs) as (c1 & a1 & E & Hstep & H1); [by intros ? [= <-]|].
    destruct (step_counting a t n a1 Hph Hstep) as [[w Hw]|[[_ ->]|[? _]]]; [|cbn in *|lia].
    { exfalso. inversion Hw; subst. eapply (Hno [t]); [apply prefix_cons, prefix_nil | done..]. }
    destruct (IH _ _ (n - 1) H1) as (c' & a' & E' & H' & Hph' & He'); [done..|lia| |].
    { intros pre w Hpre Hne Hw. cbn. rewrite <- app_assoc. apply (Hno (t :: pre)); [by apply prefix_cons | done..]. }
    exists c', a'. split_and!; [|done| |].
    + unfold accept_all in *. cbn [foldM exec] in *. rewrite E. done.
    + rewrite Hph'. f_equal. simpl. lia.
    + rewrite He'. cbn. rewrite <- app_assoc. done.
Qed.

(** * The forced sequence *)

Lemma step_forcing a t k a' :
  ph a = Forcing k -> step a (Accept t) a' ->
  exists o, ends_with (ends cfg) (end_text a ++ [t]) o /\ a' = forced_left k o a (end_text a ++ [t]).
Proof.
  intros Hph Hs. inversion Hs; subst;
    repeat match goal with E : _ \/ _ |- _ => destruct E end; try congruence.
  assert (k0 = k) as -> by congruence. eauto.
Qed.

(** No end sequence is complete before the end of [l]. *)
Definition no_end (s l : list Z) : Prop :=
  forall pre w, pre `prefix_of` l -> pre <> [] -> w ∈ ends cfg -> ~ w `suffix_of` s ++ pre.

Lemma no_end_cons s t l : no_end s (t :: l) ->
  (forall o, ends_with (ends cfg) (s ++ [t]) o -> o = None) /\ no_end (s ++ [t]) l.
Proof.
  intros Hno. split.
  - intros o [?|w Hw Hsuf]; [done|]. exfalso.
    eapply (Hno [t]); [apply prefix_cons, prefix_nil | done | exact Hw | done].
  - intros pre w Hpre Hne Hw. rewrite <- app_assoc. apply (Hno (t :: pre)); [by apply prefix_cons | done..].
Qed.

Lemma forcing_run l c a k :
  sim c a -> ph a = Forcing k -> tokens l -> (k + length l < length (forced cfg))%nat ->
  exists c' a', accept_all c l = Ok c' /\ sim c' a' /\ ph a' = Forcing (k + length l) /\
    (no_end (end_text a) l -> end_text a' = end_text a ++ l).
Proof.
  revert c a k. induction l as [|t l IH]; intros c a k Hs Hph Hl Hk.
  - exists c, a. rewrite app_nil_r, Nat.add_0_r. done.
  - apply Forall_cons in Hl as [Ht Hl]. simpl in Hk.
    destruct (exec_sim c a (Accept t) Hs) as (c1 & a1 & E & Hstep & H1); [by intros ? [= <-]|].
    destruct (step_forcing a t k a1 Hph Hstep) as (o & Ho & ->). unfold forced_left in *.
    destruct (Nat.leb_spec (length (forced cfg)) (S k)); [lia|].
    destruct (IH _ _ (S k) H1) as (c' & a' & E' & H' & Hph' & He'); [done..|lia|].
    exists c', a'. split_and!; [|done| |].
    + unfold accept_all in *. cbn [foldM exec] in *. rewrite E. done.
    + rewrite Hph'. f_equal. simpl. lia.
    + intros [Hno Hno']%no_end_cons. rewrite (Hno o Ho) in *. cbn in He'. rewrite He' by done.
      by rewrite <- app_assoc.
Qed.

Lemma forcing_last c a k t :
  sim c a -> ph a = Forcing k -> in_i32 t = true -> length (forced cfg) = S k ->
  exists c' o, accept c t = Ok c' /\ state c' = REASONING_BUDGET_DONE /\
    get_end_match (Some c') = Ok o /\ ends_with (ends cfg) (end_text a ++ [t]) o.
Proof.
  intros Hs Hph Ht Hk.
  destruct (exec_sim c a (Accept t) Hs) as (c1 & a1 & E & Hstep & H1); [by intros ? [= <-]|].
  destruct (step_forcing a t k a1 Hph Hstep) as (o & Ho & ->). unfold forced_left in H1.
  destruct (Nat.leb_spec (length (forced cfg)) (S k)); [|lia].
  exists c1, o. split_and!; [done | apply (sim_phase _ _ H1) | apply (get_end_match_sim _ _ H1) | done].
Qed.

Lemma apply_forcing {logit} (neg_infinity : logit) c a k f cur_p :
  sim c a -> ph a = Forcing k -> forced cfg !! k = Some f ->
  apply neg_infinity c cur_p = (fun d => if d.1 =? f then d else (d.1, neg_infinity)) <$> cur_p.
Proof.
  intros Hs Hph Hf. pose proof (sim_phase _ _ Hs) as Hp. rewrite Hph in Hp. destruct Hp as [Hst Hpos].
  unfold apply. rewrite bool_decide_eq_true_2 by done. rewrite (sim_forced _ _ Hs), Hpos, Hf.
  apply list_fmap_ext. intros i d _. by destruct (d.1 =? f).
Qed.
End Machine.

(** * The sampler from its creation *)

Definition config_of (v : option (Z -> bytes)) (start_seqs end_seqs : list (list Z)) (forced : list Z) (bud : Z)
    : config :=
  Config (collect start_seqs) (collect end_seqs) forced bud
    (fun t => match v with Some piece => Unicode.common_utf8_is_complete (piece t) | None => true end).

Definition initial_phase (bud : Z) (s : budget_state) : phase :=
  match s with
  | REASONING_BUDGET_IDLE => Idle
  | REASONING_BUDGET_COUNTING => if bud <=? 0 then Forcing 0 else Counting bud
  | REASONING_BUDGET_FORCING => Forcing 0
  | REASONING_BUDGET_WAITING_UTF8 => Waiting
  | REASONING_BUDGET_DONE => Done
  end.

Lemma init_sim v start_seqs end_seqs forced bud s :
  Forall tokens start_seqs -> Forall tokens end_seqs -> in_i32 bud = true ->
  exists c, init v start_seqs end_seqs forced bud s = Ok c /\
    sim (config_of v start_seqs end_seqs forced bud) c (Machine (initial_phase bud s) [] [] None).
Proof.
  intros Hss Hes Hb. unfold init, init_state.
  destruct (new_matcher_ok start_seqs Hss) as (ms & -> & Hms). bind_simpl.
  destruct (new_matcher_ok end_seqs Hes) as (me & -> & Hme). bind_simpl.
  eexists. split; [done|]. split; cbn; try done.
  destruct s; cbn; try done. destruct (Z.leb_spec bud 0); cbn; split_and!; try done; lia.
Qed.

(** C23: A sampler created for token sequences and any initial state refines the
    abstract machine, whose matchers are the texts read so far: after any
    operations (tokens accepted, reset, forced end) the next one never fails and is
    a step of the machine, whatever the sequences, the budget, the forced tokens
    and the vocabulary; the sequence reported is the one that ended the block. *)
Theorem budget_refinement v start_seqs end_seqs forced bud s ops o :
  Forall tokens start_seqs -> Forall tokens end_seqs -> in_i32 bud = true ->
  Forall (fun o => forall t, o = Accept t -> in_i32 t = true) (ops ++ [o]) ->
  let cfg := config_of v start_seqs end_seqs forced bud in
  exists c0 c a c' a', init v start_seqs end_seqs forced bud s = Ok c0 /\
    exec_all c0 ops = Ok c /\ sim cfg c a /\ exec c o = Ok c' /\ step cfg a o a' /\ sim cfg c' a' /\
    get_end_match (Some c') = Ok (ended a').
Proof.
  intros Hss Hes Hb [Hops [Ho _]%Forall_cons]%Forall_app cfg.
  destruct (init_sim v start_seqs end_seqs forced bud s Hss Hes Hb) as (c0 & E0 & H0).
  destruct (exec_all_sim _ _ _ _ H0 Hops) as (c & a & E & H).
  destruct (exec_sim _ _ _ _ H Ho) as (c' & a' & E' & Hstep & H').
  exists c0, c, a, c', a'. split_and!; [done..|]. by eapply get_end_match_sim.
Qed.

Lemma budget_refinement_witness :
  let cfg := config_of None [[1; 2]] [[8; 9]; []] [7; 8; 9] 2 in
  exists c0 c a c' a', init None [[1; 2]] [[8; 9]; []] [7; 8; 9] 2 REASONING_BUDGET_IDLE = Ok c0 /\
    exec_all c0 [Accept 1; Accept 2; Accept 8] = Ok c /\ sim cfg c a /\ exec c (Accept 9) = Ok c' /\
    step cfg a (Accept 9) a' /\ sim cfg c' a' /\ get_end_match (Some c') = Ok (ended a').
Proof.
  assert (forall t, In t [1; 2; 8; 9] -> in_i32 t = true) as Ht.
  { intros t Ht. repeat destruct Ht as [<-|Ht]; done. }
  apply (budget_refinement None [[1; 2]] [[8; 9]; []] [7; 8; 9] 2 REASONING_BUDGET_IDLE
    [Accept 1; Accept 2; Accept 8] (Accept 9)); unfold tokens.
  - repeat constructor.
  - repeat constructor.
  - reflexivity.
  - repeat constructor; intros t [= <-]; reflexivity.
Defined.

(** C24: The budget is exact: in the counting phase with [n] tokens left, tokens
    that complete no end sequence are counted, so after [n - 1] of them the phase
    is still counting with one token left, and the next one starts the forced
    sequence when it ends a character and waits for the end of the character
    otherwise. *)
Theorem budget_exact cfg c a n l t :
  sim cfg c a -> ph a = Counting n -> tokens (l ++ [t]) -> Z.of_nat (length l) = n - 1 ->
  no_end cfg (end_text a) (l ++ [t]) ->
  exists c1 c2, accept_all c l = Ok c1 /\ state c1 = REASONING_BUDGET_COUNTING /\ remaining c1 = 1 /\
    accept c1 t = Ok c2 /\
    state c2 = (if complete cfg t then REASONING_BUDGET_FORCING else REASONING_BUDGET_WAITING_UTF8).
Proof.
  intros Hs Hph [Hl Ht]%tokens_app Hn Hno. apply Forall_inv in Ht.
  destruct (counting_exact cfg l c a n) as (c1 & a1 & E1 & H1 & Hph1 & He1); [done..|lia| |].
  { intros pre w Hpre. apply Hno. by apply prefix_app_r. }
  replace (n - Z.of_nat (length l)) with 1 in Hph1 by lia.
  pose proof (sim_phase _ _ _ H1) as Hp1. rewrite Hph1 in Hp1. destruct Hp1 as (Hst1 & Hr1 & _).
  destruct (exec_sim cfg c1 a1 (Accept t) H1) as (c2 & a2 & E2 & Hstep & H2); [by intros ? [= <-]|].
  exists c1, c2. split_and!; [done..|].
  destruct (step_counting cfg a1 t 1 a2 Hph1 Hstep) as [[w Hw]|[[? _]|[_ ->]]]; [|lia|].
  - exfalso. inversion Hw; subst. rewrite He1, <- app_assoc in *.
    eapply (Hno (l ++ [t])); [done | by destruct l | done..].
  - pose proof (sim_phase _ _ _ H2) as Hp2. cbn in Hp2. destruct (complete cfg t); apply Hp2.
Qed.

(** A sampler that has read a start sequence, for the witnesses. *)
Lemma example_sampler : exists c,
  init None [[1; 2]] [[8; 9]] [7; 8; 9] 2 REASONING_BUDGET_COUNTING = Ok c /\
  sim (config_of None [[1; 2]] [[8; 9]] [7; 8; 9] 2) c (Machine (Counting 2) [] [] None).
Proof. apply (init_sim None [[1; 2]] [[8; 9]] [7; 8; 9] 2 REASONING_BUDGET_COUNTING); repeat constructor. Qed.

Lemma budget_exact_witness : exists c c1 c2,
  init None [[1; 2]] [[8; 9]] [7; 8; 9] 2 REASONING_BUDGET_COUNTING = Ok c /\
  accept_all c [5] = Ok c1 /\ state c1 = REASONING_BUDGET_COUNTING /\ remaining c1 = 1 /\
  accept c1 9 = Ok c2 /\ state c2 = REASONING_BUDGET_FORCING.
Proof.
  destruct example_sampler as (c & E & Hs). exists c.
  assert (no_end (config_of None [[1; 2]] [[8; 9]] [7; 8; 9] 2) [] ([5] ++ [9])) as Hno.
  { intros pre w Hpre _ Hw. change (ends _) with [[8; 9]] in Hw. apply list_elem_of_singleton in Hw as ->.
    destruct Hpre as [k Hk]. intros [x Hx]. simpl in Hk, Hx. subst pre.
    destruct x as [|x1 [|x2 x]]; simpl in Hk; simplify_eq; by destruct x. }
  destruct (budget_exact _ c _ 2 [5] 9 Hs eq_refl ltac:(repeat constructor) eq_refl Hno)
    as (c1 & c2 & H1 & H2 & H3 & H4 & H5).
  exists c1, c2. split; [exact E|]. repeat (split; [assumption|]). exact H5.
Defined.

(** In the forcing phase the candidates are masked so that only the next
    token of the forced sequence keeps its logit, token after token in order;
    after the whole sequence the sampler is done, and when no end sequence is
    complete earlier it reports the longest end sequence that ends the forced
    tokens, or none. *)
Theorem budget_forcing cfg c a :
  sim cfg c a -> ph a = Forcing 0 -> end_text a = [] -> tokens (forced cfg) -> forced cfg <> [] ->
  (forall k f, forced cfg !! k = Some f -> exists ck, accept_all c (take k (forced cfg)) = Ok ck /\
    state ck = REASONING_BUDGET_FORCING /\
    forall (logit : Type) (neg_infinity : logit) cur_p, apply neg_infinity ck cur_p =
      (fun d => if d.1 =? f then d else (d.1, neg_infinity)) <$> cur_p) /\
  exists c' o, accept_all c (forced cfg) = Ok c' /\ state c' = REASONING_BUDGET_DONE /\
    get_end_match (Some c') = Ok o /\
    (no_end cfg [] (removelast (forced cfg)) -> ends_with (ends cfg) (forced cfg) o).
Proof.
  intros Hs Hph He Htok Hne. split.
  - intros k f Hf. pose proof (lookup_lt_Some _ _ _ Hf) as Hk.
    destruct (forcing_run cfg (take k (forced cfg)) c a 0) as (ck & ak & E & Hsk & Hpk & _); [done|done| | |].
    { by apply Forall_take. } { rewrite length_take. lia. }
    rewrite length_take_le in Hpk by lia. exists ck. split_and!; [done | |].
    + pose proof (sim_phase _ _ _ Hsk) as Hp. rewrite Hpk in Hp. apply Hp.
    + intros logit ninf cur_p. by apply (apply_forcing cfg ninf ck ak k f).
  - destruct (exists_last Hne) as (l & t & El). rewrite El in *.
    apply tokens_app in Htok as [Hl Ht%Forall_inv].
    destruct (forcing_run cfg l c a 0) as (c1 & a1 & E1 & H1 & Hp1 & He1); [done..| |].
    { rewrite El, length_app. simpl. lia. }
    destruct (forcing_last cfg c1 a1 (length l) t) as (c2 & o & E2 & Hst & Hget & Ho); [done..| |].
    { rewrite El, length_app. simpl. lia. }
    exists c2, o. split_and!; [|done..|].
    + unfold accept_all in *. rewrite foldM_app, E1. bind_simpl. cbn [foldM]. rewrite E2. done.
    + rewrite removelast_last. intros Hno. rewrite He in He1. rewrite He1 in Ho by done. done.
Qed.

Lemma budget_forcing_witness : exists c c',
  init None [[1; 2]] [[8; 9]] [7; 8; 9] 2 REASONING_BUDGET_FORCING = Ok c /\
  accept_all c [7; 8; 9] = Ok c' /\ state c' = REASONING_BUDGET_DONE.
Proof.
  destruct (init_sim None [[1; 2]] [[8; 9]] [7; 8; 9] 2 REASONING_BUDGET_FORCING
    ltac:(repeat constructor) ltac:(repeat constructor) eq_refl) as (c & E & Hs).
  destruct (budget_forcing _ c _ Hs eq_refl eq_refl ltac:(repeat constructor) ltac:(discriminate))
    as [_ (c' & o & E' & Hd & _)].
  exists c, c'. split; [exact E|]. split; [exact E' | exact Hd].
Defined.

(** C25: A block ends. When every token read ends a character ([complete]), the done phase is
    reached within [measure] tokens: while counting, the tokens left in the budget plus the
    forced sequence; while waiting for the end of a character, one more than the forced
    sequence; while forcing, what is left of it; where an empty forced sequence, or rest of
    it, counts as one token. *)
Theorem budget_block_ends cfg c a l :
  sim cfg c a -> ph a <> Idle -> ph a <> Done -> tokens l -> Forall (fun t => complete cfg t = true) l ->
  (measure cfg a <= length l)%nat ->
  exists pre c', pre `prefix_of` l /\ accept_all c pre = Ok c' /\ state c' = REASONING_BUDGET_DONE.
Proof.
  intros Hs Hi Hd Hl Hc Hm.
  destruct (block_ends cfg l c a Hs) as (pre & c' & a' & Hpre & E & H' & Hd'); [by eapply sim_inside | done..|].
  exists pre, c'. split_and!; [done..|]. pose proof (sim_phase _ _ _ H') as Hp. by rewrite Hd' in Hp.
Qed.

Lemma budget_block_ends_witness : exists c pre c',
  init None [[1; 2]] [[8; 9]] [7; 8; 9] 2 REASONING_BUDGET_COUNTING = Ok c /\
  pre `prefix_of` [5; 5; 5; 5; 5] /\ accept_all c pre = Ok c' /\ state c' = REASONING_BUDGET_DONE.
Proof.
  destruct example_sampler as (c & E & Hs). exists c.
  destruct (budget_block_ends _ c _ [5; 5; 5; 5; 5] Hs ltac:(discriminate) ltac:(discriminate)
    ltac:(repeat constructor) ltac:(repeat constructor) ltac:(cbv; lia)) as (pre & c' & H1 & H2 & H3).
  exists pre, c'. split; [exact E|]. split; [exact H1|]. split; [exact H2 | exact H3].
Defined.

(** A sampler that is done does not pass tokens through forever: another start
    sequence arms it again. *)
Lemma done_rearms : exists c c',
  init None [[1; 2]] [[8; 9]] [7; 8; 9] 2 REASONING_BUDGET_DONE = Ok c /\
  accept_all c [1; 2] = Ok c' /\ state c' = REASONING_BUDGET_COUNTING.
Proof. eexists _, _. split; [vm_compute; reflexivity|]. split; vm_compute; reflexivity. Qed.

(** A forced end keeps what the start matcher has read: tokens 1 and 2, with the
    forced sequence between them, arm the sampler although 1, 2 is not in the text. *)
Lemma force_end_keeps_start : exists c c',
  init None [[1; 2]] [[8; 9]] [7; 8; 9] 2 REASONING_BUDGET_IDLE = Ok c /\
  exec_all c [Accept 1; ForceEnd; Accept 7; Accept 8; Accept 9; Accept 2] = Ok c' /\
  state c' = REASONING_BUDGET_COUNTING.
Proof. eexists _, _. split; [vm_compute; reflexivity|]. split; vm_compute; reflexivity. Qed.

End ReasoningBudgetWf.
