(* ===== verification/JinjaLexer.v ===== *)
(** The lexer of chat templates (src/common/jinja/lexer.h and lexer.cpp): newline
    normalisation, the text between blocks with its trimming rules, comments,
    whitespace control, operators, string and number literals, identifiers.

    A source is a list of bytes.  [src[pos]] is defined up to [pos = size], where it
    is the terminating null of [std::string]; beyond it is an error of the model. *)

From Stdlib Require Import Ascii.
From S2P Require Import Prelude.

Module JinjaLexer.

Inductive token_type :=
| eof | text | numeric_literal | string_literal | identifier | equals | open_paren | close_paren
| open_statement | close_statement | open_expression | close_expression
| open_square_bracket | close_square_bracket | open_curly_bracket | close_curly_bracket
| comma | dot | colon | pipe | call_operator | additive_binary_operator
| multiplicative_binary_operator | comparison_binary_operator | unary_operator | comment.

#[export] Instance token_type_eq_dec : EqDecision token_type.
Proof. solve_decision. Defined.

Record token := Token { t : token_type; value : bytes; tpos : nat }.

(** The exceptions with their positions, and the undefined behaviours. *)
Inductive lexer_error :=
| EndAfterEscape (pos : nat)
| UnknownEscape (c : Z) (pos : nat)
| EndOfInput (pos : nat)
| MissingEndOfComment (pos : nat)
| UnexpectedCharacter (c : Z) (pos : nat)
| OutOfRange
| OutOfFuel.
#[export] Instance lexer_undef : Undef lexer_error := OutOfRange.
Abbreviation M := (result lexer_error).

Definition isspace (c : Z) : bool := ((9 <=? c) && (c <=? 13)) || (c =? 32).
Definition is_integer (c : Z) : bool := (48 <=? c) && (c <=? 57).
Definition isalpha (c : Z) : bool := ((65 <=? c) && (c <=? 90)) || ((97 <=? c) && (c <=? 122)).
Definition is_word (c : Z) : bool := is_integer c || isalpha c || (c =? ch "_").

Definition newline : Z := 10.
Definition carriage_return : Z := 13.
Definition backslash : Z := 92.
Definition single_quote : Z := 39.
Definition double_quote : Z := 34.

(** [escape_chars]. *)
Definition escape_chars : list (Z * Z) :=
  [(ch "n", 10); (ch "t", 9); (ch "r", 13); (ch "b", 8); (ch "f", 12); (ch "v", 11);
   (backslash, backslash); (single_quote, single_quote); (double_quote, double_quote)].

Definition escaped (c : Z) : option Z :=
  snd <$> (snd <$> list_find (fun p => p.1 = c) escape_chars).

Definition ordered_mapping_table : list (bytes * token_type) :=
  [(str "{%-", open_statement); (str "-%}", close_statement);
   (str "{{-", open_expression); (str "-}}", close_expression);
   (str "{%", open_statement); (str "%}", close_statement);
   (str "{{", open_expression); (str "}}", close_expression);
   (str "(", open_paren); (str ")", close_paren);
   (str "{", open_curly_bracket); (str "}", close_curly_bracket);
   (str "[", open_square_bracket); (str "]", close_square_bracket);
   (str ",", comma); (str ".", dot); (str ":", colon); (str "|", pipe);
   (str "<=", comparison_binary_operator); (str ">=", comparison_binary_operator);
   (str "==", comparison_binary_operator); (str "!=", comparison_binary_operator);
   (str "<", comparison_binary_operator); (str ">", comparison_binary_operator);
   (str "+", additive_binary_operator); (str "-", additive_binary_operator);
   (str "~", additive_binary_operator); (str "*", multiplicative_binary_operator);
   (str "/", multiplicative_binary_operator); (str "%", multiplicative_binary_operator);
   (str "=", equals)].

(** * Normalisation *)

(** CR LF to LF. *)
Fixpoint crlf_to_lf (s : bytes) : bytes :=
  match s with
  | c :: (d :: r) as s' =>
      if (c =? carriage_return) && (d =? newline) then d :: crlf_to_lf r else c :: crlf_to_lf s'
  | _ => s
  end.

(** The remaining CR to LF. *)
Definition cr_to_lf (s : bytes) : bytes := (fun c => if c =? carriage_return then newline else c) <$> s.

Definition normalise (source : bytes) : bytes :=
  let src := cr_to_lf (crlf_to_lf source) in
  if bool_decide (list.last source = Some newline) then removelast src else src.

(** * Reading *)

Section Source.
Variable src : bytes.

Definition char_at (pos : nat) : M Z :=
  match src !! pos with
  | Some c => Ok c
  | None => if (pos =? length src)%nat then Ok 0 else Error OutOfRange
  end.

(** [next_pos_is(chars, n)]. *)
Definition next_pos_is (pos : nat) (chars : list Z) (n : nat) : bool :=
  match src !! (pos + n)%nat with Some c => bool_decide (c ∈ chars) | None => false end.

Fixpoint consume_while (fuel : nat) (predicate : Z -> bool) (pos : nat) (acc : bytes) : M (bytes * nat) :=
  match fuel with
  | O => Error OutOfFuel
  | S fuel =>
      c ← char_at pos;
      if predicate c then
        if c =? backslash then
          let pos := S pos in
          _ ← ensure (pos <? length src)%nat (EndAfterEscape pos);
          e ← char_at pos;
          let pos := S pos in
          match escaped e with
          | None => Error (UnknownEscape e pos)
          | Some u => consume_while fuel predicate pos (acc ++ [u])
          end
        else
          let pos := S pos in
          _ ← ensure (pos <=? length src)%nat (EndOfInput pos);
          consume_while fuel predicate pos (acc ++ [c])
      else Ok (acc, pos)
  end.

Definition consume (predicate : Z -> bool) (pos : nat) : M (bytes * nat) :=
  consume_while (length src + 2) predicate pos [].

Definition consume_numeric (pos : nat) : M (bytes * nat) :=
  r ← consume is_integer pos;
  let '(num, pos) := r in
  c ← char_at pos;
  if (c =? ch ".") && match src !! S pos with Some d => is_integer d | None => false end then
    r ← consume is_integer (S pos);
    let '(frac, pos) := r in
    Ok (num ++ [ch "."] ++ frac, pos)
  else Ok (num, pos).

(** * Text between blocks *)

(** The start of a block at [pos]. *)
Definition block_at (pos : nat) : bool :=
  match src !! pos with
  | Some c => (c =? ch "{") && next_pos_is pos [ch "%"; ch "{"; ch "#"] 1
  | None => false
  end.

Fixpoint scan_text (fuel : nat) (pos : nat) : nat :=
  match fuel with
  | O => pos
  | S fuel => if (pos <? length src)%nat && negb (block_at pos) then scan_text fuel (S pos) else pos
  end.

(** The end of the text without the blanks between the last newline and a block. *)
Fixpoint lstrip_end (start current end_ : nat) : nat :=
  match current with
  | O => end_
  | S before =>
      if (start <? current)%nat then
        let c := default 0 (src !! before) in
        if (current =? 1)%nat then 0%nat
        else if c =? newline then current
        else if negb (isspace c) then end_
        else lstrip_end start before end_
      else end_
  end.

(** [" \t\r\n"]. *)
Definition is_blank (c : Z) : bool := (c =? 32) || (c =? 9) || (c =? 13) || (c =? 10).

Fixpoint string_lstrip (s : bytes) : bytes :=
  match s with
  | c :: r => if is_blank c then string_lstrip r else s
  | [] => []
  end.
Definition string_rstrip (s : bytes) : bytes := rev (string_lstrip (rev s)).

Definition byte (pos : nat) : Z := default 0 (src !! pos).

(** [is_rstrip_block] and [last_block_can_rm_newline]. *)
Definition last_block_flags (pos : nat) : bool * bool :=
  if (3 <? pos)%nat then
    let c0 := byte (pos - 3) in
    let c1 := byte (pos - 2) in
    let c2 := byte (pos - 1) in
    ((c0 =? ch "-") && ((c1 =? ch "%") || (c1 =? ch "}") || (c1 =? ch "#")) && (c2 =? ch "}"),
     ((c1 =? ch "#") || (c1 =? ch "%") || (c1 =? ch "-")) && (c2 =? ch "}"))
  else (false, false).

(** The text from [pos] and the position after it. *)
Definition lex_text (pos : nat) : M (bytes * nat) :=
  let '(is_rstrip_block, last_block_can_rm_newline) := last_block_flags pos in
  let start := pos in
  let pos := scan_text (length src) pos in
  c ← char_at pos;
  let end_ :=
    if (c =? ch "{") && next_pos_is pos [ch "%"; ch "#"; ch "-"] 1
    then lstrip_end start pos pos else pos in
  let txt := take (end_ - start) (drop start src) in
  let txt :=
    if last_block_can_rm_newline then
      match txt with d :: r => if d =? newline then r else txt | [] => [] end
    else txt in
  let txt := if is_rstrip_block then string_lstrip txt else txt in
  let is_lstrip_block :=
    (c =? ch "{") && next_pos_is pos [ch "{"; ch "%"; ch "#"] 1 && next_pos_is pos [ch "-"] 2 in
  let txt := if is_lstrip_block then string_rstrip txt else txt in
  Ok (txt, pos).

(** * The main loop *)

Record lexer_state := State { pos : nat; tokens : list token; curly_bracket_depth : Z }.

(** Whether the loop goes on. *)
Inductive outcome := Continue (st : lexer_state) | Break.

Definition push (st : lexer_state) (ty : token_type) (v : bytes) (start_pos pos : nat) : outcome :=
  Continue (State pos (tokens st ++ [Token ty v start_pos]) (curly_bracket_depth st)).

Fixpoint lex_comment (fuel : nat) (pos : nat) (acc : bytes) : M (bytes * nat) :=
  match fuel with
  | O => Error OutOfFuel
  | S fuel =>
      c ← char_at pos;
      if (c =? ch "#") && next_pos_is pos [ch "}"] 1 then Ok (acc, pos) else
      _ ← ensure (negb (length src <=? pos + 2)%nat) (MissingEndOfComment pos);
      lex_comment fuel (S pos) (acc ++ [c])
  end.

(** The first entry of the table at [pos], inside an object literal without the
    end of an expression. *)
Definition starts_with (p : nat) (seq : bytes) : bool := bool_decide (take (length seq) (drop p src) = seq).
Definition table_match (depth : Z) (p : nat) : option (bytes * token_type) :=
  snd <$> list_find (fun e => negb (bool_decide (e.1 = str "}}") && (0 <? depth)) && starts_with p e.1 = true)
    ordered_mapping_table.

Definition new_depth (depth : Z) (ty : token_type) : Z :=
  match ty with
  | open_expression => 0
  | open_curly_bracket => u64 (depth + 1)
  | close_curly_bracket => u64 (depth - 1)
  | _ => depth
  end.

Definition last_type (st : lexer_state) (ty : token_type) : token_type :=
  match list.last (tokens st) with Some k => t k | None => ty end.

(** Whether a sign after this token is a binary operator. *)
Definition operand_end (ty : token_type) : bool :=
  match ty with
  | identifier | numeric_literal | string_literal | close_paren | close_square_bracket => true
  | _ => false
  end.

(** The table, strings, numbers and identifiers, at the character [c]. *)
Definition lex_operators (st : lexer_state) (p : nat) (c : Z) : M outcome :=
  match table_match (curly_bracket_depth st) p with
  | Some (seq, ty) =>
      Ok (Continue (State (p + length seq) (tokens st ++ [Token ty seq p]) (new_depth (curly_bracket_depth st) ty)))
  | None =>
      if (c =? single_quote) || (c =? double_quote) then
        r ← consume (fun d => negb (d =? c)) (S p);
        let '(s, q) := r in
        Ok (push st string_literal s p (S q))
      else if is_integer c then
        r ← consume_numeric p;
        let '(num, q) := r in
        Ok (push st numeric_literal num p q)
      else if is_word c then
        r ← consume is_word p;
        let '(word, q) := r in
        Ok (push st identifier word p q)
      else Error (UnexpectedCharacter c p)
  end.

(** Inside of a block, at [p], after the whitespace. *)
Definition lex_block (st : lexer_state) (p : nat) : M outcome :=
  c ← char_at p;
  let is_closing_block := (c =? ch "-") && next_pos_is p [ch "%"; ch "}"] 1 in
  if negb is_closing_block && ((c =? ch "-") || (c =? ch "+")) then
    let last_token_type := last_type st eof in
    if bool_decide (last_token_type = text \/ last_token_type = eof) then Error (UnexpectedCharacter c p)
    else if operand_end last_token_type then lex_operators st p c
    else
      r ← consume_numeric (S p);
      let '(num, q) := r in
      Ok (push st (if bool_decide (num = []) then unary_operator else numeric_literal) (c :: num) p q)
  else lex_operators st p c.

(** After the text: comments, a [-] that opens a block, whitespace, the block. *)
Definition lex_rest (st : lexer_state) (last_token_type : token_type) (p : nat) : M outcome :=
  c ← char_at p;
  if (c =? ch "{") && next_pos_is p [ch "#"] 1 then
    r ← lex_comment (length src) (p + 2) [];
    let '(s, q) := r in
    Ok (push st comment s p (q + 2))
  else
    let dash := (c =? ch "-") && bool_decide (last_token_type = open_expression \/ last_token_type = open_statement) in
    let p := if dash then S p else p in
    if dash && (length src <=? p)%nat then Ok Break else
    r ← consume isspace p;
    let '(_, p) := r in
    if (length src <=? p)%nat then Ok Break else lex_block st p.

(** One iteration. *)
Definition lex_step (st : lexer_state) : M outcome :=
  let last_token_type := last_type st close_statement in
  if bool_decide (last_token_type ∈ [close_statement; close_expression; comment]) then
    r ← lex_text (pos st);
    let '(txt, p) := r in
    if bool_decide (txt <> []) then Ok (push st text txt (pos st) p)
    else lex_rest st last_token_type p
  else lex_rest st last_token_type (pos st).

Fixpoint lex_loop (fuel : nat) (st : lexer_state) : M (list token) :=
  match fuel with
  | O => Error OutOfFuel
  | S fuel =>
      if (pos st <? length src)%nat then
        o ← lex_step st;
        match o with
        | Continue st => lex_loop fuel st
        | Break => Ok (tokens st)
        end
      else Ok (tokens st)
  end.
End Source.

(** The tokens and the normalised source. *)
Definition tokenize (source : bytes) : M (list token * bytes) :=
  match source with
  | [] => Ok ([], source)
  | _ =>
      let src := normalise source in
      toks ← lex_loop src (S (length src)) (State 0 [] 0);
      Ok (toks, src)
  end.

End JinjaLexer.
