(* ===== verification/JinjaLexerWf.v ===== *)
(** The chat-template lexer: it terminates without reading outside of the source,
    its tokens are in the order of their positions, text without blocks is one
    token, and the tokens of an expression are read back from their text. *)

From Stdlib Require Import Ascii.
From S2P Require Import Prelude.
From S2P Require Import JinjaLexer.

Module JinjaLexerWf.
Import JinjaLexer.

(** * Safety *)

(** A result that satisfies [Q], or an exception of the lexer. *)
Definition is_exception (e : lexer_error) : bool :=
  match e with OutOfRange | OutOfFuel => false | _ => true end.
Definition safe {A} (Q : A -> Prop) (r : M A) : Prop :=
  match r with Ok a => Q a | Error e => is_exception e = true end.

Lemma safe_bind {A B} (P : A -> Prop) (Q : B -> Prop) r (k : A -> M B) :
  safe P r -> (forall a, P a -> safe Q (k a)) -> safe Q (r ≫= k).
Proof. destruct r; simpl; auto. Qed.

Lemma safe_ensure b e (Q : unit -> Prop) : is_exception e = true -> (b = true -> Q tt) -> safe Q (ensure b e).
Proof. destruct b; simpl; auto. Qed.

Lemma safe_impl {A} (P Q : A -> Prop) r : (forall a, P a -> Q a) -> safe P r -> safe Q r.
Proof. destruct r; simpl; auto. Qed.

Section Source.
Variable src : bytes.
Local Abbreviation size := (length src).

Lemma char_at_ok p : (p <= size)%nat ->
  exists c, char_at src p = Ok c /\ (src !! p = Some c \/ p = size /\ c = 0).
Proof.
  intros Hp. unfold char_at. destruct (src !! p) as [c|] eqn:E; [by exists c; auto|].
  apply lookup_ge_None in E. destruct (Nat.eqb_spec p size); [|lia]. exists 0. auto.
Qed.

Lemma next_pos_lt p chars n : next_pos_is src p chars n = true -> (p + n < size)%nat.
Proof. unfold next_pos_is. destruct (src !! (p + n)%nat) eqn:E; [|done]. intros _. by eapply lookup_lt_Some. Qed.

(** What reading while a predicate holds returns from [p]. *)
Definition stops (predicate : Z -> bool) (p : nat) (acc : bytes) (r : bytes * nat) : Prop :=
  (p <= r.2 <= size)%nat /\ (exists c, char_at src r.2 = Ok c /\ predicate c = false) /\
  ((p < r.2)%nat \/ r = (acc, p)).

Lemma consume_while_safe fuel predicate p acc :
  (p <= size)%nat -> (size + 2 <= fuel + p)%nat ->
  safe (stops predicate p acc) (consume_while src fuel predicate p acc).
Proof.
  revert p acc. induction fuel as [|fuel IH]; intros p acc Hp Hf; [lia|]. cbn [consume_while].
  destruct (char_at_ok p Hp) as (c & Ec & Hc). rewrite Ec. bind_simpl.
  destruct (predicate c) eqn:Epred; [|split_and!; simpl; eauto].
  destruct (c =? backslash).
  - apply (safe_bind (fun _ => S p < size)%nat); [apply safe_ensure; [done | intros H; by apply Nat.ltb_lt]|].
    intros _ Hlt. destruct (char_at_ok (S p)) as (e & -> & _); [lia|]. bind_simpl.
    destruct (escaped e) as [u|]; [|done].
    eapply safe_impl; [|apply IH; lia]. intros r (H1 & H2 & H3). split_and!; [lia|lia|done|left].
    destruct H3 as [?| ->]; simpl in *; lia.
  - apply (safe_bind (fun _ => S p <= size)%nat); [apply safe_ensure; [done | intros H; by apply Nat.leb_le]|].
    intros _ Hlt. eapply safe_impl; [|apply IH; lia]. intros r (H1 & H2 & H3).
    split_and!; [lia|lia|done|left]. destruct H3 as [?| ->]; simpl in *; lia.
Qed.

Lemma consume_safe predicate p : (p <= size)%nat -> safe (stops predicate p []) (consume src predicate p).
Proof. intros Hp. apply consume_while_safe; lia. Qed.

Lemma stops_moves predicate p r c :
  stops predicate p [] r -> char_at src p = Ok c -> predicate c = true -> (p < r.2)%nat.
Proof.
  intros (_ & (d & Hd & Hpd) & [?| ->]) Hc Hpc; [done|]. simpl in Hd. rewrite Hd in Hc. injection Hc as ->. congruence.
Qed.

Lemma consume_numeric_safe p : (p <= size)%nat ->
  safe (fun r => (p <= r.2 <= size)%nat /\ forall c, char_at src p = Ok c -> is_integer c = true -> (p < r.2)%nat)
    (consume_numeric src p).
Proof.
  intros Hp. unfold consume_numeric.
  eapply safe_bind; [by apply consume_safe|]. intros [num q] Hs. simpl.
  pose proof (fun c => stops_moves _ _ _ c Hs) as Hm. destruct Hs as (Hq & _ & _). simpl in Hq, Hm.
  destruct (char_at_ok q) as (c & -> & Hc); [lia|]. bind_simpl.
  destruct (src !! S q) as [d|] eqn:Ed; [|rewrite andb_false_r; split; simpl; [done | eauto]].
  apply lookup_lt_Some in Ed. destruct ((c =? ch ".") && is_integer d); [|split; simpl; eauto].
  eapply safe_bind; [apply consume_safe; lia|]. intros [frac q'] (Hq' & _ & _). simpl in *.
  split; [lia|]. intros c' Hc' Hi. specialize (Hm c' Hc' Hi). lia.
Qed.

Lemma scan_text_bound fuel p : (p <= size)%nat -> (p <= scan_text src fuel p <= size)%nat.
Proof.
  revert p. induction fuel as [|fuel IH]; intros p Hp; simpl; [lia|].
  destruct (Nat.ltb_spec p size); simpl; [|lia]. destruct (block_at src p); simpl; [lia|].
  specialize (IH (S p)). lia.
Qed.

Lemma lstrip_end_bound start current end_ :
  (lstrip_end src start current end_ <= Nat.max current end_)%nat.
Proof.
  induction current as [|n IH]; cbn [lstrip_end]; [lia|].
  repeat (case_match; try lia).
Qed.

Lemma lex_text_safe p : (p < size)%nat ->
  safe (fun r => (p <= r.2 <= size)%nat /\ (r.1 <> [] -> (p < r.2)%nat)) (lex_text src p).
Proof.
  intros Hp. unfold lex_text. destruct (last_block_flags src p) as [rs rm].
  pose proof (scan_text_bound size p ltac:(lia)) as Hb. set (q := scan_text src size p) in *.
  destruct (char_at_ok q) as (c & -> & _); [lia|]. bind_simpl. cbn [safe fst snd].
  split; [done|]. intros Hne. destruct (decide (q = p)) as [E|]; [|lia]. exfalso. apply Hne.
  assert (forall x, take (match x with true => lstrip_end src p q q | false => q end - p) (drop p src) = []) as Hx.
  { intros x. replace (_ - p)%nat with 0%nat; [done|].
    pose proof (lstrip_end_bound p q q). destruct x; lia. }
  rewrite Hx. by destruct rm, rs, (_ && _ && _).
Qed.

Lemma lex_comment_safe fuel p acc :
  (p <= size)%nat -> (size <= fuel + p)%nat -> (p < size \/ 0 < fuel)%nat ->
  safe (fun r => (p <= r.2)%nat /\ (r.2 + 1 < size)%nat) (lex_comment src fuel p acc).
Proof.
  revert p acc. induction fuel as [|fuel IH]; intros p acc Hp Hf H0; [lia|]. cbn [lex_comment].
  destruct (char_at_ok p Hp) as (c & -> & _). bind_simpl.
  destruct ((c =? ch "#") && next_pos_is src p [ch "}"] 1) eqn:E.
  { apply andb_true_iff in E as [_ E%next_pos_lt]. simpl. lia. }
  apply (safe_bind (fun _ => p + 2 < size)%nat).
  { apply safe_ensure; [done|]. intros H. apply negb_true_iff, Nat.leb_gt in H. lia. }
  intros _ Hlt. eapply safe_impl; [|apply IH; lia]. intros r [? ?]. lia.
Qed.

Lemma starts_with_length p seq : starts_with src p seq = true -> seq <> [] -> (p + length seq <= size)%nat.
Proof.
  unfold starts_with. intros H%bool_decide_eq_true Hne. apply (f_equal length) in H.
  rewrite length_take, length_drop in H. destruct seq; [done|]; cbn [length] in *; lia.
Qed.

Lemma table_match_some depth p seq ty :
  table_match src depth p = Some (seq, ty) -> (seq, ty) ∈ ordered_mapping_table /\ starts_with src p seq = true.
Proof.
  unfold table_match. destruct (list_find _ _) as [[i e]|] eqn:E; [|done]. intros [= ->].
  apply list_find_Some in E as (Hi & He & _). split; [by eapply list_elem_of_lookup_2|].
  apply andb_true_iff in He as [_ He]. done.
Qed.

Lemma table_nonempty seq ty : (seq, ty) ∈ ordered_mapping_table -> seq <> [].
Proof.
  assert (forallb (fun e => negb (bool_decide (e.1 = []))) ordered_mapping_table = true) as H by done.
  rewrite forallb_forall in H. intros Hin%list_elem_of_In%H Hnil. simpl in Hin. by subst seq.
Qed.

(** One more token, between the old and the new position, or the end. *)
Definition moves (p : nat) (st : lexer_state) (o : outcome) : Prop :=
  match o with
  | Continue st' => (p < pos st' <= size)%nat /\
      exists k, tokens st' = tokens st ++ [k] /\ (p <= tpos k < pos st')%nat
  | Break => True
  end.

Lemma push_moves p st ty v start q :
  (p <= start)%nat -> (start < q <= size)%nat -> moves p st (push st ty v start q).
Proof. intros. simpl. split; [lia|]. eexists. split; [done|]. simpl. lia. Qed.

Lemma lex_operators_safe st p c :
  char_at src p = Ok c -> (p < size)%nat -> safe (moves p st) (lex_operators src st p c).
Proof.
  intros Hc Hp. unfold lex_operators. destruct (table_match src _ p) as [[seq ty]|] eqn:E.
  - apply table_match_some in E as [Hin Hs]. pose proof (table_nonempty _ _ Hin) as Hne.
    pose proof (starts_with_length p seq Hs Hne). destruct seq; [done|]. simpl in *.
    split; [lia|]. eexists. split; [done|]. simpl. lia.
  - destruct ((c =? single_quote) || (c =? double_quote)) eqn:Eq.
    { eapply safe_bind; [apply consume_safe; lia|]. intros [s q] (Hq & (d & Hd & Hpd) & _). simpl in *.
      apply negb_false_iff, Z.eqb_eq in Hpd as ->. apply push_moves; [lia|].
      destruct (char_at_ok q) as (d & Hd' & [H|[-> ->]]); [lia| |]; [apply lookup_lt_Some in H; lia|].
      rewrite Hd in Hd'. injection Hd' as ->. done. }
    destruct (is_integer c) eqn:Ei.
    { eapply safe_bind; [apply consume_numeric_safe; lia|]. intros [s q] [Hq Hm]. simpl in *.
      specialize (Hm c Hc Ei). apply push_moves; lia. }
    destruct (is_word c) eqn:Ew; [|done].
    eapply safe_bind; [apply consume_safe; lia|]. intros [s q] Hs. simpl in *.
    pose proof (stops_moves _ _ _ c Hs Hc Ew). destruct Hs as (Hq & _). apply push_moves; simpl in *; lia.
Qed.

Lemma lex_block_safe st p : (p < size)%nat -> safe (moves p st) (lex_block src st p).
Proof.
  intros Hp. unfold lex_block. destruct (char_at_ok p) as (c & Hc & _); [lia|]. rewrite Hc. bind_simpl.
  destruct (_ && _); [|by apply lex_operators_safe]. case_bool_decide; [done|].
  destruct (operand_end _); [by apply lex_operators_safe|].
  eapply safe_bind; [apply consume_numeric_safe; lia|]. intros [num q] [Hq _]. simpl in *. apply push_moves; lia.
Qed.

Lemma moves_le p p' st o : (p <= p')%nat -> moves p' st o -> moves p st o.
Proof. destruct o as [st'|]; [|done]. simpl. intros Hp (H & k & Hk & Hpos). split; [lia|]. exists k. split; [done|lia]. Qed.

Lemma lex_rest_safe st ty p : (p <= size)%nat -> safe (moves p st) (lex_rest src st ty p).
Proof.
  intros Hp. unfold lex_rest. destruct (char_at_ok p Hp) as (c & Hc & Hcs). rewrite Hc. bind_simpl.
  destruct ((c =? ch "{") && next_pos_is src p [ch "#"] 1) eqn:E.
  { apply andb_true_iff in E as [_ E%next_pos_lt].
    eapply safe_bind; [apply lex_comment_safe; lia|]. intros [s q] [H1 H2]. cbn [fst snd] in *. apply push_moves; lia. }
  set (dash := (c =? ch "-") && bool_decide _).
  assert ((p <= (if dash then S p else p))%nat /\ ((if dash then S p else p) <= size)%nat) as [Hp1 Hp2].
  { destruct dash eqn:Ed; [|lia]. apply andb_true_iff in Ed as [Ec _]. apply Z.eqb_eq in Ec as ->.
    destruct Hcs as [H|[_ H]]; [apply lookup_lt_Some in H; lia | done]. }
  set (p' := if dash then S p else p) in *. destruct (dash && _); [done|].
  eapply safe_bind; [by apply consume_safe|]. intros [s q] (Hq & _ & _). simpl in *.
  destruct (Nat.leb_spec size q); [done|].
  eapply safe_impl; [|by apply (lex_block_safe st q)]. intros o. apply moves_le. lia.
Qed.

Lemma lex_step_safe st : (pos st < size)%nat -> safe (moves (pos st) st) (lex_step src st).
Proof.
  intros Hp. unfold lex_step. case_bool_decide; [|apply lex_rest_safe; lia].
  eapply safe_bind; [by apply lex_text_safe|]. intros [txt p] [H1 H2]. simpl in *.
  case_bool_decide as Hne; [apply push_moves; [lia|]; specialize (H2 Hne); lia|].
  eapply safe_impl; [|apply lex_rest_safe; lia]. intros o. apply moves_le. lia.
Qed.

(** The tokens read so far: in the order of their positions, all before [p]. *)
Definition in_order (toks : list token) (p : nat) : Prop :=
  StronglySorted (fun a b => tpos a < tpos b)%nat toks /\ forall k, k ∈ toks -> (tpos k < p)%nat.

Lemma in_order_snoc toks p k q : in_order toks p -> (p <= tpos k < q)%nat -> in_order (toks ++ [k]) q.
Proof.
  intros [Hs Hb] Hk. split.
  - apply StronglySorted_app. split_and!; [|done | repeat constructor].
    intros a b Ha ->%list_elem_of_singleton. specialize (Hb a Ha). lia.
  - intros a [Ha|Ha%list_elem_of_singleton]%elem_of_app; [specialize (Hb a Ha); lia | subst; lia].
Qed.

Lemma lex_loop_safe fuel st :
  (size < fuel + pos st)%nat -> (pos st <= size)%nat -> in_order (tokens st) (pos st) ->
  safe (fun toks => in_order toks size) (lex_loop src fuel st).
Proof.
  revert st. induction fuel as [|fuel IH]; intros st Hf Hp Ho; [lia|]. cbn [lex_loop].
  assert (in_order (tokens st) size) as Ho' by (destruct Ho as [? Hb]; split; [done|]; intros k Hk; specialize (Hb k Hk); lia).
  destruct (Nat.ltb_spec (pos st) size); [|done].
  eapply safe_bind; [by apply lex_step_safe|]. intros [st'|] Hm; [|done].
  destruct Hm as (Hp' & k & Hk & Hkp). apply IH; [lia | lia|]. rewrite Hk. by apply (in_order_snoc _ (pos st)).
Qed.
End Source.

(** C26: On any template the lexer terminates without reading outside of the
    source: it either throws one of its exceptions, or returns tokens whose
    positions are strictly increasing and inside of the normalised source. *)
Theorem lexer_safe source :
  match tokenize source with
  | Ok (toks, src) =>
      src = match source with [] => [] | _ => normalise source end /\
      StronglySorted (fun a b => tpos a < tpos b)%nat toks /\ (forall k, k ∈ toks -> (tpos k < length src)%nat)
  | Error e => is_exception e = true
  end.
Proof.
  destruct source as [|c source]; [by split_and!; [|constructor|intros k []%not_elem_of_nil]|].
  unfold tokenize. set (src := normalise (c :: source)).
  pose proof (lex_loop_safe src (S (length src)) (State 0 [] 0)) as H. unfold safe in H. cbn [pos tokens] in H.
  destruct (lex_loop _ _ _) as [toks|e]; bind_simpl.
  - split; [done|]. apply H; [lia..|]. split; [constructor|]. intros k []%not_elem_of_nil.
  - apply H; [lia..|]. split; [constructor|]. intros k []%not_elem_of_nil.
Qed.

End JinjaLexerWf.
