(* ===== verification/JinjaLexerPrint.v ===== *)
(** Reading back: the symbols of an expression, printed with a space before each,
    are the tokens of the lexer; and a template without blocks is one text. *)

From Stdlib Require Import Ascii.
From S2P Require Import Prelude.
From S2P Require Import JinjaLexer.

Module JinjaLexerPrint.
Import JinjaLexer.

(** * Printing *)

(** The characters of a string literal in single quotes that need an escape. *)
Definition escape_char (c : Z) : bytes :=
  if c =? single_quote then [backslash; single_quote]
  else if c =? backslash then [backslash; backslash]
  else if c =? carriage_return then [backslash; ch "r"] else [c].

Definition escape (s : bytes) : bytes := concat (escape_char <$> s).

Abbreviation symbol := (token_type * bytes)%type.

Definition print_symbol (k : symbol) : bytes :=
  match k.1 with string_literal => single_quote :: escape k.2 ++ [single_quote] | _ => k.2 end.

(** [{{ k1 k2 ... }}]. *)
Definition print_expression (ks : list symbol) : bytes :=
  str "{{" ++ concat ((fun k => 32 :: print_symbol k) <$> ks) ++ str " }}".

(** The delimiters of blocks are not symbols of an expression. *)
Definition block_delimiter (ty : token_type) : bool :=
  bool_decide (ty ∈ [open_statement; close_statement; open_expression; close_expression]).

Inductive printable : symbol -> Prop :=
| print_string s : printable (string_literal, s)
| print_word c w : is_word c = true -> is_integer c = false -> Forall (fun c => is_word c = true) w ->
    printable (identifier, c :: w)
| print_integer d : d <> [] -> Forall (fun c => is_integer c = true) d -> printable (numeric_literal, d)
| print_decimal d f : d <> [] -> Forall (fun c => is_integer c = true) d ->
    f <> [] -> Forall (fun c => is_integer c = true) f -> printable (numeric_literal, d ++ ch "." :: f)
| print_sign c : c = ch "-" \/ c = ch "+" -> printable (unary_operator, [c])
| print_operator seq ty : (seq, ty) ∈ ordered_mapping_table -> block_delimiter ty = false -> printable (ty, seq).

(** The types that end an operand. *)
Definition operand (ty : token_type) : bool :=
  bool_decide (ty ∈ [identifier; numeric_literal; string_literal; close_paren; close_square_bracket]).

(** A sign is binary after an operand and unary elsewhere. *)
Definition fits (prev : token_type) (k : symbol) : bool :=
  match k.1 with
  | unary_operator => negb (operand prev)
  | additive_binary_operator => operand prev || bool_decide (k.2 = str "~")
  | _ => true
  end.

Fixpoint sequence (prev : token_type) (ks : list symbol) : bool :=
  match ks with
  | [] => true
  | k :: ks => fits prev k && sequence k.1 ks
  end.

(** Curly brackets opened and not closed. *)
Definition curly (ty : token_type) : Z :=
  match ty with open_curly_bracket => 1 | close_curly_bracket => -1 | _ => 0 end.
Definition curly_balance (ks : list symbol) : Z := foldr (fun k n => curly k.1 + n) 0 ks.

(** The depth the lexer counts. *)
Definition depth_of (d : Z) (ks : list symbol) : Z := foldl new_depth d ks.*1.

Lemma operand_eq ty : operand ty = operand_end ty.
Proof. by destruct ty. Qed.

Lemma new_depth_curly d ty : ty <> open_expression -> 0 <= d < 2 ^ 64 -> new_depth d ty = u64 (d + curly ty).
Proof. intros Hty Hd. destruct ty; try done; cbn [new_depth curly]; rewrite Z.add_0_r; symmetry; by apply u64_small. Qed.

Lemma depth_balance d ks : Forall printable ks -> 0 <= d < 2 ^ 64 -> depth_of d ks = u64 (d + curly_balance ks).
Proof.
  intros Hks. revert d. induction Hks as [|k ks Hk Hks IH]; intros d Hd; cbn.
  - rewrite Z.add_0_r. symmetry. by apply u64_small.
  - assert (k.1 <> open_expression) as Hty.
    { inversion Hk as [| | | | |seq ty Hin Hty E]; subst; try done. cbn. by intros ->. }
    rewrite new_depth_curly by done. unfold depth_of in IH. rewrite IH by (unfold u64; apply Z.mod_pos_bound; lia).
    unfold u64. rewrite Zplus_mod_idemp_l. f_equal. unfold curly_balance. cbn. lia.
Qed.

(** * Symbols in a source *)

Lemma list_find_ext_in {A} (P Q : A -> Prop) `{!forall x, Decision (P x), !forall x, Decision (Q x)} l :
  (forall x, x ∈ l -> P x <-> Q x) -> list_find P l = list_find Q l.
Proof.
  induction l as [|x l IH]; intros HPQ; simpl; [done|].
  rewrite (decide_ext (P x) (Q x)) by (apply HPQ; left). case_decide; [done|].
  by rewrite IH by (intros y Hy; apply HPQ; by right).
Qed.

(** A list with an element in the middle is not empty. *)
Ltac nonempty :=
  let E := fresh in intros E; apply (f_equal length) in E; rewrite ?length_app in E; simpl in E; lia.

Section Source.
Variable src : bytes.

Lemma char_at_view p c r : drop p src = c :: r -> src !! p = Some c /\ char_at src p = Ok c.
Proof.
  intros H. assert (src !! p = Some c) as E.
  { rewrite <- (Nat.add_0_r p), <- lookup_drop, H. done. }
  split; [done|]. unfold char_at. by rewrite E.
Qed.

Lemma drop_view p a r : drop p src = a ++ r -> drop (p + length a) src = r.
Proof. intros H. rewrite <- drop_drop, H. by rewrite drop_app_length. Qed.

Lemma view_length p a : drop p src = a -> a <> [] -> (p + length a = length src)%nat.
Proof. intros <- Hne. rewrite length_drop. destruct (decide (p < length src)%nat); [lia|]. by rewrite drop_ge in Hne by lia. Qed.

Lemma next_view p c d r chars : drop p src = c :: d :: r -> next_pos_is src p chars 1 = bool_decide (d ∈ chars).
Proof. intros H. unfold next_pos_is. by rewrite <- lookup_drop, H. Qed.

Lemma consume_while_span fuel (predicate : Z -> bool) a c r p acc :
  drop p src = a ++ c :: r -> Forall (fun x => predicate x = true /\ x <> backslash) a -> predicate c = false ->
  (length a < fuel)%nat -> consume_while src fuel predicate p acc = Ok (acc ++ a, (p + length a)%nat).
Proof.
  revert fuel p acc. induction a as [|x a IH]; intros [|fuel] p acc Hd Ha Hc Hf; simpl in Hf; try lia;
    cbn [consume_while]; destruct (char_at_view _ _ _ Hd) as [_ ->]; bind_simpl.
  - rewrite Hc, app_nil_r, Nat.add_0_r. done.
  - apply Forall_cons in Ha as [[Hx Hb] Ha]. rewrite Hx. destruct (Z.eqb_spec x backslash); [done|].
    pose proof (view_length _ _ Hd ltac:(done)) as Hl. cbn [length app] in Hl. rewrite length_app in Hl.
    destruct (Nat.leb_spec (S p) (length src)) as [_|?]; [|simpl in Hl; lia]. bind_simpl.
    rewrite (IH fuel (S p) (acc ++ [x])); [|by rewrite <- Nat.add_1_r; apply (drop_view p [x])|done|done|lia].
    rewrite <- app_assoc. do 2 f_equal. simpl. lia.
Qed.

Lemma consume_span (predicate : Z -> bool) a c r p :
  drop p src = a ++ c :: r -> Forall (fun x => predicate x = true /\ x <> backslash) a -> predicate c = false ->
  consume src predicate p = Ok (a, (p + length a)%nat).
Proof.
  intros Hd Ha Hc. unfold consume. rewrite (consume_while_span _ _ a c r p []); try done.
  pose proof (view_length _ _ Hd ltac:(nonempty)) as Hl. rewrite length_app in Hl. lia.
Qed.

Lemma escaped_char c : c = single_quote \/ c = backslash \/ c = carriage_return ->
  exists e, escape_char c = [backslash; e] /\ escaped e = Some c.
Proof. intros [->|[->| ->]]; eexists; by split. Qed.

Lemma consume_while_escape fuel s r p acc :
  drop p src = escape s ++ single_quote :: r -> (length s < fuel)%nat ->
  consume_while src fuel (fun d => negb (d =? single_quote)) p acc = Ok (acc ++ s, (p + length (escape s))%nat).
Proof.
  revert fuel p acc. induction s as [|x s IH]; intros [|fuel] p acc Hd Hf; simpl in Hf; try lia.
  - cbn [consume_while]. destruct (char_at_view p _ _ Hd) as [_ ->]. bind_simpl. simpl.
    rewrite app_nil_r, Nat.add_0_r. done.
  - cbn [consume_while]. unfold escape in Hd. cbn [fmap list_fmap concat] in Hd. rewrite <- app_assoc in Hd.
    pose proof (drop_view _ _ _ Hd) as Hd'. pose proof (view_length _ _ Hd ltac:(nonempty)) as Hl.
    assert (length (escape (x :: s)) = (length (escape_char x) + length (escape s))%nat) as -> by (unfold escape; cbn; by rewrite length_app).
    rewrite !length_app in Hl. cbn [length] in Hl.
    replace (acc ++ x :: s) with ((acc ++ [x]) ++ s) by by rewrite <- app_assoc.
    destruct (decide (x = single_quote \/ x = backslash \/ x = carriage_return)) as [Hx|Hx].
    + destruct (escaped_char x Hx) as (e & Ee & He). rewrite Ee in *. cbn [app length] in *.
      destruct (char_at_view _ _ _ Hd) as [_ ->]. bind_simpl. simpl.
      destruct (Nat.ltb_spec (S p) (length src)) as [_|?]; [|lia]. bind_simpl.
      replace (S p) with (p + 1)%nat by lia. pose proof (drop_view p [backslash] _ Hd) as Hd1. simpl in Hd1.
      destruct (char_at_view _ _ _ Hd1) as [_ ->]. bind_simpl. rewrite He.
      replace (S (p + 1)) with (p + 2)%nat by lia. rewrite (IH fuel); [|done|lia].
      do 2 f_equal. lia.
    + assert (escape_char x = [x]) as Ex.
      { unfold escape_char. destruct (Z.eqb_spec x single_quote), (Z.eqb_spec x backslash), (Z.eqb_spec x carriage_return); tauto. }
      rewrite Ex in *. cbn [app length] in *. destruct (char_at_view _ _ _ Hd) as [_ ->]. bind_simpl.
      destruct (Z.eqb_spec x single_quote), (Z.eqb_spec x backslash); try tauto. cbn [negb].
      destruct (Nat.leb_spec (S p) (length src)) as [_|?]; [|lia]. bind_simpl.
      replace (S p) with (p + 1)%nat by lia. rewrite (IH fuel); [|done|lia]. do 2 f_equal. lia.
Qed.

Lemma digits_plain d : Forall (fun c => is_integer c = true) d ->
  Forall (fun c => is_integer c = true /\ c <> backslash) d.
Proof. intros H. eapply Forall_impl; [exact H|]. intros c Hc. split; [done|]. by intros ->. Qed.

Lemma consume_numeric_int d c r p :
  drop p src = d ++ c :: r -> Forall (fun c => is_integer c = true) d -> is_integer c = false -> c <> ch "." ->
  consume_numeric src p = Ok (d, (p + length d)%nat).
Proof.
  intros Hd Hi Hc Hdot. unfold consume_numeric. rewrite (consume_span is_integer d c r p Hd); [|by apply digits_plain|done].
  bind_simpl. destruct (char_at_view _ _ _ (drop_view _ _ _ Hd)) as [_ ->]. bind_simpl.
  by destruct (Z.eqb_spec c (ch ".")).
Qed.

Lemma consume_numeric_decimal d f c r p :
  drop p src = (d ++ ch "." :: f) ++ c :: r -> Forall (fun c => is_integer c = true) d ->
  f <> [] -> Forall (fun c => is_integer c = true) f -> is_integer c = false ->
  consume_numeric src p = Ok (d ++ ch "." :: f, (p + length (d ++ ch "." :: f))%nat).
Proof.
  intros Hd Hi Hne Hf Hc. rewrite <- app_assoc in Hd. cbn [app] in Hd. unfold consume_numeric.
  rewrite (consume_span is_integer d _ _ p Hd); [|by apply digits_plain|done]. bind_simpl.
  pose proof (drop_view _ _ _ Hd) as Hd1. destruct (char_at_view _ _ _ Hd1) as [_ ->]. bind_simpl.
  pose proof (drop_view _ [ch "."] _ Hd1) as Hd2. cbn [length] in Hd2.
  destruct f as [|x f]; [done|]. destruct (char_at_view _ _ _ Hd2) as [Hx _].
  replace (S (p + length d)) with (p + length d + 1)%nat by lia. rewrite Hx.
  pose proof Hf as [Hxi _]%Forall_cons. rewrite Hxi. simpl.
  rewrite (consume_span is_integer (x :: f) c r); [|done|by apply digits_plain|done]. bind_simpl.
  do 2 f_equal. rewrite !length_app. simpl. lia.
Qed.

(** The table looks at three characters. *)
Definition table_at (in_object : bool) (w : bytes) : option (bytes * token_type) :=
  snd <$> list_find (fun e => negb (bool_decide (e.1 = str "}}") && in_object) &&
    bool_decide (take (length e.1) w = e.1) = true) ordered_mapping_table.

Lemma table_view depth p : table_match src depth p = table_at (0 <? depth) (take 3 (drop p src)).
Proof.
  unfold table_match, table_at. f_equal. apply list_find_ext_in. intros [seq ty] Hi.
  assert (length seq <= 3)%nat as Hl.
  { assert (forallb (fun e => length e.1 <=? 3)%nat ordered_mapping_table = true) as Hall by done.
    rewrite forallb_forall in Hall. apply list_elem_of_In in Hi. apply Hall in Hi. by apply Nat.leb_le in Hi. }
  cbn [fst]. unfold starts_with. by rewrite take_take, Nat.min_l.
Qed.
End Source.

(** No symbol that starts like a word or a string is in the table. *)
Definition table_first (c : Z) : bool := existsb (fun e => match e.1 with d :: _ => d =? c | [] => true end) ordered_mapping_table.

Lemma table_print seq ty : (seq, ty) ∈ ordered_mapping_table -> print_symbol (ty, seq) = seq.
Proof.
  intros Hin. assert (forallb (fun e => negb (bool_decide (e.2 = string_literal))) ordered_mapping_table = true) as Hall by done.
  rewrite forallb_forall in Hall. apply list_elem_of_In, Hall in Hin. by destruct ty.
Qed.

Lemma table_at_none b c w : table_first c = false -> table_at b (c :: w) = None.
Proof.
  intros Hc. unfold table_at. rewrite (proj2 (list_find_None _ _)); [done|]. apply Forall_forall.
  intros [seq ty] Hin H. apply andb_true_iff in H as [_ H]. apply bool_decide_eq_true in H.
  assert (table_first c = true); [|congruence]. apply existsb_exists. exists (seq, ty).
  split; [by apply list_elem_of_In|]. cbn [fst] in *. destruct seq as [|d seq]; [done|]. simpl in H.
  injection H as -> _. apply Z.eqb_refl.
Qed.

Lemma table_word c : is_word c = true -> table_first c = false.
Proof.
  intros Hc. destruct (table_first c) eqn:E; [exfalso|done]. apply existsb_exists in E as ([seq ty] & Hin & H).
  assert (forallb (fun e => match e.1 with d :: _ => negb (is_word d) | [] => false end) ordered_mapping_table = true) as Hall by done.
  rewrite forallb_forall in Hall. apply Hall in Hin. cbn [fst] in *. destruct seq as [|d seq]; [done|].
  apply Z.eqb_eq in H as ->. by rewrite Hc in Hin.
Qed.

(** An operator followed by a space is found. *)
Lemma table_operator seq ty b r :
  (seq, ty) ∈ ordered_mapping_table -> block_delimiter ty = false ->
  table_at b (take 3 (seq ++ 32 :: r)) = Some (seq, ty).
Proof.
  intros Hin Hty. assert (Forall (fun e => block_delimiter e.2 = false ->
    forall b r, table_at b (take 3 (e.1 ++ 32 :: r)) = Some e) ordered_mapping_table) as Hall.
  { clear. unfold ordered_mapping_table.
    repeat (apply Forall_cons; split; [intros Hd b [|x r]; first [discriminate Hd | destruct b; vm_compute; reflexivity]|]).
    constructor. }
  rewrite Forall_forall in Hall. by apply (Hall (seq, ty)).
Qed.

(** The first character of a printed symbol. *)
Lemma print_first k : printable k -> exists c r, print_symbol k = c :: r /\ isspace c = false /\
  (c = ch "-" \/ c = ch "+" -> k.1 = unary_operator \/ k.1 = additive_binary_operator).
Proof.
  assert (forall c, is_word c = true -> isspace c = false /\ c <> ch "-" /\ c <> ch "+") as Hw.
  { intros c Hc. unfold is_word, is_integer, isalpha, isspace in *.
    change (ch "-") with 45. change (ch "+") with 43. change (ch "_") with 95 in Hc. lia. }
  assert (forall c, is_integer c = true -> is_word c = true) as Hi by (intros c Hc; unfold is_word; by rewrite Hc).
  intros Hk. inversion Hk as [s E|c w Hc Hn Hf E|d Hne Hd E|d f Hne Hd Hfne Hf E|c Hc E|seq ty Hin Hty E]; subst.
  - eexists _, _. split; [done|]. split; [done|]. intros [[=]|[=]].
  - eexists _, _. split; [done|]. destruct (Hw c Hc) as (? & ? & ?). split; [done|]. tauto.
  - destruct d as [|c d]; [done|]. apply Forall_cons in Hd as [Hc _]. destruct (Hw c (Hi c Hc)) as (? & ? & ?).
    eexists _, _. split; [done|]. split; [done|]. tauto.
  - destruct d as [|c d]; [done|]. apply Forall_cons in Hd as [Hc _]. destruct (Hw c (Hi c Hc)) as (? & ? & ?).
    eexists _, _. split; [done|]. split; [done|]. tauto.
  - eexists _, _. split; [done|]. split; [by destruct Hc as [-> | ->]|]. by left.
  - assert (Forall (fun e => block_delimiter e.2 = false -> e.2 <> string_literal /\ exists c r, e.1 = c :: r /\
      isspace c = false /\ (c = ch "-" \/ c = ch "+" -> e.2 = unary_operator \/ e.2 = additive_binary_operator))
      ordered_mapping_table) as Hall.
    { clear. unfold ordered_mapping_table.
      repeat (apply Forall_cons; split; [intros Hd; first [discriminate Hd | split; [done|]; eexists _, _; split; [reflexivity|];
        split; [reflexivity|]; first [intros _; by right | intros [[=]|[=]]]]|]). constructor. }
    rewrite Forall_forall in Hall. destruct (Hall (seq, ty) Hin Hty) as (Hns & c & r & E & Hc & Hs).
    exists c, r. cbn [fst snd] in *. split; [|done]. unfold print_symbol. cbn [fst snd]. by destruct ty.
Qed.

Lemma escape_length s : (length s <= length (escape s))%nat.
Proof.
  induction s as [|c s IH]; unfold escape in *; cbn; [lia|]. rewrite length_app.
  assert (1 <= length (escape_char c))%nat; [|lia]. unfold escape_char. repeat case_match; simpl; lia.
Qed.

Section Step.
Variable src : bytes.

(** One symbol is read by one iteration. *)
Lemma lex_operators_symbol st p k r c :
  printable k -> drop p src = print_symbol k ++ 32 :: r -> char_at src p = Ok c -> k.1 <> unary_operator ->
  lex_operators src st p c = Ok (Continue (State (p + length (print_symbol k)) (tokens st ++ [Token k.1 k.2 p])
    (new_depth (curly_bracket_depth st) k.1))).
Proof.
  intros Hk Hd Hc Hu. unfold lex_operators. rewrite table_view.
  assert (forall c' w, print_symbol k = c' :: w -> c' = c) as Hfirst.
  { intros c' w E. rewrite E in Hd. destruct (char_at_view src p _ _ Hd) as [_ E']. rewrite Hc in E'. by injection E'. }
  inversion Hk as [s E|x w Hx Hn Hf E|d Hne Hdi E|d f Hne Hdi Hfne Hf E|x Hx E|seq ty Hin Hty E]; subst;
    unfold print_symbol in *; cbn [fst snd] in *.
  - rewrite <- (Hfirst _ _ eq_refl). rewrite Hd. cbn [app take]. rewrite table_at_none by done. simpl.
    assert (drop (p + 1) src = escape s ++ single_quote :: 32 :: r) as Hd1.
    { apply (drop_view src p [single_quote]). rewrite Hd. cbn [app]. by rewrite <- app_assoc. }
    unfold consume. replace (S p) with (p + 1)%nat by lia. rewrite (consume_while_escape src _ s _ _ [] Hd1).
    + bind_simpl. unfold push. do 3 f_equal. rewrite length_app. simpl. lia.
    + pose proof (escape_length s). pose proof (view_length src _ _ Hd1 ltac:(nonempty)) as Hl.
      rewrite length_app in Hl. lia.
  - rewrite <- (Hfirst _ _ eq_refl). rewrite Hd. cbn [app take]. rewrite table_at_none by by apply table_word.
    assert (((x =? single_quote) || (x =? double_quote)) = false) as ->.
    { apply orb_false_iff. by split; apply Z.eqb_neq; intros ->. }
    rewrite Hn, Hx. rewrite (consume_span src is_word (x :: w) 32 r p Hd); [done| |done].
    constructor; [split; [done | by intros ->]|]. eapply Forall_impl; [exact Hf|]. intros y Hy. split; [done | by intros ->].
  - destruct d as [|x d]; [done|]. rewrite <- (Hfirst _ _ eq_refl). pose proof Hdi as [Hx _]%Forall_cons.
    rewrite Hd. cbn [app take]. rewrite table_at_none by (apply table_word; unfold is_word; by rewrite Hx).
    assert (((x =? single_quote) || (x =? double_quote)) = false) as ->.
    { apply orb_false_iff. by split; apply Z.eqb_neq; intros ->. }
    rewrite Hx. by rewrite (consume_numeric_int src (x :: d) 32 r p Hd).
  - destruct d as [|x d]; [done|]. rewrite <- (Hfirst _ _ eq_refl). pose proof Hdi as [Hx _]%Forall_cons.
    rewrite Hd. cbn [app take]. rewrite table_at_none by (apply table_word; unfold is_word; by rewrite Hx).
    assert (((x =? single_quote) || (x =? double_quote)) = false) as ->.
    { apply orb_false_iff. by split; apply Z.eqb_neq; intros ->. }
    rewrite Hx. by rewrite (consume_numeric_decimal src (x :: d) f 32 r p Hd).
  - done.
  - pose proof (table_print _ _ Hin) as Ep. unfold print_symbol in Ep. cbn [fst snd] in Ep.
    rewrite Ep in *. rewrite Hd, (table_operator seq ty) by done. done.
Qed.

Lemma lex_block_symbol st p k r :
  printable k -> drop p src = print_symbol k ++ 32 :: r -> tokens st <> [] -> last_type st eof <> text ->
  last_type st eof <> eof -> fits (last_type st eof) k = true ->
  lex_block src st p = Ok (Continue (State (p + length (print_symbol k)) (tokens st ++ [Token k.1 k.2 p])
    (new_depth (curly_bracket_depth st) k.1))).
Proof.
  intros Hk Hd Hne Ht He Hfit. destruct (print_first k Hk) as (c & w & E & Hsp & Hsign).
  pose proof Hd as Hd'. rewrite E in Hd'. destruct (char_at_view src p _ _ Hd') as [_ Hc].
  unfold lex_block. rewrite Hc. bind_simpl.
  assert ((c =? ch "-") || (c =? ch "+") = true -> k.1 = unary_operator /\ print_symbol k = [c] /\ k.2 = [c] \/
    k.1 = additive_binary_operator /\ print_symbol k = [c] /\ k.2 <> str "~") as Hkind.
  { intros Hs. assert (c = ch "-" \/ c = ch "+") as Hs'
      by (apply orb_true_iff in Hs as [Hs|Hs]; apply Z.eqb_eq in Hs; auto).
    destruct (Hsign Hs') as [Ek|Ek]; [left|right]; split; try done.
    - inversion Hk as [| | | |x Hx Ex|seq ty Hin Hty Ex]; subst; try discriminate Ek.
      + unfold print_symbol in E |- *. cbn in E |- *. by injection E as ->.
      + cbn in Ek. subst ty.
        assert (forallb (fun e => negb (bool_decide (e.2 = unary_operator))) ordered_mapping_table = true) as Hall by done.
        rewrite forallb_forall in Hall. by apply list_elem_of_In, Hall in Hin.
    - inversion Hk as [| | | |x Hx Ex|seq ty Hin Hty Ex]; subst; try discriminate Ek.
      cbn in Ek. subst ty. unfold print_symbol in E |- *. cbn in E |- *.
      assert (Forall (fun e => e.2 = additive_binary_operator -> e.1 = [ch "+"] \/ e.1 = [ch "-"] \/ e.1 = [ch "~"])
        ordered_mapping_table) as Hall.
      { unfold ordered_mapping_table. repeat (apply Forall_cons; split; [intros [=]; auto|]). constructor. }
      rewrite Forall_forall in Hall. destruct (Hall _ Hin eq_refl) as [E1|[E1|E1]]; cbn in E1; rewrite E1 in *;
        injection E as <- _; [done..|by destruct Hs']. }
  destruct ((c =? ch "-") || (c =? ch "+")) eqn:Hs.
  2: { rewrite andb_false_r. apply (lex_operators_symbol st p k r c); [done..|]. intros Ek.
       inversion Hk as [| | | |x Hx Ex|seq ty Hin Hty Ex]; subst; try discriminate Ek.
       - unfold print_symbol in E. cbn in E. injection E as ->.
         apply orb_false_iff in Hs as [H1 H2]. apply Z.eqb_neq in H1, H2. by destruct Hx.
       - cbn in Ek. subst ty.
         assert (forallb (fun e => negb (bool_decide (e.2 = unary_operator))) ordered_mapping_table = true) as Hall by done.
         rewrite forallb_forall in Hall. by apply list_elem_of_In, Hall in Hin. }
  assert (exists w', print_symbol k = [c] /\ w' = 32 :: r /\ drop p src = c :: w') as (w' & Ep & -> & Hdc).
  { destruct (Hkind eq_refl) as [(_ & Ep & _)|(_ & Ep & _)]; exists (32 :: r); rewrite Hd, Ep; done. }
  rewrite (next_view src p c 32 r _ Hdc). rewrite andb_false_r. cbn [negb andb].
  rewrite bool_decide_eq_false_2 by tauto.
  destruct (Hkind eq_refl) as [(Ek & _ & Ek2)|(Ek & _ & Ek2)]; unfold fits in Hfit; rewrite Ek, operand_eq in Hfit.
  - apply negb_true_iff in Hfit. rewrite Hfit. replace (S p) with (p + 1)%nat by lia.
    rewrite (consume_numeric_int src [] 32 r (p + 1)); [|by apply (drop_view src p [c]) in Hdc|constructor|done|done].
    bind_simpl. rewrite Ep, Ek, Ek2. unfold push. do 3 f_equal. simpl. lia.
  - apply orb_true_iff in Hfit as [Hfit|Hfit]; [|by apply bool_decide_eq_true in Hfit].
    rewrite Hfit. apply (lex_operators_symbol st p k r c); [done..|]. by rewrite Ek.
Qed.

(** The types after which the lexer reads a block and not text. *)
Definition inside_block (st : lexer_state) : Prop :=
  exists ty, (ty = open_expression \/ exists v, printable (ty, v)) /\ list.last ((fun k => t k) <$> tokens st) = Some ty.

Lemma printable_type ty v : printable (ty, v) ->
  ty <> close_statement /\ ty <> close_expression /\ ty <> comment /\ ty <> text /\ ty <> eof.
Proof.
  intros Hk. inversion Hk as [| | | | |seq ty' Hin Hty E]; subst; try by split_and!.
  assert (Forall (fun e => block_delimiter e.2 = false -> e.2 <> close_statement /\ e.2 <> close_expression /\
    e.2 <> comment /\ e.2 <> text /\ e.2 <> eof) ordered_mapping_table) as Hall.
  { unfold ordered_mapping_table. repeat (apply Forall_cons; split; [by intros; split_and!|]). constructor. }
  rewrite Forall_forall in Hall. by apply (Hall (v, ty) Hin).
Qed.

Lemma inside_block_last st ty0 : inside_block st -> exists ty, last_type st ty0 = ty /\ tokens st <> [] /\
  ty <> close_statement /\ ty <> close_expression /\ ty <> comment /\ ty <> text /\ ty <> eof.
Proof.
  intros (ty & Hty & Hl). exists ty. unfold last_type.
  rewrite fmap_last in Hl. destruct (list.last (tokens st)) as [k|] eqn:E; [|done]. cbn in Hl. injection Hl as ->.
  split; [done|]. split; [by intros H; rewrite H in E|].
  destruct Hty as [->|(v & Hv)]; [done | by eapply printable_type].
Qed.

(** Reading the space and then a block at [p + 1]. *)
Lemma lex_step_space st c r :
  inside_block st -> drop (pos st) src = 32 :: c :: r -> isspace c = false ->
  lex_step src st = lex_block src st (pos st + 1).
Proof.
  intros Hst Hd Hc. unfold lex_step.
  destruct (inside_block_last st close_statement Hst) as (ty & -> & _ & H1 & H2 & H3 & _ & _).
  rewrite bool_decide_eq_false_2 by set_solver. unfold lex_rest.
  destruct (char_at_view src _ _ _ Hd) as [_ ->]. bind_simpl.
  change (32 =? ch "{") with false. change (32 =? ch "-") with false. cbn [andb].
  rewrite (consume_span src isspace [32] c r); [|done|by apply Forall_singleton|done]. bind_simpl. cbn [length].
  pose proof (view_length src _ _ Hd ltac:(nonempty)) as Hl. cbn [length] in Hl.
  destruct (Nat.leb_spec (length src) (pos st + 1)); [lia|done].
Qed.

Lemma lex_step_symbol st k r :
  inside_block st -> printable k -> drop (pos st) src = 32 :: print_symbol k ++ 32 :: r ->
  fits (last_type st eof) k = true ->
  exists k', t k' = k.1 /\ value k' = k.2 /\
    lex_step src st = Ok (Continue (State (pos st + S (length (print_symbol k))) (tokens st ++ [k'])
      (new_depth (curly_bracket_depth st) k.1))).
Proof.
  intros Hst Hk Hd Hf. destruct (print_first k Hk) as (c & w & E & Hc & _).
  destruct (inside_block_last st eof Hst) as (ty & Hty & Hne & _ & _ & _ & H4 & H5).
  exists (Token k.1 k.2 (pos st + 1)). split; [done|]. split; [done|].
  rewrite (lex_step_space st c (w ++ 32 :: r)); [|done|by rewrite Hd, E|done].
  rewrite (lex_block_symbol st _ k r); [|done|by apply (drop_view src _ [32]) in Hd|done|by rewrite Hty..|done].
  do 3 f_equal. lia.
Qed.

Lemma lex_loop_symbols ks fuel st :
  Forall printable ks -> sequence (last_type st eof) ks = true -> inside_block st ->
  drop (pos st) src = concat ((fun k => 32 :: print_symbol k) <$> ks) ++ str " }}" ->
  depth_of (curly_bracket_depth st) ks = 0 -> (length ks + 2 <= fuel)%nat ->
  exists toks, lex_loop src fuel st = Ok (tokens st ++ toks) /\
    (fun k => (t k, value k)) <$> toks = ks ++ [(close_expression, str "}}")].
Proof.
  revert fuel st. induction ks as [|k ks IH]; intros fuel st Hks Hseq Hst Hd Hdep Hf.
  - destruct fuel as [|[|fuel]]; simpl in Hf; try lia. cbn in Hdep.
    change (drop (pos st) src = [32; 125; 125]) in Hd.
    pose proof (view_length src _ _ Hd ltac:(nonempty)) as Hl. cbn [length] in Hl. cbn [lex_loop].
    destruct (Nat.ltb_spec (pos st) (length src)) as [_|?]; [|lia].
    rewrite (lex_step_space st 125 [125]) by done. unfold lex_block.
    pose proof (drop_view src _ [32] _ Hd) as Hd1. cbn [length] in Hd1.
    destruct (char_at_view src _ _ _ Hd1) as [_ ->]. bind_simpl.
    change (125 =? ch "-") with false. change (125 =? ch "+") with false. cbn [andb orb negb].
    unfold lex_operators. rewrite table_view, Hd1, Hdep. change (table_at (0 <? 0) (take 3 [125; 125]))
      with (Some (str "}}", close_expression)).
    bind_simpl. cbn [pos tokens]. change (length (str "}}")) with 2%nat.
    destruct (Nat.ltb_spec (pos st + 1 + 2) (length src)); [lia|].
    exists [Token close_expression (str "}}") (pos st + 1)]. done.
  - destruct fuel as [|fuel]; [simpl in Hf; lia|]. apply Forall_cons in Hks as [Hk Hks].
    cbn [sequence] in Hseq. apply andb_true_iff in Hseq as [Hfit Hseq].
    assert (exists r, drop (pos st) src = 32 :: print_symbol k ++ 32 :: r) as [r Hr].
    { cbn [fmap list_fmap concat] in Hd. rewrite <- app_assoc in Hd. cbn [app] in Hd.
      destruct ks as [|k2 ks]; eexists; exact Hd. }
    destruct (lex_step_symbol st k r Hst Hk Hr Hfit) as (k' & Ht & Hv & E).
    cbn [lex_loop]. pose proof (view_length src _ _ Hr ltac:(nonempty)) as Hl. cbn [length] in Hl.
    destruct (Nat.ltb_spec (pos st) (length src)) as [_|?]; [|lia]. rewrite E. bind_simpl.
    assert (list.last (tokens st ++ [k']) = Some k') as Hlast by apply last_snoc.
    destruct (IH fuel (State (pos st + S (length (print_symbol k))) (tokens st ++ [k']) (new_depth (curly_bracket_depth st) k.1)))
      as (toks & E' & Htoks); cbn [pos tokens curly_bracket_depth].
    + done.
    + unfold last_type. cbn [tokens]. by rewrite Hlast, Ht.
    + exists k.1. cbn [tokens]. rewrite fmap_last, Hlast. cbn. rewrite Ht. split; [|done].
      right. exists k.2. by destruct k.
    + apply (drop_view src (pos st) (32 :: print_symbol k)). rewrite Hd. cbn [fmap list_fmap concat].
      by rewrite <- app_assoc.
    + done.
    + simpl in Hf. lia.
    + exists (k' :: toks). rewrite E'. cbn [tokens]. rewrite <- app_assoc. split; [done|].
      cbn [fmap list_fmap app]. f_equal; [by rewrite Ht, Hv; destruct k | done].
Qed.
End Step.

(** * Templates *)

Lemma crlf_cons c s : c <> carriage_return -> crlf_to_lf (c :: s) = c :: crlf_to_lf s.
Proof. intros Hc. destruct s; [done|]. cbn [crlf_to_lf]. by destruct (Z.eqb_spec c carriage_return). Qed.

Lemma normalise_id s : (forall c, c ∈ s -> c <> carriage_return) -> list.last s <> Some newline -> normalise s = s.
Proof.
  intros Hs Hl. unfold normalise. rewrite bool_decide_eq_false_2 by done.
  assert (crlf_to_lf s = s) as ->.
  { clear Hl. induction s as [|c s IH]; [done|].
    rewrite crlf_cons by (apply Hs; left). f_equal. apply IH. intros x Hx. apply Hs. by right. }
  clear Hl. induction s as [|c s IH]; [done|]. unfold cr_to_lf in *. cbn [fmap list_fmap].
  destruct (Z.eqb_spec c carriage_return) as [->|]; [by destruct (Hs carriage_return); [left|]|]. f_equal.
  apply IH. intros x Hx. apply Hs. by right.
Qed.

Lemma escape_no_cr s c : c ∈ escape s -> c <> carriage_return.
Proof.
  intros Hc. apply list_elem_of_In, in_concat in Hc as (l & Hl & Hc). apply list_elem_of_In in Hl, Hc.
  apply list_elem_of_fmap in Hl as (x & -> & _). revert Hc. unfold escape_char. destruct (Z.eqb_spec x single_quote), (Z.eqb_spec x backslash), (Z.eqb_spec x carriage_return);
    rewrite ?elem_of_cons, elem_of_nil; intros Hc; decompose [or] Hc; subst; done.
Qed.

Lemma print_no_cr k c : printable k -> c ∈ print_symbol k -> c <> carriage_return.
Proof.
  assert (forall c, is_word c = true -> c <> carriage_return) as Hw by (intros x Hx ->; done).
  assert (forall d c, Forall (fun c => is_integer c = true) d -> c ∈ d -> c <> carriage_return) as Hi.
  { intros d x Hd Hx ->. rewrite Forall_forall in Hd. by apply Hd in Hx. }
  intros Hk Hc. inversion Hk as [s E|x w Hx Hn Hf E|d Hne Hd E|d f Hne Hd Hfne Hf E|x Hx E|seq ty Hin Hty E]; subst;
    unfold print_symbol in Hc; cbn in Hc.
  - apply elem_of_cons in Hc as [->|[Hc| ->%list_elem_of_singleton]%elem_of_app]; [done | by eapply escape_no_cr | done].
  - rewrite Forall_forall in Hf. apply elem_of_cons in Hc as [->|Hc]; auto.
  - by eapply Hi.
  - apply elem_of_app in Hc as [Hc|[->|Hc]%elem_of_cons]; [by apply (Hi d) | done | by apply (Hi f)].
  - apply list_elem_of_singleton in Hc as ->. by destruct Hx as [-> | ->].
  - pose proof (table_print _ _ Hin) as Ep. unfold print_symbol in Ep. cbn in Ep. rewrite Ep in Hc.
    assert (forallb (fun e => forallb (fun c => negb (c =? carriage_return)) e.1) ordered_mapping_table = true) as Hall by done.
    rewrite forallb_forall in Hall. apply list_elem_of_In, Hall in Hin. rewrite forallb_forall in Hin.
    apply list_elem_of_In, Hin in Hc. by apply negb_true_iff, Z.eqb_neq in Hc.
Qed.

Lemma concat_no_cr ks c : Forall printable ks ->
  c ∈ concat ((fun k => 32 :: print_symbol k) <$> ks) -> c <> carriage_return.
Proof.
  intros Hks Hc. apply list_elem_of_In, in_concat in Hc as (l & Hl & Hc). apply list_elem_of_In in Hl, Hc.
  apply list_elem_of_fmap in Hl as (k & -> & Hk). rewrite Forall_forall in Hks.
  apply elem_of_cons in Hc as [->|Hc]; [done|]. eapply print_no_cr; [by apply Hks | done].
Qed.

(** The opening of an expression. *)
Lemma lex_step_open r :
  let src := ch "{" :: ch "{" :: 32 :: r in
  lex_step src (State 0 [] 0) = Ok (Continue (State 2 [Token open_expression (str "{{") 0] 0)).
Proof. reflexivity. Qed.

(** An expression printed from its symbols is read back: for any list of
    strings, names, numbers, signs and operators whose signs are binary after an
    operand and unary elsewhere, and with as many curly brackets closed as opened, the text with a
    space before each symbol and strings in single quotes with their escapes is
    lexed into exactly these symbols between the delimiters of the expression. *)
Theorem lexer_roundtrip ks :
  Forall printable ks -> sequence open_expression ks = true -> curly_balance ks = 0 ->
  exists toks, tokenize (print_expression ks) = Ok (toks, print_expression ks) /\
    (fun k => (t k, value k)) <$> toks =
      (open_expression, str "{{") :: ks ++ [(close_expression, str "}}")].
Proof.
  intros Hks Hseq Hbal. assert (depth_of 0 ks = 0) as Hdep by by rewrite depth_balance, Hbal.
  set (body := concat ((fun k => 32 :: print_symbol k) <$> ks) ++ str " }}").
  assert (exists r, body = 32 :: r) as [r Hr] by (unfold body; destruct ks; eexists; reflexivity).
  assert (print_expression ks = ch "{" :: ch "{" :: body) as Ep by done.
  assert (normalise (print_expression ks) = print_expression ks) as Hn.
  { apply normalise_id.
    - intros c Hc. rewrite Ep in Hc. unfold body in Hc.
      apply elem_of_cons in Hc as [->|[->|[Hc|Hc]%elem_of_app]%elem_of_cons]; [done|done|by eapply concat_no_cr|].
      change (str " }}") with [32; 125; 125] in Hc. set_unfold in Hc. unfold carriage_return. lia.
    - unfold print_expression. rewrite app_assoc, last_app. done. }
  unfold tokenize. rewrite Hn, Ep. cbv iota.
  set (src := ch "{" :: ch "{" :: body).
  destruct (lex_loop_symbols src ks (length src) (State 2 [Token open_expression (str "{{") 0] 0)) as (toks & E & Ht).
  - done.
  - done.
  - exists open_expression. split; [by left | done].
  - done.
  - done.
  - unfold src, body. cbn [length]. rewrite length_app. change (length (str " }}")) with 3%nat.
    enough (length ks <= length (concat ((fun k => 32%Z :: print_symbol k) <$> ks)))%nat by lia.
    clear. induction ks as [|k ks IH]; [done|]. cbn [fmap list_fmap concat]. rewrite length_app. simpl. lia.
  - exists (Token open_expression (str "{{") 0 :: toks). split.
    + cbn [lex_loop]. assert (lex_step src (State 0 [] 0) = Ok (Continue (State 2 [Token open_expression (str "{{") 0] 0))) as ->.
      { unfold src. rewrite Hr. apply lex_step_open. }
      bind_simpl. cbn [pos tokens] in *. rewrite E. done.
    + cbn. by rewrite Ht.
Qed.

Lemma lexer_roundtrip_witness :
  let ks := [(identifier, str "x"); (additive_binary_operator, str "-"); (unary_operator, str "-");
             (numeric_literal, str "2.5"); (comparison_binary_operator, str "=="); (string_literal, str "it's")] in
  exists toks, tokenize (print_expression ks) = Ok (toks, print_expression ks) /\
    (fun k => (t k, value k)) <$> toks = (open_expression, str "{{") :: ks ++ [(close_expression, str "}}")].
Proof.
  apply (lexer_roundtrip [(identifier, str "x"); (additive_binary_operator, str "-"); (unary_operator, str "-");
    (numeric_literal, str "2.5"); (comparison_binary_operator, str "=="); (string_literal, str "it's")]).
  - apply Forall_cons; split; [apply (print_word (ch "x") []); [done|done|constructor]|].
    apply Forall_cons; split; [apply print_operator; [repeat first [apply list_elem_of_here | apply list_elem_of_further] | done]|].
    apply Forall_cons; split; [apply print_sign; by left|].
    apply Forall_cons; split; [apply (print_decimal [ch "2"] [ch "5"]); [done | by repeat constructor | done | by repeat constructor]|].
    apply Forall_cons; split; [apply print_operator; [repeat first [apply list_elem_of_here | apply list_elem_of_further] | done]|].
    apply Forall_cons; split; [apply print_string | constructor].
  - reflexivity.
  - reflexivity.
Defined.

(** A template without blocks is one text: when the normalised source is not
    empty and no block starts in it, it is the only token, unchanged. *)
Theorem lexer_text source :
  source <> [] -> normalise source <> [] -> (forall p, block_at (normalise source) p = false) ->
  tokenize source = Ok ([Token text (normalise source) 0], normalise source).
Proof.
  intros Hne Hn Hb. destruct source as [|c source]; [done|]. unfold tokenize.
  set (src := normalise (c :: source)) in *.
  assert (0 < length src)%nat as Hl by (destruct src; simpl; [done|lia]).
  assert (forall fuel p, (p <= length src)%nat -> (length src <= fuel + p)%nat -> scan_text src fuel p = length src) as Hscan.
  { induction fuel as [|fuel IH]; intros p Hp Hf; cbn [scan_text]; [lia|]. rewrite Hb. cbn [negb].
    rewrite andb_true_r. destruct (Nat.ltb_spec p (length src)); [apply IH; lia | lia]. }
  assert (lex_text src 0 = Ok (src, length src)) as Ht.
  { unfold lex_text. change (last_block_flags src 0) with (false, false). cbv iota beta.
    rewrite Hscan by lia. assert (char_at src (length src) = Ok 0) as ->.
    { unfold char_at. rewrite (lookup_ge_None_2 src) by lia. by rewrite Nat.eqb_refl. }
    bind_simpl. change (0 =? ch "{") with false. cbn [andb]. rewrite Nat.sub_0_r, drop_0, firstn_all. done. }
  cbn [lex_loop pos]. destruct (Nat.ltb_spec 0 (length src)) as [_|?]; [|lia].
  unfold lex_step. cbn [pos]. rewrite bool_decide_eq_true_2 by set_solver. rewrite Ht. bind_simpl.
  rewrite bool_decide_eq_true_2 by done. unfold push. bind_simpl.
  destruct (length src) as [|n] eqn:E; [lia|]. cbn [lex_loop pos tokens]. rewrite E.
  destruct (Nat.ltb_spec (S n) (S n)); [lia | done].
Qed.

Lemma lexer_text_witness :
  tokenize (str "a { b" ++ [13; 10]) = Ok ([Token text (str "a { b") 0], str "a { b").
Proof.
  apply (lexer_text (str "a { b" ++ [13; 10])); [discriminate | discriminate |].
  intros p. destruct p as [|[|[|[|[|p]]]]]; reflexivity.
Defined.

(** A text at the start of a template that is one character and blanks loses the
    character when a statement follows. *)
Lemma first_character_lost : exists toks src,
  tokenize (str "x  {% a %}") = Ok (toks, src) /\ src = str "x  {% a %}" /\
  t <$> toks = [open_statement; identifier; close_statement].
Proof. eexists _, _. split; [vm_compute; reflexivity|]. split; reflexivity. Qed.

End JinjaLexerPrint.
