(* ===== verification/KvPlacement.v ===== *)
(** The names of the tensors of the KV cache (src/src/llama-kv-cache-placement.cpp):
    the parser that recovers the role, the layer and the split axis of a component
    from its name, and the decimal numbers such names and the tail requests of
    [KvTail] are written with. *)

From Stdlib Require Import Ascii.
From S2P Require Import Prelude.

(** * Decimal numbers *)

Module Digits.

(** [isdigit]. *)
Definition isdigit (c : Z) : bool := (48 <=? c) && (c <=? 57).

(** The value of a string of digits. *)
Definition value_from (n : Z) (ds : bytes) : Z := foldl (fun n c => n * 10 + (c - 48)) n ds.
Definition value_of (ds : bytes) : Z := value_from 0 ds.

(** The digits of [n], as [%d] and [std::to_string] write them; [fuel] is their
    greatest number. *)
Fixpoint decimal (fuel : nat) (n : Z) : bytes :=
  match fuel with
  | O => []
  | S fuel => if n <? 10 then [48 + n] else decimal fuel (n / 10) ++ [48 + n mod 10]
  end.

Definition all_digits (ds : bytes) : Prop := Forall (fun c => isdigit c = true) ds.

Lemma isdigit_range c : isdigit c = true <-> 0 <= c - 48 < 10.
Proof. unfold isdigit. lia. Qed.

Lemma value_app n ds es : value_from n (ds ++ es) = value_from (value_from n ds) es.
Proof. apply foldl_app. Qed.

Lemma value_from_le ds n : all_digits ds -> 0 <= n -> n <= value_from n ds.
Proof.
  intros H. revert n. induction H as [|c ds Hc H IH]; intros n Hn; cbn; [lia|].
  apply isdigit_range in Hc. specialize (IH (n * 10 + (c - 48))). unfold value_from in *. lia.
Qed.

Lemma decimal_ok fuel n : 0 <= n < 10 ^ Z.of_nat fuel -> (0 < fuel)%nat ->
  all_digits (decimal fuel n) /\ decimal fuel n <> [] /\ value_of (decimal fuel n) = n.
Proof.
  revert n. induction fuel as [|fuel IH]; intros n Hn Hf; [lia|]. cbn [decimal].
  rewrite Nat2Z.inj_succ, Z.pow_succ_r in Hn by lia.
  destruct (Z.ltb_spec n 10) as [Hlt|Hge].
  - split_and!; [apply Forall_singleton, isdigit_range; lia | done |]. unfold value_of, value_from. cbn. lia.
  - destruct fuel as [|fuel]; [change (10 ^ Z.of_nat 0) with 1 in Hn; lia|].
    destruct (IH (n / 10)) as (H1 & H2 & H3); [|lia|].
    { split; [apply Z.div_pos; lia | apply Z.div_lt_upper_bound; lia]. }
    pose proof (Z.mod_pos_bound n 10). split_and!.
    + apply Forall_app. split; [done|]. apply Forall_singleton, isdigit_range. lia.
    + by destruct (decimal _ _).
    + unfold value_of in *. rewrite value_app, H3. cbn. pose proof (Z.div_mod n 10). lia.
Qed.

End Digits.

Module KvPlacement.
Export Digits.

Inductive component_role :=
| UNKNOWN | STANDARD_K | STANDARD_V | STANDARD_K_TAIL | STANDARD_V_TAIL
| KVARN_K_RECORDS | KVARN_V_RECORDS | KVARN_K_STAGE | KVARN_V_STAGE | KVARN_K_TAIL | KVARN_V_TAIL.

#[export] Instance component_role_eq_dec : EqDecision component_role.
Proof. solve_decision. Defined.

Record llama_kv_cache_component := Component {
  valid : bool;
  role : component_role;
  layer_id : Z;
  split_axis : Z;
}.

Record component_pattern := Pattern {
  prefix : bytes;
  prole : component_role;
  axis : Z;
  allow_stream : bool;
}.

Definition patterns : list component_pattern :=
  [Pattern (str "cache_kvarn_k_records_l") KVARN_K_RECORDS 1 true;
   Pattern (str "cache_kvarn_v_records_l") KVARN_V_RECORDS 1 true;
   Pattern (str "cache_kvarn_k_stage_l") KVARN_K_STAGE 1 true;
   Pattern (str "cache_kvarn_v_stage_l") KVARN_V_STAGE 1 true;
   Pattern (str "cache_kvarn_k_tail_l") KVARN_K_TAIL 0 false;
   Pattern (str "cache_kvarn_v_tail_l") KVARN_V_TAIL 0 false;
   Pattern (str "cache_k_tail_l") STANDARD_K_TAIL 0 false;
   Pattern (str "cache_v_tail_l") STANDARD_V_TAIL 0 false;
   Pattern (str "cache_k_l") STANDARD_K 0 false;
   Pattern (str "cache_v_l") STANDARD_V 0 false].

(** The loop over the digits of the layer: the number, whether there was a digit,
    and the rest of the name; [None] when the number leaves 32 bits. *)
Fixpoint layer_digits (s : bytes) (parsed : Z) (any : bool) : option (Z * bool * bytes) :=
  match s with
  | c :: r =>
      if isdigit c then
        let parsed := u64 (u64 (parsed * 10) + (c - 48)) in
        if UINT32_MAX <? parsed then None else layer_digits r parsed true
      else Some (parsed, any, s)
  | [] => Some (parsed, any, [])
  end.

(** The digits of the stream run to the end of the name. *)
Fixpoint stream_digits (s : bytes) (any : bool) : bool :=
  match s with
  | c :: r => isdigit c && stream_digits r true
  | [] => any
  end.

Definition parse_cache_component_suffix (name pre : bytes) (allow_stream : bool) : option Z :=
  let n := length pre in
  if negb (bool_decide (take n name = pre)) || (n =? length name)%nat then None else
  match layer_digits (drop n name) 0 false with
  | None => None
  | Some (parsed, any, rest) =>
      if negb any then None
      else match rest with
           | [] => Some (u32 parsed)
           | _ =>
               if negb allow_stream || negb (bool_decide (take 2 rest = str "_s")) then None
               else if stream_digits (drop 2 rest) false then Some (u32 parsed) else None
           end
  end.

(** The first pattern that parses. *)
Fixpoint first_component (ps : list component_pattern) (name : bytes) : llama_kv_cache_component :=
  match ps with
  | [] => Component false UNKNOWN 0 (-1)
  | p :: ps =>
      match parse_cache_component_suffix name (prefix p) (allow_stream p) with
      | Some layer => Component true (prole p) layer (axis p)
      | None => first_component ps name
      end
  end.

Definition llama_kv_cache_component_from_name (name : bytes) : llama_kv_cache_component :=
  first_component patterns name.

(** * The names that are written *)

(** A name of the pattern: the prefix, the digits of the layer, and for the
    patterns that allow it the digits of a stream. *)
Inductive named (p : component_pattern) (layer : Z) : bytes -> Prop :=
| named_layer ds : ds <> [] -> all_digits ds -> value_of ds = layer -> layer <= UINT32_MAX ->
    named p layer (prefix p ++ ds)
| named_stream ds ss : allow_stream p = true -> ds <> [] -> all_digits ds -> value_of ds = layer ->
    layer <= UINT32_MAX -> ss <> [] -> all_digits ss -> named p layer (prefix p ++ ds ++ str "_s" ++ ss).

Lemma layer_digits_ok ds rest n any :
  all_digits ds -> 0 <= n <= UINT32_MAX -> (forall c r, rest = c :: r -> isdigit c = false) ->
  layer_digits (ds ++ rest) n any =
    if (length ds =? 0)%nat then Some (n, any, rest)
    else if value_from n ds <=? UINT32_MAX then Some (value_from n ds, true, rest) else None.
Proof.
  intros Hd. revert n any. induction Hd as [|c ds Hc Hd IH]; intros n any Hn Hr.
  - destruct rest as [|c r]; [done|]. cbn. by rewrite (Hr c r eq_refl).
  - cbn [app layer_digits length Nat.eqb]. rewrite Hc. apply isdigit_range in Hc.
    assert (value_from n (c :: ds) = value_from (n * 10 + (c - 48)) ds) as Ev by done.
    pose proof (value_from_le ds (n * 10 + (c - 48)) Hd ltac:(lia)) as Hle.
    assert (u64 (u64 (n * 10) + (c - 48)) = n * 10 + (c - 48)) as ->.
    { unfold UINT32_MAX in Hn. rewrite (u64_small (n * 10)) by lia. apply u64_small. lia. }
    rewrite Ev. destruct (Z.ltb_spec UINT32_MAX (n * 10 + (c - 48))).
    + by destruct (Z.leb_spec (value_from (n * 10 + (c - 48)) ds) UINT32_MAX); [lia|].
    + rewrite IH by (done || lia). destruct ds as [|d ds]; [|done].
      cbn. destruct (Z.leb_spec (n * 10 + (c - 48)) UINT32_MAX); [done | lia].
Qed.

Lemma stream_digits_ok s any : stream_digits s any = true <-> all_digits s /\ (s <> [] \/ any = true).
Proof.
  revert any. induction s as [|c s IH]; intros any; cbn [stream_digits].
  - unfold all_digits. split; [auto|]. intros [_ [?|?]]; done.
  - rewrite andb_true_iff, IH. unfold all_digits. rewrite Forall_cons. naive_solver.
Qed.

(** The digits a list begins with. *)
Lemma split_digits (s : bytes) : exists ds rest, s = ds ++ rest /\ all_digits ds /\
  (forall c r, rest = c :: r -> isdigit c = false).
Proof.
  induction s as [|c s (ds & rest & -> & Hd & Hr)]; [by exists [], []; split_and!; [|constructor|]|].
  destruct (isdigit c) eqn:E.
  - exists (c :: ds), rest. split_and!; [done | by constructor | done].
  - exists [], (c :: ds ++ rest). split_and!; [done | constructor |]. by intros ? ? [= <- _].
Qed.

Lemma take_prefix (p s : bytes) : take (length p) s = p <-> exists r, s = p ++ r.
Proof.
  split.
  - intros H. exists (drop (length p) s). by rewrite <- H at 1; rewrite take_drop.
  - intros [r ->]. by rewrite take_app_length.
Qed.

(** The suffix parser after the prefix. *)
Lemma parse_suffix_app pre ds rest allow :
  all_digits ds -> (forall c r, rest = c :: r -> isdigit c = false) -> ds ++ rest <> [] ->
  parse_cache_component_suffix (pre ++ ds ++ rest) pre allow =
    if bool_decide (ds = []) || (UINT32_MAX <? value_of ds) then None
    else if bool_decide (rest = []) then Some (value_of ds)
    else if allow && bool_decide (take 2 rest = str "_s") && stream_digits (drop 2 rest) false
         then Some (value_of ds) else None.
Proof.
  intros Hd Hr Hne. unfold parse_cache_component_suffix.
  rewrite take_app_length, bool_decide_eq_true_2 by done. cbn [negb orb].
  destruct (Nat.eqb_spec (length pre) (length (pre ++ ds ++ rest))) as [E|_].
  { rewrite length_app in E. destruct (ds ++ rest); simpl in *; [done|lia]. }
  rewrite drop_app_length, layer_digits_ok by (done || unfold UINT32_MAX; lia).
  pose proof (value_from_le ds 0 Hd ltac:(lia)) as Hv. change (value_from 0 ds) with (value_of ds) in *.
  destruct ds as [|c ds]; [done|]. rewrite (bool_decide_eq_false_2 (c :: ds = [])) by done. cbn [length Nat.eqb orb].
  destruct (Z.leb_spec (value_of (c :: ds)) UINT32_MAX), (Z.ltb_spec UINT32_MAX (value_of (c :: ds))); try lia; [|done].
  assert (u32 (value_of (c :: ds)) = value_of (c :: ds)) as E by (apply u32_small; unfold UINT32_MAX in *; lia).
  cbn [negb]. rewrite E. destruct rest as [|x rest]; [done|]. rewrite (bool_decide_eq_false_2 (x :: rest = [])) by done.
  destruct allow, (bool_decide _), (stream_digits _ _); done.
Qed.

Lemma parse_suffix_named p layer name :
  parse_cache_component_suffix name (prefix p) (allow_stream p) = Some layer <-> named p layer name.
Proof.
  split.
  - intros H. assert (exists s, name = prefix p ++ s /\ s <> []) as (s & -> & Hs).
    { unfold parse_cache_component_suffix in H. case_bool_decide as E; [|done]. apply take_prefix in E as [r ->].
      exists r. split; [done|]. intros ->. rewrite app_nil_r, Nat.eqb_refl in H. done. }
    destruct (split_digits s) as (ds & rest & -> & Hd & Hr). rewrite parse_suffix_app in H by done.
    case_bool_decide as Hds; [done|]. cbn [orb] in H. destruct (Z.ltb_spec UINT32_MAX (value_of ds)); [done|].
    case_bool_decide as Hrest.
    + injection H as <-. subst rest. rewrite app_nil_r. by apply named_layer.
    + destruct (_ && _) eqn:E; [|done]. injection H as <-.
      apply andb_true_iff in E as [[Ha Hu%bool_decide_eq_true]%andb_true_iff [Hss Hne]%stream_digits_ok].
      rewrite <- (take_drop 2 rest), Hu.
      apply named_stream; try done. by destruct Hne.
  - assert (forall c r, str "_s" = c :: r -> isdigit c = false) as Hus by by intros c r [= <- _].
    intros [ds Hne Hd <- Hl|ds ss Ha Hne Hd <- Hl Hsne Hss].
    + rewrite <- (app_nil_r ds) at 1. rewrite parse_suffix_app; [|done|done|by rewrite app_nil_r].
      rewrite bool_decide_eq_false_2 by done. destruct (Z.ltb_spec UINT32_MAX (value_of ds)); [lia|done].
    + rewrite parse_suffix_app; [|done|by intros c r [= <- _]|by destruct ds].
      rewrite bool_decide_eq_false_2 by done. destruct (Z.ltb_spec UINT32_MAX (value_of ds)); [lia|]. cbn [orb].
      rewrite (bool_decide_eq_false_2 (str "_s" ++ ss = [])) by done. rewrite Ha.
      change (take 2 (str "_s" ++ ss)) with (str "_s"). rewrite (bool_decide_eq_true_2 (str "_s" = str "_s")) by done.
      change (drop 2 (str "_s" ++ ss)) with ss. by rewrite (proj2 (stream_digits_ok ss false)) by auto.
Qed.

#[export] Instance component_pattern_eq_dec : EqDecision component_pattern.
Proof. solve_decision. Defined.

(** No prefix of the table begins another. *)
Lemma prefixes_disjoint p q : p ∈ patterns -> q ∈ patterns -> prefix p `prefix_of` prefix q -> p = q.
Proof.
  assert (forallb (fun p => forallb (fun q => negb (bool_decide (prefix p `prefix_of` prefix q)) || bool_decide (p = q))
    patterns) patterns = true) as H by (vm_compute; reflexivity).
  intros Hp Hq Hpre. rewrite forallb_forall in H. apply list_elem_of_In, H in Hp. rewrite forallb_forall in Hp.
  apply list_elem_of_In, Hp in Hq. apply orb_true_iff in Hq as [Hq|Hq]; bool_prop; done.
Qed.

Lemma named_prefix p layer name : named p layer name -> prefix p `prefix_of` name.
Proof. intros [ds _ _ _ _|ds ss _ _ _ _ _ _ _]; by eexists. Qed.

Lemma first_component_named ps p layer name :
  (forall q, q ∈ ps -> q ∈ patterns) -> p ∈ ps -> named p layer name ->
  first_component ps name = Component true (prole p) layer (axis p).
Proof.
  intros Hps Hp Hn. induction ps as [|q ps IH]; [by apply not_elem_of_nil in Hp|]. cbn [first_component].
  destruct (parse_cache_component_suffix name (prefix q) (allow_stream q)) as [l|] eqn:E.
  - pose proof (proj1 (parse_suffix_named q l name) E) as Hq.
    assert (q = p) as ->.
    { pose proof (Hps q ltac:(left)). pose proof (Hps p Hp).
      destruct (prefix_weak_total (prefix p) (prefix q) name (named_prefix _ _ _ Hn) (named_prefix _ _ _ Hq));
        [symmetry|]; by apply prefixes_disjoint. }
    apply parse_suffix_named in Hn. congruence.
  - apply elem_of_cons in Hp as [->|Hp]; [apply parse_suffix_named in Hn; congruence|].
    apply IH; [|done]. intros x Hx. apply Hps. by right.
Qed.

Lemma first_component_none ps name :
  (forall p layer, p ∈ ps -> ~ named p layer name) -> first_component ps name = Component false UNKNOWN 0 (-1).
Proof.
  induction ps as [|q ps IH]; intros H; [done|]. cbn [first_component].
  destruct (parse_cache_component_suffix name (prefix q) (allow_stream q)) as [l|] eqn:E.
  - apply parse_suffix_named in E. by destruct (H q l ltac:(left)).
  - apply IH. intros p layer Hp. apply H. by right.
Qed.

(** The component of a cache tensor is read from its name exactly: a name that
    is the prefix of a pattern and the digits of a layer within 32 bits, followed
    for the records and stages by [_s] and the digits of a stream, gives the role,
    the layer and the split axis of that pattern, whatever other patterns there
    are; every other name is refused. *)
Theorem component_from_name name :
  (forall p layer, p ∈ patterns -> named p layer name ->
     llama_kv_cache_component_from_name name = Component true (prole p) layer (axis p)) /\
  ((forall p layer, p ∈ patterns -> ~ named p layer name) ->
     llama_kv_cache_component_from_name name = Component false UNKNOWN 0 (-1)).
Proof.
  split.
  - intros p layer Hp Hn. by apply (first_component_named patterns p).
  - apply first_component_none.
Qed.

(** The names the caches give their tensors are read back. *)
Lemma component_from_name_witness :
  let name := str "cache_kvarn_k_stage_l" ++ decimal 10 27 ++ str "_s" ++ decimal 10 3 in
  llama_kv_cache_component_from_name name = Component true KVARN_K_STAGE 27 1.
Proof.
  destruct (component_from_name (str "cache_kvarn_k_stage_l" ++ decimal 10 27 ++ str "_s" ++ decimal 10 3)) as [H _].
  apply (H (Pattern (str "cache_kvarn_k_stage_l") KVARN_K_STAGE 1 true)).
  - apply list_elem_of_further, list_elem_of_further, list_elem_of_here.
  - apply (named_stream (Pattern (str "cache_kvarn_k_stage_l") KVARN_K_STAGE 1 true)); try reflexivity; try discriminate;
      repeat constructor.
Defined.

End KvPlacement.
