(* ===== verification/JinjaParser.v ===== *)
(** The parser of chat templates (src/common/jinja/parser.cpp): from the tokens of
    [JinjaLexer] to the nodes of src/common/jinja/runtime.h, by recursive descent.

    [current] is the argument and the second result of every function.  A [while] loop is
    [while_] with the step of its body, with a unit of fuel for each token and one more;
    the recursion through [parse_expression] and [parse_any] is closed at the end with the same
    fuel.  The assertions of the nodes' constructors on the kinds of their children, which
    only debug builds check, are left out.  [std::stod] is a parameter. *)

From Stdlib Require Import Ascii.
From S2P Require Import Prelude.
From S2P Require Import JinjaLexer.

Module JinjaParser.
Import JinjaLexer.

(** The exceptions: [parser_exception], [std::runtime_error], with its text or with the
    token it is about, and what [std::stoll] and [std::stod] throw. *)
Inductive parser_error :=
| ParserException (msg : bytes) (pos : nat)
| RuntimeError (msg : bytes)
| UnexpectedToken (v : bytes) (ty : token_type)
| StdException (s : bytes)
| OutOfRange
| OutOfFuel.

#[export] Instance parser_undef : Undef parser_error := OutOfRange.

Abbreviation R := (result parser_error).

Section Float.
Context {float : Type}.

(** The nodes, each with its position in the source. *)
Inductive statement :=
| CommentStatement (pos : nat) (val : bytes)
| IfStatement (pos : nat) (test : statement) (body alternate : list statement)
| ForStatement (pos : nat) (loopvar iterable : statement) (body default_block : list statement)
| BreakStatement (pos : nat)
| ContinueStatement (pos : nat)
| NoopStatement (pos : nat)
| SetStatement (pos : nat) (assignee : statement) (val : option statement) (body : list statement)
| MacroStatement (pos : nat) (name : statement) (args body : list statement)
| CallStatement (pos : nat) (call : statement) (caller_args body : list statement)
| FilterStatement (pos : nat) (filter : statement) (body : list statement)
| BlankExpression (pos : nat)
| MemberExpression (pos : nat) (object property : statement) (computed : bool)
| CallExpression (pos : nat) (callee : statement) (args : list statement)
| Identifier (pos : nat) (val : bytes)
| IntegerLiteral (pos : nat) (val : Z)
| FloatLiteral (pos : nat) (val : float)
| StringLiteral (pos : nat) (val : bytes)
| ArrayLiteral (pos : nat) (val : list statement)
| TupleLiteral (pos : nat) (val : list statement)
| ObjectLiteral (pos : nat) (val : list (statement * statement))
| BinaryExpression (pos : nat) (op : token) (left right : statement)
| UnaryExpression (pos : nat) (op : token) (argument : statement)
| FilterExpression (pos : nat) (operand filter : statement)
| SelectExpression (pos : nat) (lhs test : statement)
| TestExpression (pos : nat) (operand : statement) (negate : bool) (test : statement)
| TernaryExpression (pos : nat) (condition true_expr false_expr : statement)
| SliceExpression (pos : nat) (start_expr stop_expr step_expr : option statement)
| KeywordArgumentExpression (pos : nat) (key val : statement)
| SpreadExpression (pos : nat) (argument : statement).

(** ** The assertions of the constructors *)

(** The classes derived from [expression]. *)
Definition is_expression (s : statement) : bool :=
  match s with
  | CommentStatement _ _ | IfStatement _ _ _ _ | ForStatement _ _ _ _ _ | BreakStatement _ | ContinueStatement _
  | NoopStatement _ | SetStatement _ _ _ _ | MacroStatement _ _ _ _ | CallStatement _ _ _ _ | FilterStatement _ _ _ => false
  | _ => true
  end.
Definition is_identifier_node (s : statement) : bool := match s with Identifier _ _ => true | _ => false end.
Definition is_call (s : statement) : bool := match s with CallExpression _ _ _ => true | _ => false end.
Definition is_tuple (s : statement) : bool := match s with TupleLiteral _ _ => true | _ => false end.

(** The node and all nodes below it pass the tests of [chk_type] on the kinds of their
    children, which builds with assertions make. *)
Fixpoint checked (s : statement) : bool :=
  let chk (kind : statement -> bool) x := kind x && checked x in
  let optional x := match x with Some x => chk is_expression x | None => true end in
  let filter_kind x := is_identifier_node x || is_call x in
  match s with
  | IfStatement _ c b a => chk is_expression c && forallb checked b && forallb checked a
  | ForStatement _ v i b d =>
      chk (fun v => is_identifier_node v || is_tuple v) v && chk is_expression i && forallb checked b && forallb checked d
  | SetStatement _ a v b => chk is_expression a && optional v && forallb checked b
  | MacroStatement _ n a b => chk is_identifier_node n && forallb (chk is_expression) a && forallb checked b
  | CallStatement _ c a b => chk is_call c && forallb (chk is_expression) a && forallb checked b
  | FilterStatement _ f b => chk filter_kind f && forallb checked b
  | MemberExpression _ o p _ => chk is_expression o && chk is_expression p
  | CallExpression _ c a => chk is_expression c && forallb (chk is_expression) a
  | ArrayLiteral _ l | TupleLiteral _ l => forallb (chk is_expression) l
  | ObjectLiteral _ l => forallb (fun p => chk is_expression p.1 && chk is_expression p.2) l
  | BinaryExpression _ _ l r => chk is_expression l && chk is_expression r
  | UnaryExpression _ _ x | SpreadExpression _ x => chk is_expression x
  | FilterExpression _ o f | TestExpression _ o _ f => chk is_expression o && chk filter_kind f
  | SelectExpression _ l c => chk is_expression l && chk is_expression c
  | TernaryExpression _ c x y => chk is_expression c && chk is_expression x && chk is_expression y
  | SliceExpression _ a b c => optional a && optional b && optional c
  | KeywordArgumentExpression _ k v => chk is_identifier_node k && chk is_expression v
  | _ => true
  end.

(** ** Numbers *)

Fixpoint skip_spaces (s : bytes) : bytes :=
  match s with c :: r => if isspace c then skip_spaces r else s | [] => [] end.

Fixpoint leading_digits (s : bytes) : bytes :=
  match s with c :: r => if is_integer c then c :: leading_digits r else [] | [] => [] end.

(** [std::stoll]: blanks, a sign, digits; what follows them is ignored. *)
Definition stoll (s : bytes) : R Z :=
  let r := skip_spaces s in
  let '(negative, r) :=
    match r with
    | c :: d => if c =? ch "-" then (true, d) else if c =? ch "+" then (false, d) else (false, r)
    | [] => (false, [])
    end in
  let digits := leading_digits r in
  let n := foldl (fun n c => n * 10 + (c - ch "0")) 0 digits in
  let n := if negative : bool then - n else n in
  if negb (length digits =? 0)%nat && (- 2 ^ 63 <=? n) && (n <? 2 ^ 63) then Ok n else Error (StdException s).

(** ** Loops *)

(** A step stops the loop with [None]. *)
Fixpoint while_ {St} (fuel : nat) (step : St -> nat -> R (option (St * nat))) (st : St) (current : nat)
    : R (St * nat) :=
  match fuel with
  | O => Error OutOfFuel
  | S fuel =>
      o ← step st current;
      match o with
      | None => Ok (st, current)
      | Some r => while_ fuel step r.1 r.2
      end
  end.

Section Parser.
Context (stod : bytes -> option float) (tokens : list token).

Definition budget : nat := S (length tokens).

(** ** Tokens *)

Definition peek (current offset : nat) : token :=
  default (Token eof [] 0) (tokens !! (current + offset)%nat).

Definition next (current : nat) : R (token * nat) :=
  match tokens !! current with
  | Some k => Ok (k, S current)
  | None => Error (ParserException (str "Parser Error: Unexpected EOF")
                     (match list.last tokens with Some k => tpos k | None => 0%nat end))
  end.

Definition expect (ty : token_type) (error : bytes) (current : nat) : R nat :=
  let k := peek current 0 in
  if bool_decide (t k = ty) then Ok (S current)
  else Error (ParserException (str "Parser Error: " ++ error ++ str " (Got " ++ value k ++ str ")") (tpos k)).

Definition is_ (ty : token_type) (current : nat) : bool := bool_decide (t (peek current 0) = ty).

Definition is_identifier (name : bytes) (current : nat) : bool :=
  bool_decide (t (peek current 0) = identifier /\ value (peek current 0) = name).

Definition expect_identifier (name : bytes) (current : nat) : R nat :=
  if is_identifier name current then Ok (S current)
  else Error (ParserException (str "Expected identifier: " ++ name) (tpos (peek current 0))).

Definition is_statement (names : list bytes) (current : nat) : bool :=
  bool_decide (t (peek current 0) = open_statement /\ t (peek current 1) = identifier /\ value (peek current 1) ∈ names).

(** The position that [mk_stmt] gives to a node. *)
Definition mk_stmt (start_pos : nat) : R nat := k ← at_ tokens start_pos; Ok (tpos k).

(** ** Expressions *)

Section Expressions.
Variable parse_expression : nat -> R (statement * nat).

(** Expressions with commas between them. *)
Definition sequence_step (element : nat -> R (statement * nat)) (exprs : list statement) (current : nat)
    : R (option (list statement * nat)) :=
  if is_ comma current then e ← element (S current); Ok (Some (exprs ++ [e.1], e.2)) else Ok None.

Definition sequence_of (element : nat -> R (statement * nat)) (current : nat) : R (statement * nat) :=
  e ← element current;
  let is_tuple := is_ comma e.2 in
  k ← while_ budget (sequence_step element) [e.1] e.2;
  if is_tuple then p ← mk_stmt current; Ok (TupleLiteral p k.1, k.2) else Ok (e.1, k.2).

Definition skip_comma (current : nat) : nat := if is_ comma current then S current else current.

Definition string_step (val : bytes) (current : nat) : R (option (bytes * nat)) :=
  if is_ string_literal current then k ← next current; Ok (Some (val ++ value k.1, k.2)) else Ok None.

Definition array_step (vals : list statement) (current : nat) : R (option (list statement * nat)) :=
  if is_ close_square_bracket current then Ok None else
  e ← parse_expression current; Ok (Some (vals ++ [e.1], skip_comma e.2)).

Definition object_step (pairs : list (statement * statement)) (current : nat)
    : R (option (list (statement * statement) * nat)) :=
  if is_ close_curly_bracket current then Ok None else
  key ← parse_expression current;
  c ← expect colon (str "Expected :") key.2;
  v ← parse_expression c;
  Ok (Some (pairs ++ [(key.1, v.1)], skip_comma v.2)).

Definition parse_primary_expression (current : nat) : R (statement * nat) :=
  let start_pos := current in
  k ← next current;
  let '(tok, current) := k in
  match t tok with
  | numeric_literal =>
      if bool_decide (ch "." ∈ value tok) then
        match stod (value tok) with
        | Some f => p ← mk_stmt start_pos; Ok (FloatLiteral p f, current)
        | None => Error (StdException (value tok))
        end
      else n ← stoll (value tok); p ← mk_stmt start_pos; Ok (IntegerLiteral p n, current)
  | string_literal =>
      v ← while_ budget string_step (value tok) current;
      p ← mk_stmt start_pos; Ok (StringLiteral p v.1, v.2)
  | identifier => p ← mk_stmt start_pos; Ok (Identifier p (value tok), current)
  | open_paren =>
      e ← sequence_of parse_expression current;
      c ← expect close_paren (str "Expected )") e.2;
      Ok (e.1, c)
  | open_square_bracket =>
      v ← while_ budget array_step [] current;
      p ← mk_stmt start_pos; Ok (ArrayLiteral p v.1, S v.2)
  | open_curly_bracket =>
      v ← while_ budget object_step [] current;
      p ← mk_stmt start_pos; Ok (ObjectLiteral p v.1, S v.2)
  | ty => Error (UnexpectedToken (value tok) ty)
  end.

Definition parse_expression_sequence (primary : bool) (current : nat) : R (statement * nat) :=
  sequence_of (if primary then parse_primary_expression else parse_expression) current.

(** *** Members and calls *)

(** The parts of a slice, [None] where one is left out, and whether there was a colon. *)
Definition slices_step (st : list (option statement) * bool) (current : nat)
    : R (option (list (option statement) * bool * nat)) :=
  if is_ close_square_bracket current then Ok None else
  if is_ colon current then Ok (Some (st.1 ++ [None], true, S current)) else
  e ← parse_expression current;
  if is_ colon e.2 then Ok (Some (st.1 ++ [Some e.1], true, S e.2))
  else Ok (Some (st.1 ++ [Some e.1], st.2, e.2)).

Definition parse_member_expression_arguments (current : nat) : R (statement * nat) :=
  let start_pos := current in
  v ← while_ budget slices_step ([], false) current;
  let '(slices, is_slice, current) := v in
  if is_slice : bool then
    p ← mk_stmt start_pos;
    Ok (SliceExpression p (mjoin (slices !! 0%nat)) (mjoin (slices !! 1%nat)) (mjoin (slices !! 2%nat)), current)
  else
    match slices with
    | [] => p ← mk_stmt start_pos; Ok (BlankExpression p, current)
    | Some s :: _ => Ok (s, current)
    | None :: _ => Error OutOfRange
    end.

Definition member_step (start_pos : nat) (object : statement) (current : nat) : R (option (statement * nat)) :=
  if is_ dot current || is_ open_square_bracket current then
    op ← next current;
    let computed := bool_decide (t op.1 = open_square_bracket) in
    prop ← (if computed then
              a ← parse_member_expression_arguments op.2;
              c ← expect close_square_bracket (str "Expected ]") a.2;
              Ok (a.1, c)
            else parse_primary_expression op.2);
    p ← mk_stmt start_pos;
    Ok (Some (MemberExpression p object prop.1 computed, prop.2))
  else Ok None.

Definition parse_member_expression (object : statement) (current : nat) : R (statement * nat) :=
  while_ budget (member_step current) object current.

(** One argument: [*expr], [key = expr] or an expression. *)
Definition parse_arg (current : nat) : R (statement * nat) :=
  if bool_decide (t (peek current 0) = multiplicative_binary_operator /\ value (peek current 0) = str "*") then
    e ← parse_expression (S current);
    p ← mk_stmt current;
    Ok (SpreadExpression p e.1, e.2)
  else
    arg ← parse_expression current;
    if is_ equals arg.2 then
      e ← parse_expression (S arg.2);
      p ← mk_stmt arg.2;
      Ok (KeywordArgumentExpression p arg.1 e.1, e.2)
    else Ok arg.

Definition args_step (args : list statement) (current : nat) : R (option (list statement * nat)) :=
  if is_ close_paren current then Ok None else
  arg ← parse_arg current; Ok (Some (args ++ [arg.1], skip_comma arg.2)).

Definition parse_args (current : nat) : R (list statement * nat) :=
  c ← expect open_paren (str "Expected (") current;
  v ← while_ budget args_step [] c;
  c ← expect close_paren (str "Expected )") v.2;
  Ok (v.1, c).

Fixpoint call_expression (fuel : nat) (callee : statement) (current : nat) : R (statement * nat) :=
  match fuel with
  | O => Error OutOfFuel
  | S fuel =>
      args ← parse_args current;
      p ← mk_stmt current;
      member ← parse_member_expression (CallExpression p callee args.1) args.2;
      if is_ open_paren member.2 then call_expression fuel member.1 member.2 else Ok member
  end.

Definition parse_call_expression (callee : statement) (current : nat) : R (statement * nat) :=
  call_expression budget callee current.

Definition parse_call_member_expression (current : nat) : R (statement * nat) :=
  e ← parse_primary_expression current;
  member ← parse_member_expression e.1 e.2;
  if is_ open_paren member.2 then parse_call_expression member.1 member.2 else Ok member.

(** *** Filters and tests *)

(** A primary expression, and a call of it if there are arguments. *)
Definition primary_or_call (current : nat) : R (statement * nat) :=
  e ← parse_primary_expression current;
  if is_ open_paren e.2 then parse_call_expression e.1 e.2 else Ok e.

Definition filter_step (operand : statement) (current : nat) : R (option (statement * nat)) :=
  if is_ pipe current then
    filter ← primary_or_call (S current);
    p ← mk_stmt current;
    Ok (Some (FilterExpression p operand filter.1, filter.2))
  else Ok None.

Definition parse_filter_expression (current : nat) : R (statement * nat) :=
  operand ← parse_call_member_expression current;
  while_ budget filter_step operand.1 operand.2.

Definition test_step (operand : statement) (current : nat) : R (option (statement * nat)) :=
  if is_identifier (str "is") current then
    let negate := is_identifier (str "not") (S current) in
    test_id ← primary_or_call (if negate then S (S current) else S current);
    p ← mk_stmt current;
    Ok (Some (TestExpression p operand negate test_id.1, test_id.2))
  else Ok None.

Definition parse_test_expression (current : nat) : R (statement * nat) :=
  operand ← parse_filter_expression current;
  while_ budget test_step operand.1 operand.2.

(** *** Operators *)

Definition binary_step (op_at : nat -> option (token * nat)) (parse_operand : nat -> R (statement * nat))
    (left : statement) (current : nat) : R (option (statement * nat)) :=
  match op_at current with
  | None => Ok None
  | Some op =>
      right ← parse_operand op.2;
      p ← mk_stmt current;
      Ok (Some (BinaryExpression p op.1 left right.1, right.2))
  end.

Definition binary_loop (op_at : nat -> option (token * nat)) (parse_operand : nat -> R (statement * nat))
    (current : nat) : R (statement * nat) :=
  left ← parse_operand current;
  while_ budget (binary_step op_at parse_operand) left.1 left.2.

Definition type_op (ty : token_type) (current : nat) : option (token * nat) :=
  if is_ ty current then Some (peek current 0, S current) else None.

Definition identifier_op (name : bytes) (current : nat) : option (token * nat) :=
  if is_identifier name current then Some (peek current 0, S current) else None.

Definition comparison_op (current : nat) : option (token * nat) :=
  if is_identifier (str "not") current && is_identifier (str "in") (S current) then
    Some (Token identifier (str "not in") (tpos (peek current 0)), S (S current))
  else if is_identifier (str "in") current then Some (peek current 0, S current)
  else type_op comparison_binary_operator current.

Definition parse_multiplicative_expression : nat -> R (statement * nat) :=
  binary_loop (type_op multiplicative_binary_operator) parse_test_expression.

Definition parse_additive_expression : nat -> R (statement * nat) :=
  binary_loop (type_op additive_binary_operator) parse_multiplicative_expression.

Definition parse_comparison_expression : nat -> R (statement * nat) :=
  binary_loop comparison_op parse_additive_expression.

Fixpoint negation_expression (fuel : nat) (current : nat) : R (statement * nat) :=
  match fuel with
  | O => Error OutOfFuel
  | S fuel =>
      if is_identifier (str "not") current then
        op ← next current;
        e ← negation_expression fuel op.2;
        p ← mk_stmt current;
        Ok (UnaryExpression p op.1 e.1, e.2)
      else parse_comparison_expression current
  end.

Definition parse_logical_negation_expression (current : nat) : R (statement * nat) :=
  negation_expression budget current.

Definition parse_logical_and_expression : nat -> R (statement * nat) :=
  binary_loop (identifier_op (str "and")) parse_logical_negation_expression.

Definition parse_logical_or_expression : nat -> R (statement * nat) :=
  binary_loop (identifier_op (str "or")) parse_logical_and_expression.

Definition parse_if_expression (current : nat) : R (statement * nat) :=
  a ← parse_logical_or_expression current;
  if is_identifier (str "if") a.2 then
    let start_pos := a.2 in
    test ← parse_logical_or_expression (S a.2);
    if is_identifier (str "else") test.2 then
      let pos0 := test.2 in
      false_expr ← parse_expression (S test.2);
      p ← mk_stmt pos0;
      Ok (TernaryExpression p test.1 a.1 false_expr.1, false_expr.2)
    else
      p ← mk_stmt start_pos;
      Ok (SelectExpression p a.1 test.1, test.2)
  else Ok a.
End Expressions.

(** [parse_expression] is [parse_if_expression]. *)
Fixpoint parse_expression_at (fuel : nat) (current : nat) : R (statement * nat) :=
  match fuel with
  | O => Error OutOfFuel
  | S fuel => parse_if_expression (parse_expression_at fuel) current
  end.

Definition parse_expression : nat -> R (statement * nat) := parse_expression_at (S budget).

(** ** Statements *)

Section Statements.
Variable parse_any : nat -> R (statement * nat).

Definition until_step (names : list bytes) (body : list statement) (current : nat) : R (option (list statement * nat)) :=
  if is_statement names current then Ok None else
  s ← parse_any current; Ok (Some (body ++ [s.1], s.2)).

(** [while (!is_statement(names)) body.push_back(parse_any());] *)
Definition parse_until (names : list bytes) (current : nat) : R (list statement * nat) :=
  while_ budget (until_step names) [] current.

Definition close (current : nat) : R nat := expect close_statement (str "Expected %}") current.

(** The end [{% name %}] of a block. *)
Definition expect_end (name : bytes) (current : nat) : R nat :=
  c ← expect open_statement (str "Expected {%") current;
  c ← expect_identifier name c;
  close c.

Definition parse_set_statement (start_pos current : nat) : R (statement * nat) :=
  left ← parse_expression_sequence parse_expression false current;
  if is_ equals left.2 then
    v ← parse_expression_sequence parse_expression false (S left.2);
    c ← close v.2;
    p ← mk_stmt start_pos;
    Ok (SetStatement p left.1 (Some v.1) [], c)
  else
    c ← close left.2;
    body ← parse_until [str "endset"] c;
    c ← expect_end (str "endset") body.2;
    p ← mk_stmt start_pos;
    Ok (SetStatement p left.1 None body.1, c).

Fixpoint if_statement (fuel : nat) (start_pos current : nat) : R (statement * nat) :=
  match fuel with
  | O => Error OutOfFuel
  | S fuel =>
      test ← parse_expression current;
      c ← close test.2;
      body ← parse_until [str "elif"; str "else"; str "endif"] c;
      alternate ← (if is_statement [str "elif"] body.2 then
                     s ← if_statement fuel body.2 (S (S body.2)); Ok ([s.1], s.2)
                   else if is_statement [str "else"] body.2 then
                     c ← close (S (S body.2)); parse_until [str "endif"] c
                   else Ok ([], body.2));
      p ← mk_stmt start_pos;
      Ok (IfStatement p test.1 body.1 alternate.1, alternate.2)
  end.

Definition parse_if_statement (start_pos current : nat) : R (statement * nat) := if_statement budget start_pos current.

Definition parse_macro_statement (start_pos current : nat) : R (statement * nat) :=
  name ← parse_primary_expression parse_expression current;
  args ← parse_args parse_expression name.2;
  c ← close args.2;
  body ← parse_until [str "endmacro"] c;
  p ← mk_stmt start_pos;
  Ok (MacroStatement p name.1 args.1 body.1, body.2).

Definition parse_for_statement (start_pos current : nat) : R (statement * nat) :=
  loop_var ← parse_expression_sequence parse_expression true current;
  _ ← ensure (is_identifier (str "in") loop_var.2) (RuntimeError (str "Expected 'in'"));
  iterable ← parse_expression (S loop_var.2);
  c ← close iterable.2;
  body ← parse_until [str "endfor"; str "else"] c;
  alternate ← (if is_statement [str "else"] body.2 then
                 c ← close (S (S body.2)); parse_until [str "endfor"] c
               else Ok ([], body.2));
  p ← mk_stmt start_pos;
  Ok (ForStatement p loop_var.1 iterable.1 body.1 alternate.1, alternate.2).

Definition is_type_identifier (s : statement) : bool := match s with Identifier _ _ => true | _ => false end.

Definition parse_call_statement (start_pos current : nat) : R (statement * nat) :=
  caller_args ← (if is_ open_paren current then parse_args parse_expression current else Ok ([], current));
  callee ← parse_primary_expression parse_expression caller_args.2;
  _ ← ensure (is_type_identifier callee.1) (RuntimeError (str "Expected identifier"));
  call_args ← parse_args parse_expression callee.2;
  c ← close call_args.2;
  body ← parse_until [str "endcall"] c;
  c ← expect_end (str "endcall") body.2;
  p ← mk_stmt start_pos;
  Ok (CallStatement p (CallExpression p callee.1 call_args.1) caller_args.1 body.1, c).

Definition parse_filter_statement (start_pos current : nat) : R (statement * nat) :=
  filter_node ← parse_primary_expression parse_expression current;
  filter_node ← (if is_type_identifier filter_node.1 && is_ open_paren filter_node.2
                 then parse_call_expression parse_expression filter_node.1 filter_node.2 else Ok filter_node);
  c ← close filter_node.2;
  body ← parse_until [str "endfilter"] c;
  c ← expect_end (str "endfilter") body.2;
  p ← mk_stmt start_pos;
  Ok (FilterStatement p filter_node.1 body.1, c).

(** A statement that its end follows. *)
Definition before_end (name : bytes) (r : R (statement * nat)) : R (statement * nat) :=
  s ← r; c ← expect_end name s.2; Ok (s.1, c).

Definition parse_jinja_statement (current : nat) : R (statement * nat) :=
  c ← expect open_statement (str "Expected {%") current;
  _ ← ensure (is_ identifier c) (RuntimeError (str "Unknown statement"));
  let start_pos := c in
  k ← next c;
  let name := value k.1 in
  let current := k.2 in
  if bool_decide (name = str "set") then parse_set_statement start_pos current
  else if bool_decide (name = str "if") then before_end (str "endif") (parse_if_statement start_pos current)
  else if bool_decide (name = str "macro") then before_end (str "endmacro") (parse_macro_statement start_pos current)
  else if bool_decide (name = str "for") then before_end (str "endfor") (parse_for_statement start_pos current)
  else if bool_decide (name = str "break") then c ← close current; p ← mk_stmt start_pos; Ok (BreakStatement p, c)
  else if bool_decide (name = str "continue") then c ← close current; p ← mk_stmt start_pos; Ok (ContinueStatement p, c)
  else if bool_decide (name = str "call") then parse_call_statement start_pos current
  else if bool_decide (name = str "filter") then parse_filter_statement start_pos current
  else if bool_decide (name = str "generation" \/ name = str "endgeneration") then
    p ← mk_stmt start_pos; Ok (NoopStatement p, S current)
  else Error (RuntimeError (str "Unknown statement: " ++ name)).

Definition parse_jinja_expression (current : nat) : R (statement * nat) :=
  c ← expect open_expression (str "Expected {{") current;
  e ← parse_expression c;
  c ← expect close_expression (str "Expected }}") e.2;
  Ok (e.1, c).

Definition parse_any_step (current : nat) : R (statement * nat) :=
  match t (peek current 0) with
  | comment => k ← next current; p ← mk_stmt current; Ok (CommentStatement p (value k.1), k.2)
  | text => k ← next current; p ← mk_stmt current; Ok (StringLiteral p (value k.1), k.2)
  | open_statement => parse_jinja_statement current
  | open_expression => parse_jinja_expression current
  | _ => Error (RuntimeError (str "Unexpected token type"))
  end.
End Statements.

Fixpoint parse_any_at (fuel : nat) (current : nat) : R (statement * nat) :=
  match fuel with
  | O => Error OutOfFuel
  | S fuel => parse_any_step (parse_any_at fuel) current
  end.

Definition parse_any : nat -> R (statement * nat) := parse_any_at (S budget).

Definition parse_step (body : list statement) (current : nat) : R (option (list statement * nat)) :=
  if (current <? length tokens)%nat then s ← parse_any current; Ok (Some (body ++ [s.1], s.2)) else Ok None.

(** The body of the program. *)
Definition parse : R (list statement) := r ← while_ budget parse_step [] 0%nat; Ok r.1.

End Parser.
End Float.
Arguments statement : clear implicits.

(** [parse_from_tokens]. *)
Definition parse_from_tokens {float} (stod : bytes -> option float) (lexer_res : list token * bytes)
    : R (list (statement float)) := parse stod lexer_res.1.

End JinjaParser.
