(* ===== verification/JinjaParserTerm.v ===== *)
(** The parser of chat templates returns: on any tokens it ends with a program or with one
    of its exceptions, without reading out of range and within the fuel. *)

From Stdlib Require Import Ascii.
From S2P Require Import Prelude.
From S2P Require Import JinjaLexer.
From S2P Require Import JinjaParser.

Module JinjaParserTerm.
Import JinjaLexer.
Import JinjaParser.

(** What the code throws. *)
Definition exception (e : parser_error) : Prop :=
  match e with OutOfRange | OutOfFuel => False | _ => True end.

(** A run ends with a result in [P] or with an exception. *)
Definition post {A} (P : A -> Prop) (r : R A) : Prop :=
  match r with Ok x => P x | Error e => exception e end.

Lemma post_bind {A B} (P : A -> Prop) (Q : B -> Prop) (r : R A) (k : A -> R B) :
  post P r -> (forall x, P x -> post Q (k x)) -> post Q (r ≫= k).
Proof. destruct r; simpl; auto. Qed.

Lemma post_weaken {A} (P Q : A -> Prop) (r : R A) : post P r -> (forall x, P x -> Q x) -> post Q r.
Proof. destruct r; simpl; auto. Qed.

Lemma post_ensure (b : bool) e : exception e -> post (fun _ => b = true) (ensure b e).
Proof. by destruct b. Qed.

Lemma stoll_post s : post (fun _ => True) (stoll s).
Proof. unfold stoll. destruct (match skip_spaces s with [] => _ | c :: d => _ end) as [b r]. by destruct (_ && _). Qed.

Section Parser.
Context {float : Type} (stod : bytes -> option float) (tokens : list token).
Abbreviation statement := (statement float).
Abbreviation len := (length tokens).

(** The function took at least one token, which is there. *)
Definition took {A} (current : nat) (x : A * nat) : Prop := (current < len)%nat /\ (current < x.2)%nat.
Definition not_back {A} (current : nat) (x : A * nat) : Prop := (current <= x.2)%nat.

Abbreviation takes := (fun (f : nat -> R (statement * nat)) c => post (took c) (f c)).

Lemma peek_lt current offset : t (peek tokens current offset) <> eof -> (current + offset < len)%nat.
Proof.
  unfold peek. intros H. destruct (decide (current + offset < len)%nat) as [|Hge]; [done|].
  by rewrite lookup_ge_None_2 in H by lia.
Qed.

Lemma is_lt ty current : is_ tokens ty current = true -> ty <> eof -> (current < len)%nat.
Proof.
  intros H%bool_decide_eq_true Hty. rewrite <- (Nat.add_0_r current). apply peek_lt. by rewrite H.
Qed.

Lemma is_identifier_lt name current : is_identifier tokens name current = true -> (current < len)%nat.
Proof.
  intros [H _]%bool_decide_eq_true. rewrite <- (Nat.add_0_r current). apply peek_lt. by rewrite H.
Qed.

Lemma is_statement_lt names current : is_statement tokens names current = true -> (current < len)%nat.
Proof.
  intros (H & _)%bool_decide_eq_true. rewrite <- (Nat.add_0_r current). apply peek_lt. by rewrite H.
Qed.

Lemma next_post current : post (fun x => took current x /\ x.2 = S current /\ tokens !! current = Some x.1) (next tokens current).
Proof.
  unfold next. destruct (tokens !! current) as [k|] eqn:E; [|done]. apply lookup_lt_Some in E as H. unfold took. simpl. split_and!; (done || lia).
Qed.

Lemma expect_post ty error current : ty <> eof ->
  post (fun c => c = S current /\ (current < len)%nat) (expect tokens ty error current).
Proof.
  intros Hty. unfold expect. case_bool_decide as E; [|done]. split; [done|]. apply (is_lt ty); [|done]. by apply bool_decide_eq_true.
Qed.

Lemma expect_identifier_post name current :
  post (fun c => c = S current /\ (current < len)%nat) (expect_identifier tokens name current).
Proof. unfold expect_identifier. destruct (is_identifier tokens name current) eqn:E; [|done]. split; [done|]. by eapply is_identifier_lt. Qed.

Lemma mk_stmt_post current : (current < len)%nat -> post (fun _ => True) (mk_stmt tokens current).
Proof. intros [k H]%lookup_lt_is_Some_2. unfold mk_stmt. by rewrite (at_lookup _ _ _ H). Qed.

(** What a step of a loop must do: stop, or take a token. *)
Definition step_ok {St} (I : St -> nat -> Prop) (step : St -> nat -> R (option (St * nat))) : Prop :=
  forall st c, I st c ->
  post (fun o => match o with None => True | Some r => took c r /\ I r.1 r.2 end) (step st c).

Lemma while_post {St} (I : St -> nat -> Prop) step fuel st current :
  step_ok I step -> I st current -> (len < current + fuel)%nat -> (0 < fuel)%nat ->
  post (fun r => not_back current r /\ I r.1 r.2 /\ step r.1 r.2 = Ok None) (while_ fuel step st current).
Proof.
  intros Hs. revert st current. induction fuel as [|fuel IH]; intros st current Hi Hf H0; [lia|]. cbn [while_].
  pose proof (Hs st current Hi) as H. destruct (step st current) as [[r|]|e] eqn:E; bind_simpl; simpl in H; [|by split_and!; try apply Nat.le_refl|done].
  destruct H as [[H1 H2] H3]. eapply post_weaken; [apply IH; [done|lia..]|]. intros x (A & B & C). unfold not_back in *. split_and!; [lia|done..].
Qed.

Lemma loop_post {St} (I : St -> nat -> Prop) step st current :
  step_ok I step -> I st current ->
  post (fun r => not_back current r /\ I r.1 r.2 /\ step r.1 r.2 = Ok None) (while_ (budget tokens) step st current).
Proof. intros Hs Hi. apply while_post; [done..| |]; unfold budget; lia. Qed.

(** ** Expressions *)

Section Expressions.
Context (parse_expression : nat -> R (statement * nat)) (lo : nat).
Context (Hrec : forall c, (lo < c)%nat -> takes parse_expression c).

Lemma sequence_post element current :
  (forall c, (current <= c)%nat -> takes element c) -> takes (sequence_of tokens element) current.
Proof.
  intros He. unfold sequence_of. eapply post_bind; [by apply He|]. intros e [H1 H2]. cbv zeta.
  eapply post_bind.
  - apply (loop_post (fun _ c => (current < c)%nat)); [|done]. intros exprs c Hc. unfold sequence_step.
    destruct (is_ tokens comma c) eqn:Ec; [|done]. apply is_lt in Ec; [|done].
    eapply post_bind; [apply He; lia|]. intros x [_ Hx]. simpl in *. unfold took. simpl. lia.
  - intros k (Hk & Hk' & _). destruct (is_ tokens comma e.2); [|by split].
    eapply post_bind; [by apply mk_stmt_post|]. intros p _. by split.
Qed.

Lemma skip_comma_le c : (c <= skip_comma tokens c)%nat.
Proof. unfold skip_comma. destruct (is_ _ _ _); lia. Qed.

Lemma primary_post current : (lo <= current)%nat -> takes (parse_primary_expression stod tokens parse_expression) current.
Proof.
  intros Hlo. unfold parse_primary_expression. eapply post_bind; [apply next_post|]. intros [tok c] ([H1 H2] & Hc & _). simpl in H2, Hc.
  assert (Hmk : forall (e : nat -> statement * nat), (forall p, current < (e p).2)%nat -> post (took current) (p ← mk_stmt tokens current; Ok (e p))).
  { intros e He. eapply post_bind; [by apply mk_stmt_post|]. intros p _. split; [done|apply He]. }
  destruct (t tok); try done; [..|].
  - case_bool_decide; [destruct (stod (value tok)); [by apply Hmk|done]|].
    eapply post_bind; [apply stoll_post|]. intros n _. by apply Hmk.
  - eapply post_bind.
    + apply (loop_post (fun _ c => (current < c)%nat)); [|done]. intros v c' Hc'. unfold string_step.
      destruct (is_ tokens string_literal c') eqn:E; [|done]. eapply post_bind; [apply next_post|]. intros x ([H3 H4] & _). split; [done|simpl; lia].
    + intros v (_ & Hv & _). by apply Hmk.
  - by apply Hmk.
  - eapply post_bind; [apply sequence_post; intros; apply Hrec; lia|]. intros e [_ He].
    eapply post_bind; [by apply expect_post|]. intros c' [-> _]. split; [done|simpl; lia].
  - eapply post_bind.
    + apply (loop_post (fun _ c => (current < c)%nat)); [|done]. intros v c' Hc'. unfold array_step.
      destruct (is_ tokens close_square_bracket c') eqn:E; [done|]. eapply post_bind; [apply Hrec; lia|]. intros x [H3 H4].
      pose proof (skip_comma_le x.2). split; [split; simpl; lia|simpl; lia].
    + intros v (_ & Hv & _). apply Hmk. intros p. simpl. lia.
  - eapply post_bind.
    + apply (loop_post (fun _ c => (current < c)%nat)); [|done]. intros v c' Hc'. unfold object_step.
      destruct (is_ tokens close_curly_bracket c') eqn:E; [done|]. eapply post_bind; [apply Hrec; lia|]. intros x [H3 H4].
      eapply post_bind; [by apply expect_post|]. intros c'' [-> _]. eapply post_bind; [apply Hrec; lia|]. intros y [H5 H6].
      pose proof (skip_comma_le y.2). split; [split; simpl; lia|simpl; lia].
    + intros v (_ & Hv & _). apply Hmk. intros p. simpl. lia.
Qed.

Abbreviation primary := (parse_primary_expression stod tokens parse_expression).

(** *** Members and calls *)

Lemma member_arguments_post current : (lo < current)%nat ->
  post (fun x => not_back current x) (parse_member_expression_arguments tokens parse_expression current).
Proof.
  intros Hlo. unfold parse_member_expression_arguments. eapply post_bind.
  - apply (loop_post (fun st c => (current <= c)%nat /\ (st.2 = false -> Forall is_Some st.1))); [|by split; [|constructor]].
    intros [slices b] c [Hc HF]. unfold slices_step. cbn [fst snd] in *.
    destruct (is_ tokens close_square_bracket c); [done|]. destruct (is_ tokens colon c) eqn:Ec.
    { apply is_lt in Ec; [|done]. unfold took. simpl. split; [lia|split; [lia|done]]. }
    eapply post_bind; [apply Hrec; lia|]. intros e [H1 H2]. destruct (is_ tokens colon e.2); unfold took; simpl.
    + split; [lia|split; [lia|done]].
    + split; [lia|split; [lia|]]. intros Hb. apply Forall_app. split; [by apply HF|]. by repeat constructor.
  - intros [[slices b] c] (Hc & [_ HF] & Hend). simpl in *. unfold not_back in Hc. simpl in Hc.
    assert (Hlt : (current < len)%nat).
    { unfold slices_step in Hend. destruct (is_ tokens close_square_bracket c) eqn:E; [apply is_lt in E; [lia|done]|].
      destruct (is_ tokens colon c); [done|]. exfalso. destruct (parse_expression c) as [e|]; [|done]. simpl in Hend.
      by destruct (is_ tokens colon e.2). }
    destruct b; [|destruct slices as [|[s|] slices]]; try done.
    + eapply post_bind; [by apply mk_stmt_post|]. by intros p _.
    + eapply post_bind; [by apply mk_stmt_post|]. by intros p _.
    + specialize (HF eq_refl). apply Forall_cons in HF as [[] _]. done.
Qed.

Lemma member_post object current : (lo < current)%nat ->
  post (not_back current) (parse_member_expression stod tokens parse_expression object current).
Proof.
  intros Hlo. unfold parse_member_expression.
  eapply post_weaken; [apply (loop_post (fun _ c => (current <= c)%nat)); [|done]|by intros x (? & _)].
  intros o c Hc. unfold member_step. destruct (is_ tokens dot c || is_ tokens open_square_bracket c); [|done].
  eapply post_bind; [apply next_post|]. intros op ([H1 H2] & _ & _). eapply (post_bind (fun x => (c < x.2)%nat)).
  - destruct (bool_decide _).
    + eapply post_bind; [apply member_arguments_post; lia|]. intros a Ha. eapply post_bind; [by apply expect_post|].
      intros c' [-> _]. unfold not_back in Ha. simpl. lia.
    + eapply post_weaken; [apply primary_post; lia|]. intros x [_ Hx]. lia.
  - intros prop Hprop. eapply post_bind; [apply mk_stmt_post; lia|]. intros p _. unfold took. simpl. lia.
Qed.

Lemma arg_post current : (lo < current)%nat -> takes (parse_arg tokens parse_expression) current.
Proof.
  intros Hlo. unfold parse_arg. case_bool_decide as Hs.
  - destruct Hs as [Hs _]. assert (Hlt : (current < len)%nat) by (rewrite <- (Nat.add_0_r current); apply peek_lt; by rewrite Hs).
    eapply post_bind; [apply Hrec; lia|]. intros e [_ He]. eapply post_bind; [by apply mk_stmt_post|]. intros p _.
    unfold took. simpl. lia.
  - eapply post_bind; [apply Hrec; lia|]. intros a [H1 H2]. destruct (is_ tokens equals a.2) eqn:E; [|by split].
    apply is_lt in E; [|done]. eapply post_bind; [apply Hrec; lia|]. intros e [_ He].
    eapply post_bind; [by apply mk_stmt_post|]. intros p _. unfold took. simpl. lia.
Qed.

Lemma args_post current : (lo <= current)%nat -> post (took current) (parse_args tokens parse_expression current).
Proof.
  intros Hlo. unfold parse_args. eapply post_bind; [by apply expect_post|]. intros c [-> Hlt]. eapply post_bind.
  - apply (loop_post (fun _ c => (current < c)%nat)); [|lia]. intros args c Hc. unfold args_step.
    destruct (is_ tokens close_paren c); [done|]. eapply post_bind; [apply arg_post; lia|]. intros a [H1 H2].
    pose proof (skip_comma_le a.2). unfold took. simpl. lia.
  - intros v (_ & Hv & _). eapply post_bind; [by apply expect_post|]. intros c [-> _]. unfold took. simpl. lia.
Qed.

Lemma call_post fuel callee current : (lo <= current)%nat -> (len < current + fuel)%nat -> (0 < fuel)%nat ->
  post (took current) (call_expression stod tokens parse_expression fuel callee current).
Proof.
  revert callee current. induction fuel as [|fuel IH]; intros callee current Hlo Hf H0; [lia|]. cbn [call_expression].
  eapply post_bind; [by apply args_post|]. intros args [H1 H2]. eapply post_bind; [by apply mk_stmt_post|]. intros p _.
  eapply post_bind; [apply member_post; lia|]. intros member Hm. unfold not_back in Hm.
  destruct (is_ tokens open_paren member.2) eqn:E; [|unfold took; simpl; lia]. apply is_lt in E; [|done].
  eapply post_weaken; [apply IH; lia|]. intros x [? ?]. split; lia.
Qed.

Lemma parse_call_post callee current : (lo <= current)%nat ->
  post (took current) (parse_call_expression stod tokens parse_expression callee current).
Proof. intros Hlo. apply call_post; [done|unfold budget; lia..]. Qed.

Lemma call_member_post current : (lo <= current)%nat -> takes (parse_call_member_expression stod tokens parse_expression) current.
Proof.
  intros Hlo. unfold parse_call_member_expression. eapply post_bind; [by apply primary_post|]. intros e [H1 H2].
  eapply post_bind; [apply member_post; lia|]. intros m Hm. unfold not_back in Hm.
  destruct (is_ tokens open_paren m.2); [|unfold took; simpl; lia].
  eapply post_weaken; [apply parse_call_post; lia|]. intros x [? ?]. split; lia.
Qed.

Lemma primary_or_call_post current : (lo <= current)%nat -> takes (primary_or_call stod tokens parse_expression) current.
Proof.
  intros Hlo. unfold primary_or_call. eapply post_bind; [by apply primary_post|]. intros e [H1 H2].
  destruct (is_ tokens open_paren e.2); [|by split].
  eapply post_weaken; [apply parse_call_post; lia|]. intros x [? ?]. split; lia.
Qed.

(** *** Levels with loops *)

(** An operand and a loop whose steps take a token when they go on. *)
Lemma level_post (operand : nat -> R (statement * nat)) step current :
  takes operand current ->
  (forall left c, (current < c)%nat -> post (fun o => match o with None => True | Some r => took c r end) (step left c)) ->
  post (took current) (left ← operand current; while_ (budget tokens) step left.1 left.2).
Proof.
  intros Ho Hs. eapply post_bind; [exact Ho|]. intros left [H1 H2].
  eapply post_weaken; [apply (loop_post (fun _ c => (current < c)%nat)); [|done]|].
  - intros st c Hc. eapply post_weaken; [by apply Hs|]. intros [r|] Hr; [|done]. split; [done|]. destruct Hr. lia.
  - intros x (_ & Hx & _). by split.
Qed.

Lemma filter_post current : (lo <= current)%nat -> takes (parse_filter_expression stod tokens parse_expression) current.
Proof.
  intros Hlo. apply level_post; [by apply call_member_post|]. intros left c Hc. unfold filter_step.
  destruct (is_ tokens pipe c) eqn:E; [|done]. apply is_lt in E; [|done].
  eapply post_bind; [apply primary_or_call_post; lia|]. intros f [_ Hf]. eapply post_bind; [by apply mk_stmt_post|].
  intros p _. unfold took. simpl. lia.
Qed.

Lemma test_post current : (lo <= current)%nat -> takes (parse_test_expression stod tokens parse_expression) current.
Proof.
  intros Hlo. apply level_post; [by apply filter_post|]. intros left c Hc. unfold test_step.
  destruct (is_identifier tokens (str "is") c) eqn:E; [|done]. apply is_identifier_lt in E. cbv zeta.
  eapply post_bind; [apply primary_or_call_post; destruct (is_identifier _ _ _); lia|]. intros f [_ Hf].
  eapply post_bind; [by apply mk_stmt_post|]. intros p _. unfold took. simpl. destruct (is_identifier _ _ _); lia.
Qed.

(** An operator is one or two tokens. *)
Definition operator_ok (op_at : nat -> option (token * nat)) : Prop :=
  forall c op, op_at c = Some op -> (c < len)%nat /\ (c < op.2)%nat.

Lemma type_op_ok ty : ty <> eof -> operator_ok (type_op tokens ty).
Proof.
  intros Hty c op H. unfold type_op in H. destruct (is_ tokens ty c) eqn:E; [|done]. injection H as <-.
  apply is_lt in E; [|done]. simpl. lia.
Qed.

Lemma identifier_op_ok name : operator_ok (identifier_op tokens name).
Proof.
  intros c op H. unfold identifier_op in H. destruct (is_identifier tokens name c) eqn:E; [|done]. injection H as <-.
  apply is_identifier_lt in E. simpl. lia.
Qed.

Lemma comparison_op_ok : operator_ok (comparison_op tokens).
Proof.
  intros c op H. unfold comparison_op in H. destruct (_ && _) eqn:E.
  - injection H as <-. apply andb_true_iff in E as [E _]. apply is_identifier_lt in E. simpl. lia.
  - destruct (is_identifier tokens (str "in") c) eqn:E'; [injection H as <-; apply is_identifier_lt in E'; simpl; lia|].
    by apply (type_op_ok comparison_binary_operator).
Qed.

Lemma binary_post op_at operand current : operator_ok op_at -> (forall c, (current <= c)%nat -> takes operand c) ->
  takes (binary_loop tokens op_at operand) current.
Proof.
  intros Hop Ho. apply level_post; [by apply Ho|]. intros left c Hc. unfold binary_step.
  destruct (op_at c) as [op|] eqn:E; [|done]. apply Hop in E as [H1 H2]. eapply post_bind; [apply Ho; lia|]. intros r [_ Hr].
  eapply post_bind; [by apply mk_stmt_post|]. intros p _. unfold took. simpl. lia.
Qed.

Lemma comparison_post current : (lo <= current)%nat -> takes (parse_comparison_expression stod tokens parse_expression) current.
Proof.
  intros Hlo. apply binary_post; [apply comparison_op_ok|]. intros c1 H1. apply binary_post; [by apply type_op_ok|].
  intros c2 H2. apply binary_post; [by apply type_op_ok|]. intros c3 H3. apply test_post. lia.
Qed.

Lemma negation_post fuel current : (lo <= current)%nat -> (len < current + fuel)%nat -> (0 < fuel)%nat ->
  takes (negation_expression stod tokens parse_expression fuel) current.
Proof.
  revert current. induction fuel as [|fuel IH]; intros current Hlo Hf H0; [lia|]. cbn [negation_expression].
  destruct (is_identifier tokens (str "not") current) eqn:E; [|by apply comparison_post]. apply is_identifier_lt in E.
  eapply post_bind; [apply next_post|]. intros op (_ & -> & _). eapply post_bind; [apply IH; lia|]. intros e [_ He].
  eapply post_bind; [by apply mk_stmt_post|]. intros p _. unfold took. simpl. lia.
Qed.

Lemma or_post current : (lo <= current)%nat -> takes (parse_logical_or_expression stod tokens parse_expression) current.
Proof.
  intros Hlo. apply binary_post; [apply identifier_op_ok|]. intros c1 H1. apply binary_post; [apply identifier_op_ok|].
  intros c2 H2. apply negation_post; [lia|unfold budget; lia..].
Qed.

Lemma if_expression_post current : (lo <= current)%nat -> takes (parse_if_expression stod tokens parse_expression) current.
Proof.
  intros Hlo. unfold parse_if_expression. eapply post_bind; [by apply or_post|]. intros a [H1 H2].
  destruct (is_identifier tokens (str "if") a.2) eqn:E; [|by split]. apply is_identifier_lt in E. cbv zeta.
  eapply post_bind; [apply or_post; lia|]. intros test [H3 H4]. destruct (is_identifier tokens (str "else") test.2) eqn:E'.
  - apply is_identifier_lt in E'. eapply post_bind; [apply Hrec; lia|]. intros f [_ Hf].
    eapply post_bind; [by apply mk_stmt_post|]. intros p _. unfold took. simpl. lia.
  - eapply post_bind; [by apply mk_stmt_post|]. intros p _. unfold took. simpl. lia.
Qed.
End Expressions.

(** At the end of the tokens there is no expression. *)
Lemma if_expression_eof parse_expression current : (len <= current)%nat ->
  takes (parse_if_expression stod tokens parse_expression) current.
Proof.
  intros H. pose proof (lookup_ge_None_2 tokens current H) as Hn.
  assert (E : is_identifier tokens (str "not") current = false).
  { unfold is_identifier, peek. rewrite Nat.add_0_r, Hn. apply bool_decide_false. by intros [? _]. }
  unfold parse_if_expression, parse_logical_or_expression, parse_logical_and_expression, binary_loop,
    parse_logical_negation_expression, budget. cbn [negation_expression]. rewrite E.
  unfold parse_comparison_expression, parse_additive_expression, parse_multiplicative_expression, binary_loop,
    parse_test_expression, parse_filter_expression, parse_call_member_expression, parse_primary_expression, next.
  by rewrite Hn.
Qed.

Lemma expression_at_post fuel current : (len < current + fuel)%nat -> (0 < fuel)%nat -> takes (parse_expression_at stod tokens fuel) current.
Proof.
  revert current. induction fuel as [|fuel IH]; intros current Hf H0; [lia|]. cbn [parse_expression_at].
  destruct (decide (len <= current)%nat) as [|Hlt]; [by apply if_expression_eof|].
  apply (if_expression_post _ current); [|done]. intros c Hc. apply IH; lia.
Qed.

Lemma expression_post current : takes (parse_expression stod tokens) current.
Proof. apply expression_at_post; unfold budget; lia. Qed.

Lemma close_post current : post (fun c => c = S current /\ (current < len)%nat) (close tokens current).
Proof. by apply expect_post. Qed.

Lemma expect_end_post name current : post (fun c => (current < c)%nat) (expect_end tokens name current).
Proof.
  unfold expect_end. eapply post_bind; [by apply expect_post|]. intros c [-> _].
  eapply post_bind; [apply expect_identifier_post|]. intros c [-> _].
  eapply post_weaken; [apply close_post|]. intros c [-> _]. lia.
Qed.

(** ** Statements *)

Section Statements.
Context (parse_any : nat -> R (statement * nat)) (lo : nat).
Context (Hrec : forall c, (lo < c)%nat -> takes parse_any c).

Lemma until_post names current : (lo < current)%nat -> post (not_back current) (parse_until tokens parse_any names current).
Proof.
  intros Hlo. eapply post_weaken; [apply (loop_post (fun _ c => (current <= c)%nat)); [|done]|by intros x (? & _)].
  intros body c Hc. unfold until_step. destruct (is_statement tokens names c); [done|].
  eapply post_bind; [apply Hrec; lia|]. intros s [H1 H2]. unfold took. simpl. lia.
Qed.

(** The next step is a parser with [H] about it: go on after its result. *)
Ltac run H := eapply post_bind; [apply H; try done; try lia|].
(** The node is made, at a token before. *)
Ltac finish := eapply post_bind; [apply mk_stmt_post; lia|]; intros p _; unfold took, not_back in *; simpl in *; lia.

Lemma set_post start_pos current : (lo < current)%nat -> (start_pos < len)%nat ->
  post (fun x => (current < x.2)%nat) (parse_set_statement stod tokens parse_any start_pos current).
Proof.
  intros Hlo Hs. unfold parse_set_statement, parse_expression_sequence.
  run sequence_post; [intros; apply expression_post|]. intros left [_ H1]. destruct (is_ tokens equals left.2).
  - run sequence_post; [intros; apply expression_post|]. intros v [_ H2]. run close_post. intros c [-> _]. finish.
  - run close_post. intros c [-> _]. run until_post. intros body Hb. unfold not_back in Hb. run expect_end_post. intros c Hc. finish.
Qed.

Lemma if_post fuel start_pos current : (lo < current)%nat -> (start_pos < len)%nat -> (len < current + fuel)%nat -> (0 < fuel)%nat ->
  post (fun x => (current < x.2)%nat) (if_statement stod tokens parse_any fuel start_pos current).
Proof.
  revert start_pos current. induction fuel as [|fuel IH]; intros start_pos current Hlo Hs Hf H0; [lia|]. cbn [if_statement].
  run expression_post. intros test [_ H1]. run close_post. intros c [-> _]. run until_post. intros body Hb. unfold not_back in Hb.
  eapply (post_bind (fun x => (current < x.2)%nat)); [|intros alternate Ha; finish].
  destruct (is_statement tokens [str "elif"] body.2) eqn:E1; [apply is_statement_lt in E1|].
  - run IH. intros s Hs'. simpl in *. lia.
  - destruct (is_statement tokens [str "else"] body.2); [|simpl; lia].
    run close_post. intros c [-> _]. eapply post_weaken; [apply until_post; lia|]. intros x Hx. unfold not_back in Hx. lia.
Qed.

Lemma macro_post start_pos current : (lo < current)%nat -> (start_pos < len)%nat ->
  post (fun x => (current < x.2)%nat) (parse_macro_statement stod tokens parse_any start_pos current).
Proof.
  intros Hlo Hs. unfold parse_macro_statement. run (primary_post _ lo (fun c _ => expression_post c)). intros name [_ H1].
  run (args_post _ lo (fun c _ => expression_post c)). intros args [_ H2]. run close_post. intros c [-> _].
  run until_post. intros body Hb. finish.
Qed.

Lemma for_post start_pos current : (lo < current)%nat -> (start_pos < len)%nat ->
  post (fun x => (current < x.2)%nat) (parse_for_statement stod tokens parse_any start_pos current).
Proof.
  intros Hlo Hs. unfold parse_for_statement, parse_expression_sequence.
  run sequence_post; [intros; apply (primary_post _ lo (fun c _ => expression_post c)); lia|]. intros v [_ H1].
  run post_ensure. intros _ _. run expression_post. intros iterable [_ H2]. run close_post. intros c [-> _].
  run until_post. intros body Hb. unfold not_back in Hb. eapply (post_bind (fun x => (current < x.2)%nat)); [|intros alternate Ha; finish].
  destruct (is_statement tokens [str "else"] body.2); [|simpl; lia].
  run close_post. intros c [-> _]. eapply post_weaken; [apply until_post; lia|]. intros x Hx. unfold not_back in Hx. lia.
Qed.

Lemma call_statement_post start_pos current : (lo < current)%nat -> (start_pos < len)%nat ->
  post (fun x => (current < x.2)%nat) (parse_call_statement stod tokens parse_any start_pos current).
Proof.
  intros Hlo Hs. unfold parse_call_statement. eapply (post_bind (fun x => (current <= x.2)%nat)).
  { destruct (is_ tokens open_paren current); [|simpl; lia].
    eapply post_weaken; [apply (args_post _ lo (fun c _ => expression_post c)); lia|]. intros x [_ Hx]. lia. }
  intros caller H1. run (primary_post _ lo (fun c _ => expression_post c)). intros callee [_ H2]. run post_ensure. intros _ _.
  run (args_post _ lo (fun c _ => expression_post c)). intros args [_ H3]. run close_post. intros c [-> _].
  run until_post. intros body Hb. unfold not_back in Hb. run expect_end_post. intros c Hc. finish.
Qed.

Lemma filter_statement_post start_pos current : (lo < current)%nat -> (start_pos < len)%nat ->
  post (fun x => (current < x.2)%nat) (parse_filter_statement stod tokens parse_any start_pos current).
Proof.
  intros Hlo Hs. unfold parse_filter_statement. run (primary_post _ lo (fun c _ => expression_post c)). intros node [_ H1].
  eapply (post_bind (fun x => (current < x.2)%nat)).
  { destruct (_ && _); [|simpl; lia].
    eapply post_weaken; [apply (parse_call_post _ lo (fun c _ => expression_post c)); lia|]. intros x [_ Hx]. lia. }
  intros node' H2. run close_post. intros c [-> _].
  run until_post. intros body Hb. unfold not_back in Hb. run expect_end_post. intros c Hc. finish.
Qed.

Lemma before_end_post name (r : R (statement * nat)) current :
  post (fun x => (current < x.2)%nat) r -> post (fun x => (current < x.2)%nat) (before_end tokens name r).
Proof.
  intros Hr. unfold before_end. eapply post_bind; [exact Hr|]. intros s Hs. run expect_end_post. intros c Hc. simpl in *. lia.
Qed.

Lemma any_post current : (lo <= current)%nat -> takes (parse_any_step stod tokens parse_any) current.
Proof.
  intros Hlo. unfold parse_any_step. destruct (t (peek tokens current 0)) eqn:Et; try done;
    (assert (Hlt : (current < len)%nat) by (rewrite <- (Nat.add_0_r current); apply peek_lt; by rewrite Et)).
  - run next_post. intros k (_ & Hk & _). finish.
  - unfold parse_jinja_statement. run expect_post. intros c [-> _]. run post_ensure. intros _ _.
    run next_post. intros k ([H1 _] & Hk & _). cbv zeta. rewrite Hk.
    eapply (post_weaken (fun x => (S (S current) < x.2)%nat)); [|intros x Hx; unfold took; lia].
    repeat (case_bool_decide; [first [apply set_post | apply before_end_post, if_post | apply before_end_post, macro_post
      | apply before_end_post, for_post | apply call_statement_post | apply filter_statement_post
      | run close_post; intros c [-> _]; finish | eapply post_bind; [by apply mk_stmt_post|]; intros p _; simpl; lia ]; unfold budget; lia|]).
    done.
  - unfold parse_jinja_expression. run expect_post. intros c [-> _]. run expression_post. intros e [_ He].
    run expect_post. intros c [-> _]. unfold took. simpl. lia.
  - run next_post. intros k (_ & Hk & _). finish.
Qed.
End Statements.

Lemma any_at_post fuel current : (len < current + fuel)%nat -> (0 < fuel)%nat -> takes (parse_any_at stod tokens fuel) current.
Proof.
  revert current. induction fuel as [|fuel IH]; intros current Hf H0; [lia|]. cbn [parse_any_at].
  destruct (decide (len <= current)%nat) as [Hge|Hlt].
  - unfold parse_any_step, peek. rewrite Nat.add_0_r, lookup_ge_None_2 by done. done.
  - apply (any_post _ current); [|done]. intros c Hc. apply IH; lia.
Qed.

(** C29: on any tokens the parser returns: a program, or one of the exceptions of the code.
    It does not read a token that is not there, no loop or recursion goes on for longer than there
    are tokens, and a program that is returned stands for all of them. *)
Theorem parser_total :
  match parse stod tokens with
  | Ok body => exists current, while_ (budget tokens) (parse_step stod tokens) [] 0%nat = Ok (body, current) /\ (len <= current)%nat
  | Error e => exception e
  end.
Proof.
  unfold parse. pose proof (loop_post (fun _ _ => True) (parse_step stod tokens) [] 0%nat) as H.
  assert (Hs : step_ok (fun _ _ => True) (parse_step stod tokens)).
  { intros body c _. unfold parse_step. destruct (Nat.ltb_spec c len); [|done].
    eapply post_bind; [apply any_at_post; unfold budget; lia|]. intros s [H1 H2]. unfold took. simpl. lia. }
  specialize (H Hs I). destruct (while_ _ _ _ _) as [r|e]; bind_simpl; simpl in H; [|done].
  destruct H as (_ & _ & Hend). exists r.2. split; [by destruct r|]. unfold parse_step in Hend.
  destruct (Nat.ltb_spec r.2 len); [|done]. by destruct (parse_any _ _ _).
Qed.
End Parser.
End JinjaParserTerm.
