(* ===== verification/JinjaParserPrint.v ===== *)
(** Templates as they are written: the symbols of an expression with as few parentheses as
    its operators need, and of the statements around it, for the theorems that the parser
    reads them back. *)

From Stdlib Require Import Ascii.
From S2P Require Import Prelude.
From S2P Require Import KvPlacement.
From S2P Require Import JinjaLexer.
From S2P Require Import JinjaLexerPrint.
From S2P Require Import JinjaParser.

Module JinjaParserPrint.
Import Digits.
Import JinjaLexer.
Import JinjaLexerPrint.
Import JinjaParser.

Definition word (s : bytes) : symbol := (identifier, s).
Definition open_p : symbol := (open_paren, str "(").
Definition close_p : symbol := (close_paren, str ")").
Definition open_b : symbol := (open_square_bracket, str "[").
Definition close_b : symbol := (close_square_bracket, str "]").
Definition open_c : symbol := (open_curly_bracket, str "{").
Definition close_c : symbol := (close_curly_bracket, str "}").
Definition comma_s : symbol := (comma, str ",").
Definition colon_s : symbol := (colon, str ":").
Definition equals_s : symbol := (equals, str "=").
Definition star_s : symbol := (multiplicative_binary_operator, str "*").

Fixpoint commas (l : list (list symbol)) : list symbol :=
  match l with
  | [] => []
  | [x] => x
  | x :: l => x ++ comma_s :: commas l
  end.

Definition parens (l : list symbol) : list symbol := open_p :: l ++ [close_p].

Definition print_int (n : Z) : bytes := if n <? 0 then ch "-" :: decimal 20 (- n) else decimal 20 n.

Section Float.
Context {float : Type} (print_float : float -> bytes).
Abbreviation statement := (statement float).

(** ** Levels *)

(** The level of an operator: the parser reads [or] first and [*] last. *)
Definition op_level (op : token) : option nat :=
  match t op with
  | identifier =>
      if bool_decide (value op = str "or") then Some 1%nat
      else if bool_decide (value op = str "and") then Some 2%nat
      else if bool_decide (value op = str "in" \/ value op = str "not in") then Some 4%nat
      else None
  | comparison_binary_operator => Some 4%nat
  | additive_binary_operator => Some 5%nat
  | multiplicative_binary_operator => Some 6%nat
  | _ => None
  end.

Definition op_symbols (op : token) : list symbol :=
  if bool_decide (t op = identifier /\ value op = str "not in") then [word (str "not"); word (str "in")]
  else [(t op, value op)].

Definition level (e : statement) : nat :=
  match e with
  | TernaryExpression _ _ _ _ | SelectExpression _ _ _ => 0
  | BinaryExpression _ op _ _ => default 10%nat (op_level op)
  | UnaryExpression _ _ _ => 3
  | TestExpression _ _ _ _ => 7
  | FilterExpression _ _ _ => 8
  | MemberExpression _ _ _ _ | CallExpression _ _ _ => 9
  | _ => 10
  end.

(** A chain of members and calls whose first link is a call. *)
Fixpoint called (e : statement) : bool :=
  match e with
  | CallExpression _ c _ => match c with CallExpression _ _ _ | MemberExpression _ _ _ _ => called c | _ => true end
  | MemberExpression _ o _ _ => called o
  | _ => false
  end.

(** The first expression of a chain. *)
Fixpoint root (e : statement) : statement :=
  match e with
  | CallExpression _ c _ => root c
  | MemberExpression _ o _ _ => root o
  | _ => e
  end.

(** ** Printing *)

(** The symbols [body] of [e] where level [l] is read. *)
Definition wrap (l : nat) (e : statement) (body : list symbol) : list symbol :=
  if (l <=? level e)%nat then body else parens body.

Definition wrap_filter (f : statement) (body : list symbol) : list symbol :=
  if called f then body else wrap 10 f body.

Fixpoint print (e : statement) : list symbol :=
  let at_ l x := wrap l x (print x) in
  let optional x := match x with Some x => at_ 0%nat x | None => [] end in
  let arg x :=
    match x with
    | SpreadExpression _ x => star_s :: at_ 0%nat x
    | KeywordArgumentExpression _ k v => at_ 0%nat k ++ equals_s :: at_ 0%nat v
    | _ => at_ 0%nat x
    end in
  match e with
  | Identifier _ v => [word v]
  | IntegerLiteral _ n => [(numeric_literal, print_int n)]
  | FloatLiteral _ f => [(numeric_literal, print_float f)]
  | StringLiteral _ v => [(string_literal, v)]
  | ArrayLiteral _ l => open_b :: commas (map (at_ 0%nat) l) ++ [close_b]
  | TupleLiteral _ l => parens (commas (map (at_ 0%nat) l))
  | ObjectLiteral _ l =>
      open_c :: commas (map (fun p => at_ 0%nat p.1 ++ colon_s :: at_ 0%nat p.2) l) ++ [close_c]
  | MemberExpression _ o p computed =>
      at_ 9%nat o ++
      (if computed then
         open_b :: (match p with
                    | BlankExpression _ => []
                    | SliceExpression _ a b c =>
                        optional a ++ colon_s :: optional b ++
                        (match c with Some c => colon_s :: at_ 0%nat c | None => [] end)
                    | _ => at_ 0%nat p
                    end) ++ [close_b]
       else (dot, str ".") :: at_ 10%nat p)
  | CallExpression _ c args => at_ 9%nat c ++ parens (commas (map arg args))
  | FilterExpression _ o f => at_ 8%nat o ++ (pipe, str "|") :: wrap_filter f (print f)
  | TestExpression _ o negate f =>
      at_ 7%nat o ++ word (str "is") :: (if negate then [word (str "not")] else []) ++ wrap_filter f (print f)
  | BinaryExpression _ op l r => at_ (level e) l ++ op_symbols op ++ at_ (S (level e)) r
  | UnaryExpression _ op x => (t op, value op) :: at_ 3%nat x
  | SelectExpression _ x c => at_ 1%nat x ++ word (str "if") :: at_ 1%nat c
  | TernaryExpression _ c x y => at_ 1%nat x ++ word (str "if") :: at_ 1%nat c ++ word (str "else") :: at_ 0%nat y
  | _ => []
  end.

Definition at_level (l : nat) (e : statement) : list symbol := wrap l e (print e).

Definition print_arg (x : statement) : list symbol :=
  match x with
  | SpreadExpression _ x => star_s :: at_level 0 x
  | KeywordArgumentExpression _ k v => at_level 0 k ++ equals_s :: at_level 0 v
  | _ => at_level 0 x
  end.

Definition print_optional (x : option statement) : list symbol := match x with Some x => at_level 0 x | None => [] end.

Definition print_index (p : statement) : list symbol :=
  match p with
  | BlankExpression _ => []
  | SliceExpression _ a b c =>
      print_optional a ++ colon_s :: print_optional b ++ (match c with Some c => colon_s :: at_level 0 c | None => [] end)
  | _ => at_level 0 p
  end.

(** ** The expressions that are written *)

(** An identifier other than [not]; numbers that fit; tuples with two elements at least; the
    operators of the levels; slices and omitted indices in brackets, and keyword and
    unpacked arguments in calls only. *)
Fixpoint proper (e : statement) : bool :=
  let optional x := match x with Some x => proper x | None => true end in
  let arg x :=
    match x with
    | SpreadExpression _ x => proper x
    | KeywordArgumentExpression _ k v => proper k && proper v
    | _ => proper x
    end in
  match e with
  | Identifier _ v => negb (bool_decide (v = str "not"))
  | IntegerLiteral _ n => (- 2 ^ 63 <=? n) && (n <? 2 ^ 63)
  | FloatLiteral _ _ | StringLiteral _ _ => true
  | ArrayLiteral _ l => forallb proper l
  | TupleLiteral _ l => (2 <=? length l)%nat && forallb proper l
  | ObjectLiteral _ l => forallb (fun p => proper p.1 && proper p.2) l
  | MemberExpression _ o p computed =>
      proper o &&
      (if computed then
         match p with
         | BlankExpression _ => true
         | SliceExpression _ a b c => optional a && optional b && optional c
         | _ => proper p
         end
       else proper p)
  | CallExpression _ c args => proper c && forallb arg args
  | FilterExpression _ o f => proper o && proper f
  | TestExpression _ o _ f => proper o && proper f
  | BinaryExpression _ op l r => match op_level op with Some _ => proper l && proper r | None => false end
  | UnaryExpression _ op x => bool_decide (t op = identifier /\ value op = str "not") && proper x
  | SelectExpression _ x c => proper x && proper c
  | TernaryExpression _ c x y => proper c && proper x && proper y
  | _ => false
  end.

Definition proper_arg (x : statement) : bool :=
  match x with
  | SpreadExpression _ x => proper x
  | KeywordArgumentExpression _ k v => proper k && proper v
  | _ => proper x
  end.

Definition proper_index (p : statement) : bool :=
  let optional x := match x with Some x => proper x | None => true end in
  match p with
  | BlankExpression _ => true
  | SliceExpression _ a b c => optional a && optional b && optional c
  | _ => proper p
  end.

(** ** Positions *)

Definition strip_token (k : token) : token := Token (t k) (value k) 0.

(** The node without positions. *)
Fixpoint strip (s : statement) : statement :=
  match s with
  | CommentStatement _ v => CommentStatement 0 v
  | IfStatement _ c b a => IfStatement 0 (strip c) (map strip b) (map strip a)
  | ForStatement _ v i b d => ForStatement 0 (strip v) (strip i) (map strip b) (map strip d)
  | BreakStatement _ => BreakStatement 0
  | ContinueStatement _ => ContinueStatement 0
  | NoopStatement _ => NoopStatement 0
  | SetStatement _ a v b => SetStatement 0 (strip a) (option_map strip v) (map strip b)
  | MacroStatement _ n a b => MacroStatement 0 (strip n) (map strip a) (map strip b)
  | CallStatement _ c a b => CallStatement 0 (strip c) (map strip a) (map strip b)
  | FilterStatement _ f b => FilterStatement 0 (strip f) (map strip b)
  | BlankExpression _ => BlankExpression 0
  | MemberExpression _ o p c => MemberExpression 0 (strip o) (strip p) c
  | CallExpression _ c a => CallExpression 0 (strip c) (map strip a)
  | Identifier _ v => Identifier 0 v
  | IntegerLiteral _ n => IntegerLiteral 0 n
  | FloatLiteral _ f => FloatLiteral 0 f
  | StringLiteral _ v => StringLiteral 0 v
  | ArrayLiteral _ l => ArrayLiteral 0 (map strip l)
  | TupleLiteral _ l => TupleLiteral 0 (map strip l)
  | ObjectLiteral _ l => ObjectLiteral 0 (map (fun p => (strip p.1, strip p.2)) l)
  | BinaryExpression _ op l r => BinaryExpression 0 (strip_token op) (strip l) (strip r)
  | UnaryExpression _ op x => UnaryExpression 0 (strip_token op) (strip x)
  | FilterExpression _ o f => FilterExpression 0 (strip o) (strip f)
  | SelectExpression _ l c => SelectExpression 0 (strip l) (strip c)
  | TestExpression _ o n f => TestExpression 0 (strip o) n (strip f)
  | TernaryExpression _ c x y => TernaryExpression 0 (strip c) (strip x) (strip y)
  | SliceExpression _ a b c => SliceExpression 0 (option_map strip a) (option_map strip b) (option_map strip c)
  | KeywordArgumentExpression _ k v => KeywordArgumentExpression 0 (strip k) (strip v)
  | SpreadExpression _ x => SpreadExpression 0 (strip x)
  end.

(** The same node, wherever it was written. *)
Definition same (a b : statement) : Prop := strip a = strip b.
Definition all_same (l k : list statement) : Prop := map strip l = map strip k.

#[export] Instance same_equivalence : Equivalence same.
Proof. split; unfold same; repeat intro; congruence. Qed.

(** ** Sizes *)

Fixpoint size (s : statement) : nat :=
  let sizes l := list_sum (map size l) in
  let optional x := match x with Some x => size x | None => 0%nat end in
  S (match s with
  | IfStatement _ c b a => size c + sizes b + sizes a
  | ForStatement _ v i b d => size v + size i + sizes b + sizes d
  | SetStatement _ a v b => size a + optional v + sizes b
  | MacroStatement _ n a b => size n + sizes a + sizes b
  | CallStatement _ c a b => size c + sizes a + sizes b
  | FilterStatement _ f b => size f + sizes b
  | MemberExpression _ o p _ => size o + size p
  | CallExpression _ c a => size c + sizes a
  | ArrayLiteral _ l | TupleLiteral _ l => sizes l
  | ObjectLiteral _ l => list_sum (map (fun p => size p.1 + size p.2)%nat l)
  | BinaryExpression _ _ l r => size l + size r
  | UnaryExpression _ _ x | SpreadExpression _ x => size x
  | FilterExpression _ o f | TestExpression _ o _ f => size o + size f
  | SelectExpression _ l c => size l + size c
  | TernaryExpression _ c x y => size c + size x + size y
  | SliceExpression _ a b c => optional a + optional b + optional c
  | KeywordArgumentExpression _ k v => size k + size v
  | _ => 0
  end)%nat.

Lemma size_elem (x : statement) l : x ∈ l -> (size x <= list_sum (map size l))%nat.
Proof. induction 1 as [x l|x y l _ IH]; simpl; lia. Qed.

Lemma size_pair (p : statement * statement) l : p ∈ l ->
  (size p.1 + size p.2 <= list_sum (map (fun p => size p.1 + size p.2) l))%nat.
Proof. induction 1 as [x l|x y l _ IH]; simpl; lia. Qed.

(** ** The assertions depend on no position *)

Lemma kinds_strip s :
  is_expression (strip s) = is_expression s /\ is_identifier_node (strip s) = is_identifier_node s /\
  is_call (strip s) = is_call s /\ is_tuple (strip s) = is_tuple s.
Proof. by destruct s. Qed.

Lemma forallb_map_ext {A} (p q : A -> bool) (g : A -> A) l :
  (forall x, x ∈ l -> p (g x) = q x) -> forallb p (map g l) = forallb q l.
Proof.
  induction l as [|x l IH]; intros H; [done|]. cbn. rewrite H by left. f_equal. apply IH. intros y Hy. apply H. by right.
Qed.

Lemma checked_strip s : checked (strip s) = checked s.
Proof.
  enough (forall n s, (size s < n)%nat -> checked (strip s) = checked s) as H by (apply (H (S (size s))); lia).
  clear s. intros n. induction n as [|n IH]; intros s Hn; [lia|].
  assert (Hl : forall l, (list_sum (map size l) < n)%nat -> forall x, x ∈ l -> checked (strip x) = checked x).
  { intros l Hl x Hx%size_elem. apply IH. lia. }
  assert (Hx : forall x, (size x < n)%nat -> (is_expression (strip x) = is_expression x /\
    is_identifier_node (strip x) = is_identifier_node x /\ is_call (strip x) = is_call x /\ is_tuple (strip x) = is_tuple x) /\
    checked (strip x) = checked x) by (intros x Hx; split; [apply kinds_strip | by apply IH]).
  assert (Hb : forall l, (list_sum (map size l) < n)%nat -> forallb checked (map strip l) = forallb checked l)
    by (intros l Hl'; apply forallb_map_ext; intros x; by apply Hl).
  assert (He : forall l, (list_sum (map size l) < n)%nat ->
    forallb (fun x => is_expression x && checked x) (map strip l) = forallb (fun x => is_expression x && checked x) l).
  { intros l Hl'. apply forallb_map_ext. intros x Hin. rewrite (Hl l Hl' x Hin). f_equal. apply kinds_strip. }
  assert (Ho : forall o, (match o with Some x => size x | None => 0 end < n)%nat ->
    match option_map strip o with Some x => is_expression x && checked x | None => true end =
    match o with Some x => is_expression x && checked x | None => true end).
  { intros [x|] Hs; [|done]. cbn. destruct (Hx x Hs) as [(-> & _) ->]. done. }
  destruct s; cbn [size] in Hn; try done; cbn [strip checked];
    rewrite ?Hb, ?He, ?Ho by lia;
    repeat match goal with |- context [checked (strip ?x)] =>
      let H := fresh in destruct (Hx x ltac:(lia)) as [(? & ? & ? & ?) H]; rewrite H end; try congruence.
  apply forallb_map_ext. intros [x y] Hp%size_pair. cbn [fst snd] in *.
  destruct (Hx x ltac:(lia)) as [(-> & _) ->], (Hx y ltac:(lia)) as [(-> & _) ->]. done.
Qed.

Lemma checked_same a b : same a b -> checked a = checked b.
Proof. unfold same. intros H. by rewrite <- checked_strip, H, checked_strip. Qed.

Lemma checked_all_same l k : all_same l k -> forallb checked l = forallb checked k.
Proof.
  unfold all_same. intros H. assert (forall l, forallb checked (map strip l) = forallb checked l) as Hm
    by (intros l'; apply forallb_map_ext; intros x _; apply checked_strip).
  by rewrite <- Hm, H, Hm.
Qed.

End Float.
End JinjaParserPrint.
