(* ===== verification/JinjaParserRead.v ===== *)
(** What the parser sees of its tokens: symbols without positions, the symbols that would
    continue an expression, and runs of the loops of the parser. *)

From Stdlib Require Import Ascii.
From S2P Require Import Prelude.
From S2P Require Import KvPlacement.
From S2P Require Import JinjaLexer.
From S2P Require Import JinjaLexerPrint.
From S2P Require Import JinjaParser.
From S2P Require Import JinjaParserPrint.

Module JinjaParserRead.
Import Digits.
Import JinjaLexer.
Import JinjaLexerPrint.
Import JinjaParser.
Import JinjaParserPrint.

(** ** The symbols after an expression *)

Definition is_word_in (s : symbol) (names : list bytes) : bool := bool_decide (s.1 = identifier /\ s.2 ∈ names).

(** The level whose loop reads on at this symbol. *)
Definition cont_level (s : symbol) : option nat :=
  match s.1 with
  | identifier =>
      if is_word_in s [str "if"; str "else"] then Some 0%nat
      else if is_word_in s [str "or"] then Some 1%nat
      else if is_word_in s [str "and"] then Some 2%nat
      else if is_word_in s [str "not"; str "in"] then Some 4%nat
      else if is_word_in s [str "is"] then Some 7%nat
      else None
  | comparison_binary_operator => Some 4%nat
  | additive_binary_operator => Some 5%nat
  | multiplicative_binary_operator => Some 6%nat
  | pipe => Some 8%nat
  | dot | open_square_bracket | open_paren => Some 9%nat
  | string_literal => Some 10%nat
  | _ => None
  end.

(** No level from [L] on reads on. *)
Definition stop (L : nat) (r : list symbol) : bool :=
  match head r with
  | Some s => match cont_level s with Some m => (m <? L)%nat | None => true end
  | None => true
  end.

Lemma stop_mono L M r : (L <= M)%nat -> stop L r = true -> stop M r = true.
Proof. unfold stop. destruct (head r) as [s|]; [|done]. destruct (cont_level s) as [m|]; [|done]. rewrite !Nat.ltb_lt. lia. Qed.

Lemma stop_cons L s r : match cont_level s with Some m => (m < L)%nat | None => True end -> stop L (s :: r) = true.
Proof. unfold stop. simpl. destruct (cont_level s) as [m|]; [|done]. by rewrite Nat.ltb_lt. Qed.

(** The symbols with which an expression starts. *)
Definition starter (s : symbol) : bool :=
  bool_decide (s.1 ∈ [numeric_literal; string_literal; identifier; open_paren; open_square_bracket; open_curly_bracket]).

(** ** Views *)

Section Tokens.
Context (tokens : list token).
Abbreviation len := (length tokens).

Definition sym (k : token) : symbol := (t k, value k).

(** The symbols from [current] on. *)
Definition view (current : nat) : list symbol := sym <$> drop current tokens.

Definition hd (l : list symbol) : symbol := default (eof, []) (head l).

Lemma sym_peek current offset : sym (peek tokens current offset) = hd (view (current + offset)).
Proof.
  unfold peek, view. destruct (tokens !! (current + offset)%nat) as [k|] eqn:E.
  - by rewrite (drop_S _ k _ E).
  - by rewrite drop_ge by (by apply lookup_ge_None).
Qed.

Lemma peek_sym current : sym (peek tokens current 0) = hd (view current).
Proof. by rewrite sym_peek, Nat.add_0_r. Qed.

Lemma peek_t current : t (peek tokens current 0) = (hd (view current)).1.
Proof. by rewrite <- peek_sym. Qed.
Lemma peek_value current : value (peek tokens current 0) = (hd (view current)).2.
Proof. by rewrite <- peek_sym. Qed.

Lemma is_view ty current : is_ tokens ty current = bool_decide ((hd (view current)).1 = ty).
Proof. unfold is_. by rewrite peek_t. Qed.

Lemma is_identifier_view name current : is_identifier tokens name current = bool_decide (hd (view current) = (identifier, name)).
Proof.
  unfold is_identifier. rewrite peek_t, peek_value. apply bool_decide_ext. destruct (hd _) as [ty v]. simpl. naive_solver.
Qed.

Lemma view_app current a r : view current = a ++ r -> view (current + length a) = r.
Proof. unfold view. intros H. rewrite <- drop_drop, fmap_drop, H. by rewrite drop_app_length. Qed.

Lemma view_cons current s r : view current = s :: r ->
  exists k, tokens !! current = Some k /\ sym k = s /\ view (S current) = r.
Proof.
  intros H. pose proof (view_app current [s] r H) as Hr. rewrite Nat.add_1_r in Hr.
  unfold view in H. destruct (tokens !! current) as [k|] eqn:E.
  - rewrite (drop_S _ k _ E) in H. injection H as Hk _. eauto.
  - by rewrite drop_ge in H by (by apply lookup_ge_None).
Qed.

Lemma view_S current s r : view current = s :: r -> view (S current) = r.
Proof. intros (_ & _ & _ & ?)%view_cons. done. Qed.

Lemma view_lt current s r : view current = s :: r -> (current < len)%nat.
Proof. intros (k & H & _)%view_cons. by apply lookup_lt_Some in H. Qed.

Lemma view_bound current a r : view current = a ++ r -> a <> [] -> (current + length a <= len)%nat.
Proof.
  unfold view. intros H%(f_equal length) Ha. rewrite length_fmap, length_drop, length_app in H.
  destruct a; [done|]. simpl in *. lia.
Qed.

Lemma next_symbol current s r : view current = s :: r ->
  exists k, next tokens current = Ok (k, S current) /\ sym k = s.
Proof. intros (k & H & Hs & _)%view_cons. unfold next. rewrite H. eauto. Qed.

Lemma mk_stmt_lt current : (current < len)%nat -> exists p, mk_stmt tokens current = Ok p.
Proof. intros [k H]%lookup_lt_is_Some_2. unfold mk_stmt. rewrite (at_lookup _ _ _ H). eauto. Qed.

Lemma mk_stmt_view current s r : view current = s :: r -> exists p, mk_stmt tokens current = Ok p.
Proof. intros H%view_lt. by apply mk_stmt_lt. Qed.

Lemma expect_view ty error current v r : view current = (ty, v) :: r -> expect tokens ty error current = Ok (S current).
Proof. intros H. unfold expect. rewrite peek_t, H. simpl. by rewrite bool_decide_eq_true_2. Qed.

(** What [stop] excludes. *)
Lemma stop_level L current s :
  stop L (view current) = true -> hd (view current) = s -> match cont_level s with Some m => (m < L)%nat | None => True end.
Proof.
  unfold stop, hd. intros H <-. destruct (head _) as [k|]; simpl; [|done]. destruct (cont_level k); [|done]. by apply Nat.ltb_lt in H.
Qed.

(** ** Loops *)

(** One turn of a loop. *)
Definition turn {St} (step : St -> nat -> R (option (St * nat))) (x y : St * nat) : Prop :=
  step x.1 x.2 = Ok (Some y) /\ (x.2 < y.2)%nat.

Lemma turns_le {St} (step : St -> nat -> R (option (St * nat))) x y : rtc (turn step) x y -> (x.2 <= y.2)%nat.
Proof. induction 1 as [|x y z [_ H] _ IH]; lia. Qed.

Lemma while_turns {St} (step : St -> nat -> R (option (St * nat))) fuel x y :
  rtc (turn step) x y -> step y.1 y.2 = Ok None -> (y.2 < x.2 + fuel)%nat -> while_ fuel step x.1 x.2 = Ok y.
Proof.
  intros H. revert fuel. induction H as [x|x y z [Hs Hlt] Hr IH]; intros fuel He Hf.
  - destruct fuel as [|fuel]; [lia|]. cbn [while_]. rewrite He. bind_simpl. by destruct x.
  - apply turns_le in Hr as Hle. destruct fuel as [|fuel]; [lia|]. cbn [while_]. rewrite Hs. bind_simpl. apply IH; [done|lia].
Qed.

Lemma loop_turns {St} (step : St -> nat -> R (option (St * nat))) st current y :
  rtc (turn step) (st, current) y -> step y.1 y.2 = Ok None -> (y.2 <= len)%nat -> while_ (budget tokens) step st current = Ok y.
Proof. intros H He Hle. apply (while_turns _ _ (st, current)); [done..|]. unfold budget. lia. Qed.

(** ** Lists with commas *)

Lemma skip_comma_here current r : view current = comma_s :: r -> skip_comma tokens current = S current.
Proof. intros H. unfold skip_comma. rewrite is_view, H. done. Qed.

Lemma skip_comma_not current : (hd (view current)).1 <> comma -> skip_comma tokens current = current.
Proof. intros H. unfold skip_comma. rewrite is_view. by rewrite bool_decide_eq_false_2. Qed.

Lemma commas_cons x l : commas (x :: l) = x ++ (match l with [] => [] | _ => comma_s :: commas l end).
Proof. destruct l; simpl; [by rewrite app_nil_r|done]. Qed.

Section Items.
Context {X Y : Type} (step : list Y -> nat -> R (option (list Y * nat))) (item : nat -> R (Y * nat)).
Context (print_item : X -> list symbol) (like : Y -> X -> Prop) (closing : token_type) (lo : nat).
Hypothesis step_item : forall vals current, (hd (view current)).1 <> closing ->
  step vals current = (x ← item current; Ok (Some (vals ++ [x.1], skip_comma tokens x.2))).

(** [x] is read from [lo] on, before a comma or what closes the list. *)
Definition elem_read (x : X) : Prop := forall current r,
  (lo <= current)%nat -> view current = print_item x ++ r -> (hd r).1 = comma \/ (hd r).1 = closing ->
  exists y, item current = Ok (y, (current + length (print_item x))%nat) /\ like y x.

(** The same, for an element that does not look like the end of the list. *)
Definition item_read (x : X) : Prop := forall current r,
  (lo <= current)%nat -> view current = print_item x ++ r -> (hd r).1 = comma \/ (hd r).1 = closing ->
  (exists y, item current = Ok (y, (current + length (print_item x))%nat) /\ like y x) /\
  (exists s l, print_item x = s :: l /\ s.1 <> closing).

Lemma item_elem x : item_read x -> elem_read x.
Proof. intros H current r Hc Hv Hr. by destruct (H current r Hc Hv Hr) as [? _]. Qed.

Lemma items_turns xs vals current v r :
  Forall item_read xs -> closing <> comma -> (lo <= current)%nat ->
  view current = commas (map print_item xs) ++ (closing, v) :: r ->
  exists ys, Forall2 like ys xs /\
    rtc (turn step) (vals, current) (vals ++ ys, (current + length (commas (map print_item xs)))%nat).
Proof.
  intros Hxs Hc. revert vals current. induction Hxs as [|x xs Hx Hxs IH]; intros vals current Hlo Hv.
  { exists []. split; [constructor|]. rewrite app_nil_r. simpl. rewrite Nat.add_0_r. done. }
  cbn [map] in Hv |- *. rewrite commas_cons, <- app_assoc in Hv.
  set (q := match map print_item xs with [] => _ | _ => _ end ++ _) in Hv.
  assert (Hq : (hd q).1 = comma \/ (hd q).1 = closing) by (unfold q; destruct xs; simpl; auto).
  destruct (Hx current q Hlo Hv Hq) as [(y & Hy & Hl) (s & l & Hs & Hns)].
  assert (Hstep : step vals current = Ok (Some (vals ++ [y], skip_comma tokens (current + length (print_item x))))).
  { rewrite step_item, Hy; [done|]. by rewrite Hv, Hs. }
  apply view_app in Hv as Hv'. rewrite commas_cons, length_app.
  destruct xs as [|x' xs]; cbn [map] in *.
  - exists [y]. split; [by repeat constructor|]. simpl. rewrite Nat.add_0_r. apply rtc_once. split; [|rewrite Hs; simpl; lia].
    simpl. rewrite Hstep. rewrite skip_comma_not; [done|]. by rewrite Hv'.
  - unfold q in Hv'. rewrite (skip_comma_here _ _ Hv') in Hstep. apply view_S in Hv' as Hv''.
    destruct (IH (vals ++ [y]) (S (current + length (print_item x)))) as (ys & Hys & Hr); [lia|done|].
    exists (y :: ys). split; [by constructor|]. eapply rtc_l; [split; [exact Hstep|simpl; lia]|].
    rewrite <- app_assoc in Hr. cbn [app length] in Hr |- *.
    match goal with |- rtc _ _ (_, ?m) => match type of Hr with rtc _ _ (_, ?k) => replace m with k by lia end end. exact Hr.
Qed.
End Items.

End Tokens.

(** ** Numbers *)

Lemma print_int_digits n : - 2 ^ 63 <= n < 2 ^ 63 ->
  exists ds, all_digits ds /\ ds <> [] /\ value_of ds = Z.abs n /\ print_int n = (if n <? 0 then [ch "-"] else []) ++ ds.
Proof.
  intros Hn. assert (H20 : 2 ^ 63 < 10 ^ Z.of_nat 20) by done.
  destruct (decimal_ok 20 (Z.abs n)) as (H1 & H2 & H3); [clear - Hn H20; set (m := 10 ^ Z.of_nat 20) in *; clearbody m; lia|lia|].
  exists (decimal 20 (Z.abs n)). split_and!; [exact H1|exact H2|exact H3|]. unfold print_int.
  destruct (Z.ltb_spec n 0); cbn [app]; [rewrite Z.abs_neq by lia|rewrite Z.abs_eq by lia]; reflexivity.
Qed.

Lemma leading_digits_all ds : all_digits ds -> leading_digits ds = ds.
Proof.
  induction 1 as [|c ds Hc _ IH]; [done|]. cbn [leading_digits]. change (is_integer c) with (isdigit c). by rewrite Hc, IH.
Qed.

Lemma stoll_print n : - 2 ^ 63 <= n < 2 ^ 63 -> stoll (print_int n) = Ok n.
Proof.
  intros Hn. destruct (print_int_digits n Hn) as (ds & Hd & Hne & Hval & ->). unfold stoll.
  assert (Hv : foldl (fun n c => n * 10 + (c - ch "0")) 0 ds = Z.abs n) by exact Hval.
  assert (Hsp : forall c, isdigit c = true -> isspace c = false /\ c <> ch "-" /\ c <> ch "+").
  { intros c Hc. unfold isdigit in Hc. unfold isspace. change (ch "-") with 45. change (ch "+") with 43. lia. }
  destruct ds as [|c ds]; [done|]. pose proof Hd as Hc. apply Forall_cons in Hc as [Hc _]. apply Hsp in Hc as (H1 & H2 & H3).
  assert (E : (match skip_spaces ((if n <? 0 then [ch "-"] else []) ++ c :: ds) with
    | c0 :: d => if c0 =? ch "-" then (true, d) else if c0 =? ch "+" then (false, d) else (false, skip_spaces ((if n <? 0 then [ch "-"] else []) ++ c :: ds))
    | [] => (false, []) end) = (n <? 0, c :: ds)).
  { destruct (n <? 0); simpl; [done|]. rewrite H1. by rewrite !(proj2 (Z.eqb_neq _ _)) by done. }
  cbv zeta. rewrite E. rewrite (leading_digits_all _ Hd), Hv.
  replace (if n <? 0 then - Z.abs n else Z.abs n) with n by (destruct (Z.ltb_spec n 0); lia). simpl length.
  destruct (Z.leb_spec (- 2 ^ 63) n), (Z.ltb_spec n (2 ^ 63)); (done || lia).
Qed.

Lemma print_int_no_dot n : - 2 ^ 63 <= n < 2 ^ 63 -> ch "." ∉ print_int n.
Proof.
  intros (ds & Hd & _ & _ & ->)%print_int_digits. rewrite elem_of_app. intros [H|H].
  - destruct (n <? 0); [by apply list_elem_of_singleton in H|by apply elem_of_nil in H].
  - unfold all_digits in Hd. rewrite Forall_forall in Hd. by apply Hd in H.
Qed.

End JinjaParserRead.
