(* ===== verification/JinjaParserLevel.v ===== *)
(** The levels of the expression parser: what it is to read an expression at a level, how a
    level hands over to the next, and parentheses. *)
From Stdlib Require Import Ascii.
From S2P Require Import Prelude.
From S2P Require Import JinjaLexer.
From S2P Require Import JinjaLexerPrint.
From S2P Require Import JinjaParser.
From S2P Require Import JinjaParserPrint.
From S2P Require Import JinjaParserRead.

Module JinjaParserLevel.
Import JinjaLexer.
Import JinjaLexerPrint.
Import JinjaParser.
Import JinjaParserPrint.
Import JinjaParserRead.

(** The levels that are loops over the next one. *)
Definition loopy (m : nat) : bool := bool_decide (m ∈ [1%nat; 2%nat; 4%nat; 5%nat; 6%nat; 7%nat; 8%nat]).

Section Expr.
Context {float : Type} (print_float : float -> bytes) (stod : bytes -> option float) (tokens : list token).
Abbreviation statement := (statement float).
Abbreviation len := (length tokens).
Abbreviation view := (view tokens).
Abbreviation print := (print print_float).
Abbreviation at_level := (at_level print_float).
Abbreviation rec := (parse_expression_at stod tokens).

(** The function that reads a level. *)
Definition parse_level (L : nat) (parse_expression : nat -> R (statement * nat)) : nat -> R (statement * nat) :=
  (match L with
   | 0 => parse_if_expression stod tokens
   | 1 => parse_logical_or_expression stod tokens
   | 2 => parse_logical_and_expression stod tokens
   | 3 => parse_logical_negation_expression stod tokens
   | 4 => parse_comparison_expression stod tokens
   | 5 => parse_additive_expression stod tokens
   | 6 => parse_multiplicative_expression stod tokens
   | 7 => parse_test_expression stod tokens
   | 8 => parse_filter_expression stod tokens
   | 9 => parse_call_member_expression stod tokens
   | _ => parse_primary_expression stod tokens
   end%nat) parse_expression.

Definition op_at (m : nat) : nat -> option (token * nat) :=
  match m with
  | 1 => identifier_op tokens (str "or")
  | 2 => identifier_op tokens (str "and")
  | 4 => comparison_op tokens
  | 5 => type_op tokens additive_binary_operator
  | _ => type_op tokens multiplicative_binary_operator
  end%nat.

Definition level_step (m : nat) (parse_expression : nat -> R (statement * nat)) : statement -> nat -> R (option (statement * nat)) :=
  match m with
  | 7 => test_step stod tokens parse_expression
  | 8 => filter_step stod tokens parse_expression
  | _ => binary_step tokens (op_at m) (parse_level (S m) parse_expression)
  end%nat.

Lemma loopy_cases m : loopy m = true -> (m = 1 \/ m = 2 \/ m = 4 \/ m = 5 \/ m = 6 \/ m = 7 \/ m = 8)%nat.
Proof. intros H%bool_decide_eq_true. set_solver. Qed.

Lemma level_loop m r current : loopy m = true ->
  parse_level m r current = (left ← parse_level (S m) r current; while_ (budget tokens) (level_step m r) left.1 left.2).
Proof. intros [->|[->|[->|[->|[->|[->| ->]]]]]]%loopy_cases; reflexivity. Qed.

(** What is read, in each of the forms in which the parser meets it. *)
Definition reads (L : nat) (e : statement) : Prop := forall n current r,
  (len < current + S n)%nat -> view current = at_level L e ++ r -> stop L r = true ->
  exists e', parse_level L (rec n) current = Ok (e', (current + length (at_level L e))%nat) /\ same e' e.

Definition rec_ok (e : statement) : Prop := forall n current r,
  (len < current + n)%nat -> view current = at_level 0 e ++ r -> stop 0 r = true ->
  exists e', rec n current = Ok (e', (current + length (at_level 0 e))%nat) /\ same e' e.

(** An operand of a loop, which may be followed by a symbol of the loop. *)
Definition prefix (m : nat) (e : statement) : Prop := forall n current r,
  (len < current + S n)%nat -> view current = at_level m e ++ r -> stop (S m) r = true ->
  exists x e', parse_level (S m) (rec n) current = Ok x /\
    rtc (turn (level_step m (rec n))) x (e', (current + length (at_level m e))%nat) /\ same e' e.

(** ** Levels *)

Lemma at_level_le L e : (L <= level e)%nat -> at_level L e = print e.
Proof. intros H. unfold JinjaParserPrint.at_level, wrap. by rewrite (proj2 (Nat.leb_le _ _)). Qed.

Lemma at_level_gt L e : (level e < L)%nat -> at_level L e = parens (print e).
Proof. intros H. unfold JinjaParserPrint.at_level, wrap. by rewrite (proj2 (Nat.leb_gt _ _)). Qed.

Lemma at_level_same L M e : (L <= M)%nat -> (level e < L \/ M <= level e)%nat -> at_level L e = at_level M e.
Proof. intros H [H'|H']; [rewrite !at_level_gt by lia|rewrite !at_level_le by lia]; done. Qed.

Lemma op_level_cases op m : op_level op = Some m -> (m = 1 \/ m = 2 \/ m = 4 \/ m = 5 \/ m = 6)%nat.
Proof. unfold op_level. destruct (t op); try done; repeat case_bool_decide; intros [= <-]; auto. Qed.

(** The first symbol of an expression. *)
Lemma starter_at e L : proper e = true ->
  exists s r, at_level L e = s :: r /\ starter s = true /\ ((4 <= L)%nat -> s <> word (str "not")).
Proof.
  remember (size e) as k eqn:Ek. revert e Ek L. induction (lt_wf k) as [k _ IH]; intros e -> L Hp.
  destruct (decide (L <= level e)%nat) as [HL|HL].
  2:{ rewrite at_level_gt by lia. eexists _, _. by split_and!. }
  rewrite at_level_le by done.
  assert (Hsub : forall m x rest, (size x < size e)%nat -> proper x = true -> ((4 <= L)%nat -> (4 <= m)%nat) -> print e = at_level m x ++ rest ->
    exists s r, print e = s :: r /\ starter s = true /\ ((4 <= L)%nat -> s <> word (str "not"))).
  { intros m x rest Hx Hpx Hm ->. destruct (IH _ Hx x eq_refl m Hpx) as (s & r & -> & Hs & Hn). eexists s, _. split_and!; auto. }
  destruct e; try done; cbn [proper] in Hp; bool_prop.
  - (* member *) eapply (Hsub 9%nat e1); [simpl; lia|done|lia|reflexivity].
  - (* call *) eapply (Hsub 9%nat e); [simpl; lia|done|lia|reflexivity].
  - eexists _, _. split_and!; [reflexivity|done|]. intros _ [= E]. by destruct Hp.
  - eexists _, _. by split_and!.
  - eexists _, _. by split_and!.
  - eexists _, _. by split_and!.
  - eexists _, _. by split_and!.
  - eexists _, _. by split_and!.
  - eexists _, _. by split_and!.
  - (* binary *) destruct (op_level op) as [m|] eqn:E; [|done]. bool_prop. cbn [level] in HL. rewrite E in HL. cbn [default] in HL.
    apply (Hsub m e1 (op_symbols op ++ at_level (S m) e2)); [simpl; lia|done|simpl in HL; lia|]. cbn [JinjaParserPrint.print level]. by rewrite E.
  - (* unary *) match goal with H : _ /\ _ |- _ => destruct H as [Ht Hv] end. simpl in HL.
    eexists _, _. split_and!; [reflexivity|cbn; by rewrite Ht|lia].
  - (* filter *) eapply (Hsub 8%nat e1); [simpl; lia|done|lia|reflexivity].
  - (* select *) eapply (Hsub 1%nat e1); [simpl; lia|done|simpl in HL; lia|reflexivity].
  - (* test *) eapply (Hsub 7%nat e1); [simpl; lia|done|lia|reflexivity].
  - (* ternary *) eapply (Hsub 1%nat e2); [simpl; lia|done|simpl in HL; lia|reflexivity].
Qed.

(** ** Where the loops stop *)

Lemma stop_is L current ty : stop L (view current) = true ->
  (forall v, match cont_level (ty, v) with Some m => (L <= m)%nat | None => False end) -> is_ tokens ty current = false.
Proof.
  intros H Hc. rewrite is_view. apply bool_decide_eq_false_2. intros E. destruct (hd (view current)) as [ty' v] eqn:Eh.
  simpl in E. subst ty'. pose proof (stop_level _ _ _ _ H Eh) as Hl. specialize (Hc v). destruct (cont_level _); [lia|done].
Qed.

Lemma stop_identifier L current name : stop L (view current) = true ->
  match cont_level (word name) with Some m => (L <= m)%nat | None => False end -> is_identifier tokens name current = false.
Proof.
  intros H Hc. rewrite is_identifier_view. apply bool_decide_eq_false_2. intros E.
  pose proof (stop_level _ _ _ _ H E) as Hl. unfold word in Hc. destruct (cont_level _); [lia|done].
Qed.

(** Rewrite the tests that [stop] makes fail. *)
Ltac quiet L :=
  repeat first [ progress cbn [andb]
               | rewrite (stop_identifier L) by (done || simpl; lia)
               | rewrite (stop_is L) by (done || intros v; simpl; lia) ].

Lemma step_stop m r e current : loopy m = true -> stop m (view current) = true -> level_step m r e current = Ok None.
Proof.
  intros [->|[->|[->|[->|[->|[->| ->]]]]]]%loopy_cases Hs; cbn [level_step];
    unfold binary_step, op_at, comparison_op, identifier_op, type_op, test_step, filter_step.
  - by quiet 1%nat.
  - by quiet 2%nat.
  - by quiet 4%nat.
  - by quiet 5%nat.
  - by quiet 6%nat.
  - by quiet 7%nat.
  - by quiet 8%nat.
Qed.

Lemma loop_stop m r current x e c : loopy m = true -> parse_level (S m) r current = Ok x ->
  rtc (turn (level_step m r)) x (e, c) -> stop m (view c) = true -> (c <= len)%nat -> parse_level m r current = Ok (e, c).
Proof.
  intros Hm Hx Hr Hs Hc. rewrite level_loop, Hx by done. bind_simpl. apply (loop_turns tokens); [by destruct x| |done]. by apply step_stop.
Qed.

Lemma fits L e current r : proper e = true -> view current = at_level L e ++ r ->
  (current < current + length (at_level L e) <= len)%nat.
Proof.
  intros Hp Hv. destruct (starter_at e L Hp) as (s & l & E & _). split; [rewrite E; simpl; lia|].
  apply (view_bound tokens _ _ r); [done|]. by rewrite E.
Qed.

Lemma reads_loop m e : loopy m = true -> proper e = true -> prefix m e -> reads m e.
Proof.
  intros Hm Hpr Hp n current r Hn Hv Hs. destruct (Hp n current r) as (x & e' & Hx & Hr & He); [done..|by apply (stop_mono m); [lia|]|].
  exists e'. split; [|done]. apply view_app in Hv as Hv'. apply fits in Hv as [_ Hle]; [|done].
  eapply loop_stop; [done..|by rewrite Hv'|done].
Qed.

(** A level above reads the same where neither goes on. *)
Lemma descend L r current e c :
  (L < 10)%nat -> parse_level (S L) r current = Ok (e, c) -> stop L (view c) = true -> (c <= len)%nat ->
  (L = 3%nat -> hd (view current) <> word (str "not")) -> parse_level L r current = Ok (e, c).
Proof.
  intros HL H Hs Hc Hn. destruct (loopy L) eqn:E.
  { eapply loop_stop; [done..|by apply rtc_refl|done|done]. }
  assert (L = 0 \/ L = 3 \/ L = 9)%nat as [->|[->| ->]].
  { clear H Hs Hn. destruct L as [|[|[|[|[|[|[|[|[|[|L]]]]]]]]]]; auto; try (vm_compute in E; discriminate E). lia. }
  - cbn in H |- *. unfold parse_if_expression. rewrite H. bind_simpl. cbn [fst snd]. by quiet 0%nat.
  - cbn in H |- *. unfold parse_logical_negation_expression, budget. cbn [negation_expression]. rewrite is_identifier_view.
    by rewrite bool_decide_eq_false_2 by by apply Hn.
  - cbn in H |- *. unfold parse_call_member_expression. rewrite H. bind_simpl. cbn [fst snd].
    unfold parse_member_expression. rewrite (loop_turns tokens _ e c (e, c)); [|by apply rtc_refl| |done].
    + bind_simpl. cbn [fst snd]. by quiet 9%nat.
    + unfold member_step. cbn [fst snd]. quiet 9%nat. done.
Qed.

Lemma descend_to L M r current e c :
  (L <= M <= 10)%nat -> parse_level M r current = Ok (e, c) -> stop L (view c) = true -> (c <= len)%nat ->
  ((L <= 3 < M)%nat -> hd (view current) <> word (str "not")) -> parse_level L r current = Ok (e, c).
Proof.
  intros [HL HM] H Hs Hc Hn. induction HL as [|M HL IH]; [done|]. apply IH; [lia| |intros ?; apply Hn; lia].
  apply descend; [lia|done|by apply (stop_mono L)|done|intros ->; apply Hn; lia].
Qed.

(** ** Expressions in parentheses *)

Lemma rec_reads e : proper e = true -> reads 0 e -> rec_ok e.
Proof.
  intros Hp H n current r Hn Hv Hs. pose proof (fits _ _ _ r Hp Hv). destruct n as [|n]; [lia|]. by apply (H n current r).
Qed.

Lemma reads_parens e n current r : proper e = true -> rec_ok e ->
  (len < current + S n)%nat -> view current = parens (print e) ++ r ->
  exists e', parse_level 10 (rec n) current = Ok (e', (current + length (parens (print e)))%nat) /\ same e' e.
Proof.
  intros Hp He Hn Hv. unfold parens in Hv. cbn [app] in Hv. rewrite <- app_assoc in Hv. cbn [parse_level]. unfold parse_primary_expression.
  destruct (next_symbol _ _ _ _ Hv) as (k & -> & Hk). injection Hk as Hk _. bind_simpl. rewrite Hk. cbn.
  apply view_S in Hv as Hv1. rewrite <- (at_level_le 0) in Hv1 by lia.
  destruct (He n (S current) ([close_p] ++ r)) as (e' & He' & Hsame); [lia|done|by apply stop_cons|].
  apply view_app in Hv1 as Hv2. unfold sequence_of. rewrite He'. bind_simpl. cbn [fst snd].
  assert (Hcomma : is_ tokens comma (S current + length (at_level 0 e)) = false) by (rewrite is_view, Hv2; done).
  apply view_lt in Hv2 as Hlt.
  rewrite (loop_turns tokens _ [e'] _ ([e'], (S current + length (at_level 0 e))%nat)); [|by apply rtc_refl| |cbn [snd]; lia].
  2:{ unfold sequence_step. cbn [fst snd]. by rewrite Hcomma. }
  bind_simpl. cbn [fst snd]. rewrite Hcomma. bind_simpl. cbn [fst snd]. rewrite (expect_view _ _ _ _ _ _ Hv2). bind_simpl.
  exists e'. split; [|done]. do 2 f_equal. rewrite at_level_le by lia. unfold parens. cbn [length]. rewrite length_app. simpl. lia.
Qed.

(** From the level of an expression to all levels. *)
Lemma reads_from_level e : proper e = true -> (level e <= 10)%nat -> reads (level e) e -> forall L, (L <= 10)%nat -> reads L e.
Proof.
  intros Hp Hl H.
  assert (Hlow : forall L, (L <= level e)%nat -> reads L e).
  { intros L HL n current r Hn Hv Hs. rewrite at_level_le in Hv by done. rewrite <- (at_level_le (level e)) in Hv by lia.
    destruct (H n current r) as (e' & He' & Hsame); [done..|by apply (stop_mono L)|].
    exists e'. split; [|done]. apply view_app in Hv as Hv'. pose proof (fits _ _ _ _ Hp Hv) as [_ Hle].
    rewrite (at_level_le L), <- (at_level_le (level e)) by lia. eapply descend_to; [split; [exact HL|done]|done|by rewrite Hv'|done|].
    intros H3. destruct (starter_at e (level e) Hp) as (s & l & E & _ & Hnot). rewrite Hv, E. apply Hnot. lia. }
  intros L HL. destruct (decide (L <= level e)%nat) as [|Hgt]; [by apply Hlow|].
  intros n current r Hn Hv Hs. pose proof (fits _ _ _ _ Hp Hv) as [_ Hle]. apply view_app in Hv as Hv'.
  rewrite at_level_gt in * by lia. destruct (reads_parens e n current r) as (e' & He' & Hsame); [done| |done..|].
  { apply rec_reads; [done|]. apply Hlow. lia. }
  exists e'. split; [|done]. eapply descend_to; [|done|by rewrite Hv'|done|by rewrite Hv]. lia.
Qed.

Lemma prefix_above m e : proper e = true -> (level e < m \/ S m <= level e)%nat -> reads (S m) e -> prefix m e.
Proof.
  intros Hp Hl H n current r Hn Hv Hs. rewrite (at_level_same m (S m)) in * by (done || lia).
  destruct (H n current r) as (e' & He' & Hsame); [done..|]. exists (e', (current + length (at_level (S m) e))%nat), e'.
  split_and!; [done|by apply rtc_refl|done].
Qed.

End Expr.
End JinjaParserLevel.
