(* ===== verification/JinjaParserPrimary.v ===== *)
(** Reading back primary expressions, lists of arguments, indices and chains of members and
    calls. *)

From Stdlib Require Import Ascii.
From S2P Require Import Prelude.
From S2P Require Import JinjaLexer.
From S2P Require Import JinjaLexerPrint.
From S2P Require Import JinjaParser.
From S2P Require Import JinjaParserPrint.
From S2P Require Import JinjaParserRead.
From S2P Require Import JinjaParserLevel.

Module JinjaParserPrimary.
Import JinjaLexer.
Import JinjaLexerPrint.
Import JinjaParser.
Import JinjaParserPrint.
Import JinjaParserRead.
Import JinjaParserLevel.

(** Symbols that end an expression of any level. *)
Definition closer (ty : token_type) : bool :=
  bool_decide (ty ∈ [comma; colon; equals; close_paren; close_square_bracket; close_curly_bracket; close_statement; close_expression; eof]).

Lemma stop_closer r L : closer (hd r).1 = true -> stop L r = true.
Proof.
  unfold stop, hd. destruct (head r) as [[ty v]|]; [|done]. simpl. intros H. by destruct ty; try discriminate H.
Qed.

Lemma starter_closer s ty : starter s = true -> closer ty = true -> s.1 <> ty.
Proof. intros Hs Hc E. unfold starter in Hs. rewrite E in Hs. destruct ty; first [discriminate Hs | discriminate Hc]. Qed.

Section Primary.
Context {float : Type} (print_float : float -> bytes) (stod : bytes -> option float) (tokens : list token).
Abbreviation statement := (statement float).
Abbreviation len := (length tokens).
Abbreviation view := (view tokens).
Abbreviation print := (print print_float).
Abbreviation at_level := (at_level print_float).
Abbreviation print_arg := (print_arg print_float).
Abbreviation rec := (parse_expression_at stod tokens).
Abbreviation rec_ok := (rec_ok print_float stod tokens).
Abbreviation reads := (reads print_float stod tokens).
Abbreviation parse_level := (parse_level stod tokens).

(** A part of an expression: it is proper and read from any position that is far enough. *)
Definition part (x : statement) : Prop := proper x = true /\ rec_ok x.

Lemma all_same_Forall2 l k : Forall2 same l k -> all_same (float := float) l k.
Proof. unfold all_same. induction 1 as [|x y l k H _ IH]; [done|]. cbn [map]. by rewrite H, IH. Qed.

(** ** Literals *)

Lemma one_symbol ty v n current r : view current = (ty, v) :: r -> (len < current + S n)%nat ->
  exists k p, next tokens current = Ok (k, S current) /\ t k = ty /\ value k = v /\ mk_stmt tokens current = Ok p.
Proof.
  intros Hv _. destruct (next_symbol _ _ _ _ Hv) as (k & Hk & [= Ht Hval]). destruct (mk_stmt_view _ _ _ _ Hv) as [p Hp]. eauto 10.
Qed.

Lemma reads_identifier p v : v <> str "not" -> reads 10 (Identifier p v).
Proof.
  intros _ n current r Hn Hv _. cbn [app] in Hv. destruct (one_symbol _ _ n _ _ Hv Hn) as (k & q & Hk & Ht & Hval & Hq).
  exists (Identifier q v). split; [|done]. cbn. unfold parse_primary_expression. rewrite Hk. bind_simpl. rewrite Ht, Hq. bind_simpl.
  rewrite Hval. do 2 f_equal. lia.
Qed.

Lemma reads_integer p z : - 2 ^ 63 <= z < 2 ^ 63 -> reads 10 (IntegerLiteral p z).
Proof.
  intros Hz n current r Hn Hv _. change (at_level 10 (IntegerLiteral p z)) with [(numeric_literal, print_int z)] in *. cbn [app] in Hv.
  destruct (one_symbol _ _ n _ _ Hv Hn) as (k & q & Hk & Ht & Hval & Hq).
  exists (IntegerLiteral q z). split; [|done]. unfold JinjaParserLevel.parse_level, parse_primary_expression. rewrite Hk. bind_simpl. rewrite Ht, Hval.
  rewrite bool_decide_eq_false_2 by by apply print_int_no_dot. rewrite stoll_print by done. bind_simpl. rewrite Hq. bind_simpl.
  do 2 f_equal. simpl. lia.
Qed.

Lemma reads_float p f : ch "." ∈ print_float f -> stod (print_float f) = Some f -> reads 10 (FloatLiteral p f).
Proof.
  intros Hdot Hstod n current r Hn Hv _. cbn [app] in Hv. destruct (one_symbol _ _ n _ _ Hv Hn) as (k & q & Hk & Ht & Hval & Hq).
  exists (FloatLiteral q f). split; [|done]. cbn. unfold parse_primary_expression. rewrite Hk. bind_simpl. rewrite Ht, Hval.
  rewrite bool_decide_eq_true_2 by done. rewrite Hstod, Hq. bind_simpl. do 2 f_equal. lia.
Qed.

Lemma reads_string p v : reads 10 (StringLiteral p v).
Proof.
  intros n current r Hn Hv Hs. cbn [app] in Hv. destruct (one_symbol _ _ n _ _ Hv Hn) as (k & q & Hk & Ht & Hval & Hq).
  exists (StringLiteral q v). split; [|done]. cbn. unfold parse_primary_expression. rewrite Hk. bind_simpl. rewrite Ht, Hval.
  apply view_S in Hv as Hv'. rewrite (loop_turns tokens _ v (S current) (v, S current)); [|by apply rtc_refl| |].
  - bind_simpl. rewrite Hq. bind_simpl. do 2 f_equal. cbn [snd]. lia.
  - unfold string_step. cbn [fst snd]. rewrite (stop_is tokens 10); [done|by rewrite Hv'|]. intros w. simpl. lia.
  - by apply (view_lt _ _ _ _ Hv).
Qed.

(** ** Lists *)

Lemma rec_item n lo closing x : part x -> closer closing = true -> (len < lo + n)%nat ->
  item_read tokens (rec n) (at_level 0) same closing lo x.
Proof.
  intros [Hp Hx] Hc Hlo current r Hcur Hv Hr. split.
  - apply (Hx n current r); [lia|done|]. apply stop_closer. by destruct Hr as [-> | ->].
  - destruct (starter_at print_float x 0 Hp) as (s & l & E & Hs & _). exists s, l. split; [done|]. by apply starter_closer.
Qed.

Lemma reads_array p l : Forall part l -> reads 10 (ArrayLiteral p l).
Proof.
  intros Hl n current r Hn Hv _. change (at_level 10 (ArrayLiteral p l)) with (open_b :: commas (map (at_level 0) l) ++ [close_b]) in *.
  cbn [app] in Hv. rewrite <- app_assoc in Hv. destruct (one_symbol _ _ n _ _ Hv Hn) as (k & q & Hk & Ht & _ & Hq).
  apply view_S in Hv as Hv1.
  destruct (items_turns tokens (array_step tokens (rec n)) (rec n) (at_level 0) same close_square_bracket (S current)) with (xs := l) (vals := @nil statement) (current := S current) (v := str "]") (r := r)
    as (l' & Hl' & Hr).
  { intros vals c Hc. unfold array_step. by rewrite is_view, bool_decide_eq_false_2. }
  { eapply Forall_impl; [exact Hl|]. intros x Hx. apply rec_item; [done..|lia]. }
  { done. } { done. } { done. }
  apply view_app in Hv1 as Hv2. apply view_lt in Hv2 as Hlt.
  exists (ArrayLiteral q l'). split; [|unfold same; cbn [strip]; f_equal; by apply all_same_Forall2].
  cbn [JinjaParserLevel.parse_level]. unfold parse_primary_expression. rewrite Hk. bind_simpl. rewrite Ht.
  rewrite (loop_turns tokens _ _ _ _ Hr); [| |by apply Nat.lt_le_incl].
  - bind_simpl. rewrite Hq. bind_simpl. do 2 f_equal. cbn [fst snd length]. rewrite length_app. simpl. lia.
  - unfold array_step. cbn [fst snd]. rewrite is_view, Hv2. done.
Qed.

(** An element of an object. *)
Definition object_item (current n : nat) : R (statement * statement * nat) :=
  key ← rec n current;
  c ← expect tokens colon (str "Expected :") key.2;
  v ← rec n c;
  Ok ((key.1, v.1), v.2).

Definition print_pair (p : statement * statement) : list symbol := at_level 0 p.1 ++ colon_s :: at_level 0 p.2.

Lemma pair_item n lo x : part x.1 -> part x.2 -> (len < lo + n)%nat ->
  item_read tokens (fun c => object_item c n) print_pair (fun y x => same y.1 x.1 /\ same y.2 x.2) close_curly_bracket lo x.
Proof.
  intros [Hp1 H1] [Hp2 H2] Hlo current r Hcur Hv Hr. unfold print_pair in Hv. rewrite <- app_assoc in Hv. cbn [app] in Hv. split.
  - destruct (H1 n current _ ltac:(lia) Hv) as (k & Hk & Hks); [by apply stop_closer|].
    apply view_app in Hv as Hv1. apply view_S in Hv1 as Hv2.
    destruct (H2 n (S (current + length (at_level 0 x.1))) r) as (y & Hy & Hys); [lia|done|by apply stop_closer; destruct Hr as [-> | ->]|].
    exists (k, y). split; [|done]. unfold object_item. rewrite Hk. bind_simpl. cbn [fst snd]. rewrite (expect_view _ _ _ _ _ _ Hv1).
    bind_simpl. rewrite Hy. bind_simpl. do 2 f_equal. unfold print_pair. rewrite length_app. cbn [length snd]. lia.
  - destruct (starter_at print_float x.1 0 Hp1) as (s & l & E & Hs & _). unfold print_pair. rewrite E. eexists s, _. split; [done|].
    by apply starter_closer.
Qed.

Lemma reads_object p l : Forall (fun x => part x.1 /\ part x.2) l -> reads 10 (ObjectLiteral p l).
Proof.
  intros Hl n current r Hn Hv _. change (at_level 10 (ObjectLiteral p l)) with (open_c :: commas (map print_pair l) ++ [close_c]) in *.
  cbn [app] in Hv. rewrite <- app_assoc in Hv. destruct (one_symbol _ _ n _ _ Hv Hn) as (k & q & Hk & Ht & _ & Hq).
  apply view_S in Hv as Hv1.
  destruct (items_turns tokens (object_step tokens (rec n)) (fun c => object_item c n) print_pair (fun y x => same y.1 x.1 /\ same y.2 x.2) close_curly_bracket (S current))
    with (xs := l) (vals := @nil (statement * statement)) (current := S current) (v := str "}") (r := r) as (l' & Hl' & Hr).
  { intros vals c Hc. unfold object_step, object_item. rewrite is_view, bool_decide_eq_false_2 by done.
    destruct (rec n c) as [key|]; [|done]. bind_simpl. destruct (expect _ _ _ _) as [c'|]; [|done]. bind_simpl. by destruct (rec n c'). }
  { eapply Forall_impl; [exact Hl|]. intros x [H1 H2]. apply pair_item; [done..|lia]. }
  { done. } { done. } { done. }
  apply view_app in Hv1 as Hv2. apply view_lt in Hv2 as Hlt.
  exists (ObjectLiteral q l'). split.
  - cbn [JinjaParserLevel.parse_level]. unfold parse_primary_expression. rewrite Hk. bind_simpl. rewrite Ht.
    rewrite (loop_turns tokens _ _ _ _ Hr); [| |by apply Nat.lt_le_incl].
    + bind_simpl. rewrite Hq. bind_simpl. do 2 f_equal. cbn [fst snd length]. rewrite length_app. simpl. lia.
    + unfold object_step. cbn [fst snd]. rewrite is_view, Hv2. done.
  - unfold same. cbn [strip]. f_equal. clear - Hl'. induction Hl' as [|y x l' l [H1 H2] _ IH]; [done|]. cbn [map app]. by rewrite H1, H2, IH.
Qed.

Lemma commas_concat {A} (f : A -> list symbol) x l : commas (map f (x :: l)) = f x ++ concat (map (fun y => comma_s :: f y) l).
Proof. revert x. induction l as [|y l IH]; intros x; [simpl; by rewrite app_nil_r|]. cbn [map] in *. rewrite commas_cons, IH. done. Qed.

(** Elements with commas between them, and no comma at the end. *)
Section Sequence.
Context (element : nat -> R (statement * nat)) (print_item : statement -> list symbol) (closing : token_type) (lo : nat).
Abbreviation elem := (elem_read tokens element print_item same closing lo).
Abbreviation with_comma := (fun y => comma_s :: print_item y).

Lemma sequence_turns xs exprs current v r :
  Forall elem xs -> (lo <= S current)%nat -> view current = concat (map with_comma xs) ++ (closing, v) :: r ->
  exists ys, Forall2 same ys xs /\
    rtc (turn (sequence_step tokens element)) (exprs, current) (exprs ++ ys, (current + length (concat (map with_comma xs)))%nat).
Proof.
  intros Hxs. revert exprs current. induction Hxs as [|x xs Hx _ IH]; intros exprs current Hlo Hv.
  { exists []. rewrite app_nil_r. simpl. rewrite Nat.add_0_r. by split. }
  cbn [map concat] in Hv |- *. cbn [app] in Hv. rewrite <- app_assoc in Hv. apply view_S in Hv as Hv1.
  destruct (Hx (S current) _ Hlo Hv1) as (y & Hy & Hs); [by destruct xs; simpl; auto|].
  apply view_app in Hv1 as Hv2.
  destruct (IH (exprs ++ [y]) (S current + length (print_item x))%nat) as (ys & Hys & Hr); [lia|done|].
  exists (y :: ys). split; [by constructor|]. apply rtc_l with (exprs ++ [y], (S current + length (print_item x))%nat).
  - split; [|cbn [snd]; lia]. unfold sequence_step. cbn [fst snd]. rewrite is_view, Hv. cbn. rewrite Hy. bind_simpl. reflexivity.
  - rewrite <- app_assoc in Hr. cbn [app] in Hr |- *. cbn [length]. rewrite length_app.
    match goal with |- rtc _ _ (_, ?m) => match type of Hr with rtc _ _ (_, ?k) => replace m with k by lia end end. exact Hr.
Qed.

Lemma read_sequence p l current v r : (2 <= length l)%nat -> Forall elem l -> (lo <= current)%nat -> closing <> comma ->
  view current = commas (map print_item l) ++ (closing, v) :: r ->
  exists e, sequence_of tokens element current = Ok (e, (current + length (commas (map print_item l)))%nat) /\ same e (TupleLiteral p l).
Proof.
  intros H2 Hl Hlo Hc Hv. destruct l as [|x [|y l]]; [simpl in H2; lia..|]. clear H2. apply Forall_cons in Hl as [Hx Hl].
  rewrite commas_concat in Hv |- *. rewrite <- app_assoc in Hv.
  destruct (Hx current _ Hlo Hv) as (x' & Hx' & Hxs); [by left|]. apply view_app in Hv as Hv2.
  destruct (sequence_turns (y :: l) [x'] (current + length (print_item x)) v r Hl) as (l' & Hl' & Hr); [lia|done|].
  apply view_app in Hv2 as Hv3. apply view_lt in Hv3 as Hlt. destruct (mk_stmt_lt tokens current) as [q Hq]; [lia|].
  exists (TupleLiteral q ([x'] ++ l')). split.
  - unfold sequence_of. rewrite Hx'. bind_simpl. cbn [fst snd].
    assert (Hcomma : is_ tokens comma (current + length (print_item x)) = true) by (by rewrite is_view, Hv2).
    rewrite Hcomma. rewrite (loop_turns tokens _ _ _ _ Hr); [| |by apply Nat.lt_le_incl].
    + bind_simpl. cbv iota. cbn [fst snd]. rewrite Hq. bind_simpl. by rewrite length_app, Nat.add_assoc.
    + unfold sequence_step. cbn [fst snd]. rewrite is_view, Hv3. cbn [hd head default fst]. by rewrite bool_decide_eq_false_2.
  - unfold same. cbn [strip]. f_equal. apply (all_same_Forall2 (x' :: l') (x :: y :: l)). by constructor.
Qed.

(** One element alone. *)
Lemma read_single x current r : elem x -> (lo <= current)%nat -> closing <> comma -> (hd r).1 = closing -> (current + length (print_item x) <= len)%nat ->
  view current = print_item x ++ r ->
  exists e, sequence_of tokens element current = Ok (e, (current + length (print_item x))%nat) /\ same e x.
Proof.
  intros Hx Hlo Hc Hr Hle Hv. destruct (Hx current r Hlo Hv) as (x' & Hx' & Hxs); [by right|]. apply view_app in Hv as Hv2.
  exists x'. split; [|done]. unfold sequence_of. rewrite Hx'. bind_simpl. cbn [fst snd].
  assert (Hcomma : is_ tokens comma (current + length (print_item x)) = false) by (rewrite is_view, Hv2; apply bool_decide_eq_false_2; by rewrite Hr).
  rewrite Hcomma. rewrite (loop_turns tokens _ [x'] _ ([x'], (current + length (print_item x))%nat)); [done|by apply rtc_refl| |done].
  unfold sequence_step. cbn [fst snd]. by rewrite Hcomma.
Qed.
End Sequence.

Lemma reads_tuple p l : (2 <= length l)%nat -> Forall part l -> reads 10 (TupleLiteral p l).
Proof.
  intros H2 Hl n current r Hn Hv _. change (at_level 10 (TupleLiteral p l)) with (parens (commas (map (at_level 0) l))) in *.
  unfold parens in Hv |- *. cbn [app] in Hv. rewrite <- app_assoc in Hv.
  destruct (one_symbol _ _ n _ _ Hv Hn) as (k & q & Hk & Ht & _ & Hq). apply view_S in Hv as Hv1.
  destruct (read_sequence (rec n) (at_level 0) close_paren (S current) p l (S current) (str ")") r) as (e & He & Hes); [done| |done..|].
  { eapply Forall_impl; [exact Hl|]. intros z Hz. apply item_elem, rec_item; [done..|lia]. }
  apply view_app in Hv1 as Hv2. exists e. split; [|done]. cbn [JinjaParserLevel.parse_level]. unfold parse_primary_expression. rewrite Hk. bind_simpl.
  rewrite Ht, He. bind_simpl. cbn [fst snd]. rewrite (expect_view _ _ _ _ _ _ Hv2). bind_simpl. do 2 f_equal. cbn [length]. rewrite length_app. simpl. lia.
Qed.

End Primary.
End JinjaParserPrimary.
