(* ===== verification/JinjaParserChain.v ===== *)
(** Reading back arguments, indices and slices, and chains of members and calls. *)

From Stdlib Require Import Ascii.
From S2P Require Import Prelude.
From S2P Require Import JinjaLexer.
From S2P Require Import JinjaLexerPrint.
From S2P Require Import JinjaParser.
From S2P Require Import JinjaParserPrint.
From S2P Require Import JinjaParserRead.
From S2P Require Import JinjaParserLevel.
From S2P Require Import JinjaParserPrimary.

Module JinjaParserChain.
Import JinjaLexer.
Import JinjaLexerPrint.
Import JinjaParser.
Import JinjaParserPrint.
Import JinjaParserRead.
Import JinjaParserLevel.
Import JinjaParserPrimary.

Section Chain.
Context {float : Type} (print_float : float -> bytes) (stod : bytes -> option float) (tokens : list token).
Abbreviation statement := (statement float).
Abbreviation len := (length tokens).
Abbreviation view := (view tokens).
Abbreviation print := (print print_float).
Abbreviation at_level := (at_level print_float).
Abbreviation print_arg := (print_arg print_float).
Abbreviation print_index := (print_index print_float).
Abbreviation print_optional := (print_optional print_float).
Abbreviation rec := (parse_expression_at stod tokens).
Abbreviation reads := (reads print_float stod tokens).
Abbreviation part := (part print_float stod tokens).

(** ** Arguments *)

Definition arg_part (x : statement) : Prop :=
  match x with
  | SpreadExpression _ x => part x
  | KeywordArgumentExpression _ k v => part k /\ part v
  | _ => part x
  end.

(** An expression with a closer after it. *)
Lemma part_read n current x r : part x -> (len < current + n)%nat -> view current = at_level 0 x ++ r -> closer (hd r).1 = true ->
  exists x', rec n current = Ok (x', (current + length (at_level 0 x))%nat) /\ same x' x /\ view (current + length (at_level 0 x)) = r.
Proof.
  intros [_ Hx] Hn Hv Hr. destruct (Hx n current r) as (x' & H & Hs); [done..|by apply stop_closer|].
  exists x'. split_and!; [done..|by eapply view_app].
Qed.

Lemma part_starts x L : part x -> exists s l, at_level L x = s :: l /\ starter s = true.
Proof. intros [Hp _]. destruct (starter_at print_float x L Hp) as (s & l & ? & ? & _). eauto. Qed.

Lemma not_a_star x current r : part x -> view current = at_level 0 x ++ r ->
  bool_decide (t (peek tokens current 0) = multiplicative_binary_operator /\ value (peek tokens current 0) = str "*") = false.
Proof.
  intros Hx Hv. destruct (part_starts x 0 Hx) as (s & l & Es & Hs). apply bool_decide_eq_false_2. rewrite peek_t, Hv, Es. intros [H _].
  destruct s as [ty v]. cbn in H. subst ty. discriminate Hs.
Qed.

Lemma not_closing x L current r ty : part x -> view current = at_level L x ++ r -> closer ty = true -> is_ tokens ty current = false.
Proof.
  intros Hx Hv Hty. destruct (part_starts x L Hx) as (s & l & Es & Hs). rewrite is_view, Hv, Es. apply bool_decide_eq_false_2. by apply starter_closer.
Qed.

(** An argument that is an expression alone. *)
Lemma plain_arg n lo x : part x -> print_arg x = at_level 0 x -> (len < lo + n)%nat ->
  item_read tokens (parse_arg tokens (rec n)) print_arg same close_paren lo x.
Proof.
  intros Hx E Hlo current r Hcur Hv Hr. rewrite E in *. destruct (part_starts x 0 Hx) as (s & l & Es & Hs). split.
  - destruct (part_read n current x r Hx ltac:(lia) Hv) as (x' & Hx' & Hsame & Hend); [by destruct Hr as [-> | ->]|].
    exists x'. split; [|done]. unfold parse_arg. rewrite (not_a_star x _ r) by done. rewrite Hx'. bind_simpl. cbn [snd].
    rewrite is_view, Hend. rewrite bool_decide_eq_false_2; [done|]. by destruct Hr as [-> | ->].
  - exists s, l. split; [done|]. by apply starter_closer.
Qed.

Lemma arg_item n lo x : arg_part x -> (len < lo + n)%nat ->
  item_read tokens (parse_arg tokens (rec n)) print_arg same close_paren lo x.
Proof.
  intros Hx Hlo. destruct x; cbn [arg_part] in Hx; try by apply plain_arg.
  - (* keyword *) destruct Hx as [Hk Hw]. intros current r Hcur Hv Hr. cbn [JinjaParserPrint.print_arg] in Hv |- *. rewrite <- app_assoc in Hv. cbn [app] in Hv.
    destruct (part_starts x1 0 Hk) as (s & l & Es & Hs). split.
    + destruct (part_read n current x1 _ Hk ltac:(lia) Hv) as (k & Hk' & Hks & Hend); [done|]. apply view_S in Hend as Hv2.
      destruct (part_read n (S (current + length (at_level 0 x1))) x2 r Hw) as (w & Hw' & Hws & _); [lia|done|by destruct Hr as [-> | ->]|].
      destruct (mk_stmt_view _ _ _ _ Hend) as [q Hq]. exists (KeywordArgumentExpression q k w). split; [|unfold same; cbn [strip]; by rewrite Hks, Hws].
      unfold parse_arg. rewrite (not_a_star _ _ _ Hk Hv). rewrite Hk'. bind_simpl. cbn [fst snd].
      rewrite is_view, Hend, bool_decide_eq_true_2 by done. rewrite Hw'. bind_simpl. rewrite Hq. bind_simpl.
      do 2 f_equal. rewrite length_app. cbn [length snd]. lia.
    + exists s. rewrite Es. eexists. split; [done|]. by apply starter_closer.
  - (* spread *) intros current r Hcur Hv Hr. cbn [JinjaParserPrint.print_arg] in Hv |- *. cbn [app] in Hv. split; [|by eexists _, _].
    apply view_S in Hv as Hv1. destruct (part_read n (S current) x r Hx) as (x' & Hx' & Hxs & _); [lia|done|by destruct Hr as [-> | ->]|].
    destruct (mk_stmt_view _ _ _ _ Hv) as [q Hq]. exists (SpreadExpression q x'). split; [|unfold same; cbn [strip]; by rewrite Hxs].
    unfold parse_arg. rewrite peek_t, peek_value, Hv, bool_decide_eq_true_2 by (by split). rewrite Hx'. bind_simpl. rewrite Hq. bind_simpl. do 2 f_equal. simpl. lia.
Qed.

Lemma read_args l n current r : Forall arg_part l -> (len < current + S n)%nat ->
  view current = parens (commas (map print_arg l)) ++ r ->
  exists l', parse_args tokens (rec n) current = Ok (l', (current + length (parens (commas (map print_arg l))))%nat) /\ all_same l' l.
Proof.
  intros Hl Hn Hv. unfold parens in Hv. cbn [app] in Hv. rewrite <- app_assoc in Hv. apply view_S in Hv as Hv1.
  destruct (items_turns tokens (args_step tokens (rec n)) (parse_arg tokens (rec n)) print_arg same close_paren (S current)) with
    (xs := l) (vals := @nil statement) (current := S current) (v := str ")") (r := r) as (l' & Hl' & Hr).
  { intros vals c Hc. unfold args_step. by rewrite is_view, bool_decide_eq_false_2. }
  { eapply Forall_impl; [exact Hl|]. intros x Hx. apply arg_item; [done..|lia]. }
  { done. } { done. } { done. }
  apply view_app in Hv1 as Hv2. apply view_lt in Hv2 as Hlt. exists l'. split; [|by apply all_same_Forall2].
  unfold parse_args. rewrite (expect_view _ _ _ _ _ _ Hv). bind_simpl. rewrite (loop_turns tokens _ _ _ _ Hr); [| |by apply Nat.lt_le_incl].
  - bind_simpl. cbn [fst snd]. rewrite (expect_view _ _ _ _ _ _ Hv2). bind_simpl. do 2 f_equal. unfold parens. cbn [length]. rewrite length_app. simpl. lia.
  - unfold args_step. cbn [fst snd]. by rewrite is_view, Hv2.
Qed.

(** ** Indices *)

Definition optional_part (x : option statement) : Prop := match x with Some x => part x | None => True end.

Definition index_part (p : statement) : Prop :=
  match p with
  | BlankExpression _ => True
  | SliceExpression _ a b c => optional_part a /\ optional_part b /\ optional_part c
  | _ => part p
  end.

Lemma slot_turn n o slices b current r : optional_part o -> (len < current + n)%nat ->
  view current = print_optional o ++ colon_s :: r ->
  exists o', turn (slices_step tokens (rec n)) (slices, b, current) (slices ++ [o'], true, S (current + length (print_optional o))) /\
    option_map strip o' = option_map strip o.
Proof.
  intros Ho Hn Hv. destruct o as [x|]; cbn [JinjaParserPrint.print_optional] in *.
  - destruct (part_read n current x _ Ho Hn Hv) as (x' & Hx' & Hxs & Hend); [done|].
    exists (Some x'). split; [|cbn [option_map]; by rewrite Hxs]. split; [|cbn [snd]; lia]. unfold slices_step. cbn [fst snd].
    rewrite !(not_closing x 0 _ _ _ Ho Hv) by done. rewrite Hx'. bind_simpl. cbn [fst snd]. by rewrite is_view, Hend.
  - exists None. cbn [app] in Hv. split; [|done]. split; [|cbn [snd]; lia]. unfold slices_step. cbn [fst snd length]. rewrite !is_view, Hv, Nat.add_0_r. done.
Qed.

Lemma last_turn n x slices b current r : part x -> (len < current + n)%nat ->
  view current = at_level 0 x ++ close_b :: r ->
  exists x', turn (slices_step tokens (rec n)) (slices, b, current) (slices ++ [Some x'], b, (current + length (at_level 0 x))%nat) /\ same x' x.
Proof.
  intros Hx Hn Hv. destruct (part_starts x 0 Hx) as (s & l & Es & Hs). destruct (part_read n current x _ Hx Hn Hv) as (x' & Hx' & Hxs & Hend); [done|].
  exists x'. split; [|done]. split; [|rewrite Es; simpl; lia]. unfold slices_step. cbn [fst snd].
  rewrite !(not_closing x 0 _ _ _ Hx Hv) by done. rewrite Hx'. bind_simpl. cbn [fst snd]. by rewrite is_view, Hend.
Qed.

(** The slices that were read, up to the closing bracket. *)
Lemma index_loop n current slices b end_ r : rtc (turn (slices_step tokens (rec n))) ([], false, current) (slices, b, end_) ->
  view end_ = close_b :: r -> while_ (budget tokens) (slices_step tokens (rec n)) ([], false) current = Ok (slices, b, end_).
Proof.
  intros Hr Hv. apply loop_turns; [done| |]; [unfold slices_step; cbn [fst snd]; by rewrite is_view, Hv|].
  apply view_lt in Hv. cbn [snd]. lia.
Qed.

Lemma read_slice p n current r a b c : optional_part a -> optional_part b -> optional_part c -> (len < current + n)%nat ->
  view current = print_index (SliceExpression p a b c) ++ close_b :: r ->
  exists p', parse_member_expression_arguments tokens (rec n) current = Ok (p', (current + length (print_index (SliceExpression p a b c)))%nat) /\
    same p' (SliceExpression p a b c).
Proof.
  intros Ha Hb Hc Hn Hv. cbn [JinjaParserPrint.print_index] in *. rewrite <- app_assoc in Hv. cbn [app] in Hv. rewrite <- app_assoc in Hv.
  destruct (slot_turn n a [] false current _ Ha Hn Hv) as (a' & Hta & Hsa). apply view_app in Hv as Hv1. apply view_S in Hv1 as Hv2.
  destruct (mk_stmt_lt tokens current) as [q Hq]; [apply view_lt in Hv1; lia|]. set (c1 := S (current + _)) in *.
  enough (exists slices end_, rtc (turn (slices_step tokens (rec n))) ([a'], true, c1) (slices, true, end_) /\
    end_ = (current + length (print_optional a ++ colon_s :: print_optional b ++ match c with Some c => colon_s :: at_level 0 c | None => [] end))%nat /\
    view end_ = close_b :: r /\ slices !! 0%nat = Some a' /\ option_map strip (mjoin (slices !! 1%nat)) = option_map strip b /\
    option_map strip (mjoin (slices !! 2%nat)) = option_map strip c) as (slices & end_ & Hr & Hend & Hve & H0 & H1 & H2).
  { exists (SliceExpression q (mjoin (slices !! 0%nat)) (mjoin (slices !! 1%nat)) (mjoin (slices !! 2%nat))). split.
    - unfold parse_member_expression_arguments. erewrite index_loop; [|by eapply rtc_l|done]. bind_simpl. rewrite Hq. bind_simpl. by rewrite Hend.
    - unfold same. cbn [strip]. rewrite H0, H1, H2. cbn [mjoin option_join]. by rewrite Hsa. }
  rewrite length_app. cbn [length]. rewrite length_app. destruct c as [x|].
  - cbn [app] in Hv2. destruct (slot_turn n b [a'] true c1 _ Hb ltac:(lia) Hv2) as (b' & Htb & Hsb).
    apply view_app in Hv2 as Hv3. apply view_S in Hv3 as Hv4.
    destruct (last_turn n x ([a'] ++ [b']) true (S (c1 + length (print_optional b))) r Hc) as (x' & Htx & Hsx); [lia|done|]. apply view_app in Hv4 as Hv5.
    eexists _, _. split; [eapply rtc_l; [exact Htb|apply rtc_once; exact Htx]|]. split; [unfold c1; cbn [length]; lia|].
    split_and!; [done|done|done|]. cbn. by rewrite Hsx.
  - cbn [app length] in *. destruct b as [x|]; cbn [JinjaParserPrint.print_optional] in *.
    + destruct (last_turn n x [a'] true c1 r Hb ltac:(lia) Hv2) as (x' & Htx & Hsx). apply view_app in Hv2 as Hv3.
      eexists _, _. split; [apply rtc_once; exact Htx|]. split; [unfold c1; lia|]. split_and!; [done|done| |done]. cbn. by rewrite Hsx.
    + exists [a'], c1. split; [done|]. split; [unfold c1; simpl; lia|]. by split_and!.
Qed.

Lemma read_index p n current r : index_part p -> (len < current + n)%nat -> view current = print_index p ++ close_b :: r ->
  exists p', parse_member_expression_arguments tokens (rec n) current = Ok (p', (current + length (print_index p))%nat) /\ same p' p.
Proof.
  intros Hp Hn Hv.
  assert (Hplain : part p -> print_index p = at_level 0 p ->
    exists p', parse_member_expression_arguments tokens (rec n) current = Ok (p', (current + length (print_index p))%nat) /\ same p' p).
  { clear Hp. intros Hp E. rewrite E in *. destruct (last_turn n p [] false current r Hp Hn Hv) as (p' & Ht & Hs). apply view_app in Hv as Hv1.
    exists p'. split; [|done]. unfold parse_member_expression_arguments. erewrite index_loop; [|by apply rtc_once|done]. done. }
  destruct p; cbn [index_part] in Hp; try by apply Hplain.
  - (* blank *) cbn [JinjaParserPrint.print_index app length] in *. destruct (mk_stmt_view _ _ _ _ Hv) as [q Hq]. exists (BlankExpression q). split; [|done].
    unfold parse_member_expression_arguments. erewrite index_loop; [|done|done]. bind_simpl. rewrite Hq. bind_simpl. by rewrite Nat.add_0_r.
  - destruct Hp as (Ha & Hb & Hc). by apply (read_slice _ n current r).
Qed.

(** ** Chains *)

(** One link: a member, or a call.  Beside the expression stands the token at which its loop of
    members started. *)
Inductive link (n : nat) : statement * nat * nat -> statement * nat * nat -> Prop :=
| member_link start_pos object current object' current' :
    turn (member_step stod tokens (rec n) start_pos) (object, current) (object', current') ->
    link n (object, start_pos, current) (object', start_pos, current')
| call_link start_pos callee current args p current' :
    is_ tokens open_paren current = true -> parse_args tokens (rec n) current = Ok (args, current') ->
    mk_stmt tokens current = Ok p -> (current < current')%nat ->
    link n (callee, start_pos, current) (CallExpression p callee args, current', current').

(** What is left to do in the middle of a chain. *)
Definition finish_chain (n members calls start_pos : nat) (object : statement) (current : nat) : R (statement * nat) :=
  member ← while_ members (member_step stod tokens (rec n) start_pos) object current;
  if is_ tokens open_paren member.2 then call_expression stod tokens (rec n) calls member.1 member.2 else Ok member.

Lemma no_member_step n start_pos object current :
  is_ tokens dot current = false -> is_ tokens open_square_bracket current = false ->
  member_step stod tokens (rec n) start_pos object current = Ok None.
Proof. intros H1 H2. unfold member_step. by rewrite H1, H2. Qed.

Lemma open_paren_no_member n start_pos object current : is_ tokens open_paren current = true ->
  member_step stod tokens (rec n) start_pos object current = Ok None.
Proof.
  rewrite is_view. intros H%bool_decide_eq_true. apply no_member_step; rewrite is_view; apply bool_decide_eq_false_2; by rewrite H.
Qed.

Lemma chain_finish n members calls x y :
  rtc (link n) x y -> stop 9 (view y.2) = true -> (y.2 <= len)%nat -> (len < x.2 + members)%nat -> (len < x.2 + calls)%nat ->
  finish_chain n members calls x.1.2 x.1.1 x.2 = Ok (y.1.1, y.2).
Proof.
  intros H. revert members calls. induction H as [x|x z y Hlink Hr IH]; intros members calls Hs Hy Hm Hc.
  - destruct members as [|members]; [lia|]. unfold finish_chain. cbn [while_]. rewrite no_member_step by (apply (stop_is _ 9); [done|intros v; simpl; lia]).
    bind_simpl. cbn [fst snd]. by rewrite (stop_is _ 9) by (done || intros v; simpl; lia).
  - assert (Hle : (z.2 <= y.2)%nat).
    { clear - Hr. induction Hr as [z|z w y Hl _ IH]; [done|]. destruct Hl as [sp o c o' c' [_ ?]|]; simpl in *; lia. }
    destruct Hlink as [sp o c o' c' [Hstep Hlt]|sp o c args p c' Hop Hargs Hp Hlt]; cbn [fst snd] in *.
    + destruct members as [|members]; [lia|]. unfold finish_chain. cbn [while_]. rewrite Hstep. bind_simpl. cbn [fst snd]. apply IH; [done..|lia|lia].
    + destruct members as [|members]; [lia|]. destruct calls as [|calls]; [lia|]. unfold finish_chain. cbn [while_].
      rewrite open_paren_no_member by done. bind_simpl. cbn [fst snd]. rewrite Hop. cbn [call_expression]. rewrite Hargs. bind_simpl.
      rewrite Hp. bind_simpl. apply (IH (budget tokens) calls); [done..|unfold budget; lia|lia].
Qed.

Lemma finish_call n members calls start_pos object current : is_ tokens open_paren current = true ->
  finish_chain n (S members) calls start_pos object current = call_expression stod tokens (rec n) calls object current.
Proof. intros H. unfold finish_chain. cbn [while_]. rewrite open_paren_no_member by done. bind_simpl. cbn [fst snd]. by rewrite H. Qed.

(** What the parser makes of a chain before a symbol that is not a part of it: its first
    expression, and the links. *)
Definition chain_ok (e : statement) : Prop := forall n current r,
  (len < current + S n)%nat -> view current = at_level 9 e ++ r -> stop 10 r = true ->
  exists e0 c0 e' start_pos,
    parse_primary_expression stod tokens (rec n) current = Ok (e0, c0) /\
    rtc (link n) (e0, c0, c0) (e', start_pos, (current + length (at_level 9 e))%nat) /\
    (start_pos <= current + length (at_level 9 e))%nat /\ (current < c0)%nat /\ same e' e /\
    (level e = 9%nat \/ c0 = (current + length (at_level 9 e))%nat) /\
    (called e = true -> is_ tokens open_paren c0 = true) /\ same e0 (root e).

Lemma chain_reads e : proper e = true -> chain_ok e -> reads 9 e.
Proof.
  intros Hp H n current r Hn Hv Hs. destruct (H n current r) as (e0 & c0 & e' & sp & H0 & Hr & _ & _ & Hsame & _); [done..|by apply (stop_mono 9); [lia|]|].
  apply view_app in Hv as Hv'. pose proof (fits _ _ _ _ _ _ Hp Hv) as [Hlt Hle].
  exists e'. split; [|done]. cbn [parse_level]. unfold parse_call_member_expression. rewrite H0. bind_simpl. cbn [fst snd].
  apply (chain_finish n (budget tokens) (budget tokens) _ _ Hr); cbn [fst snd]; [by rewrite Hv'|done|unfold budget; lia..].
Qed.

(** After a pipe or [is]. *)
Lemma called_reads e n current r : proper e = true -> chain_ok e -> reads 10 e ->
  (len < current + S n)%nat -> view current = wrap_filter e (print e) ++ r -> stop 9 r = true ->
  exists e', primary_or_call stod tokens (rec n) current = Ok (e', (current + length (wrap_filter e (print e)))%nat) /\ same e' e.
Proof.
  intros Hp Hc H10 Hn Hv Hs. unfold wrap_filter in *. destruct (called e) eqn:E.
  - assert (Hl : level e = 9%nat) by (destruct e; simpl in E; done). rewrite <- (at_level_le print_float 9) in Hv |- * by lia.
    destruct (Hc n current r) as (e0 & c0 & e' & sp & H0 & Hr & _ & _ & Hsame & _ & Hcall & _); [done..|by apply (stop_mono 9); [lia|]|].
    apply view_app in Hv as Hv'. pose proof (fits _ _ _ _ _ _ Hp Hv) as [Hlt Hle].
    exists e'. split; [|done]. unfold primary_or_call. rewrite H0. bind_simpl. cbn [fst snd]. rewrite Hcall by done.
    unfold parse_call_expression. rewrite <- (finish_call n len _ c0) by auto.
    apply (chain_finish n _ _ _ _ Hr); cbn [fst snd]; [by rewrite Hv'|done|unfold budget; lia..].
  - change (wrap 10 e (print e)) with (at_level 10 e) in *. destruct (H10 n current r) as (e' & He & Hsame); [done..|by apply (stop_mono 9); [lia|]|].
    exists e'. split; [|done]. apply view_app in Hv as Hv'. unfold primary_or_call. cbn [parse_level] in He. rewrite He. bind_simpl. cbn [snd].
    by rewrite (stop_is _ 9) by first [by rewrite Hv' | intros v; simpl; lia].
Qed.

Lemma chain_above e : proper e = true -> level e <> 9%nat -> (level e <= 10)%nat -> reads 10 e -> chain_ok e.
Proof.
  intros Hp Hl Hl' H n current r Hn Hv Hs. rewrite (at_level_same _ 9 10) in * by lia.
  destruct (H n current r) as (e' & He & Hsame); [done..|]. pose proof (fits _ _ _ _ _ _ Hp Hv) as [Hlt Hle].
  eexists e', _, e', _. split_and!; [exact He|by apply rtc_refl|done|done|done|by right|by destruct e|by destruct e].
Qed.

Lemma level_9 (e : statement) : level e = 9%nat ->
  match e with CallExpression _ _ _ | MemberExpression _ _ _ _ => True | _ => False end.
Proof. destruct e; try done. cbn [level]. destruct (op_level op) eqn:E; [|done]. apply op_level_cases in E. simpl. lia. Qed.

(** A link at the end of a chain. *)
Lemma chain_call p c args : proper c = true -> chain_ok c -> Forall arg_part args -> chain_ok (CallExpression p c args).
Proof.
  intros Hp Hc Hargs n current r Hn Hv Hs.
  change (at_level 9 (CallExpression p c args)) with (at_level 9 c ++ parens (commas (map print_arg args))) in *. rewrite <- app_assoc in Hv.
  destruct (Hc n current _ Hn Hv) as (e0 & c0 & e' & sp & H0 & Hr & Hsp & Hlt & Hsame & Hl & Hcall & Hroot); [by apply stop_cons; simpl; lia|].
  apply view_app in Hv as Hv1. destruct (read_args args n (current + length (at_level 9 c)) r) as (args' & Ha & Hsa); [done|lia|done|].
  destruct (mk_stmt_view _ _ _ _ Hv1) as [q Hq]. rewrite length_app, Nat.add_assoc.
  eexists e0, c0, (CallExpression q e' args'), _. split_and!; [done|eapply rtc_r; [exact Hr|]| done|done| |by left| |done].
  - apply call_link; [|done..|unfold parens; simpl; lia]. rewrite is_view, Hv1. done.
  - unfold same. cbn [strip]. by rewrite Hsame, Hsa.
  - intros Hcl. assert (level c <> 9%nat \/ called c = true) as [Hl9|Hcc] by (destruct (decide (level c = 9%nat)) as [H9|]; [right|by left]; apply level_9 in H9; by destruct c).
    + destruct Hl as [?| ->]; [done|]. by rewrite is_view, Hv1.
    + by apply Hcall.
Qed.

Lemma chain_member p o prop (computed : bool) : proper o = true -> chain_ok o ->
  (if computed then index_part prop else proper prop = true /\ reads 10 prop) -> chain_ok (MemberExpression p o prop computed).
Proof.
  intros Hp Ho Hprop n current r Hn Hv Hs. set (tail := if computed then open_b :: print_index prop ++ [close_b] else (dot, str ".") :: at_level 10 prop).
  assert (E : at_level 9 (MemberExpression p o prop computed) = at_level 9 o ++ tail) by (unfold tail; by destruct computed, prop).
  rewrite E in *. rewrite <- app_assoc in Hv.
  destruct (Ho n current _ Hn Hv) as (e0 & c0 & e' & sp & H0 & Hr & Hsp & Hlt & Hsame & Hl & Hcall & Hroot); [by unfold tail; destruct computed; apply stop_cons; simpl; lia|].
  apply view_app in Hv as Hv1. rewrite length_app, Nat.add_assoc. set (c1 := (current + length (at_level 9 o))%nat) in *.
  assert (Hlt1 : (c1 < len)%nat) by (unfold tail in Hv1; destruct computed; by apply view_lt in Hv1).
  destruct (mk_stmt_lt tokens sp) as [q Hq]; [lia|].
  assert (Hstep : exists prop', turn (member_step stod tokens (rec n) sp) (e', c1) (MemberExpression q e' prop' computed, (c1 + length tail)%nat) /\ same prop' prop).
  { unfold tail in *. destruct computed; cbn [app] in Hv1.
    - rewrite <- app_assoc in Hv1. apply view_S in Hv1 as Hv2. destruct (read_index prop n (S c1) r) as (prop' & Hi & Hsi); [done|lia|done|].
      apply view_app in Hv2 as Hv3. exists prop'. split; [|done]. split; [|simpl; lia]. unfold member_step. cbn [fst snd].
      assert (is_ tokens dot c1 || is_ tokens open_square_bracket c1 = true) as -> by (rewrite !is_view, Hv1; done).
      destruct (next_symbol _ _ _ _ Hv1) as (k & Hk & [= Hkt _]). rewrite Hk. bind_simpl. cbn [fst snd]. rewrite Hkt. cbv zeta. rewrite bool_decide_eq_true_2 by done.
      rewrite Hi. bind_simpl. cbn [fst snd]. rewrite (expect_view _ _ _ _ _ _ Hv3). bind_simpl. rewrite Hq. bind_simpl. do 3 f_equal. cbn [length snd]. rewrite length_app. simpl. lia.
    - apply view_S in Hv1 as Hv2. destruct Hprop as [Hpp H10]. destruct (H10 n (S c1) r) as (prop' & Hi & Hsi); [lia|done..|].
      exists prop'. split; [|done]. split; [|simpl; lia]. unfold member_step. cbn [fst snd].
      assert (is_ tokens dot c1 || is_ tokens open_square_bracket c1 = true) as -> by (rewrite !is_view, Hv1; done).
      destruct (next_symbol _ _ _ _ Hv1) as (k & Hk & [= Hkt _]). rewrite Hk. bind_simpl. cbn [fst snd]. rewrite Hkt. cbv zeta. rewrite bool_decide_eq_false_2 by done.
      cbn [parse_level] in Hi. rewrite Hi. bind_simpl. rewrite Hq. bind_simpl. do 3 f_equal. simpl. lia. }
  destruct Hstep as (prop' & Hstep & Hsp').
  eexists e0, c0, (MemberExpression q e' prop' computed), sp. split_and!; [done|eapply rtc_r; [exact Hr|by apply member_link]|lia|done| |by left|done|done].
  unfold same. cbn [strip]. by rewrite Hsame, Hsp'.
Qed.

End Chain.
End JinjaParserChain.
