(* ===== verification/JinjaParserExpr.v ===== *)
(** The parser reads back every expression, and with the lexer the text of a template that is one
    expression. *)

From Stdlib Require Import Ascii.
From S2P Require Import Prelude.
From S2P Require Import JinjaLexer.
From S2P Require Import JinjaLexerPrint.
From S2P Require Import JinjaParser.
From S2P Require Import JinjaParserPrint.
From S2P Require Import JinjaParserRead.
From S2P Require Import JinjaParserLevel.
From S2P Require Import JinjaParserPrimary.
From S2P Require Import JinjaParserChain.

Module JinjaParserExpr.
Import JinjaLexer.
Import JinjaLexerPrint.
Import JinjaParser.
Import JinjaParserPrint.
Import JinjaParserRead.
Import JinjaParserLevel.
Import JinjaParserPrimary.
Import JinjaParserChain.

(** ** Operators *)

Lemma op_stop op m r : op_level op = Some m -> stop (S m) (op_symbols op ++ r) = true.
Proof.
  unfold op_level, op_symbols. intros H. destruct (bool_decide_reflect (t op = identifier /\ value op = str "not in")) as [[E1 E2]|E].
  - rewrite E1, E2 in H. injection H as <-. apply stop_cons. simpl. lia.
  - cbn [app]. apply stop_cons. destruct (t op); try done; [|injection H as <-; simpl; lia..].
    repeat case_bool_decide; simplify_eq; repeat match goal with H : _ \/ _ |- _ => destruct H end;
      match goal with H : value op = _ |- _ => rewrite H end; simpl; lia.
Qed.

Lemma strip_token_sym k s : sym k = s -> strip_token k = Token s.1 s.2 0.
Proof. by intros <-. Qed.

Lemma op_at_symbols tokens op m current r : op_level op = Some m -> view tokens current = op_symbols op ++ r ->
  exists k, op_at tokens m current = Some (k, (current + length (op_symbols op))%nat) /\ strip_token k = strip_token op.
Proof.
  unfold op_level, op_symbols. intros H Hv. destruct (bool_decide_reflect (t op = identifier /\ value op = str "not in")) as [[E1 E2]|E].
  - rewrite E1, E2 in H. injection H as <-. cbn [app] in Hv. apply view_S in Hv as Hv1. cbn [op_at]. unfold comparison_op.
    rewrite !is_identifier_view, Hv, Hv1, Nat.add_comm. eexists. split; [reflexivity|]. unfold strip_token. cbn. by rewrite E1, E2.
  - cbn [app length] in Hv |- *. rewrite Nat.add_1_r.
    assert (Hk : strip_token (peek tokens current 0) = strip_token op) by (rewrite (strip_token_sym _ (t op, value op)); [done|by rewrite peek_sym, Hv]).
    exists (peek tokens current 0). split; [|done]. destruct (t op) eqn:Et; try done.
    + repeat case_bool_decide; simplify_eq; cbn [op_at]; unfold comparison_op, identifier_op; rewrite !is_identifier_view, Hv;
        repeat match goal with H : _ \/ _ |- _ => destruct H end; try (by match goal with H : value op = _ |- _ => rewrite H end).
      exfalso. by apply E.
    + injection H as <-. cbn [op_at]. unfold type_op. by rewrite is_view, Hv.
    + injection H as <-. cbn [op_at]. unfold type_op. by rewrite is_view, Hv.
    + injection H as <-. cbn [op_at]. unfold comparison_op, type_op. by rewrite !is_identifier_view, is_view, Hv.
Qed.

Section Expr.
Context {float : Type} (print_float : float -> bytes) (stod : bytes -> option float) (tokens : list token).
Abbreviation statement := (statement float).
Abbreviation len := (length tokens).
Abbreviation view := (view tokens).
Abbreviation print := (print print_float).
Abbreviation at_level := (at_level print_float).
Abbreviation rec := (parse_expression_at stod tokens).
Abbreviation reads := (reads print_float stod tokens).
Abbreviation prefix := (prefix print_float stod tokens).
Abbreviation chain_ok := (chain_ok print_float stod tokens).
Abbreviation part := (part print_float stod tokens).

(** ** Loops *)

(** A loop that has read an operand makes one more turn. *)
Lemma prefix_turn m x e mid n current r :
  prefix m x -> at_level m e = at_level m x ++ mid -> (len < current + S n)%nat -> view current = at_level m e ++ r ->
  stop (S m) (mid ++ r) = true ->
  (forall x' c, same x' x -> (current <= c)%nat -> view c = mid ++ r ->
    exists e', turn (level_step stod tokens m (rec n)) (x', c) (e', (c + length mid)%nat) /\ same e' e) ->
  exists y e', parse_level stod tokens (S m) (rec n) current = Ok y /\
    rtc (turn (level_step stod tokens m (rec n))) y (e', (current + length (at_level m e))%nat) /\ same e' e.
Proof.
  intros Hx E Hn Hv Hs Ht. rewrite E in *. rewrite <- app_assoc in Hv. destruct (Hx n current _ Hn Hv Hs) as (y & x' & Hy & Hr & Hsame).
  apply view_app in Hv as Hv1. destruct (Ht x' (current + length (at_level m x))%nat Hsame (Nat.le_add_r _ _) Hv1) as (e' & Hturn & He). exists y, e'. split_and!; [done| |done].
  rewrite length_app, Nat.add_assoc. by eapply rtc_r.
Qed.

Lemma prefix_binary p op l r m : op_level op = Some m -> prefix m l -> proper r = true -> reads (S m) r -> prefix m (BinaryExpression p op l r).
Proof.
  intros Hop Hl Hp Hr n current rest Hn Hv Hs. pose proof (op_level_cases _ _ Hop) as Hm.
  eapply (prefix_turn m l _ (op_symbols op ++ at_level (S m) r)); [done| |done|done|by rewrite <- app_assoc; apply op_stop|].
  - rewrite at_level_le by (cbn [level]; rewrite Hop; done). cbn [JinjaParserPrint.print level]. by rewrite Hop.
  - intros l' c Hl' Hc Hvc. rewrite <- app_assoc in Hvc. destruct (op_at_symbols _ _ _ _ _ Hop Hvc) as (k & Hk & Hks).
    apply view_app in Hvc as Hv2. destruct (Hr n (c + length (op_symbols op))%nat rest) as (r' & Hr' & Hrs); [lia|done..|].
    assert (exists q, mk_stmt tokens c = Ok q) as [q Hq] by (unfold op_symbols in Hvc; case_bool_decide; cbn [app] in Hvc; by eapply mk_stmt_view).
    exists (BinaryExpression q k l' r'). split; [|unfold same; cbn [strip]; by rewrite Hks, Hl', Hrs].
    pose proof (fits _ _ _ _ _ _ Hp Hv2) as [Hlt _]. split; [|cbn [snd]; rewrite length_app; lia]. cbn [fst snd].
    assert (level_step stod tokens m (rec n) = binary_step tokens (op_at tokens m) (parse_level stod tokens (S m) (rec n))) as ->
      by (decompose [or] Hm; by subst m).
    unfold binary_step. rewrite Hk. cbn [fst snd]. rewrite Hr'. bind_simpl. rewrite Hq. bind_simpl. do 3 f_equal. rewrite length_app. cbn [snd]. lia.
Qed.

Lemma filter_starts f : proper f = true -> exists s r, wrap_filter f (print f) = s :: r /\ s <> word (str "not").
Proof.
  intros Hp. unfold wrap_filter. destruct (called f) eqn:E.
  - assert (Hl : level f = 9%nat) by (by destruct f). rewrite <- (at_level_le print_float 9) by lia.
    destruct (starter_at print_float f 9 Hp) as (s & r & ? & _ & Hn). exists s, r. split; [done|apply Hn; lia].
  - destruct (starter_at print_float f 10 Hp) as (s & r & ? & _ & Hn). exists s, r. split; [done|apply Hn; lia].
Qed.

Lemma prefix_filter p o f : prefix 8 o -> proper f = true -> chain_ok f -> reads 10 f -> prefix 8 (FilterExpression p o f).
Proof.
  intros Ho Hp Hc Hf n current rest Hn Hv Hs.
  eapply (prefix_turn 8 o _ ((pipe, str "|") :: wrap_filter f (print f))); [done|done|done|done|by apply stop_cons; simpl; lia|].
  intros o' c Ho' Hle Hvc. cbn [app] in Hvc. apply view_S in Hvc as Hv1.
  destruct (called_reads print_float stod tokens f n (S c) rest) as (f' & Hf' & Hfs); [done..|lia|done|done|].
  destruct (mk_stmt_view _ _ _ _ Hvc) as [q Hq]. exists (FilterExpression q o' f').
  split; [|unfold same; cbn [strip]; by rewrite Ho', Hfs]. split; [|simpl; lia]. cbn [level_step fst snd]. unfold filter_step.
  rewrite is_view, Hvc, bool_decide_eq_true_2 by done. rewrite Hf'. bind_simpl. rewrite Hq. bind_simpl. do 3 f_equal. simpl. lia.
Qed.

Lemma prefix_test p o negate f : prefix 7 o -> proper f = true -> chain_ok f -> reads 10 f -> prefix 7 (TestExpression p o negate f).
Proof.
  intros Ho Hp Hc Hf n current rest Hn Hv Hs. set (neg := if negate : bool then [word (str "not")] else []).
  eapply (prefix_turn 7 o _ (word (str "is") :: neg ++ wrap_filter f (print f))); [done|done|done|done|by apply stop_cons; simpl; lia|].
  intros o' c Ho' Hle Hvc. cbn [app] in Hvc. rewrite <- app_assoc in Hvc. apply view_S in Hvc as Hv1. apply view_app in Hv1 as Hv2.
  destruct (called_reads print_float stod tokens f n (S c + length neg) rest) as (f' & Hf' & Hfs); [done..|lia|done|by apply (stop_mono 8); [lia|]|].
  destruct (mk_stmt_view _ _ _ _ Hvc) as [q Hq]. exists (TestExpression q o' negate f').
  split; [|unfold same; cbn [strip]; by rewrite Ho', Hfs]. split; [|simpl; lia]. cbn [level_step fst snd]. unfold test_step.
  rewrite is_identifier_view, Hvc, bool_decide_eq_true_2 by done.
  assert (is_identifier tokens (str "not") (S c) = negate) as ->.
  { rewrite is_identifier_view, Hv1. unfold neg. destruct negate; [done|]. destruct (filter_starts f Hp) as (s & r & -> & Hne).
    by apply bool_decide_eq_false_2. }
  assert ((if negate then S (S c) else S c) = S c + length neg)%nat as -> by (unfold neg; destruct negate; simpl; lia).
  rewrite Hf'. bind_simpl. rewrite Hq. bind_simpl. do 3 f_equal. cbn [snd length]. rewrite length_app. lia.
Qed.

(** ** Negation and conditions *)

Lemma negation_fuel r f f' current : (len < current + f)%nat -> (len < current + f')%nat -> (0 < f)%nat -> (0 < f')%nat ->
  negation_expression stod tokens r f current = negation_expression stod tokens r f' current.
Proof.
  revert f' current. induction f as [|f IH]; intros [|f'] current H H' H0 H0'; try lia. cbn [negation_expression].
  destruct (is_identifier tokens (str "not") current) eqn:E; [|done]. unfold next. destruct (tokens !! current) as [k|] eqn:Ek; [|done].
  bind_simpl. cbn [fst snd]. apply lookup_lt_Some in Ek. by rewrite (IH f') by lia.
Qed.

Lemma reads_unary p op x : t op = identifier -> value op = str "not" -> proper x = true -> reads 3 x -> reads 3 (UnaryExpression p op x).
Proof.
  intros Ht Hval Hp Hx n current r Hn Hv Hs. change (at_level 3 (UnaryExpression p op x)) with ((t op, value op) :: at_level 3 x) in *.
  cbn [app] in Hv. rewrite Ht, Hval in *. apply view_S in Hv as Hv1. destruct (Hx n (S current) r ltac:(lia) Hv1 Hs) as (x' & Hx' & Hxs).
  pose proof (fits _ _ _ _ _ _ Hp Hv1) as [Hlt Hle].
  destruct (next_symbol _ _ _ _ Hv) as (k & Hk & [= Hkt Hkv]). destruct (mk_stmt_view _ _ _ _ Hv) as [q Hq].
  exists (UnaryExpression q k x'). split; [|unfold same, strip_token; cbn [strip]; unfold strip_token; by rewrite Hkt, Hkv, Ht, Hval, Hxs].
  cbn [parse_level] in *. unfold parse_logical_negation_expression, budget. cbn [negation_expression].
  rewrite is_identifier_view, Hv, bool_decide_eq_true_2 by done. rewrite Hk. bind_simpl. cbn [fst snd].
  rewrite (negation_fuel _ len (budget tokens)) by (unfold budget; lia). unfold parse_logical_negation_expression in Hx'. rewrite Hx'. bind_simpl.
  rewrite Hq. bind_simpl. do 2 f_equal. simpl. lia.
Qed.

Lemma reads_select p x c : proper c = true -> reads 1 x -> reads 1 c -> reads 0 (SelectExpression p x c).
Proof.
  intros Hp Hx Hc n current r Hn Hv Hs.
  change (at_level 0 (SelectExpression p x c)) with (at_level 1 x ++ word (str "if") :: at_level 1 c) in *. rewrite <- app_assoc in Hv. cbn [app] in Hv.
  destruct (Hx n current _ Hn Hv) as (x' & Hx' & Hxs); [by apply stop_cons; simpl; lia|]. apply view_app in Hv as Hv1. apply view_S in Hv1 as Hv2.
  destruct (Hc n (S (current + length (at_level 1 x))) r) as (c' & Hc' & Hcs); [lia|done|by apply (stop_mono 0); [lia|]|]. apply view_app in Hv2 as Hv3.
  destruct (mk_stmt_view _ _ _ _ Hv1) as [q Hq]. exists (SelectExpression q x' c'). split; [|unfold same; cbn [strip]; by rewrite Hxs, Hcs].
  cbn [parse_level] in *. unfold parse_if_expression. rewrite Hx'. bind_simpl. cbn [fst snd]. rewrite (is_identifier_view _ (str "if")), Hv1, bool_decide_eq_true_2 by done.
  rewrite Hc'. bind_simpl. cbn [fst snd]. rewrite (stop_identifier _ 0) by first [by rewrite Hv3 | simpl; lia]. rewrite Hq. bind_simpl.
  do 2 f_equal. rewrite length_app. simpl. lia.
Qed.

Lemma reads_ternary p c x y : reads 1 x -> reads 1 c -> proper y = true -> reads 0 y -> reads 0 (TernaryExpression p c x y).
Proof.
  intros Hx Hc Hp Hy n current r Hn Hv Hs.
  change (at_level 0 (TernaryExpression p c x y)) with (at_level 1 x ++ word (str "if") :: at_level 1 c ++ word (str "else") :: at_level 0 y) in *.
  rewrite <- app_assoc in Hv. cbn [app] in Hv. rewrite <- app_assoc in Hv. cbn [app] in Hv.
  destruct (Hx n current _ Hn Hv) as (x' & Hx' & Hxs); [by apply stop_cons; simpl; lia|]. apply view_app in Hv as Hv1. apply view_S in Hv1 as Hv2.
  destruct (Hc n (S (current + length (at_level 1 x))) (word (str "else") :: at_level 0 y ++ r)) as (c' & Hc' & Hcs); [lia|done|by apply stop_cons; simpl; lia|].
  apply view_app in Hv2 as Hv3. apply view_S in Hv3 as Hv4.
  destruct (rec_reads _ _ _ y Hp Hy n (S (S (current + length (at_level 1 x)) + length (at_level 1 c))) r) as (y' & Hy' & Hys); [lia|done|done|].
  destruct (mk_stmt_view _ _ _ _ Hv3) as [q Hq]. exists (TernaryExpression q c' x' y'). split; [|unfold same; cbn [strip]; by rewrite Hxs, Hcs, Hys].
  cbn [parse_level] in *. unfold parse_if_expression. rewrite Hx'. bind_simpl. cbn [fst snd]. rewrite (is_identifier_view _ (str "if")), Hv1, bool_decide_eq_true_2 by done.
  rewrite Hc'. bind_simpl. cbn [fst snd]. rewrite is_identifier_view, Hv3, bool_decide_eq_true_2 by done. rewrite Hy'. bind_simpl. rewrite Hq. bind_simpl.
  do 2 f_equal. rewrite length_app. cbn [length snd]. rewrite length_app. simpl. lia.
Qed.

(** ** All expressions *)

Definition full (e : statement) : Prop :=
  proper e = true /\ (forall L, (L <= 10)%nat -> reads L e) /\ (forall m, loopy m = true -> prefix m e) /\ chain_ok e.

(** It is enough to read an expression at its own level, in the form its level has. *)
Lemma full_level e : proper e = true -> (level e <= 10)%nat ->
  (if loopy (level e) then prefix (level e) e else if (level e =? 9)%nat then chain_ok e else reads (level e) e) -> full e.
Proof.
  intros Hp Hl H.
  assert (Hr : forall L, (L <= 10)%nat -> reads L e).
  { intros L HL. apply reads_from_level; [done|done| |done]. destruct (loopy (level e)) eqn:E; [by apply reads_loop|].
    destruct (Nat.eqb_spec (level e) 9) as [E9|]; [|done]. rewrite E9. by apply chain_reads. }
  split_and!; [done..| |].
  - intros m Hm. assert (m < 10)%nat by (apply loopy_cases in Hm; lia). destruct (decide (m = level e)) as [->|Hne]; [by rewrite Hm in H|].
    apply prefix_above; [done|lia|]. apply Hr. lia.
  - destruct (decide (level e = 9%nat)) as [E9|Hne]; [by rewrite E9 in H|]. apply chain_above; [done..|]. by apply Hr.
Qed.

Lemma full_part e : full e -> part e.
Proof. intros (Hp & Hr & _). split; [done|]. apply rec_reads; [done|]. apply Hr. lia. Qed.

Lemma full_atom e : proper e = true -> level e = 10%nat -> reads 10 e -> full e.
Proof. intros Hp Hl H. apply full_level; rewrite ?Hl; [done|lia|exact H]. Qed.

Section All.
Hypothesis float_dot : forall f, ch "." ∈ print_float f.
Hypothesis float_stod : forall f, stod (print_float f) = Some f.

Section Smaller.
Context (e : statement) (IH : forall x, (size x < size e)%nat -> proper x = true -> full x).

Lemma parts l : forallb proper l = true -> (list_sum (map size l) < size e)%nat -> Forall part l.
Proof.
  intros Hp Hs. apply Forall_forall. intros x Hx. apply full_part, IH.
  - pose proof (size_elem x l Hx). lia.
  - rewrite forallb_forall in Hp. apply Hp. by apply list_elem_of_In.
Qed.

Lemma pairs_parts l : forallb (fun p => proper p.1 && proper p.2) l = true ->
  (list_sum (map (fun p => size p.1 + size p.2)%nat l) < size e)%nat -> Forall (fun x => part x.1 /\ part x.2) l.
Proof.
  intros Hp Hs. apply Forall_forall. intros x Hx. pose proof (size_pair x l Hx). rewrite forallb_forall in Hp. apply list_elem_of_In in Hx.
  apply Hp in Hx. bool_prop. split; apply full_part, IH; [lia|done|lia|done].
Qed.

Lemma arg_parts l : forallb proper_arg l = true -> (list_sum (map size l) < size e)%nat -> Forall (arg_part print_float stod tokens) l.
Proof.
  intros Hp Hs. apply Forall_forall. intros x Hx. pose proof (size_elem x l Hx). rewrite forallb_forall in Hp. apply list_elem_of_In in Hx.
  apply Hp in Hx. destruct x; try (by apply full_part, IH; [lia|exact Hx]); cbn [proper_arg arg_part size] in *; bool_prop.
  - split; (apply full_part, IH; [lia|done]).
  - apply full_part, IH; [lia|done].
Qed.

Lemma index_parts p : proper_index p = true -> (size p < size e)%nat -> index_part print_float stod tokens p.
Proof.
  intros Hp Hs. destruct p; cbn [proper_index index_part] in *; try done; try by apply full_part, IH.
  bool_prop. cbn [size] in Hs. split_and!; match goal with |- optional_part _ _ _ ?x => destruct x end; cbn in *; try done; apply full_part, IH; (lia || done).
Qed.
End Smaller.

Lemma full_proper e : proper e = true -> full e.
Proof.
  remember (size e) as k eqn:Ek. revert e Ek. induction (lt_wf k) as [k _ IHk]; intros e -> Hp.
  assert (IH : forall x, (size x < size e)%nat -> proper x = true -> full x) by (intros x Hx; by apply (IHk _ Hx x)). clear IHk.
  assert (Hsub : forall x, (size x < size e)%nat -> proper x = true ->
    (forall L, (L <= 10)%nat -> reads L x) /\ (forall m, loopy m = true -> prefix m x) /\ chain_ok x) by (intros x Hx Hpx; by apply (IH x Hx Hpx)).
  pose proof Hp as Hp'. destruct e as [| | | | | | | | | | | | | | | | | | | |pos0 op e1 e2| | | | | | | |]; try done; cbn [proper] in Hp'; bool_prop.
  - (* member *) apply full_level; [done|simpl; lia|]. cbn [level]. change (loopy 9) with false. cbn [Nat.eqb].
    apply chain_member; [done|apply Hsub; [simpl; lia|done]|]. destruct computed.
    + apply (index_parts _ IH); [|simpl; lia]. by destruct e2.
    + split; [done|]. apply Hsub; [simpl; lia|done|lia].
  - (* call *) apply full_level; [done|simpl; lia|]. cbn [level]. change (loopy 9) with false. cbn [Nat.eqb].
    apply chain_call; [done|apply Hsub; [simpl; lia|done]|]. apply (arg_parts _ IH); [|simpl; lia].
    match goal with H : forallb _ args = true |- _ => by rewrite <- H end.
  - apply full_atom; [done..|]. by apply reads_identifier.
  - apply full_atom; [done..|]. apply reads_integer. lia.
  - apply full_atom; [done..|]. by apply reads_float.
  - apply full_atom; [done..|]. by apply reads_string.
  - apply full_atom; [done..|]. apply reads_array. apply (parts _ IH); [done|simpl; lia].
  - apply full_atom; [done..|]. apply reads_tuple; [by apply Nat.leb_le|]. apply (parts _ IH); [done|simpl; lia].
  - apply full_atom; [done..|]. apply reads_object. apply (pairs_parts _ IH); [done|simpl; lia].
  - (* binary *) destruct (op_level op) as [m|] eqn:Hop; [|done]. bool_prop. pose proof (op_level_cases _ _ Hop) as Hm.
    assert (Elm : loopy m = true) by (decompose [or] Hm; subst m; reflexivity).
    assert (El : level (BinaryExpression pos0 op e1 e2) = m) by (cbn [level]; by rewrite Hop).
    apply full_level; [done|rewrite El; lia|]. rewrite El, Elm. apply prefix_binary; [done| |done|].
    + apply Hsub; [simpl; lia|done..].
    + apply Hsub; [simpl; lia|done|lia].
  - (* unary *) match goal with H : _ /\ _ |- _ => destruct H end. apply full_level; [done|simpl; lia|].
    apply reads_unary; [done..|]. apply Hsub; [simpl; lia|done|lia].
  - (* filter *) apply full_level; [done|simpl; lia|]. apply prefix_filter; [|done|..]; apply Hsub; (done || simpl; lia).
  - (* select *) apply full_level; [done|simpl; lia|]. apply reads_select; [done|..]; apply Hsub; (done || simpl; lia).
  - (* test *) apply full_level; [done|simpl; lia|]. apply prefix_test; [|done|..]; apply Hsub; (done || simpl; lia).
  - (* ternary *) apply full_level; [done|simpl; lia|]. apply reads_ternary; [..|done|]; try (apply Hsub; (done || simpl; lia)).
Qed.

End All.

End Expr.

(** ** Theorems *)

Section Roundtrip.
Context {float : Type} (print_float : float -> bytes) (stod : bytes -> option float).
Hypothesis float_dot : forall f, ch "." ∈ print_float f.
Hypothesis float_stod : forall f, stod (print_float f) = Some f.

(** An expression is read back: where its symbols stand among the tokens, with no more
    parentheses than the levels of its operators, filters and tests need, and before a symbol that
    cannot continue it, [parse_expression] takes exactly these symbols and returns the same
    expression but for the positions. *)
Theorem expression_roundtrip tokens current e r :
  proper e = true -> view tokens current = at_level print_float 0 e ++ r -> stop 0 r = true ->
  exists e', parse_expression stod tokens current = Ok (e', (current + length (at_level print_float 0 e))%nat) /\ same e' e.
Proof.
  intros Hp Hv Hs. destruct (full_proper print_float stod tokens float_dot float_stod e Hp) as (_ & Hr & _).
  apply (Hr 0%nat ltac:(lia) (budget tokens) current r); [unfold budget; lia|done..].
Qed.

(** C27: From the text to the tree: a template that is one expression, written with a space
    before each symbol, is cut by the lexer and read by the parser into this expression and nothing
    else, if its symbols can be written, its signs stand where the lexer takes them
    for what they are, and its nodes pass the assertions of their constructors; the nodes
    that are read pass them, too. Operators of one level group to the left: this holds
    for [in] and the comparisons, against a comment in the source
    ([comparisons_group_to_the_left]). *)
Theorem template_roundtrip e :
  let ks := at_level print_float 0 e in
  proper e = true -> checked e = true -> Forall printable ks -> sequence open_expression ks = true -> curly_balance ks = 0 ->
  exists lexed e', tokenize (print_expression ks) = Ok lexed /\ parse_from_tokens stod lexed = Ok [e'] /\ same e' e /\
    checked e' = true.
Proof.
  intros ks Hp Hchk Hks Hseq Hbal. destruct (lexer_roundtrip ks Hks Hseq Hbal) as (toks & Htok & Hsym).
  assert (Hv : view toks 0 = (open_expression, str "{{") :: ks ++ [(close_expression, str "}}")]) by exact Hsym.
  apply view_S in Hv as Hv1. destruct (expression_roundtrip toks 1 e _ Hp Hv1) as (e' & He & Hsame); [by apply stop_cons|].
  apply view_app in Hv1 as Hv2. exists (toks, print_expression ks), e'.
  split_and!; [done| |done|by rewrite (checked_same _ _ Hsame)].
  assert (Hlen : length toks = S (1 + length ks)).
  { apply (f_equal length) in Hsym. rewrite length_fmap in Hsym. simpl in Hsym. rewrite length_app in Hsym. simpl in Hsym. lia. }
  unfold parse_from_tokens, parse. cbn [fst]. erewrite (loop_turns toks _ _ _ ([e'], S (1 + length ks))).
  - done.
  - apply rtc_once. split; [|cbn [snd]; lia]. unfold parse_step. cbn [fst snd]. rewrite (proj2 (Nat.ltb_lt _ _)) by lia.
    unfold parse_any. cbn [parse_any_at]. unfold parse_any_step. rewrite peek_t, Hv. cbn [hd head default fst].
    unfold parse_jinja_expression. rewrite (expect_view _ _ _ _ _ _ Hv). bind_simpl. rewrite He. bind_simpl. cbn [fst snd].
    rewrite (expect_view _ _ _ _ _ _ Hv2). done.
  - unfold parse_step. cbn [fst snd]. rewrite (proj2 (Nat.ltb_ge _ _)) by lia. done.
  - cbn [snd]. lia.
Qed.
End Roundtrip.

(** [printable], decided. *)
Definition writable (k : symbol) : bool :=
  let digits := leading_digits k.2 in
  match k.1 with
  | string_literal => true
  | identifier => match k.2 with c :: w => is_word c && negb (is_integer c) && forallb is_word w | [] => false end
  | numeric_literal =>
      negb (bool_decide (digits = [])) &&
      match drop (length digits) k.2 with
      | [] => true
      | c :: f => (c =? ch ".") && negb (bool_decide (f = [])) && forallb is_integer f
      end
  | unary_operator => bool_decide (k.2 ∈ [[ch "-"]; [ch "+"]])
  | ty => negb (block_delimiter ty) && bool_decide ((k.2, ty) ∈ ordered_mapping_table)
  end.

Lemma leading_digits_prefix s : s = leading_digits s ++ drop (length (leading_digits s)) s /\ Forall (fun c => is_integer c = true) (leading_digits s).
Proof.
  induction s as [|c s [IH1 IH2]]; [by split|]. cbn [leading_digits]. destruct (is_integer c) eqn:E; [|by split].
  cbn [length drop app]. rewrite <- IH1. split; [done|by constructor].
Qed.

Lemma forallb_prop {A} (p : A -> bool) l : forallb p l = true -> Forall (fun x => p x = true) l.
Proof. intros H. apply Forall_forall. intros x Hx%list_elem_of_In. rewrite forallb_forall in H. by apply H. Qed.

Lemma writable_printable k : writable k = true -> printable k.
Proof.
  destruct k as [ty v]. unfold writable. cbn [fst snd]. destruct ty; intros H;
    try (by bool_prop; apply print_operator); try discriminate H.
  - destruct (leading_digits_prefix v) as [Ev Hd]. rewrite Ev. bool_prop. destruct (drop _ v) as [|c f].
    + rewrite app_nil_r. by apply print_integer.
    + bool_prop. match goal with E : (c =? _) = true |- _ => apply Z.eqb_eq in E; rewrite E end. apply print_decimal; [done..|by apply forallb_prop].
  - apply print_string.
  - destruct v as [|c w]; [done|]. bool_prop. apply print_word; [done..|by apply forallb_prop].
  - apply bool_decide_eq_true in H. apply elem_of_cons in H as [->|H%list_elem_of_singleton]; [apply print_sign; by left|subst; apply print_sign; by right].
Qed.

(** [x.f(1, k = 'a')[0:] | join(y[1]) if not (a or 0.5) in (b, c) and d is not none else [{'k': 2 * (i + 1)}]] *)
Definition sample : statement unit :=
  let op ty s := Token ty (str s) 0 in
  let id s := Identifier 0 (str s) in
  TernaryExpression 0
    (BinaryExpression 0 (op identifier "and")
      (UnaryExpression 0 (op identifier "not")
        (BinaryExpression 0 (op identifier "in") (BinaryExpression 0 (op identifier "or") (id "a") (FloatLiteral 0 tt))
          (TupleLiteral 0 [id "b"; id "c"])))
      (TestExpression 0 (id "d") true (id "none")))
    (FilterExpression 0
      (MemberExpression 0
        (CallExpression 0 (MemberExpression 0 (id "x") (id "f") false)
          [IntegerLiteral 0 1; KeywordArgumentExpression 0 (id "k") (StringLiteral 0 (str "a"))])
        (SliceExpression 0 (Some (IntegerLiteral 0 0)) None None) true)
      (CallExpression 0 (id "join") [MemberExpression 0 (id "y") (IntegerLiteral 0 1) true]))
    (ArrayLiteral 0 [ObjectLiteral 0 [(StringLiteral 0 (str "k"),
      BinaryExpression 0 (op multiplicative_binary_operator "*") (IntegerLiteral 0 2)
        (BinaryExpression 0 (op additive_binary_operator "+") (id "i") (IntegerLiteral 0 1)))]]).

Definition half (_ : unit) : bytes := str "0.5".

Lemma expression_roundtrip_witness :
  let ks := at_level half 0 sample in
  let tokens := (fun k => Token k.1 k.2 0) <$> ks ++ [close_p] in
  exists e', parse_expression (fun _ => Some tt) tokens 0 = Ok (e', length ks) /\ same e' sample.
Proof.
  apply (expression_roundtrip half (fun _ => Some tt)) with (current := 0%nat) (r := [close_p]).
  - intros []. vm_compute. set_solver.
  - by intros [].
  - vm_compute. reflexivity.
  - vm_compute. reflexivity.
  - vm_compute. reflexivity.
Defined.

Lemma template_roundtrip_witness :
  exists lexed e', tokenize (print_expression (at_level half 0 sample)) = Ok lexed /\
    parse_from_tokens (fun _ => Some tt) lexed = Ok [e'] /\ same e' sample /\ checked e' = true.
Proof.
  apply (template_roundtrip half (fun _ => Some tt)).
  - intros []. vm_compute. set_solver.
  - by intros [].
  - vm_compute. reflexivity.
  - vm_compute. reflexivity.
  - apply (Forall_impl (fun k => writable k = true)); [|apply writable_printable]. apply forallb_prop. vm_compute. reflexivity.
  - vm_compute. reflexivity.
  - vm_compute. reflexivity.
Defined.

(** ** What the parser makes of some templates *)

(** The lexer and the parser on a text; all decimal numbers are one. *)
Definition template (s : string) : option (R (list (statement unit))) :=
  match tokenize (str s) with Ok lexed => Some (parse_from_tokens (fun _ => Some tt) lexed) | Error _ => None end.

(** A sign after a word is taken for a binary operator, also after [or] and [not] and before a number. *)
Example negative_number_after_a_keyword :
  template "{{ a or -1 }}" = Some (Error (UnexpectedToken (str "-") additive_binary_operator)) /\
  template "{{ not -1 }}" = Some (Error (UnexpectedToken (str "-") additive_binary_operator)).
Proof. split; vm_compute; reflexivity. Qed.

(** A sign after a closing curly bracket is taken for a unary operator, and no expression has one. *)
Example signs_that_are_not_read :
  template "{{ 1 + -x }}" = Some (Error (UnexpectedToken (str "-") unary_operator)) /\
  template "{{ {'a': 1} - 1 }}" = Some (Error (ParserException (str "Parser Error: Expected }} (Got -)") 12)).
Proof. split; vm_compute; reflexivity. Qed.

(** What stands after [generation] is not looked at. *)
Example generation_skips_any_token :
  template "{% generation" = Some (Ok [NoopStatement 3]) /\ template "{% generation 'x'" = Some (Ok [NoopStatement 3]).
Proof. split; vm_compute; reflexivity. Qed.

(** The example of the comment above [parse_comparison_expression]: the operators group to the
    left, as [(('a' in 'apple') == 'b') in 'banana'], not as [('a' in ('apple' == ('b' in 'banana')))]. *)
Example comparisons_group_to_the_left :
  let s v := StringLiteral 0 (str v) in
  let op ty v := Token ty (str v) 0 in
  option_map (fun r => match r with Ok l => map strip l | Error _ => [] end)
    (template "{{ 'a' in 'apple' == 'b' in 'banana' }}") =
  Some [BinaryExpression 0 (op identifier "in")
    (BinaryExpression 0 (op comparison_binary_operator "==")
      (BinaryExpression 0 (op identifier "in") (s "a") (s "apple")) (s "b")) (s "banana")].
Proof. vm_compute. reflexivity. Qed.

(** Of two indices without a comma the second is dropped. *)
Example second_index_is_dropped : template "{{ a[1 2] }}" = template "{{ a[1] }}".
Proof. vm_compute. reflexivity. Qed.

(** The filter of a filter expression may be a member, which its constructor asserts it is not. *)
Example filter_that_is_a_member :
  let e := FilterExpression 5 (Identifier 3 (str "x"))
    (MemberExpression 13 (CallExpression 10 (Identifier 7 (str "foo")) [IntegerLiteral 11 1]) (Identifier 14 (str "bar")) false) in
  template "{{ x | foo(1).bar }}" = Some (Ok [e]) /\ checked e = false.
Proof. split; vm_compute; reflexivity. Qed.

(** A number that does not fit is not a parser error. *)
Example number_too_large : template "{{ 9223372036854775808 }}" = Some (Error (StdException (str "9223372036854775808"))).
Proof. vm_compute. reflexivity. Qed.

End JinjaParserExpr.
