(* ===== verification/JinjaParserTemplate.v ===== *)
(** Templates as they are written: the symbols of a program, with its statements between
    [{%] and [%}], and the programs that are written this way. *)

From Stdlib Require Import Ascii.
From S2P Require Import Prelude.
From S2P Require Import JinjaLexer.
From S2P Require Import JinjaLexerPrint.
From S2P Require Import JinjaParser.
From S2P Require Import JinjaParserPrint.
From S2P Require Import JinjaParserRead.

Module JinjaParserTemplate.
Import JinjaLexer.
Import JinjaLexerPrint.
Import JinjaParser.
Import JinjaParserPrint.
Import JinjaParserRead.

Definition open_s : symbol := (open_statement, str "{%").
Definition close_s : symbol := (close_statement, str "%}").
Definition open_e : symbol := (open_expression, str "{{").
Definition close_e : symbol := (close_expression, str "}}").

(** [{% name ks %}]. *)
Definition block (name : string) (ks : list symbol) : list symbol := open_s :: word (str name) :: ks ++ [close_s].

(** The words that end a list of statements. *)
Definition ends : list bytes :=
  str <$> ["elif"; "else"; "endif"; "endset"; "endmacro"; "endfor"; "endcall"; "endfilter"]%string.

Section Float.
Context {float : Type} (print_float : float -> bytes).
Abbreviation statement := (statement float).
Abbreviation at_level := (at_level print_float).
Abbreviation print_arg := (print_arg print_float).

(** A tuple without parentheses, or an expression. *)
Definition print_sequence (L : nat) (e : statement) : list symbol :=
  match e with TupleLiteral _ l => commas (map (at_level L) l) | _ => at_level L e end.

Definition print_args (l : list statement) : list symbol := parens (commas (map print_arg l)).

(** [elif] asks for an if statement without its [endif], where another one goes on. *)
Fixpoint print_stmt (elif : bool) (s : statement) : list symbol :=
  let body l := concat (map (print_stmt false) l) in
  match s with
  | CommentStatement _ v => [(comment, v)]
  | StringLiteral _ v => [(text, v)]
  | BreakStatement _ => block "break" []
  | ContinueStatement _ => block "continue" []
  | NoopStatement _ => block "generation" []
  | SetStatement _ a (Some v) _ => block "set" (print_sequence 0 a ++ equals_s :: print_sequence 0 v)
  | SetStatement _ a None b => block "set" (print_sequence 0 a) ++ body b ++ block "endset" []
  | MacroStatement _ n a b => block "macro" (at_level 10 n ++ print_args a) ++ body b ++ block "endmacro" []
  | ForStatement _ v i b d =>
      block "for" (print_sequence 10 v ++ word (str "in") :: at_level 0 i) ++ body b ++
      (match d with [] => [] | _ => block "else" [] ++ body d end) ++ block "endfor" []
  | CallStatement _ (CallExpression _ f args) a b =>
      block "call" ((match a with [] => [] | _ => print_args a end) ++ at_level 10 f ++ print_args args) ++ body b ++ block "endcall" []
  | FilterStatement _ f b => block "filter" (wrap_filter f (print print_float f)) ++ body b ++ block "endfilter" []
  | IfStatement _ c b a =>
      block (if elif then "elif" else "if") (at_level 0 c) ++ body b ++
      (match a with
       | [] => []
       | [IfStatement _ _ _ _ as x] => print_stmt true x
       | _ => block "else" [] ++ body a
       end) ++ (if elif then [] else block "endif" [])
  | e => open_e :: at_level 0 e ++ [close_e]
  end.

Definition print_body (l : list statement) : list symbol := concat (map (print_stmt false) l).

Definition is_type_if (s : statement) : bool := match s with IfStatement _ _ _ _ => true | _ => false end.

(** What an if statement does otherwise. *)
Definition print_alternate (a : list statement) : list symbol :=
  match a with
  | [] => []
  | [IfStatement _ _ _ _ as x] => print_stmt true x
  | _ => block "else" [] ++ print_body a
  end.

(** The programs that are written: in a set statement either a value or a body, in a call
    statement a call of an identifier, and filters that the parser takes as a whole. *)
Fixpoint proper_stmt (s : statement) : bool :=
  match s with
  | CommentStatement _ _ | StringLiteral _ _ | BreakStatement _ | ContinueStatement _ | NoopStatement _ => true
  | SetStatement _ a (Some v) b => proper a && proper v && match b with [] => true | _ => false end
  | SetStatement _ a None b => proper a && forallb proper_stmt b
  | MacroStatement _ n a b => proper n && forallb proper_arg a && forallb proper_stmt b
  | ForStatement _ v i b d => proper v && proper i && forallb proper_stmt b && forallb proper_stmt d
  | CallStatement _ c a b =>
      match c with
      | CallExpression _ f args => is_type_identifier f && proper f && forallb proper_arg args
      | _ => false
      end && forallb proper_arg a && forallb proper_stmt b
  | FilterStatement _ f b => proper f && implb (called f) (is_type_identifier (root f)) && forallb proper_stmt b
  | IfStatement _ c b a => proper c && forallb proper_stmt b && forallb proper_stmt a
  | e => proper e
  end.

End Float.
End JinjaParserTemplate.
