(* ===== verification/JinjaParserStmt.v ===== *)
(** The parser reads back whole programs. *)

From Stdlib Require Import Ascii.
From S2P Require Import Prelude.
From S2P Require Import JinjaLexer.
From S2P Require Import JinjaLexerPrint.
From S2P Require Import JinjaParser.
From S2P Require Import JinjaParserPrint.
From S2P Require Import JinjaParserRead.
From S2P Require Import JinjaParserLevel.
From S2P Require Import JinjaParserPrimary.
From S2P Require Import JinjaParserChain.
From S2P Require Import JinjaParserExpr.
From S2P Require Import JinjaParserTemplate.

Module JinjaParserStmt.
Import JinjaLexer.
Import JinjaLexerPrint.
Import JinjaParser.
Import JinjaParserPrint.
Import JinjaParserRead.
Import JinjaParserLevel.
Import JinjaParserPrimary.
Import JinjaParserChain.
Import JinjaParserExpr.
Import JinjaParserTemplate.

Lemma is_statement_view tokens names current w r : view tokens current = open_s :: word w :: r ->
  is_statement tokens names current = bool_decide (w ∈ names).
Proof.
  intros Hv. apply view_S in Hv as Hv1. unfold is_statement.
  assert (H1 : sym (peek tokens current 1) = word w) by (rewrite sym_peek, Nat.add_1_r, Hv1; done).
  injection H1 as Ht Hval. rewrite peek_t, Hv, Ht, Hval. apply bool_decide_ext. simpl. naive_solver.
Qed.

Lemma not_a_statement tokens names current : (hd (view tokens current)).1 <> open_statement -> is_statement tokens names current = false.
Proof. intros H. unfold is_statement. apply bool_decide_eq_false_2. rewrite peek_t. naive_solver. Qed.

Lemma end_read tokens name current r : view tokens current = block name [] ++ r ->
  expect_end tokens (str name) current = Ok (current + 3)%nat /\ view tokens (current + 3) = r.
Proof.
  intros Hv. apply view_app in Hv as Hend. cbn [block app] in Hv. apply view_S in Hv as Hv1. apply view_S in Hv1 as Hv2. split; [|done].
  unfold expect_end, expect_identifier, close. rewrite (expect_view _ _ _ _ _ _ Hv). bind_simpl.
  rewrite is_identifier_view, Hv1, bool_decide_eq_true_2 by done. bind_simpl. rewrite (expect_view _ _ _ _ _ _ Hv2). f_equal. lia.
Qed.

Section Stmt.
Context {float : Type} (print_float : float -> bytes) (stod : bytes -> option float) (tokens : list token).
Abbreviation statement := (statement float).
Abbreviation len := (length tokens).
Abbreviation view := (view tokens).
Abbreviation at_level := (at_level print_float).
Abbreviation print_sequence := (print_sequence print_float).
Abbreviation print_args := (print_args print_float).
Abbreviation print_stmt := (print_stmt print_float).
Abbreviation print_body := (print_body print_float).
Abbreviation print_alternate := (print_alternate print_float).
Abbreviation pe := (parse_expression stod tokens).
Abbreviation pa := (parse_any_at stod tokens).
Abbreviation full := (full print_float stod tokens).
Abbreviation arg_part := (arg_part print_float stod tokens).

(** ** Expressions in statements *)

Lemma level_read L x current r : full x -> (L <= 10)%nat -> view current = at_level L x ++ r -> stop L r = true ->
  exists x', parse_level stod tokens L pe current = Ok (x', (current + length (at_level L x))%nat) /\ same x' x /\ view (current + length (at_level L x)) = r.
Proof.
  intros (_ & Hr & _) HL Hv Hs. destruct (Hr L HL (S (budget tokens)) current r) as (x' & Hx & Hsame); [unfold budget; lia|done..|].
  exists x'. split_and!; [done..|by eapply view_app].
Qed.

Lemma expr_read x current r : full x -> view current = at_level 0 x ++ r -> closer (hd r).1 = true ->
  exists x', pe current = Ok (x', (current + length (at_level 0 x))%nat) /\ same x' x /\ view (current + length (at_level 0 x)) = r.
Proof.
  intros Hx Hv Hr. destruct (part_read print_float stod tokens (S (budget tokens)) current x r) as (x' & H & Hs & Hend); [by apply full_part|unfold budget; lia|done..|]. eauto.
Qed.

Lemma args_read l current r : Forall arg_part l -> view current = print_args l ++ r ->
  exists l', parse_args tokens pe current = Ok (l', (current + length (print_args l))%nat) /\ all_same l' l /\ view (current + length (print_args l)) = r.
Proof.
  intros Hl Hv. destruct (read_args print_float stod tokens l (S (budget tokens)) current r Hl) as (l' & H & Hs); [unfold budget; lia|done|].
  exists l'. split_and!; [done..|by eapply view_app].
Qed.

(** Elements of a sequence without parentheses, at level 0 or, in a loop, at level 10. *)
Definition sequence_level (primary : bool) : nat := if primary then 10 else 0.

Lemma read_seq (primary : bool) closing v a current r :
  (forall r, (hd r).1 = closing -> stop (sequence_level primary) r = true) -> closing <> comma ->
  (forall x, proper x = true -> full x) -> proper a = true ->
  view current = print_sequence (sequence_level primary) a ++ (closing, v) :: r ->
  exists a', parse_expression_sequence stod tokens pe primary current = Ok (a', (current + length (print_sequence (sequence_level primary) a))%nat) /\
    same a' a /\ view (current + length (print_sequence (sequence_level primary) a)) = (closing, v) :: r.
Proof.
  intros Hstop Hc Hfull Hp Hv. unfold parse_expression_sequence. set (element := if primary then _ else _). set (L := sequence_level primary) in *.
  assert (He : forall x, proper x = true -> elem_read tokens element (at_level L) same closing current x).
  { intros x Hx c q Hle Hvc Hq. assert (Hs : stop L q = true) by (destruct Hq as [Hq|Hq]; [apply stop_closer; by rewrite Hq|by apply Hstop]).
    destruct (Hfull x Hx) as (_ & Hr & _). unfold element, L in *. destruct primary.
    - apply (Hr 10%nat ltac:(lia) (S (budget tokens)) c q); [unfold budget; lia|done..].
    - apply (Hr 0%nat ltac:(lia) (budget tokens) c q); [unfold budget; lia|done..]. }
  apply view_app in Hv as Hend. apply view_lt in Hend as Hlt.
  assert (Hplain : print_sequence L a = at_level L a -> exists a', sequence_of tokens element current = Ok (a', (current + length (print_sequence L a))%nat) /\ same a' a).
  { intros E. rewrite E in *. apply (read_single tokens element (at_level L) closing current a current ((closing, v) :: r)); [by apply He|done..|lia|done]. }
  enough (exists a', sequence_of tokens element current = Ok (a', (current + length (print_sequence L a))%nat) /\ same a' a) as (a' & H & Hs) by eauto.
  destruct a; try by apply Hplain. cbn [proper] in Hp. apply andb_true_iff in Hp as [H2 Hp].
  apply (read_sequence tokens _ _ closing current _ _ _ v r); [by apply Nat.leb_le| |done..].
  apply Forall_forall. intros x Hx. apply He. rewrite forallb_forall in Hp. apply Hp. by apply list_elem_of_In.
Qed.

(** ** Lists of statements *)

Definition stmt_ok (s : statement) : Prop := forall n current r,
  (len < current + n)%nat -> view current = print_stmt false s ++ r ->
  exists s', pa n current = Ok (s', (current + length (print_stmt false s))%nat) /\ same s' s.

Lemma not_ends w : bool_decide (w ∈ ends) = false -> w ∉ ends.
Proof. apply bool_decide_eq_false_1. Qed.

Ltac begins :=
  eexists _, _; split; [reflexivity|]; intros E; first [discriminate E | eexists _, _; split; [reflexivity|]; apply not_ends; reflexivity].

(** A statement does not look like the end of a list of them. *)
Lemma stmt_starts s : proper_stmt s = true ->
  exists k l, print_stmt false s = k :: l /\ (k.1 = open_statement -> exists w l', l = word w :: l' /\ w ∉ ends).
Proof.
  intros Hp.
  destruct s; try discriminate Hp; try begins; cbn [proper_stmt] in Hp.
  - destruct val; begins.
  - destruct s; try discriminate Hp. begins.
Qed.

(** The statements up to a block whose word is one of [names]. *)
Lemma body_read names w l n current r :
  Forall stmt_ok l -> forallb proper_stmt l = true -> view current = print_body l ++ open_s :: word w :: r ->
  names ⊆ ends -> w ∈ names -> (len < current + n)%nat ->
  exists l', parse_until tokens (pa n) names current = Ok (l', (current + length (print_body l))%nat) /\ all_same l' l /\
    view (current + length (print_body l)) = open_s :: word w :: r.
Proof.
  intros Hl Hp Hv Hn Hw Hlen. apply view_app in Hv as Hend.
  enough (forall pre, exists l', rtc (turn (until_step tokens (pa n) names)) (pre, current) (pre ++ l', (current + length (print_body l))%nat) /\ all_same l' l) as H.
  { destruct (H []) as (l' & Hr & Hs). exists l'. split_and!; [|done..]. unfold parse_until. apply loop_turns; [done| |].
    - unfold until_step. cbn [fst snd]. rewrite (is_statement_view _ _ _ _ _ Hend). by rewrite bool_decide_eq_true_2.
    - apply view_lt in Hend. cbn [snd]. lia. }
  clear Hend. revert current Hlen Hv. induction Hl as [|s l Hs _ IH]; intros current Hlen Hv pre.
  { exists []. rewrite app_nil_r. simpl. by rewrite Nat.add_0_r. }
  cbn [forallb] in Hp. apply andb_true_iff in Hp as [Hps Hp]. change (print_body (s :: l)) with (print_stmt false s ++ print_body l) in *.
  rewrite <- app_assoc in Hv. destruct (Hs n current _ Hlen Hv) as (s' & Hs' & Hsame). apply view_app in Hv as Hv1.
  destruct (stmt_starts s Hps) as (k & q & Ek & Hk).
  assert (0 < length (print_stmt false s))%nat by (rewrite Ek; simpl; lia).
  assert (Hno : is_statement tokens names current = false).
  { rewrite Ek in Hv. cbn [app] in Hv. destruct (decide (k.1 = open_statement)) as [E|E]; [|apply not_a_statement; by rewrite Hv].
    destruct (Hk E) as (v & q' & -> & Hv'). apply view_S in Hv as Hv2. unfold is_statement. apply bool_decide_eq_false_2. intros (_ & _ & Hin).
    assert (H1 : sym (peek tokens current 1) = word v) by (rewrite sym_peek, Nat.add_1_r, Hv2; done). injection H1 as _ Hval. rewrite Hval in Hin. by apply Hv', Hn. }
  destruct (IH Hp (current + length (print_stmt false s))%nat) with (pre := pre ++ [s']) as (l' & Hr & Hsl); [lia|done|].
  exists (s' :: l'). rewrite length_app, Nat.add_assoc. split; [|unfold all_same; cbn [map]; by rewrite Hsame, Hsl].
  rewrite <- app_assoc in Hr. eapply rtc_l; [|exact Hr]. split; [|cbn [snd]; lia]. unfold until_step. cbn [fst snd]. rewrite Hno, Hs'. done.
Qed.

(** The body of a statement and its end. *)
Lemma body_end_read name l n current r :
  Forall stmt_ok l -> forallb proper_stmt l = true -> view current = print_body l ++ block name [] ++ r ->
  str name ∈ ends -> (len < current + n)%nat ->
  exists l', parse_until tokens (pa n) [str name] current = Ok (l', (current + length (print_body l))%nat) /\ all_same l' l /\
    expect_end tokens (str name) (current + length (print_body l)) = Ok (current + length (print_body l ++ block name []))%nat.
Proof.
  intros Hl Hp Hv Hn Hlen. destruct (body_read [str name] (str name) l n current (close_s :: r)) as (l' & Hu & Hs & Hend); [done..| |set_solver|done|].
  { intros x ->%list_elem_of_singleton. done. }
  exists l'. split_and!; [done..|]. destruct (end_read tokens name _ r Hend) as [-> _]. f_equal. rewrite length_app. simpl. lia.
Qed.

(** ** Statements *)

(** Equal numbers of symbols. *)
Ltac count := unfold block; cbn [sequence_level snd]; repeat first [rewrite length_app | progress cbn [length app]]; lia.

(** Go to the branch of a statement. *)
Ltac statement_name Hv :=
  let Hv1 := fresh "Hv1" in let k := fresh "k" in let Hk := fresh "Hk" in let Hkv := fresh "Hkv" in
  cbn [parse_any_at]; unfold parse_any_step; rewrite peek_t, Hv; cbn [hd head default fst open_s];
  unfold parse_jinja_statement; rewrite (expect_view _ _ _ _ _ _ Hv); bind_simpl;
  apply view_S in Hv as Hv1; rewrite is_view, Hv1; rewrite (bool_decide_eq_true_2 (_ = identifier)) by done; bind_simpl;
  destruct (next_symbol _ _ _ _ Hv1) as (k & Hk & [= _ Hkv]); rewrite Hk; bind_simpl; cbn [fst snd]; rewrite Hkv;
  repeat rewrite (bool_decide_eq_false_2 (_ = _)) by done;
  first [rewrite (bool_decide_eq_true_2 (_ = _)) by done | rewrite bool_decide_eq_true_2 by (by left)].

Lemma nonempty_fuel n current s r : (len < current + n)%nat -> view current = s :: r -> exists n', n = S n'.
Proof. intros Hn Hv%view_lt. destruct n; [lia|eauto]. Qed.

Lemma stmt_comment p v : stmt_ok (CommentStatement p v).
Proof.
  intros n current r Hn Hv. cbn [app] in Hv. destruct (nonempty_fuel _ _ _ _ Hn Hv) as [n' ->].
  destruct (next_symbol _ _ _ _ Hv) as (k & Hk & [= _ Hkv]). destruct (mk_stmt_view _ _ _ _ Hv) as [q Hq].
  exists (CommentStatement q v). split; [|done]. cbn [parse_any_at]. unfold parse_any_step. rewrite peek_t, Hv. cbn [hd head default fst].
  rewrite Hk. bind_simpl. rewrite Hq. bind_simpl. cbn [fst snd]. rewrite Hkv. do 2 f_equal. simpl. lia.
Qed.

Lemma stmt_text p v : stmt_ok (StringLiteral p v).
Proof.
  intros n current r Hn Hv. cbn [app] in Hv. destruct (nonempty_fuel _ _ _ _ Hn Hv) as [n' ->].
  destruct (next_symbol _ _ _ _ Hv) as (k & Hk & [= _ Hkv]). destruct (mk_stmt_view _ _ _ _ Hv) as [q Hq].
  exists (StringLiteral q v). split; [|done]. cbn [parse_any_at]. unfold parse_any_step. rewrite peek_t, Hv. cbn [hd head default fst].
  rewrite Hk. bind_simpl. rewrite Hq. bind_simpl. cbn [fst snd]. rewrite Hkv. do 2 f_equal. simpl. lia.
Qed.

Lemma stmt_expression e : full e -> print_stmt false e = open_e :: at_level 0 e ++ [close_e] -> stmt_ok e.
Proof.
  intros He E n current r Hn Hv. rewrite E in *. cbn [app] in Hv. rewrite <- app_assoc in Hv. destruct (nonempty_fuel _ _ _ _ Hn Hv) as [n' ->].
  apply view_S in Hv as Hv1. destruct (expr_read e (S current) _ He Hv1) as (e' & He' & Hs & Hend); [done|].
  exists e'. split; [|done]. cbn [parse_any_at]. unfold parse_any_step. rewrite peek_t, Hv. cbn [hd head default fst open_e].
  unfold parse_jinja_expression. rewrite (expect_view _ _ _ _ _ _ Hv). bind_simpl. rewrite He'. bind_simpl. cbn [fst snd].
  rewrite (expect_view _ _ _ _ _ _ Hend). bind_simpl. do 2 f_equal. cbn [length]. rewrite length_app. simpl. lia.
Qed.

(** A statement of one word. *)
Lemma stmt_word name s : (name, s) ∈ [("break"%string, BreakStatement 0); ("continue"%string, ContinueStatement 0); ("generation"%string, NoopStatement 0)] ->
  forall n current r, (len < current + n)%nat -> view current = block name [] ++ r -> exists s', pa n current = Ok (s', (current + 3)%nat) /\ same s' s.
Proof.
  intros Hin n current r Hn Hv. cbn [block app] in Hv. destruct (nonempty_fuel _ _ _ _ Hn Hv) as [n' ->].
  destruct (mk_stmt_view _ _ _ _ (view_S _ _ _ _ Hv)) as [q Hq]. apply view_S in Hv as Hv2. apply view_S in Hv2.
  repeat (apply elem_of_cons in Hin as [[= -> ->]|Hin]); [..|by apply elem_of_nil in Hin]; statement_name Hv.
  - exists (BreakStatement q). split; [|done]. unfold close. rewrite (expect_view _ _ _ _ _ _ Hv2). bind_simpl. rewrite Hq. bind_simpl. do 2 f_equal. lia.
  - exists (ContinueStatement q). split; [|done]. unfold close. rewrite (expect_view _ _ _ _ _ _ Hv2). bind_simpl. rewrite Hq. bind_simpl. do 2 f_equal. lia.
  - exists (NoopStatement q). split; [|done]. rewrite Hq. bind_simpl. do 2 f_equal. lia.
Qed.

(** *** Set *)

Section Full.
Context (Hfull : forall x, proper x = true -> full x).

Lemma closer_stop ty L : closer ty = true -> forall r, (hd r).1 = ty -> stop L r = true.
Proof. intros Hc r Hr. apply stop_closer. by rewrite Hr. Qed.

Lemma block_app name ks r : block name ks ++ r = open_s :: word (str name) :: ks ++ close_s :: r.
Proof. unfold block. cbn [app]. by rewrite <- app_assoc. Qed.

Lemma stmt_set_value p a v : proper a = true -> proper v = true -> stmt_ok (SetStatement p a (Some v) []).
Proof.
  intros Ha Hw n current r Hn Hv.
  change (print_stmt false (SetStatement p a (Some v) [])) with (block "set" (print_sequence 0 a ++ equals_s :: print_sequence 0 v)) in *.
  rewrite block_app, <- app_assoc in Hv. cbn [app] in Hv. destruct (nonempty_fuel _ _ _ _ Hn Hv) as [n' ->].
  apply view_S in Hv as Hv2. destruct (mk_stmt_view _ _ _ _ Hv2) as [q Hq]. apply view_S in Hv2.
  destruct (read_seq false equals (str "=") a (S (S current)) _ (closer_stop equals _ eq_refl) ltac:(done) Hfull Ha Hv2) as (a' & Ha' & Has & Hend).
  apply view_S in Hend as Hv3.
  destruct (read_seq false close_statement (str "%}") v _ _ (closer_stop close_statement _ eq_refl) ltac:(done) Hfull Hw Hv3) as (v' & Hv' & Hvs & Hend').
  exists (SetStatement q a' (Some v') []). split; [|unfold same; cbn [strip option_map]; by rewrite Has, Hvs].
  statement_name Hv. unfold parse_set_statement. rewrite Ha'. bind_simpl. cbn [fst snd]. rewrite is_view, Hend, bool_decide_eq_true_2 by done.
  rewrite Hv'. bind_simpl. cbn [fst snd]. unfold close. rewrite (expect_view _ _ _ _ _ _ Hend'). bind_simpl. rewrite Hq. bind_simpl.
  do 2 f_equal. count.
Qed.

Lemma stmt_set_body p a b : proper a = true -> Forall stmt_ok b -> forallb proper_stmt b = true -> stmt_ok (SetStatement p a None b).
Proof.
  intros Ha Hb Hpb n current r Hn Hv.
  change (print_stmt false (SetStatement p a None b)) with (block "set" (print_sequence 0 a) ++ print_body b ++ block "endset" []) in *.
  rewrite <- app_assoc, block_app, <- app_assoc in Hv. destruct (nonempty_fuel _ _ _ _ Hn Hv) as [n' ->].
  apply view_S in Hv as Hv2. destruct (mk_stmt_view _ _ _ _ Hv2) as [q Hq]. apply view_S in Hv2.
  destruct (read_seq false close_statement (str "%}") a (S (S current)) _ (closer_stop close_statement _ eq_refl) ltac:(done) Hfull Ha Hv2) as (a' & Ha' & Has & Hend).
  apply view_S in Hend as Hv3.
  destruct (body_end_read "endset" b n' _ r Hb Hpb Hv3) as (b' & Hb' & Hbs & He); [by apply (bool_decide_unpack _)|lia|].
  exists (SetStatement q a' None b'). split; [|unfold same; cbn [strip option_map]; by rewrite Has, Hbs].
  statement_name Hv. unfold parse_set_statement. rewrite Ha'. bind_simpl. cbn [fst snd]. rewrite is_view, Hend, bool_decide_eq_false_2 by done.
  unfold close. rewrite (expect_view _ _ _ _ _ _ Hend). bind_simpl. rewrite Hb'. bind_simpl. cbn [fst snd]. rewrite He. bind_simpl. rewrite Hq. bind_simpl.
  do 2 f_equal. count.
Qed.

Lemma stmt_macro p m a b : proper m = true -> Forall arg_part a -> Forall stmt_ok b -> forallb proper_stmt b = true ->
  stmt_ok (MacroStatement p m a b).
Proof.
  intros Hm Ha Hb Hpb n current r Hn Hv.
  change (print_stmt false (MacroStatement p m a b)) with (block "macro" (at_level 10 m ++ print_args a) ++ print_body b ++ block "endmacro" []) in *.
  rewrite <- app_assoc, block_app, <- !app_assoc in Hv. destruct (nonempty_fuel _ _ _ _ Hn Hv) as [n' ->].
  apply view_S in Hv as Hv2. destruct (mk_stmt_view _ _ _ _ Hv2) as [q Hq]. apply view_S in Hv2.
  destruct (level_read 10 m (S (S current)) _ (Hfull m Hm) ltac:(lia) Hv2) as (m' & Hm' & Hms & Hend); [by apply stop_cons; simpl; lia|].
  destruct (args_read a _ _ Ha Hend) as (a' & Ha' & Has & Hend2). apply view_S in Hend2 as Hv3.
  destruct (body_end_read "endmacro" b n' _ r Hb Hpb Hv3) as (b' & Hb' & Hbs & He); [by apply (bool_decide_unpack _)|lia|].
  exists (MacroStatement q m' a' b'). split; [|unfold same; cbn [strip]; by rewrite Hms, Has, Hbs].
  statement_name Hv. cbn [parse_level] in Hm'. unfold before_end, parse_macro_statement. rewrite Hm'. bind_simpl. cbn [fst snd]. rewrite Ha'. bind_simpl. cbn [fst snd].
  unfold close. rewrite (expect_view _ _ _ _ _ _ Hend2). bind_simpl. rewrite Hb'. bind_simpl. cbn [fst snd]. rewrite Hq. bind_simpl. cbn [fst snd]. rewrite He. bind_simpl.
  do 2 f_equal. count.
Qed.

(** *** For *)

Definition print_else (d : list statement) : list symbol := match d with [] => [] | _ => block "else" [] ++ print_body d end.

(** [else] and its statements, if there are any. *)
Definition parse_else (n : nat) (name : bytes) (current : nat) : R (list statement * nat) :=
  if is_statement tokens [str "else"] current then
    c ← JinjaParser.close tokens (S (S current)); parse_until tokens (pa n) [name] c
  else Ok ([], current).

Lemma else_head d w r : exists w' r', print_else d ++ open_s :: word w :: r = open_s :: word w' :: r' /\ (w' = str "else" \/ w' = w).
Proof. destruct d; [eauto|]. cbn [print_else]. rewrite block_app. cbn [app]. eauto. Qed.

Lemma else_read name d n current r :
  Forall stmt_ok d -> forallb proper_stmt d = true -> view current = print_else d ++ open_s :: word (str name) :: r ->
  str name ∈ ends -> str name <> str "else" -> (len < current + n)%nat ->
  exists d', parse_else n (str name) current = Ok (d', (current + length (print_else d))%nat) /\ all_same d' d /\
    view (current + length (print_else d)) = open_s :: word (str name) :: r.
Proof.
  intros Hd Hp Hv Hin Hne Hn. apply view_app in Hv as Hend. unfold parse_else. destruct d as [|s d].
  - cbn [print_else app] in *. exists []. rewrite (is_statement_view _ _ _ _ _ Hv), bool_decide_eq_false_2 by (by intros E%list_elem_of_singleton).
    split_and!; [by rewrite Nat.add_0_r|done|done].
  - cbn [print_else] in Hv. rewrite <- app_assoc, block_app in Hv. cbn [app] in Hv. rewrite (is_statement_view _ _ _ _ _ Hv), bool_decide_eq_true_2 by set_solver.
    apply view_S in Hv as Hv1. apply view_S in Hv1 as Hv2. apply view_S in Hv2 as Hv3. unfold close. rewrite (expect_view _ _ _ _ _ _ Hv2). bind_simpl.
    destruct (body_read [str name] (str name) (s :: d) n (S (S (S current))) r) as (d' & Hd' & Hds & _); [done..| |set_solver|lia|].
    { by intros x ->%list_elem_of_singleton. }
    exists d'. split_and!; [|done..]. rewrite Hd'. do 2 f_equal. cbn [print_else]. count.
Qed.

Lemma identifier_stop r : (hd r).1 = identifier -> stop 10 r = true.
Proof.
  unfold stop, hd. destruct (head r) as [[ty v]|]; [|done]. simpl. intros ->. unfold cont_level. cbn [fst].
  by repeat destruct (is_word_in _ _).
Qed.

Lemma stmt_for p v i b d : proper v = true -> proper i = true -> Forall stmt_ok b -> forallb proper_stmt b = true ->
  Forall stmt_ok d -> forallb proper_stmt d = true -> stmt_ok (ForStatement p v i b d).
Proof.
  intros Hv0 Hi Hb Hpb Hd Hpd n current r Hn Hv.
  change (print_stmt false (ForStatement p v i b d)) with
    (block "for" (print_sequence 10 v ++ word (str "in") :: at_level 0 i) ++ print_body b ++ print_else d ++ block "endfor" []) in *.
  rewrite <- !app_assoc, block_app, <- app_assoc in Hv. cbn [app] in Hv. destruct (nonempty_fuel _ _ _ _ Hn Hv) as [n' ->].
  apply view_S in Hv as Hv2. destruct (mk_stmt_view _ _ _ _ Hv2) as [q Hq]. apply view_S in Hv2.
  destruct (read_seq true identifier (str "in") v (S (S current)) _ identifier_stop ltac:(done) Hfull Hv0 Hv2) as (v' & Hv' & Hvs & Hend).
  apply view_S in Hend as Hv3. destruct (expr_read i _ _ (Hfull i Hi) Hv3) as (i' & Hi' & His & Hend2); [done|]. apply view_S in Hend2 as Hv4.
  destruct (else_head d (str "endfor") (close_s :: r)) as (w & r' & Ew & Hw). rewrite block_app in Hv4. cbn [app] in Hv4. rewrite Ew in Hv4.
  destruct (body_read [str "endfor"; str "else"] w b n' _ r' Hb Hpb Hv4) as (b' & Hb' & Hbs & Hend3); [|by destruct Hw as [-> | ->]; set_solver|lia|].
  { intros x Hx. repeat (apply elem_of_cons in Hx as [->|Hx]); [..|by apply elem_of_nil in Hx]; by apply (bool_decide_unpack _). }
  rewrite <- Ew in Hend3. destruct (else_read "endfor" d n' _ _ Hd Hpd Hend3) as (d' & Hd' & Hds & Hend4); [by apply (bool_decide_unpack _)|done|lia|].
  destruct (end_read tokens "endfor" _ r Hend4) as [He _].
  exists (ForStatement q v' i' b' d'). split; [|unfold same; cbn [strip]; by rewrite Hvs, His, Hbs, Hds].
  statement_name Hv. unfold before_end, parse_for_statement. rewrite Hv'. bind_simpl. cbn [fst snd].
  rewrite is_identifier_view, Hend, bool_decide_eq_true_2 by done. bind_simpl. rewrite Hi'. bind_simpl. cbn [fst snd].
  unfold close. rewrite (expect_view _ _ _ _ _ _ Hend2). bind_simpl. rewrite Hb'. bind_simpl. cbn [fst snd].
  unfold parse_else, close in Hd'. rewrite Hd'. bind_simpl. rewrite Hq. bind_simpl. cbn [fst snd]. rewrite He. bind_simpl. do 2 f_equal. count.
Qed.

(** *** Call and filter *)

Lemma same_identifier (a b : statement) : same a b -> is_type_identifier a = is_type_identifier b.
Proof. intros H%(f_equal is_type_identifier). assert (E : forall s : statement, is_type_identifier (strip s) = is_type_identifier s) by (by destruct s). by rewrite !E in H. Qed.

Lemma stmt_call p p' f args a b : is_type_identifier f = true -> proper f = true -> Forall arg_part args -> Forall arg_part a ->
  Forall stmt_ok b -> forallb proper_stmt b = true -> stmt_ok (CallStatement p (CallExpression p' f args) a b).
Proof.
  intros Hid Hf Hargs Ha Hb Hpb n current r Hn Hv. set (caller := match a with [] => [] | _ => print_args a end).
  change (print_stmt false (CallStatement p (CallExpression p' f args) a b)) with
    (block "call" (caller ++ at_level 10 f ++ print_args args) ++ print_body b ++ block "endcall" []) in *.
  rewrite <- app_assoc, block_app, <- !app_assoc in Hv. destruct (nonempty_fuel _ _ _ _ Hn Hv) as [n' ->].
  apply view_S in Hv as Hv2. destruct (mk_stmt_view _ _ _ _ Hv2) as [q Hq]. apply view_S in Hv2.
  assert (exists a', (if is_ tokens open_paren (S (S current)) then parse_args tokens pe (S (S current)) else Ok ([], S (S current))) =
    Ok (a', (S (S current) + length caller)%nat) /\ all_same a' a) as (a' & Ha' & Has).
  { unfold caller in *. destruct a as [|x a].
    - exists []. rewrite is_view, Hv2. destruct f; try discriminate Hid. split; [|done]. cbn. by rewrite Nat.add_0_r.
    - destruct (args_read (x :: a) _ _ Ha Hv2) as (a' & Ha' & Has & _). exists a'. rewrite is_view, Hv2. split; [exact Ha'|done]. }
  apply view_app in Hv2 as Hv3.
  destruct (level_read 10 f _ _ (Hfull f Hf) ltac:(lia) Hv3) as (f' & Hf' & Hfs & Hend); [by apply stop_cons; simpl; lia|].
  destruct (args_read args _ _ Hargs Hend) as (args' & Hargs' & Hargss & Hend2). apply view_S in Hend2 as Hv4.
  destruct (body_end_read "endcall" b n' _ r Hb Hpb Hv4) as (b' & Hb' & Hbs & He); [by apply (bool_decide_unpack _)|lia|].
  exists (CallStatement q (CallExpression q f' args') a' b'). split; [|unfold same; cbn [strip]; by rewrite Hfs, Hargss, Has, Hbs].
  statement_name Hv. unfold parse_call_statement. rewrite Ha'. bind_simpl. cbn [fst snd parse_level] in *. rewrite Hf'. bind_simpl. cbn [fst snd].
  rewrite (same_identifier _ _ Hfs), Hid. bind_simpl. rewrite Hargs'. bind_simpl. cbn [fst snd].
  unfold close. rewrite (expect_view _ _ _ _ _ _ Hend2). bind_simpl. rewrite Hb'. bind_simpl. cbn [fst snd]. rewrite He. bind_simpl. rewrite Hq. bind_simpl.
  do 2 f_equal. count.
Qed.

(** The filter of a filter statement is read as one after a pipe. *)
Lemma filter_node_read f current r : proper f = true -> implb (called f) (is_type_identifier (root f)) = true ->
  view current = wrap_filter f (print print_float f) ++ close_s :: r ->
  exists f', (filter_node ← parse_primary_expression stod tokens pe current;
      if is_type_identifier filter_node.1 && is_ tokens open_paren filter_node.2
      then parse_call_expression stod tokens pe filter_node.1 filter_node.2 else Ok filter_node) =
    Ok (f', (current + length (wrap_filter f (print print_float f)))%nat) /\ same f' f.
Proof.
  intros Hf Hroot Hv. destruct (Hfull f Hf) as (_ & Hr & _ & Hc).
  destruct (called_reads print_float stod tokens f (S (budget tokens)) current (close_s :: r)) as (f' & Hf' & Hs); [done|done|by apply Hr|unfold budget; lia|done|by apply stop_cons|].
  exists f'. split; [|done]. rewrite <- Hf'. unfold primary_or_call. change (parse_expression_at stod tokens (S (budget tokens))) with pe.
  destruct (called f) eqn:E; cbn [implb] in Hroot.
  - assert (Hl : level f = 9%nat) by (by destruct f). unfold wrap_filter in Hv. rewrite E, <- (at_level_le print_float 9) in Hv by lia.
    destruct (Hc (S (budget tokens)) current _ ltac:(unfold budget; lia) Hv) as (e0 & c0 & e' & sp & H0 & _ & _ & _ & _ & _ & Hcall & Hr0); [by apply stop_cons|].
    change (parse_expression_at stod tokens (S (budget tokens))) with pe in H0. rewrite H0. bind_simpl. cbn [fst snd].
    by rewrite (same_identifier _ _ Hr0), Hroot.
  - unfold wrap_filter in Hv. rewrite E in Hv. destruct (level_read 10 f current _ (Hfull f Hf) ltac:(lia) Hv) as (x & Hx & _ & Hend); [by apply stop_cons|].
    cbn [parse_level] in Hx. rewrite Hx. bind_simpl. cbn [fst snd]. rewrite is_view, Hend. by rewrite andb_false_r.
Qed.

Lemma stmt_filter p f b : proper f = true -> implb (called f) (is_type_identifier (root f)) = true ->
  Forall stmt_ok b -> forallb proper_stmt b = true -> stmt_ok (FilterStatement p f b).
Proof.
  intros Hf Hroot Hb Hpb n current r Hn Hv.
  change (print_stmt false (FilterStatement p f b)) with (block "filter" (wrap_filter f (print print_float f)) ++ print_body b ++ block "endfilter" []) in *.
  rewrite <- app_assoc, block_app, <- app_assoc in Hv. destruct (nonempty_fuel _ _ _ _ Hn Hv) as [n' ->].
  apply view_S in Hv as Hv2. destruct (mk_stmt_view _ _ _ _ Hv2) as [q Hq]. apply view_S in Hv2.
  destruct (filter_node_read f _ _ Hf Hroot Hv2) as (f' & Hf' & Hfs). apply view_app in Hv2 as Hend. apply view_S in Hend as Hv3.
  destruct (body_end_read "endfilter" b n' _ r Hb Hpb Hv3) as (b' & Hb' & Hbs & He); [by apply (bool_decide_unpack _)|lia|].
  exists (FilterStatement q f' b'). split; [|unfold same; cbn [strip]; by rewrite Hfs, Hbs].
  statement_name Hv. unfold parse_filter_statement. revert Hf'. destruct (parse_primary_expression _ _ _ _) as [node|]; bind_simpl; [|done]. intros Hf'. rewrite Hf'.
  bind_simpl. cbn [fst snd]. unfold close. rewrite (expect_view _ _ _ _ _ _ Hend). bind_simpl. rewrite Hb'. bind_simpl. cbn [fst snd]. rewrite He. bind_simpl. rewrite Hq. bind_simpl.
  do 2 f_equal. count.
Qed.

(** *** If *)

(** An if statement after its first word and before its end. *)
Definition print_if (c : statement) (b a : list statement) : list symbol :=
  at_level 0 c ++ close_s :: print_body b ++ print_alternate a.

Definition if_ok (c : statement) (b a : list statement) : Prop := forall n fuel start_pos current r,
  (len < current + n)%nat -> (len < current + fuel)%nat -> (start_pos < len)%nat ->
  view current = print_if c b a ++ open_s :: word (str "endif") :: r ->
  exists s', if_statement stod tokens (pa n) fuel start_pos current = Ok (s', (current + length (print_if c b a))%nat) /\
    same s' (IfStatement 0 c b a).

Definition stmts_ok (l : list statement) : Prop := Forall stmt_ok l /\ forallb proper_stmt l = true.

(** The alternate is one if statement, or it is written with [else]. *)
Definition alternate_ok (a : list statement) : Prop :=
  match a with
  | [IfStatement _ c b a] => if_ok c b a
  | _ => stmts_ok a
  end.

Definition is_elif (a : list statement) : bool := match a with [IfStatement _ _ _ _] => true | _ => false end.

Lemma elif_cases a : is_elif a = true -> exists p c b a', a = [IfStatement p c b a'].
Proof. destruct a as [|s [|s' a]]; [done| |by destruct s]. destruct s; try done. eauto. Qed.

Lemma else_cases a : is_elif a = false -> alternate_ok a = stmts_ok a /\ print_alternate a = print_else a.
Proof. destruct a as [|s [|s' a]]; [done| |by destruct s]. by destruct s. Qed.

(** The statements of the alternate, from the end of the body on. *)
Definition parse_alternate (n fuel current : nat) : R (list statement * nat) :=
  if is_statement tokens [str "elif"] current then
    s ← if_statement stod tokens (pa n) fuel current (S (S current)); Ok ([s.1], s.2)
  else parse_else n (str "endif") current.

Lemma alternate_read a n fuel current r : alternate_ok a ->
  view current = print_alternate a ++ open_s :: word (str "endif") :: r -> (len < current + n)%nat -> (len < current + fuel)%nat ->
  exists a', parse_alternate n fuel current = Ok (a', (current + length (print_alternate a))%nat) /\ all_same a' a.
Proof.
  intros Ha Hv Hn Hf. unfold parse_alternate. destruct (is_elif a) eqn:E.
  - apply elif_cases in E as (p & c & b & a' & ->). cbn [alternate_ok] in Ha.
    assert (Ep : print_alternate [IfStatement p c b a'] = open_s :: word (str "elif") :: print_if c b a').
    { cbn. rewrite app_nil_r, <- app_assoc. reflexivity. }
    rewrite Ep in *. cbn [app] in Hv. rewrite (is_statement_view _ _ _ _ _ Hv), bool_decide_eq_true_2 by set_solver.
    apply view_lt in Hv as Hlt. apply view_S in Hv as Hv1. apply view_S in Hv1 as Hv2.
    destruct (Ha n fuel current (S (S current)) r) as (s' & Hs' & Hsame); [lia|lia|done|done|].
    exists [s']. split; [|unfold all_same; cbn [map]; by rewrite Hsame]. rewrite Hs'. bind_simpl. do 2 f_equal. count.
  - apply else_cases in E as [Eok Ep]. rewrite Eok in Ha. rewrite Ep in *. destruct Ha as [Ha Hp].
    destruct (else_read "endif" a n current r Ha Hp Hv) as (a' & Ha' & Has & _); [by apply (bool_decide_unpack _)|done|done|].
    assert (is_statement tokens [str "elif"] current = false) as ->; [|eauto].
    destruct (else_head a (str "endif") r) as (w & r' & Ew & Hw). rewrite Ew in Hv. rewrite (is_statement_view _ _ _ _ _ Hv).
    apply bool_decide_eq_false_2. intros ->%list_elem_of_singleton. by destruct Hw.
Qed.

Lemma alternate_head a r : exists w r', print_alternate a ++ open_s :: word (str "endif") :: r = open_s :: word w :: r' /\
  w ∈ [str "elif"; str "else"; str "endif"].
Proof.
  destruct (is_elif a) eqn:E.
  - apply elif_cases in E as (p & c & b & a' & ->). eexists _, _. split; [reflexivity|]. set_solver.
  - apply else_cases in E as [_ ->]. destruct (else_head a (str "endif") r) as (w & r' & -> & Hw).
    eexists _, _. split; [reflexivity|]. destruct Hw as [-> | ->]; set_solver.
Qed.

Lemma if_read c b a : proper c = true -> stmts_ok b -> alternate_ok a -> if_ok c b a.
Proof.
  intros Hc [Hb Hpb] Ha n fuel start_pos current r Hn Hf Hsp Hv. unfold print_if in Hv. rewrite <- app_assoc in Hv. cbn [app] in Hv. rewrite <- app_assoc in Hv.
  destruct (expr_read c current _ (Hfull c Hc) Hv) as (c' & Hc' & Hcs & Hend); [done|]. apply view_S in Hend as Hv2.
  destruct (alternate_head a r) as (w & r' & Ew & Hw). rewrite Ew in Hv2.
  destruct (body_read [str "elif"; str "else"; str "endif"] w b n _ r' Hb Hpb Hv2) as (b' & Hb' & Hbs & Hend2); [|done|lia|].
  { intros x Hx. repeat (apply elem_of_cons in Hx as [->|Hx]); [..|by apply elem_of_nil in Hx]; by apply (bool_decide_unpack _). }
  rewrite <- Ew in Hend2. destruct fuel as [|fuel]; [apply view_lt in Hend; lia|].
  destruct (alternate_read a n fuel _ r Ha Hend2) as (a' & Ha' & Has); [lia..|].
  destruct (mk_stmt_lt tokens start_pos Hsp) as [q Hq]. exists (IfStatement q c' b' a'). split; [|unfold same; cbn [strip]; by rewrite Hcs, Hbs, Has].
  cbn [if_statement]. rewrite Hc'. bind_simpl. cbn [fst snd]. unfold close. rewrite (expect_view _ _ _ _ _ _ Hend). bind_simpl. rewrite Hb'. bind_simpl. cbn [fst snd].
  unfold parse_alternate, parse_else, close in Ha'. rewrite Ha'. bind_simpl. rewrite Hq. bind_simpl. do 2 f_equal. unfold print_if. count.
Qed.

Lemma stmt_if p c b a : if_ok c b a -> stmt_ok (IfStatement p c b a).
Proof.
  intros Hif n current r Hn Hv.
  assert (E : print_stmt false (IfStatement p c b a) = open_s :: word (str "if") :: print_if c b a ++ block "endif" []).
  { unfold print_if. cbn. rewrite <- !app_assoc. cbn [app]. by rewrite <- !app_assoc. }
  rewrite E in *. cbn [app] in Hv. rewrite <- app_assoc in Hv. destruct (nonempty_fuel _ _ _ _ Hn Hv) as [n' ->].
  apply view_S in Hv as Hv1. apply view_lt in Hv1 as Hlt. apply view_S in Hv1 as Hv2. rewrite block_app in Hv2.
  destruct (Hif n' (budget tokens) (S current) (S (S current)) (close_s :: r)) as (s' & Hs' & Hsame); [lia|unfold budget; lia|done|done|].
  apply view_app in Hv2 as Hend. destruct (end_read tokens "endif" _ r Hend) as [He _].
  exists s'. split; [|by rewrite Hsame]. statement_name Hv. unfold before_end, parse_if_statement. rewrite Hs'. bind_simpl. cbn [fst snd].
  rewrite He. bind_simpl. do 2 f_equal. count.
Qed.

(** *** All statements *)

Section Smaller.
Context (k : nat) (IH : forall s, (size s < k)%nat -> proper_stmt s = true -> stmt_ok s).

Lemma all_stmts_ok l : forallb proper_stmt l = true -> (list_sum (map size l) < k)%nat -> stmts_ok l.
Proof.
  intros Hp Hs. split; [|done]. apply Forall_forall. intros x Hx. apply IH.
  - pose proof (size_elem x l Hx). lia.
  - rewrite forallb_forall in Hp. apply Hp. by apply list_elem_of_In.
Qed.

Lemma if_all s : (size s <= k)%nat -> proper_stmt s = true -> match s with IfStatement _ c b a => if_ok c b a | _ => True end.
Proof.
  remember (size s) as m eqn:Em. revert s Em. induction (lt_wf m) as [m _ IHm]. intros s -> Hk Hp. destruct s; try done.
  cbn [proper_stmt] in Hp. bool_prop. cbn [size] in Hk. apply if_read; [done|apply all_stmts_ok; [done|lia]|].
  destruct (is_elif alternate) eqn:E.
  - apply elif_cases in E as (p & c & b & a & ->). cbn [forallb] in *. bool_prop. cbn [map list_sum foldr] in Hk.
    apply (IHm (size (IfStatement p c b a))) with (s := IfStatement p c b a); [cbn [size map list_sum foldr]; lia|done|lia|done].
  - apply else_cases in E as [-> _]. apply all_stmts_ok; [done|lia].
Qed.
End Smaller.

Lemma all_arg_parts l : forallb proper_arg l = true -> Forall arg_part l.
Proof.
  intros Hp. apply (arg_parts print_float stod tokens (ArrayLiteral 0 l)) with (l := l); [|done|simpl; lia]. intros x _. apply Hfull.
Qed.

Lemma stmt_proper s : proper_stmt s = true -> stmt_ok s.
Proof.
  remember (size s) as k eqn:Ek. revert s Ek. induction (lt_wf k) as [k _ IHk]. intros s -> Hp.
  assert (IH : forall x, (size x < size s)%nat -> proper_stmt x = true -> stmt_ok x) by (intros x Hx; by apply (IHk _ Hx x)). clear IHk.
  pose proof (all_stmts_ok (size s) IH) as Hl. pose proof (if_all (size s) IH s (le_n _) Hp) as Hif.
  pose proof Hp as Hp'. destruct s; try discriminate Hp; try (by apply stmt_expression; [apply Hfull|]); cbn [proper_stmt] in Hp'; bool_prop.
  - apply stmt_comment.
  - by apply stmt_if.
  - destruct (Hl body) as [Hb Hpb]; [done|simpl; lia|]. destruct (Hl default_block) as [Hd Hpd]; [done|simpl; lia|]. by apply stmt_for.
  - intros n current r Hn Hv. by apply (stmt_word "break" (BreakStatement 0) ltac:(set_solver) n current r).
  - intros n current r Hn Hv. by apply (stmt_word "continue" (ContinueStatement 0) ltac:(set_solver) n current r).
  - intros n current r Hn Hv. by apply (stmt_word "generation" (NoopStatement 0) ltac:(set_solver) n current r).
  - destruct val as [v|]; bool_prop.
    + destruct body; [|done]. by apply stmt_set_value.
    + destruct (Hl body) as [Hb Hpb]; [done|simpl; lia|]. by apply stmt_set_body.
  - destruct (Hl body) as [Hb Hpb]; [done|simpl; lia|]. apply stmt_macro; [done|by apply all_arg_parts|done..].
  - destruct s; try done. bool_prop. destruct (Hl body) as [Hb Hpb]; [done|simpl; lia|]. apply stmt_call; [done|done|by apply all_arg_parts|by apply all_arg_parts|done|done].
  - destruct (Hl body) as [Hb Hpb]; [done|simpl; lia|]. by apply stmt_filter.
  - apply stmt_text.
Qed.
End Full.

End Stmt.

(** ** Programs *)

Section Program.
Context {float : Type} (print_float : float -> bytes) (stod : bytes -> option float).
Hypothesis float_dot : forall f, ch "." ∈ print_float f.
Hypothesis float_stod : forall f, stod (print_float f) = Some f.

Lemma program_turns tokens l pre current :
  forallb proper_stmt l = true -> view tokens current = print_body print_float l ->
  exists l', rtc (turn (parse_step stod tokens)) (pre, current) (pre ++ l', (current + length (print_body print_float l))%nat) /\ all_same l' l.
Proof.
  revert pre current. induction l as [|s l IH]; intros pre current Hp Hv.
  { exists []. rewrite app_nil_r. simpl. by rewrite Nat.add_0_r. }
  cbn [forallb] in Hp. apply andb_true_iff in Hp as [Hps Hp]. change (print_body print_float (s :: l)) with (print_stmt print_float false s ++ print_body print_float l) in *.
  destruct (stmt_starts print_float s Hps) as (k & q & Ek & _).
  assert (Hlt : (current < length tokens)%nat) by (rewrite Ek in Hv; by apply view_lt in Hv).
  destruct (stmt_proper print_float stod tokens (full_proper print_float stod tokens float_dot float_stod) s Hps (S (budget tokens)) current (print_body print_float l))
    as (s' & Hs' & Hsame); [unfold budget; lia|done|].
  apply view_app in Hv. destruct (IH (pre ++ [s']) _ Hp Hv) as (l' & Hr & Hsl).
  exists (s' :: l'). rewrite length_app, Nat.add_assoc. split; [|unfold all_same; cbn [map]; by rewrite Hsame, Hsl].
  rewrite <- app_assoc in Hr. eapply rtc_l; [|exact Hr]. split; [|cbn [snd]; rewrite Ek; simpl; lia].
  unfold parse_step. cbn [fst snd]. rewrite (proj2 (Nat.ltb_lt _ _)) by done. unfold parse_any. by rewrite Hs'.
Qed.

(** C28: A whole program is read back: the tokens of texts, comments, expressions and the statements
    set, if with elif and else, for with else, macro, call, filter, break, continue
    and generation, nested in any way and written with no more parentheses than needed, are
    parsed into exactly this program but for the positions, whose nodes pass the assertions
    of their constructors as those of the program do (the name of a macro is an
    identifier, a loop variable an identifier or a tuple, and so on). Operators of one level group
    to the left, [in] and the comparisons, too ([comparisons_group_to_the_left]). *)
Theorem program_roundtrip tokens l :
  forallb proper_stmt l = true -> forallb checked l = true -> sym <$> tokens = print_body print_float l ->
  exists l', parse stod tokens = Ok l' /\ all_same l' l /\ forallb checked l' = true.
Proof.
  intros Hp Hc Hv. assert (Hlen : length (print_body print_float l) = length tokens) by (by rewrite <- Hv, length_fmap).
  destruct (program_turns tokens l [] 0 Hp Hv) as (l' & Hr & Hs). exists l'.
  split_and!; [|done|by rewrite (checked_all_same _ _ Hs)]. unfold parse. rewrite (loop_turns tokens _ _ _ _ Hr); [done| |cbn [snd]; lia].
  unfold parse_step. cbn [fst snd]. by rewrite (proj2 (Nat.ltb_ge _ _)) by lia.
Qed.
End Program.

(** A program with every kind of statement. *)
Definition sample_program : list (statement unit) :=
  let id s := Identifier 0 (str s) in
  let eq a b := BinaryExpression 0 (Token comparison_binary_operator (str "==") 0) a b in
  [CommentStatement 0 (str " c ");
   MacroStatement 0 (id "m") [id "x"; KeywordArgumentExpression 0 (id "y") (IntegerLiteral 0 1)] [StringLiteral 0 (str "hi"); sample];
   ForStatement 0 (TupleLiteral 0 [id "k"; id "v"]) (SelectExpression 0 (id "items") (id "ok"))
     [IfStatement 0 (eq (id "k") (StringLiteral 0 (str "a"))) [ContinueStatement 0]
        [IfStatement 0 (id "v") [BreakStatement 0] [StringLiteral 0 (str "else")]]]
     [SetStatement 0 (TupleLiteral 0 [id "a"; id "b"]) (Some (TupleLiteral 0 [IntegerLiteral 0 (-1); ArrayLiteral 0 []])) []];
   CallStatement 0 (CallExpression 0 (id "m") [SpreadExpression 0 (id "l")]) [id "u"] [NoopStatement 0];
   SetStatement 0 (id "t") None
     [FilterStatement 0 (CallExpression 0 (id "f") [IntegerLiteral 0 2]) [StringLiteral 0 (str "text")]]].

Lemma program_roundtrip_witness :
  let tokens := (fun k => Token k.1 k.2 0) <$> print_body half sample_program in
  exists l', parse (fun _ => Some tt) tokens = Ok l' /\ all_same l' sample_program /\ forallb checked l' = true.
Proof.
  apply (program_roundtrip half (fun _ => Some tt)).
  - intros []. vm_compute. set_solver.
  - by intros [].
  - vm_compute. reflexivity.
  - vm_compute. reflexivity.
  - vm_compute. reflexivity.
Defined.

End JinjaParserStmt.
