(* ===== verification/KvTail.v ===== *)
(** The requests for an exact tail of the KV cache
    (src/src/llama-kv-tail-request.cpp): the parser of a specification, its binding
    to the groups of the cache, and the tail policy of the quantised cache
    (src/src/llama-kv-cache-kvarn.h).

    [strtoull] reads a string of digits exactly, or fails with [ERANGE] when the
    number leaves 64 bits, as the C standard says. *)

From Stdlib Require Import Ascii.
From S2P Require Import Prelude.
From S2P Require Import KvPlacement.

Module KvTail.
Export Digits.

Definition GGML_TYPE_F16 : Z := 1.
Definition GGML_TYPE_BF16 : Z := 30.
Definition GGML_TYPE_COUNT : Z := 49.

Inductive request_mode := DISABLED | NUMERIC | AUTOMATIC | POSITIONAL | NAMED.

Record request_entry := Entry { group : bytes; tokens : Z }.

(** The error messages with what they quote. *)
Inductive tail_error :=
| BadType
| MixedEntries
| BadCount (value : bytes)
| EmptyName
| DuplicateName (name : bytes)
| NoValue
| CountMismatch (expected got : nat)
| UnknownGroup (name : bytes)
| AmbiguousGroup (name : bytes)
| Incomplete.

Record tail_request := Request {
  mode : request_mode;
  exact_type : Z;
  entries : list request_entry;
  error : option tail_error;
}.

Definition is_valid (r : tail_request) : bool := match error r with None => true | Some _ => false end.

(** * Parsing *)

Definition strtoull (s : bytes) : option Z :=
  let v := value_of s in if UINT64_MAX <? v then None else Some v.

Definition parse_count (value : bytes) : option Z :=
  if bool_decide (value = []) || negb (forallb isdigit value) then None else
  match strtoull value with
  | None => None
  | Some parsed => if UINT32_MAX <? parsed then None else Some (u32 parsed)
  end.

(** The fields between the commas, one at least. *)
Fixpoint split_from (s current : bytes) : list bytes :=
  match s with
  | [] => [current]
  | c :: s => if c =? ch "," then current :: split_from s [] else split_from s (current ++ [c])
  end.
Definition split_entries (specification : bytes) : list bytes := split_from specification [].

(** [find('=')] and [rfind('=')]. *)
Definition find_equal (s : bytes) : option nat := fst <$> list_find (fun c => c = ch "=") s.
Definition rfind_equal (s : bytes) : option nat :=
  (fun i => (length s - 1 - i)%nat) <$> find_equal (rev s).

Definition is_named (entry : bytes) : bool :=
  match find_equal entry with
  | Some first => bool_decide (rfind_equal entry = Some first)
  | None => false
  end.

(** One entry: its name and value, checked. *)
Definition parse_entry (any_named : bool) (names : gset bytes) (entry : bytes) : tail_error + (gset bytes * request_entry) :=
  let name := if any_named then take (default (length entry) (find_equal entry)) entry else [] in
  let value := if any_named then match find_equal entry with Some i => drop (i + 1) entry | None => entry end else entry in
  match parse_count value with
  | None => inl (BadCount value)
  | Some tokens =>
      if any_named && (bool_decide (name = []) || bool_decide (name ∈ names)) then
        inl (if bool_decide (name = []) then EmptyName else DuplicateName name)
      else inr ((if any_named then {[ name ]} ∪ names else names), Entry name tokens)
  end.

Fixpoint parse_entries (any_named : bool) (names : gset bytes) (r : tail_request) (es : list bytes) : tail_request :=
  match es with
  | [] => r
  | e :: es =>
      match parse_entry any_named names e with
      | inl err => Request (mode r) (exact_type r) (entries r) (Some err)
      | inr (names, entry) =>
          parse_entries any_named names (Request (mode r) (exact_type r) (entries r ++ [entry]) (error r)) es
      end
  end.

Definition llama_kv_tail_request_parse (specification : bytes) (ty : Z) : tail_request :=
  let result := Request DISABLED ty [] None in
  if negb (ty =? GGML_TYPE_COUNT) && negb (ty =? GGML_TYPE_F16) && negb (ty =? GGML_TYPE_BF16)
  then Request DISABLED ty [] (Some BadType) else
  if bool_decide (specification = []) then result else
  if bool_decide (specification = str "auto") then Request AUTOMATIC ty [] None else
  let es := split_entries specification in
  let any_named := existsb (fun e => bool_decide (find_equal e <> None)) es in
  let all_named := forallb is_named es in
  if any_named && negb all_named then Request DISABLED ty [] (Some MixedEntries) else
  let m := if any_named then NAMED else if (1 <? length es)%nat then POSITIONAL else NUMERIC in
  parse_entries any_named ∅ (Request m ty [] None) es.

(** * Resolution *)

Record request_group := Group {
  id : bytes;
  grole : bytes;
  effective_window : Z;
  applicable_standard_kv : bool;
}.

Record group_resolution := Resolution {
  rid : bytes;
  rrole : bytes;
  raw_requested_tokens : Z;
  requested_tokens : Z;
  effective_tokens : Z;
  rtype : Z;
  native_exact : bool;
}.

(** [llama_kvarn_tail_policy]. *)
Record tail_policy := Policy {
  policy_raw : Z;
  policy_requested : Z;
  policy_effective : Z;
  exact_groups : Z;
  policy_native : bool;
}.

Definition llama_kvarn_tail_policy_for (raw window : Z) : tail_policy :=
  let group_size := 128 in
  if window =? 0 then Policy raw 0 0 0 true else
  let intrinsic := Z.min group_size window in
  let rounded := if raw =? 0 then 0 else u64 (u64 (raw + group_size - 1) / group_size * group_size) in
  let explicit_tokens := u32 (Z.min rounded window) in
  let effective := Z.max intrinsic explicit_tokens in
  Policy raw effective effective (u32 (effective + group_size - 1) / group_size) (effective =? window).

(** The indices of the groups a name stands for. *)
Definition matches (groups : list request_group) (name : bytes) : list nat :=
  filter (fun i => match groups !! i with
                   | Some g => bool_decide (id g = name \/ grole g = name)
                   | None => false
                   end = true) (List.seq 0 (length groups)).

(** One named entry: the raw numbers and the groups assigned so far. *)
Definition assign (groups : list request_group) (st : list Z * list bool) (e : request_entry)
    : result tail_error (list Z * list bool) :=
  let '(raw, assigned) := st in
  match matches groups (group e) with
  | [] => Error (UnknownGroup (group e))
  | [i] =>
      if default false (assigned !! i)
      then Error (DuplicateName (default [] (id <$> groups !! i)))
      else Ok (<[i := tokens e]> raw, <[i := true]> assigned)
  | _ => Error (AmbiguousGroup (group e))
  end.

(** The raw number of each group. *)
Definition raw_tokens (r : tail_request) (groups : list request_group) : result tail_error (list Z) :=
  let n := length groups in
  match mode r with
  | DISABLED => Ok (replicate n 0)
  | NUMERIC =>
      match entries r with
      | [e] => Ok (replicate n (tokens e))
      | _ => Error NoValue
      end
  | AUTOMATIC => Ok (replicate n 1024)
  | POSITIONAL =>
      if negb (length (entries r) =? n)%nat then Error (CountMismatch n (length (entries r)))
      else Ok (tokens <$> entries r)
  | NAMED =>
      st ← foldM (assign groups) (replicate n 0, replicate n false) (entries r);
      if existsb negb st.2 then Error Incomplete else Ok st.1
  end.

Definition resolve_group (kvarn : bool) (ty : Z) (g : request_group) (raw : Z) : group_resolution :=
  if kvarn then
    let policy := llama_kvarn_tail_policy_for raw (effective_window g) in
    Resolution (id g) (grole g) raw (policy_requested policy) (policy_effective policy) ty (policy_native policy)
  else
    let effective := if applicable_standard_kv g then Z.min raw (effective_window g) else 0 in
    Resolution (id g) (grole g) raw raw effective ty false.

Definition llama_kv_tail_request_resolve (r : tail_request) (groups : list request_group) (kvarn : bool)
    : result tail_error (list group_resolution) :=
  match error r with
  | Some e => Error e
  | None =>
      raw ← raw_tokens r groups;
      let resolved_type :=
        if negb (exact_type r =? GGML_TYPE_COUNT) then exact_type r
        else if kvarn then GGML_TYPE_F16 else GGML_TYPE_BF16 in
      Ok (zip_with (resolve_group kvarn resolved_type) groups raw)
  end.

(** [None] is a null pointer. *)
Definition llama_kv_tail_request_init (specification : option bytes) (ty : Z) : tail_request :=
  llama_kv_tail_request_parse (default [] specification) ty.

(** * Written requests *)

Fixpoint join (l : list bytes) : bytes :=
  match l with
  | [] => []
  | [x] => x
  | x :: l => x ++ ch "," :: join l
  end.

Definition in_u32 (n : Z) : Prop := 0 <= n <= UINT32_MAX.
Definition count (n : Z) : bytes := decimal 10 n.
Definition name_ok (s : bytes) : Prop := s <> [] /\ forall c, c ∈ s -> c <> ch "," /\ c <> ch "=".
Definition write_entry (e : request_entry) : bytes := group e ++ ch "=" :: count (tokens e).

(** A request and a specification that says it. *)
Inductive written (ty : Z) : tail_request -> bytes -> Prop :=
| written_disabled : written ty (Request DISABLED ty [] None) []
| written_auto : written ty (Request AUTOMATIC ty [] None) (str "auto")
| written_number n : in_u32 n -> written ty (Request NUMERIC ty [Entry [] n] None) (count n)
| written_positional ns : (1 < length ns)%nat -> Forall in_u32 ns ->
    written ty (Request POSITIONAL ty (Entry [] <$> ns) None) (join (count <$> ns))
| written_named es : es <> [] -> Forall (fun e => name_ok (group e) /\ in_u32 (tokens e)) es -> NoDup (group <$> es) ->
    written ty (Request NAMED ty es None) (join (write_entry <$> es)).

Lemma name_ok_check s :
  s <> [] -> forallb (fun c => negb (c =? ch ",") && negb (c =? ch "=")) s = true -> name_ok s.
Proof.
  intros Hne Hs. split; [done|]. rewrite forallb_forall in Hs. intros c Hc%list_elem_of_In%Hs.
  apply andb_true_iff in Hc as [H1%negb_true_iff%Z.eqb_neq H2%negb_true_iff%Z.eqb_neq]. done.
Qed.

Lemma count_ok n : in_u32 n -> all_digits (count n) /\ count n <> [] /\ value_of (count n) = n.
Proof. intros Hn. apply decimal_ok; [unfold in_u32, UINT32_MAX in Hn; simpl; lia | lia]. Qed.

Lemma parse_count_ok n : in_u32 n -> parse_count (count n) = Some n.
Proof.
  intros Hn. destruct (count_ok n Hn) as (Hd & Hne & Hv). unfold parse_count, strtoull. rewrite Hv.
  rewrite bool_decide_eq_false_2 by done. assert (forallb isdigit (count n) = true) as ->.
  { apply forallb_forall. intros c Hc%list_elem_of_In. unfold all_digits in Hd. rewrite Forall_forall in Hd. auto. }
  cbn [orb negb]. unfold in_u32, UINT32_MAX, UINT64_MAX in *.
  destruct (Z.ltb_spec (2 ^ 64 - 1) n); [lia|]. destruct (Z.ltb_spec (2 ^ 32 - 1) n); [lia|].
  f_equal. apply u32_small. lia.
Qed.

Lemma count_chars n c : in_u32 n -> c ∈ count n -> c <> ch "," /\ c <> ch "=".
Proof.
  intros Hn Hc. destruct (count_ok n Hn) as (Hd & _). unfold all_digits in Hd. rewrite Forall_forall in Hd.
  apply Hd in Hc. by split; intros ->.
Qed.

Lemma split_word s rest cur : (forall c, c ∈ s -> c <> ch ",") ->
  split_from (s ++ rest) cur = split_from rest (cur ++ s).
Proof.
  revert cur. induction s as [|c s IH]; intros cur Hs; [by rewrite app_nil_r|]. cbn [app split_from].
  destruct (Z.eqb_spec c (ch ",")) as [->|]; [by destruct (Hs (ch ",")); [left|]|].
  rewrite IH by (intros x Hx; apply Hs; by right). by rewrite <- app_assoc.
Qed.

Lemma split_join l : l <> [] -> Forall (fun s => forall c, c ∈ s -> c <> ch ",") l -> split_entries (join l) = l.
Proof.
  intros Hne Hl. unfold split_entries. induction Hl as [|s l Hs Hl IH]; [done|].
  destruct l as [|s2 l]; cbn [join].
  - rewrite <- (app_nil_r s), split_word by done. by rewrite app_nil_r.
  - rewrite split_word by done. cbn [split_from app]. f_equal. by apply IH.
Qed.

Lemma find_equal_none s : (forall c, c ∈ s -> c <> ch "=") -> find_equal s = None.
Proof. intros Hs. unfold find_equal. rewrite (proj2 (list_find_None _ _)); [done|]. by apply Forall_forall. Qed.

Lemma find_equal_app s r : (forall c, c ∈ s -> c <> ch "=") -> find_equal (s ++ ch "=" :: r) = Some (length s).
Proof.
  intros Hs. unfold find_equal. rewrite (proj2 (list_find_Some _ _ (length s) (ch "="))); [done|].
  split_and!; [by apply list_lookup_middle | done |].
  intros j y Hj Hlt. rewrite lookup_app_l in Hj by done. apply Hs. by eapply list_elem_of_lookup_2.
Qed.

Lemma write_entry_equal e : name_ok (group e) -> in_u32 (tokens e) ->
  find_equal (write_entry e) = Some (length (group e)) /\ is_named (write_entry e) = true.
Proof.
  intros [_ Hg] Hn. assert (find_equal (write_entry e) = Some (length (group e))) as E.
  { apply find_equal_app. intros c Hc. by apply Hg. }
  split; [done|]. unfold is_named. rewrite E. apply bool_decide_eq_true_2.
  unfold rfind_equal, write_entry. rewrite rev_app_distr. cbn [rev]. rewrite <- app_assoc. cbn [app].
  rewrite find_equal_app.
  - cbn. f_equal. rewrite length_rev, length_app. cbn [length]. lia.
  - intros c Hc. apply list_elem_of_In, in_rev, list_elem_of_In in Hc. by apply (count_chars _ _ Hn).
Qed.

Lemma parse_entry_written names e : name_ok (group e) -> in_u32 (tokens e) -> group e ∉ names ->
  parse_entry true names (write_entry e) = inr ({[ group e ]} ∪ names, e).
Proof.
  intros Hg Hn Hin. destruct (write_entry_equal e Hg Hn) as [E _]. unfold parse_entry. rewrite E.
  change (default (length (write_entry e)) (Some (length (group e)))) with (length (group e)).
  unfold write_entry. rewrite take_app_length, drop_app_ge by lia.
  replace (length (group e) + 1 - length (group e))%nat with 1%nat by lia.
  change (drop 1 (ch "=" :: count (tokens e))) with (count (tokens e)).
  rewrite parse_count_ok by done. destruct Hg as [Hne _]. rewrite !bool_decide_eq_false_2 by done. by destruct e.
Qed.

Lemma parse_entries_named es names r :
  Forall (fun e => name_ok (group e) /\ in_u32 (tokens e)) es -> NoDup (group <$> es) ->
  (forall e, e ∈ es -> group e ∉ names) ->
  parse_entries true names r (write_entry <$> es) = Request (mode r) (exact_type r) (entries r ++ es) (error r).
Proof.
  intros Hes. revert names r. induction Hes as [|e es [Hg Hn] Hes IH]; intros names r Hnd Hnames; cbn [fmap list_fmap parse_entries].
  - rewrite app_nil_r. by destruct r.
  - rewrite parse_entry_written by (done || apply Hnames; left). apply NoDup_cons in Hnd as [Hnot Hnd].
    rewrite IH; [by cbn [mode exact_type entries error]; rewrite <- app_assoc | done |]. intros e' He' [H%elem_of_singleton|H]%elem_of_union.
    + apply Hnot. rewrite <- H. by apply list_elem_of_fmap_2.
    + apply (Hnames e'); [by right | done].
Qed.

Lemma parse_entries_counts ns r :
  Forall in_u32 ns ->
  parse_entries false ∅ r (count <$> ns) = Request (mode r) (exact_type r) (entries r ++ (Entry [] <$> ns)) (error r).
Proof.
  intros Hns. revert r. induction Hns as [|n ns Hn Hns IH]; intros r; cbn [fmap list_fmap parse_entries].
  - rewrite app_nil_r. by destruct r.
  - unfold parse_entry. rewrite parse_count_ok by done. cbn [andb]. rewrite IH. cbn [mode exact_type entries error].
    by rewrite <- app_assoc.
Qed.

Definition type_ok (ty : Z) : bool := (ty =? GGML_TYPE_COUNT) || (ty =? GGML_TYPE_F16) || (ty =? GGML_TYPE_BF16).

(** Entries without names. *)
Lemma parse_counts ty ns : type_ok ty = true -> ns <> [] -> Forall in_u32 ns ->
  llama_kv_tail_request_parse (join (count <$> ns)) ty =
    Request (if (1 <? length ns)%nat then POSITIONAL else NUMERIC) ty (Entry [] <$> ns) None.
Proof.
  intros Ht Hne Hns. unfold llama_kv_tail_request_parse.
  assert (negb (ty =? GGML_TYPE_COUNT) && negb (ty =? GGML_TYPE_F16) && negb (ty =? GGML_TYPE_BF16) = false) as ->.
  { unfold type_ok in Ht. by destruct (ty =? GGML_TYPE_COUNT), (ty =? GGML_TYPE_F16), (ty =? GGML_TYPE_BF16). }
  assert (exists c r, join (count <$> ns) = c :: r /\ isdigit c = true) as (c & r & E & Hc).
  { destruct ns as [|n ns]; [done|]. apply Forall_cons in Hns as [Hn _]. destruct (count_ok n Hn) as (Hd & Hn0 & _).
    destruct (count n) as [|c r] eqn:En; [done|]. apply Forall_cons in Hd as [Hc _].
    exists c. destruct ns; cbn [fmap list_fmap join]; rewrite En; eexists; by split. }
  rewrite bool_decide_eq_false_2 by by rewrite E.
  rewrite bool_decide_eq_false_2 by (rewrite E; intros [= -> _]; done).
  assert (forall s, s ∈ count <$> ns -> forall c, c ∈ s -> c <> ch "," /\ c <> ch "=") as Hch.
  { intros s (n & -> & Hn)%list_elem_of_fmap x Hx. rewrite Forall_forall in Hns. by apply (count_chars n); [apply Hns|]. }
  rewrite split_join; [|by destruct ns|].
  2: { apply Forall_forall. intros s Hs x Hx. by apply (Hch s). }
  assert (existsb (fun e => bool_decide (find_equal e <> None)) (count <$> ns) = false) as ->.
  { apply not_true_iff_false. intros (s & Hs%list_elem_of_In & Hf%bool_decide_eq_true)%existsb_exists.
    apply Hf, find_equal_none. intros x Hx. by apply (Hch s). }
  cbn [andb]. rewrite parse_entries_counts, length_fmap by done. done.
Qed.

(** A specification is read as the request it says: the empty one and [auto],
    one number, several numbers for the groups in order, and assignments to
    distinct names without commas and equal signs, for any counts of 32 bits and
    the three types a request may have. *)
Theorem tail_request_roundtrip ty r specification :
  type_ok ty = true -> written ty r specification -> llama_kv_tail_request_parse specification ty = r.
Proof.
  intros Ht [| |n Hn|ns Hl Hns|es Hne Hes Hnd].
  - unfold llama_kv_tail_request_parse, type_ok in *. by destruct (ty =? GGML_TYPE_COUNT), (ty =? GGML_TYPE_F16), (ty =? GGML_TYPE_BF16).
  - unfold llama_kv_tail_request_parse, type_ok in *. by destruct (ty =? GGML_TYPE_COUNT), (ty =? GGML_TYPE_F16), (ty =? GGML_TYPE_BF16).
  - apply (parse_counts ty [n]); [done | done | by apply Forall_singleton].
  - rewrite parse_counts; [|done|intros ->; simpl in Hl; lia|done]. destruct (Nat.ltb_spec 1 (length ns)); [done | lia].
  - unfold llama_kv_tail_request_parse.
    assert (negb (ty =? GGML_TYPE_COUNT) && negb (ty =? GGML_TYPE_F16) && negb (ty =? GGML_TYPE_BF16) = false) as ->.
    { unfold type_ok in Ht. by destruct (ty =? GGML_TYPE_COUNT), (ty =? GGML_TYPE_F16), (ty =? GGML_TYPE_BF16). }
    assert (forall e, e ∈ es -> name_ok (group e) /\ in_u32 (tokens e)) as Hok by by apply Forall_forall.
    assert (ch "=" ∈ join (write_entry <$> es)) as Heq.
    { destruct es as [|e es]; [done|]. assert (ch "=" ∈ write_entry e) by (unfold write_entry; set_solver).
      destruct es; cbn [fmap list_fmap join]; [done|]. apply elem_of_app. by left. }
    rewrite bool_decide_eq_false_2 by (intros E; rewrite E in Heq; by apply not_elem_of_nil in Heq).
    rewrite bool_decide_eq_false_2 by (intros E; rewrite E in Heq; vm_compute in Heq; set_unfold in Heq; lia).
    rewrite split_join; [|by destruct es|].
    2: { apply Forall_forall. intros s (e & -> & He)%list_elem_of_fmap c Hc. destruct (Hok e He) as [[_ Hg] Hn].
         unfold write_entry in Hc. apply elem_of_app in Hc as [Hc|[->|Hc]%elem_of_cons];
           [by apply Hg | done | by apply (count_chars _ _ Hn)]. }
    assert (existsb (fun e => bool_decide (find_equal e <> None)) (write_entry <$> es) = true) as ->.
    { destruct es as [|e es]; [done|]. destruct (Hok e ltac:(left)) as [Hg Hn].
      cbn [fmap list_fmap existsb]. rewrite (proj1 (write_entry_equal e Hg Hn)). by rewrite bool_decide_eq_true_2. }
    assert (forallb is_named (write_entry <$> es) = true) as ->.
    { apply forallb_forall. intros s (e & -> & He)%list_elem_of_In%list_elem_of_fmap.
      destruct (Hok e He). by apply write_entry_equal. }
    cbn [andb negb]. rewrite parse_entries_named by (done || set_solver). done.
Qed.

Lemma tail_request_roundtrip_witness :
  llama_kv_tail_request_parse (join (write_entry <$> [Entry (str "swa") 512; Entry (str "full") 128])) GGML_TYPE_COUNT =
    Request NAMED GGML_TYPE_COUNT [Entry (str "swa") 512; Entry (str "full") 128] None.
Proof.
  apply (tail_request_roundtrip GGML_TYPE_COUNT); [reflexivity|]. apply written_named; [discriminate| |].
  - repeat (apply Forall_cons; split;
      [split; [apply name_ok_check; [discriminate | reflexivity] | unfold in_u32, UINT32_MAX; cbn; lia]|]).
    constructor.
  - refine (bool_decide_eq_true_1 _ _). vm_compute. reflexivity.
Defined.

(** * Resolved requests *)

(** A name stands for the groups with this id or this role. *)
Definition stands_for (groups : list request_group) (name : bytes) (i : nat) : Prop :=
  exists g, groups !! i = Some g /\ (id g = name \/ grole g = name).

(** What a request says for group [i]. *)
Definition says (r : tail_request) (groups : list request_group) (i : nat) (raw : Z) : Prop :=
  match mode r with
  | DISABLED => raw = 0
  | AUTOMATIC => raw = 1024
  | NUMERIC => exists e, entries r = [e] /\ raw = tokens e
  | POSITIONAL => exists e, entries r !! i = Some e /\ raw = tokens e
  | NAMED =>
      (exists e, e ∈ entries r /\ stands_for groups (group e) i /\ raw = tokens e) /\
      (forall e, e ∈ entries r -> stands_for groups (group e) i -> raw = tokens e)
  end.

(** The requests that fit the groups: one number for all, a number for each, or
    names each of which stands for one group, no two for the same and none left
    out. *)
Definition resolvable (r : tail_request) (groups : list request_group) : Prop :=
  match mode r with
  | DISABLED | AUTOMATIC => True
  | NUMERIC => length (entries r) = 1%nat
  | POSITIONAL => length (entries r) = length groups
  | NAMED =>
      (forall e, e ∈ entries r -> exists i, forall j, stands_for groups (group e) j <-> j = i) /\
      (forall k k' e e' i, entries r !! k = Some e -> entries r !! k' = Some e' ->
         stands_for groups (group e) i -> stands_for groups (group e') i -> k = k') /\
      (forall i, (i < length groups)%nat -> exists e, e ∈ entries r /\ stands_for groups (group e) i)
  end.

(** What an error says of a request. *)
Definition refused (r : tail_request) (groups : list request_group) (err : tail_error) : Prop :=
  match err with
  | NoValue => mode r = NUMERIC /\ length (entries r) <> 1%nat
  | CountMismatch expected got =>
      mode r = POSITIONAL /\ expected = length groups /\ got = length (entries r) /\ expected <> got
  | UnknownGroup name =>
      mode r = NAMED /\ name ∈ group <$> entries r /\ forall i, ~ stands_for groups name i
  | AmbiguousGroup name =>
      mode r = NAMED /\ name ∈ group <$> entries r /\
      exists i j, i <> j /\ stands_for groups name i /\ stands_for groups name j
  | DuplicateName name =>
      mode r = NAMED /\ exists k k' e e' i g, k <> k' /\ entries r !! k = Some e /\ entries r !! k' = Some e' /\
        stands_for groups (group e) i /\ stands_for groups (group e') i /\ groups !! i = Some g /\ name = id g
  | Incomplete =>
      mode r = NAMED /\
      exists i, (i < length groups)%nat /\ forall e, e ∈ entries r -> ~ stands_for groups (group e) i
  | _ => False
  end.

Lemma refused_not_resolvable r groups err : refused r groups err -> ~ resolvable r groups.
Proof.
  unfold resolvable. destruct err; cbn; try done.
  - intros (-> & k & k' & e & e' & i & g & Hne & ? & ? & ? & ? & _) (_ & Hd & _). apply Hne. by eapply Hd.
  - by intros [-> ?].
  - intros (-> & -> & -> & ?) ?. congruence.
  - intros (-> & (e & -> & He)%list_elem_of_fmap & Hn) (Ho & _). destruct (Ho e He) as [i Hi]. apply (Hn i). by apply Hi.
  - intros (-> & (e & -> & He)%list_elem_of_fmap & i & j & Hne & Hi & Hj) (Ho & _).
    destruct (Ho e He) as [o Heq]. apply Heq in Hi, Hj. congruence.
  - intros (-> & i & Hi & Hn) (_ & _ & Hc). destruct (Hc i Hi) as (e & He & Hs). by apply (Hn e).
Qed.

Lemma matches_spec groups name i : i ∈ matches groups name <-> stands_for groups name i.
Proof.
  unfold matches, stands_for. rewrite list_elem_of_filter, elem_of_seq. split.
  - destruct (groups !! i) as [g|]; [|by intros []]. intros [H%bool_decide_eq_true_1 _]. by exists g.
  - intros (g & Hg & H). rewrite Hg. split; [by apply bool_decide_eq_true_2|]. apply lookup_lt_Some in Hg. lia.
Qed.

Lemma matches_one groups name i :
  matches groups name = [i] <-> (forall j, stands_for groups name j <-> j = i).
Proof.
  split.
  - intros H j. rewrite <- matches_spec, H. apply list_elem_of_singleton.
  - intros H. assert (NoDup (matches groups name)) as Hd by (apply NoDup_filter, NoDup_seq).
    apply Permutation_singleton_r, NoDup_Permutation; [done | apply NoDup_singleton|].
    intros j. by rewrite matches_spec, H, list_elem_of_singleton.
Qed.

(** A loop that fails does so at an element the loop before it reaches. *)
Lemma foldM_error_inv {E A St} (I : list A -> St -> Prop) (f : St -> A -> result E St) l s err :
  (forall pre a s1 s2, pre ++ [a] `prefix_of` l -> I pre s1 -> f s1 a = Ok s2 -> I (pre ++ [a]) s2) ->
  I [] s -> foldM f s l = Error err ->
  exists pre a post s1, l = pre ++ a :: post /\ I pre s1 /\ f s1 a = Error err.
Proof.
  enough (forall pre l s, (forall p a s1 s2, p ++ [a] `prefix_of` pre ++ l -> I p s1 ->
    f s1 a = Ok s2 -> I (p ++ [a]) s2) -> I pre s -> foldM f s l = Error err ->
    exists p a post s1, pre ++ l = p ++ a :: post /\ I p s1 /\ f s1 a = Error err) as Hgen.
  { intros Hf Hs. by apply (Hgen [] l s). }
  clear. intros pre l. revert pre. induction l as [|a l IH]; simpl; intros pre s Hf Hs H; [done|].
  destruct (f s a) as [s2|e2] eqn:Ea; simpl in H.
  - replace (pre ++ a :: l) with ((pre ++ [a]) ++ l) in * by by rewrite <- app_assoc.
    apply (IH _ s2); [done| |done]. apply (Hf _ _ s); [by apply prefix_app_r | done..].
  - injection H as ->. by exists pre, a, l, s.
Qed.

(** What the loop over the named entries has done. *)
Definition assigned_inv (groups : list request_group) (pre : list request_entry) (st : list Z * list bool) : Prop :=
  length st.1 = length groups /\ length st.2 = length groups /\
  (forall k e, pre !! k = Some e -> exists i, matches groups (group e) = [i] /\
     st.2 !! i = Some true /\ st.1 !! i = Some (tokens e)) /\
  (forall i, st.2 !! i = Some true -> exists k e, pre !! k = Some e /\ matches groups (group e) = [i]) /\
  (forall k k' e e' i, pre !! k = Some e -> pre !! k' = Some e' ->
     matches groups (group e) = [i] -> matches groups (group e') = [i] -> k = k').

Lemma matches_bound groups name i : i ∈ matches groups name -> (i < length groups)%nat.
Proof. intros [_ Hi%elem_of_seq]%list_elem_of_filter. lia. Qed.

Lemma assign_ok groups pre e st st' :
  assigned_inv groups pre st -> assign groups st e = Ok st' -> assigned_inv groups (pre ++ [e]) st'.
Proof.
  destruct st as [raw asg]. intros (Hl1 & Hl2 & He & Ha & Hd) H. cbn [fst snd] in *. unfold assign in H.
  destruct (matches groups (group e)) as [|i [|]] eqn:Em; try done.
  pose proof (matches_bound groups (group e) i ltac:(rewrite Em; left)) as Hi.
  destruct (asg !! i) as [b|] eqn:Eb; [|apply lookup_ge_None in Eb; lia]. destruct b; [done|].
  injection H as <-. unfold assigned_inv. cbn [fst snd]. rewrite !length_insert.
  assert (forall k e' j, (pre ++ [e]) !! k = Some e' -> matches groups (group e') = [j] ->
    (pre !! k = Some e' /\ j <> i /\ asg !! j = Some true /\ raw !! j = Some (tokens e')) \/
    (k = length pre /\ e' = e /\ j = i)) as Hcase.
  { intros k e' j [Hk|[Hge Hk]]%lookup_app_Some Hm.
    - left. destruct (He k e' Hk) as (j' & Hm' & Hj1 & Hj2). rewrite Hm in Hm'. injection Hm' as <-.
      split_and!; try done. congruence.
    - apply list_lookup_singleton_Some in Hk as [Hk ->]. right. rewrite Em in Hm. injection Hm as <-.
      split_and!; [lia | done..]. }
  split_and!; [done | done | | |].
  - intros k e' Hk. assert (exists j, matches groups (group e') = [j]) as [j Hj].
    { apply lookup_app_Some in Hk as [Hk|[_ [_ <-]%list_lookup_singleton_Some]]; [|by exists i].
      destruct (He k e' Hk) as (j & ? & _). by exists j. }
    exists j. split; [done|]. destruct (Hcase k e' j Hk Hj) as [(_ & Hne & H1 & H2)|(_ & -> & ->)].
    + by rewrite !list_lookup_insert_ne.
    + by rewrite !list_lookup_insert_eq by lia.
  - intros j Hj. destruct (decide (j = i)) as [->|Hne].
    + exists (length pre), e. by rewrite list_lookup_middle.
    + rewrite list_lookup_insert_ne in Hj by done. destruct (Ha j Hj) as (k & e' & Hk & Hm).
      exists k, e'. split; [by apply lookup_app_l_Some | done].
  - intros k k' e1 e2 j Hk Hk' Hm Hm'.
    destruct (Hcase k e1 j Hk Hm) as [(H1 & Hj & _)|(-> & _ & Hj)],
      (Hcase k' e2 j Hk' Hm') as [(H2 & Hj' & _)|(-> & _ & Hj')]; try done. by eapply Hd.
Qed.

Lemma assigned_inv_start groups :
  assigned_inv groups [] (replicate (length groups) 0, replicate (length groups) false).
Proof.
  split_and!; cbn [fst snd]; try apply length_replicate; try done.
  intros i [? _]%lookup_replicate. done.
Qed.

(** A failed step names what is wrong with the entry. *)
Lemma assign_refused r groups pre e post st err :
  mode r = NAMED -> entries r = pre ++ e :: post -> assigned_inv groups pre st ->
  assign groups st e = Error err -> refused r groups err.
Proof.
  intros Hmode Hr. destruct st as [raw asg]. intros (Hl1 & Hl2 & He & Ha & Hd) H. cbn [fst snd] in *. unfold assign in H.
  assert (group e ∈ group <$> entries r) as Hin.
  { apply list_elem_of_fmap. exists e. split; [done|]. rewrite Hr. set_solver. }
  destruct (matches groups (group e)) as [|i [|j l]] eqn:Em.
  - injection H as <-. split_and!; [done..|]. intros i. rewrite <- matches_spec, Em. set_solver.
  - destruct (asg !! i) as [[]|] eqn:Eb; cbn in H; try done. injection H as <-. split; [done|].
    destruct (Ha i Eb) as (k & e' & Hk & Hm).
    pose proof (matches_bound groups (group e) i ltac:(rewrite Em; left)) as [g Hg]%lookup_lt_is_Some.
    exists k, (length pre), e', e, i, g. rewrite Hr. split_and!; [| |by rewrite list_lookup_middle|..]; try done.
    + apply lookup_lt_Some in Hk. lia.
    + by apply lookup_app_l_Some.
    + by apply (proj1 (matches_one groups (group e') i) Hm).
    + by apply (proj1 (matches_one groups (group e) i) Em).
    + by rewrite Hg.
  - injection H as <-. split_and!; [done..|]. exists i, j. rewrite <- !matches_spec, Em.
    assert (NoDup (matches groups (group e))) as Hn by (apply NoDup_filter, NoDup_seq).
    rewrite Em in Hn. apply NoDup_cons in Hn as [Hn _]. split_and!; set_solver.
Qed.

Lemma raw_tokens_ok r groups raw : raw_tokens r groups = Ok raw ->
  length raw = length groups /\ resolvable r groups /\ forall i x, raw !! i = Some x -> says r groups i x.
Proof.
  unfold raw_tokens, says, resolvable. destruct (mode r); intros H.
  - injection H as <-. rewrite length_replicate. split_and!; [done..|]. by intros i x [-> _]%lookup_replicate.
  - destruct (entries r) as [|e [|]] eqn:E; try done. injection H as <-. rewrite length_replicate. split_and!; [done..|].
    intros i x [-> _]%lookup_replicate. by exists e.
  - injection H as <-. rewrite length_replicate. split_and!; [done..|]. by intros i x [-> _]%lookup_replicate.
  - destruct (Nat.eqb_spec (length (entries r)) (length groups)) as [Hl|]; [|done]. injection H as <-.
    rewrite length_fmap. split_and!; [done..|]. intros i x (e & -> & He)%list_lookup_fmap_Some. by exists e.
  - apply bind_Ok in H as ([raw' asg] & Hf & H). cbn [fst snd] in H.
    destruct (existsb negb asg) eqn:Ex; [done|]. injection H as <-.
    assert (assigned_inv groups (entries r) (raw', asg)) as (Hl1 & Hl2 & He & Ha & Hd).
    { refine (foldM_ok_inv (assigned_inv groups) _ _ _ _ _ (assigned_inv_start groups) Hf).
      intros pre e s1 s2 _. apply assign_ok. }
    cbn [fst snd] in *. assert (forall i, (i < length groups)%nat -> asg !! i = Some true) as Hall.
    { intros i [[] Hb]%(eq_ind_r (fun n => (i < n)%nat -> is_Some (asg !! i)) (proj2 (lookup_lt_is_Some asg i)) (eq_sym Hl2));
        [done|]. assert (existsb negb asg = true); [|congruence]. apply existsb_exists. exists false.
      split; [|done]. apply list_elem_of_In. by eapply list_elem_of_lookup_2. }
    assert (forall e, e ∈ entries r -> exists i, (forall j, stands_for groups (group e) j <-> j = i) /\ raw' !! i = Some (tokens e)) as Hone.
    { intros e [k Hk]%list_elem_of_lookup_1. destruct (He k e Hk) as (i & Hm & _ & Hr). exists i. by rewrite <- matches_one. }
    assert (forall i, (i < length groups)%nat -> exists e, e ∈ entries r /\ stands_for groups (group e) i) as Hcov.
    { intros i Hi. destruct (Ha i (Hall i Hi)) as (k & e & Hk%list_elem_of_lookup_2 & Hm). exists e. split; [done|].
      by apply (proj1 (matches_one _ _ _) Hm). }
    split_and!; [done | | |done|].
    + intros e Hin. destruct (Hone e Hin) as (i & Hi & _). by exists i.
    + intros k k' e e' i Hk Hk' Hs Hs'. destruct (He k e Hk) as (j & Hj & _), (He k' e' Hk') as (j' & Hj' & _).
      pose proof (proj1 (proj1 (matches_one _ _ _) Hj i) Hs). pose proof (proj1 (proj1 (matches_one _ _ _) Hj' i) Hs'). subst j j'.
      by eapply Hd.
    + intros i x Hx.
      assert (forall e, e ∈ entries r -> stands_for groups (group e) i -> x = tokens e) as Hu.
      { intros e Hin Hs. destruct (Hone e Hin) as (j & Hj & Hr). apply Hj in Hs as ->. congruence. }
      split; [|done]. destruct (Hcov i) as (e & Hin & Hs); [apply lookup_lt_Some in Hx; lia|].
      exists e. split_and!; [done | done | auto].
Qed.

Lemma raw_tokens_refused r groups err : raw_tokens r groups = Error err -> refused r groups err.
Proof.
  unfold raw_tokens. destruct (mode r) eqn:Em; intros H; try done.
  - destruct (entries r) as [|e [|]] eqn:E; try done; injection H as <-; cbn; by rewrite E.
  - destruct (Nat.eqb_spec (length (entries r)) (length groups)) as [|Hl]; [done|]. injection H as <-. by cbn.
  - destruct (foldM _ _ _) as [[raw asg]|e] eqn:Ef; cbn in H.
    + destruct (existsb negb asg) eqn:Ex; [|done]. injection H as <-. split; [done|].
      assert (assigned_inv groups (entries r) (raw, asg)) as (Hl1 & Hl2 & He & Ha & Hd).
      { refine (foldM_ok_inv (assigned_inv groups) _ _ _ _ _ (assigned_inv_start groups) Ef).
        intros pre e s1 s2 _. apply assign_ok. }
      cbn [fst snd] in *. apply existsb_exists in Ex as ([] & Hin & Hb); [done|].
      apply list_elem_of_In, list_elem_of_lookup_1 in Hin as [i Hi]. exists i.
      split; [apply lookup_lt_Some in Hi; lia|]. intros e [k Hk]%list_elem_of_lookup_1 Hs.
      destruct (He k e Hk) as (j & Hm & Ht & _). apply (proj1 (matches_one _ _ _) Hm) in Hs as ->. congruence.
    + injection H as ->. apply (foldM_error_inv (assigned_inv groups)) in Ef as (pre & x & post & st & Hr & Hinv & Hs).
      * by eapply assign_refused.
      * intros pre x s1 s2 _. apply assign_ok.
      * apply assigned_inv_start.
Qed.

(** The tail of a group: for the quantised cache the number asked for, rounded up to
    whole groups of 128, at least one group and at most the window. *)
Definition tail_ok (kvarn : bool) (g : request_group) (x : group_resolution) : Prop :=
  let window := effective_window g in
  if kvarn then
    (exists rounded, (128 | rounded) /\ raw_requested_tokens x <= rounded < raw_requested_tokens x + 128 /\
       effective_tokens x = Z.min (Z.max 128 rounded) window) /\
    requested_tokens x = effective_tokens x /\
    native_exact x = (effective_tokens x =? window)
  else
    requested_tokens x = raw_requested_tokens x /\ native_exact x = false /\
    effective_tokens x = (if applicable_standard_kv g then Z.min (raw_requested_tokens x) window else 0).

Lemma round_up_128 raw : in_u32 raw ->
  let rounded := if raw =? 0 then 0 else u64 (u64 (raw + 128 - 1) / 128 * 128) in
  (128 | rounded) /\ raw <= rounded < raw + 128.
Proof.
  intros Hr. cbv zeta. unfold in_u32, UINT32_MAX in Hr.
  destruct (Z.eqb_spec raw 0) as [->|]; [split; [by exists 0 | lia]|].
  pose proof (Z.div_mod (raw + 128 - 1) 128 ltac:(lia)). pose proof (Z.mod_pos_bound (raw + 128 - 1) 128).
  rewrite (u64_small (raw + 128 - 1)) by lia.
  assert (0 <= (raw + 128 - 1) / 128) by (apply Z.div_pos; lia).
  rewrite u64_small by lia. split; [by exists ((raw + 128 - 1) / 128) | lia].
Qed.

Lemma resolve_group_ok kvarn ty g raw : in_u32 raw -> in_u32 (effective_window g) ->
  tail_ok kvarn g (resolve_group kvarn ty g raw).
Proof.
  unfold tail_ok, resolve_group. set (w := effective_window g). intros Hr Hw.
  destruct kvarn; cbn; [|done]. unfold llama_kvarn_tail_policy_for. pose proof (round_up_128 raw Hr) as Hround.
  cbv zeta in *. set (rounded := if raw =? 0 then 0 else _) in *. destruct Hround as [Hd Hb].
  unfold in_u32, UINT32_MAX in *. destruct (Z.eqb_spec w 0) as [->|Hw0]; cbn.
  { split_and!; [|done..]. exists rounded. split_and!; [done | lia..]. }
  rewrite (u32_small (Z.min rounded w)) by lia.
  split_and!; [|done..]. exists rounded. split_and!; [done | lia..].
Qed.

(** C30: A request resolves exactly when it was read without an error and fits the
    groups ([resolvable]); an error is that of the request, or says what is wrong
    with it ([refused]). The result has one resolution for each group, in order and
    with its names and the type asked for (or the default of the cache), whose raw
    number is the one the request says for that group: for names, that of the only
    entry that stands for it. Without the quantised cache the tail is that number
    cut to the window, or nothing where it does not apply; with it the tail is that
    number rounded up to the next multiple of 128, at least 128 and at most the
    window. *)
Theorem tail_request_resolved r groups kvarn :
  Forall (fun e => in_u32 (tokens e)) (entries r) -> Forall (fun g => in_u32 (effective_window g)) groups ->
  match llama_kv_tail_request_resolve r groups kvarn with
  | Ok rs =>
      error r = None /\ resolvable r groups /\
      length rs = length groups /\ forall i g x, groups !! i = Some g -> rs !! i = Some x ->
        rid x = id g /\ rrole x = grole g /\
        rtype x = (if exact_type r =? GGML_TYPE_COUNT then if kvarn then GGML_TYPE_F16 else GGML_TYPE_BF16
                   else exact_type r) /\
        says r groups i (raw_requested_tokens x) /\ tail_ok kvarn g x
  | Error err => error r = Some err \/ (error r = None /\ refused r groups err /\ ~ resolvable r groups)
  end.
Proof.
  intros He Hg. unfold llama_kv_tail_request_resolve. destruct (error r) as [e|] eqn:Eerr; [by left|].
  destruct (raw_tokens r groups) as [raw|err] eqn:Hraw; cbn.
  2: { right. apply raw_tokens_refused in Hraw. split_and!; [done..|]. by eapply refused_not_resolvable. }
  destruct (raw_tokens_ok r groups raw Hraw) as (Hl & Hres & Hsays). rewrite length_zip_with, Hl, Nat.min_id.
  split_and!; [done..|]. intros i g x Hi Hx. apply lookup_zip_with_Some in Hx as (g' & n & -> & Hg' & Hn).
  rewrite Hi in Hg'. injection Hg' as <-. pose proof (Hsays i n Hn) as Hs.
  assert (raw_requested_tokens (resolve_group kvarn (if negb (exact_type r =? GGML_TYPE_COUNT) then exact_type r
    else if kvarn then GGML_TYPE_F16 else GGML_TYPE_BF16) g n) = n) as En by by destruct kvarn.
  split_and!; [by destruct kvarn | by destruct kvarn | | by rewrite En |].
  - destruct (exact_type r =? GGML_TYPE_COUNT), kvarn; done.
  - rewrite Forall_forall in He. rewrite Forall_forall in Hg. apply resolve_group_ok; [|apply Hg; by eapply list_elem_of_lookup_2].
    clear - Hs He. unfold says in Hs. destruct (mode r).
    + subst n. done.
    + destruct Hs as (e & E & ->). apply He. rewrite E. left.
    + subst n. done.
    + destruct Hs as (e & E & ->). apply He. by eapply list_elem_of_lookup_2.
    + destruct Hs as [(e & Hin & _ & ->) _]. by apply He.
Qed.

(** Two names that swap the order of the groups; 200 tokens are rounded up to 256,
    128 are left, and 512 are cut to the window. *)
Lemma tail_request_resolved_witness :
  let r := Request NAMED GGML_TYPE_COUNT [Entry (str "swa") 512; Entry (str "full") 200; Entry (str "c") 128] None in
  let gs := [Group (str "a") (str "full") 4096 true; Group (str "b") (str "swa") 300 true; Group (str "c") (str "x") 4096 true] in
  resolvable r gs /\ exists rs, llama_kv_tail_request_resolve r gs true = Ok rs /\
    effective_tokens <$> rs = [256; 300; 128].
Proof.
  intros r gs.
  pose proof (tail_request_resolved r gs true
    ltac:(repeat (apply Forall_cons; split; [unfold in_u32, UINT32_MAX; cbn; lia|]); constructor)
    ltac:(repeat (apply Forall_cons; split; [unfold in_u32, UINT32_MAX; cbn; lia|]); constructor)) as H.
  destruct (llama_kv_tail_request_resolve r gs true) as [rs|e] eqn:E; [|vm_compute in E; discriminate E].
  destruct H as (_ & Hr & _). split; [exact Hr|]. exists rs. split; [reflexivity|].
  vm_compute in E. injection E as <-. reflexivity.
Defined.

End KvTail.
