(* ===== verification/KvTailStore.v ===== *)
(** The store of the exact tail (src/src/llama-kv-cache-tail.cpp, class
    [llama_kv_tail_store]): which tokens of each sequence are kept in full precision, and
    in which slots.  It assigns the slots; the payload is elsewhere.

    A sequence's [std::list] of entries is a list of named nodes, so that the iterators
    kept in [entry_by_cell] are names, which stay valid when the list is sorted and dangle
    when their node is erased.  The vectors indexed by sequence are one list of records
    [arena].  What a store holds after an exception is not modelled. *)

From S2P Require Import Prelude.
From S2P Require Import StableSort.

Module KvTailStore.

(** ** Data *)

(** The exceptions, by class; a failed assertion, a dangling iterator, an index out of
    range or a signed overflow is [Undefined]. *)
Inductive tail_error :=
| Undefined
| Exhausted
| LogicError
| RuntimeError
| InvalidArgument
| OverflowError
| OutOfRange.

#[export] Instance tail_undef : Undef tail_error := Undefined.

Abbreviation R := (result tail_error).

Definition LLAMA_KV_TAIL_BODY_SLOT : Z := -1.

Definition LLAMA_KV_TAIL_DEGRADED_BODY_ONLY_STATE : Z := 1.
Definition LLAMA_KV_TAIL_DEGRADED_HISTORICAL_OP : Z := 2.
Definition LLAMA_KV_TAIL_DEGRADED_STATE_RESTORE : Z := 4.
Definition LLAMA_KV_TAIL_DEGRADED_PAYLOAD_INVALID : Z := 8.

Record llama_kv_tail_identity := mk_id { stream : Z; cell : Z; generation : Z }.

#[export] Instance identity_eq_dec : EqDecision llama_kv_tail_identity.
Proof. solve_decision. Defined.

Record exact_entry := mk_entry {
  identity : llama_kv_tail_identity;
  position : Z;
  insertion_ordinal : Z;
  slot : Z;
}.

#[export] Instance exact_entry_eq_dec : EqDecision exact_entry.
Proof. solve_decision. Defined.

(** A node of the list of entries, with its name. *)
Abbreviation node := (nat * exact_entry)%type.

(** What the store holds for one sequence. *)
Record arena := mk_arena {
  entries : list node;
  entry_by_cell : gmap Z nat;
  slot_used : list bool;
  write_cursor : Z;
  degradation : Z;
  recovery_commits : Z;
}.

Record slot_copy := mk_copy { src_slot : Z; dst_slot : Z }.

Record pending_seq_cp_state := mk_pending {
  p_src : Z;
  p_dst : Z;
  destination : list exact_entry;
  copies : list slot_copy;
  acquired_slots : list Z;
  p_degradation : Z;
  p_recovery : Z;
}.

Record batch_transaction_state := mk_transaction {
  saved : list arena;
  current : list (list exact_entry);
  affected : list bool;
}.

Record tail_store := mk_store {
  n_tokens : Z;
  rollback_tokens : Z;
  history_limit : Z;
  arena_stride : Z;
  n_slots : Z;
  compact_storage : bool;
  arenas : list arena;
  pending_seq_cp : option pending_seq_cp_state;
  batch_transaction : option batch_transaction_state;
  in_batch : bool;
}.

Definition with_arenas (t : tail_store) (l : list arena) : tail_store :=
  mk_store (n_tokens t) (rollback_tokens t) (history_limit t) (arena_stride t) (n_slots t)
    (compact_storage t) l (pending_seq_cp t) (batch_transaction t) (in_batch t).
Definition with_pending (t : tail_store) (p : option pending_seq_cp_state) : tail_store :=
  mk_store (n_tokens t) (rollback_tokens t) (history_limit t) (arena_stride t) (n_slots t)
    (compact_storage t) (arenas t) p (batch_transaction t) (in_batch t).
Definition with_batch (t : tail_store) (b : option batch_transaction_state) (i : bool) : tail_store :=
  mk_store (n_tokens t) (rollback_tokens t) (history_limit t) (arena_stride t) (n_slots t)
    (compact_storage t) (arenas t) (pending_seq_cp t) b i.

Definition with_entries (a : arena) (l : list node) : arena :=
  mk_arena l (entry_by_cell a) (slot_used a) (write_cursor a) (degradation a) (recovery_commits a).
Definition with_index (a : arena) (m : gmap Z nat) : arena :=
  mk_arena (entries a) m (slot_used a) (write_cursor a) (degradation a) (recovery_commits a).
Definition with_slots (a : arena) (u : list bool) (c : Z) : arena :=
  mk_arena (entries a) (entry_by_cell a) u c (degradation a) (recovery_commits a).
Definition with_flags (a : arena) (d r : Z) : arena :=
  mk_arena (entries a) (entry_by_cell a) (slot_used a) (write_cursor a) d r.

Definition set_arena (t : tail_store) (s : Z) (a : arena) : tail_store :=
  with_arenas t (<[Z.to_nat s := a]> (arenas t)).

Definition no_entries (stride : Z) : arena :=
  mk_arena [] ∅ (replicate (Z.to_nat stride) false) 0 0 0.

(** ** Construction *)

Definition INT32_MAX : Z := 2 ^ 31 - 1.

Definition checked_tail_slot_count (arena_stride n_seq_max sink_slots : Z) : R Z :=
  let total := u64 (u64 (arena_stride * n_seq_max) + sink_slots) in
  _ ← ensure (total <=? INT32_MAX) OverflowError; Ok total.

Definition checked_tail_history_limit (n_tokens rollback_tokens : Z) : R Z :=
  let total := n_tokens + rollback_tokens in
  _ ← ensure (total <=? UINT32_MAX) OverflowError; Ok total.

Definition new_store (n_tokens n_seq_max arena_stride sink_slots : Z) : R tail_store :=
  n ← checked_tail_slot_count arena_stride n_seq_max sink_slots;
  _ ← ensure (negb ((0 <? n_tokens) && (arena_stride <? n_tokens))) InvalidArgument;
  Ok (mk_store n_tokens 0 n_tokens arena_stride n false
        (replicate (Z.to_nat n_seq_max) (no_entries arena_stride)) None None false).

Definition new_compact_store (n_tokens rollback n_seq_max history_stride sink_slots : Z) : R tail_store :=
  limit ← checked_tail_history_limit n_tokens rollback;
  n ← checked_tail_slot_count history_stride n_seq_max sink_slots;
  _ ← ensure (limit <=? history_stride) InvalidArgument;
  Ok (mk_store n_tokens rollback limit history_stride n true
        (replicate (Z.to_nat n_seq_max) (no_entries history_stride)) None None false).

(** The constructor that divides the slots among the sequences. *)
Definition new_test_store (n_tokens n_seq_max n_slots : Z) : R tail_store :=
  t ← (if n_seq_max =? 0 then new_store n_tokens n_seq_max 0 n_slots
       else new_store n_tokens n_seq_max (n_slots / n_seq_max) (n_slots mod n_seq_max));
  _ ← ensure (negb (n_seq_max =? 0) && (n_slots mod n_seq_max =? 0)) InvalidArgument;
  Ok t.

(** ** Slots *)

Definition valid_seq (t : tail_store) (s : Z) : bool :=
  (0 <=? s) && (s <? Z.of_nat (length (arenas t))).

(** [uint32_t(seq_id)*arena_stride]. *)
Definition base_of (t : tail_store) (s : Z) : Z := u32 (u32 s * arena_stride t).

Fixpoint acquire_from (t : tail_store) (s : Z) (a : arena) (offsets : list Z) : R (Z * arena) :=
  match offsets with
  | [] => Error Exhausted
  | offset :: offsets =>
      let local := u32 (write_cursor a + offset) mod arena_stride t in
      b ← at_ (slot_used a) (Z.to_nat local);
      if b : bool then acquire_from t s a offsets
      else Ok (i32 (u32 (base_of t s + local)),
               with_slots a (<[Z.to_nat local := true]> (slot_used a)) (u32 (local + 1) mod arena_stride t))
  end.

Definition acquire (t : tail_store) (s : Z) (a : arena) : R (Z * arena) :=
  acquire_from t s a (seqZ 0 (arena_stride t)).

(** The callers pass a sequence of the store. *)
Definition release (t : tail_store) (s sl : Z) (a : arena) : R arena :=
  if sl <? 0 then Ok a else
  let base := base_of t s in
  _ ← ensure ((base <=? sl) && (sl <? u32 (base + arena_stride t))) Undefined;
  _ ← at_ (slot_used a) (Z.to_nat (sl - base));
  Ok (with_slots a (<[Z.to_nat (sl - base) := false]> (slot_used a)) (write_cursor a)).

(** ** The index by cell *)

Definition cell_key (st c : Z) : Z := Z.lor (u64 (Z.shiftl st 32)) c.

Definition key (e : exact_entry) : Z := cell_key (stream (identity e)) (cell (identity e)).

(** The entry an iterator points to. *)
Definition entry_at (a : arena) (n : nat) : R exact_entry :=
  deref (snd <$> list_find (fun x : node => x.1 = n) (entries a) ≫= fun r => Some r.2).

Definition rebuild_index (a : arena) : R arena :=
  m ← foldM (fun (m : gmap Z nat) (x : node) =>
        match m !! key x.2 with
        | Some _ => Error LogicError
        | None => Ok (<[key x.2 := x.1]> m)
        end) ∅ (entries a);
  Ok (with_index a m).

Definition erase_entry (t : tail_store) (s : Z) (n : nat) (release_slot : bool) (a : arena) : R arena :=
  e ← entry_at a n;
  a ← (if release_slot then release t s (slot e) a else Ok a);
  let a := with_index a (delete (key e) (entry_by_cell a)) in
  Ok (with_entries a (filter (fun x : node => x.1 <> n) (entries a))).

(** Drop the first entries until at most [limit] are left. *)
Fixpoint trim_nodes (t : tail_store) (s limit : Z) (l : list node) (a : arena) : R arena :=
  if Z.of_nat (length l) <=? limit then Ok (with_entries a l) else
  match l with
  | [] => Ok (with_entries a l)
  | x :: l =>
      a ← release t s (slot x.2) (with_index a (delete (key x.2) (entry_by_cell a)));
      trim_nodes t s limit l a
  end.

Definition trim (t : tail_store) (s limit : Z) (a : arena) : R arena :=
  trim_nodes t s limit (entries a) a.

(** ** Order of the entries *)

Definition entry_lt (a b : exact_entry) : bool :=
  (position a <? position b) ||
  ((position a =? position b) && (insertion_ordinal a <? insertion_ordinal b)).

Definition node_lt (x y : node) : bool := entry_lt x.2 y.2.

(** A name that no node has. *)
Definition new_name (l : list node) : nat := S (foldr Nat.max 0%nat (fst <$> l)).

(** Put a new entry after those that are not greater; the usual place is the end. *)
Definition place (x : node) (l : list node) : list node :=
  if match last l with None => true | Some b => negb (node_lt x b) end then l ++ [x]
  else insert_sorted node_lt x l.

(** ** Committing a token *)

Definition retained_limit (t : tail_store) : Z :=
  if compact_storage t then history_limit t else n_tokens t.

Definition has_row (row : Z) : bool := negb (row =? UINT32_MAX).

(** The slot of the entry if it is still there; in a transaction the row of the ubatch
    becomes a source, too. *)
Definition finish_commit (t : tail_store) (s : Z) (id : llama_kv_tail_identity) (p ord row : Z) (a : arena)
    : R (tail_store * Z) :=
  res ← match entry_by_cell a !! cell_key (stream id) (cell id) with
        | None => Ok LLAMA_KV_TAIL_BODY_SLOT
        | Some n => e ← entry_at a n;
                    Ok (if decide (identity e = id) then slot e else LLAMA_KV_TAIL_BODY_SLOT)
        end;
  let t := set_arena t s a in
  match batch_transaction t with
  | Some b =>
      if has_row row && (0 <=? res) then
        let virtual_slot := u64 (n_slots t + row) in
        _ ← ensure (virtual_slot <=? INT32_MAX) OverflowError;
        cur ← at_ (current b) (Z.to_nat s);
        _ ← at_ (affected b) (Z.to_nat s);
        Ok (with_batch t (Some (mk_transaction (saved b)
              (<[Z.to_nat s := cur ++ [mk_entry id p ord virtual_slot]]> (current b))
              (<[Z.to_nat s := true]> (affected b)))) (in_batch t), res)
      else Ok (t, res)
  | None => Ok (t, res)
  end.

(** The same identity again: only its position and ordinal change. *)
Definition commit_again (t : tail_store) (s : Z) (n : nat) (p ord : Z) (a : arena) : R arena :=
  let upd (x : node) : node :=
    if decide (x.1 = n) then (x.1, mk_entry (identity x.2) p ord (slot x.2)) else x in
  trim t s (retained_limit t) (with_entries a (stable_sort node_lt (upd <$> entries a))).

(** The slot of a new entry: that of the oldest one, which is evicted, or a free one. *)
Definition commit_slot (t : tail_store) (s : Z) (a : arena) : R (Z * arena) :=
  if (compact_storage t || negb (in_batch t)) && (retained_limit t <=? Z.of_nat (length (entries a))) then
    match entries a with
    | [] => acquire t s a
    | victim :: _ => a ← erase_entry t s victim.1 false a; Ok (slot victim.2, a)
    end
  else acquire t s a.

(** Enough commits after a degradation make the tail exact again. *)
Definition count_recovery (t : tail_store) (a : arena) : arena :=
  if degradation a =? 0 then a else
  let r := u32 (recovery_commits a + 1) in
  if n_tokens t <=? r then with_flags a 0 0 else with_flags a (degradation a) r.

Definition commit_new (t : tail_store) (s : Z) (id : llama_kv_tail_identity) (p ord : Z) (a : arena) : R arena :=
  r ← commit_slot t s a;
  let x := (new_name (entries r.2), mk_entry id p ord r.1) in
  let a := with_index (with_entries r.2 (place x (entries r.2)))
             (<[key x.2 := x.1]> (entry_by_cell r.2)) in
  let a := count_recovery t a in
  if in_batch t then Ok a else trim t s (retained_limit t) a.

Definition commit_entry (t : tail_store) (s : Z) (id : llama_kv_tail_identity) (p ord : Z) (a : arena) : R arena :=
  match entry_by_cell a !! cell_key (stream id) (cell id) with
  | None => commit_new t s id p ord a
  | Some n =>
      e ← entry_at a n;
      if decide (identity e = id) then commit_again t s n p ord a
      else a ← erase_entry t s n true a; commit_new t s id p ord a
  end.

Definition commit (t : tail_store) (s : Z) (id : llama_kv_tail_identity) (p ord row : Z) : R (tail_store * Z) :=
  if negb (valid_seq t s) || (n_tokens t =? 0) then Ok (t, LLAMA_KV_TAIL_BODY_SLOT) else
  a ← at_ (arenas t) (Z.to_nat s);
  a ← commit_entry t s id p ord a;
  finish_commit t s id p ord row a.

(** ** Removing and changing entries *)

(** A loop over all sequences of the store. *)
Fixpoint for_arenas_from {A B} (s : Z) (f : Z -> A -> R B) (l : list A) : R (list B) :=
  match l with
  | [] => Ok []
  | a :: l => b ← f s a; k ← for_arenas_from (s + 1) f l; Ok (b :: k)
  end.

Definition for_arenas (t : tail_store) (f : Z -> arena -> R arena) : R tail_store :=
  l ← for_arenas_from 0 f (arenas t); Ok (with_arenas t l).

(** Erase the entries that satisfy a test and release their slots. *)
Definition erase_if (t : tail_store) (s : Z) (test : exact_entry -> bool) (a : arena) : R arena :=
  foldM (fun a (x : node) =>
    if test x.2 then
      a ← release t s (slot x.2) a;
      Ok (with_entries a (filter (fun y : node => y.1 <> x.1) (entries a)))
    else Ok a) a (entries a).

(** A cell is used again: the entries of its earlier generations go; the flag says that
    the sequence is affected. *)
Definition recycle_arena (t : tail_store) (st c next_generation : Z) (s : Z) (a : arena) : R (arena * bool) :=
  match entry_by_cell a !! cell_key st c with
  | None => Ok (a, false)
  | Some n =>
      e ← entry_at a n;
      if generation (identity e) =? next_generation then Ok (a, false)
      else a ← erase_entry t s n true a; Ok (a, true)
  end.

Definition recycle (t : tail_store) (st c next_generation : Z) : R tail_store :=
  l ← for_arenas_from 0 (recycle_arena t st c next_generation) (arenas t);
  let t := with_arenas t (fst <$> l) in
  match batch_transaction t with
  | None => Ok t
  | Some b =>
      _ ← ensure (length (affected b) =? length l)%nat Undefined;
      Ok (with_batch t (Some (mk_transaction (saved b) (current b)
            (zip_with orb (affected b) (snd <$> l)))) (in_batch t))
  end.

Definition or_flags (a : arena) (fl : Z) : arena := with_flags a (Z.lor (degradation a) fl) 0.

Definition mark_degraded (t : tail_store) (s fl : Z) : R tail_store :=
  if s <? 0 then
    let t := with_arenas t ((fun a => or_flags a fl) <$> arenas t) in
    Ok (with_pending t ((fun p => mk_pending (p_src p) (p_dst p) (destination p) (copies p) (acquired_slots p)
                                    (Z.lor (p_degradation p) fl) 0) <$> pending_seq_cp t))
  else if valid_seq t s then
    match pending_seq_cp t with
    | Some p =>
        if p_dst p =? s then
          Ok (with_pending t (Some (mk_pending (p_src p) (p_dst p) (destination p) (copies p)
                (acquired_slots p) (Z.lor (p_degradation p) fl) 0)))
        else a ← at_ (arenas t) (Z.to_nat s); Ok (set_arena t s (or_flags a fl))
    | None => a ← at_ (arenas t) (Z.to_nat s); Ok (set_arena t s (or_flags a fl))
    end
  else Ok t.

Definition invalidate_arena (t : tail_store) (slots : list Z) (fl s : Z) (a : arena) : R arena :=
  if existsb (fun e => bool_decide (slot e ∈ slots)) (entries a).*2 then
    a ← erase_if t s (fun e => bool_decide (slot e ∈ slots)) a;
    a ← rebuild_index a;
    Ok (or_flags a fl)
  else Ok a.

Definition invalidate_slots (t : tail_store) (slots : list Z) (fl : Z) : R tail_store :=
  for_arenas t (invalidate_arena t slots fl).

(** Positions from [p0] on, up to [p1] unless it is negative. *)
Definition in_positions (p0 p1 p : Z) : bool := (p0 <=? p) && ((p1 <? 0) || (p <? p1)).

Definition seq_rm_arena (t : tail_store) (p0 p1 s : Z) (a : arena) : R arena :=
  a ← erase_if t s (fun e => in_positions p0 p1 (position e)) a;
  a ← rebuild_index a;
  Ok (if (length (entries a) =? 0)%nat && (p0 <=? 0) && (p1 <? 0) then with_flags a 0 0 else a).

Definition seq_rm (t : tail_store) (s p0 p1 : Z) : R tail_store :=
  if negb (valid_seq t s) then Ok t else
  a ← at_ (arenas t) (Z.to_nat s);
  a ← seq_rm_arena t p0 p1 s a;
  Ok (set_arena t s a).

Definition seq_rm_cell (t : tail_store) (s st c : Z) : R tail_store :=
  if negb (valid_seq t s) then Ok t else
  a ← at_ (arenas t) (Z.to_nat s);
  a ← erase_if t s (fun e => (stream (identity e) =? st) && (cell (identity e) =? c)) a;
  a ← rebuild_index a;
  Ok (set_arena t s a).

Definition seq_keep (t : tail_store) (s : Z) : R tail_store :=
  for_arenas t (fun s' a => if s' =? s then Ok a else seq_rm_arena t 0 (-1) s' a).

(** *** Positions that move *)

Definition identities_in (p0 p1 : Z) (a : arena) : list llama_kv_tail_identity :=
  (fun x : node => identity x.2) <$> filter (fun x : node => in_positions p0 p1 (position x.2)) (entries a).

(** Move the entries with one of the identities; a position below zero erases. The flag
    says that there was one. *)
Definition move_step (t : tail_store) (s : Z) (ids : list llama_kv_tail_identity)
    (move : Z -> R Z) (erase_negative : bool) (st : arena * bool) (x : node) : R (arena * bool) :=
  if bool_decide (identity x.2 ∈ ids) then
    p ← move (position x.2);
    if erase_negative && (p <? 0) then
      a ← release t s (slot x.2) st.1;
      Ok (with_entries a (filter (fun y : node => y.1 <> x.1) (entries a)), true)
    else
      let e := mk_entry (identity x.2) p (insertion_ordinal x.2) (slot x.2) in
      Ok (with_entries st.1 ((fun y : node => if decide (y.1 = x.1) then (y.1, e) else y) <$> entries st.1), true)
  else Ok st.

Definition move_entries (t : tail_store) (s : Z) (ids : list llama_kv_tail_identity)
    (move : Z -> R Z) (erase_negative : bool) (a : arena) : R (arena * bool) :=
  foldM (move_step t s ids move erase_negative) (a, false) (entries a).

Definition move_arena (t : tail_store) (ids : list llama_kv_tail_identity) (move : Z -> R Z)
    (erase_negative degrade : bool) (s : Z) (a : arena) : R arena :=
  r ← move_entries t s ids move erase_negative a;
  if negb r.2 then Ok r.1 else
  a ← trim t s (retained_limit t) (with_entries r.1 (stable_sort node_lt (entries r.1)));
  a ← rebuild_index a;
  Ok (if degrade then or_flags a LLAMA_KV_TAIL_DEGRADED_HISTORICAL_OP else a).

Definition full_range (p0 p1 : Z) : bool := (p0 <=? 0) && (p1 <? 0).

Definition seq_add (t : tail_store) (s p0 p1 shift : Z) : R tail_store :=
  if negb (valid_seq t s) then Ok t else
  a ← at_ (arenas t) (Z.to_nat s);
  for_arenas t (move_arena t (identities_in p0 p1 a) (fun p => int_ (p + shift)) true
                  (negb (shift =? 0) && negb (full_range p0 p1))).

Definition seq_div (t : tail_store) (s p0 p1 divisor : Z) : R tail_store :=
  if negb (valid_seq t s) || (divisor =? 0) then Ok t else
  a ← at_ (arenas t) (Z.to_nat s);
  for_arenas t (move_arena t (identities_in p0 p1 a) (fun p => int_ (Z.quot p divisor)) false
                  (negb (divisor =? 1) && negb (full_range p0 p1))).

(** ** Copying a sequence *)

Definition retain_last {A} (limit : Z) (l : list A) : list A := drop (length l - Z.to_nat limit) l.

(** A candidate: the entry, the slot it comes from, and whether it is copied. *)
Record retained_candidate := mk_candidate { c_entry : exact_entry; c_src : Z; c_copied : bool }.

Definition candidate_lt (a b : retained_candidate) : bool := entry_lt (c_entry a) (c_entry b).

Definition source_entries (src : arena) (src_stream p0 p1 : Z) : list exact_entry :=
  filter (fun e => stream (identity e) = src_stream /\ in_positions p0 p1 (position e)) (entries src).*2.

Definition to_stream (st : Z) (e : exact_entry) : exact_entry :=
  mk_entry (mk_id st (cell (identity e)) (generation (identity e))) (position e) (insertion_ordinal e)
    LLAMA_KV_TAIL_BODY_SLOT.

Definition copy_candidates (src dst : arena) (src_stream dst_stream p0 p1 : Z) : list retained_candidate :=
  ((fun e => mk_candidate e (slot e) false) <$>
     filter (fun e => ~ in_positions p0 p1 (position e)) (entries dst).*2) ++
  ((fun e => mk_candidate (to_stream dst_stream e) (slot e) true) <$> source_entries src src_stream p0 p1).

(** Assign slots to the copied candidates: those no longer needed, from the last one
    on, then free ones. *)
Record copy_state := mk_copy_state {
  cs_arena : arena;
  cs_reusable : list Z;
  cs_destination : list exact_entry;
  cs_copies : list slot_copy;
  cs_acquired : list Z;
}.

Definition copy_step (t : tail_store) (dst : Z) (st : copy_state) (c : retained_candidate) : R copy_state :=
  if c_copied c then
    r ← match last (cs_reusable st) with
        | Some sl => Ok (sl, mk_copy_state (cs_arena st) (removelast (cs_reusable st)) (cs_destination st)
                               (cs_copies st) (cs_acquired st))
        | None => r ← acquire t dst (cs_arena st);
                  Ok (r.1, mk_copy_state r.2 [] (cs_destination st) (cs_copies st) (cs_acquired st ++ [r.1]))
        end;
    let e := mk_entry (identity (c_entry c)) (position (c_entry c)) (insertion_ordinal (c_entry c)) r.1 in
    Ok (mk_copy_state (cs_arena r.2) (cs_reusable r.2) (cs_destination r.2 ++ [e])
          (cs_copies r.2 ++ [mk_copy (c_src c) r.1]) (cs_acquired r.2))
  else Ok (mk_copy_state (cs_arena st) (cs_reusable st) (cs_destination st ++ [c_entry c]) (cs_copies st)
             (cs_acquired st)).

Definition prepare_seq_cp (t : tail_store) (src dst src_stream dst_stream p0 p1 : Z) : R (tail_store * list slot_copy) :=
  if negb (valid_seq t src) || negb (valid_seq t dst) || (src =? dst) then Ok (t, []) else
  _ ← ensure (match pending_seq_cp t with None => true | Some _ => false end) LogicError;
  a ← at_ (arenas t) (Z.to_nat src);
  b ← at_ (arenas t) (Z.to_nat dst);
  let chosen := retain_last (retained_limit t)
                  (stable_sort candidate_lt (copy_candidates a b src_stream dst_stream p0 p1)) in
  let survivors := (fun c => slot (c_entry c)) <$> filter (fun c => c_copied c = false) chosen in
  let reusable := filter (fun sl => sl ∉ survivors) ((fun x : node => slot x.2) <$> entries b) in
  st ← foldM (copy_step t dst) (mk_copy_state b reusable [] [] []) chosen;
  let d := Z.lor (degradation b) (degradation a) in
  let r := if d =? 0 then Z.min (recovery_commits b) (recovery_commits a) else 0 in
  Ok (with_pending (set_arena t dst (cs_arena st))
        (Some (mk_pending src dst (cs_destination st) (cs_copies st) (cs_acquired st) d r)),
      cs_copies st).

Definition release_all (t : tail_store) (s : Z) (a : arena) (slots : list Z) : R arena :=
  foldM (fun a sl => release t s sl a) a slots.

(** New nodes for a list of entries. *)
Definition as_nodes (l : list exact_entry) : list node := imap (fun i e => (i, e)) l.

Definition commit_seq_cp (t : tail_store) : R tail_store :=
  match pending_seq_cp t with
  | None => Ok t
  | Some p =>
      a ← at_ (arenas t) (Z.to_nat (p_dst p));
      let kept := slot <$> destination p in
      a ← release_all t (p_dst p) a (filter (fun sl => sl ∉ kept) ((fun x : node => slot x.2) <$> entries a));
      a ← rebuild_index (with_entries a (as_nodes (destination p)));
      Ok (with_pending (set_arena t (p_dst p) (with_flags a (p_degradation p) (p_recovery p))) None)
  end.

Definition cancel_seq_cp (t : tail_store) : R tail_store :=
  match pending_seq_cp t with
  | None => Ok t
  | Some p =>
      a ← at_ (arenas t) (Z.to_nat (p_dst p));
      a ← release_all t (p_dst p) a (acquired_slots p);
      Ok (with_pending (set_arena t (p_dst p) a) None)
  end.

Definition pending_seq_cp_destination (t : tail_store) : Z :=
  match pending_seq_cp t with Some p => p_dst p | None => -1 end.

Definition has_pending_seq_cp (t : tail_store) : bool :=
  match pending_seq_cp t with Some _ => true | None => false end.

Definition seq_cp_remap (t : tail_store) (src dst src_stream dst_stream p0 p1 : Z) : R (tail_store * list slot_copy) :=
  r ← prepare_seq_cp t src dst src_stream dst_stream p0 p1;
  t ← commit_seq_cp r.1;
  Ok (t, r.2).

Definition seq_cp (t : tail_store) (src dst p0 p1 : Z) : R tail_store :=
  if negb (valid_seq t src) || negb (valid_seq t dst) || (src =? dst) then Ok t else
  a ← at_ (arenas t) (Z.to_nat src);
  let st := match entries a with [] => 0 | x :: _ => stream (identity x.2) end in
  fst <$> seq_cp_remap t src dst st st p0 p1.

(** ** Batches *)

Definition clear (t : tail_store) : R tail_store :=
  t ← cancel_seq_cp t;
  Ok (with_batch (with_arenas t ((fun a => mk_arena [] ∅ (replicate (length (slot_used a)) false) 0 0 0) <$> arenas t))
        None false).

Definition has_batch_transaction (t : tail_store) : bool :=
  match batch_transaction t with Some _ => true | None => false end.

Definition begin_batch (t : tail_store) : R tail_store :=
  t ← (if compact_storage t then
         _ ← ensure (negb (has_batch_transaction t)) LogicError;
         Ok (with_batch t (Some (mk_transaction (arenas t) ((fun _ => []) <$> arenas t) ((fun _ => false) <$> arenas t)))
               (in_batch t))
       else Ok t);
  t ← for_arenas t (fun s a => trim t s (retained_limit t) a);
  Ok (with_batch t (batch_transaction t) true).

(** A sequence after a failed batch: its entries of before, unless their payload may
    have been overwritten. *)
Definition restore_arena (t : tail_store) (payload_may_be_modified : bool) (s : Z) (ab : arena * bool) : R arena :=
  a ← rebuild_index ab.1;
  if negb payload_may_be_modified || negb ab.2 then Ok a else
  a ← release_all t s a ((fun x : node => slot x.2) <$> entries a);
  Ok (or_flags (with_index (with_entries a []) ∅) LLAMA_KV_TAIL_DEGRADED_PAYLOAD_INVALID).

Definition finish_batch (t : tail_store) (success payload_may_be_modified : bool) : R tail_store :=
  if negb (compact_storage t) then Ok (with_batch t (batch_transaction t) false) else
  match batch_transaction t with
  | None => Ok t
  | Some b =>
      t ← (if success then Ok t else
             l ← for_arenas_from 0 (restore_arena t payload_may_be_modified) (zip (saved b) (affected b));
             Ok (with_arenas t l));
      Ok (with_batch t None false)
  end.

(** ** What the graph reads *)

Definition last_n {A} (n : nat) (l : list A) : list A := drop (length l - n) l.

(** For each visible identity the slot to read it from: exact for the newest of those
    the tail holds. *)
Definition build_source_plan (t : tail_store) (s : Z) (visible : list llama_kv_tail_identity) : R (list Z) :=
  let result := replicate (length visible) LLAMA_KV_TAIL_BODY_SLOT in
  if negb (valid_seq t s) || (n_tokens t =? 0) then Ok result else
  a ← at_ (arenas t) (Z.to_nat s);
  let find id := snd <$> list_find (fun e => identity e = id) (entries a).*2 in
  let candidates := omap (fun iv : nat * llama_kv_tail_identity =>
                            (fun e => (iv.1, e)) <$> find iv.2) (imap pair visible) in
  let sorted := stable_sort (fun x y : nat * exact_entry => entry_lt x.2 y.2) candidates in
  Ok (foldl (fun r (x : nat * exact_entry) => <[x.1 := slot x.2]> r) result
        (last_n (Z.to_nat (n_tokens t)) sorted)).

Inductive llama_kv_tail_coverage_state :=
| LLAMA_KV_TAIL_COVERAGE_NONE
| LLAMA_KV_TAIL_COVERAGE_PARTIAL
| LLAMA_KV_TAIL_COVERAGE_COMPLETE.

Record llama_kv_tail_coverage := mk_coverage {
  cov_state : llama_kv_tail_coverage_state;
  requested : Z;
  exact : Z;
  degradation_flags : Z;
}.

(** The copy that is pending for the sequence, if any. *)
Definition pending_for (t : tail_store) (s : Z) : option pending_seq_cp_state :=
  match pending_seq_cp t with
  | Some p => if p_dst p =? s then Some p else None
  | None => None
  end.

Definition coverage (t : tail_store) (s available : Z) : R llama_kv_tail_coverage :=
  ef ← (if negb (valid_seq t s) then Ok (0, 0) else
        match pending_for t s with
        | Some p => Ok (Z.of_nat (length (destination p)), p_degradation p)
        | None => a ← at_ (arenas t) (Z.to_nat s); Ok (Z.of_nat (length (entries a)), degradation a)
        end);
  let requested := Z.min (n_tokens t) available in
  let state := if ef.1 =? 0 then LLAMA_KV_TAIL_COVERAGE_NONE
               else if (requested <=? ef.1) && (ef.2 =? 0) then LLAMA_KV_TAIL_COVERAGE_COMPLETE
               else LLAMA_KV_TAIL_COVERAGE_PARTIAL in
  Ok (mk_coverage state requested (Z.min ef.1 requested) ef.2).

Definition supports_suffix_rollback (t : tail_store) (s n : Z) : bool :=
  compact_storage t && valid_seq t s && (n <=? rollback_tokens t).

Definition all_entries (t : tail_store) : list exact_entry := arenas t ≫= fun a => (entries a).*2.

(** For each slot the row of its cell in the body. *)
Definition body_indices (t : tail_store) (kv_size : Z) : R (list Z) :=
  foldM (fun r e =>
    let index := u64 (u64 (stream (identity e) * kv_size) + cell (identity e)) in
    _ ← ensure (index <=? INT32_MAX) OverflowError;
    _ ← ensure (0 <=? slot e) Undefined;
    _ ← at_ r (Z.to_nat (slot e));
    Ok (<[Z.to_nat (slot e) := index]> r))
    (replicate (Z.to_nat (n_slots t)) 0) (all_entries t).

Definition active_slots (t : tail_store) : list (Z * llama_kv_tail_identity) :=
  (fun e => (slot e, identity e)) <$> all_entries t.

(** An entry together with its sequence. *)
Abbreviation snapshot_entry := (Z * exact_entry)%type.

Definition source_candidates (t : tail_store) (s : Z) : R (list snapshot_entry) :=
  if negb (valid_seq t s) then Ok [] else
  match batch_transaction t with
  | None => a ← at_ (arenas t) (Z.to_nat s); Ok (pair s <$> (entries a).*2)
  | Some b =>
      a ← at_ (saved b) (Z.to_nat s);
      cur ← at_ (current b) (Z.to_nat s);
      let committed := last_n (Z.to_nat (n_tokens t)) (entries a).*2 in
      Ok (stable_sort (fun x y : snapshot_entry => entry_lt x.2 y.2) (pair s <$> committed ++ cur))
  end.

Record source_run := mk_run { exact_offset : Z; run_stream : Z; run_cell : Z; run_length : Z }.

(** Consecutive cells of one stream are one run. *)
Definition add_to_runs (st : list source_run * Z) (e : exact_entry) : list source_run * Z :=
  let id := identity e in
  match last st.1 with
  | Some r =>
      if (u32 (exact_offset r + run_length r) =? st.2) && (run_stream r =? stream id) &&
         (u32 (run_cell r + run_length r) =? cell id)
      then (removelast st.1 ++ [mk_run (exact_offset r) (run_stream r) (run_cell r) (u32 (run_length r + 1))],
            u32 (st.2 + 1))
      else (st.1 ++ [mk_run st.2 (stream id) (cell id) 1], u32 (st.2 + 1))
  | None => (st.1 ++ [mk_run st.2 (stream id) (cell id) 1], u32 (st.2 + 1))
  end.

Definition source_runs (t : tail_store) (s : Z) : R (list source_run) :=
  if negb (valid_seq t s) then Ok [] else
  a ← at_ (arenas t) (Z.to_nat s);
  Ok (foldl add_to_runs ([], 0) (entries a).*2).1.

(** ** State *)

Definition snapshot_arena (t : tail_store) (s : Z) (a : arena) : list snapshot_entry :=
  let ordered := match pending_for t s with Some p => destination p | None => (entries a).*2 end in
  pair s <$> last_n (Z.to_nat (retained_limit t)) ordered.

Definition snapshot (t : tail_store) (s : Z) : list snapshot_entry :=
  concat (imap (fun i a =>
    if (0 <=? s) && negb (Z.of_nat i =? s) then [] else snapshot_arena t (Z.of_nat i) a) (arenas t)).

Record tail_provenance := mk_provenance { pr_seq : Z; pr_flags : Z; pr_commits : Z }.

Definition provenance_of (t : tail_store) (s : Z) (a : arena) : tail_provenance :=
  match pending_for t s with
  | Some p => mk_provenance s (p_degradation p) (p_recovery p)
  | None => mk_provenance s (degradation a) (recovery_commits a)
  end.

Definition snapshot_provenance (t : tail_store) (s : Z) : list tail_provenance :=
  if 0 <=? s then
    match arenas t !! Z.to_nat s with Some a => [provenance_of t s a] | None => [] end
  else imap (fun i a => provenance_of t (Z.of_nat i) a) (arenas t).

Definition known_flags : Z :=
  Z.lor (Z.lor LLAMA_KV_TAIL_DEGRADED_BODY_ONLY_STATE LLAMA_KV_TAIL_DEGRADED_HISTORICAL_OP)
    LLAMA_KV_TAIL_DEGRADED_STATE_RESTORE.

Definition check_provenance (t : tail_store) (seen : list bool) (p : tail_provenance) : R (list bool) :=
  _ ← ensure (negb (negb (valid_seq t (pr_seq p)) || negb (Z.ldiff (pr_flags p) known_flags =? 0) ||
                    (n_tokens t <? pr_commits p) ||
                    ((pr_flags p =? 0) && negb (pr_commits p =? 0)))) RuntimeError;
  b ← at_ seen (Z.to_nat (pr_seq p));
  _ ← ensure (negb b) RuntimeError;
  Ok (<[Z.to_nat (pr_seq p) := true]> seen).

Definition set_provenance (t : tail_store) (s : Z) (p : tail_provenance) : R tail_store :=
  a ← at_ (arenas t) (Z.to_nat s);
  Ok (set_arena t s (with_flags a (pr_flags p) (pr_commits p))).

Definition restore_provenance (t : tail_store) (provenance : list tail_provenance) (dest : Z) : R tail_store :=
  _ ← foldM (check_provenance t) (replicate (length (arenas t)) false) provenance;
  if 0 <=? dest then
    _ ← ensure (valid_seq t dest && (length provenance =? 1)%nat) RuntimeError;
    p ← at_ provenance 0%nat;
    set_provenance t dest p
  else
    foldM (fun t p => set_provenance t (pr_seq p) p)
      (with_arenas t ((fun a => with_flags a 0 0) <$> arenas t)) provenance.

Definition same_shape (t u : tail_store) : bool :=
  (n_tokens t =? n_tokens u) && (rollback_tokens t =? rollback_tokens u) &&
  (history_limit t =? history_limit u) && (arena_stride t =? arena_stride u) && (n_slots t =? n_slots u) &&
  eqb (compact_storage t) (compact_storage u) && (length (arenas t) =? length (arenas u))%nat.

Definition idle (t : tail_store) : bool :=
  negb (in_batch t) && negb (has_pending_seq_cp t) && negb (has_batch_transaction t).

Definition clone_logical_state_from (t source : tail_store) : R tail_store :=
  _ ← ensure (same_shape t source) RuntimeError;
  _ ← ensure (idle source) RuntimeError;
  for_arenas (with_pending (with_batch (with_arenas t (arenas source)) None false) None)
    (fun _ a => rebuild_index a).

Definition clone_logical_state (t : tail_store) : R tail_store :=
  let n_seq_max := Z.of_nat (length (arenas t)) in
  let sink_slots := u32 (n_slots t - arena_stride t * n_seq_max) in
  u ← (if compact_storage t
       then new_compact_store (n_tokens t) (rollback_tokens t) n_seq_max (arena_stride t) sink_slots
       else new_store (n_tokens t) n_seq_max (arena_stride t) sink_slots);
  clone_logical_state_from u t.

Definition restore (t : tail_store) (s : Z) (id : llama_kv_tail_identity) (p ord local_slot : Z) : R (tail_store * Z) :=
  _ ← ensure (valid_seq t s && (local_slot <? arena_stride t) && idle t) InvalidArgument;
  a ← at_ (arenas t) (Z.to_nat s);
  u ← at_ (slot_used a) (Z.to_nat local_slot);
  let k := cell_key (stream id) (cell id) in
  _ ← ensure ((Z.of_nat (length (entries a)) <? history_limit t) && negb u &&
              match entry_by_cell a !! k with None => true | Some _ => false end) RuntimeError;
  let sl := i32 (u32 (base_of t s + local_slot)) in
  let x := (new_name (entries a), mk_entry id p ord sl) in
  let a := with_index (with_entries a (insert_sorted node_lt x (entries a))) (<[k := x.1]> (entry_by_cell a)) in
  Ok (set_arena t s (with_slots a (<[Z.to_nat local_slot := true]> (slot_used a)) (write_cursor a)), sl).

Definition state_write_cursor (t : tail_store) (s : Z) : R Z :=
  _ ← ensure (valid_seq t s) OutOfRange;
  a ← at_ (arenas t) (Z.to_nat s); Ok (write_cursor a).

Definition restore_write_cursor (t : tail_store) (s cursor : Z) : R tail_store :=
  _ ← ensure (valid_seq t s && (cursor <? arena_stride t) && idle t) InvalidArgument;
  a ← at_ (arenas t) (Z.to_nat s);
  Ok (set_arena t s (with_slots a (slot_used a) cursor)).

End KvTailStore.
