(* ===== verification/KvTailStoreWf.v ===== *)
(** What holds of every store of the exact tail: the slots of the entries of a sequence
    are distinct, lie in its part of the arena and are exactly those marked as used; the
    index by cell finds exactly the entries; and the entries are in order.  Each part has
    its lemmas, one per elementary operation of the store. *)

From S2P Require Import Prelude.
From S2P Require Import StableSort.
From S2P Require Import KvTailStore.

Module KvTailStoreWf.
Import KvTailStore.

(** ** Settings *)

Record settings_ok (t : tail_store) : Prop := mk_settings_ok {
  so_tokens : 0 <= n_tokens t;
  so_rollback : 0 <= rollback_tokens t;
  so_history : history_limit t = n_tokens t + rollback_tokens t;
  so_plain : compact_storage t = false -> rollback_tokens t = 0;
  so_stride : history_limit t <= arena_stride t;
  so_slots : arena_stride t * Z.of_nat (length (arenas t)) <= n_slots t <= INT32_MAX;
}.

Lemma retained_history t : settings_ok t -> retained_limit t = history_limit t.
Proof.
  intros H. unfold retained_limit. destruct (compact_storage t) eqn:E; [done|].
  rewrite (so_history _ H), (so_plain _ H E). lia.
Qed.

Lemma retained_bounds t : settings_ok t -> n_tokens t <= retained_limit t <= arena_stride t /\ 0 <= retained_limit t.
Proof.
  intros H. rewrite (retained_history t H). pose proof (so_tokens _ H). pose proof (so_rollback _ H).
  pose proof (so_history _ H). pose proof (so_stride _ H). lia.
Qed.

(** The part of the arena of sequence [s] starts at [s * arena_stride]. *)
Definition base (t : tail_store) (s : Z) : Z := s * arena_stride t.

Definition is_seq (t : tail_store) (s : Z) : Prop := 0 <= s < Z.of_nat (length (arenas t)).

Lemma valid_seq_spec t s : valid_seq t s = true <-> is_seq t s.
Proof. unfold valid_seq, is_seq. lia. Qed.

Lemma base_bounds t s : settings_ok t -> is_seq t s -> 0 <= base t s /\ base t s + arena_stride t <= INT32_MAX.
Proof.
  intros H [H1 H2]. unfold base. pose proof (so_slots _ H). pose proof (retained_bounds _ H). nia.
Qed.

Lemma stride_bounds t s : settings_ok t -> is_seq t s -> 0 <= arena_stride t <= INT32_MAX.
Proof. intros H Hs. pose proof (base_bounds _ _ H Hs). pose proof (retained_bounds _ H). lia. Qed.

Lemma base_of_base t s : settings_ok t -> is_seq t s -> base_of t s = base t s.
Proof.
  intros H Hs. pose proof (base_bounds _ _ H Hs) as Hb. pose proof (so_slots _ H). destruct (decide (arena_stride t = 0)) as [E|E].
  - unfold base_of, base. rewrite E, !Z.mul_0_r. done.
  - pose proof (retained_bounds _ H). unfold base_of, base, is_seq in *.
    rewrite (u32_small s) by (unfold INT32_MAX in *; nia). apply u32_small. unfold INT32_MAX in *. lia.
Qed.

(** ** Slots *)

(** [sl]: the slots in use, whether by entries or held for a while. *)
Record slots_ok (t : tail_store) (s : Z) (sl : list Z) (u : list bool) : Prop := mk_slots_ok {
  sk_length : length u = Z.to_nat (arena_stride t);
  sk_nodup : NoDup sl;
  sk_range : Forall (fun x => base t s <= x < base t s + arena_stride t) sl;
  sk_used : forall i, u !! i = Some true <-> (i < length u)%nat /\ base t s + Z.of_nat i ∈ sl;
}.

Lemma slots_ok_perm t s sl sl' u : sl ≡ₚ sl' -> slots_ok t s sl u -> slots_ok t s sl' u.
Proof.
  intros HP [H1 H2 H3 H4]. split; [done|by rewrite <- HP| |].
  - by rewrite <- HP.
  - intros i. rewrite H4. by setoid_rewrite HP.
Qed.

Lemma release_ok t s x sl a :
  settings_ok t -> is_seq t s -> slots_ok t s (x :: sl) (slot_used a) ->
  exists u, release t s x a = Ok (with_slots a u (write_cursor a)) /\ slots_ok t s sl u.
Proof.
  intros HT Hs [H1 H2 H3 H4]. apply Forall_cons in H3 as [Hx H3]. apply NoDup_cons in H2 as [Hn H2].
  pose proof (base_bounds _ _ HT Hs) as Hb. unfold release.
  destruct (Z.ltb_spec x 0); [lia|]. rewrite (base_of_base _ _ HT Hs).
  rewrite (u32_small (base t s + arena_stride t)) by (unfold INT32_MAX in *; lia).
  assert ((base t s <=? x) && (x <? base t s + arena_stride t) = true) as -> by lia. bind_simpl.
  destruct (lookup_lt_is_Some_2 (slot_used a) (Z.to_nat (x - base t s))) as [b Hb']; [lia|].
  rewrite (at_lookup _ _ _ Hb'). bind_simpl. eexists. split; [done|]. split.
  - by rewrite length_insert.
  - done.
  - done.
  - intros i. rewrite length_insert. destruct (decide (i = Z.to_nat (x - base t s))) as [->|Hi].
    + rewrite list_lookup_insert_eq by lia. split; [done|]. intros [_ He].
      replace (base t s + Z.of_nat (Z.to_nat (x - base t s))) with x in He by lia. done.
    + rewrite list_lookup_insert_ne by done. rewrite H4, elem_of_cons. split; [|tauto].
      intros [Hl [He|He]]; [lia|done].
Qed.

(** What is released depends on the marks only. *)
Lemma release_same t s x a b u :
  slot_used a = slot_used b -> release t s x b = Ok (with_slots b u (write_cursor b)) ->
  release t s x a = Ok (with_slots a u (write_cursor a)).
Proof.
  intros E. unfold release. rewrite E. destruct (x <? 0).
  { intros [= H]. apply (f_equal slot_used) in H. simpl in H. rewrite <- H, <- E. by destruct a. }
  destruct (ensure _ _); simpl; [|done]. destruct (at_ _ _); simpl; [|done]. by intros [= ->].
Qed.

Lemma free_slot t s sl u :
  slots_ok t s sl u -> (length sl < Z.to_nat (arena_stride t))%nat -> exists i, u !! i = Some false.
Proof.
  intros [H1 H2 H3 H4] Hl. destruct (list_find (fun b => b = false) u) as [[i b]|] eqn:E.
  - apply list_find_Some in E as (Hi & -> & _). by exists i.
  - apply list_find_None in E. exfalso.
    assert (Hsub : ((fun i => base t s + Z.of_nat i) <$> seq 0 (length u)) ⊆+ sl).
    { apply NoDup_submseteq.
      - apply NoDup_fmap_2; [|apply NoDup_seq]. intros i j Hij. lia.
      - intros x (i & -> & Hi%elem_of_seq)%list_elem_of_fmap. apply H4.
        destruct (lookup_lt_is_Some_2 u i) as [b Hb]; [lia|]. rewrite Hb.
        rewrite Forall_forall in E. specialize (E b (list_elem_of_lookup_2 _ _ _ Hb)). by destruct b. }
    apply submseteq_length in Hsub. rewrite length_fmap, length_seq in Hsub. lia.
Qed.

(** Some offset from the cursor reaches every index. *)
Lemma offset_of n c i : 0 <= c < n -> 0 <= i < n -> exists o, 0 <= o < n /\ (c + o) mod n = i.
Proof.
  intros Hc Hi. exists ((i - c) mod n). split; [apply Z.mod_pos_bound; lia|].
  rewrite Z.add_mod_idemp_r by lia. rewrite Z.add_sub_assoc, Z.add_simpl_l. apply Z.mod_small. lia.
Qed.

Definition cursor_ok (t : tail_store) (a : arena) : Prop :=
  0 <= write_cursor a /\ (write_cursor a < arena_stride t \/ write_cursor a = 0).

Lemma slots_ok_mark t s sl u i :
  slots_ok t s sl u -> u !! i = Some false -> slots_ok t s ((base t s + Z.of_nat i) :: sl) (<[i := true]> u).
Proof.
  intros [H1 H2 H3 H4] Hi. pose proof (lookup_lt_Some _ _ _ Hi) as Hl. split.
  - by rewrite length_insert.
  - apply NoDup_cons. split; [|done]. intros He. assert (u !! i = Some true) by (by apply H4). congruence.
  - constructor; [lia|done].
  - intros j. rewrite length_insert. destruct (decide (j = i)) as [->|Hj].
    + rewrite list_lookup_insert_eq by done. split; [|done]. intros _. split; [done|left].
    + rewrite list_lookup_insert_ne by done. rewrite H4, elem_of_cons. split; [tauto|].
      intros [Hlj [He|He]]; [lia|done].
Qed.

Lemma acquire_from_ok t s sl a offs :
  settings_ok t -> is_seq t s -> slots_ok t s sl (slot_used a) -> 0 <= write_cursor a < arena_stride t ->
  Forall (fun o => 0 <= o < arena_stride t) offs ->
  Exists (fun o => slot_used a !! Z.to_nat ((write_cursor a + o) mod arena_stride t) = Some false) offs ->
  exists x u c, acquire_from t s a offs = Ok (x, with_slots a u c) /\ slots_ok t s (x :: sl) u /\ 0 <= c < arena_stride t.
Proof.
  intros HT Hs HU Hc Hf He. induction He as [o offs Ho|o offs He IH]; apply Forall_cons in Hf as [Ho' Hf].
  all: cbn [acquire_from]; pose proof (stride_bounds _ _ HT Hs) as Hst.
  all: rewrite (u32_small (write_cursor a + o)) by (unfold INT32_MAX in *; lia).
  all: pose proof (Z.mod_pos_bound (write_cursor a + o) (arena_stride t) ltac:(lia)) as Hm.
  all: remember ((write_cursor a + o) mod arena_stride t) as i eqn:Ei.
  - rewrite (at_lookup _ _ _ Ho). bind_simpl. rewrite (base_of_base _ _ HT Hs).
    pose proof (base_bounds _ _ HT Hs) as Hb. exists (base t s + i). do 2 eexists.
    rewrite (u32_small (base t s + i)), i32_small by (unfold INT32_MAX in *; lia). split; [done|]. split.
    + replace (base t s + i) with (base t s + Z.of_nat (Z.to_nat i)) by lia. by apply slots_ok_mark.
    + apply Z.mod_pos_bound. lia.
  - destruct (lookup_lt_is_Some_2 (slot_used a) (Z.to_nat i)) as [b Hb]; [rewrite (sk_length _ _ _ _ HU); lia|].
    rewrite (at_lookup _ _ _ Hb). bind_simpl. destruct b; [by apply IH|].
    rewrite (base_of_base _ _ HT Hs). pose proof (base_bounds _ _ HT Hs) as Hb'. exists (base t s + i). do 2 eexists.
    rewrite (u32_small (base t s + i)), i32_small by (unfold INT32_MAX in *; lia). split; [done|]. split.
    + replace (base t s + i) with (base t s + Z.of_nat (Z.to_nat i)) by lia. by apply slots_ok_mark.
    + apply Z.mod_pos_bound. lia.
Qed.

(** A sequence that does not use its whole part of the arena gets a slot. *)
Lemma acquire_ok t s sl a :
  settings_ok t -> is_seq t s -> slots_ok t s sl (slot_used a) -> cursor_ok t a ->
  (length sl < Z.to_nat (arena_stride t))%nat ->
  exists x u c, acquire t s a = Ok (x, with_slots a u c) /\ slots_ok t s (x :: sl) u /\ 0 <= c < arena_stride t.
Proof.
  intros HT Hs HU [Hc1 Hc2] Hl. unfold acquire. pose proof (stride_bounds _ _ HT Hs).
  assert (0 <= write_cursor a < arena_stride t) as Hc by lia.
  apply acquire_from_ok; [done..| |].
  - apply Forall_forall. intros o Ho%elem_of_seqZ. lia.
  - destruct (free_slot _ _ _ _ HU Hl) as [i Hi]. pose proof (lookup_lt_Some _ _ _ Hi) as Hil.
    rewrite (sk_length _ _ _ _ HU) in Hil.
    destruct (offset_of (arena_stride t) (write_cursor a) (Z.of_nat i)) as (o & Ho & Hoi); [lia..|].
    apply Exists_exists. exists o. split; [apply elem_of_seqZ; lia|]. rewrite Hoi. by rewrite Nat2Z.id.
Qed.

(** ** Keys and the index *)

Definition id_ok (id : llama_kv_tail_identity) : Prop :=
  0 <= stream id < 2 ^ 32 /\ 0 <= cell id < 2 ^ 32.

Definition id_key (id : llama_kv_tail_identity) : Z := cell_key (stream id) (cell id).

Lemma cell_key_eq s c : 0 <= s < 2 ^ 32 -> 0 <= c < 2 ^ 32 -> cell_key s c = s * 2 ^ 32 + c.
Proof.
  intros Hs Hc. unfold cell_key. rewrite u64_small; [by apply lor_shiftl_add|].
  rewrite Z.shiftl_mul_pow2 by lia. lia.
Qed.

Lemma cell_key_inj s c s' c' :
  0 <= s < 2 ^ 32 -> 0 <= c < 2 ^ 32 -> 0 <= s' < 2 ^ 32 -> 0 <= c' < 2 ^ 32 ->
  cell_key s c = cell_key s' c' -> s = s' /\ c = c'.
Proof. intros Hs Hc Hs' Hc'. rewrite !cell_key_eq by done. nia. Qed.

(** Names, cells and slots, whatever the order and the index. *)
Record nodes_ok (t : tail_store) (s : Z) (extra : list Z) (a : arena) : Prop := mk_nodes_ok {
  nk_names : NoDup (entries a).*1;
  nk_ids : Forall (fun x : node => id_ok (identity x.2)) (entries a);
  nk_keys : NoDup ((fun x : node => key x.2) <$> entries a);
  nk_slots : slots_ok t s (((fun x : node => slot x.2) <$> entries a) ++ extra) (slot_used a);
  nk_cursor : cursor_ok t a;
}.

Definition index_ok (l : list node) (m : gmap Z nat) : Prop :=
  forall k n, m !! k = Some n <-> exists e, (n, e) ∈ l /\ key e = k.

Lemma entry_at_elem a n e : NoDup (entries a).*1 -> (n, e) ∈ entries a -> entry_at a n = Ok e.
Proof.
  intros Hn He. unfold entry_at. apply list_elem_of_lookup in He as [i Hi].
  assert (list_find (fun x : node => x.1 = n) (entries a) = Some (i, (n, e))) as ->; [|done].
  apply list_find_Some. split_and!; [done|done|]. intros j [m e'] Hj Hlt. simpl. intros ->.
  assert (j = i); [|lia]. eapply NoDup_lookup; [exact Hn|..]; rewrite list_lookup_fmap; [by rewrite Hj|by rewrite Hi].
Qed.

Lemma nodes_ok_insert_extra t s extra extra' a :
  extra ≡ₚ extra' -> nodes_ok t s extra a -> nodes_ok t s extra' a.
Proof. intros HP [H1 H2 H3 H4 H5]. split; try done. eapply slots_ok_perm; [|done]. by rewrite HP. Qed.

(** Removing the node of a name. *)
Lemma filter_name (l1 l2 : list node) n e :
  NoDup (l1 ++ (n, e) :: l2).*1 -> filter (fun x : node => x.1 <> n) (l1 ++ (n, e) :: l2) = l1 ++ l2.
Proof.
  rewrite fmap_app. simpl. intros Hn. rewrite filter_app, filter_cons_False by (simpl; tauto).
  apply NoDup_app in Hn as (H1 & H2 & H3). apply NoDup_cons in H3 as [H3 H4].
  rewrite !filter_all; [done|..]; intros x Hx Heq; subst n.
  - apply H3. by apply list_elem_of_fmap_2.
  - apply (H2 x.1); [by apply list_elem_of_fmap_2|left].
Qed.

Lemma elem_of_key (l : list node) n e : (n, e) ∈ l -> key e ∈ (fun x : node => key x.2) <$> l.
Proof. intros H. by apply (list_elem_of_fmap_2 (fun x : node => key x.2)) in H. Qed.

Lemma index_ok_delete (l1 l2 : list node) n e m :
  NoDup ((fun x : node => key x.2) <$> l1 ++ (n, e) :: l2) ->
  index_ok (l1 ++ (n, e) :: l2) m -> index_ok (l1 ++ l2) (delete (key e) m).
Proof.
  intros Hk Hm k n'. rewrite fmap_app in Hk. simpl in Hk. rewrite <- Permutation_middle in Hk.
  apply NoDup_cons in Hk as [Hk _]. rewrite <- fmap_app in Hk.
  rewrite lookup_delete_Some, (Hm k n'). split.
  - intros [Hne (e' & He & <-)]. exists e'. split; [|done]. apply elem_of_app in He as [He|He]; [set_solver|].
    apply elem_of_cons in He as [[= -> ->]|He]; [done|set_solver].
  - intros (e' & He & <-). split; [|exists e'; split; [set_solver|done]].
    intros Heq. apply Hk. rewrite Heq. by eapply elem_of_key.
Qed.

Lemma nodes_ok_remove t s extra a l1 l2 n e :
  nodes_ok t s extra a -> entries a = l1 ++ (n, e) :: l2 ->
  nodes_ok t s (slot e :: extra) (with_entries a (l1 ++ l2)).
Proof.
  intros [H1 H2 H3 H4 H5] E. rewrite E in *. rewrite !fmap_app in *. simpl in *. split; simpl.
  - rewrite fmap_app. rewrite <- Permutation_middle in H1. by apply NoDup_cons in H1 as [_ H1].
  - apply Forall_app in H2 as [Ha Hb]. apply Forall_cons in Hb as [_ Hb]. by apply Forall_app.
  - rewrite fmap_app. rewrite <- Permutation_middle in H3. by apply NoDup_cons in H3 as [_ H3].
  - eapply slots_ok_perm; [|exact H4]. rewrite fmap_app. solve_Permutation.
  - done.
Qed.

Lemma nodes_ok_release t s x extra a :
  settings_ok t -> is_seq t s -> nodes_ok t s (x :: extra) a ->
  exists u, release t s x a = Ok (with_slots a u (write_cursor a)) /\ nodes_ok t s extra (with_slots a u (write_cursor a)).
Proof.
  intros HT Hs [H1 H2 H3 H4 H5].
  destruct (release_ok t s x (((fun x : node => slot x.2) <$> entries a) ++ extra) a HT Hs) as (u & E & HU).
  { eapply slots_ok_perm; [|exact H4]. by rewrite Permutation_middle. }
  exists u. split; [done|]. by split.
Qed.

Lemma nodes_ok_acquire t s extra a :
  settings_ok t -> is_seq t s -> nodes_ok t s extra a ->
  (length (entries a) + length extra < Z.to_nat (arena_stride t))%nat ->
  exists x u c, acquire t s a = Ok (x, with_slots a u c) /\ nodes_ok t s (x :: extra) (with_slots a u c).
Proof.
  intros HT Hs [H1 H2 H3 H4 H5] Hl.
  destruct (acquire_ok t s (((fun x : node => slot x.2) <$> entries a) ++ extra) a HT Hs H4 H5) as (x & u & c & E & HU & Hc).
  { rewrite length_app, length_fmap. lia. }
  exists x, u, c. split; [done|]. split; simpl; [done..| |].
  - eapply slots_ok_perm; [|exact HU]. by rewrite Permutation_middle.
  - split; simpl; [lia|lia].
Qed.

Lemma nodes_ok_add t s x id p ord extra a n l :
  nodes_ok t s (x :: extra) a -> id_ok id -> n ∉ (entries a).*1 ->
  id_key id ∉ (fun x : node => key x.2) <$> entries a ->
  l ≡ₚ (n, mk_entry id p ord x) :: entries a ->
  nodes_ok t s extra (with_entries a l).
Proof.
  intros [H1 H2 H3 H4 H5] Hid Hn Hk HP. split; simpl.
  - rewrite HP. simpl. by apply NoDup_cons.
  - rewrite HP. by constructor.
  - rewrite HP. simpl. by apply NoDup_cons.
  - eapply slots_ok_perm; [|exact H4]. rewrite HP. simpl. by rewrite Permutation_middle.
  - done.
Qed.

(** Nodes in another order, or with other positions and ordinals. *)
Lemma nodes_ok_same t s extra a l :
  nodes_ok t s extra a ->
  (fun x : node => (x.1, identity x.2, slot x.2)) <$> l ≡ₚ (fun x : node => (x.1, identity x.2, slot x.2)) <$> entries a ->
  nodes_ok t s extra (with_entries a l).
Proof.
  intros [H1 H2 H3 H4 H5] HP.
  assert (forall (A : Type) (g : nat * llama_kv_tail_identity * Z -> A),
    (fun x : node => g (x.1, identity x.2, slot x.2)) <$> l ≡ₚ (fun x : node => g (x.1, identity x.2, slot x.2)) <$> entries a) as Hg.
  { intros A g. pose proof (fmap_Permutation g _ _ HP) as Hg. by rewrite <- !list_fmap_compose in Hg. }
  split; simpl.
  - by rewrite (Hg _ (fun y => y.1.1)).
  - pose proof (Hg _ (fun y => y.1.2)) as Hi. simpl in Hi.
    apply (Forall_fmap (fun x : node => identity x.2) id_ok). rewrite Hi. by apply Forall_fmap.
  - by rewrite (Hg _ (fun y => id_key y.1.2)).
  - eapply slots_ok_perm; [|exact H4]. by rewrite (Hg _ (fun y => y.2)).
  - done.
Qed.

(** ** Order *)

Lemma node_lt_asym x y : node_lt x y = true -> node_lt y x = false.
Proof. unfold node_lt, entry_lt. lia. Qed.

Lemma node_not_gt_trans x y z : not_gt node_lt x y -> not_gt node_lt y z -> not_gt node_lt x z.
Proof. unfold not_gt, node_lt, entry_lt. lia. Qed.

(** The end of the list is no shortcut: it is where the search would have put it. *)
Lemma place_insert x l : Sorted_by node_lt l -> place x l = insert_sorted node_lt x l.
Proof.
  intros Hs. unfold place. destruct (last l) as [b|] eqn:E.
  - destruct (node_lt x b) eqn:Eb; [done|]. simpl. symmetry. apply insert_sorted_last.
    + apply node_not_gt_trans.
    + done.
    + by rewrite E.
  - apply last_None in E as ->. done.
Qed.

Lemma new_name_fresh (l : list node) : new_name l ∉ l.*1.
Proof.
  unfold new_name. generalize (l.*1) as k. intros k.
  assert (forall n, n ∈ k -> (n <= foldr Nat.max 0 k)%nat) as H.
  { induction k as [|m k IH]; intros n Hn; [by apply elem_of_nil in Hn|].
    apply elem_of_cons in Hn as [->|Hn]; simpl; [lia|]. specialize (IH n Hn). lia. }
  intros Hin%H. lia.
Qed.

(** ** Arenas *)

(** [extra]: slots held outside of the entries. *)
Record arena_ok (t : tail_store) (s : Z) (extra : list Z) (a : arena) : Prop := mk_arena_ok {
  ok_nodes : nodes_ok t s extra a;
  ok_index : index_ok (entries a) (entry_by_cell a);
  ok_sorted : Sorted_by node_lt (entries a);
  ok_recovery : 0 <= recovery_commits a <= n_tokens t;
}.

Definition same_flags (a b : arena) : Prop :=
  degradation a = degradation b /\ recovery_commits a = recovery_commits b.

Lemma rebuild_from (l0 l : list node) m :
  NoDup ((fun x : node => key x.2) <$> l0 ++ l) -> index_ok l0 m ->
  exists m', foldM (fun (m : gmap Z nat) (x : node) =>
      match m !! key x.2 with
      | Some _ => Error LogicError
      | None => Ok (<[key x.2 := x.1]> m)
      end) m l = Ok m' /\ index_ok (l0 ++ l) m'.
Proof.
  revert l0 m. induction l as [|x l IH]; intros l0 m Hn Hm; [exists m; split; [done|by rewrite app_nil_r]|].
  assert (m !! key x.2 = None) as E.
  { apply eq_None_not_Some. intros [n Hn']. apply Hm in Hn' as (e & He & Hk).
    rewrite fmap_app in Hn. apply NoDup_app in Hn as (_ & Hn & _). apply (Hn (key x.2)); [|left].
    rewrite <- Hk. by eapply elem_of_key. }
  cbn [foldM]. rewrite E. bind_simpl.
  destruct (IH (l0 ++ [x]) (<[key x.2 := x.1]> m)) as (m' & Em & Hm'); [by rewrite <- app_assoc| |].
  - intros k n. rewrite lookup_insert_Some, (Hm k n). split.
    + intros [[<- <-]|[Hne (e & He & <-)]].
      * exists x.2. split; [|done]. apply elem_of_app. right. destruct x. left.
      * exists e. split; [set_solver|done].
    + intros (e & [He|He]%elem_of_app & <-).
      * right. split; [|by exists e]. intros Heq. apply (eq_None_not_Some (m !! key x.2)); [done|].
        exists n. apply (Hm (key x.2) n). exists e. by rewrite Heq.
      * apply list_elem_of_singleton in He as <-. by left.
  - exists m'. split; [exact Em|]. by rewrite <- app_assoc in Hm'.
Qed.

Lemma rebuild_index_ok t s extra a :
  nodes_ok t s extra a -> exists m, rebuild_index a = Ok (with_index a m) /\ index_ok (entries a) m.
Proof.
  intros H. destruct (rebuild_from [] (entries a) ∅) as (m & E & Hm).
  - exact (nk_keys _ _ _ _ H).
  - intros k n. rewrite lookup_empty. split; [done|]. intros (e & He & _). by apply elem_of_nil in He.
  - exists m. unfold rebuild_index. by rewrite E.
Qed.

(** [rebuild_index] refuses two entries of one cell. *)
Lemma rebuild_index_dup a :
  ~ NoDup ((fun x : node => key x.2) <$> entries a) -> rebuild_index a = Error LogicError.
Proof.
  intros Hn. unfold rebuild_index.
  enough (forall l l0 m, index_ok l0 m -> NoDup ((fun x : node => key x.2) <$> l0) ->
    ~ NoDup ((fun x : node => key x.2) <$> l0 ++ l) ->
    foldM (fun (m : gmap Z nat) (x : node) =>
      match m !! key x.2 with
      | Some _ => Error LogicError
      | None => Ok (<[key x.2 := x.1]> m)
      end) m l = Error LogicError) as H.
  { rewrite (H (entries a) [] ∅); [done| |constructor|done].
    intros k n. rewrite lookup_empty. split; [done|]. intros (e & He & _). by apply elem_of_nil in He. }
  clear. induction l as [|x l IH]; intros l0 m Hm Hd Hn; [by rewrite app_nil_r in Hn|].
  cbn [foldM]. destruct (m !! key x.2) as [n|] eqn:E; [done|]. bind_simpl.
  assert (NoDup ((fun x : node => key x.2) <$> l0 ++ [x])) as Hd'.
  { rewrite fmap_app. apply NoDup_app. split_and!; [done| |by apply NoDup_singleton].
    intros k Hk Hk2%list_elem_of_singleton. subst k. apply list_elem_of_fmap in Hk as ([n e] & Hke & He).
    apply (eq_None_not_Some (m !! key x.2)); [done|]. exists n. apply Hm. by exists e. }
  apply (IH (l0 ++ [x])); [|done|by rewrite <- app_assoc].
  destruct (rebuild_from l0 [x] m Hd' Hm) as (m' & Em & Hm'). cbn [foldM] in Em. rewrite E in Em.
  bind_simpl. injection Em as <-. done.
Qed.

Lemma sorted_remove {A} (R : A -> A -> Prop) l1 x l2 : StronglySorted R (l1 ++ x :: l2) -> StronglySorted R (l1 ++ l2).
Proof.
  rewrite !StronglySorted_app. rewrite StronglySorted_cons. set_solver.
Qed.

(** Erase an entry; its slot is released or held. *)
Lemma erase_entry_ok t s extra a l1 l2 n e (rel : bool) :
  settings_ok t -> is_seq t s -> arena_ok t s extra a -> entries a = l1 ++ (n, e) :: l2 ->
  exists a', erase_entry t s n rel a = Ok a' /\ arena_ok t s (if rel then extra else slot e :: extra) a' /\
    entries a' = l1 ++ l2 /\ same_flags a' a.
Proof.
  intros HT Hs [H1 H2 H3 H4] E. unfold erase_entry.
  rewrite (entry_at_elem a n e); [|exact (nk_names _ _ _ _ H1)|rewrite E; set_solver]. bind_simpl.
  pose proof (nodes_ok_remove _ _ _ _ _ _ _ _ H1 E) as HR.
  pose proof (nk_names _ _ _ _ H1) as Hn. pose proof (nk_keys _ _ _ _ H1) as Hk. rewrite E in Hn, Hk, H2, H3.
  assert (filter (fun x : node => x.1 <> n) (entries a) = l1 ++ l2) as Ef by (rewrite E; by eapply filter_name).
  destruct rel.
  - destruct (nodes_ok_release _ _ _ _ _ HT Hs HR) as (u & Eu & HU).
    rewrite (release_same t s (slot e) a (with_entries a (l1 ++ l2)) u) by done. bind_simpl. eexists. split; [done|]. split; [|split; [exact Ef|done]].
    split; simpl; [|rewrite Ef; by eapply index_ok_delete|rewrite Ef; by eapply sorted_remove|done].
    destruct HU as [A1 A2 A3 A4 A5]. rewrite Ef. by split.
  - bind_simpl. eexists. split; [done|]. split; [|split; [exact Ef|done]].
    split; simpl; [|rewrite Ef; by eapply index_ok_delete|rewrite Ef; by eapply sorted_remove|done].
    destruct HR as [A1 A2 A3 A4 A5]. rewrite Ef. by split.
Qed.

(** *** Trimming *)

(** The first entries go until [limit] are left. *)
Lemma trim_nodes_ok t s limit extra l a :
  settings_ok t -> is_seq t s -> 0 <= limit -> nodes_ok t s extra (with_entries a l) ->
  exists a', trim_nodes t s limit l a = Ok a' /\ nodes_ok t s extra a' /\
    entries a' = retain_last limit l /\ same_flags a' a /\
    (index_ok l (entry_by_cell a) -> index_ok (entries a') (entry_by_cell a')).
Proof.
  intros HT Hs Hlim. revert a. induction l as [|x l IH]; intros a HN; cbn [trim_nodes length].
  - rewrite (proj2 (Z.leb_le (Z.of_nat 0) limit)) by lia. eexists. split; [done|]. by split_and!.
  - destruct (Z.leb_spec (Z.of_nat (S (length l))) limit).
    + eexists. split; [done|]. split_and!; [done| |done|done].
      unfold retain_last. cbn [length]. replace (S (length l) - Z.to_nat limit)%nat with 0%nat by lia. done.
    + destruct x as [n e]. pose proof (nodes_ok_remove _ _ _ _ [] l n e HN eq_refl) as HR. simpl in HR.
      destruct (nodes_ok_release _ _ _ _ _ HT Hs HR) as (u & Eu & HU). simpl.
      rewrite (release_same t s (slot e) (with_index a _) (with_entries a l) u) by done. bind_simpl.
      destruct (IH (with_slots (with_index a (delete (key e) (entry_by_cell a))) u (write_cursor a))) as (a' & Ea & HN2 & He & Hf & Hi).
      { destruct HU as [A1 A2 A3 A4 A5]. by split. }
      exists a'. split; [exact Ea|]. split_and!; [done| |by destruct Hf|].
      * rewrite He. unfold retain_last. cbn [length].
        replace (S (length l) - Z.to_nat limit)%nat with (S (length l - Z.to_nat limit)) by lia. done.
      * intros Hix. apply Hi. simpl. eapply (index_ok_delete [] l n e); [|exact Hix].
        exact (nk_keys _ _ _ _ HN).
Qed.

Lemma sorted_drop {A} (R : A -> A -> Prop) n l : StronglySorted R l -> StronglySorted R (drop n l).
Proof. intros H. rewrite <- (take_drop n l) in H. by apply StronglySorted_app in H as (_ & _ & H). Qed.

Lemma trim_ok t s limit extra a :
  settings_ok t -> is_seq t s -> 0 <= limit -> arena_ok t s extra a ->
  exists a', trim t s limit a = Ok a' /\ arena_ok t s extra a' /\
    entries a' = retain_last limit (entries a) /\ same_flags a' a.
Proof.
  intros HT Hs Hlim [H1 H2 H3 H4].
  destruct (trim_nodes_ok t s limit extra (entries a) a HT Hs Hlim) as (a' & E & HN & He & Hf & Hi).
  { destruct H1 as [A1 A2 A3 A4 A5]. by split. }
  exists a'. split; [exact E|]. split_and!; [|done|done]. split; [done|by apply Hi| |].
  - rewrite He. by apply sorted_drop.
  - destruct Hf as [_ ->]. done.
Qed.

Lemma retain_last_all {A} limit (l : list A) : Z.of_nat (length l) <= limit -> retain_last limit l = l.
Proof. intros H. unfold retain_last. by replace (length l - Z.to_nat limit)%nat with 0%nat by lia. Qed.

Lemma length_retain_last {A} limit (l : list A) : (length (retain_last limit l) <= Z.to_nat limit)%nat.
Proof. unfold retain_last. rewrite length_drop. lia. Qed.

(** *** Erasing the entries that pass a test *)

Lemma erase_loop_ok t s (test : exact_entry -> bool) extra l0 l a :
  settings_ok t -> is_seq t s -> nodes_ok t s extra a -> entries a = l0 ++ l ->
  exists a', foldM (fun a (x : node) =>
      if test x.2 then
        a ← release t s (slot x.2) a;
        Ok (with_entries a (filter (fun y : node => y.1 <> x.1) (entries a)))
      else Ok a) a l = Ok a' /\ nodes_ok t s extra a' /\
    entries a' = l0 ++ filter (fun x : node => test x.2 = false) l /\ same_flags a' a.
Proof.
  intros HT Hs. revert l0 a. induction l as [|[n e] l IH]; intros l0 a HN E.
  { exists a. by rewrite E. }
  cbn [foldM]. simpl (_.2). destruct (test e) eqn:Et.
  - pose proof (nodes_ok_remove _ _ _ _ _ _ _ _ HN E) as HR.
    destruct (nodes_ok_release _ _ _ _ _ HT Hs HR) as (u & Eu & HU).
    rewrite (release_same t s (slot e) a (with_entries a (l0 ++ l)) u) by done. bind_simpl.
    assert (filter (fun x : node => x.1 <> n) (entries a) = l0 ++ l) as Ef.
    { rewrite E. eapply filter_name. rewrite <- E. exact (nk_names _ _ _ _ HN). }
    destruct (IH l0 (with_entries (with_slots a u (write_cursor a)) (l0 ++ l))) as (a' & Ea & HN' & He & Hf).
    { destruct HU as [A1 A2 A3 A4 A5]. by split. }
    { done. }
    exists a'. split; [|split_and!; [done| |by destruct Hf]].
    + simpl. rewrite Ef. exact Ea.
    + rewrite He. by rewrite filter_cons_False by (simpl; congruence).
  - bind_simpl. destruct (IH (l0 ++ [(n, e)]) a HN) as (a' & Ea & HN' & He & Hf); [by rewrite <- app_assoc|].
    exists a'. split; [exact Ea|]. split_and!; [done| |done].
    rewrite He, filter_cons_True by done. by rewrite <- app_assoc.
Qed.

(** Erasing and rebuilding the index. *)
Lemma erase_rebuild_ok t s (test : exact_entry -> bool) extra a :
  settings_ok t -> is_seq t s -> arena_ok t s extra a ->
  exists b m, erase_if t s test a = Ok b /\ rebuild_index b = Ok (with_index b m) /\
    arena_ok t s extra (with_index b m) /\ same_flags b a /\
    entries b = filter (fun x : node => test x.2 = false) (entries a).
Proof.
  intros HT Hs [H1 H2 H3 H4].
  destruct (erase_loop_ok t s test extra [] (entries a) a HT Hs H1) as (b & Eb & HN & He & Hf); [done|].
  destruct (rebuild_index_ok _ _ _ _ HN) as (m & Em & Hm).
  exists b, m. split; [exact Eb|]. split; [exact Em|]. split_and!; [|done|exact He].
  split; simpl.
  - destruct HN as [A1 A2 A3 A4 A5]. by split.
  - done.
  - rewrite He. by apply StronglySorted_filter.
  - destruct Hf as [_ ->]. done.
Qed.

(** *** Moving entries *)

Lemma fmap_id_on {A} (f : A -> A) (l : list A) : (forall x, x ∈ l -> f x = x) -> f <$> l = l.
Proof.
  induction l as [|x l IH]; intros H; [done|]. rewrite fmap_cons, H by left. f_equal. apply IH.
  intros y Hy. apply H. by right.
Qed.

Lemma update_name (l1 l2 : list node) n e e' :
  NoDup (l1 ++ (n, e) :: l2).*1 ->
  (fun y : node => if decide (y.1 = n) then (y.1, e') else y) <$> (l1 ++ (n, e) :: l2) = l1 ++ (n, e') :: l2.
Proof.
  intros Hn. rewrite fmap_app in Hn. simpl in Hn. apply NoDup_app in Hn as (_ & Hn1 & Hn2).
  apply NoDup_cons in Hn2 as [Hn2 _].
  rewrite fmap_app, fmap_cons. simpl. rewrite decide_True by done.
  f_equal; [|f_equal]; apply fmap_id_on; intros y Hy; rewrite decide_False; try done; intros <-.
  - apply (Hn1 y.1); [by apply list_elem_of_fmap_2|left].
  - apply Hn2. by apply (list_elem_of_fmap_2 fst).
Qed.

Definition with_position (e : exact_entry) (p : Z) : exact_entry :=
  mk_entry (identity e) p (insertion_ordinal e) (slot e).

Definition move_entry (ids : list llama_kv_tail_identity) (mv : Z -> Z) (er : bool) (e : exact_entry) : option exact_entry :=
  if bool_decide (identity e ∈ ids) then
    if er && (mv (position e) <? 0) then None else Some (with_position e (mv (position e)))
  else Some e.

Definition move_node ids mv er (x : node) : option node := pair x.1 <$> move_entry ids mv er x.2.

Definition touched (ids : list llama_kv_tail_identity) (l : list exact_entry) : bool :=
  existsb (fun e => bool_decide (identity e ∈ ids)) l.

Lemma nodes_ok_update t s extra a l1 l2 n e e' :
  nodes_ok t s extra a -> entries a = l1 ++ (n, e) :: l2 -> identity e' = identity e -> slot e' = slot e ->
  nodes_ok t s extra (with_entries a (l1 ++ (n, e') :: l2)).
Proof.
  intros HN E Hi Hsl. apply nodes_ok_same; [done|]. rewrite E, !fmap_app, !fmap_cons. simpl. by rewrite Hi, Hsl.
Qed.

Lemma move_step_hit t s ids move er st n e : identity e ∈ ids -> forall p, move (position e) = Ok p ->
  move_step t s ids move er st (n, e) =
    if er && (p <? 0) then
      a ← release t s (slot e) st.1;
      Ok (with_entries a (filter (fun y : node => y.1 <> n) (entries a)), true)
    else
      Ok (with_entries st.1 ((fun y : node => if decide (y.1 = n) then (y.1, with_position e p) else y) <$> entries st.1), true).
Proof. intros H p Hp. unfold move_step. simpl. by rewrite bool_decide_true, Hp by done. Qed.

Lemma move_step_miss t s ids move er st x : identity x.2 ∉ ids -> move_step t s ids move er st x = Ok st.
Proof. intros H. unfold move_step. by rewrite bool_decide_false by done. Qed.

Lemma move_loop_ok t s ids move mv er extra l0 l a b :
  settings_ok t -> is_seq t s -> nodes_ok t s extra a -> entries a = l0 ++ l ->
  (forall x, x ∈ l -> identity x.2 ∈ ids -> move (position x.2) = Ok (mv (position x.2))) ->
  exists a', foldM (move_step t s ids move er) (a, b) l = Ok (a', b || touched ids l.*2) /\
    nodes_ok t s extra a' /\ entries a' = l0 ++ omap (move_node ids mv er) l /\ same_flags a' a /\
    (touched ids l.*2 = false -> a' = a).
Proof.
  intros HT Hs. revert l0 a b. induction l as [|[n e] l IH]; intros l0 a b HN E Hmv.
  { exists a. rewrite orb_false_r, E. by split_and!. }
  pose proof (fun x Hx => Hmv x (list_elem_of_further _ _ _ Hx)) as Hmv'.
  specialize (Hmv (n, e) ltac:(left)). simpl in Hmv.
  unfold touched in *. cbn [foldM omap list_omap fmap list_fmap existsb fst snd].
  unfold move_node at 1, move_entry at 1. cbn [fst snd].
  destruct (bool_decide (identity e ∈ ids)) eqn:Eb; simpl (_ || _).
  - apply bool_decide_eq_true in Eb. rewrite (move_step_hit _ _ _ _ _ _ _ _ Eb _ (Hmv Eb)). cbn [snd fst].
    destruct (er && (mv (position e) <? 0)).
    + pose proof (nodes_ok_remove _ _ _ _ _ _ _ _ HN E) as HR.
      destruct (nodes_ok_release _ _ _ _ _ HT Hs HR) as (u & Eu & HU).
      rewrite (release_same t s (slot e) a (with_entries a (l0 ++ l)) u) by done. bind_simpl. simpl.
      assert (filter (fun x : node => x.1 <> n) (entries a) = l0 ++ l) as Ef.
      { rewrite E. eapply filter_name. rewrite <- E. exact (nk_names _ _ _ _ HN). }
      destruct (IH l0 (with_entries (with_slots a u (write_cursor a)) (l0 ++ l)) true) as (a' & Ea & HN' & He & Hf & _).
      { destruct HU as [A1 A2 A3 A4 A5]. by split. }
      { done. }
      { done. }
      exists a'. split_and!; [|done|done|by destruct Hf|done].
      rewrite Ef, orb_true_r. simpl in Ea. exact Ea.
    + bind_simpl. rewrite E, update_name by (rewrite <- E; exact (nk_names _ _ _ _ HN)).
      destruct (IH (l0 ++ [(n, with_position e (mv (position e)))])
                  (with_entries a (l0 ++ (n, with_position e (mv (position e))) :: l)) true) as (a' & Ea & HN' & He & Hf & _).
      { by eapply nodes_ok_update. }
      { simpl. by rewrite <- app_assoc. }
      { done. }
      exists a'. split_and!; [|done| |by destruct Hf|done].
      * rewrite orb_true_r. simpl in Ea. exact Ea.
      * rewrite He. by rewrite <- app_assoc.
  - rewrite move_step_miss by (by apply bool_decide_eq_false in Eb). bind_simpl.
    destruct (IH (l0 ++ [(n, e)]) a b HN) as (a' & Ea & HN' & He & Hf & Hu); [by rewrite <- app_assoc|done|].
    exists a'. split_and!; [exact Ea|done| |done|done]. rewrite He. by rewrite <- app_assoc.
Qed.

Lemma omap_snd ids mv er (l : list node) :
  (omap (move_node ids mv er) l).*2 = omap (move_entry ids mv er) l.*2.
Proof.
  induction l as [|[n e] l IH]; [done|]. cbn [fmap list_fmap omap list_omap snd]. unfold move_node at 1. cbn [fst snd].
  destruct (move_entry ids mv er e); simpl; by rewrite <- IH.
Qed.

Lemma sort_snd (l : list node) : (stable_sort node_lt l).*2 = stable_sort entry_lt l.*2.
Proof. by apply stable_sort_fmap. Qed.

Lemma retain_last_fmap {A B} (f : A -> B) limit l : f <$> retain_last limit l = retain_last limit (f <$> l).
Proof. unfold retain_last. by rewrite fmap_drop, length_fmap. Qed.

Lemma nodes_ok_sort t s extra a :
  nodes_ok t s extra a -> nodes_ok t s extra (with_entries a (stable_sort node_lt (entries a))).
Proof. intros H. apply nodes_ok_same; [done|]. by rewrite stable_sort_perm. Qed.

Lemma sort_sorted (l : list node) : Sorted_by node_lt (stable_sort node_lt l).
Proof. apply stable_sort_sorted; [apply node_lt_asym|apply node_not_gt_trans]. Qed.

Lemma move_arena_ok t s ids move mv er degrade a :
  settings_ok t -> is_seq t s -> arena_ok t s [] a ->
  (forall e, e ∈ (entries a).*2 -> identity e ∈ ids -> move (position e) = Ok (mv (position e))) ->
  exists a', move_arena t ids move er degrade s a = Ok a' /\ arena_ok t s [] a' /\
    (entries a').*2 = (if touched ids (entries a).*2
      then retain_last (retained_limit t) (stable_sort entry_lt (omap (move_entry ids mv er) (entries a).*2))
      else (entries a).*2) /\
    degradation a' = (if touched ids (entries a).*2 && degrade
      then Z.lor (degradation a) LLAMA_KV_TAIL_DEGRADED_HISTORICAL_OP else degradation a) /\
    recovery_commits a' = (if touched ids (entries a).*2 && degrade then 0 else recovery_commits a).
Proof.
  intros HT Hs HA Hmv. pose proof HA as [H1 H2 H3 H4]. unfold move_arena, move_entries.
  destruct (move_loop_ok t s ids move mv er [] [] (entries a) a false HT Hs H1 eq_refl) as (b & Eb & HN & He & Hf & Hu).
  { intros x Hx. apply Hmv. by apply list_elem_of_fmap_2. }
  rewrite Eb. bind_simpl. simpl in Eb |- *. destruct (touched ids (entries a).*2) eqn:Et; simpl.
  - destruct (trim_nodes_ok t s (retained_limit t) [] (stable_sort node_lt (entries b))
                (with_entries b (stable_sort node_lt (entries b)))) as (c & Ec & HNc & Hec & Hfc & _);
      [done|done|apply retained_bounds, HT| |].
    { apply (nodes_ok_sort t s [] b) in HN. by destruct HN; split. }
    unfold trim. simpl. rewrite Ec. bind_simpl.
    destruct (rebuild_index_ok _ _ _ _ HNc) as (m & Em & Hm). rewrite Em. bind_simpl.
    destruct Hf as [Hf1 Hf2], Hfc as [Hc1 Hc2]. simpl in Hc1, Hc2.
    assert (Sorted_by node_lt (entries c)) as Hsc by (rewrite Hec; apply sorted_drop, sort_sorted).
    assert ((entries c).*2 = retain_last (retained_limit t)
              (stable_sort entry_lt (omap (move_entry ids mv er) (entries a).*2))) as Htoks.
    { rewrite Hec, retain_last_fmap, sort_snd, He. simpl. by rewrite omap_snd. }
    eexists. split; [done|]. destruct degrade; simpl; split_and!; try done; try congruence.
    + destruct HNc; split; [by split|done|done|]. simpl. lia.
    + destruct HNc; split; [by split|done|done|]. simpl. lia.
  - exists b. rewrite (Hu eq_refl). by split_and!.
Qed.
End KvTailStoreWf.
