(* ===== verification/KvTailSpec.v ===== *)
(** What the store of the exact tail promises: for each sequence a list of entries in
    order of position, with their slots, and a record of degradation.  Every operation
    outside of a copy transaction changes these lists as the specification says, without
    an exception, and the invariants of [KvTailStoreWf] hold again. *)

From S2P Require Import Prelude.
From S2P Require Import StableSort.
From S2P Require Import KvTailStore.
From S2P Require Import KvTailStoreWf.

Module KvTailSpec.
Import KvTailStore KvTailStoreWf.

(** ** The abstract tail of one sequence *)

Record tail := mk_tail { toks : list exact_entry; flags : Z; commits : Z }.

Definition tail_of (a : arena) : tail := mk_tail (entries a).*2 (degradation a) (recovery_commits a).

(** A full tail gives the slot of its oldest entry, unless a batch fills an overlay. *)
Definition evicts (t : tail_store) : bool := compact_storage t || negb (in_batch t).

Definition spec_slot (t : tail_store) (sl : Z) (l : list exact_entry) : list exact_entry * Z :=
  if evicts t && (retained_limit t <=? Z.of_nat (length l)) then
    match l with [] => ([], sl) | v :: k => (k, slot v) end
  else (l, sl).

Definition spec_recover (t : tail_store) (x : tail) : tail :=
  if flags x =? 0 then x
  else if n_tokens t <=? commits x + 1 then mk_tail (toks x) 0 0
  else mk_tail (toks x) (flags x) (commits x + 1).

(** [sl] is the free slot that a new entry gets when nothing is evicted. *)
Definition spec_commit (t : tail_store) (sl : Z) (id : llama_kv_tail_identity) (p ord : Z) (x : tail) : tail :=
  if bool_decide (id ∈ identity <$> toks x) then
    mk_tail (retain_last (retained_limit t) (stable_sort entry_lt
               ((fun e => if decide (identity e = id) then mk_entry id p ord (slot e) else e) <$> toks x)))
      (flags x) (commits x)
  else
    let r := spec_slot t sl (filter (fun e => id_key (identity e) <> id_key id) (toks x)) in
    let l := insert_sorted entry_lt (mk_entry id p ord r.2) r.1 in
    spec_recover t (mk_tail (if in_batch t then l else retain_last (retained_limit t) l) (flags x) (commits x)).

Definition spec_result (id : llama_kv_tail_identity) (l : list exact_entry) : Z :=
  default LLAMA_KV_TAIL_BODY_SLOT (slot ∘ snd <$> list_find (fun e => identity e = id) l).

(** ** Committing to an arena *)

Definition within (t : tail_store) (a : arena) : Prop := Z.of_nat (length (entries a)) <= retained_limit t.

Lemma index_some a id n e extra t s :
  arena_ok t s extra a -> id_ok id -> (n, e) ∈ entries a ->
  key e = id_key id -> entry_by_cell a !! id_key id = Some n.
Proof. intros [_ Hi _ _] Hid He Hk. apply Hi. eauto. Qed.

Lemma index_none a id extra t s :
  arena_ok t s extra a -> entry_by_cell a !! id_key id = None <-> id_key id ∉ (fun x : node => key x.2) <$> entries a.
Proof.
  intros [_ Hi _ _]. split.
  - intros Hn ([n e] & Hk & He)%list_elem_of_fmap. assert (entry_by_cell a !! id_key id = Some n); [|congruence].
    apply Hi. by exists e.
  - intros Hn. apply eq_None_not_Some. intros [n (e & He & Hk)%Hi]. apply Hn. rewrite <- Hk. by eapply elem_of_key.
Qed.

Lemma key_of_id id : cell_key (stream id) (cell id) = id_key id.
Proof. done. Qed.

(** Entries of different cells have different keys. *)
Lemma id_key_inj id id' : id_ok id -> id_ok id' -> id_key id = id_key id' -> stream id = stream id' /\ cell id = cell id'.
Proof. intros [H1 H2] [H3 H4] H. exact (cell_key_inj _ _ _ _ H1 H2 H3 H4 H). Qed.

Lemma commit_slot_ok t s a :
  settings_ok t -> is_seq t s -> arena_ok t s [] a ->
  (evicts t = true -> 0 < retained_limit t) ->
  (evicts t = false -> Z.of_nat (length (entries a)) < arena_stride t) ->
  exists sl x a', commit_slot t s a = Ok (x, a') /\ arena_ok t s [x] a' /\ same_flags a' a /\
    ((entries a').*2, x) = spec_slot t sl (entries a).*2 /\
    (entries a' = entries a \/ exists v, entries a = v :: entries a').
Proof.
  intros HT Hs HA He Hr. unfold commit_slot, spec_slot. fold (evicts t). rewrite length_fmap.
  destruct (retained_bounds _ HT) as [[_ Hst] Hpos].
  destruct (evicts t && (retained_limit t <=? Z.of_nat (length (entries a)))) eqn:E.
  - apply andb_true_iff in E as [Ev El]. apply Z.leb_le in El. pose proof (He Ev) as Hlim.
    destruct (entries a) as [|v l] eqn:Ee; [simpl in El; lia|].
    destruct v as [n e]. destruct (erase_entry_ok t s [] a [] l n e false HT Hs HA Ee) as (a' & Ea & HA' & He' & Hf).
    exists 0, (slot e), a'. cbn [fst snd]. rewrite Ea. bind_simpl. simpl in HA', He' |- *. rewrite He'.
    split_and!; try done. right. by exists (n, e).
  - assert (Z.of_nat (length (entries a)) < arena_stride t) as Hlt.
    { destruct (evicts t); [|by apply Hr]. apply Z.leb_gt in E. lia. }
    destruct (nodes_ok_acquire t s [] a HT Hs (ok_nodes _ _ _ _ HA)) as (x & u & c & Ea & HN); [simpl; lia|].
    exists x, x, (with_slots a u c). split_and!; [exact Ea| |done|done|by left].
    destruct HA as [_ H2 H3 H4]. by split.
Qed.

Lemma insert_sorted_snd (x : node) (l : list node) :
  (insert_sorted node_lt x l).*2 = insert_sorted entry_lt x.2 l.*2.
Proof. by apply insert_sorted_fmap. Qed.

Lemma index_ok_insert (l : list node) m n e l' :
  index_ok l m -> m !! key e = None -> l' ≡ₚ (n, e) :: l -> index_ok l' (<[key e := n]> m).
Proof.
  intros Hm Hk HP k n'. setoid_rewrite HP. rewrite lookup_insert_Some, (Hm k n'). split.
  - intros [[<- <-]|[Hne (e' & He & <-)]]; [exists e; split; [left|done]|exists e'; split; [by right|done]].
  - intros (e' & [[= -> ->]|He]%elem_of_cons & <-); [by left|]. right. split; [|by exists e'].
    intros Heq. apply (eq_None_not_Some (m !! key e)); [done|]. exists n'. apply Hm. by exists e'.
Qed.

Lemma count_recovery_ok t s extra a :
  settings_ok t -> is_seq t s -> arena_ok t s extra a ->
  arena_ok t s extra (count_recovery t a) /\ entries (count_recovery t a) = entries a /\
  tail_of (count_recovery t a) = spec_recover t (tail_of a).
Proof.
  intros HT Hs HA. pose proof HA as [H1 H2 H3 H4]. unfold count_recovery, spec_recover. simpl.
  destruct (degradation a =? 0); [by split_and!|].
  pose proof (stride_bounds _ _ HT Hs). destruct (retained_bounds _ HT) as [Hr _].
  rewrite u32_small by (unfold INT32_MAX in *; lia). destruct H1.
  destruct (Z.leb_spec (n_tokens t) (recovery_commits a + 1)); (split; [|done]); split; simpl; try done; try lia; by split.
Qed.

(** The conditions for a commit to find a slot. *)
Record room (t : tail_store) (a : arena) : Prop := mk_room {
  rm_limit : evicts t = true -> 0 < retained_limit t;
  rm_free : evicts t = false -> Z.of_nat (length (entries a)) < arena_stride t;
}.

Lemma commit_new_ok t s id p ord a :
  settings_ok t -> is_seq t s -> arena_ok t s [] a -> id_ok id -> room t a ->
  entry_by_cell a !! id_key id = None ->
  exists sl a', commit_new t s id p ord a = Ok a' /\ arena_ok t s [] a' /\
    (compact_storage t = true -> within t a -> within t a') /\
    tail_of a' = (let r := spec_slot t sl (entries a).*2 in
      let l := insert_sorted entry_lt (mk_entry id p ord r.2) r.1 in
      spec_recover t (mk_tail (if in_batch t then l else retain_last (retained_limit t) l) (degradation a) (recovery_commits a))).
Proof.
  intros HT Hs HA Hid [Hw Hr] Hk. unfold commit_new.
  destruct (commit_slot_ok t s a HT Hs HA Hw Hr) as (sl & x & b & Eb & HB & [Hf1 Hf2] & Hspec & Hsub).
  rewrite Eb. bind_simpl. cbn [fst snd].
  assert (Hk' : entry_by_cell b !! id_key id = None).
  { apply (index_none b id [x] t s HB). apply (index_none a id [] t s HA) in Hk. destruct Hsub as [->|[v Hv]]; [done|].
    intros Hin. apply Hk. rewrite Hv, fmap_cons. by right. }
  pose proof (new_name_fresh (entries b)) as Hname. remember (new_name (entries b)) as n.
  pose proof HB as [B1 B2 B3 B4]. rewrite place_insert by done.
  remember (insert_sorted node_lt (n, mk_entry id p ord x) (entries b)) as l eqn:El.
  remember (with_index (with_entries b l) (<[key (mk_entry id p ord x) := n]> (entry_by_cell b))) as c eqn:Ec.
  assert (HP : l ≡ₚ (n, mk_entry id p ord x) :: entries b) by (subst l; apply insert_sorted_perm).
  assert (HC : arena_ok t s [] c).
  { subst c. split; simpl.
    - pose proof (proj1 (index_none b id [x] t s HB) Hk') as Hnk.
      destruct (nodes_ok_add t s x id p ord [] b n l B1 Hid Hname Hnk HP). by split.
    - by eapply index_ok_insert.
    - subst l. apply insert_sorted_sorted; [apply node_lt_asym|apply node_not_gt_trans|done].
    - done. }
  destruct (count_recovery_ok t s [] c HT Hs HC) as (HC' & Ee & Et).
  assert (Hl : l.*2 = (let r := spec_slot t sl (entries a).*2 in insert_sorted entry_lt (mk_entry id p ord r.2) r.1)).
  { by rewrite <- Hspec, El, insert_sorted_snd. }
  assert (Hlen : compact_storage t = true -> within t a -> within t c).
  { intros Hc Hwa. assert (Ev : evicts t = true) by (unfold evicts; by rewrite Hc).
    pose proof (Hw Ev) as Hlim. unfold within in *. subst c. simpl. rewrite HP. simpl.
    destruct (Z.leb_spec (retained_limit t) (Z.of_nat (length (entries a)))) as [Hle|Hlt].
    - apply (f_equal fst) in Hspec. unfold spec_slot in Hspec. rewrite Ev, length_fmap in Hspec.
      rewrite (proj2 (Z.leb_le _ _) Hle) in Hspec. simpl in Hspec.
      destruct (entries a) as [|v k]; [simpl in Hle; lia|]. apply (f_equal length) in Hspec. simpl in *.
      rewrite !length_fmap in Hspec. lia.
    - destruct Hsub as [->|[v Hv]]; [lia|]. rewrite Hv in Hlt. simpl in Hlt. lia. }
  assert (Htail : tail_of (count_recovery t c) = spec_recover t (mk_tail l.*2 (degradation a) (recovery_commits a))).
  { rewrite Et. subst c. unfold tail_of. simpl. by rewrite Hf1, Hf2. }
  exists sl. cbv zeta in Hl |- *. rewrite <- Hl. destruct (in_batch t) eqn:Ein.
  - exists (count_recovery t c). split_and!; [done|done| |done]. intros Hc Hwa. unfold within. rewrite Ee. by apply Hlen.
  - destruct (trim_ok t s (retained_limit t) [] (count_recovery t c) HT Hs) as (d & Ed & HD & Hed & [Hd1 Hd2]);
      [apply retained_bounds, HT|done|].
    exists d. split_and!; [exact Ed|done| |].
    + intros _ _. unfold within. rewrite Hed. pose proof (length_retain_last (retained_limit t) (entries (count_recovery t c))).
      destruct (retained_bounds _ HT). lia.
    + unfold tail_of. rewrite Hed, Hd1, Hd2, retain_last_fmap.
      pose proof (f_equal toks Htail) as Ht1. pose proof (f_equal flags Htail) as Ht2. pose proof (f_equal commits Htail) as Ht3.
      cbn [tail_of toks flags commits] in Ht1, Ht2, Ht3. rewrite Ht1, Ht2, Ht3. unfold spec_recover. simpl.
      by destruct (degradation a =? 0), (n_tokens t <=? recovery_commits a + 1).
Qed.

Lemma commit_again_ok t s n e p ord a :
  settings_ok t -> is_seq t s -> arena_ok t s [] a -> (n, e) ∈ entries a ->
  exists a', commit_again t s n p ord a = Ok a' /\ arena_ok t s [] a' /\ within t a' /\
    (entries a').*2 = retain_last (retained_limit t) (stable_sort entry_lt
      ((fun e' => if decide (identity e' = identity e) then mk_entry (identity e) p ord (slot e') else e') <$> (entries a).*2)) /\
    same_flags a' a.
Proof.
  intros HT Hs HA He. pose proof HA as [H1 H2 H3 H4].
  apply list_elem_of_split in He as (l1 & l2 & E). unfold commit_again, trim. simpl.
  assert (Hupd : (fun x : node => if decide (x.1 = n) then (x.1, mk_entry (identity x.2) p ord (slot x.2)) else x) <$> entries a
     = l1 ++ (n, mk_entry (identity e) p ord (slot e)) :: l2).
  { rewrite E. rewrite <- (update_name l1 l2 n e (mk_entry (identity e) p ord (slot e))) by (rewrite <- E; exact (nk_names _ _ _ _ H1)).
    apply list_fmap_ext. intros i y Hy. apply list_elem_of_lookup_2 in Hy. case_decide as Hd; [|done].
    f_equal. assert (Hin : y ∈ entries a) by (by rewrite E). destruct y as [m e']. simpl in Hd. subst m.
    pose proof (entry_at_elem a n e (nk_names _ _ _ _ H1)) as Ea1. rewrite E in Ea1. specialize (Ea1 ltac:(set_solver)).
    pose proof (entry_at_elem a n e' (nk_names _ _ _ _ H1) Hin) as Ea2.
    rewrite Ea1 in Ea2. by injection Ea2 as <-. }
  rewrite Hupd. remember (l1 ++ (n, mk_entry (identity e) p ord (slot e)) :: l2) as l eqn:El.
  assert (HN : nodes_ok t s [] (with_entries a l)).
  { subst l. by eapply nodes_ok_update. }
  destruct (trim_nodes_ok t s (retained_limit t) [] (stable_sort node_lt l) (with_entries a (stable_sort node_lt l)))
    as (a' & Ea & HN' & He' & Hf & Hi); [done|done|apply retained_bounds, HT| |].
  { apply (nodes_ok_sort t s [] (with_entries a l)) in HN. by destruct HN; split. }
  exists a'. split_and!; [exact Ea| | | |done].
  - split; [done| | |destruct Hf as [_ ->]; done].
    + apply Hi. simpl. intros k n'. setoid_rewrite stable_sort_perm. rewrite (H2 k n'). rewrite E, El.
      split; intros (e' & Hin & <-); apply elem_of_app in Hin as [Hin|Hin];
        try (exists e'; split; [set_solver|done]); apply elem_of_cons in Hin as [[= -> ->]|Hin];
        try (exists e'; split; [set_solver|done]); eexists; (split; [apply elem_of_app; right; left|done]).
    + rewrite He'. apply sorted_drop, sort_sorted.
  - unfold within. pose proof (length_retain_last (retained_limit t) (stable_sort node_lt l)) as Hl. rewrite <- He' in Hl.
    destruct (retained_bounds _ HT). lia.
  - rewrite He', retain_last_fmap, sort_snd. do 2 f_equal. rewrite El, E, !fmap_app, !fmap_cons. simpl.
    rewrite decide_True by done.
    assert (Hne : forall x, x ∈ l1 ++ l2 -> identity x.2 <> identity e).
    { intros x Hx Heq. pose proof (nk_keys _ _ _ _ H1) as Hk. rewrite E, <- Permutation_middle in Hk. simpl in Hk.
      apply NoDup_cons in Hk as [Hk _]. apply Hk. assert (key e = key x.2) as -> by (unfold key; by rewrite Heq).
      by apply (list_elem_of_fmap_2 (fun x : node => key x.2)). }
    f_equal; [|f_equal]; symmetry; apply fmap_id_on; intros y (x & -> & Hx)%list_elem_of_fmap;
      rewrite decide_False; try done; apply Hne; apply elem_of_app; [by left|by right].
Qed.

Lemma commit_entry_ok t s id p ord a :
  settings_ok t -> is_seq t s -> arena_ok t s [] a -> id_ok id -> room t a ->
  exists sl a', commit_entry t s id p ord a = Ok a' /\ arena_ok t s [] a' /\ (compact_storage t = true -> within t a -> within t a') /\
    tail_of a' = spec_commit t sl id p ord (tail_of a).
Proof.
  intros HT Hs HA Hid Hroom. unfold commit_entry. rewrite key_of_id. pose proof HA as [H1 H2 H3 H4].
  destruct (entry_by_cell a !! id_key id) as [n|] eqn:Ek.
  - apply H2 in Ek as (e & He & Hke). rewrite (entry_at_elem a n e (nk_names _ _ _ _ H1) He). bind_simpl.
    destruct (decide (identity e = id)) as [<-|Hne].
    + destruct (commit_again_ok t s n e p ord a HT Hs HA He) as (a' & Ea & HA' & Hw & Ht & [Hf1 Hf2]).
      exists 0, a'. split_and!; [done|done|done|]. unfold spec_commit, tail_of. cbn [toks flags commits].
      rewrite bool_decide_true; [by rewrite Ht, Hf1, Hf2|]. apply (list_elem_of_fmap_2 identity).
      by apply (list_elem_of_fmap_2 snd) in He.
    + apply list_elem_of_split in He as (l1 & l2 & E).
      destruct (erase_entry_ok t s [] a l1 l2 n e true HT Hs HA E) as (b & Eb & HB & Hb & [Hf1 Hf2]).
      rewrite Eb. bind_simpl.
      assert (Hkb : id_key id ∉ (fun x : node => key x.2) <$> entries b).
      { pose proof (nk_keys _ _ _ _ H1) as Hk. rewrite E, <- Permutation_middle in Hk. simpl in Hk. rewrite <- Hb, Hke in Hk.
        by apply NoDup_cons in Hk as [Hk _]. }
      destruct (commit_new_ok t s id p ord b HT Hs HB Hid) as (sl & a' & Ea & HA' & Hw & Ht).
      { destruct Hroom as [R1 R2]. split; [done|]. intros Ev. specialize (R2 Ev).
        rewrite E in R2. rewrite Hb. rewrite !length_app in *. simpl in R2. lia. }
      { by apply (index_none b id [] t s HB). }
      exists sl, a'. split_and!; [done|done| |].
      { intros Hc Hwa. apply Hw; [done|]. unfold within in *. rewrite E in Hwa. rewrite Hb, !length_app in *. simpl in Hwa. lia. }
      rewrite Ht. unfold spec_commit, tail_of. cbn [toks flags commits].
      assert (Hfil : filter (fun e => id_key (identity e) <> id_key id) (entries a).*2 = (entries b).*2).
      { rewrite E, Hb, !fmap_app, fmap_cons, filter_app. simpl. rewrite filter_cons_False by (simpl; intros Hn; apply Hn; exact Hke).
        rewrite Hb, fmap_app in Hkb. rewrite !filter_all; [done|..]; intros y (x & -> & Hx)%list_elem_of_fmap Heq;
          apply Hkb; apply elem_of_app; [right|left]; rewrite <- Heq; by apply (list_elem_of_fmap_2 (fun x : node => key x.2)). }
      rewrite Hfil, Hf1, Hf2, bool_decide_false; [done|].
      intros (e' & -> & ([m e''] & -> & Hx)%list_elem_of_fmap)%list_elem_of_fmap. simpl in *.
      rewrite E in Hx. apply elem_of_app in Hx as [Hx|[[= -> ->]|Hx]%elem_of_cons]; [|done|];
        apply Hkb; rewrite Hb, fmap_app; apply elem_of_app; [left|right]; by apply (list_elem_of_fmap_2 (fun x : node => key x.2)) in Hx.
  - destruct (commit_new_ok t s id p ord a HT Hs HA Hid Hroom Ek) as (sl & a' & Ea & HA' & Hw & Ht).
    exists sl, a'. split_and!; [done|done|done|]. rewrite Ht. unfold spec_commit, tail_of. cbn [toks flags commits].
    apply (index_none a id [] t s HA) in Ek.
    assert (Hk : forall e, e ∈ (entries a).*2 -> id_key (identity e) <> id_key id).
    { intros e (x & -> & Hx)%list_elem_of_fmap Heq. apply Ek. rewrite <- Heq. by apply (list_elem_of_fmap_2 (fun x : node => key x.2)). }
    rewrite bool_decide_false, filter_all; [done|done|].
    intros (e & -> & He)%list_elem_of_fmap. by apply (Hk e).
Qed.

End KvTailSpec.
