(* ===== verification/KvTailRefine.v ===== *)
(** The store of the exact tail refines its specification: every operation outside of a
    copy transaction runs without an exception, and changes the entries of each sequence,
    their slots and their record of degradation as the specification says. *)

From S2P Require Import Prelude.
From S2P Require Import StableSort.
From S2P Require Import KvTailStore.
From S2P Require Import KvTailStoreWf.
From S2P Require Import KvTailSpec.

Module KvTailRefine.
Import KvTailStore KvTailStoreWf KvTailSpec.

(** ** The invariant of a store *)

Definition tails (t : tail_store) : list tail := tail_of <$> arenas t.

(** Slots of sequence [s] that a pending copy holds. *)
Definition held (t : tail_store) (s : Z) : list Z :=
  match pending_for t s with Some p => acquired_slots p | None => [] end.

(** A copy that is pending: the entries its destination will have, each in a slot of the
    destination, old or newly acquired. *)
Record pending_ok (t : tail_store) (p : pending_seq_cp_state) : Prop := mk_pending_ok {
  po_dst : is_seq t (p_dst p);
  po_sorted : Sorted_by entry_lt (destination p);
  po_ids : Forall (fun e => id_ok (identity e)) (destination p);
  po_slots : NoDup (slot <$> destination p);
  po_length : Z.of_nat (length (destination p)) <= retained_limit t;
  po_acquired : Forall (fun sl => sl ∈ slot <$> destination p) (acquired_slots p);
  po_known : forall a, arenas t !! Z.to_nat (p_dst p) = Some a ->
    forall sl, sl ∈ slot <$> destination p -> sl ∈ slot <$> toks (tail_of a) \/ sl ∈ acquired_slots p;
  po_recovery : 0 <= p_recovery p <= n_tokens t;
}.

(** A transaction keeps well-formed arenas to go back to. *)
Record transaction_ok (t : tail_store) (b : batch_transaction_state) : Prop := mk_transaction_ok {
  to_compact : compact_storage t = true;
  to_saved : length (saved b) = length (arenas t);
  to_current : length (current b) = length (arenas t);
  to_affected : length (affected b) = length (arenas t);
  to_arenas : forall s a, is_seq t s -> saved b !! Z.to_nat s = Some a -> arena_ok t s [] a /\ within t a;
}.

Record store_ok (t : tail_store) : Prop := mk_store_ok {
  st_settings : settings_ok t;
  st_arenas : forall s a, is_seq t s -> arenas t !! Z.to_nat s = Some a ->
    arena_ok t s (held t s) a /\ (compact_storage t = true -> within t a);
  st_pending : forall p, pending_seq_cp t = Some p -> pending_ok t p;
  st_transaction : forall b, batch_transaction t = Some b -> transaction_ok t b;
}.

(** Stores that differ in their contents only. *)
Record alike (t t' : tail_store) : Prop := mk_alike {
  al_tokens : n_tokens t' = n_tokens t;
  al_rollback : rollback_tokens t' = rollback_tokens t;
  al_history : history_limit t' = history_limit t;
  al_stride : arena_stride t' = arena_stride t;
  al_slots : n_slots t' = n_slots t;
  al_compact : compact_storage t' = compact_storage t;
  al_arenas : length (arenas t') = length (arenas t);
}.

Lemma alike_refl t : alike t t.
Proof. done. Qed.

Lemma alike_trans t u v : alike t u -> alike u v -> alike t v.
Proof. intros [] []. split; congruence. Qed.

Lemma settings_alike t t' : alike t t' -> settings_ok t -> settings_ok t'.
Proof. intros [] []. split; try congruence; rewrite ?al_tokens0, ?al_rollback0, ?al_history0, ?al_stride0, ?al_slots0, ?al_arenas0; try done. intros H. apply so_plain0. congruence. Qed.

Lemma retained_alike t t' : alike t t' -> retained_limit t' = retained_limit t.
Proof. intros []. unfold retained_limit. by rewrite al_compact0, al_history0, al_tokens0. Qed.

Lemma is_seq_alike t t' s : alike t t' -> is_seq t' s <-> is_seq t s.
Proof. intros []. unfold is_seq. by rewrite al_arenas0. Qed.

Lemma arena_ok_alike t t' s extra a : alike t t' -> arena_ok t s extra a -> arena_ok t' s extra a.
Proof.
  intros [] [[N1 N2 N3 [K1 K2 K3 K4] N5] H2 H3 H4]. split; [|done|done|by rewrite al_tokens0].
  split; try done; [|unfold cursor_ok in *; by rewrite al_stride0].
  split; unfold base in *; rewrite ?al_stride0; done.
Qed.

Lemma within_alike t t' a : alike t t' -> within t a -> within t' a.
Proof. intros H. unfold within. by rewrite (retained_alike t t' H). Qed.

Lemma transaction_alike t t' b : alike t t' -> transaction_ok t b -> transaction_ok t' b.
Proof.
  intros HA [H1 H2 H3 H4 H5]. pose proof HA as []. split; try congruence.
  intros s a Hs Ha. destruct (H5 s a) as [H6 H7]; [by apply (is_seq_alike t t')|done|].
  split; [by eapply arena_ok_alike|by eapply within_alike].
Qed.

Lemma alike_with_arenas t l : length l = length (arenas t) -> alike t (with_arenas t l).
Proof. by split. Qed.

Lemma alike_set_arena t s a : alike t (set_arena t s a).
Proof. apply alike_with_arenas, length_insert. Qed.

Lemma lookup_seq t s : is_seq t s -> exists a, arenas t !! Z.to_nat s = Some a.
Proof. intros Hs. apply lookup_lt_is_Some_2. unfold is_seq in Hs. lia. Qed.

(** ** Assembling an operation from its arenas *)

Definition free_of_copy (t : tail_store) : Prop := pending_seq_cp t = None.

Lemma held_none t s : free_of_copy t -> held t s = [].
Proof. unfold free_of_copy, held, pending_for. by intros ->. Qed.

Lemma with_arenas_ok t l :
  store_ok t -> free_of_copy t -> length l = length (arenas t) ->
  (forall s b, is_seq t s -> l !! Z.to_nat s = Some b -> arena_ok t s [] b /\ (compact_storage t = true -> within t b)) ->
  store_ok (with_arenas t l).
Proof.
  intros [HT Ha Hp Hb] Hf Hl Hn. pose proof (alike_with_arenas t l Hl) as HA. split.
  - by eapply settings_alike.
  - intros s b Hs Hb'. apply (is_seq_alike t _ s HA) in Hs. destruct (Hn s b Hs Hb') as [H1 H2].
    rewrite held_none by done. split; [by eapply arena_ok_alike|]. intros Hev. by eapply within_alike, H2.
  - intros p Hp'. unfold free_of_copy in Hf. simpl in Hp'. congruence.
  - intros b Hb'. eapply transaction_alike; [done|]. by apply Hb.
Qed.

Lemma set_arena_ok t s b :
  store_ok t -> free_of_copy t -> is_seq t s -> arena_ok t s [] b -> (compact_storage t = true -> within t b) ->
  store_ok (set_arena t s b).
Proof.
  intros HK Hf Hs Hb Hw. apply with_arenas_ok; [done|done|apply length_insert|].
  intros s' b' Hs' Hb'. destruct (decide (s' = s)) as [->|Hne].
  - rewrite list_lookup_insert_eq in Hb' by (unfold is_seq in Hs; lia). by injection Hb' as <-.
  - rewrite list_lookup_insert_ne in Hb' by (unfold is_seq in *; lia).
    destruct (st_arenas _ HK s' b' Hs' Hb') as [H1 H2]. rewrite held_none in H1 by done. done.
Qed.

Lemma with_batch_ok t b i :
  store_ok t -> (forall b', b = Some b' -> transaction_ok t b') ->
  store_ok (with_batch t b i).
Proof.
  intros [K1 K2 K3 K4] Hb. assert (HA : alike t (with_batch t b i)) by done. split.
  - by eapply settings_alike.
  - intros s a Hs Ha. apply (is_seq_alike t _ s HA) in Hs. destruct (K2 s a Hs Ha) as [H1 H2].
    split; [by eapply arena_ok_alike; [exact HA|]|]. intros Hev. eapply within_alike; [exact HA|]. by apply H2.
  - intros p Hp. destruct (K3 p Hp) as [P1 P2 P3 P4 P5 P6 P7 P8]. by split.
  - intros b' Hb'. eapply transaction_alike; [exact HA|]. by apply Hb.
Qed.

Lemma tails_set t s b : tails (set_arena t s b) = <[Z.to_nat s := tail_of b]> (tails t).
Proof. unfold tails. simpl. by rewrite list_fmap_insert. Qed.

Lemma for_arenas_from_ok {A B} (f : Z -> A -> R B) (P : Z -> A -> B -> Prop) s l :
  (forall i a, l !! i = Some a -> exists b, f (s + Z.of_nat i) a = Ok b /\ P (s + Z.of_nat i) a b) ->
  exists k, for_arenas_from s f l = Ok k /\ length k = length l /\
    forall i a b, l !! i = Some a -> k !! i = Some b -> P (s + Z.of_nat i) a b.
Proof.
  revert s. induction l as [|a l IH]; intros s H; [by exists []|]. cbn [for_arenas_from].
  destruct (H 0%nat a eq_refl) as (b & Eb & Pb). rewrite Z.add_0_r in *. rewrite Eb. bind_simpl.
  destruct (IH (s + 1)) as (k & Ek & Hk & HP).
  { intros i a' Ha'. destruct (H (S i) a' Ha') as (b' & Eb' & Pb').
    exists b'. by replace (s + 1 + Z.of_nat i) with (s + Z.of_nat (S i)) by lia. }
  rewrite Ek. bind_simpl. exists (b :: k). split_and!; [done|simpl; lia|].
  intros [|i] a' b' Ha' Hb'; simpl in *; simplify_eq; [by rewrite Z.add_0_r|].
  replace (s + Z.of_nat (S i)) with (s + 1 + Z.of_nat i) by lia. eauto.
Qed.

Lemma for_arenas_ok t f (g : Z -> tail -> tail) :
  store_ok t -> free_of_copy t ->
  (forall s a, is_seq t s -> arenas t !! Z.to_nat s = Some a -> arena_ok t s [] a -> (compact_storage t = true -> within t a) ->
    exists b, f s a = Ok b /\ arena_ok t s [] b /\ (compact_storage t = true -> within t b) /\ tail_of b = g s (tail_of a)) ->
  exists t', for_arenas t f = Ok t' /\ store_ok t' /\ alike t t' /\ free_of_copy t' /\
    batch_transaction t' = batch_transaction t /\ in_batch t' = in_batch t /\
    tails t' = imap (fun i x => g (Z.of_nat i) x) (tails t).
Proof.
  intros HK Hf H.
  destruct (for_arenas_from_ok f (fun s a b => arena_ok t s [] b /\ (compact_storage t = true -> within t b) /\ tail_of b = g s (tail_of a))
              0 (arenas t)) as (k & Ek & Hk & HP).
  { intros i a Ha. rewrite Z.add_0_l. assert (is_seq t (Z.of_nat i)) as Hs.
    { unfold is_seq. apply lookup_lt_Some in Ha. lia. }
    destruct (st_arenas _ HK (Z.of_nat i) a Hs) as [H1 H2]; [by rewrite Nat2Z.id|]. rewrite held_none in H1 by done.
    apply H; [done|by rewrite Nat2Z.id|done|done]. }
  unfold for_arenas. rewrite Ek. bind_simpl. eexists. split; [done|].
  assert (HP' : forall s b, is_seq t s -> k !! Z.to_nat s = Some b -> exists a, arenas t !! Z.to_nat s = Some a /\
    arena_ok t s [] b /\ (compact_storage t = true -> within t b) /\ tail_of b = g s (tail_of a)).
  { intros s b Hs Hb. destruct (lookup_seq t s Hs) as [a Ha]. exists a. split; [done|].
    pose proof (HP _ _ _ Ha Hb) as HPs. unfold is_seq in Hs. by rewrite Z.add_0_l, Z2Nat.id in HPs by lia. }
  split_and!; try done.
  - apply with_arenas_ok; [done..|]. intros s b Hs Hb. destruct (HP' s b Hs Hb) as (a & _ & H1 & H2 & _). done.
  - apply list_eq. intros i. unfold tails. simpl. rewrite list_lookup_imap, !list_lookup_fmap.
    destruct (arenas t !! i) as [a|] eqn:Ea; simpl.
    + destruct (lookup_lt_is_Some_2 k i) as [b Hb]; [rewrite Hk; by apply lookup_lt_Some in Ea|].
      rewrite Hb. simpl. f_equal. pose proof (HP i a b Ea Hb) as (_ & _ & ->). by rewrite Z.add_0_l.
    + apply lookup_ge_None in Ea. assert (k !! i = None) as ->; [apply lookup_ge_None; lia|done].
Qed.

(** ** Operations and their specification *)

Inductive tail_op :=
| Commit (s : Z) (id : llama_kv_tail_identity) (p ord row : Z)
| Recycle (st c g : Z)
| MarkDegraded (s fl : Z)
| InvalidateSlots (slots : list Z) (fl : Z)
| SeqRm (s p0 p1 : Z)
| SeqRmCell (s st c : Z)
| SeqKeep (s : Z)
| SeqAdd (s p0 p1 shift : Z)
| SeqDiv (s p0 p1 d : Z)
| Clear.

(** [commit] also returns the slot of the entry. *)
Definition run_op (t : tail_store) (o : tail_op) : R (tail_store * Z) :=
  match o with
  | Commit s id p ord row => commit t s id p ord row
  | Recycle st c g => t ← recycle t st c g; Ok (t, 0)
  | MarkDegraded s fl => t ← mark_degraded t s fl; Ok (t, 0)
  | InvalidateSlots slots fl => t ← invalidate_slots t slots fl; Ok (t, 0)
  | SeqRm s p0 p1 => t ← seq_rm t s p0 p1; Ok (t, 0)
  | SeqRmCell s st c => t ← seq_rm_cell t s st c; Ok (t, 0)
  | SeqKeep s => t ← seq_keep t s; Ok (t, 0)
  | SeqAdd s p0 p1 d => t ← seq_add t s p0 p1 d; Ok (t, 0)
  | SeqDiv s p0 p1 d => t ← seq_div t s p0 p1 d; Ok (t, 0)
  | Clear => t ← clear t; Ok (t, 0)
  end.

Definition with_toks (x : tail) (l : list exact_entry) : tail := mk_tail l (flags x) (commits x).
Definition degrade (fl : Z) (x : tail) : tail := mk_tail (toks x) (Z.lor (flags x) fl) 0.

Definition spec_recycle (st c g : Z) (x : tail) : tail :=
  with_toks x (filter (fun e => ~ (stream (identity e) = st /\ cell (identity e) = c /\ generation (identity e) <> g)) (toks x)).

Definition spec_invalidate (slots : list Z) (fl : Z) (x : tail) : tail :=
  if existsb (fun e => bool_decide (slot e ∈ slots)) (toks x)
  then degrade fl (with_toks x (filter (fun e => slot e ∉ slots) (toks x))) else x.

(** A sequence that is removed as a whole is no longer degraded. *)
Definition spec_rm (p0 p1 : Z) (x : tail) : tail :=
  let l := filter (fun e => in_positions p0 p1 (position e) = false) (toks x) in
  if (length l =? 0)%nat && full_range p0 p1 then mk_tail l 0 0 else with_toks x l.

Definition spec_rm_cell (st c : Z) (x : tail) : tail :=
  with_toks x (filter (fun e => ~ (stream (identity e) = st /\ cell (identity e) = c)) (toks x)).

(** Entries that move by [mv] in every sequence that shares them. *)
Definition spec_move (t : tail_store) (ids : list llama_kv_tail_identity) (mv : Z -> Z) (er dg : bool) (x : tail) : tail :=
  if touched ids (toks x) then
    let y := with_toks x (retain_last (retained_limit t) (stable_sort entry_lt (omap (move_entry ids mv er) (toks x)))) in
    if dg then degrade LLAMA_KV_TAIL_DEGRADED_HISTORICAL_OP y else y
  else x.

Definition ids_in (p0 p1 : Z) (x : tail) : list llama_kv_tail_identity :=
  identity <$> filter (fun e => in_positions p0 p1 (position e)) (toks x).

Definition on_seq (s : Z) (f : tail -> tail) (A : list tail) : list tail :=
  if (0 <=? s) then alter f (Z.to_nat s) A else A.

Definition spec_move_all (t : tail_store) (s p0 p1 : Z) (mv : Z -> Z) (er dg : bool) (A : list tail) : list tail :=
  match A !! Z.to_nat s with
  | Some x => if 0 <=? s then spec_move t (ids_in p0 p1 x) mv er dg <$> A else A
  | None => A
  end.

Definition tail_spec (t : tail_store) (o : tail_op) (A A' : list tail) (r : Z) : Prop :=
  match o with
  | Commit s id p ord row =>
      if valid_seq t s && negb (n_tokens t =? 0) then
        exists x sl, A !! Z.to_nat s = Some x /\ A' = <[Z.to_nat s := spec_commit t sl id p ord x]> A /\
          r = spec_result id (toks (spec_commit t sl id p ord x))
      else A' = A /\ r = LLAMA_KV_TAIL_BODY_SLOT
  | Recycle st c g => A' = spec_recycle st c g <$> A
  | MarkDegraded s fl => A' = if s <? 0 then degrade fl <$> A else on_seq s (degrade fl) A
  | InvalidateSlots slots fl => A' = spec_invalidate slots fl <$> A
  | SeqRm s p0 p1 => A' = on_seq s (spec_rm p0 p1) A
  | SeqRmCell s st c => A' = on_seq s (spec_rm_cell st c) A
  | SeqKeep s => A' = imap (fun i x => if Z.of_nat i =? s then x else spec_rm 0 (-1) x) A
  | SeqAdd s p0 p1 d =>
      A' = spec_move_all t s p0 p1 (fun p => p + d) true (negb (d =? 0) && negb (full_range p0 p1)) A
  | SeqDiv s p0 p1 d =>
      A' = if d =? 0 then A
           else spec_move_all t s p0 p1 (fun p => Z.quot p d) false (negb (d =? 1) && negb (full_range p0 p1)) A
  | Clear => A' = (fun _ => mk_tail [] 0 0) <$> A
  end.

(** What the caller has to see to: cells and generations of 32 bits, a free slot for a
    token that is added to an overlay within a batch, and no overflow of positions. *)
Definition op_ok (t : tail_store) (o : tail_op) : Prop :=
  match o with
  | Commit s id p ord row =>
      id_ok id /\
      (evicts t = false -> forall a, is_seq t s -> arenas t !! Z.to_nat s = Some a -> Z.of_nat (length (entries a)) < arena_stride t) /\
      (batch_transaction t <> None -> has_row row = true -> 0 <= row /\ n_slots t + row <= INT32_MAX)
  | Recycle st c g => id_ok (mk_id st c g)
  | SeqAdd s p0 p1 d => forall x y e, tails t !! Z.to_nat s = Some x -> y ∈ tails t -> e ∈ toks y ->
      identity e ∈ ids_in p0 p1 x -> in_i32 (position e + d) = true
  | SeqDiv s p0 p1 d => forall x y e, tails t !! Z.to_nat s = Some x -> y ∈ tails t -> e ∈ toks y ->
      identity e ∈ ids_in p0 p1 x -> in_i32 (Z.quot (position e) d) = true
  | _ => True
  end.

(** ** Each operation *)

(** [affected] is what a failed batch has to give up. *)
Lemma tails_length t : length (tails t) = length (arenas t).
Proof. apply length_fmap. Qed.

Lemma list_find_fmap_some {A B} (f : A -> B) (P : B -> Prop) `{!forall x, Decision (P x)} (l : list A) :
  (list_find P (f <$> l)) = prod_map id f <$> list_find (fun x => P (f x)) l.
Proof.
  induction l as [|x l IH]; [done|]. rewrite fmap_cons. simpl. case_decide; [done|]. rewrite IH.
  by destruct (list_find _ l) as [[i y]|].
Qed.

Lemma result_ok t s id a :
  arena_ok t s [] a -> id_ok id ->
  match entry_by_cell a !! cell_key (stream id) (cell id) with
  | None => Ok LLAMA_KV_TAIL_BODY_SLOT
  | Some n => e ← entry_at a n; Ok (if decide (identity e = id) then slot e else LLAMA_KV_TAIL_BODY_SLOT)
  end = Ok (E := tail_error) (spec_result id (entries a).*2).
Proof.
  intros HA Hid. pose proof HA as [H1 H2 _ _]. rewrite key_of_id. unfold spec_result.
  rewrite list_find_fmap_some.
  destruct (list_find (fun x : node => identity x.2 = id) (entries a)) as [[i [n e]]|] eqn:Ef; simpl.
  - apply list_find_Some in Ef as (Hi & Hid' & _). apply list_elem_of_lookup_2 in Hi. simpl in Hid'.
    rewrite (index_some a id n e [] t s HA Hid Hi) by (unfold key; by rewrite Hid').
    rewrite (entry_at_elem a n e (nk_names _ _ _ _ H1) Hi). bind_simpl. by rewrite decide_True by done.
  - apply list_find_None in Ef. destruct (entry_by_cell a !! id_key id) as [n|] eqn:Ek; [|done].
    apply H2 in Ek as (e & He & _). rewrite (entry_at_elem a n e (nk_names _ _ _ _ H1) He). bind_simpl.
    rewrite decide_False; [done|]. rewrite Forall_forall in Ef. exact (Ef (n, e) He).
Qed.

(** A transaction that goes on: it keeps what it saved and whom it affected. *)
Definition extends (b b' : option batch_transaction_state) : Prop :=
  match b, b' with
  | Some b, Some b' => saved b' = saved b /\ forall i, affected b !! i = Some true -> affected b' !! i = Some true
  | None, None => True
  | _, _ => False
  end.

Lemma extends_refl b : extends b b.
Proof. by destruct b. Qed.
#[local] Hint Resolve extends_refl : core.

Lemma extends_trans b1 b2 b3 : extends b1 b2 -> extends b2 b3 -> extends b1 b3.
Proof. destruct b1, b2, b3; simpl; try done. intros [-> H1] [-> H2]. auto. Qed.

(** What all operations but the transactions keep. *)
Record kept (t t' : tail_store) : Prop := mk_kept {
  kp_ok : store_ok t';
  kp_alike : alike t t';
  kp_free : free_of_copy t';
  kp_transaction : extends (batch_transaction t) (batch_transaction t');
}.

Lemma on_seq_alter t s a f :
  is_seq t s -> arenas t !! Z.to_nat s = Some a ->
  on_seq s f (tails t) = <[Z.to_nat s := f (tail_of a)]> (tails t).
Proof.
  intros Hs Ha. unfold on_seq. unfold is_seq in Hs. rewrite (proj2 (Z.leb_le 0 s)) by lia.
  apply list_eq. intros i. destruct (decide (i = Z.to_nat s)) as [->|Hi].
  - rewrite list_lookup_alter_eq, list_lookup_insert_eq by (rewrite tails_length; lia).
    unfold tails. rewrite list_lookup_fmap, Ha. done.
  - by rewrite list_lookup_alter_ne, list_lookup_insert_ne by done.
Qed.

Lemma on_seq_none t s f : valid_seq t s = false -> on_seq s f (tails t) = tails t.
Proof.
  intros H. unfold on_seq. destruct (Z.leb_spec 0 s); [|done].
  apply list_eq. intros i. destruct (decide (i = Z.to_nat s)) as [->|Hi]; [|by rewrite list_lookup_alter_ne].
  rewrite list_lookup_alter_eq. assert (tails t !! Z.to_nat s = None) as ->; [|done].
  apply lookup_ge_None. rewrite tails_length. unfold valid_seq in H. lia.
Qed.

(** An operation on one sequence. *)
Lemma one_seq_ok t s (f : arena -> R arena) g :
  store_ok t -> free_of_copy t ->
  (forall a, is_seq t s -> arena_ok t s [] a -> exists b, f a = Ok b /\ arena_ok t s [] b /\
     (length (entries b) <= length (entries a))%nat /\ tail_of b = g (tail_of a)) ->
  exists t', (if negb (valid_seq t s) then Ok t else a ← at_ (arenas t) (Z.to_nat s); a ← f a; Ok (set_arena t s a)) = Ok t' /\
    kept t t' /\ tails t' = on_seq s g (tails t).
Proof.
  intros HK Hf H. destruct (valid_seq t s) eqn:Hv; simpl.
  - apply valid_seq_spec in Hv as Hs. destruct (lookup_seq t s Hs) as [a Ha].
    rewrite (at_lookup _ _ _ Ha). bind_simpl. destruct (st_arenas _ HK s a Hs Ha) as [HA Hw].
    rewrite held_none in HA by done. destruct (H a Hs HA) as (b & Eb & HB & Hl & Ht). rewrite Eb. bind_simpl.
    eexists. split; [done|]. split.
    + split; [|apply alike_set_arena|done|done]. apply set_arena_ok; try done.
      intros Hev. specialize (Hw Hev). unfold within in *. lia.
    + by rewrite tails_set, (on_seq_alter t s a), Ht.
  - exists t. split; [done|]. split; [by split|]. by rewrite on_seq_none.
Qed.

Lemma commit_ok t s id p ord row :
  store_ok t -> free_of_copy t -> op_ok t (Commit s id p ord row) ->
  exists t' r, commit t s id p ord row = Ok (t', r) /\ kept t t' /\
    tail_spec t (Commit s id p ord row) (tails t) (tails t') r /\
    (has_row row = true -> 0 <= r -> forall b, batch_transaction t' = Some b -> affected b !! Z.to_nat s = Some true).
Proof.
  intros HK Hf (Hid & Hroom & Hrow). unfold commit. cbn [tail_spec].
  destruct (valid_seq t s) eqn:Hv; simpl; [|exists t; eexists; by split_and!].
  destruct (Z.eqb_spec (n_tokens t) 0) as [Hn|Hn]; simpl; [exists t; eexists; by split_and!|].
  apply valid_seq_spec in Hv as Hs. destruct (lookup_seq t s Hs) as [a Ha].
  rewrite (at_lookup _ _ _ Ha). bind_simpl. destruct (st_arenas _ HK s a Hs Ha) as [HA Hw].
  rewrite held_none in HA by done. pose proof (st_settings _ HK) as HT.
  destruct (retained_bounds _ HT) as [[Hr1 Hr2] Hr3]. pose proof (so_tokens _ HT).
  destruct (commit_entry_ok t s id p ord a HT Hs HA Hid) as (sl & b & Eb & HB & Hwb & Ht).
  { split; [|by eauto]. intros _. lia. }
  rewrite Eb. bind_simpl. unfold finish_commit. rewrite (result_ok t s id b HB Hid). bind_simpl.
  assert (HK' : store_ok (set_arena t s b)) by (apply set_arena_ok; [done..|]; intros Hc; by apply Hwb, Hw).
  assert (Hspec : tails (set_arena t s b) = <[Z.to_nat s := spec_commit t sl id p ord (tail_of a)]> (tails t)) by (by rewrite tails_set, Ht).
  assert (Hres : spec_result id (entries b).*2 = spec_result id (toks (spec_commit t sl id p ord (tail_of a)))) by (by rewrite <- Ht).
  assert (Hx : tails t !! Z.to_nat s = Some (tail_of a)) by (unfold tails; by rewrite list_lookup_fmap, Ha).
  change (batch_transaction (set_arena t s b)) with (batch_transaction t).
  destruct (batch_transaction t) as [tx|] eqn:Etx.
  - destruct (has_row row && (0 <=? spec_result id (entries b).*2)) eqn:Eh.
    + apply andb_true_iff in Eh as [Eh _]. destruct (Hrow ltac:(done) Eh) as [Hp1 Hp2].
      pose proof (so_slots _ HT). change (n_slots (set_arena t s b)) with (n_slots t).
      rewrite u64_small by (unfold INT32_MAX in *; nia). rewrite (proj2 (Z.leb_le _ _)) by lia. bind_simpl.
      pose proof (st_transaction _ HK tx Etx) as [T1 T2 T3 T4 T5]. unfold is_seq in Hs.
      destruct (lookup_lt_is_Some_2 (current tx) (Z.to_nat s)) as [cur Hcur]; [lia|].
      destruct (lookup_lt_is_Some_2 (affected tx) (Z.to_nat s)) as [af Haf]; [lia|].
      rewrite (at_lookup _ _ _ Hcur), (at_lookup _ _ _ Haf). bind_simpl.
      do 2 eexists. split; [done|]. split; [|split; [by exists (tail_of a), sl|]].
      * split; [|split; try done; apply length_insert|done|].
        2:{ rewrite Etx. split; [done|]. intros i Hi. simpl. destruct (decide (i = Z.to_nat s)) as [->|Hne].
            - by rewrite list_lookup_insert_eq by (by apply lookup_lt_Some in Haf).
            - by rewrite list_lookup_insert_ne. }
        apply with_batch_ok; [done|].
        intros tx' [= <-]. split; simpl; [done|rewrite length_insert..|]; try (rewrite ?length_insert; done).
        intros s' a' Hs' Ha'. apply (is_seq_alike t _ s' (alike_set_arena t s b)) in Hs'.
        destruct (T5 s' a' Hs' Ha') as [H1 H2]. split; [|done]. eapply arena_ok_alike; [apply alike_set_arena|done].
      * intros _ _ tx' [= <-]. simpl. by rewrite list_lookup_insert_eq by (by apply lookup_lt_Some in Haf).
    + do 2 eexists. split; [done|]. split; [split; [done|apply alike_set_arena|done|done]|]. split; [by exists (tail_of a), sl|].
      intros Hr0 Hr'. rewrite Hr0 in Eh. simpl in Eh. apply Z.leb_gt in Eh. lia.
  - do 2 eexists. split; [done|]. split; [split; [done|apply alike_set_arena|done|done]|]. split; [by exists (tail_of a), sl|].
    intros _ _ b' Hb'. simpl in Hb'. congruence.
Qed.

Lemma filter_false_snd (f : exact_entry -> bool) (l : list node) :
  (filter (fun x : node => f x.2 = false) l).*2 = filter (fun e => f e = false) l.*2.
Proof.
  induction l as [|x l IH]; [done|]. rewrite fmap_cons, !filter_cons. case_decide; [|done]. rewrite fmap_cons. by rewrite IH.
Qed.

Lemma seq_rm_arena_ok t s p0 p1 a :
  settings_ok t -> is_seq t s -> arena_ok t s [] a ->
  exists b, seq_rm_arena t p0 p1 s a = Ok b /\ arena_ok t s [] b /\
    (length (entries b) <= length (entries a))%nat /\ tail_of b = spec_rm p0 p1 (tail_of a).
Proof.
  intros HT Hs HA. unfold seq_rm_arena.
  destruct (erase_rebuild_ok t s (fun e => in_positions p0 p1 (position e)) [] a HT Hs HA) as (b & m & Eb & Em & HB & [Hf1 Hf2] & He).
  rewrite Eb. bind_simpl. rewrite Em. bind_simpl. eexists. split; [done|].
  assert (Ht : (entries b).*2 = filter (fun e => in_positions p0 p1 (position e) = false) (entries a).*2).
  { rewrite He. apply (filter_false_snd (fun e => in_positions p0 p1 (position e))). }
  unfold spec_rm, with_toks, tail_of. cbn [toks flags commits]. rewrite <- Ht, length_fmap.
  change (entries (with_index b m)) with (entries b). rewrite <- andb_assoc. fold (full_range p0 p1).
  assert (Hl : (length (entries b) <= length (entries a))%nat) by (rewrite He; apply length_filter).
  destruct ((length (entries b) =? 0)%nat && full_range p0 p1).
  - split_and!; [|done|done]. destruct HB as [H1 H2 H3 H4]. split; try done.
    + destruct H1. by split.
    + simpl. pose proof (so_tokens _ HT). lia.
  - split_and!; [done|done|]. simpl. by rewrite Hf1, Hf2.
Qed.

Lemma tail_rm_ok t s p0 p1 :
  store_ok t -> free_of_copy t ->
  exists t', seq_rm t s p0 p1 = Ok t' /\ kept t t' /\ tails t' = on_seq s (spec_rm p0 p1) (tails t).
Proof.
  intros HK Hf. apply (one_seq_ok t s (seq_rm_arena t p0 p1 s) (spec_rm p0 p1)); [done..|].
  intros a Hs HA. apply seq_rm_arena_ok; [apply HK|done..].
Qed.

Lemma tail_rm_cell_ok t s st c :
  store_ok t -> free_of_copy t ->
  exists t', seq_rm_cell t s st c = Ok t' /\ kept t t' /\ tails t' = on_seq s (spec_rm_cell st c) (tails t).
Proof.
  intros HK Hf.
  destruct (one_seq_ok t s (fun a => a ← erase_if t s (fun e => (stream (identity e) =? st) && (cell (identity e) =? c)) a; rebuild_index a)
              (spec_rm_cell st c) HK Hf) as (t' & E & HK' & Ht).
  - intros a Hs HA.
    destruct (erase_rebuild_ok t s (fun e => (stream (identity e) =? st) && (cell (identity e) =? c)) [] a (st_settings _ HK) Hs HA)
      as (b & m & Eb & Em & HB & [Hf1 Hf2] & He).
    rewrite Eb. bind_simpl. rewrite Em. eexists. split; [done|]. split_and!; [done|simpl; rewrite He; apply length_filter|].
    unfold spec_rm_cell, with_toks, tail_of. simpl. rewrite Hf1, Hf2, He. f_equal.
    etrans; [apply (filter_false_snd (fun e => (stream (identity e) =? st) && (cell (identity e) =? c)))|].
    apply filter_iff_in. intros e _. destruct (Z.eqb_spec (stream (identity e)) st), (Z.eqb_spec (cell (identity e)) c); simpl; naive_solver.
  - exists t'. split; [|done]. rewrite <- E. unfold seq_rm_cell. destruct (valid_seq t s); [|done]. simpl.
    destruct (at_ _ _); [|done]. bind_simpl. by destruct (erase_if _ _ _ _).
Qed.

Lemma for_arenas_kept t f g :
  store_ok t -> free_of_copy t ->
  (forall s a, is_seq t s -> arenas t !! Z.to_nat s = Some a -> arena_ok t s [] a -> (compact_storage t = true -> within t a) ->
    exists b, f s a = Ok b /\ arena_ok t s [] b /\ (compact_storage t = true -> within t b) /\ tail_of b = g s (tail_of a)) ->
  exists t', for_arenas t f = Ok t' /\ kept t t' /\ tails t' = imap (fun i x => g (Z.of_nat i) x) (tails t).
Proof.
  intros HK Hf H. destruct (for_arenas_ok t f g HK Hf H) as (t' & E & HK' & HA & Hf' & Hb & _ & Ht).
  exists t'. split; [exact E|]. split; [|done]. split; [done|done|done|by rewrite Hb].
Qed.

Lemma imap_const {A B} (f : A -> B) (l : list A) : imap (fun _ x => f x) l = f <$> l.
Proof. apply list_eq. intros i. by rewrite list_lookup_imap, list_lookup_fmap. Qed.

Lemma tail_keep_ok t s :
  store_ok t -> free_of_copy t ->
  exists t', seq_keep t s = Ok t' /\ kept t t' /\
    tails t' = imap (fun i x => if Z.of_nat i =? s then x else spec_rm 0 (-1) x) (tails t).
Proof.
  intros HK Hf. apply (for_arenas_kept t _ (fun i x => if i =? s then x else spec_rm 0 (-1) x)); [done..|].
  intros s' a Hs Ha HA Hw. destruct (s' =? s); [by exists a|].
  destruct (seq_rm_arena_ok t s' 0 (-1) a (st_settings _ HK) Hs HA) as (b & E & HB & Hl & Ht).
  exists b. split_and!; try done. intros Hev. specialize (Hw Hev). unfold within in *. lia.
Qed.

Lemma or_flags_ok t s a fl : settings_ok t -> arena_ok t s [] a -> arena_ok t s [] (or_flags a fl).
Proof.
  intros HT [H1 H2 H3 H4]. split; try done; [destruct H1; by split|]. simpl. pose proof (so_tokens _ HT). lia.
Qed.

Lemma invalidate_ok t slots fl :
  store_ok t -> free_of_copy t ->
  exists t', invalidate_slots t slots fl = Ok t' /\ kept t t' /\ tails t' = spec_invalidate slots fl <$> tails t.
Proof.
  intros HK Hf. rewrite <- imap_const. apply (for_arenas_kept t _ (fun _ x => spec_invalidate slots fl x)); [done..|].
  intros s a Hs Ha HA Hw. unfold invalidate_arena, spec_invalidate. simpl.
  destruct (existsb _ _); [|by exists a].
  pose (f (e : exact_entry) := bool_decide (slot e ∈ slots)). fold f.
  destruct (erase_rebuild_ok t s f [] a (st_settings _ HK) Hs HA)
    as (b & m & Eb & Em & HB & [Hf1 Hf2] & He).
  rewrite Eb. bind_simpl. rewrite Em. bind_simpl. eexists. split; [done|]. split_and!.
  - apply or_flags_ok; [apply HK|done].
  - intros Hev. specialize (Hw Hev). unfold within in *. simpl.
    assert (length (entries b) <= length (entries a))%nat by (rewrite He; apply length_filter). lia.
  - unfold tail_of, degrade, with_toks. simpl. rewrite Hf1, He.
    f_equal. etrans; [apply (filter_false_snd f)|].
    apply filter_iff_in. intros e _. unfold f. by rewrite bool_decide_eq_false.
Qed.

Lemma mark_degraded_ok t s fl :
  store_ok t -> free_of_copy t ->
  exists t', mark_degraded t s fl = Ok t' /\ kept t t' /\
    tails t' = if s <? 0 then degrade fl <$> tails t else on_seq s (degrade fl) (tails t).
Proof.
  intros HK Hf. unfold mark_degraded. unfold free_of_copy in Hf. destruct (s <? 0).
  - simpl. rewrite Hf. simpl. eexists. split; [done|]. split.
    + assert (HA : store_ok (with_arenas t ((fun a => or_flags a fl) <$> arenas t))).
      { apply with_arenas_ok; [done|done|apply length_fmap|]. intros s' b Hs' Hb.
        rewrite list_lookup_fmap in Hb. destruct (arenas t !! Z.to_nat s') as [a|] eqn:Ea; [|done]. injection Hb as <-.
        destruct (st_arenas _ HK s' a Hs' Ea) as [H1 H2]. rewrite held_none in H1 by done.
        split; [apply or_flags_ok; [apply HK|done]|done]. }
      pose proof (alike_with_arenas t ((fun a => or_flags a fl) <$> arenas t) (length_fmap _ _)) as HL.
      rewrite <- Hf. split; [|exact HL|exact Hf|done]. destruct t. exact HA.
    + unfold tails. simpl. by rewrite <- !list_fmap_compose.
  - rewrite Hf.
    destruct (one_seq_ok t s (fun a => Ok (or_flags a fl)) (degrade fl) HK Hf) as (t' & E & HK' & Ht).
    { intros a Hs HA. eexists. split; [done|]. split_and!; [|done|done]. apply or_flags_ok; [apply HK|done]. }
    exists t'. split; [|done]. rewrite <- E. by destruct (valid_seq t s).
Qed.

Lemma move_all_ok t s p0 p1 move mv er dg :
  store_ok t -> free_of_copy t ->
  (forall x y e, tails t !! Z.to_nat s = Some x -> y ∈ tails t -> e ∈ toks y -> identity e ∈ ids_in p0 p1 x ->
     move (position e) = Ok (mv (position e))) ->
  exists t', (if negb (valid_seq t s) then Ok t else
      a ← at_ (arenas t) (Z.to_nat s); for_arenas t (move_arena t (identities_in p0 p1 a) move er dg)) = Ok t' /\
    kept t t' /\ tails t' = spec_move_all t s p0 p1 mv er dg (tails t).
Proof.
  intros HK Hf Hmv. unfold spec_move_all. destruct (valid_seq t s) eqn:Hv; simpl.
  - apply valid_seq_spec in Hv as Hs. destruct (lookup_seq t s Hs) as [a Ha].
    rewrite (at_lookup _ _ _ Ha). bind_simpl.
    assert (Hx : tails t !! Z.to_nat s = Some (tail_of a)) by (unfold tails; by rewrite list_lookup_fmap, Ha).
    rewrite Hx. unfold is_seq in Hs. rewrite (proj2 (Z.leb_le 0 s)) by lia.
    assert (Hids : identities_in p0 p1 a = ids_in p0 p1 (tail_of a)).
    { unfold identities_in, ids_in, tail_of. simpl. generalize (entries a) as l. intros l.
      induction l as [|x l IH]; [done|]. rewrite fmap_cons, !filter_cons. case_decide; [|done]. rewrite !fmap_cons. by f_equal. }
    rewrite Hids, <- imap_const. apply (for_arenas_kept t _ (fun _ => spec_move t (ids_in p0 p1 (tail_of a)) mv er dg)); [done..|].
    intros s' b Hs' Hb HB Hw.
    destruct (move_arena_ok t s' (ids_in p0 p1 (tail_of a)) move mv er dg b (st_settings _ HK) Hs' HB) as (c & Ec & HC & Hc & Hd & Hr).
    { intros e He Hid. apply (Hmv (tail_of a) (tail_of b)); [done| |done|done].
      unfold tails. apply list_elem_of_fmap_2. by eapply list_elem_of_lookup_2. }
    exists c. split_and!; [done|done| |].
    + intros Hev. specialize (Hw Hev). unfold within in *. rewrite <- (length_fmap snd), Hc.
      destruct (touched _ _); [|by rewrite length_fmap].
      destruct (retained_bounds _ (st_settings _ HK)) as [_ ?].
      match goal with |- context [length (retain_last ?n ?l)] => pose proof (length_retain_last n l) end. lia.
    + unfold tail_of at 1. rewrite Hc, Hd, Hr. unfold spec_move, degrade, with_toks, tail_of. simpl.
      by destruct (touched _ _), dg.
  - exists t. split; [done|]. split; [by split|]. unfold valid_seq in Hv.
    destruct (Z.leb_spec 0 s); [|by destruct (tails t !! _)].
    assert (tails t !! Z.to_nat s = None) as ->; [|done]. apply lookup_ge_None. rewrite tails_length. lia.
Qed.

Lemma recycle_arena_ok t st c g s a :
  settings_ok t -> is_seq t s -> arena_ok t s [] a -> id_ok (mk_id st c g) ->
  exists b f, recycle_arena t st c g s a = Ok (b, f) /\ arena_ok t s [] b /\
    (length (entries b) <= length (entries a))%nat /\ tail_of b = spec_recycle st c g (tail_of a) /\
    (f = false -> b = a).
Proof.
  intros HT Hs HA Hid. pose proof HA as [H1 H2 H3 H4]. unfold recycle_arena.
  change (cell_key st c) with (id_key (mk_id st c g)).
  assert (Hsame : forall x, x ∈ entries a -> stream (identity x.2) = st /\ cell (identity x.2) = c -> key x.2 = id_key (mk_id st c g)).
  { intros x _ [<- <-]. done. }
  destruct (entry_by_cell a !! id_key (mk_id st c g)) as [n|] eqn:Ek.
  - apply H2 in Ek as (e & He & Hke). rewrite (entry_at_elem a n e (nk_names _ _ _ _ H1) He). bind_simpl.
    pose proof (nk_ids _ _ _ _ H1) as Hids. rewrite Forall_forall in Hids.
    assert (Hcell : stream (identity e) = st /\ cell (identity e) = c).
    { apply (id_key_inj (identity e) (mk_id st c g)); [exact (Hids (n, e) He)|done|done]. }
    assert (Honly : forall x, x ∈ entries a -> stream (identity x.2) = st /\ cell (identity x.2) = c -> x = (n, e)).
    { intros [m e'] Hx Hc'. pose proof (Hsame _ Hx Hc') as Hk. simpl in Hk.
      apply list_elem_of_lookup in Hx as [i Hi]. apply list_elem_of_lookup in He as [j Hj].
      assert (i = j) as <-; [|congruence]. eapply NoDup_lookup; [exact (nk_keys _ _ _ _ H1)|..];
        rewrite list_lookup_fmap; [by rewrite Hi|]. rewrite Hj. simpl. by rewrite Hke, Hk. }
    destruct (Z.eqb_spec (generation (identity e)) g) as [Hg|Hg].
    + exists a, false. split_and!; try done. unfold spec_recycle, with_toks. simpl. rewrite filter_all; [done|].
      intros e' ([m e''] & -> & Hx)%list_elem_of_fmap (Hs1 & Hs2 & Hs3). simpl in *.
      pose proof (Honly _ Hx (conj Hs1 Hs2)) as [= -> ->]. done.
    + apply list_elem_of_split in He as (l1 & l2 & E).
      destruct (erase_entry_ok t s [] a l1 l2 n e true HT Hs HA E) as (b & Eb & HB & Hb & [Hf1 Hf2]).
      rewrite Eb. bind_simpl. exists b, true. split_and!; [done|done|rewrite Hb, E, !length_app; simpl; lia| |done].
      unfold spec_recycle, with_toks, tail_of. simpl. rewrite Hf1, Hf2, Hb, E, !fmap_app, fmap_cons, filter_app. simpl.
      rewrite filter_cons_False by (intros Hn; apply Hn; split_and!; [apply Hcell|apply Hcell|done]).
      f_equal. pose proof (nk_keys _ _ _ _ H1) as Hk. rewrite E, <- Permutation_middle in Hk. simpl in Hk.
      apply NoDup_cons in Hk as [Hk _].
      rewrite !filter_all; [done|..]; intros e' ([m e''] & -> & Hx)%list_elem_of_fmap (Hs1 & Hs2 & _); apply Hk;
        rewrite Hke; rewrite <- (Hsame (m, e'')) by (try done; rewrite E; set_solver);
        apply (list_elem_of_fmap_2 (fun x : node => key x.2)); set_solver.
  - exists a, false. split_and!; try done. unfold spec_recycle, with_toks. simpl. rewrite filter_all; [done|].
    apply (index_none a _ [] t s HA) in Ek. intros e ([m e'] & -> & Hx)%list_elem_of_fmap (Hs1 & Hs2 & _). apply Ek.
    rewrite <- (Hsame (m, e') Hx) by done. by apply (list_elem_of_fmap_2 (fun x : node => key x.2)).
Qed.

Lemma recycle_ok t st c g :
  store_ok t -> free_of_copy t -> id_ok (mk_id st c g) ->
  exists t', recycle t st c g = Ok t' /\ kept t t' /\ tails t' = spec_recycle st c g <$> tails t.
Proof.
  intros HK Hf Hid. unfold recycle.
  destruct (for_arenas_from_ok (recycle_arena t st c g)
    (fun s a r => arena_ok t s [] r.1 /\ (compact_storage t = true -> within t r.1) /\ tail_of r.1 = spec_recycle st c g (tail_of a))
    0 (arenas t)) as (l & El & Hl & HP).
  { intros i a Ha. rewrite Z.add_0_l. assert (is_seq t (Z.of_nat i)) as Hs.
    { unfold is_seq. apply lookup_lt_Some in Ha. lia. }
    destruct (st_arenas _ HK (Z.of_nat i) a Hs) as [H1 H2]; [by rewrite Nat2Z.id|]. rewrite held_none in H1 by done.
    destruct (recycle_arena_ok t st c g (Z.of_nat i) a (st_settings _ HK) Hs H1 Hid) as (b & f & Eb & HB & Hlen & Ht & _).
    exists (b, f). split_and!; try done. intros Hev. specialize (H2 Hev). unfold within in *. simpl. lia. }
  rewrite El. bind_simpl.
  assert (HK' : store_ok (with_arenas t l.*1)).
  { apply with_arenas_ok; [done|done|by rewrite length_fmap|]. intros s b Hs Hb. rewrite list_lookup_fmap in Hb.
    destruct (l !! Z.to_nat s) as [r|] eqn:Er; [|done]. injection Hb as <-.
    destruct (lookup_seq t s Hs) as [a Ha]. pose proof (HP _ _ _ Ha Er) as (P1 & P2 & _).
    unfold is_seq in Hs. rewrite Z.add_0_l, Z2Nat.id in P1 by lia. done. }
  assert (Ht : spec_recycle st c g <$> tails t = tail_of <$> l.*1).
  { apply list_eq. intros i. unfold tails. rewrite !list_lookup_fmap.
    destruct (arenas t !! i) as [a|] eqn:Ea; simpl.
    - destruct (lookup_lt_is_Some_2 l i) as [b Hb]; [rewrite Hl; by apply lookup_lt_Some in Ea|].
      rewrite Hb. simpl. by destruct (HP i a b Ea Hb) as (_ & _ & ->).
    - apply lookup_ge_None in Ea. assert (l !! i = None) as ->; [apply lookup_ge_None; lia|done]. }
  assert (HL : alike t (with_arenas t l.*1)) by (apply alike_with_arenas; by rewrite length_fmap).
  change (batch_transaction (with_arenas t l.*1)) with (batch_transaction t).
  destruct (batch_transaction t) as [b|] eqn:Eb.
  - pose proof (st_transaction _ HK b Eb) as [T1 T2 T3 T4 T5]. rewrite (proj2 (Nat.eqb_eq _ _)) by (by rewrite T4). bind_simpl.
    eexists. split; [done|]. split; [|by rewrite Ht]. split; [|by apply (alike_trans _ _ _ HL)|done|].
    2:{ rewrite Eb. split; [done|]. intros i Hi. simpl. rewrite lookup_zip_with, Hi. simpl.
        destruct (lookup_lt_is_Some_2 l.*2 i) as [f Hf2]; [rewrite length_fmap, Hl, <- T4; by apply lookup_lt_Some in Hi|].
        by rewrite Hf2. }
    apply with_batch_ok; [done|].
    intros tx' [= <-]. split; simpl; [done|rewrite length_fmap; congruence..| |].
    + rewrite length_zip_with, !length_fmap. lia.
    + intros s a Hs Ha. apply (is_seq_alike t _ s HL) in Hs. destruct (T5 s a Hs Ha) as [H1 H2].
      split; [by eapply arena_ok_alike|done].
  - eexists. split; [done|]. split; [|by rewrite Ht]. by split.
Qed.

Lemma tail_clear_ok t :
  store_ok t -> free_of_copy t ->
  exists t', clear t = Ok t' /\ store_ok t' /\ alike t t' /\ free_of_copy t' /\ batch_transaction t' = None /\
    in_batch t' = false /\ tails t' = (fun _ => mk_tail [] 0 0) <$> tails t.
Proof.
  intros HK Hf. unfold clear, cancel_seq_cp. unfold free_of_copy in Hf. rewrite Hf. bind_simpl.
  remember ((fun a => mk_arena [] ∅ (replicate (length (slot_used a)) false) 0 0 0) <$> arenas t) as l eqn:El.
  assert (Hl : length l = length (arenas t)) by (subst l; apply length_fmap).
  assert (HW : forall s b, is_seq t s -> l !! Z.to_nat s = Some b -> arena_ok t s [] b /\ within t b).
  { intros s b Hs Hb. subst l. rewrite list_lookup_fmap in Hb.
    destruct (arenas t !! Z.to_nat s) as [a|] eqn:Ea; [|done]. injection Hb as <-.
    destruct (st_arenas _ HK s a Hs Ea) as [[[_ _ _ N4 _] _ _ _] _].
    destruct (retained_bounds _ (st_settings _ HK)) as [_ ?]. pose proof (so_tokens _ (st_settings _ HK)).
    split; [|unfold within; simpl; lia]. split; [|by intros k n; simpl; split; [|intros (? & Hn & _); by apply elem_of_nil in Hn]|constructor|simpl; lia].
    split; simpl; [constructor|constructor|constructor| |split; simpl; [lia|by right]].
    split; [rewrite length_replicate; apply N4|constructor|constructor|].
    intros i. split; [by intros [? ?]%lookup_replicate|]. intros [_ Hn]. by apply elem_of_nil in Hn. }
  eexists. split; [done|]. split_and!; try done; [|subst l; unfold tails; simpl; by rewrite <- !list_fmap_compose].
  apply with_batch_ok; [|done].
  apply with_arenas_ok; [done|done|done|]. intros s b Hs Hb. destruct (HW s b Hs Hb) as [H1 H2]. done.
Qed.

Lemma run_op_kept t o :
  store_ok t -> free_of_copy t -> op_ok t o -> o <> Clear ->
  exists t' r, run_op t o = Ok (t', r) /\ kept t t' /\ tail_spec t o (tails t) (tails t') r.
Proof.
  intros HK Hf Ho Hc.
  assert (Hlift : forall (f : R tail_store) (P : tail_store -> Prop),
    (exists t', f = Ok t' /\ kept t t' /\ P t') ->
    exists t' r, (t ← f; Ok (t, 0)) = Ok (t', r) /\ kept t t' /\ P t').
  { intros f P (t' & -> & HK' & HP). by exists t', 0. }
  destruct o; cbn [run_op tail_spec]; [|apply (Hlift _ (fun t' => tails t' = _))..|done].
  - destruct (commit_ok t s id p ord row HK Hf Ho) as (t' & r & E & HK' & Hs & _). by exists t', r.
  - by apply recycle_ok.
  - by apply mark_degraded_ok.
  - by apply invalidate_ok.
  - by apply tail_rm_ok.
  - by apply tail_rm_cell_ok.
  - by apply tail_keep_ok.
  - apply move_all_ok; [done..|]. intros x y e H1 H2 H3 H4. unfold int_. by rewrite (Ho x y e H1 H2 H3 H4).
  - unfold seq_div. destruct (Z.eqb_spec d 0).
    + rewrite orb_true_r. exists t. by split_and!.
    + rewrite orb_false_r. apply move_all_ok; [done..|]. intros x y e H1 H2 H3 H4. unfold int_. by rewrite (Ho x y e H1 H2 H3 H4).
Qed.

Lemma run_op_refines t o :
  store_ok t -> free_of_copy t -> op_ok t o ->
  exists t' r, run_op t o = Ok (t', r) /\ store_ok t' /\ alike t t' /\ free_of_copy t' /\
    tail_spec t o (tails t) (tails t') r.
Proof.
  intros HK Hf Ho. destruct o as [| | | | | | | | |] eqn:Eo; rewrite <- ?Eo in *.
  10: { destruct (tail_clear_ok t HK Hf) as (t' & E & K1 & K2 & K3 & _ & _ & Ht). exists t', 0. subst o. cbn [run_op]. rewrite E. by split_and!. }
  all: destruct (run_op_kept t o HK Hf Ho ltac:(by subst o)) as (t' & r & E & [K1 K2 K3 _] & Hs); exists t', r; by split_and!.
Qed.

(** ** A new store *)

Lemma empty_arena_ok t s : settings_ok t -> arena_ok t s [] (no_entries (arena_stride t)).
Proof.
  intros HT. pose proof (so_tokens _ HT).
  split; [|by intros k n; simpl; split; [|intros (? & Hn & _); by apply elem_of_nil in Hn]|constructor|simpl; lia].
  split; simpl; [constructor|constructor|constructor| |split; simpl; [lia|by right]].
  split; [apply length_replicate|constructor|constructor|].
  intros i. split; [by intros [? ?]%lookup_replicate|]. intros [_ Hn]. by apply elem_of_nil in Hn.
Qed.

Lemma fresh_store_ok t n :
  settings_ok t -> arenas t = replicate n (no_entries (arena_stride t)) -> pending_seq_cp t = None ->
  batch_transaction t = None -> store_ok t /\ tails t = replicate n (mk_tail [] 0 0).
Proof.
  intros HT HA Hp Hb. split.
  - split; [done| |by rewrite Hp|by rewrite Hb]. intros s a Hs Ha. rewrite HA in Ha. apply lookup_replicate in Ha as [-> _].
    unfold held, pending_for. rewrite Hp. split; [by apply empty_arena_ok|]. intros _. unfold within. simpl.
    destruct (retained_bounds _ HT). lia.
  - unfold tails. by rewrite HA, fmap_replicate.
Qed.

Definition u32_arg (x : Z) : Prop := 0 <= x <= UINT32_MAX.

Lemma slot_count stride n sink :
  u32_arg stride -> u32_arg n -> u32_arg sink ->
  checked_tail_slot_count stride n sink =
    if stride * n + sink <=? INT32_MAX then Ok (stride * n + sink) else Error OverflowError.
Proof.
  intros [H1 H2] [H3 H4] [H5 H6]. unfold checked_tail_slot_count, UINT32_MAX in *.
  rewrite (u64_small (stride * n)) by nia. rewrite u64_small by nia. unfold ensure. by destruct (_ <=? INT32_MAX).
Qed.

(** The constructors accept exactly the sizes whose slots can be numbered and whose
    sequences fit their arenas. *)
Lemma new_store_ok n_tokens n_seq stride sink :
  u32_arg n_tokens -> u32_arg n_seq -> u32_arg stride -> u32_arg sink ->
  match new_store n_tokens n_seq stride sink with
  | Ok t => stride * n_seq + sink <= INT32_MAX /\ (n_tokens = 0 \/ n_tokens <= stride) /\
            store_ok t /\ free_of_copy t /\ in_batch t = false /\ compact_storage t = false /\
            tails t = replicate (Z.to_nat n_seq) (mk_tail [] 0 0)
  | Error OverflowError => INT32_MAX < stride * n_seq + sink
  | Error InvalidArgument => n_tokens <> 0 /\ stride < n_tokens
  | Error _ => False
  end.
Proof.
  intros [H1 H2] [H3 H4] [H5 H6] [H7 H8]. unfold new_store. rewrite slot_count by done.
  destruct (Z.leb_spec (stride * n_seq + sink) INT32_MAX); [|done]. bind_simpl.
  destruct ((0 <? n_tokens) && (stride <? n_tokens)) eqn:E; simpl; [lia|]. split; [done|]. split; [lia|].
  match goal with |- store_ok ?t /\ _ => destruct (fresh_store_ok t (Z.to_nat n_seq)) as [K1 K2]; [|done..|by split_and!] end.
  split; simpl; try done; [lia|lia|]. rewrite length_replicate. lia.
Qed.

Lemma new_compact_store_ok n_tokens rollback n_seq stride sink :
  u32_arg n_tokens -> u32_arg rollback -> u32_arg n_seq -> u32_arg stride -> u32_arg sink ->
  match new_compact_store n_tokens rollback n_seq stride sink with
  | Ok t => stride * n_seq + sink <= INT32_MAX /\ n_tokens + rollback <= stride /\
            store_ok t /\ free_of_copy t /\ in_batch t = false /\ compact_storage t = true /\
            tails t = replicate (Z.to_nat n_seq) (mk_tail [] 0 0)
  | Error OverflowError => INT32_MAX < stride * n_seq + sink \/ UINT32_MAX < n_tokens + rollback
  | Error InvalidArgument => stride < n_tokens + rollback
  | Error _ => False
  end.
Proof.
  intros [H1 H2] [H3 H4] [H5 H6] [H7 H8] [H9 H10]. unfold new_compact_store, checked_tail_history_limit.
  destruct (Z.leb_spec (n_tokens + rollback) UINT32_MAX); bind_simpl; [|by right]. rewrite slot_count by done.
  destruct (Z.leb_spec (stride * n_seq + sink) INT32_MAX); bind_simpl; [|by left].
  destruct (Z.leb_spec (n_tokens + rollback) stride); bind_simpl; [|done]. split; [done|]. split; [done|].
  match goal with |- store_ok ?t /\ _ => destruct (fresh_store_ok t (Z.to_nat n_seq)) as [K1 K2]; [|done..|by split_and!] end.
  split; simpl; try done. rewrite length_replicate. lia.
Qed.

(** ** Stores that can be reached, and their slots *)

Inductive reached (t0 : tail_store) : tail_store -> Prop :=
| reached_start : reached t0 t0
| reached_step t o t' r : reached t0 t -> op_ok t o -> run_op t o = Ok (t', r) -> reached t0 t'.

Lemma reached_ok t0 t : store_ok t0 -> free_of_copy t0 -> reached t0 t -> store_ok t /\ free_of_copy t /\ alike t0 t.
Proof.
  intros HK Hf. induction 1 as [|t o t' r Hr (H1 & H2 & H3) Ho Hrun]; [done|].
  destruct (run_op_refines t o H1 H2 Ho) as (t2 & r2 & E & H4 & H5 & H6 & _). rewrite E in Hrun. simplify_eq.
  split_and!; [done|done|]. by eapply alike_trans.
Qed.

(** Slots of different sequences are in different parts of the arena. *)
Lemma slots_from_distinct t k l :
  settings_ok t -> (forall i a, l !! i = Some a -> arena_ok t (Z.of_nat (k + i)) [] a /\ is_seq t (Z.of_nat (k + i))) ->
  NoDup (slot <$> (l ≫= fun a : arena => (entries a).*2)) /\
  forall sl, sl ∈ slot <$> (l ≫= fun a : arena => (entries a).*2) -> base t (Z.of_nat k) <= sl <= INT32_MAX.
Proof.
  intros HT. revert k. induction l as [|a l IH]; intros k H; [split; [constructor|intros sl Hsl; by apply elem_of_nil in Hsl]|].
  destruct (H 0%nat a eq_refl) as [[[_ _ _ [K1 K2 K3 K4] _] _ _ _] Hs]. rewrite Nat.add_0_r, app_nil_r in *.
  destruct (IH (S k)) as [IH1 IH2].
  { intros i b Hb. destruct (H (S i) b Hb) as [H1 H2]. by replace (S k + i)%nat with (k + S i)%nat by lia. }
  rewrite bind_cons, fmap_app. rewrite Forall_forall in K3.
  assert (Es : (fun x : node => slot x.2) <$> entries a = slot <$> (entries a).*2) by (by rewrite <- list_fmap_compose).
  rewrite Es in K2, K3.
  assert (Hin : forall sl, sl ∈ slot <$> (entries a).*2 -> base t (Z.of_nat k) <= sl < base t (Z.of_nat k) + arena_stride t).
  { intros sl Hsl. by apply K3. }
  assert (Hb : base t (Z.of_nat (S k)) = base t (Z.of_nat k) + arena_stride t) by (unfold base; lia).
  pose proof (base_bounds _ _ HT Hs) as Hbb. split.
  - apply NoDup_app. split_and!; [done| |done]. intros sl Hsl Hsl2. specialize (Hin sl Hsl). specialize (IH2 sl Hsl2). lia.
  - intros sl [Hsl|Hsl]%elem_of_app; [specialize (Hin sl Hsl); lia|]. specialize (IH2 sl Hsl).
    destruct (retained_bounds _ HT). lia.
Qed.

(** The slots of the entries of all sequences. *)
Lemma store_slots_distinct t :
  store_ok t -> free_of_copy t -> NoDup (active_slots t).*1 /\ Forall (fun sl => 0 <= sl < n_slots t) (active_slots t).*1.
Proof.
  intros HK Hf. pose proof (st_settings _ HK) as HT. unfold active_slots, all_entries. rewrite <- list_fmap_compose.
  destruct (slots_from_distinct t 0 (arenas t) HT) as [H1 H2].
  { intros i a Ha. simpl. assert (is_seq t (Z.of_nat i)) as Hs by (unfold is_seq; apply lookup_lt_Some in Ha; lia).
    split; [|done]. destruct (st_arenas _ HK (Z.of_nat i) a Hs) as [H _]; [by rewrite Nat2Z.id|]. by rewrite held_none in H. }
  split; [exact H1|]. apply Forall_forall. intros sl (e & -> & (a & He & Ha)%list_elem_of_bind)%list_elem_of_fmap. simpl.
  apply list_elem_of_lookup in Ha as [i Hi]. assert (is_seq t (Z.of_nat i)) as Hs by (unfold is_seq; apply lookup_lt_Some in Hi; lia).
  destruct (st_arenas _ HK (Z.of_nat i) a Hs) as [[[_ _ _ [_ _ K3 _] _] _ _ _] _]; [by rewrite Nat2Z.id|].
  rewrite held_none, app_nil_r in K3 by done. rewrite Forall_forall in K3.
  assert (Hin : slot e ∈ (fun x : node => slot x.2) <$> entries a).
  { apply list_elem_of_fmap in He as (x & -> & Hx). by apply (list_elem_of_fmap_2 (fun x : node => slot x.2)). }
  apply K3 in Hin. pose proof (base_bounds _ _ HT Hs). destruct (retained_bounds _ HT). pose proof (so_slots _ HT).
  unfold base, is_seq in *. nia.
Qed.

(** ** The theorems *)

(** C31: Every operation of the tail store outside of a copy transaction (commit, recycle,
    degradation, invalidation, removal, shift, division, clear) runs without an exception,
    keeps the invariant of the store (distinct slots within each part of the arena, an
    index that agrees with the entries, entries in order) and changes the tails of the
    sequences exactly as the specification on lists of entries says. *)
Theorem tail_refinement t o :
  store_ok t -> free_of_copy t -> op_ok t o ->
  exists t' r, run_op t o = Ok (t', r) /\ store_ok t' /\ alike t t' /\ free_of_copy t' /\
    tail_spec t o (tails t) (tails t') r.
Proof. apply run_op_refines. Qed.

(** ** Examples *)

(** Two sequences with a tail of two tokens and a rollback of one. *)
Definition example_store : tail_store :=
  match new_compact_store 2 1 2 3 0 with Ok t => t | Error _ => mk_store 0 0 0 0 0 true [] None None false end.

Lemma example_store_ok : store_ok example_store /\ free_of_copy example_store.
Proof.
  pose proof (new_compact_store_ok 2 1 2 3 0) as H.
  assert (new_compact_store 2 1 2 3 0 = Ok example_store) as E by reflexivity. rewrite E in H.
  assert (forall x, 0 <= x <= 3 -> u32_arg x) as Hu by (intros x; unfold u32_arg, UINT32_MAX; lia).
  destruct H as (_ & _ & H1 & H2 & _); [apply Hu; lia..|done].
Qed.

Definition example_commit : tail_op := Commit 1 (mk_id 0 5 1) 7 0 UINT32_MAX.

Lemma example_commit_ok : op_ok example_store example_commit.
Proof. split; [split; simpl; lia|]. split; [done|]. intros H. exfalso. by apply H. Qed.

Lemma tail_refinement_witness : exists t' r, run_op example_store example_commit = Ok (t', r) /\
  store_ok t' /\ alike example_store t' /\ free_of_copy t' /\
  tail_spec example_store example_commit (tails example_store) (tails t') r.
Proof. exact (tail_refinement _ _ (proj1 example_store_ok) (proj2 example_store_ok) example_commit_ok). Defined.

Lemma example_commit_result :
  (r ← run_op example_store example_commit; Ok (active_slots r.1, r.2)) = Ok ([(3, mk_id 0 5 1)], 3).
Proof. reflexivity. Qed.

End KvTailRefine.
