(* ===== verification/KvTailBatch.v ===== *)
(** Transactions of the store of the exact tail: a batch that fails leaves nothing of it
    behind, and no entry whose payload it may have overwritten; and the tail holds the
    newest tokens. *)

From S2P Require Import Prelude.
From S2P Require Import StableSort.
From S2P Require Import KvTailStore.
From S2P Require Import KvTailStoreWf.
From S2P Require Import KvTailSpec.
From S2P Require Import KvTailRefine.

Module KvTailBatch.
Import KvTailStore KvTailStoreWf KvTailSpec KvTailRefine.

(** ** Beginning *)

Definition trimmed (t : tail_store) (x : tail) : tail := with_toks x (retain_last (retained_limit t) (toks x)).

Lemma trim_all_ok t :
  store_ok t -> free_of_copy t ->
  exists t', for_arenas t (fun s a => trim t s (retained_limit t) a) = Ok t' /\ store_ok t' /\ alike t t' /\
    free_of_copy t' /\ batch_transaction t' = batch_transaction t /\ tails t' = trimmed t <$> tails t.
Proof.
  intros HK Hf.
  destruct (for_arenas_ok t (fun s a => trim t s (retained_limit t) a) (fun _ => trimmed t) HK Hf)
    as (t' & E & H1 & H2 & H3 & H4 & _ & H5).
  - intros s a Hs Ha HA Hw. destruct (retained_bounds _ (st_settings _ HK)) as [_ Hr].
    destruct (trim_ok t s (retained_limit t) [] a (st_settings _ HK) Hs Hr HA) as (b & Eb & HB & He & [Hf1 Hf2]).
    exists b. split_and!; [done|done| |].
    + intros Hc. unfold within. rewrite He. pose proof (length_retain_last (retained_limit t) (entries a)). lia.
    + unfold trimmed, with_toks, tail_of. simpl. by rewrite He, retain_last_fmap, Hf1, Hf2.
  - exists t'. split_and!; try done. by rewrite H5, imap_const.
Qed.

Lemma begin_batch_ok t :
  store_ok t -> free_of_copy t -> batch_transaction t = None ->
  exists t', begin_batch t = Ok t' /\ store_ok t' /\ alike t t' /\ free_of_copy t' /\ in_batch t' = true /\
    tails t' = trimmed t <$> tails t /\
    batch_transaction t' = if compact_storage t then
        Some (mk_transaction (arenas t) ((fun _ => []) <$> arenas t) ((fun _ => false) <$> arenas t))
      else None.
Proof.
  intros HK Hf Hb. unfold begin_batch, has_batch_transaction. rewrite Hb.
  assert (Htrim : forall u, store_ok u -> free_of_copy u -> alike t u -> tails u = tails t ->
    exists t', (t ← for_arenas u (fun s a => trim u s (retained_limit u) a); Ok (with_batch t (batch_transaction t) true)) = Ok t' /\
      store_ok t' /\ alike t t' /\ free_of_copy t' /\ in_batch t' = true /\ tails t' = trimmed t <$> tails t /\
      batch_transaction t' = batch_transaction u).
  { intros u HU Hfu HA Ht. destruct (trim_all_ok u HU Hfu) as (t' & E & H1 & H2 & H3 & H4 & H5). rewrite E. bind_simpl.
    eexists. split; [done|]. split; [|split; [|split; [done|split; [done|split; [|done]]]]].
    - apply with_batch_ok; [done|]. intros b Hb'. by apply H1.
    - eapply alike_trans; [exact HA|]. eapply alike_trans; [exact H2|]. done.
    - unfold tails in *. simpl. rewrite H5, Ht. unfold trimmed. by rewrite (retained_alike t u HA). }
  destruct (compact_storage t) eqn:Ec; simpl.
  - apply (Htrim (with_batch t _ (in_batch t))); try done. apply with_batch_ok; [done|].
    intros b [= <-]. split; simpl; [done|done|by rewrite length_fmap|by rewrite length_fmap|].
    intros s a Hs Ha. destruct (st_arenas _ HK s a Hs Ha) as [H1 H2]. rewrite held_none in H1 by done. auto.
  - destruct (Htrim t HK Hf) as (t' & E & H); [done|done|]. exists t'. split; [exact E|]. by rewrite <- Hb.
Qed.

(** ** A batch *)

(** The operations of a batch, with the slots it writes: those of the entries that it
    commits together with a row of the ubatch. *)
Definition batch_op (o : tail_op) : Prop :=
  match o with Clear => False | Commit _ _ _ _ row => has_row row = true | _ => True end.

Definition writes (o : tail_op) (r : Z) : list (Z * Z) :=
  match o with Commit s _ _ _ _ => if 0 <=? r then [(s, r)] else [] | _ => [] end.

Inductive batch_run (t0 : tail_store) : tail_store -> list (Z * Z) -> Prop :=
| run_begin : batch_run t0 t0 []
| run_next t w o t' r : batch_run t0 t w -> batch_op o -> op_ok t o -> run_op t o = Ok (t', r) ->
    batch_run t0 t' (w ++ writes o r).

(** Every slot written is in the part of the arena of a sequence that is affected. *)
Definition accounted (t : tail_store) (w : list (Z * Z)) (b : batch_transaction_state) : Prop :=
  Forall (fun x => is_seq t x.1 /\ affected b !! Z.to_nat x.1 = Some true /\
    base t x.1 <= x.2 < base t x.1 + arena_stride t) w.

Lemma accounted_extends t t' w b b' :
  alike t t' -> (forall i, affected b !! i = Some true -> affected b' !! i = Some true) ->
  accounted t w b -> accounted t' w b'.
Proof.
  intros HA Hb Hw. apply (Forall_impl _ _ _ Hw). intros x (H1 & H2 & H3).
  split; [by apply (is_seq_alike t t')|]. split; [by apply Hb|]. unfold base in *. by rewrite (al_stride _ _ HA).
Qed.

Lemma result_range t s id a :
  settings_ok t -> arena_ok t s [] a -> 0 <= spec_result id (toks (tail_of a)) ->
  base t s <= spec_result id (toks (tail_of a)) < base t s + arena_stride t.
Proof.
  intros HT [[_ _ _ [_ _ K3 _] _] _ _ _]. unfold spec_result, LLAMA_KV_TAIL_BODY_SLOT. rewrite app_nil_r in K3. simpl.
  destruct (list_find _ _) as [[i e]|] eqn:Ef; simpl; [|lia]. intros _.
  apply list_find_Some in Ef as (Hi & _). apply list_elem_of_lookup_2 in Hi. rewrite Forall_forall in K3. apply K3.
  apply list_elem_of_fmap in Hi as (x & -> & Hx). by apply (list_elem_of_fmap_2 (fun x : node => slot x.2)).
Qed.

Lemma commit_writes t s id p ord row t' r b :
  store_ok t -> free_of_copy t -> op_ok t (Commit s id p ord row) -> has_row row = true ->
  commit t s id p ord row = Ok (t', r) -> batch_transaction t' = Some b -> 0 <= r ->
  is_seq t s /\ affected b !! Z.to_nat s = Some true /\ base t s <= r < base t s + arena_stride t.
Proof.
  intros HK Hf Ho Hrow E Hb Hr.
  destruct (commit_ok t s id p ord row HK Hf Ho) as (t2 & r2 & E2 & [K1 K2 K3 K4] & Hs & Ha). rewrite E2 in E. simplify_eq.
  cbn [tail_spec] in Hs. destruct (valid_seq t s) eqn:Hv; simpl in Hs; [|destruct Hs as [_ ->]; done].
  destruct (n_tokens t =? 0); simpl in Hs; [destruct Hs as [_ ->]; done|].
  destruct Hs as (x & sl & Hx & Ht & ->). apply valid_seq_spec in Hv. split; [done|]. split; [by apply Ha|].
  destruct (lookup_seq t' s) as [a' Ha']; [by apply (is_seq_alike t t')|].
  assert (tail_of a' = spec_commit t sl id p ord x) as Hta.
  { assert (tails t' !! Z.to_nat s = Some (tail_of a')) as H1 by (unfold tails; by rewrite list_lookup_fmap, Ha').
    rewrite Ht, list_lookup_insert_eq in H1 by (by apply lookup_lt_Some in Hx). by injection H1. }
  rewrite <- Hta in *. destruct (st_arenas _ K1 s a') as [HA _]; [by apply (is_seq_alike t t')|done|].
  rewrite held_none in HA by done. pose proof (result_range t' s id a' (st_settings _ K1) HA Hr) as Hrange.
  unfold base in *. by rewrite (al_stride _ _ K2) in Hrange.
Qed.

Lemma batch_run_ok t1 t2 w b1 :
  store_ok t1 -> free_of_copy t1 -> batch_transaction t1 = Some b1 -> batch_run t1 t2 w ->
  store_ok t2 /\ free_of_copy t2 /\ alike t1 t2 /\
  exists b2, batch_transaction t2 = Some b2 /\ saved b2 = saved b1 /\ accounted t2 w b2.
Proof.
  intros HK Hf Hb. induction 1 as [|t w o t' r Hrun (H1 & H2 & H3 & b & H4 & H5 & H6) Hop Ho E].
  - split_and!; [done|done|done|]. exists b1. split_and!; [done|done|constructor].
  - destruct (run_op_kept t o H1 H2 Ho ltac:(by intros ->)) as (t3 & r3 & E3 & [K1 K2 K3 K4] & _).
    rewrite E3 in E. simplify_eq. split_and!; [done|done|by eapply alike_trans|].
    rewrite H4 in K4. simpl in K4. destruct (batch_transaction t') as [b'|] eqn:Eb'; [|done]. destruct K4 as [K4 K5].
    exists b'. split_and!; [done|congruence|]. apply Forall_app. split; [by eapply accounted_extends|].
    destruct o; try constructor. simpl. destruct (Z.leb_spec 0 r) as [Hr|]; [|constructor]. constructor; [|constructor].
    destruct (commit_writes t s id p ord row t' r b') as (W1 & W2 & W3); [done..|]. simpl in *.
    split; [by apply (is_seq_alike t t')|]. split; [done|]. unfold base in *. by rewrite (al_stride _ _ K2).
Qed.

(** ** Finishing *)

(** What is left of a sequence after a failed batch. *)
Definition restored (payload_may_be_modified affected : bool) (x : tail) : tail :=
  if payload_may_be_modified && affected
  then mk_tail [] (Z.lor (flags x) LLAMA_KV_TAIL_DEGRADED_PAYLOAD_INVALID) 0 else x.

Lemma release_all_ok t s sl extra a :
  settings_ok t -> is_seq t s -> slots_ok t s (sl ++ extra) (slot_used a) ->
  exists u, release_all t s a sl = Ok (with_slots a u (write_cursor a)) /\ slots_ok t s extra u.
Proof.
  intros HT Hs. revert a. unfold release_all. induction sl as [|x sl IH]; intros a HN; cbn [foldM].
  - exists (slot_used a). destruct a. by split.
  - destruct (release_ok t s x (sl ++ extra) a HT Hs HN) as (u & Eu & HU). rewrite Eu. bind_simpl.
    destruct (IH (with_slots a u (write_cursor a)) HU) as (u' & E & HU'). exists u'. by split.
Qed.

Lemma restore_arena_ok t pm s a af :
  settings_ok t -> is_seq t s -> arena_ok t s [] a ->
  exists b, restore_arena t pm s (a, af) = Ok b /\ arena_ok t s [] b /\
    (length (entries b) <= length (entries a))%nat /\ tail_of b = restored pm af (tail_of a).
Proof.
  intros HT Hs HA. pose proof HA as [H1 H2 H3 H4]. unfold restore_arena, restored. cbn [fst snd].
  destruct (rebuild_index_ok _ _ _ _ H1) as (m & Em & Hm). rewrite Em. bind_simpl. rewrite <- negb_andb.
  destruct (pm && af); simpl.
  - destruct (release_all_ok t s ((fun x : node => slot x.2) <$> entries a) [] (with_index a m) HT Hs) as (u & Eu & HU).
    { exact (nk_slots _ _ _ _ H1). }
    simpl in Eu |- *. rewrite Eu. bind_simpl. eexists. split; [done|]. split_and!; [|simpl; lia|done].
    apply or_flags_ok; [done|]. split; [|intros k n; simpl; split; [done|intros (? & Hn & _); by apply elem_of_nil in Hn]|constructor|done].
    split; [constructor|constructor|constructor|exact HU|exact (nk_cursor _ _ _ _ H1)].
  - eexists. split; [done|]. split_and!; [|done|done]. destruct H1. split; [by split|done|done|done].
Qed.

Lemma finish_success_ok t pm :
  store_ok t -> free_of_copy t ->
  exists t', finish_batch t true pm = Ok t' /\ store_ok t' /\ alike t t' /\ free_of_copy t' /\
    (compact_storage t = true -> batch_transaction t' = None) /\ tails t' = tails t.
Proof.
  intros HK Hf. unfold finish_batch. destruct (compact_storage t) eqn:Ec; simpl.
  - destruct (batch_transaction t) as [b|] eqn:Eb; [|by exists t]. bind_simpl. eexists. split; [done|].
    split_and!; try done. by apply with_batch_ok.
  - eexists. split; [done|]. split_and!; try done. apply with_batch_ok; [done|]. apply HK.
Qed.

Lemma finish_failure_ok t b pm :
  store_ok t -> free_of_copy t -> batch_transaction t = Some b ->
  exists t', finish_batch t false pm = Ok t' /\ store_ok t' /\ alike t t' /\ free_of_copy t' /\
    batch_transaction t' = None /\ tails t' = zip_with (restored pm) (affected b) (tail_of <$> saved b).
Proof.
  intros HK Hf Hb. unfold finish_batch. pose proof (st_transaction _ HK b Hb) as [T1 T2 T3 T4 T5].
  rewrite T1, Hb. simpl.
  destruct (for_arenas_from_ok (restore_arena t pm)
    (fun s x c => arena_ok t s [] c /\ within t c /\ tail_of c = restored pm x.2 (tail_of x.1)) 0 (zip (saved b) (affected b)))
    as (l & El & Hl & HP).
  { intros i [a af] Hi. rewrite Z.add_0_l. apply lookup_zip_with_Some in Hi as (a' & af' & [= <- <-] & Ha & Haf).
    assert (Hs : is_seq t (Z.of_nat i)) by (unfold is_seq; apply lookup_lt_Some in Ha; lia).
    destruct (T5 (Z.of_nat i) a Hs) as [HA Hw]; [by rewrite Nat2Z.id|].
    destruct (restore_arena_ok t pm (Z.of_nat i) a af (st_settings _ HK) Hs HA) as (c & Ec & HC & Hlen & Ht).
    exists c. split_and!; try done. unfold within in *. lia. }
  rewrite El. bind_simpl. rewrite length_zip_with in Hl. rewrite T2, T4, Nat.min_id in Hl.
  assert (HW : forall i c, l !! i = Some c -> exists a af, saved b !! i = Some a /\ affected b !! i = Some af /\
    arena_ok t (Z.of_nat i) [] c /\ within t c /\ tail_of c = restored pm af (tail_of a)).
  { intros i c Hc. pose proof (lookup_lt_Some _ _ _ Hc) as Hi. rewrite Hl in Hi.
    destruct (lookup_lt_is_Some_2 (saved b) i) as [a Ha]; [lia|]. destruct (lookup_lt_is_Some_2 (affected b) i) as [af Haf]; [lia|].
    exists a, af. split; [done|]. split; [done|]. apply (HP i (a, af) c); [|done]. apply lookup_zip_with_Some. eauto. }
  eexists. split; [done|]. split_and!; try done.
  - apply with_batch_ok; [|done]. apply with_arenas_ok; [done..|]. intros s c Hs Hc.
    destruct (HW _ c Hc) as (a & af & _ & _ & H1 & H2 & _). unfold is_seq in Hs. by rewrite Z2Nat.id in H1 by lia.
  - apply list_eq. intros i. unfold tails. simpl. rewrite list_lookup_fmap, lookup_zip_with, list_lookup_fmap.
    destruct (l !! i) as [c|] eqn:Ec; simpl.
    + destruct (HW i c Ec) as (a & af & -> & -> & _ & _ & ->). done.
    + apply lookup_ge_None in Ec. assert (affected b !! i = None) as ->; [apply lookup_ge_None; lia|done].
Qed.

(** C33: A batch on a compact store is a transaction.  When it succeeds, the tails are those
    the operations left; when it fails with its payload untouched, they are those of
    before; and when the payload may have been overwritten, every sequence has its tail of
    before or is emptied and marked, and no entry is left in a slot that the batch wrote. *)
Theorem tail_transaction t0 t1 t2 w :
  store_ok t0 -> free_of_copy t0 -> compact_storage t0 = true -> batch_transaction t0 = None ->
  begin_batch t0 = Ok t1 -> batch_run t1 t2 w ->
  (forall pm, exists t3, finish_batch t2 true pm = Ok t3 /\ store_ok t3 /\ batch_transaction t3 = None /\ tails t3 = tails t2) /\
  (exists t3, finish_batch t2 false false = Ok t3 /\ store_ok t3 /\ batch_transaction t3 = None /\ tails t3 = tails t0) /\
  (exists t3, finish_batch t2 false true = Ok t3 /\ store_ok t3 /\ batch_transaction t3 = None /\
     Forall2 (fun x y => y = x \/ y = restored true true x) (tails t0) (tails t3) /\
     forall e, e ∈ all_entries t3 -> slot e ∉ w.*2).
Proof.
  intros HK Hf Hc Hb E Hrun.
  destruct (begin_batch_ok t0 HK Hf Hb) as (t1' & E1 & K1 & A1 & F1 & _ & _ & B1). rewrite E1 in E. simplify_eq. rewrite Hc in B1.
  destruct (batch_run_ok t1 t2 w _ K1 F1 B1 Hrun) as (K2 & F2 & A2 & b2 & B2 & Hs & Hacc). simpl in Hs.
  assert (A : alike t0 t2) by (by eapply alike_trans). pose proof (st_transaction _ K2 b2 B2) as [T1 T2 T3 T4 T5].
  assert (Hlen : length (affected b2) = length (arenas t0)) by (rewrite T4; apply A).
  split_and!.
  - intros pm. destruct (finish_success_ok t2 pm K2 F2) as (t3 & E3 & K3 & _ & _ & B3 & H3). exists t3. split_and!; try done. by apply B3.
  - destruct (finish_failure_ok t2 b2 false K2 F2 B2) as (t3 & E3 & K3 & _ & _ & B3 & H3). exists t3. split_and!; try done.
    rewrite H3, Hs. fold (tails t0). apply list_eq. intros i. rewrite lookup_zip_with.
    destruct (affected b2 !! i) eqn:Ei; simpl; [by destruct (tails t0 !! i)|].
    symmetry. apply lookup_ge_None. apply lookup_ge_None in Ei. rewrite tails_length. lia.
  - destruct (finish_failure_ok t2 b2 true K2 F2 B2) as (t3 & E3 & K3 & A3 & F3 & B3 & H3). exists t3.
    rewrite Hs in H3. fold (tails t0) in H3. split_and!; try done.
    + rewrite H3. apply Forall2_same_length_lookup. rewrite length_zip_with, tails_length, Hlen. split; [lia|].
      intros i x y Hx Hy. rewrite lookup_zip_with in Hy. destruct (affected b2 !! i) as [af|]; [|done]. simpl in Hy.
      rewrite Hx in Hy. injection Hy as <-. destruct af; [by right|by left].
    + intros e (a & He & Ha)%list_elem_of_bind ((s & sl) & Hsl & Hw)%list_elem_of_fmap. simpl in Hsl. subst sl.
      unfold accounted in Hacc. rewrite Forall_forall in Hacc. destruct (Hacc _ Hw) as (W1 & W2 & W3). simpl in *.
      apply list_elem_of_lookup in Ha as [i Hi].
      assert (Hsi : is_seq t3 (Z.of_nat i)) by (unfold is_seq; apply lookup_lt_Some in Hi; lia).
      destruct (st_arenas _ K3 (Z.of_nat i) a Hsi) as [[[_ _ _ [_ _ R3 _] _] _ _ _] _]; [by rewrite Nat2Z.id|].
      rewrite held_none, app_nil_r in R3 by done. rewrite Forall_forall in R3.
      assert (Hr : base t3 (Z.of_nat i) <= slot e < base t3 (Z.of_nat i) + arena_stride t3).
      { apply R3. apply list_elem_of_fmap in He as (x & Hx & He). rewrite Hx. by apply (list_elem_of_fmap_2 (fun x : node => slot x.2)). }
      assert (s = Z.of_nat i) as ->.
      { unfold base in *. rewrite (al_stride _ _ A3) in Hr. destruct (retained_bounds _ (st_settings _ K2)). nia. }
      rewrite Nat2Z.id in W2.
      assert (tails t3 !! i = Some (tail_of a)) as Hta by (unfold tails; by rewrite list_lookup_fmap, Hi).
      rewrite H3, lookup_zip_with, W2 in Hta. simpl in Hta. destruct (tails t0 !! i); [|done]. simpl in Hta.
      injection Hta as Ht _ _. rewrite <- Ht in He. by apply elem_of_nil in He.
Qed.

(** Two sequences with a batch that commits a token of row 0. *)
Definition example_begun : tail_store :=
  match begin_batch example_store with Ok t => t | Error _ => example_store end.
Definition example_op : tail_op := Commit 1 (mk_id 0 5 1) 7 0 0.
Definition example_committed : tail_store :=
  match run_op example_begun example_op with Ok r => r.1 | Error _ => example_begun end.

Lemma tail_transaction_witness : all_entries example_committed <> [] /\
  exists t3, finish_batch example_committed false true = Ok t3 /\ store_ok t3 /\ batch_transaction t3 = None /\
    Forall2 (fun x y => y = x \/ y = restored true true x) (tails example_store) (tails t3) /\
    forall e, e ∈ all_entries t3 -> slot e ∉ [3].
Proof.
  assert (E : begin_batch example_store = Ok example_begun) by reflexivity.
  assert (Hr : batch_run example_begun example_committed [(1, 3)]).
  { refine (run_next _ example_begun [] example_op example_committed 3 (run_begin _) eq_refl _ eq_refl).
    split; [split; simpl; lia|]. split; [done|]. intros _ _. split; [lia|done]. }
  split; [done|].
  exact (proj2 (proj2 (tail_transaction _ _ _ _ (proj1 example_store_ok) (proj2 example_store_ok) eq_refl eq_refl E Hr))).
Defined.

(** ** The newest tokens *)

(** A token: the identity of its cell, its position and its ordinal. *)
Abbreviation token := (llama_kv_tail_identity * Z * Z)%type.

Definition token_of (e : exact_entry) : token := (identity e, position e, insertion_ordinal e).

Definition token_lt (x y : token) : bool := (x.1.2 <? y.1.2) || ((x.1.2 =? y.1.2) && (x.2 <? y.2)).

Lemma entry_lt_token x y : entry_lt x y = token_lt (token_of x) (token_of y).
Proof. done. Qed.

Definition commit_all (t : tail_store) (s : Z) (l : list token) : R tail_store :=
  foldM (fun t x => r ← commit t s x.1.1 x.1.2 x.2 UINT32_MAX; Ok r.1) t l.

Lemma commit_in_batch t s id p ord row t' r : commit t s id p ord row = Ok (t', r) -> in_batch t' = in_batch t.
Proof.
  unfold commit, finish_commit. intros H. repeat first [progress inv_ok H | case_match]; by simplify_eq.
Qed.

Lemma retain_last_snoc {A} limit (l : list A) x : 0 < limit ->
  retain_last limit (retain_last limit l ++ [x]) = retain_last limit (l ++ [x]).
Proof.
  intros Hl. unfold retain_last. rewrite !length_app, length_drop. simpl.
  rewrite !drop_app, length_drop, drop_drop.
  destruct (Nat.le_gt_cases (Z.to_nat limit) (length l)).
  - f_equal; f_equal; lia.
  - f_equal; f_equal; lia.
Qed.

(** A new token that is not before any other goes to the end; the oldest gives way. *)
Lemma spec_commit_newest t sl id p ord x l :
  settings_ok t -> 0 < n_tokens t -> evicts t = true -> token_of <$> toks x = retain_last (retained_limit t) l ->
  id_key id ∉ (fun y : token => id_key y.1.1) <$> l ->
  Forall (fun y => token_lt (id, p, ord) y = false) l ->
  token_of <$> toks (spec_commit t sl id p ord x) = retain_last (retained_limit t) (l ++ [(id, p, ord)]).
Proof.
  intros HT Hn Hev Hx Hid Hord. destruct (retained_bounds _ HT) as [[Hr _] _].
  assert (Hin : forall e, e ∈ toks x -> token_of e ∈ l).
  { intros e He. apply (list_elem_of_fmap_2 token_of) in He. rewrite Hx in He. unfold retain_last in He.
    rewrite <- (take_drop (length l - Z.to_nat (retained_limit t)) l). apply elem_of_app. by right. }
  assert (Hk : forall e, e ∈ toks x -> id_key (identity e) <> id_key id).
  { intros e He Heq. apply Hid. rewrite <- Heq. apply Hin in He. by apply (list_elem_of_fmap_2 (fun y : token => id_key y.1.1)) in He. }
  unfold spec_commit. rewrite bool_decide_false.
  2:{ intros (e & -> & He)%list_elem_of_fmap. by apply (Hk e He). }
  rewrite filter_all by exact Hk.
  pose proof (f_equal length Hx) as Hlen. rewrite length_fmap in Hlen. pose proof (length_retain_last (retained_limit t) l) as Hll.
  assert (Hend : forall k sl', (forall e, e ∈ k -> e ∈ toks x) ->
    insert_sorted entry_lt (mk_entry id p ord sl') k = k ++ [mk_entry id p ord sl']).
  { intros k sl' Hkk. apply insert_sorted_end. intros e He. rewrite Forall_forall in Hord. rewrite entry_lt_token. apply Hord. auto. }
  assert (Hrec : forall y, toks (spec_recover t y) = toks y).
  { intros y. unfold spec_recover. destruct (_ =? _); [done|]. by destruct (_ <=? _). }
  cbv zeta. rewrite Hrec. simpl. rewrite <- retain_last_snoc, <- Hx by lia.
  assert (Htrim : forall k : list exact_entry, Z.of_nat (length k) <= retained_limit t ->
    (if in_batch t then k else retain_last (retained_limit t) k) = k).
  { intros k Hk'. destruct (in_batch t); [done|]. by apply retain_last_all. }
  unfold spec_slot. rewrite Hev. simpl. destruct (Z.leb_spec (retained_limit t) (Z.of_nat (length (toks x)))) as [Hle|Hlt].
  - destruct (toks x) as [|v k] eqn:Ek; [simpl in Hle; lia|]. cbn [fst snd].
    rewrite Hend by (intros e He; by right). rewrite Htrim by (rewrite length_app; simpl in *; lia).
    unfold retain_last. rewrite fmap_cons, fmap_app, length_app. simpl in *. rewrite length_fmap.
    replace (S (length k + 1) - Z.to_nat (retained_limit t))%nat with 1%nat by lia. done.
  - cbn [fst snd]. rewrite Hend by done. rewrite Htrim by (rewrite length_app; simpl; lia).
    rewrite retain_last_all by (rewrite length_app, length_fmap; simpl; lia). by rewrite fmap_app.
Qed.

Lemma commit_newest t s id p ord l x :
  store_ok t -> free_of_copy t -> is_seq t s -> 0 < n_tokens t -> evicts t = true -> id_ok id ->
  tails t !! Z.to_nat s = Some x -> token_of <$> toks x = retain_last (retained_limit t) l ->
  id_key id ∉ (fun y : token => id_key y.1.1) <$> l ->
  Forall (fun y => token_lt (id, p, ord) y = false) l ->
  exists t' r y, commit t s id p ord UINT32_MAX = Ok (t', r) /\ store_ok t' /\ free_of_copy t' /\ alike t t' /\
    in_batch t' = in_batch t /\ tails t' !! Z.to_nat s = Some y /\
    token_of <$> toks y = retain_last (retained_limit t) (l ++ [(id, p, ord)]).
Proof.
  intros HK Hf Hs Hn Hev Hid Hx Hl Hnew Hord.
  destruct (commit_ok t s id p ord UINT32_MAX HK Hf) as (t' & r & E & [K1 K2 K3 _] & Hspec & _).
  { split; [done|]. split; [|done]. intros Hev'. congruence. }
  cbn [tail_spec] in Hspec. rewrite (proj2 (valid_seq_spec t s) Hs) in Hspec.
  rewrite (proj2 (Z.eqb_neq (n_tokens t) 0)) in Hspec by lia. simpl in Hspec.
  destruct Hspec as (x' & sl & Hx' & Ht & _). rewrite Hx in Hx'. injection Hx' as <-.
  exists t', r, (spec_commit t sl id p ord x). split_and!; try done.
  - by eapply commit_in_batch.
  - rewrite Ht, list_lookup_insert_eq; [done|]. by apply lookup_lt_Some in Hx.
  - apply spec_commit_newest; [apply HK|done..].
Qed.

Lemma commit_all_newest t s l0 l x :
  store_ok t -> free_of_copy t -> is_seq t s -> 0 < n_tokens t -> evicts t = true ->
  tails t !! Z.to_nat s = Some x -> token_of <$> toks x = retain_last (retained_limit t) l0 ->
  Forall (fun y : token => id_ok y.1.1) l -> NoDup ((fun y : token => id_key y.1.1) <$> l0 ++ l) ->
  Sorted_by token_lt (l0 ++ l) ->
  exists t' y, commit_all t s l = Ok t' /\ tails t' !! Z.to_nat s = Some y /\
    token_of <$> toks y = retain_last (retained_limit t) (l0 ++ l).
Proof.
  revert t l0 x. induction l as [|[[id p] ord] l IH]; intros t l0 x HK Hf Hs Hn Hev Hx Hl Hid Hnd Hsort.
  - exists t, x. by rewrite app_nil_r.
  - apply Forall_cons in Hid as [Hid0 Hid]. simpl in Hid0.
    destruct (commit_newest t s id p ord l0 x) as (t1 & r & y & E & K1 & K2 & K3 & K4 & Hy & Hly); try done.
    { rewrite fmap_app, fmap_cons in Hnd. apply NoDup_app in Hnd as (_ & Hnd & _). intros Hin. apply (Hnd _ Hin). left. }
    { apply Forall_forall. intros z Hz. apply StronglySorted_app in Hsort as [Hsort _]. apply (Hsort z (id, p, ord)); [done|left]. }
    unfold commit_all. cbn [foldM fst snd]. rewrite E. bind_simpl. rewrite <- (retained_alike t t1 K3) in Hly |- *.
    change (l0 ++ (id, p, ord) :: l) with (l0 ++ [(id, p, ord)] ++ l) in *. rewrite app_assoc in *.
    apply (IH t1 (l0 ++ [(id, p, ord)]) y); try done.
    + by apply (is_seq_alike t t1).
    + by rewrite (al_tokens _ _ K3).
    + unfold evicts in *. by rewrite K4, (al_compact _ _ K3).
Qed.

(** Tokens of distinct cells that are committed in order to an empty tail leave in it
    the newest of them, as many as it keeps, in the same order: the tail is a window on
    the end of the sequence. *)
Theorem tail_keeps_newest t s l x :
  store_ok t -> free_of_copy t -> is_seq t s -> 0 < n_tokens t -> evicts t = true ->
  tails t !! Z.to_nat s = Some x -> toks x = [] ->
  Forall (fun y : token => id_ok y.1.1) l -> NoDup ((fun y : token => id_key y.1.1) <$> l) -> Sorted_by token_lt l ->
  exists t' y, commit_all t s l = Ok t' /\ tails t' !! Z.to_nat s = Some y /\
    token_of <$> toks y = retain_last (retained_limit t) l.
Proof. intros HK Hf Hs Hn Hev Hx Hnil Hid Hnd Hsort. apply (commit_all_newest t s [] l x); try done. by rewrite Hnil. Qed.

Definition example_tokens : list token :=
  [(mk_id 0 0 1, 0, 0); (mk_id 0 1 1, 1, 1); (mk_id 0 2 1, 2, 2); (mk_id 0 3 1, 3, 3)].

Lemma tail_keeps_newest_witness : exists t' y, commit_all example_store 0 example_tokens = Ok t' /\
  tails t' !! 0%nat = Some y /\
  token_of <$> toks y = [(mk_id 0 1 1, 1, 1); (mk_id 0 2 1, 2, 2); (mk_id 0 3 1, 3, 3)].
Proof.
  refine (tail_keeps_newest example_store 0 example_tokens (mk_tail [] 0 0) (proj1 example_store_ok) (proj2 example_store_ok)
    _ _ eq_refl eq_refl eq_refl _ _ _).
  - split; [lia|done].
  - done.
  - repeat constructor; simpl; lia.
  - apply (bool_decide_unpack _). by vm_compute.
  - repeat constructor.
Defined.

End KvTailBatch.
