(* ===== verification/KvTailCopy.v ===== *)
(** Copying a sequence of the exact tail: a copy is prepared, its payload is copied, and
    then it is committed or cancelled.  What a commit makes of the destination is what the
    order of the candidates says, each entry in a slot of its own; a cancelled copy leaves
    no trace. *)

From S2P Require Import Prelude.
From S2P Require Import StableSort.
From S2P Require Import KvTailStore.
From S2P Require Import KvTailStoreWf.
From S2P Require Import KvTailSpec.
From S2P Require Import KvTailRefine.
From S2P Require Import KvTailBatch.

Module KvTailCopy.
Import KvTailStore KvTailStoreWf KvTailSpec KvTailRefine KvTailBatch.

Definition slots_of (l : list node) : list Z := (fun x : node => slot x.2) <$> l.

Lemma slots_of_toks l : slots_of l = slot <$> l.*2.
Proof. unfold slots_of. by rewrite <- list_fmap_compose. Qed.

(** ** Choosing the slots *)

(** An entry of the destination: a survivor as it is, a copied one in a new slot. *)
Definition chosen_entry (c : retained_candidate) (e : exact_entry) : Prop :=
  if c_copied c then e = mk_entry (identity (c_entry c)) (position (c_entry c)) (insertion_ordinal (c_entry c)) (slot e)
  else e = c_entry c.

(** The copies of the payload that go with it. *)
Definition copy_of (c : retained_candidate) (e : exact_entry) : option slot_copy :=
  if c_copied c then Some (mk_copy (c_src c) (slot e)) else None.

Definition copies_of (l : list retained_candidate) (d : list exact_entry) : list slot_copy :=
  omap (fun x => copy_of x.1 x.2) (zip l d).

Definition survivors_of (l : list retained_candidate) : list Z :=
  (fun c => slot (c_entry c)) <$> filter (fun c => c_copied c = false) l.

(** After some candidates: every slot is that of an entry that is ready, one to be used
    again, or one of a survivor to come. *)
Record copying (t : tail_store) (dst : Z) (b : arena) (done todo : list retained_candidate) (st : copy_state) : Prop := mk_copying {
  cy_arena : exists u c, cs_arena st = with_slots b u c;
  cy_nodes : nodes_ok t dst (cs_acquired st) (cs_arena st);
  cy_slots : (slot <$> cs_destination st) ++ cs_reusable st ++ survivors_of todo ≡ₚ slots_of (entries b) ++ cs_acquired st;
  cy_acquired : Forall (fun sl => sl ∈ slot <$> cs_destination st) (cs_acquired st);
  cy_entries : Forall2 chosen_entry done (cs_destination st);
  cy_copies : cs_copies st = copies_of done (cs_destination st);
}.

Lemma Forall_elem_snoc (l k : list Z) x : Forall (fun y => y ∈ k) l -> Forall (fun y => y ∈ k ++ x) l.
Proof. intros H. apply (Forall_impl _ _ _ H). intros y Hy. apply elem_of_app. by left. Qed.

Lemma copies_of_snoc l d c e : length l = length d -> copies_of (l ++ [c]) (d ++ [e]) = copies_of l d ++ option_list (copy_of c e).
Proof.
  intros H. unfold copies_of. rewrite zip_with_app by done. by rewrite omap_app.
Qed.

Lemma copy_step_ok t dst b done c todo st :
  settings_ok t -> is_seq t dst -> copying t dst b done (c :: todo) st ->
  (length done + length todo < Z.to_nat (arena_stride t))%nat ->
  exists st', copy_step t dst st c = Ok st' /\ copying t dst b (done ++ [c]) todo st'.
Proof.
  intros HT Hs [(u & cu & Ea) H2 H3 H4 H5 H6] Hlen. pose proof (Forall2_length _ _ _ H5) as Hl.
  unfold copy_step. destruct (c_copied c) eqn:Ec.
  - destruct (last (cs_reusable st)) as [sl|] eqn:El.
    + apply last_Some in El as [k Ek]. rewrite Ek in *. rewrite removelast_last. bind_simpl. eexists. split; [done|].
      split; simpl; [by exists u, cu|done| | | |].
      * unfold survivors_of in *. rewrite filter_cons_False in H3 by (rewrite Ec; done).
        rewrite <- H3, fmap_app. simpl. solve_Permutation.
      * rewrite fmap_app. by apply Forall_elem_snoc.
      * apply Forall2_app; [done|]. repeat constructor. unfold chosen_entry. by rewrite Ec.
      * rewrite H6, copies_of_snoc by done. f_equal. unfold copy_of. by rewrite Ec.
    + apply last_None in El. rewrite El in *. simpl in H3.
      assert (Hs' : survivors_of (c :: todo) = survivors_of todo).
      { unfold survivors_of. by rewrite filter_cons_False by (rewrite Ec; done). }
      rewrite Hs' in H3.
      assert (Hroom : (length (entries (cs_arena st)) + length (cs_acquired st) < Z.to_nat (arena_stride t))%nat).
      { apply Permutation_length in H3. unfold slots_of, survivors_of in H3. rewrite !length_app, !length_fmap in H3.
        pose proof (length_filter (fun c => c_copied c = false) todo) as Hf. rewrite Ea. simpl. lia. }
      destruct (nodes_ok_acquire t dst _ _ HT Hs H2 Hroom) as (sl & u' & c' & E & HN). rewrite E. bind_simpl.
      eexists. split; [done|]. split; simpl.
      * rewrite Ea. by exists u', c'.
      * eapply nodes_ok_insert_extra; [|exact HN]. solve_Permutation.
      * rewrite fmap_app, app_assoc, <- H3. simpl. solve_Permutation.
      * rewrite fmap_app. apply Forall_app. split; [by apply Forall_elem_snoc|]. repeat constructor. set_solver.
      * apply Forall2_app; [done|]. repeat constructor. unfold chosen_entry. by rewrite Ec.
      * rewrite H6, copies_of_snoc by done. f_equal. unfold copy_of. by rewrite Ec.
  - eexists. split; [done|]. split; simpl; [by exists u, cu|done| | | |].
    + unfold survivors_of in *. rewrite filter_cons_True in H3 by done. rewrite <- H3, fmap_app. simpl. solve_Permutation.
    + rewrite fmap_app. by apply Forall_elem_snoc.
    + apply Forall2_app; [done|]. repeat constructor. unfold chosen_entry. by rewrite Ec.
    + rewrite H6, copies_of_snoc by done. unfold copy_of. rewrite Ec. by rewrite app_nil_r.
Qed.

Lemma copy_loop_ok t dst b ready todo st :
  settings_ok t -> is_seq t dst -> copying t dst b ready todo st ->
  (length ready + length todo <= Z.to_nat (arena_stride t))%nat ->
  exists st', foldM (copy_step t dst) st todo = Ok st' /\ copying t dst b (ready ++ todo) [] st'.
Proof.
  intros HT Hs. revert ready st. induction todo as [|c todo IH]; intros ready st HC Hl; cbn [foldM].
  - exists st. by rewrite app_nil_r.
  - simpl in Hl. destruct (copy_step_ok t dst b ready c todo st HT Hs HC) as (st1 & E & HC1); [lia|]. rewrite E. bind_simpl.
    destruct (IH (ready ++ [c]) st1 HC1) as (st2 & E2 & HC2); [rewrite length_app; simpl; lia|].
    exists st2. split; [done|]. by rewrite <- app_assoc in HC2.
Qed.

(** *** The start *)

Lemma filter_out_perm (l k : list Z) : NoDup l -> NoDup k -> k ⊆ l -> filter (fun x => x ∉ k) l ++ k ≡ₚ l.
Proof.
  intros Hl Hk Hsub. apply NoDup_Permutation; [|done|].
  - apply NoDup_app. split_and!; [by apply NoDup_filter| |done]. intros x Hx%list_elem_of_filter. tauto.
  - intros x. rewrite elem_of_app, list_elem_of_filter. destruct (decide (x ∈ k)); set_solver.
Qed.

Lemma survivors_app l k : survivors_of (l ++ k) = survivors_of l ++ survivors_of k.
Proof. unfold survivors_of. by rewrite filter_app, fmap_app. Qed.

Lemma survivors_perm l k : l ≡ₚ k -> survivors_of l ≡ₚ survivors_of k.
Proof. unfold survivors_of. by intros ->. Qed.

Definition chosen (t : tail_store) (a b : arena) (src_stream dst_stream p0 p1 : Z) : list retained_candidate :=
  retain_last (retained_limit t) (stable_sort candidate_lt (copy_candidates a b src_stream dst_stream p0 p1)).

Lemma survivors_candidates a b ss ds p0 p1 :
  survivors_of (copy_candidates a b ss ds p0 p1) = slot <$> filter (fun e => ~ in_positions p0 p1 (position e)) (entries b).*2.
Proof.
  unfold copy_candidates. rewrite survivors_app.
  assert (H1 : forall l : list exact_entry, survivors_of ((fun e => mk_candidate e (slot e) false) <$> l) = slot <$> l).
  { intros l. unfold survivors_of. rewrite filter_all; [by rewrite <- list_fmap_compose|]. by intros x (e & -> & _)%list_elem_of_fmap. }
  assert (H2 : forall l : list exact_entry, survivors_of ((fun e => mk_candidate (to_stream ds e) (slot e) true) <$> l) = []).
  { intros l. unfold survivors_of. rewrite filter_none; [done|]. by intros x (e & -> & _)%list_elem_of_fmap. }
  by rewrite H1, H2, app_nil_r.
Qed.

Lemma survivors_chosen t a b ss ds p0 p1 :
  NoDup (slots_of (entries b)) ->
  NoDup (survivors_of (chosen t a b ss ds p0 p1)) /\ survivors_of (chosen t a b ss ds p0 p1) ⊆ slots_of (entries b).
Proof.
  intros Hn. remember (stable_sort candidate_lt (copy_candidates a b ss ds p0 p1)) as l eqn:El.
  assert (HP : survivors_of l ≡ₚ slot <$> filter (fun e => ~ in_positions p0 p1 (position e)) (entries b).*2).
  { subst l. by rewrite <- (survivors_candidates a b ss ds), (survivors_perm _ _ (stable_sort_perm _ _)). }
  unfold chosen, retain_last. rewrite <- El. remember (length l - Z.to_nat (retained_limit t))%nat as k.
  assert (HS : survivors_of l = survivors_of (take k l) ++ survivors_of (drop k l)) by (by rewrite <- survivors_app, take_drop).
  assert (Hsub : slot <$> filter (fun e => ~ in_positions p0 p1 (position e)) (entries b).*2 ⊆+ slots_of (entries b)).
  { rewrite slots_of_toks. apply fmap_submseteq, sublist_submseteq, sublist_filter. }
  split.
  - apply submseteq_Permutation in Hsub as [r Hr]. rewrite Hr, <- HP, HS in Hn.
    apply NoDup_app in Hn as [Hn _]. by apply NoDup_app in Hn as (_ & _ & Hn).
  - intros x Hx. eapply elem_of_submseteq; [|exact Hsub]. rewrite <- HP, HS. apply elem_of_app. by right.
Qed.

Lemma length_survivors_le l : (length (survivors_of l) <= length l)%nat.
Proof. unfold survivors_of. rewrite length_fmap. apply length_filter. Qed.

Lemma copying_start t dst b l :
  settings_ok t -> is_seq t dst -> nodes_ok t dst [] b ->
  NoDup (survivors_of l) -> survivors_of l ⊆ slots_of (entries b) ->
  copying t dst b [] l (mk_copy_state b (filter (fun sl => sl ∉ survivors_of l) (slots_of (entries b))) [] [] []).
Proof.
  intros HT Hs HN Hnd Hsub. split; simpl; [|done| |constructor|constructor|done].
  - exists (slot_used b), (write_cursor b). by destruct b.
  - rewrite app_nil_r. apply filter_out_perm; [|done|done].
    pose proof (sk_nodup _ _ _ _ (nk_slots _ _ _ _ HN)) as H. by rewrite app_nil_r in H.
Qed.

(** ** Preparing *)

Definition stream_ok (st : Z) : Prop := 0 <= st < 2 ^ 32.

Lemma candidates_ids t src dst a b ss ds p0 p1 :
  nodes_ok t src [] a -> nodes_ok t dst [] b -> stream_ok ds ->
  Forall (fun c => id_ok (identity (c_entry c))) (copy_candidates a b ss ds p0 p1).
Proof.
  intros [_ Ha _ _ _] [_ Hb _ _ _] Hds. rewrite Forall_forall in Ha, Hb.
  apply Forall_forall. unfold copy_candidates. intros c [(e & -> & He)%list_elem_of_fmap|(e & -> & He)%list_elem_of_fmap]%elem_of_app.
  - apply list_elem_of_filter in He as [_ (x & -> & Hx)%list_elem_of_fmap]. simpl. by apply Hb.
  - unfold source_entries in He. apply list_elem_of_filter in He as [_ (x & -> & Hx)%list_elem_of_fmap].
    destruct (Ha x Hx) as [_ Hc]. by split.
Qed.

Lemma entry_of_token c e : chosen_entry c e -> token_of e = token_of (c_entry c).
Proof. unfold chosen_entry. destruct (c_copied c); by intros ->. Qed.

Lemma tokens_chosen l d : Forall2 chosen_entry l d -> token_of <$> d = (fun c => token_of (c_entry c)) <$> l.
Proof. induction 1 as [|c e l d H _ IH]; [done|]. rewrite !fmap_cons, IH. f_equal. by apply entry_of_token. Qed.

Lemma candidate_lt_asym x y : candidate_lt x y = true -> candidate_lt y x = false.
Proof. unfold candidate_lt, entry_lt. lia. Qed.

Lemma candidate_not_gt_trans x y z : not_gt candidate_lt x y -> not_gt candidate_lt y z -> not_gt candidate_lt x z.
Proof. unfold not_gt, candidate_lt, entry_lt. lia. Qed.

Lemma chosen_sorted t a b ss ds p0 p1 d :
  Forall2 chosen_entry (chosen t a b ss ds p0 p1) d -> Sorted_by entry_lt d.
Proof.
  intros Hd. apply (Sorted_by_fmap token_of entry_lt token_lt); [done|]. rewrite (tokens_chosen _ _ Hd).
  apply (Sorted_by_fmap (fun c => token_of (c_entry c)) candidate_lt token_lt); [done|].
  unfold chosen, retain_last. apply sorted_drop, stable_sort_sorted; [apply candidate_lt_asym|apply candidate_not_gt_trans].
Qed.

Lemma chosen_ids t src dst a b ss ds p0 p1 d :
  nodes_ok t src [] a -> nodes_ok t dst [] b -> stream_ok ds ->
  Forall2 chosen_entry (chosen t a b ss ds p0 p1) d -> Forall (fun e => id_ok (identity e)) d.
Proof.
  intros Ha Hb Hds Hd. pose proof (candidates_ids t src dst a b ss ds p0 p1 Ha Hb Hds) as Hc. rewrite Forall_forall in Hc.
  apply Forall_forall. intros e He. apply (list_elem_of_fmap_2 token_of) in He. rewrite (tokens_chosen _ _ Hd) in He.
  apply list_elem_of_fmap in He as (c & Hce & Hc'). injection Hce as -> _ _. apply Hc.
  unfold chosen, retain_last in Hc'. apply elem_of_drop in Hc'. by rewrite stable_sort_perm in Hc'.
Qed.

Definition pending_of (t : tail_store) (src dst : Z) (a b : arena) (d : list exact_entry) (cps : list slot_copy) (acq : list Z) : pending_seq_cp_state :=
  let fl := Z.lor (degradation b) (degradation a) in
  mk_pending src dst d cps acq fl (if fl =? 0 then Z.min (recovery_commits b) (recovery_commits a) else 0).

Lemma pending_store_ok t p c :
  store_ok t -> free_of_copy t -> is_seq t (p_dst p) -> arena_ok t (p_dst p) (acquired_slots p) c ->
  (compact_storage t = true -> within t c) -> pending_ok (set_arena t (p_dst p) c) p ->
  store_ok (with_pending (set_arena t (p_dst p) c) (Some p)).
Proof.
  intros HK Hf Hs HC Hw [P1 P2 P3 P4 P5 P6 P7 P8].
  assert (HA : alike t (with_pending (set_arena t (p_dst p) c) (Some p))) by (split; try done; apply length_insert).
  split.
  - eapply settings_alike; [exact HA|apply HK].
  - intros s a Hs' Ha. apply (is_seq_alike t _ s HA) in Hs'. simpl in Ha. unfold held, pending_for. simpl.
    destruct (decide (s = p_dst p)) as [->|Hne].
    + rewrite list_lookup_insert_eq in Ha by (unfold is_seq in *; lia). injection Ha as <-. rewrite Z.eqb_refl.
      split; [by eapply arena_ok_alike; [exact HA|]|]. intros Hc. by apply (within_alike t _ c HA), Hw.
    + rewrite list_lookup_insert_ne in Ha by (unfold is_seq in *; lia).
      rewrite (proj2 (Z.eqb_neq _ _)) by done. destruct (st_arenas _ HK s a Hs' Ha) as [H1 H2]. rewrite held_none in H1 by done.
      split; [by eapply arena_ok_alike; [exact HA|]|]. intros Hc. by apply (within_alike t _ a HA), H2.
  - intros p' [= <-]. by split.
  - intros b Hb. eapply transaction_alike; [exact HA|]. by apply HK.
Qed.

Lemma prepare_ok t src dst ss ds p0 p1 a b :
  store_ok t -> free_of_copy t -> is_seq t src -> is_seq t dst -> src <> dst -> stream_ok ds ->
  arenas t !! Z.to_nat src = Some a -> arenas t !! Z.to_nat dst = Some b ->
  exists t1 d acq, prepare_seq_cp t src dst ss ds p0 p1 = Ok (t1, copies_of (chosen t a b ss ds p0 p1) d) /\
    store_ok t1 /\ alike t t1 /\ tails t1 = tails t /\ batch_transaction t1 = batch_transaction t /\
    pending_seq_cp t1 = Some (pending_of t src dst a b d (copies_of (chosen t a b ss ds p0 p1) d) acq) /\
    Forall2 chosen_entry (chosen t a b ss ds p0 p1) d /\
    (forall sl, sl ∈ acq -> sl ∉ slots_of (entries b)).
Proof.
  intros HK Hf Hsrc Hdst Hne Hds Ha Hb. pose proof (st_settings _ HK) as HT.
  destruct (st_arenas _ HK src a Hsrc Ha) as [HA _]. destruct (st_arenas _ HK dst b Hdst Hb) as [HB Hwb].
  rewrite held_none in HA, HB by done. pose proof HB as [HN HI HS HR].
  pose proof (sk_nodup _ _ _ _ (nk_slots _ _ _ _ HN)) as Hnd. rewrite app_nil_r in Hnd.
  destruct (survivors_chosen t a b ss ds p0 p1 Hnd) as [Sv1 Sv2].
  pose proof (copying_start t dst b _ HT Hdst HN Sv1 Sv2) as HC0.
  destruct (retained_bounds _ HT) as [[_ Hr2] Hr3].
  pose proof (length_retain_last (retained_limit t) (stable_sort candidate_lt (copy_candidates a b ss ds p0 p1))) as Hlen.
  fold (chosen t a b ss ds p0 p1) in Hlen.
  destruct (copy_loop_ok t dst b [] _ _ HT Hdst HC0) as (st & E & HC); [simpl; lia|].
  unfold prepare_seq_cp. rewrite (proj2 (valid_seq_spec t src) Hsrc), (proj2 (valid_seq_spec t dst) Hdst).
  rewrite (proj2 (Z.eqb_neq _ _) Hne). simpl. unfold free_of_copy in Hf. rewrite Hf. bind_simpl.
  rewrite (at_lookup _ _ _ Ha), (at_lookup _ _ _ Hb). bind_simpl. unfold slots_of, survivors_of, chosen in E. rewrite E. bind_simpl.
  destruct HC as [(u & c & Ec) C2 C3 C4 C5 C6]. simpl in C5, C6. unfold survivors_of in C3. simpl in C3. rewrite app_nil_r in C3.
  pose proof (sk_nodup _ _ _ _ (nk_slots _ _ _ _ C2)) as Hnd2. rewrite Ec in Hnd2. simpl in Hnd2. fold (slots_of (entries b)) in Hnd2.
  fold (chosen t a b ss ds p0 p1) in *.
  do 3 eexists. rewrite C6. split; [reflexivity|]. split_and!; [|split; try done; apply length_insert| |done|reflexivity|exact C5|].
  - apply (pending_store_ok t (pending_of t src dst a b (cs_destination st) _ (cs_acquired st))); try done; simpl.
    + rewrite Ec in C2 |- *. by split.
    + rewrite Ec. exact Hwb.
    + split; simpl; [by apply (is_seq_alike t _ dst (alike_set_arena t dst _))|by eapply chosen_sorted|
        by eapply (chosen_ids t src dst a b); [apply HA| | |]| | |done| |].
      * rewrite <- C3 in Hnd2. by apply NoDup_app in Hnd2 as [Hnd2 _].
      * unfold retained_limit at 1. simpl. fold (retained_limit t). rewrite <- (Forall2_length _ _ _ C5). lia.
      * intros b' Hb' sl Hsl. rewrite list_lookup_insert_eq in Hb' by (unfold is_seq in *; lia). injection Hb' as <-.
        rewrite Ec. simpl. rewrite <- slots_of_toks. apply elem_of_app. rewrite <- C3. apply elem_of_app. by left.
      * pose proof (ok_recovery _ _ _ _ HA). destruct (_ =? 0); [|pose proof (so_tokens _ HT)]; lia.
  - unfold tails. simpl. rewrite list_fmap_insert, Ec. apply list_insert_id. by rewrite list_lookup_fmap, Hb.
  - apply NoDup_app in Hnd2 as (_ & Hnd2 & _). intros sl H1 H2. by apply (Hnd2 sl).
Qed.

(** ** Committing and cancelling *)

(** A store without its pending copy. *)
Lemma settled_store_ok t p c :
  store_ok t -> pending_seq_cp t = Some p -> arena_ok t (p_dst p) [] c -> (compact_storage t = true -> within t c) ->
  store_ok (with_pending (set_arena t (p_dst p) c) None).
Proof.
  intros HK Hp HC Hw.
  assert (HA : alike t (with_pending (set_arena t (p_dst p) c) None)) by (split; try done; apply length_insert).
  pose proof (po_dst _ _ (st_pending _ HK p Hp)) as Hdst. split.
  - eapply settings_alike; [exact HA|apply HK].
  - intros s a Hs' Ha. apply (is_seq_alike t _ s HA) in Hs'. simpl in Ha. unfold held, pending_for. simpl.
    destruct (decide (s = p_dst p)) as [->|Hne].
    + rewrite list_lookup_insert_eq in Ha by (unfold is_seq in *; lia). injection Ha as <-.
      split; [by eapply arena_ok_alike; [exact HA|]|]. intros Hc. by apply (within_alike t _ c HA), Hw.
    + rewrite list_lookup_insert_ne in Ha by (unfold is_seq in *; lia).
      destruct (st_arenas _ HK s a Hs' Ha) as [H1 H2]. unfold held, pending_for in H1. rewrite Hp in H1.
      rewrite (proj2 (Z.eqb_neq _ _)) in H1 by congruence.
      split; [by eapply arena_ok_alike; [exact HA|]|]. intros Hc. by apply (within_alike t _ a HA), H2.
  - done.
  - intros b Hb. eapply transaction_alike; [exact HA|]. by apply HK.
Qed.

(** The slots that a commit releases are those that the destination does not use. *)
Lemma released_slots (old kept acq : list Z) :
  NoDup (old ++ acq) -> NoDup kept -> acq ⊆ kept -> kept ⊆ old ++ acq ->
  filter (fun sl => sl ∉ kept) old ++ kept ≡ₚ old ++ acq.
Proof.
  intros Ho Hk Ha Hs. apply NoDup_app in Ho as (H1 & H2 & H3). apply NoDup_Permutation.
  - apply NoDup_app. split_and!; [by apply NoDup_filter| |done]. intros x Hx%list_elem_of_filter. tauto.
  - by apply NoDup_app.
  - intros x. rewrite !elem_of_app, list_elem_of_filter. specialize (Hs x). rewrite elem_of_app in Hs. specialize (Ha x).
    destruct (decide (x ∈ kept)); tauto.
Qed.

Lemma as_nodes_snd l : (as_nodes l).*2 = l.
Proof. unfold as_nodes. rewrite fmap_imap. rewrite <- (list_fmap_id l) at 2. rewrite <- (imap_const id l). by apply imap_ext. Qed.

Lemma as_nodes_names l : NoDup (as_nodes l).*1.
Proof.
  unfold as_nodes. rewrite fmap_imap. change (NoDup (imap (fun i _ => id i) l)). rewrite imap_seq_0, list_fmap_id. apply NoDup_seq.
Qed.

Lemma fmap_as_nodes {A} (f : exact_entry -> A) l : (fun x : node => f x.2) <$> as_nodes l = f <$> l.
Proof. rewrite <- (as_nodes_snd l) at 2. by rewrite <- list_fmap_compose. Qed.

(** A commit gives back the slots that the destination does not use, and rebuilds the index. *)
Lemma commit_releases t p :
  store_ok t -> pending_seq_cp t = Some p ->
  exists a u, is_seq t (p_dst p) /\ arenas t !! Z.to_nat (p_dst p) = Some a /\
    slots_ok t (p_dst p) (slot <$> destination p) u /\ nodes_ok t (p_dst p) (acquired_slots p) a /\
    commit_seq_cp t =
      (a ← rebuild_index (with_entries (with_slots a u (write_cursor a)) (as_nodes (destination p)));
       Ok (with_pending (set_arena t (p_dst p) (with_flags a (p_degradation p) (p_recovery p))) None)).
Proof.
  intros HK Hp. pose proof (st_settings _ HK) as HT. pose proof (st_pending _ HK p Hp) as [P1 P2 P3 P4 P5 P6 P7 P8].
  destruct (lookup_seq t (p_dst p) P1) as [a Ha]. destruct (st_arenas _ HK _ a P1 Ha) as [HA Hw].
  assert (Hh : held t (p_dst p) = acquired_slots p) by (unfold held, pending_for; by rewrite Hp, Z.eqb_refl).
  rewrite Hh in HA. pose proof HA as [[N1 N2 N3 N4 N5] _ _ _].
  pose proof (sk_nodup _ _ _ _ N4) as Hnd. fold (slots_of (entries a)) in *.
  rewrite Forall_forall in P6.
  assert (HP : filter (fun sl => sl ∉ slot <$> destination p) (slots_of (entries a)) ++ (slot <$> destination p)
     ≡ₚ slots_of (entries a) ++ acquired_slots p).
  { apply released_slots; [done|done|exact P6|]. intros sl Hsl. apply elem_of_app. rewrite slots_of_toks. by apply (P7 a Ha). }
  destruct (release_all_ok t (p_dst p) (filter (fun sl => sl ∉ slot <$> destination p) (slots_of (entries a)))
    (slot <$> destination p) a HT P1) as (u & Eu & HU); [by eapply slots_ok_perm|].
  exists a, u. split_and!; try done. unfold commit_seq_cp. rewrite Hp, (at_lookup _ _ _ Ha). bind_simpl. unfold slots_of in Eu. by rewrite Eu.
Qed.

(** Two entries of one cell are found when the index is rebuilt. *)
Lemma commit_pending_dup t p :
  store_ok t -> pending_seq_cp t = Some p -> ~ NoDup (key <$> destination p) -> commit_seq_cp t = Error LogicError.
Proof.
  intros HK Hp Hkeys. destruct (commit_releases t p HK Hp) as (a & u & _ & _ & _ & _ & E). rewrite E.
  rewrite rebuild_index_dup; [done|]. simpl. by rewrite fmap_as_nodes.
Qed.

Lemma commit_pending_ok t p :
  store_ok t -> pending_seq_cp t = Some p -> NoDup (key <$> destination p) ->
  exists t', commit_seq_cp t = Ok t' /\ store_ok t' /\ alike t t' /\ free_of_copy t' /\
    batch_transaction t' = batch_transaction t /\
    tails t' = <[Z.to_nat (p_dst p) := mk_tail (destination p) (p_degradation p) (p_recovery p)]> (tails t).
Proof.
  intros HK Hp Hkeys. pose proof (st_pending _ HK p Hp) as [P1 P2 P3 P4 P5 P6 P7 P8].
  destruct (commit_releases t p HK Hp) as (a & u & _ & Ha & HU & [N1 N2 N3 N4 N5] & E). rewrite E.
  destruct (rebuild_index_ok t (p_dst p) [] (with_entries (with_slots a u (write_cursor a)) (as_nodes (destination p)))) as (m & Em & Hm).
  { split; simpl; [apply as_nodes_names| | |by rewrite fmap_as_nodes, app_nil_r|done].
    - apply (Forall_fmap snd (fun e => id_ok (identity e))). by rewrite as_nodes_snd.
    - by rewrite fmap_as_nodes. }
  rewrite Em. bind_simpl. eexists. split; [reflexivity|]. split_and!.
  - apply settled_store_ok; [done|done| |].
    + split; simpl; [split; simpl|done| |done].
      * apply as_nodes_names.
      * apply (Forall_fmap snd (fun e => id_ok (identity e))). by rewrite as_nodes_snd.
      * by rewrite fmap_as_nodes.
      * by rewrite fmap_as_nodes, app_nil_r.
      * done.
      * apply (Sorted_by_fmap snd node_lt entry_lt); [done|]. by rewrite as_nodes_snd.
    + intros _. unfold within. simpl. unfold as_nodes. by rewrite length_imap.
  - split; try done. apply length_insert.
  - done.
  - done.
  - unfold tails. simpl. rewrite list_fmap_insert. f_equal. unfold tail_of. simpl. by rewrite as_nodes_snd.
Qed.

Lemma cancel_pending_ok t p :
  store_ok t -> pending_seq_cp t = Some p ->
  exists t', cancel_seq_cp t = Ok t' /\ store_ok t' /\ alike t t' /\ free_of_copy t' /\
    batch_transaction t' = batch_transaction t /\ tails t' = tails t.
Proof.
  intros HK Hp. pose proof (st_settings _ HK) as HT. pose proof (po_dst _ _ (st_pending _ HK p Hp)) as P1.
  destruct (lookup_seq t (p_dst p) P1) as [a Ha]. destruct (st_arenas _ HK _ a P1 Ha) as [HA Hw].
  assert (Hh : held t (p_dst p) = acquired_slots p) by (unfold held, pending_for; by rewrite Hp, Z.eqb_refl).
  rewrite Hh in HA. pose proof HA as [[N1 N2 N3 N4 N5] HI HS HR].
  unfold cancel_seq_cp. rewrite Hp, (at_lookup _ _ _ Ha). bind_simpl.
  destruct (release_all_ok t (p_dst p) (acquired_slots p) (slots_of (entries a)) a HT P1) as (u & Eu & HU).
  { eapply slots_ok_perm; [|exact N4]. apply Permutation_app_comm. }
  rewrite Eu. bind_simpl. eexists. split; [reflexivity|]. split_and!.
  - apply settled_store_ok; [done|done| |done]. split; simpl; [split; simpl|done..]; try done. by rewrite app_nil_r.
  - split; try done. apply length_insert.
  - done.
  - done.
  - unfold tails. simpl. rewrite list_fmap_insert. apply list_insert_id. by rewrite list_lookup_fmap, Ha.
Qed.

(** ** The transaction *)

Lemma candidate_source t a b ss ds p0 p1 c :
  c ∈ chosen t a b ss ds p0 p1 -> c_copied c = true -> c_src c ∈ slots_of (entries a).
Proof.
  unfold chosen, retain_last. intros Hc%elem_of_drop. rewrite stable_sort_perm in Hc. unfold copy_candidates in Hc.
  apply elem_of_app in Hc as [(e & -> & _)%list_elem_of_fmap|(e & -> & He)%list_elem_of_fmap]; [done|]. intros _. simpl.
  rewrite slots_of_toks. apply list_elem_of_fmap_2. unfold source_entries in He. by apply list_elem_of_filter in He as [_ He].
Qed.

Lemma copies_of_cons c e l d : copies_of (c :: l) (e :: d) = option_list (copy_of c e) ++ copies_of l d.
Proof. unfold copies_of. simpl. by destruct (copy_of c e). Qed.

Lemma copies_of_slots l d : Forall2 chosen_entry l d ->
  dst_slot <$> copies_of l d `sublist_of` slot <$> d /\
  Forall (fun x => exists c, c ∈ l /\ c_copied c = true /\ src_slot x = c_src c) (copies_of l d).
Proof.
  induction 1 as [|c e l d _ _ [IH1 IH2]]; [split; constructor|]. rewrite copies_of_cons, fmap_app, fmap_cons.
  split; unfold copy_of; destruct (c_copied c) eqn:Ec; simpl.
  - by apply sublist_skip.
  - by apply sublist_cons.
  - constructor; [exists c; split; [left|done]|]. apply (Forall_impl _ _ _ IH2). set_solver.
  - apply (Forall_impl _ _ _ IH2). set_solver.
Qed.

(** A pending copy reads slots of its source and writes slots of its destination, each
    one once. *)
Lemma pending_copies_apart t src p l :
  store_ok t -> pending_seq_cp t = Some p -> is_seq t src -> src <> p_dst p ->
  Forall2 chosen_entry l (destination p) ->
  (forall a c, arenas t !! Z.to_nat src = Some a -> c ∈ l -> c_copied c = true -> c_src c ∈ slots_of (entries a)) ->
  NoDup (dst_slot <$> copies_of l (destination p)) /\
  forall x y, x ∈ copies_of l (destination p) -> y ∈ copies_of l (destination p) -> src_slot x <> dst_slot y.
Proof.
  intros HK Hp Hsrc Hne Hl Hsource. destruct (copies_of_slots _ _ Hl) as [S1 S2].
  pose proof (st_settings _ HK) as HT. pose proof (st_pending _ HK p Hp) as [P1 P2 P3 P4 P5 P6 P7 P8]. split.
  - by eapply sublist_NoDup.
  - intros x y Hx Hy Heq. rewrite Forall_forall in S2. destruct (S2 x Hx) as (c & Hc1 & Hc2 & Hc3).
    destruct (lookup_seq t src Hsrc) as [a Ha]. pose proof (Hsource a c Ha Hc1 Hc2) as Hsl.
    destruct (st_arenas _ HK src a Hsrc Ha) as [[[_ _ _ [_ _ R1 _] _] _ _ _] _].
    destruct (lookup_seq t (p_dst p) P1) as [b Hb]. destruct (st_arenas _ HK _ b P1 Hb) as [[[_ _ _ [_ _ R2 _] _] _ _ _] _].
    unfold held, pending_for in R2. rewrite Hp, Z.eqb_refl in R2. rewrite Forall_forall in R1, R2.
    assert (H1 : base t src <= c_src c < base t src + arena_stride t) by (apply R1, elem_of_app; by left).
    assert (H2 : dst_slot y ∈ slot <$> destination p).
    { eapply elem_of_sublist; [|exact S1]. by apply list_elem_of_fmap_2. }
    apply (P7 b Hb) in H2. change (toks (tail_of b)) with (entries b).*2 in H2. rewrite <- slots_of_toks in H2.
    assert (H3 : base t (p_dst p) <= dst_slot y < base t (p_dst p) + arena_stride t).
    { apply R2, elem_of_app. unfold slots_of in H2. tauto. }
    rewrite <- Heq, Hc3 in H3. unfold base in *. destruct (retained_bounds _ HT). nia.
Qed.

Lemma keys_of_tokens l d : Forall2 chosen_entry l d -> key <$> d = (fun c => key (c_entry c)) <$> l.
Proof.
  induction 1 as [|c e l d H _ IH]; [done|]. rewrite !fmap_cons, IH. f_equal. unfold key.
  apply entry_of_token in H. injection H as -> _ _. done.
Qed.

(** No cell has one position in what is copied and another in the destination. *)
Definition positions_agree (a b : arena) (src_stream dst_stream p0 p1 : Z) : Prop :=
  forall e e', e ∈ source_entries a src_stream p0 p1 -> e' ∈ (entries b).*2 ->
    key (to_stream dst_stream e) = key e' -> position e = position e'.

Lemma keys_of_stream ds l :
  stream_ok ds -> Forall (fun e => id_ok (identity e)) l -> (forall e e', e ∈ l -> e' ∈ l -> stream (identity e) = stream (identity e')) ->
  NoDup (key <$> l) -> NoDup ((fun e => key (to_stream ds e)) <$> l).
Proof.
  intros Hds Hid Hst Hn. rewrite Forall_forall in Hid.
  assert (forall e e', e ∈ l -> e' ∈ l -> key (to_stream ds e) = key (to_stream ds e') -> key e = key e') as Hinj.
  { intros e e' He He' Hk. destruct (Hid e He) as [_ H1], (Hid e' He') as [_ H2]. unfold key, to_stream in *. simpl in Hk.
    apply cell_key_inj in Hk as [_ Hk]; [|done..]. by rewrite (Hst e e' He He'), Hk. }
  clear Hid Hst. induction l as [|e l IH]; [constructor|]. rewrite fmap_cons in *. apply NoDup_cons in Hn as [Hn1 Hn2].
  apply NoDup_cons. split; [|apply IH; [done|]; intros x y Hx Hy; apply Hinj; by right].
  intros (e' & Hk & He')%list_elem_of_fmap. apply Hn1. apply Hinj in Hk; [|by left|by right]. rewrite Hk. by apply list_elem_of_fmap_2.
Qed.

(** Then the destination of a copy has no two entries of one cell. *)
Lemma chosen_keys t src dst a b ss ds p0 p1 :
  nodes_ok t src [] a -> nodes_ok t dst [] b -> stream_ok ds -> positions_agree a b ss ds p0 p1 ->
  NoDup ((fun c => key (c_entry c)) <$> chosen t a b ss ds p0 p1).
Proof.
  intros [_ Ia Na _ _] [_ Ib Nb _ _] Hds Hagree.
  assert (forall l : list retained_candidate, NoDup ((fun c => key (c_entry c)) <$> l) ->
    NoDup ((fun c => key (c_entry c)) <$> retain_last (retained_limit t) (stable_sort candidate_lt l))) as Hlast.
  { intros l Hl. unfold retain_last. rewrite fmap_drop. eapply sublist_NoDup; [|apply sublist_drop]. by rewrite stable_sort_perm. }
  apply Hlast. unfold copy_candidates. rewrite fmap_app, <- !list_fmap_compose.
  assert (Ha : NoDup (key <$> (entries a).*2)) by (by rewrite <- list_fmap_compose).
  assert (Hb : NoDup (key <$> (entries b).*2)) by (by rewrite <- list_fmap_compose).
  apply NoDup_app. split_and!.
  - eapply sublist_NoDup; [exact Hb|]. apply fmap_sublist, sublist_filter.
  - intros k (e' & -> & [Hp' He']%list_elem_of_filter)%list_elem_of_fmap (e & Hk & He)%list_elem_of_fmap. simpl in Hk.
    apply Hp'. rewrite <- (Hagree e e' He He' (eq_sym Hk)). unfold source_entries in He.
    by apply list_elem_of_filter in He as [[_ ?] _].
  - apply keys_of_stream; [done| | |].
    + unfold source_entries. apply Forall_forall. intros e [_ (x & -> & Hx)%list_elem_of_fmap]%list_elem_of_filter.
      rewrite Forall_forall in Ia. by apply (Ia x).
    + unfold source_entries. intros e e' [[-> _] _]%list_elem_of_filter [[-> _] _]%list_elem_of_filter. done.
    + eapply sublist_NoDup; [exact Ha|]. apply fmap_sublist, sublist_filter.
Qed.

(** C34: A copy of a sequence of the tail is a transaction.  Preparing it changes no tail
    and tells which payload to copy: from slots of the source, each to a slot of the
    destination of its own, none of them a source of another copy.  Committing it replaces
    the tail of the destination by the newest of its entries out of the range and those of
    the source in it, survivors in their slots, joins the degradations and, without one,
    takes the smaller count of commits since a degradation, if no two of these entries are of
    one cell; if two are, it throws. They are not when no cell has one position in what is
    copied and another in the destination. Cancelling it leaves every tail as it was. *)
Theorem copy_transaction t src dst ss ds p0 p1 a b :
  store_ok t -> free_of_copy t -> is_seq t src -> is_seq t dst -> src <> dst -> stream_ok ds ->
  arenas t !! Z.to_nat src = Some a -> arenas t !! Z.to_nat dst = Some b ->
  let fl := Z.lor (degradation b) (degradation a) in
  let rc := if fl =? 0 then Z.min (recovery_commits b) (recovery_commits a) else 0 in
  exists t1 d, prepare_seq_cp t src dst ss ds p0 p1 = Ok (t1, copies_of (chosen t a b ss ds p0 p1) d) /\
    tails t1 = tails t /\ pending_seq_cp_destination t1 = dst /\
    Forall2 chosen_entry (chosen t a b ss ds p0 p1) d /\
    NoDup (dst_slot <$> copies_of (chosen t a b ss ds p0 p1) d) /\
    (forall x y, x ∈ copies_of (chosen t a b ss ds p0 p1) d -> y ∈ copies_of (chosen t a b ss ds p0 p1) d ->
       src_slot x <> dst_slot y) /\
    (NoDup (key <$> d) -> exists t2, commit_seq_cp t1 = Ok t2 /\ store_ok t2 /\ free_of_copy t2 /\
       tails t2 = <[Z.to_nat dst := mk_tail d fl rc]> (tails t)) /\
    (~ NoDup (key <$> d) -> commit_seq_cp t1 = Error LogicError) /\
    (positions_agree a b ss ds p0 p1 -> NoDup (key <$> d)) /\
    (exists t3, cancel_seq_cp t1 = Ok t3 /\ store_ok t3 /\ free_of_copy t3 /\ tails t3 = tails t).
Proof.
  intros HK Hf Hsrc Hdst Hne Hds Ha Hb fl rc.
  destruct (prepare_ok t src dst ss ds p0 p1 a b HK Hf Hsrc Hdst Hne Hds Ha Hb) as (t1 & d & acq & E & K1 & A1 & T1 & _ & P1 & C1 & _).
  exists t1, d. split; [done|]. split; [done|]. split; [unfold pending_seq_cp_destination; by rewrite P1|]. split; [done|].
  destruct (pending_copies_apart t1 src _ (chosen t a b ss ds p0 p1) K1 P1) as [D1 D2]; [by apply (is_seq_alike t t1)|done|done| |].
  { intros a' c Ha' Hc Hcc. assert (tail_of a' = tail_of a) as Heq.
    { apply (f_equal (fun l => l !! Z.to_nat src)) in T1. unfold tails in T1. rewrite !list_lookup_fmap, Ha, Ha' in T1. simpl in T1. congruence. }
    apply (f_equal toks) in Heq. simpl in Heq. rewrite slots_of_toks, Heq, <- slots_of_toks.
    exact (candidate_source t a b ss ds p0 p1 c Hc Hcc). }
  split; [exact D1|]. split; [exact D2|]. split; [|split; [|split]].
  - intros Hkeys. destruct (commit_pending_ok t1 _ K1 P1) as (t2 & E2 & K2 & _ & F2 & _ & T2); [done|].
    exists t2. split_and!; try done. rewrite T2, T1. done.
  - by apply (commit_pending_dup t1 _ K1 P1).
  - intros Hagree. rewrite (keys_of_tokens _ _ C1).
    destruct (st_arenas _ HK src a Hsrc Ha) as [[HNa _ _ _] _]. destruct (st_arenas _ HK dst b Hdst Hb) as [[HNb _ _ _] _].
    rewrite held_none in HNa, HNb by done. by eapply chosen_keys.
  - destruct (cancel_pending_ok t1 _ K1 P1) as (t3 & E3 & K3 & _ & F3 & _ & T3). exists t3. split_and!; try done. by rewrite T3.
Qed.

(** ** Examples *)

Lemma ok_inj {A} (x y : A) : Ok (E := tail_error) x = Ok y -> x = y.
Proof. congruence. Qed.

Lemma ok_fst_inj {A B} (x y : A) (u v : B) : Ok (E := tail_error) (x, u) = Ok (y, v) -> x = y.
Proof. congruence. Qed.

Definition run (t : tail_store) (o : tail_op) : tail_store :=
  match run_op t o with Ok r => r.1 | Error _ => t end.

(** A token in each of the two sequences. *)
Definition example_pair : tail_store :=
  run (run example_store example_commit) (Commit 0 (mk_id 0 6 1) 8 1 UINT32_MAX).

Lemma example_pair_ok : store_ok example_pair /\ free_of_copy example_pair.
Proof.
  destruct (reached_ok example_store example_pair (proj1 example_store_ok) (proj2 example_store_ok)) as (H1 & H2 & _); [|done].
  refine (reached_step _ _ (Commit 0 (mk_id 0 6 1) 8 1 UINT32_MAX) _ 0
    (reached_step _ _ example_commit _ 3 (reached_start _) example_commit_ok eq_refl) _ eq_refl).
  split; [split; simpl; lia|]. split; [done|]. intros H. exfalso. by apply H.
Qed.

Definition arena_of (t : tail_store) (s : Z) : arena := default (no_entries 0) (arenas t !! Z.to_nat s).

Definition example_prepared : tail_store :=
  match prepare_seq_cp example_pair 0 1 0 0 8 9 with Ok r => r.1 | Error _ => example_pair end.

Definition example_copied : tail_store :=
  match commit_seq_cp example_prepared with Ok t => t | Error _ => example_prepared end.

(** The token of sequence 0 is copied to sequence 1, which keeps its own. *)
Lemma copy_transaction_witness : exists t1 t2,
  prepare_seq_cp example_pair 0 1 0 0 8 9 = Ok (t1, [mk_copy 0 4]) /\ tails t1 = tails example_pair /\
  commit_seq_cp t1 = Ok t2 /\ store_ok t2 /\
  toks <$> tails t2 = [[mk_entry (mk_id 0 6 1) 8 1 0]; [mk_entry (mk_id 0 5 1) 7 0 3; mk_entry (mk_id 0 6 1) 8 1 4]].
Proof.
  destruct (copy_transaction example_pair 0 1 0 0 8 9 (arena_of example_pair 0) (arena_of example_pair 1)
    (proj1 example_pair_ok) (proj2 example_pair_ok)) as (t1 & d & E & T1 & _ & _ & _ & _ & Hcommit & _ & Hkeys & _).
  - split; [lia|done].
  - split; [lia|done].
  - done.
  - split; [lia|done].
  - done.
  - done.
  - assert (E' : prepare_seq_cp example_pair 0 1 0 0 8 9 = Ok (example_prepared, [mk_copy 0 4])) by reflexivity.
    assert (E2' : commit_seq_cp example_prepared = Ok example_copied) by (vm_compute; reflexivity).
    destruct Hcommit as (t2 & E2 & K2 & _ & T2).
    { apply Hkeys. intros e e' [_ He]%list_elem_of_filter He' Hk.
      change ((entries (arena_of example_pair 0)).*2) with [mk_entry (mk_id 0 6 1) 8 1 0] in He.
      change ((entries (arena_of example_pair 1)).*2) with [mk_entry (mk_id 0 5 1) 7 0 3] in He'.
      apply list_elem_of_singleton in He, He'. subst e e'. vm_compute in Hk. discriminate Hk. }
    rewrite E' in E. apply ok_fst_inj in E as Et1. rewrite <- Et1 in E2, T1. rewrite E2' in E2. apply ok_inj in E2 as Et2. rewrite <- Et2 in K2.
    exists example_prepared, example_copied.
    split; [exact E'|]. split; [exact T1|]. split; [exact E2'|]. split; [exact K2|]. vm_compute. reflexivity.
Defined.

(** Sequence 1 has its token of position 7 in cell 5; sequence 0 then gets one of position 8 in
    the same cell. The copy keeps both, and the commit throws. *)
Definition copy_of_a_reused_cell : R tail_store :=
  r ← run_op example_pair (Commit 0 (mk_id 0 5 2) 8 2 UINT32_MAX);
  r ← prepare_seq_cp r.1 0 1 0 0 8 9;
  commit_seq_cp r.1.

Lemma copy_of_a_reused_cell_throws : copy_of_a_reused_cell = Error LogicError.
Proof. vm_compute. reflexivity. Qed.

(** A cell that is removed from the destination while a copy is pending gives its slot
    back, and the commit brings its entry back: later two entries share the slot. *)
Definition removed_while_pending : R (list Z) :=
  r ← prepare_seq_cp example_pair 0 1 0 0 8 9;
  t ← seq_rm_cell r.1 1 0 5;
  t ← commit_seq_cp t;
  r ← run_op t (Commit 1 (mk_id 0 7 1) 9 2 UINT32_MAX);
  t ← seq_rm r.1 1 8 9;
  r ← run_op t (Commit 1 (mk_id 0 8 1) 10 3 UINT32_MAX);
  Ok (active_slots r.1).*1.

Lemma removed_while_pending_shares_a_slot : removed_while_pending = Ok [0; 3; 5; 3].
Proof. reflexivity. Qed.

End KvTailCopy.
