(* ===== verification/KvTailState.v ===== *)
(** Saving and restoring the exact tail: what is read back from a snapshot has the tails,
    the marks of the slots and the cursors that were saved; and so has a clone. *)

From S2P Require Import Prelude.
From S2P Require Import StableSort.
From S2P Require Import KvTailStore.
From S2P Require Import KvTailStoreWf.
From S2P Require Import KvTailSpec.
From S2P Require Import KvTailRefine.
From S2P Require Import KvTailBatch.
From S2P Require Import KvTailCopy.

Module KvTailState.
Import KvTailStore KvTailStoreWf KvTailSpec KvTailRefine KvTailBatch KvTailCopy.

(** What reading a state does with a store, for a snapshot of all sequences whose cells
    are read back to where they were: it is cleared, the entries are put in their slots,
    then the degradations and the cursors are set. *)
Definition restore_entry (t : tail_store) (x : snapshot_entry) : R tail_store :=
  r ← restore t x.1 (identity x.2) (position x.2) (insertion_ordinal x.2) (slot x.2 mod arena_stride t);
  Ok r.1.

Definition saved_cursors (t : tail_store) : R (list (Z * Z)) :=
  mapM (fun p => c ← state_write_cursor t (pr_seq p); Ok (pr_seq p, c)) (snapshot_provenance t (-1)).

Definition read_state (u t : tail_store) : R tail_store :=
  cursors ← saved_cursors t;
  v ← clear u;
  v ← foldM restore_entry v (snapshot t (-1));
  v ← restore_provenance v (snapshot_provenance t (-1)) (-1);
  foldM (fun v x => restore_write_cursor v x.1 x.2) v cursors.

(** ** One entry *)

Lemma idle_spec t : idle t = true <-> in_batch t = false /\ free_of_copy t /\ batch_transaction t = None.
Proof.
  unfold idle, has_pending_seq_cp, has_batch_transaction, free_of_copy.
  destruct (in_batch t), (pending_seq_cp t), (batch_transaction t); naive_solver.
Qed.

Definition has_slot (t : tail_store) (s sl : Z) : Prop := base t s <= sl < base t s + arena_stride t.

Lemma local_slot t s sl : settings_ok t -> is_seq t s -> has_slot t s sl ->
  sl mod arena_stride t = sl - base t s /\ 0 <= sl - base t s < arena_stride t /\
  i32 (u32 (base_of t s + sl mod arena_stride t)) = sl.
Proof.
  intros HT Hs H. pose proof (base_bounds _ _ HT Hs). unfold has_slot in H.
  assert (sl mod arena_stride t = sl - base t s) as E.
  { symmetry. apply (Z.mod_unique _ _ s); [lia|]. unfold base. lia. }
  rewrite E. split; [done|]. split; [lia|]. rewrite (base_of_base _ _ HT Hs). replace (base t s + (sl - base t s)) with sl by lia.
  unfold INT32_MAX in *. rewrite u32_small, i32_small; lia.
Qed.

Lemma restore_ok t s e a :
  store_ok t -> idle t = true -> is_seq t s -> arenas t !! Z.to_nat s = Some a ->
  id_ok (identity e) -> has_slot t s (slot e) -> slot e ∉ slots_of (entries a) -> key e ∉ (fun x : node => key x.2) <$> entries a ->
  Z.of_nat (length (entries a)) < history_limit t ->
  exists t', restore_entry t (s, e) = Ok t' /\ store_ok t' /\ alike t t' /\ idle t' = true /\
    tails t' = <[Z.to_nat s := mk_tail (insert_sorted entry_lt e (entries a).*2) (degradation a) (recovery_commits a)]> (tails t) /\
    write_cursor <$> arenas t' = write_cursor <$> arenas t.
Proof.
  intros HK Hid Hs Ha Hie Hsl Hfree Hkey Hlen. pose proof (st_settings _ HK) as HT.
  apply idle_spec in Hid as Hi. destruct Hi as (Hi1 & Hi2 & Hi3).
  destruct (st_arenas _ HK s a Hs Ha) as [HA Hw]. rewrite held_none in HA by done. pose proof HA as [HN HI HS HR].
  destruct (local_slot t s (slot e) HT Hs Hsl) as (L1 & L2 & L3).
  pose proof HN as [N1 N2 N3 [U1 U2 U3 U4] N5]. rewrite app_nil_r in *. fold (slots_of (entries a)) in *.
  destruct (lookup_lt_is_Some_2 (slot_used a) (Z.to_nat (slot e - base t s))) as [m Hm]; [lia|].
  assert (m = false) as ->.
  { destruct m; [|done]. apply U4 in Hm as [_ Hm]. rewrite Z2Nat.id in Hm by lia.
    by replace (base t s + (slot e - base t s)) with (slot e) in Hm by lia. }
  unfold restore_entry, restore. cbn [fst snd]. rewrite (proj2 (valid_seq_spec t s) Hs), Hid, L1.
  rewrite (proj2 (Z.ltb_lt _ _)) by lia. simpl. rewrite (at_lookup _ _ _ Ha). bind_simpl.
  rewrite (at_lookup _ _ _ Hm). bind_simpl. rewrite (proj2 (Z.ltb_lt _ _) Hlen). simpl.
  rewrite key_of_id. assert (entry_by_cell a !! id_key (identity e) = None) as -> by (by apply (index_none a (identity e) [] t s HA)).
  bind_simpl. rewrite L1 in L3. rewrite L3. cbn [fst snd]. eexists. split; [reflexivity|]. split_and!.
  - apply set_arena_ok; [done..| |].
    + remember (new_name (entries a)) as n. pose proof (new_name_fresh (entries a)) as Hn. rewrite <- Heqn in Hn.
      assert (HP : insert_sorted node_lt (n, mk_entry (identity e) (position e) (insertion_ordinal e) (slot e)) (entries a) ≡ₚ
        (n, mk_entry (identity e) (position e) (insertion_ordinal e) (slot e)) :: entries a) by apply insert_sorted_perm.
      assert (HN' : nodes_ok t s [slot e] (with_slots a (<[Z.to_nat (slot e - base t s) := true]> (slot_used a)) (write_cursor a))).
      { split; try done. eapply (slots_ok_perm t s (slot e :: slots_of (entries a))); [unfold slots_of; by rewrite Permutation_app_comm|].
        replace (slot e) with (base t s + Z.of_nat (Z.to_nat (slot e - base t s))) at 1 by lia. by apply slots_ok_mark. }
      destruct (nodes_ok_add t s (slot e) (identity e) (position e) (insertion_ordinal e) [] _ n _ HN' Hie Hn Hkey HP) as [M1 M2 M3 M4 M5].
      split; simpl; [by split| |by apply insert_sorted_sorted; [apply node_lt_asym|apply node_not_gt_trans|]|done].
      eapply (index_ok_insert (entries a) _ n (mk_entry (identity e) (position e) (insertion_ordinal e) (slot e))); [exact HI| |exact HP]. simpl.
      by apply (index_none a (identity e) [] t s HA).
    + intros Hc. unfold within. simpl. rewrite length_insert_sorted, (retained_history t HT). lia.
  - apply alike_set_arena.
  - exact Hid.
  - rewrite tails_set. f_equal. unfold tail_of. simpl. rewrite insert_sorted_snd. by destruct e.
  - simpl. rewrite list_fmap_insert. apply list_insert_id. by rewrite list_lookup_fmap, Ha.
Qed.

(** ** All entries *)

Definition of_seq (s : Z) (l : list snapshot_entry) : list exact_entry := (filter (fun x => x.1 = s) l).*2.

Lemma of_seq_app s l k : of_seq s (l ++ k) = of_seq s l ++ of_seq s k.
Proof. unfold of_seq. by rewrite filter_app, fmap_app. Qed.

Lemma of_seq_same s l : of_seq s (pair s <$> l) = l.
Proof.
  unfold of_seq. rewrite filter_all by (by intros x (e & -> & _)%list_elem_of_fmap).
  rewrite <- list_fmap_compose. apply list_fmap_id.
Qed.

Lemma of_seq_other s s' l : s <> s' -> of_seq s (pair s' <$> l) = [].
Proof. intros Hne. unfold of_seq. rewrite filter_none; [done|]. intros x (e & -> & _)%list_elem_of_fmap. simpl. congruence. Qed.

(** Entries that can be put in the part of the arena of a sequence. *)
Record loadable (t : tail_store) (s : Z) (l : list exact_entry) : Prop := mk_loadable {
  ld_ids : Forall (fun e => id_ok (identity e)) l;
  ld_keys : NoDup (key <$> l);
  ld_slots : NoDup (slot <$> l);
  ld_range : Forall (fun e => has_slot t s (slot e)) l;
  ld_sorted : Sorted_by entry_lt l;
  ld_length : Z.of_nat (length l) <= history_limit t;
}.

Lemma loadable_arena t s a :
  settings_ok t -> arena_ok t s [] a -> within t a -> loadable t s (entries a).*2.
Proof.
  intros HT [[N1 N2 N3 [U1 U2 U3 U4] N5] HI HS HR] Hw. rewrite app_nil_r in *. split.
  - by apply Forall_fmap.
  - by rewrite <- list_fmap_compose.
  - by rewrite <- list_fmap_compose.
  - apply Forall_fmap. apply Forall_fmap in U3. exact U3.
  - by apply (Sorted_by_fmap snd node_lt entry_lt).
  - rewrite length_fmap, <- (retained_history t HT). exact Hw.
Qed.

Lemma loadable_alike t u s l : alike t u -> loadable t s l -> loadable u s l.
Proof.
  intros HA [H1 H2 H3 H4 H5 H6]. split; try done; [|by rewrite (al_history _ _ HA)].
  apply (Forall_impl _ _ _ H4). unfold has_slot, base. intros e. by rewrite (al_stride _ _ HA).
Qed.

(** While the entries are put back. *)
Record loading (u : tail_store) (l : list snapshot_entry) (v : tail_store) : Prop := mk_loading {
  lo_ok : store_ok v;
  lo_alike : alike u v;
  lo_idle : idle v = true;
  lo_tails : forall s x, tails v !! Z.to_nat s = Some x -> is_seq v s -> x = mk_tail (of_seq s l) 0 0;
}.

Lemma load_ok u l :
  loading u [] u -> Forall (fun x => is_seq u x.1) l -> (forall s, is_seq u s -> loadable u s (of_seq s l)) ->
  exists v, foldM restore_entry u l = Ok v /\ loading u l v.
Proof.
  intros H0 Hl Hload. apply (foldM_total (loading u)); [|done].
  intros pre [s e] v [post Hpost] [HK HA Hid Ht].
  assert (Hs : is_seq u s) by (rewrite Hpost in Hl; apply Forall_app in Hl as [Hl _]; apply Forall_app in Hl as [_ Hl]; by inversion Hl).
  assert (Hsv : is_seq v s) by (by apply (is_seq_alike u v)).
  destruct (lookup_seq v s Hsv) as [a Ha].
  assert (Hta : tails v !! Z.to_nat s = Some (tail_of a)) by (unfold tails; by rewrite list_lookup_fmap, Ha).
  pose proof (Ht s _ Hta Hsv) as Hx. unfold tail_of in Hx. injection Hx as He Hd Hr.
  pose proof (loadable_alike _ _ _ _ HA (Hload s Hs)) as [D1 D2 D3 D4 D5 D6].
  assert (E : of_seq s l = of_seq s pre ++ e :: of_seq s post).
  { rewrite Hpost, !of_seq_app, <- app_assoc. simpl. f_equal. unfold of_seq at 1. by rewrite filter_cons_True. }
  rewrite E in *. rewrite fmap_app in D2, D3. rewrite length_app in D6.
  destruct (restore_ok v s e a HK Hid Hsv Ha) as (v' & Ev & K' & A' & I' & T' & _).
  - apply Forall_app in D1 as [_ D1]. by inversion D1.
  - apply Forall_app in D4 as [_ D4]. by inversion D4.
  - rewrite slots_of_toks, He. apply NoDup_app in D3 as (_ & D3 & _). intros Hin. apply (D3 _ Hin). left.
  - assert ((fun x : node => key x.2) <$> entries a = key <$> (entries a).*2) as -> by (by rewrite <- list_fmap_compose).
    rewrite He. apply NoDup_app in D2 as (_ & D2 & _). intros Hin. apply (D2 _ Hin). left.
  - apply (f_equal length) in He. rewrite length_fmap in He. simpl in D6. lia.
  - exists v'. split; [done|]. split; [done|by eapply alike_trans|done|].
    intros s' x Hx' Hs'. rewrite T' in Hx'. apply (is_seq_alike v v' s' A') in Hs'. destruct (decide (s' = s)) as [->|Hne].
    + rewrite list_lookup_insert_eq in Hx' by (by apply lookup_lt_Some in Hta). injection Hx' as <-. rewrite Hd, Hr, He. f_equal.
      rewrite of_seq_app. change ([(s, e)]) with (pair s <$> [e]). rewrite of_seq_same.
      apply insert_sorted_end. intros y Hy. apply StronglySorted_app in D5 as [D5 _]. apply (D5 y e); [done|left].
    + rewrite list_lookup_insert_ne in Hx' by (unfold is_seq in *; lia). rewrite (Ht s' x Hx' Hs').
      rewrite of_seq_app. change ([(s, e)]) with (pair s <$> [e]). by rewrite (of_seq_other s' s), app_nil_r.
Qed.

(** What a snapshot holds. *)
Lemma snapshot_all t :
  store_ok t -> free_of_copy t -> Forall (fun a => within t a) (arenas t) ->
  snapshot t (-1) = concat (imap (fun i a => pair (Z.of_nat i) <$> (entries a).*2) (arenas t)).
Proof.
  intros HK Hf Hw. unfold snapshot. f_equal. apply imap_ext. intros i a Ha. simpl.
  unfold snapshot_arena, pending_for. rewrite Hf. f_equal. unfold last_n.
  rewrite Forall_forall in Hw. specialize (Hw a (list_elem_of_lookup_2 _ _ _ Ha)). unfold within in Hw.
  rewrite length_fmap. by replace (length (entries a) - Z.to_nat (retained_limit t))%nat with 0%nat by lia.
Qed.

Lemma of_seq_concat k l i a :
  l !! i = Some a ->
  of_seq (Z.of_nat (k + i)) (concat (imap (fun j b => pair (Z.of_nat (k + j)) <$> (entries b).*2) l)) = (entries a).*2.
Proof.
  assert (Hnone : forall s k (l : list arena), s < Z.of_nat k ->
    of_seq s (concat (imap (fun j b => pair (Z.of_nat (k + j)) <$> (entries b).*2) l)) = []).
  { intros s k' l'. revert k'. induction l' as [|b l' IH]; intros k' Hk; [done|]. cbn [imap concat]. simpl.
    rewrite of_seq_app, of_seq_other by lia. simpl. rewrite <- (IH (S k')) by lia. do 2 f_equal. apply imap_ext.
    intros j c _. simpl. do 2 f_equal. lia. }
  revert k i. induction l as [|b l IH]; intros k i Hi; [done|]. cbn [imap concat]. simpl. rewrite of_seq_app.
  assert (Hshift : imap ((fun j b => pair (Z.of_nat (k + j)) <$> (entries b).*2) ∘ S) l =
    imap (fun j b => pair (Z.of_nat (S k + j)) <$> (entries b).*2) l).
  { apply imap_ext. intros j c _. simpl. do 2 f_equal. lia. }
  rewrite Hshift. destruct i as [|i].
  - injection Hi as ->. rewrite !Nat.add_0_r, of_seq_same, Hnone by lia. by rewrite app_nil_r.
  - rewrite of_seq_other by lia. simpl. replace (k + S i)%nat with (S k + i)%nat by lia. by apply IH.
Qed.

(** ** Degradations and cursors *)

(** A loop that sets each sequence in turn. *)
Lemma set_all_from {B} (f : tail_store -> B -> R tail_store) (g : arena -> B -> arena) v (l : list B) (done todo : list arena) :
  length l = length todo ->
  (forall i b X a, l !! i = Some b -> length X = length (done ++ todo) -> X !! (length done + i)%nat = Some a ->
     f (with_arenas v X) b = Ok (with_arenas v (<[(length done + i)%nat := g a b]> X))) ->
  foldM f (with_arenas v (done ++ todo)) l = Ok (with_arenas v (done ++ zip_with g todo l)).
Proof.
  revert done todo. induction l as [|b l IH]; intros done todo Hl Hf.
  - destruct todo; [|done]. reflexivity.
  - destruct todo as [|a todo]; [done|]. simpl in Hl. cbn [foldM].
    rewrite (Hf 0%nat b (done ++ a :: todo) a eq_refl eq_refl) by (rewrite Nat.add_0_r; by apply list_lookup_middle).
    bind_simpl. rewrite Nat.add_0_r, insert_app_r_alt, Nat.sub_diag by done. simpl.
    replace (done ++ g a b :: todo) with ((done ++ [g a b]) ++ todo) by (by rewrite <- app_assoc).
    rewrite IH; [by rewrite <- app_assoc|lia|]. intros i b' X a' Hi HX Ha'.
    rewrite length_app in Ha' |- *. rewrite !length_app in HX. simpl in *.
    replace (length done + 1 + i)%nat with (length done + S i)%nat in * by lia. apply Hf; [done| |done]. rewrite ?length_app; simpl in *; lia.
Qed.

Lemma set_all_ok {B} (f : tail_store -> B -> R tail_store) (g : arena -> B -> arena) v (l : list B) :
  length l = length (arenas v) ->
  (forall i b X a, l !! i = Some b -> length X = length (arenas v) -> X !! i = Some a ->
     f (with_arenas v X) b = Ok (with_arenas v (<[i := g a b]> X))) ->
  foldM f v l = Ok (with_arenas v (zip_with g (arenas v) l)).
Proof.
  intros Hl Hf. pose proof (set_all_from f g v l [] (arenas v) Hl Hf) as H. simpl in H. rewrite <- H. by destruct v.
Qed.

(** What a snapshot may say of a degradation. *)
Definition readable (x : tail) : Prop :=
  Z.ldiff (flags x) known_flags = 0 /\ (flags x = 0 -> commits x = 0).

Lemma provenance_all t : free_of_copy t ->
  snapshot_provenance t (-1) = imap (fun i a => mk_provenance (Z.of_nat i) (degradation a) (recovery_commits a)) (arenas t).
Proof. intros Hf. unfold snapshot_provenance. simpl. apply imap_ext. intros i a _. simpl. unfold provenance_of, pending_for. by rewrite Hf. Qed.

Definition read_provenance (a : arena) (p : tail_provenance) : arena := with_flags a (pr_flags p) (pr_commits p).

Lemma check_provenance_ok t v :
  store_ok t -> alike t v -> free_of_copy t -> Forall readable (tails t) ->
  exists seen, foldM (check_provenance v) (replicate (length (arenas v)) false) (snapshot_provenance t (-1)) = Ok seen.
Proof.
  intros HK HA Hf Hr. rewrite (provenance_all t Hf).
  destruct (foldM_total (fun (pre : list tail_provenance) (seen : list bool) => length seen = length (arenas v) /\
    forall j, (length pre <= j < length (arenas v))%nat -> seen !! j = Some false)
    (check_provenance v) (imap (fun i a => mk_provenance (Z.of_nat i) (degradation a) (recovery_commits a)) (arenas t))
    (replicate (length (arenas v)) false)) as (seen & E & _); [| |by exists seen].
  2:{ split; [apply length_replicate|]. intros j Hj. apply lookup_replicate_2. lia. }
  intros pre p seen [post Hp] [Hs1 Hs2].
  assert (Hi : imap (fun i a => mk_provenance (Z.of_nat i) (degradation a) (recovery_commits a)) (arenas t) !! length pre = Some p).
  { rewrite Hp, <- app_assoc. by apply list_lookup_middle. }
  rewrite list_lookup_imap in Hi. destruct (arenas t !! length pre) as [a|] eqn:Ea; [|done]. injection Hi as <-.
  pose proof (lookup_lt_Some _ _ _ Ea) as Hlt. pose proof (al_arenas _ _ HA) as Hla.
  destruct (st_arenas _ HK (Z.of_nat (length pre)) a) as [HAa _]; [split; lia|by rewrite Nat2Z.id|].
  rewrite Forall_forall in Hr. destruct (Hr (tail_of a)) as [R1 R2].
  { apply list_elem_of_fmap. exists a. split; [done|]. by eapply list_elem_of_lookup_2. }
  unfold tail_of in R1, R2. simpl in R1, R2. unfold check_provenance. cbn [pr_seq pr_flags pr_commits].
  assert (valid_seq v (Z.of_nat (length pre)) = true) as -> by (apply valid_seq_spec; split; lia). rewrite R1.
  pose proof (ok_recovery _ _ _ _ HAa) as Hrec. rewrite (al_tokens _ _ HA).
  rewrite (proj2 (Z.ltb_ge _ _)) by lia. simpl.
  assert ((degradation a =? 0) && negb (recovery_commits a =? 0) = false) as ->.
  { destruct (Z.eqb_spec (degradation a) 0) as [Hz|]; [|done]. by rewrite (R2 Hz). }
  bind_simpl. rewrite Nat2Z.id, (at_lookup seen (length pre) false) by (apply Hs2; lia). bind_simpl.
  eexists. split; [done|]. split; [by rewrite length_insert|]. intros j Hj. rewrite length_app in Hj. simpl in Hj.
  rewrite list_lookup_insert_ne by lia. apply Hs2. lia.
Qed.

Lemma restore_provenance_ok t v :
  store_ok t -> alike t v -> free_of_copy t -> Forall readable (tails t) ->
  restore_provenance v (snapshot_provenance t (-1)) (-1) =
    Ok (with_arenas v (zip_with (fun a b => with_flags a (degradation b) (recovery_commits b)) (arenas v) (arenas t))).
Proof.
  intros HK HA Hf Hr. unfold restore_provenance.
  destruct (check_provenance_ok t v HK HA Hf Hr) as [seen E]. rewrite E. bind_simpl. simpl.
  rewrite (provenance_all t Hf). pose proof (al_arenas _ _ HA) as Hla.
  rewrite (set_all_ok _ read_provenance).
  - f_equal. simpl. f_equal. apply list_eq. intros i. rewrite !lookup_zip_with, list_lookup_imap, list_lookup_fmap.
    destruct (arenas v !! i); simpl; [|done]. by destruct (arenas t !! i).
  - rewrite length_imap. simpl. by rewrite length_fmap.
  - intros i p X a Hi HX Ha. rewrite list_lookup_imap in Hi. destruct (arenas t !! i); [|done]. injection Hi as <-.
    unfold set_provenance. cbn [pr_seq]. rewrite Nat2Z.id. simpl. rewrite (at_lookup _ _ _ Ha). bind_simpl.
    unfold set_arena. by rewrite Nat2Z.id.
Qed.

Lemma cursor_at t i a : arenas t !! i = Some a -> state_write_cursor t (Z.of_nat i) = Ok (write_cursor a).
Proof.
  intros Ha. unfold state_write_cursor. pose proof (lookup_lt_Some _ _ _ Ha).
  assert (valid_seq t (Z.of_nat i) = true) as -> by (apply valid_seq_spec; split; lia). bind_simpl.
  rewrite Nat2Z.id, (at_lookup _ _ _ Ha). done.
Qed.

Lemma saved_cursors_ok t :
  free_of_copy t -> saved_cursors t = Ok (imap (fun i a => (Z.of_nat i, write_cursor a)) (arenas t)).
Proof.
  intros Hf. unfold saved_cursors. rewrite (provenance_all t Hf).
  assert (H : forall k l, arenas t = k ++ l ->
    mapM (fun p => c ← state_write_cursor t (pr_seq p); Ok (pr_seq p, c))
      (imap (fun i a => mk_provenance (Z.of_nat (length k + i)) (degradation a) (recovery_commits a)) l) =
    Ok (imap (fun i a => (Z.of_nat (length k + i), write_cursor a)) l)); [|by apply (H [])].
  intros k l. revert k. induction l as [|a l IH]; intros k Hk; [done|]. simpl.
  rewrite Nat.add_0_r, (cursor_at t (length k) a) by (rewrite Hk; by apply list_lookup_middle). bind_simpl.
  specialize (IH (k ++ [a])). rewrite Hk, <- app_assoc in IH. specialize (IH eq_refl). rewrite length_app in IH. simpl in IH.
  replace (imap ((fun i a0 => mk_provenance (Z.of_nat (length k + i)) (degradation a0) (recovery_commits a0)) ∘ S) l)
    with (imap (fun i a0 => mk_provenance (Z.of_nat (length k + 1 + i)) (degradation a0) (recovery_commits a0)) l)
    by (apply imap_ext; intros i b _; simpl; f_equal; lia).
  replace (imap ((fun i a0 => (Z.of_nat (length k + i), write_cursor a0)) ∘ S) l)
    with (imap (fun i a0 => (Z.of_nat (length k + 1 + i), write_cursor a0)) l)
    by (apply imap_ext; intros i b _; simpl; f_equal; lia).
  rewrite IH. done.
Qed.

Lemma restore_cursors_ok t v :
  store_ok t -> alike t v -> free_of_copy t -> idle v = true -> 0 < arena_stride t ->
  foldM (fun v x => restore_write_cursor v x.1 x.2) v (imap (fun i a => (Z.of_nat i, write_cursor a)) (arenas t)) =
    Ok (with_arenas v (zip_with (fun a b => with_slots a (slot_used a) (write_cursor b)) (arenas v) (arenas t))).
Proof.
  intros HK HA Hf Hid Hst. pose proof (al_arenas _ _ HA) as Hla.
  rewrite (set_all_ok _ (fun a x => with_slots a (slot_used a) x.2)).
  - do 2 f_equal. apply list_eq. intros i. rewrite !lookup_zip_with, list_lookup_imap.
    destruct (arenas v !! i); simpl; [|done]. by destruct (arenas t !! i).
  - by rewrite length_imap.
  - intros i p X a Hi HX Ha. rewrite list_lookup_imap in Hi. destruct (arenas t !! i) as [b|] eqn:Eb; [|done]. injection Hi as <-.
    pose proof (lookup_lt_Some _ _ _ Eb) as Hlt.
    destruct (st_arenas _ HK (Z.of_nat i) b) as [[[_ _ _ _ [C1 C2]] _ _ _] _]; [split; lia|by rewrite Nat2Z.id|].
    unfold restore_write_cursor. cbn [fst snd].
    assert (valid_seq (with_arenas v X) (Z.of_nat i) = true) as -> by (apply valid_seq_spec; split; simpl; lia).
    change (arena_stride (with_arenas v X)) with (arena_stride v). rewrite (al_stride _ _ HA).
    rewrite (proj2 (Z.ltb_lt _ _)) by lia. change (idle (with_arenas v X)) with (idle v). rewrite Hid. bind_simpl.
    rewrite Nat2Z.id. simpl. rewrite (at_lookup _ _ _ Ha). bind_simpl. unfold set_arena. by rewrite Nat2Z.id.
Qed.

(** ** The round trip *)

Lemma slots_ok_unique t s sl u u' : slots_ok t s sl u -> slots_ok t s sl u' -> u = u'.
Proof.
  intros [A1 _ _ A4] [B1 _ _ B4]. assert (H : forall i, u !! i = Some true <-> u' !! i = Some true).
  { intros i. rewrite A4, B4, A1, B1. done. }
  apply list_eq. intros i. specialize (H i).
  destruct (u !! i) as [x|] eqn:E, (u' !! i) as [y|] eqn:E'; [destruct x, y; naive_solver| | |done].
  - apply lookup_lt_Some in E. apply lookup_ge_None in E'. lia.
  - apply lookup_lt_Some in E'. apply lookup_ge_None in E. lia.
Qed.

Lemma with_flags_store_ok t v :
  store_ok t -> alike t v -> free_of_copy t -> store_ok v -> free_of_copy v ->
  store_ok (with_arenas v (zip_with (fun a b => with_flags a (degradation b) (recovery_commits b)) (arenas v) (arenas t))).
Proof.
  intros HK HA Hf HV Hfv. pose proof (al_arenas _ _ HA) as Hla.
  apply with_arenas_ok; [done|done|rewrite length_zip_with; lia|].
  intros s c Hs Hc. apply lookup_zip_with_Some in Hc as (a & b & -> & Ha & Hb).
  destruct (st_arenas _ HV s a Hs Ha) as [[[N1 N2 N3 N4 N5] H2 H3 H4] H5]. apply (is_seq_alike t v s HA) in Hs.
  destruct (st_arenas _ HK s b Hs Hb) as [[_ _ _ H6] _]. rewrite held_none in N4 by done.
  split; [|done]. split; [by split|done|done|]. simpl. by rewrite (al_tokens _ _ HA).
Qed.

Lemma with_cursors_store_ok t v :
  store_ok t -> alike t v -> free_of_copy t -> store_ok v -> free_of_copy v ->
  store_ok (with_arenas v (zip_with (fun a b => with_slots a (slot_used a) (write_cursor b)) (arenas v) (arenas t))).
Proof.
  intros HK HA Hf HV Hfv. pose proof (al_arenas _ _ HA) as Hla.
  apply with_arenas_ok; [done|done|rewrite length_zip_with; lia|].
  intros s c Hs Hc. apply lookup_zip_with_Some in Hc as (a & b & -> & Ha & Hb).
  destruct (st_arenas _ HV s a Hs Ha) as [[[N1 N2 N3 N4 N5] H2 H3 H4] H5]. apply (is_seq_alike t v s HA) in Hs.
  destruct (st_arenas _ HK s b Hs Hb) as [[[_ _ _ _ C] _ _ _] _]. rewrite held_none in N4 by done.
  split; [|done]. split; [split; try done|done|done|done]. unfold cursor_ok in *. simpl. by rewrite (al_stride _ _ HA).
Qed.

(** The marks of the slots follow from the tails. *)
Lemma slots_of_tails t v :
  store_ok t -> store_ok v -> alike t v -> free_of_copy t -> free_of_copy v -> tails v = tails t ->
  slot_used <$> arenas v = slot_used <$> arenas t.
Proof.
  intros HK HV HA Hf Hfv Ht. apply list_eq. intros i. rewrite !list_lookup_fmap.
  assert (Hti : tail_of <$> arenas v !! i = tail_of <$> arenas t !! i) by (by rewrite <- !list_lookup_fmap; unfold tails in Ht; rewrite Ht).
  destruct (arenas v !! i) as [a|] eqn:Ea, (arenas t !! i) as [b|] eqn:Eb; try done.
  assert (Hab : tail_of a = tail_of b) by (simpl in Hti; congruence). simpl. f_equal.
  assert (Hs : is_seq t (Z.of_nat i)) by (apply lookup_lt_Some in Eb; split; lia).
  destruct (st_arenas _ HK (Z.of_nat i) b Hs) as [[[_ _ _ N1 _] _ _ _] _]; [by rewrite Nat2Z.id|].
  destruct (st_arenas _ HV (Z.of_nat i) a) as [HAa _]; [by apply (is_seq_alike t v)|by rewrite Nat2Z.id|].
  rewrite held_none in HAa, N1 by done. destruct (ok_nodes _ _ _ _ HAa) as [_ _ _ N2 _].
  rewrite app_nil_r in N1, N2. fold (slots_of (entries a)) in N2. fold (slots_of (entries b)) in N1.
  rewrite slots_of_toks in N1, N2. apply (f_equal toks) in Hab. simpl in Hab. rewrite Hab in N2.
  apply (slots_ok_unique t (Z.of_nat i) (slot <$> (entries b).*2)); [|done].
  destruct N2 as [K1 K2 K3 K4]. split; unfold base in *; rewrite <- ?(al_stride _ _ HA); done.
Qed.

Lemma alike_sym t u : alike t u -> alike u t.
Proof. intros []. by split. Qed.

Lemma of_seq_snapshot t s a :
  store_ok t -> free_of_copy t -> Forall (fun a => within t a) (arenas t) -> is_seq t s -> arenas t !! Z.to_nat s = Some a ->
  of_seq s (snapshot t (-1)) = (entries a).*2.
Proof.
  intros HK Hf Hw Hs Ha. rewrite (snapshot_all t HK Hf Hw).
  pose proof (of_seq_concat 0 (arenas t) (Z.to_nat s) a Ha) as H. simpl in H. unfold is_seq in Hs. by rewrite Z2Nat.id in H by lia.
Qed.

Lemma snapshot_seqs t :
  store_ok t -> free_of_copy t -> Forall (fun a => within t a) (arenas t) -> Forall (fun x => is_seq t x.1) (snapshot t (-1)).
Proof.
  intros HK Hf Hw. rewrite (snapshot_all t HK Hf Hw). apply Forall_forall.
  intros x (l & Hl & Hx)%list_elem_of_In%in_concat. apply list_elem_of_In in Hl, Hx. apply elem_of_lookup_imap in Hl as (i & a & -> & Ha).
  apply list_elem_of_fmap in Hx as (e & -> & _). simpl. apply lookup_lt_Some in Ha. split; lia.
Qed.

(** The entries of a snapshot fill a cleared store. *)
Lemma load_snapshot t v :
  store_ok t -> free_of_copy t -> Forall (fun a => within t a) (arenas t) -> alike t v ->
  store_ok v -> idle v = true -> tails v = (fun _ => mk_tail [] 0 0) <$> tails v ->
  exists w, foldM restore_entry v (snapshot t (-1)) = Ok w /\ store_ok w /\ alike t w /\ idle w = true /\
    forall i a, arenas t !! i = Some a -> tails w !! i = Some (mk_tail (entries a).*2 0 0).
Proof.
  intros HK Hf Hw HA HV Hid Ht. destruct (load_ok v (snapshot t (-1))) as (w & E & [L1 L2 L3 L4]).
  - split; [done|done|done|]. intros s x Hx _. rewrite Ht, list_lookup_fmap in Hx.
    destruct (tails v !! Z.to_nat s); [|done]. by injection Hx as <-.
  - apply (Forall_impl _ _ _ (snapshot_seqs t HK Hf Hw)). intros x Hx. by apply (is_seq_alike t v).
  - intros s Hs. apply (is_seq_alike t v) in Hs; [|done]. destruct (lookup_seq t s Hs) as [a Ha].
    rewrite (of_seq_snapshot t s a HK Hf Hw Hs Ha). apply (loadable_alike t v); [done|].
    destruct (st_arenas _ HK s a Hs Ha) as [HAa _]. rewrite held_none in HAa by done.
    apply loadable_arena; [apply HK|done|]. rewrite Forall_forall in Hw. apply Hw. by eapply list_elem_of_lookup_2.
  - exists w. split; [done|]. split; [done|]. split; [by eapply alike_trans|]. split; [done|].
    intros i a Ha. assert (Hs : is_seq t (Z.of_nat i)) by (apply lookup_lt_Some in Ha; split; lia).
    assert (Hsw : is_seq w (Z.of_nat i)) by (apply (is_seq_alike v w); [done|]; by apply (is_seq_alike t v)).
    destruct (lookup_seq w _ Hsw) as [b Hb]. rewrite Nat2Z.id in Hb.
    assert (Hbt : tails w !! i = Some (tail_of b)) by (unfold tails; by rewrite list_lookup_fmap, Hb).
    rewrite Hbt. f_equal. rewrite (L4 (Z.of_nat i) (tail_of b)); [|by rewrite Nat2Z.id|done].
    f_equal. apply (of_seq_snapshot t _ a HK Hf Hw Hs). by rewrite Nat2Z.id.
Qed.

(** Reading back the state of an idle store. *)
Lemma read_state_ok t u :
  store_ok t -> idle t = true -> store_ok u -> free_of_copy u -> alike u t -> 0 < arena_stride t ->
  Forall (fun a => within t a) (arenas t) -> Forall readable (tails t) ->
  exists v, read_state u t = Ok v /\ store_ok v /\ idle v = true /\ alike t v /\ tails v = tails t /\
    slot_used <$> arenas v = slot_used <$> arenas t /\ write_cursor <$> arenas v = write_cursor <$> arenas t.
Proof.
  intros HK Hid HU Hfu HA Hst Hw Hr. apply idle_spec in Hid as (_ & Hf & _).
  unfold read_state. rewrite (saved_cursors_ok t Hf). bind_simpl.
  destruct (tail_clear_ok u HU Hfu) as (v0 & E0 & K0 & A0 & F0 & B0 & I0 & T0). rewrite E0. bind_simpl.
  assert (A1 : alike t v0) by (eapply alike_trans; [by apply alike_sym|done]).
  destruct (load_snapshot t v0 HK Hf Hw A1 K0) as (v1 & E1 & K1 & A2 & I1 & T1).
  { by apply idle_spec. }
  { rewrite T0, <- list_fmap_compose. done. }
  rewrite E1. bind_simpl. rewrite (restore_provenance_ok t v1 HK A2 Hf Hr). bind_simpl.
  apply idle_spec in I1 as (I2 & F1 & B1). pose proof (al_arenas _ _ A2) as Hla.
  remember (with_arenas v1 _) as v2 eqn:Ev2.
  assert (K2 : store_ok v2) by (subst v2; by apply with_flags_store_ok).
  assert (A3 : alike t v2) by (subst v2; destruct A2; split; try done; simpl; rewrite length_zip_with; lia).
  assert (F2 : free_of_copy v2) by (by subst v2).
  rewrite (restore_cursors_ok t v2 HK A3 Hf); [|subst v2; by apply idle_spec|done].
  eexists. split; [reflexivity|]. remember (with_arenas v2 _) as v3 eqn:Ev3.
  assert (K3 : store_ok v3) by (subst v3; by apply with_cursors_store_ok).
  assert (T3 : tails v3 = tails t).
  { subst v3 v2. unfold tails. simpl. apply list_eq. intros i. rewrite !list_lookup_fmap, !lookup_zip_with.
    destruct (arenas t !! i) as [b|] eqn:Eb; simpl.
    - specialize (T1 i b Eb). unfold tails in T1. rewrite list_lookup_fmap in T1.
      destruct (arenas v1 !! i) as [c|]; [|done]. simpl in *. injection T1 as T1 _ _. unfold tail_of. simpl. by rewrite T1.
    - destruct (arenas v1 !! i); done. }
  assert (A4 : alike t v3) by (subst v3; destruct A3; split; try done; simpl; rewrite length_zip_with; lia).
  split; [done|]. split; [subst v3 v2; by apply idle_spec|]. split; [done|]. split; [done|]. split.
  - apply (slots_of_tails t v3); try done. by subst v3.
  - subst v3. apply list_eq. intros i. simpl. rewrite !list_lookup_fmap, lookup_zip_with.
    destruct (arenas t !! i) as [b|] eqn:Eb; simpl; [|by destruct (arenas v2 !! i)].
    destruct (lookup_lt_is_Some_2 (arenas v2) i) as [c ->]; [|done].
    apply lookup_lt_Some in Eb. pose proof (al_arenas _ _ A3). lia.
Qed.

(** C35: What is read back from the state of an idle store, into a store of the same shape,
    has the tails, the degradations, the marks of the slots and the cursors that were
    saved: every entry is again in its slot, and the next slots are those the saved store
    would have given. The saved store holds no more entries of a sequence than it
    retains, and every sequence has only degradations that reading knows, with a count of
    commits only where it has one: a batch that failed leaves a mark that reading
    refuses ([failed_batch_is_not_readable]). *)
Theorem tail_state_roundtrip t u :
  store_ok t -> idle t = true -> store_ok u -> free_of_copy u -> alike u t -> 0 < arena_stride t ->
  Forall (fun a => within t a) (arenas t) -> Forall readable (tails t) ->
  exists v, read_state u t = Ok v /\ store_ok v /\ idle v = true /\ alike t v /\ tails v = tails t /\
    slot_used <$> arenas v = slot_used <$> arenas t /\ write_cursor <$> arenas v = write_cursor <$> arenas t.
Proof. apply read_state_ok. Qed.

Lemma example_pair_readable : Forall (fun a => within example_pair a) (arenas example_pair) /\ Forall readable (tails example_pair).
Proof. split; repeat constructor; unfold within; vm_compute; done. Qed.

Lemma example_pair_alike : alike example_store example_pair.
Proof. by split. Qed.

Lemma tail_state_roundtrip_witness : exists v, read_state example_store example_pair = Ok v /\ store_ok v /\
  idle v = true /\ alike example_pair v /\ tails v = tails example_pair /\ slot_used <$> arenas v = slot_used <$> arenas example_pair /\
  write_cursor <$> arenas v = [1; 1].
Proof.
  exact (tail_state_roundtrip example_pair example_store (proj1 example_pair_ok) eq_refl (proj1 example_store_ok)
    (proj2 example_store_ok) example_pair_alike eq_refl (proj1 example_pair_readable) (proj2 example_pair_readable)).
Defined.

(** A store whose payload a failed batch may have overwritten cannot be read back: the
    mark it gets is not one that reading accepts. *)
Definition failed_batch : R tail_store :=
  t ← begin_batch example_pair;
  r ← run_op t (Commit 1 (mk_id 0 7 1) 9 2 0);
  finish_batch r.1 false true.

Lemma failed_batch_is_not_readable :
  (t ← failed_batch; Ok (flags <$> tails t)) = Ok [0; LLAMA_KV_TAIL_DEGRADED_PAYLOAD_INVALID] /\
  (t ← failed_batch; read_state example_store t) = Error RuntimeError.
Proof. split; reflexivity. Qed.

(** ** Clones *)

Lemma rebuild_arenas_ok t :
  store_ok t -> free_of_copy t ->
  exists u, for_arenas t (fun _ a => rebuild_index a) = Ok u /\ store_ok u /\ alike t u /\ free_of_copy u /\
    batch_transaction u = batch_transaction t /\ in_batch u = in_batch t /\ tails u = tails t.
Proof.
  intros HK Hf. destruct (for_arenas_ok t (fun _ a => rebuild_index a) (fun _ x => x) HK Hf) as (u & E & H1 & H2 & H3 & H4 & H5 & H6).
  - intros s a Hs Ha HA Hw. pose proof HA as [HN HI HS HR]. destruct (rebuild_index_ok t s [] a HN) as (m & Em & Hm).
    exists (with_index a m). split; [done|]. split; [|done]. split; [destruct HN; by split|done|done|done].
  - exists u. split_and!; try done. rewrite H6, imap_const. apply list_fmap_id.
Qed.

Lemma sink_slots t :
  settings_ok t -> 0 <= n_slots t - arena_stride t * Z.of_nat (length (arenas t)) <= INT32_MAX /\
  u32 (n_slots t - arena_stride t * Z.of_nat (length (arenas t))) = n_slots t - arena_stride t * Z.of_nat (length (arenas t)) /\
  checked_tail_slot_count (arena_stride t) (Z.of_nat (length (arenas t)))
    (n_slots t - arena_stride t * Z.of_nat (length (arenas t))) = Ok (n_slots t).
Proof.
  intros HT. pose proof (so_slots _ HT). destruct (retained_bounds _ HT).
  assert (0 <= arena_stride t * Z.of_nat (length (arenas t))) by (apply Z.mul_nonneg_nonneg; lia).
  unfold INT32_MAX in *. split; [lia|]. split; [apply u32_small; lia|].
  unfold checked_tail_slot_count. rewrite (u64_small (_ * _)) by lia. rewrite u64_small by lia.
  replace (arena_stride t * Z.of_nat (length (arenas t)) + (n_slots t - arena_stride t * Z.of_nat (length (arenas t)))) with (n_slots t) by lia.
  unfold INT32_MAX. by rewrite (proj2 (Z.leb_le _ _)) by lia.
Qed.

(** The store that a clone starts from. *)
Definition blank (t : tail_store) : tail_store :=
  mk_store (n_tokens t) (rollback_tokens t) (history_limit t) (arena_stride t) (n_slots t) (compact_storage t)
    (replicate (length (arenas t)) (no_entries (arena_stride t))) None None false.

Lemma new_blank t :
  settings_ok t -> history_limit t <= UINT32_MAX ->
  let sink := n_slots t - arena_stride t * Z.of_nat (length (arenas t)) in
  (if compact_storage t
   then new_compact_store (n_tokens t) (rollback_tokens t) (Z.of_nat (length (arenas t))) (arena_stride t) sink
   else new_store (n_tokens t) (Z.of_nat (length (arenas t))) (arena_stride t) sink) = Ok (blank t).
Proof.
  intros HT Hh. destruct (sink_slots t HT) as (_ & _ & E). cbv zeta. pose proof HT as [S1 S2 S3 S4 S5 S6]. unfold blank.
  destruct (compact_storage t) eqn:Ec.
  - unfold new_compact_store, checked_tail_history_limit. rewrite <- S3, (proj2 (Z.leb_le _ _) Hh). bind_simpl. rewrite E. bind_simpl.
    rewrite (proj2 (Z.leb_le _ _) S5). bind_simpl. by rewrite Nat2Z.id.
  - unfold new_store. rewrite E. bind_simpl. rewrite (S4 eq_refl) in *.
    assert ((0 <? n_tokens t) && (arena_stride t <? n_tokens t) = false) as -> by lia. simpl. rewrite Nat2Z.id, S3. by rewrite Z.add_0_r.
Qed.

Lemma same_shape_blank t : same_shape (blank t) t = true.
Proof. unfold same_shape. simpl. rewrite length_replicate, !Z.eqb_refl, eqb_reflx, Nat.eqb_refl. done. Qed.

(** A clone of an idle store has its tails, its slots and its cursors; a store in a
    transaction cannot be cloned. *)
Theorem tail_clone t :
  store_ok t -> history_limit t <= UINT32_MAX ->
  if idle t then
    exists u, clone_logical_state t = Ok u /\ store_ok u /\ idle u = true /\ alike t u /\ tails u = tails t /\
      slot_used <$> arenas u = slot_used <$> arenas t
  else clone_logical_state t = Error RuntimeError.
Proof.
  intros HK Hh. pose proof (st_settings _ HK) as HT. destruct (sink_slots t HT) as (_ & Es & _).
  unfold clone_logical_state. rewrite Es. pose proof (new_blank t HT Hh) as E. cbv zeta in E |- *. rewrite E. bind_simpl.
  unfold clone_logical_state_from. rewrite same_shape_blank. bind_simpl.
  destruct (idle t) eqn:Hid; [|done]. bind_simpl. apply idle_spec in Hid as (H1 & H2 & H3).
  assert (Et : with_pending (with_batch (with_arenas (blank t) (arenas t)) None false) None = t).
  { destruct t; simpl in *. unfold free_of_copy in H2. simpl in H2. by subst. }
  rewrite Et. destruct (rebuild_arenas_ok t HK H2) as (u & Eu & K1 & K2 & K3 & K4 & K5 & K6).
  exists u. split; [done|]. split; [done|]. split; [apply idle_spec; by rewrite K4, K5|]. split; [done|]. split; [done|].
  by apply (slots_of_tails t u).
Qed.

Lemma tail_clone_witness : exists u, clone_logical_state example_pair = Ok u /\ store_ok u /\ idle u = true /\
  alike example_pair u /\ tails u = tails example_pair /\ slot_used <$> arenas u = slot_used <$> arenas example_pair.
Proof. exact (tail_clone example_pair (proj1 example_pair_ok) ltac:(by vm_compute)). Defined.

(** ** Histories *)

(** The stores reached from [t0] by operations, batches that begin and end in any way,
    copies that are committed or cancelled before anything else happens to the store, states
    that are read back and clones. *)
Inductive history (t0 : tail_store) : tail_store -> Prop :=
| history_start : history t0 t0
| history_op t o t' r : history t0 t -> op_ok t o -> run_op t o = Ok (t', r) -> history t0 t'
| history_begin t t' : history t0 t -> begin_batch t = Ok t' -> history t0 t'
| history_finish t success payload_may_be_modified t' :
    history t0 t -> finish_batch t success payload_may_be_modified = Ok t' -> history t0 t'
| history_commit_copy t src dst ss ds p0 p1 r t' :
    history t0 t -> is_seq t src -> is_seq t dst -> src <> dst -> stream_ok ds ->
    prepare_seq_cp t src dst ss ds p0 p1 = Ok r -> commit_seq_cp r.1 = Ok t' -> history t0 t'
| history_cancel_copy t src dst ss ds p0 p1 r t' :
    history t0 t -> is_seq t src -> is_seq t dst -> src <> dst -> stream_ok ds ->
    prepare_seq_cp t src dst ss ds p0 p1 = Ok r -> cancel_seq_cp r.1 = Ok t' -> history t0 t'
| history_read t u t' :
    history t0 t -> history t0 u -> idle t = true -> 0 < arena_stride t ->
    Forall (fun a => within t a) (arenas t) -> Forall readable (tails t) ->
    read_state u t = Ok t' -> history t0 t'
| history_clone t t' : history t0 t -> idle t = true -> history_limit t <= UINT32_MAX -> clone_logical_state t = Ok t' -> history t0 t'.

Lemma begin_batch_free t t' : store_ok t -> begin_batch t = Ok t' -> batch_transaction t = None.
Proof.
  intros HK E. destruct (batch_transaction t) as [b|] eqn:Eb; [|done].
  pose proof (st_transaction _ HK b Eb) as [T1 _ _ _ _]. unfold begin_batch, has_batch_transaction in E.
  rewrite T1, Eb in E. done.
Qed.

Lemma finish_batch_ok t success pm t' :
  store_ok t -> free_of_copy t -> finish_batch t success pm = Ok t' -> store_ok t' /\ free_of_copy t' /\ alike t t'.
Proof.
  intros HK Hf E. destruct success.
  - destruct (finish_success_ok t pm HK Hf) as (t2 & E2 & K2 & A2 & F2 & _). rewrite E2 in E. injection E as <-. done.
  - destruct (batch_transaction t) as [b|] eqn:Eb.
    + destruct (finish_failure_ok t b pm HK Hf Eb) as (t2 & E2 & K2 & A2 & F2 & _). rewrite E2 in E. injection E as <-. done.
    + destruct (finish_success_ok t pm HK Hf) as (t2 & E2 & K2 & A2 & F2 & _).
      assert (finish_batch t false pm = finish_batch t true pm) as H by (unfold finish_batch; by rewrite Eb).
      rewrite H, E2 in E. injection E as <-. done.
Qed.

Lemma prepared_ok t src dst ss ds p0 p1 r :
  store_ok t -> free_of_copy t -> is_seq t src -> is_seq t dst -> src <> dst -> stream_ok ds ->
  prepare_seq_cp t src dst ss ds p0 p1 = Ok r ->
  store_ok r.1 /\ alike t r.1 /\ exists p, pending_seq_cp r.1 = Some p.
Proof.
  intros HK Hf Hsrc Hdst Hne Hds E. destruct (lookup_seq t src Hsrc) as [a Ha], (lookup_seq t dst Hdst) as [b Hb].
  destruct (prepare_ok t src dst ss ds p0 p1 a b HK Hf Hsrc Hdst Hne Hds Ha Hb) as (t1 & d & acq & E1 & K1 & A1 & _ & _ & P1 & _).
  rewrite E1 in E. injection E as <-. split_and!; [done|done|]. by eexists.
Qed.

Lemma history_ok t0 t :
  store_ok t0 -> free_of_copy t0 -> history t0 t -> store_ok t /\ free_of_copy t /\ alike t0 t.
Proof.
  intros HK Hf. induction 1 as [|t o t' r _ (K & F & A) Ho E|t t' _ (K & F & A) E|t success pm t' _ (K & F & A) E
    |t src dst ss ds p0 p1 r t' _ (K & F & A) Hs Hd Hne Hds E E2|t src dst ss ds p0 p1 r t' _ (K & F & A) Hs Hd Hne Hds E E2
    |t u t' _ (K & F & A) _ (KU & FU & AU) Hid Hst Hw Hr E|t t' _ (K & F & A) Hid Hh E].
  - done.
  - destruct (run_op_refines t o K F Ho) as (t2 & r2 & E2 & K2 & A2 & F2 & _). rewrite E2 in E. injection E as <- _.
    split_and!; [done|done|by eapply alike_trans].
  - destruct (begin_batch_ok t K F (begin_batch_free t t' K E)) as (t2 & E2 & K2 & A2 & F2 & _).
    rewrite E2 in E. injection E as <-. split_and!; [done|done|by eapply alike_trans].
  - destruct (finish_batch_ok t success pm t' K F E) as (K2 & F2 & A2). split_and!; [done|done|by eapply alike_trans].
  - destruct (prepared_ok t src dst ss ds p0 p1 r K F Hs Hd Hne Hds E) as (K1 & A1 & p & P1).
    destruct (decide (NoDup (key <$> destination p))) as [Hn|Hn]; [|by rewrite (commit_pending_dup _ p K1 P1 Hn) in E2].
    destruct (commit_pending_ok _ p K1 P1 Hn) as (t2 & E3 & K2 & A2 & F2 & _). rewrite E3 in E2. injection E2 as <-.
    split_and!; [done|done|]. eapply alike_trans; [exact A|by eapply alike_trans].
  - destruct (prepared_ok t src dst ss ds p0 p1 r K F Hs Hd Hne Hds E) as (K1 & A1 & p & P1).
    destruct (cancel_pending_ok _ p K1 P1) as (t2 & E3 & K2 & A2 & F2 & _). rewrite E3 in E2. injection E2 as <-.
    split_and!; [done|done|]. eapply alike_trans; [exact A|by eapply alike_trans].
  - assert (alike u t) as AUT by (eapply alike_trans; [by apply alike_sym|done]).
    destruct (read_state_ok t u K Hid KU FU AUT Hst Hw Hr) as (v & E2 & K2 & Hid2 & A2 & _).
    rewrite E2 in E. injection E as <-. apply idle_spec in Hid2 as (_ & F2 & _). split_and!; [done|done|exact (alike_trans _ _ _ A A2)].
  - pose proof (tail_clone t K Hh) as Hc. rewrite Hid in Hc. destruct Hc as (u & E2 & K2 & Hid2 & A2 & _).
    rewrite E2 in E. injection E as <-. apply idle_spec in Hid2 as (_ & F2 & _). split_and!; [done|done|by eapply alike_trans].
Qed.

(** C32: In every store reached from a new one by the operations, batches in progress, ended
    or undone, copies that are committed or cancelled before anything else happens, states
    that are read back and clones ([history]), no slot is given twice, across all
    sequences, every slot is one of the payload, the entries of a sequence are in order, and a
    compact store never holds more of them than its history. (A cell removed while a copy
    is pending is not in a history: see [removed_while_pending_shares_a_slot].) *)
Theorem tail_slots_safe n_tokens rollback n_seq stride sink t0 t :
  u32_arg n_tokens -> u32_arg rollback -> u32_arg n_seq -> u32_arg stride -> u32_arg sink ->
  (new_store n_tokens n_seq stride sink = Ok t0 \/ new_compact_store n_tokens rollback n_seq stride sink = Ok t0) ->
  history t0 t ->
  NoDup (active_slots t).*1 /\ Forall (fun sl => 0 <= sl < n_slots t) (active_slots t).*1 /\
  Forall (fun x => Sorted_by entry_lt (toks x) /\
    (compact_storage t = true -> Z.of_nat (length (toks x)) <= history_limit t)) (tails t).
Proof.
  intros H1 H2 H3 H4 H5 Hnew Hr.
  assert (H0 : store_ok t0 /\ free_of_copy t0).
  { destruct Hnew as [E|E].
    - pose proof (new_store_ok n_tokens n_seq stride sink H1 H3 H4 H5) as H. rewrite E in H. tauto.
    - pose proof (new_compact_store_ok n_tokens rollback n_seq stride sink H1 H2 H3 H4 H5) as H. rewrite E in H. tauto. }
  destruct (history_ok t0 t (proj1 H0) (proj2 H0) Hr) as (HK & Hf & _).
  destruct (store_slots_distinct t HK Hf) as [S1 S2]. split_and!; [done|done|].
  apply Forall_forall. intros x (a & -> & Ha)%list_elem_of_fmap. apply list_elem_of_lookup in Ha as [i Hi].
  assert (is_seq t (Z.of_nat i)) as Hs by (unfold is_seq; apply lookup_lt_Some in Hi; lia).
  destruct (st_arenas _ HK (Z.of_nat i) a Hs) as [[_ _ Hsort _] Hw]; [by rewrite Nat2Z.id|]. split.
  - by apply (Sorted_by_fmap snd node_lt entry_lt).
  - intros Hc. specialize (Hw Hc). unfold within in Hw. rewrite (retained_history t (st_settings _ HK)) in Hw. simpl.
    by rewrite length_fmap.
Qed.

(** A batch on a new store that fails after its payload was written, and a copy of what another
    operation committed. *)
Definition or_else (t : tail_store) (r : R tail_store) : tail_store := match r with Ok t => t | Error _ => t end.
Definition in_progress : tail_store := run example_begun (Commit 0 (mk_id 0 4 1) 6 0 0).
Definition failed : tail_store := or_else in_progress (finish_batch in_progress false true).
Definition gone_on : tail_store := run failed example_commit.
Definition example_history : R tail_store := r ← prepare_seq_cp gone_on 1 0 0 0 0 (-1); commit_seq_cp r.1.
Definition history_end : tail_store := or_else gone_on example_history.

Lemma tail_slots_safe_witness :
  active_slots history_end = [(0, mk_id 0 5 1); (3, mk_id 0 5 1)] /\ NoDup (active_slots history_end).*1 /\
  Forall (fun sl => 0 <= sl < n_slots history_end) (active_slots history_end).*1 /\
  Forall (fun x => Sorted_by entry_lt (toks x) /\
    (compact_storage history_end = true -> Z.of_nat (length (toks x)) <= history_limit history_end)) (tails history_end).
Proof.
  split; [vm_compute; reflexivity|].
  refine (tail_slots_safe 2 1 2 3 0 example_store history_end _ _ _ _ _ (or_intror eq_refl) _);
    [split; [lia|unfold UINT32_MAX; lia]..|].
  assert (H1 : history example_store in_progress).
  { refine (history_op _ _ (Commit 0 (mk_id 0 4 1) 6 0 0) _ 0 (history_begin _ _ example_begun (history_start _) _) _ _).
    - reflexivity.
    - split; [split; simpl; lia|]. split; [done|]. intros _ _. split; [lia|done].
    - vm_compute. reflexivity. }
  assert (H2 : history example_store gone_on).
  { refine (history_op _ failed example_commit _ 3 (history_finish _ _ false true _ H1 _) _ _).
    - vm_compute. reflexivity.
    - exact example_commit_ok.
    - vm_compute. reflexivity. }
  destruct (prepare_seq_cp gone_on 1 0 0 0 0 (-1)) as [r|e] eqn:E; [|vm_compute in E; discriminate E].
  refine (history_commit_copy _ gone_on 1 0 0 0 0 (-1) r _ H2 _ _ _ _ E _).
  - split; [lia|done].
  - split; [lia|done].
  - done.
  - split; [lia|done].
  - unfold history_end, example_history. rewrite E. vm_compute in E. injection E as <-. vm_compute. reflexivity.
Defined.

End KvTailState.
