(* ===== verification/Recurrent.v ===== *)
(** The memory of recurrent models (src/src/llama-memory-recurrent.cpp): cells that hold
    the state of a whole sequence, shared by sequences that were copied, the operations on
    sequences, the placement of ubatches, and the metadata of saved states.

    A cell is at the same time the state of some sequences ([pos], [src], [src0],
    [seq_id]) and, as the cell number [s], the place where the tail of sequence [s] is
    recorded ([tail]).  The tensors are left out; what the graph does with their rows is in
    [RecurrentState]. *)

From S2P Require Import Prelude.
From S2P Require Import Memory.
From S2P Require Import Batch.

Module Recurrent.

(** A failed assertion, an index out of range, a division by zero or a signed
    overflow is [Undefined]; a state that is too short is a [ReadError]. *)
Inductive recurrent_error :=
| Undefined
| ReadError
| RestoreFailed
| SplitError (e : Batch.batch_error).

#[export] Instance recurrent_undef : Undef recurrent_error := Undefined.

Abbreviation R := (result recurrent_error).

Record mem_cell := mk_cell {
  pos : Z;
  src : Z;
  src0 : Z;
  tail : Z;
  seq_id : gset Z;
}.

Definition new_cell : mem_cell := mk_cell (-1) (-1) (-1) (-1) ∅.

Definition has_seq_id (c : mem_cell) (s : Z) : bool := bool_decide (s ∈ seq_id c).
Definition is_empty (c : mem_cell) : bool := bool_decide (seq_id c = ∅).

Definition with_pos (p : Z) (c : mem_cell) : mem_cell := mk_cell p (src c) (src0 c) (tail c) (seq_id c).
Definition with_state (p r : Z) (ids : gset Z) (c : mem_cell) : mem_cell := mk_cell p r (src0 c) (tail c) ids.
Definition with_src (r r0 : Z) (c : mem_cell) : mem_cell := mk_cell (pos c) r r0 (tail c) (seq_id c).
Definition with_tail (t : Z) (c : mem_cell) : mem_cell := mk_cell (pos c) (src c) (src0 c) t (seq_id c).
Definition with_ids (ids : gset Z) (c : mem_cell) : mem_cell := with_state (pos c) (src c) ids c.

Record memory := mk_memory {
  head : Z;
  used : Z;
  n_rs_seq : Z;
  rs_idx : list Z;
  n : Z;
  rs_z : Z;
  cells : list mem_cell;
}.

(** The cells are never resized. *)
Definition size (m : memory) : Z := Z.of_nat (length (cells m)).

Definition with_cells (m : memory) (l : list mem_cell) : memory :=
  mk_memory (head m) (used m) (n_rs_seq m) (rs_idx m) (n m) (rs_z m) l.
Definition with_head (m : memory) (h : Z) : memory :=
  mk_memory h (used m) (n_rs_seq m) (rs_idx m) (n m) (rs_z m) (cells m).
Definition with_used (m : memory) (u : Z) : memory :=
  mk_memory (head m) u (n_rs_seq m) (rs_idx m) (n m) (rs_z m) (cells m).
Definition with_rs_idx (m : memory) (l : list Z) : memory :=
  mk_memory (head m) (used m) (n_rs_seq m) l (n m) (rs_z m) (cells m).

Definition new_memory (mem_size n_seq_max rs_seq : Z) : memory :=
  mk_memory 0 0 rs_seq (replicate (Z.to_nat n_seq_max) 0) 0 (-1) (replicate (Z.to_nat mem_size) new_cell).

Definition INT32_MAX : Z := 2 ^ 31 - 1.

(** *** Cells by index *)

Definition cell_at (l : list mem_cell) (i : Z) : R mem_cell :=
  _ ← ensure (0 <=? i) Undefined; at_ l (Z.to_nat i).

Definition update (f : mem_cell -> mem_cell) (i : Z) (l : list mem_cell) : R (list mem_cell) :=
  c ← cell_at l i; Ok (<[Z.to_nat i := f c]> l).

Definition update_cell (f : mem_cell -> mem_cell) (i : Z) (m : memory) : R memory :=
  l ← update f i (cells m); Ok (with_cells m l).

(** [cell.pos = -1; cell.src = -1;] for a cell that has become empty. *)
Definition free_cell (c : mem_cell) : mem_cell := mk_cell (-1) (-1) (src0 c) (tail c) (seq_id c).

Definition decrement (m : memory) : memory := with_used m (u32 (used m - 1)).

(** ** Operations on sequences *)

Definition clear (m : memory) : memory :=
  mk_memory 0 0 (n_rs_seq m) ((fun _ => 0) <$> rs_idx m) (n m) (rs_z m)
    ((fun c => mk_cell (-1) (-1) (src0 c) (-1) ∅) <$> cells m).

Definition set_rs_idx (m : memory) (s idx : Z) : memory :=
  if (s <? 0) || (Z.of_nat (length (rs_idx m)) <=? s) then m
  else with_rs_idx m (<[Z.to_nat s := if n_rs_seq m <? idx then n_rs_seq m else idx]> (rs_idx m)).

(** Negative bounds stand for the whole line of positions. *)
Definition p0_of (p0 : Z) : Z := if p0 <? 0 then 0 else p0.
Definition p1_of (p1 : Z) : Z := if p1 <? 0 then INT32_MAX else p1.

Definition everything (p0 p1 : Z) : bool := (p0 =? 0) && (p1 =? INT32_MAX).

(** The range takes off the end of the sequence, and not all of it. *)
Definition cuts_suffix (p0 p1 : Z) (c : mem_cell) : bool := (0 <? p0) && (p0 <=? pos c) && (pos c <? p1).

Definition can_roll_back (m : memory) (p0 : Z) (c : mem_cell) : bool :=
  let rollback := pos c - (p0 - 1) in (1 <=? rollback) && (rollback <=? i32 (n_rs_seq m)).

Definition can_seq_rm (m : memory) (s p0 p1 : Z) : R bool :=
  let p0 := p0_of p0 in let p1 := p1_of p1 in
  if size m <=? s then Ok false else
  if s <? 0 then Ok ((p0 =? p1) || everything p0 p1) else
  c ← cell_at (cells m) s;
  if tail c <? 0 then Ok true else
  t ← cell_at (cells m) (tail c);
  Ok (if cuts_suffix p0 p1 t then can_roll_back m p0 t else true).

(** The loop over the cells: the number of cells in use, the first cell freed, if any, and
    the cells. *)
Record cell_sweep := mk_sweep { sw_used : Z; sw_new_head : option Z; sw_cells : list mem_cell }.

Definition sweep_cells (f : Z -> mem_cell -> mem_cell * bool * bool) (l : list mem_cell) (u : Z) : cell_sweep :=
  foldl (fun st (x : nat * mem_cell) =>
    let r := f (Z.of_nat x.1) x.2 in
    mk_sweep (if r.1.2 then u32 (sw_used st - 1) else sw_used st)
      (match sw_new_head st with None => if r.2 then Some (Z.of_nat x.1) else None | Some h => Some h end)
      (sw_cells st ++ [r.1.1]))
    (mk_sweep u None []) (imap pair l).

(** [if (new_head != size && new_head < head) head = new_head;] *)
Definition finish_sweep (m : memory) (st : cell_sweep) : memory :=
  let h := match sw_new_head st with Some h => if h <? head m then h else head m | None => head m end in
  with_cells (with_used (with_head m h) (sw_used st)) (sw_cells st).

(** One cell of the loop of [seq_rm]: the cell, whether the count goes down, and
    whether the cell was freed. *)
Definition rm_step (s p0 p1 : Z) (c : mem_cell) : mem_cell * bool * bool :=
  if (p0 <=? pos c) && (pos c <? p1) && ((s <? 0) || has_seq_id c s) then
    let c := with_ids (if s <? 0 then ∅ else seq_id c ∖ {[ s ]}) c in
    if is_empty c then (free_cell c, 0 <=? pos c, true) else (c, false, false)
  else (c, false, false).

Definition rm_loop (m : memory) (s p0 p1 : Z) : memory :=
  finish_sweep m (sweep_cells (fun _ => rm_step s p0 p1) (cells m) (used m)).

Definition seq_rm (m : memory) (s p0 p1 : Z) : R (memory * bool) :=
  b ← can_seq_rm m s p0 p1;
  if negb b then Ok (m, false) else
  let p0 := p0_of p0 in let p1 := p1_of p1 in
  let m := if everything p0 p1 then
             if 0 <=? s then set_rs_idx m s 0 else with_rs_idx m ((fun _ => 0) <$> rs_idx m)
           else m in
  if size m <=? s then Ok (m, false) else
  if 0 <=? s then
    c ← cell_at (cells m) s;
    if 0 <=? tail c then
      t ← cell_at (cells m) (tail c);
      if cuts_suffix p0 p1 t then
        if can_roll_back m p0 t then
          m ← update_cell (with_pos (p0 - 1)) (tail c) (set_rs_idx m s (u32 (pos t - (p0 - 1))));
          Ok (m, true)
        else Ok (m, false)
      else
        m ← (if (p0 <=? pos t) && (pos t <? p1) then update_cell (with_tail (-1)) s m else Ok m);
        Ok (rm_loop m s p0 p1, true)
    else Ok (rm_loop m s p0 p1, true)
  else if negb (p0 =? p1) && negb (everything p0 p1) then Ok (m, false)
  else Ok (rm_loop m s p0 p1, true).

Definition seq_rm_cell (m : memory) (s i : Z) : R (memory * bool) :=
  if (s <? 0) || (size m <=? i) then Ok (m, false) else
  c ← cell_at (cells m) i;
  if negb (has_seq_id c s) then Ok (m, false) else
  m ← update_cell (fun c => with_ids (seq_id c ∖ {[ s ]}) c) i m;
  c ← cell_at (cells m) i;
  m ← (if is_empty c then
         m ← update_cell free_cell i (if 0 <=? pos c then decrement m else m);
         Ok (if i <? head m then with_head m i else m)
       else Ok m);
  if s <? size m then
    c ← cell_at (cells m) s;
    if tail c =? i32 i then m ← update_cell (with_tail (-1)) s m; Ok (m, true) else Ok (m, true)
  else Ok (m, true).

(** The cells of a sequence at a position, in order; the caller's array takes the first
    [n_max] of them and the result is their number. *)
Definition cells_at_pos (m : memory) (s p : Z) : list Z :=
  fst <$> filter (fun x : Z * mem_cell => pos x.2 = p /\ s ∈ seq_id x.2) (imap (fun i c => (Z.of_nat i, c)) (cells m)).

(** Take a sequence off the cell of its tail. *)
Definition drop_tail (s : Z) (m : memory) : R memory :=
  d ← cell_at (cells m) s;
  if tail d <? 0 then Ok m else
  m ← update_cell (fun c => with_ids (seq_id c ∖ {[ s ]}) c) (tail d) m;
  m ← update_cell (with_tail (-1)) s m;
  c ← cell_at (cells m) (tail d);
  if is_empty c then m ← update_cell free_cell (tail d) m; Ok (decrement m) else Ok m.

Definition seq_cp (m : memory) (s_src s_dst p0 p1 : Z) : R memory :=
  if s_src =? s_dst then Ok m else
  if (u32 s_dst <? size m) && (u32 s_src <? size m) then
    m ← drop_tail s_dst m;
    c ← cell_at (cells m) s_src;
    if tail c <? 0 then Ok m else
    m ← update_cell (fun c => with_ids (seq_id c ∪ {[ s_dst ]}) c) (tail c) m;
    update_cell (with_tail (tail c)) s_dst m
  else Ok m.

Definition keep_step (s i : Z) (c : mem_cell) : mem_cell * bool * bool :=
  let c := if negb (i =? s) then with_tail (-1) c else c in
  if has_seq_id c s then (with_ids {[ s ]} c, false, false)
  else (mk_cell (-1) (-1) (src0 c) (tail c) ∅, 0 <=? pos c, true).

Definition seq_keep (m : memory) (s : Z) : memory :=
  finish_sweep m (sweep_cells (keep_step s) (cells m) (used m)).

(** Move the position of a sequence if it is in the range. *)
Definition move_pos (m : memory) (s p0 p1 : Z) (f : Z -> R Z) : R memory :=
  let p0 := p0_of p0 in let p1 := p1_of p1 in
  if p0 =? p1 then Ok m else
  if (0 <=? s) && (s <? size m) then
    c ← cell_at (cells m) s;
    if tail c <? 0 then Ok m else
    t ← cell_at (cells m) (tail c);
    if has_seq_id t s && (p0 <=? pos t) && (pos t <? p1) then
      p ← f (pos t); update_cell (with_pos p) (tail c) m
    else Ok m
  else Ok m.

Definition seq_add (m : memory) (s p0 p1 shift : Z) : R memory :=
  if shift =? 0 then Ok m else move_pos m s p0 p1 (fun p => int_ (p + shift)).

Definition seq_div (m : memory) (s p0 p1 d : Z) : R memory :=
  if d =? 1 then Ok m else
  move_pos m s p0 p1 (fun p => _ ← ensure (negb (d =? 0)) Undefined; int_ (Z.quot p d)).

Definition seq_pos_min (m : memory) (s : Z) : Z :=
  let r := foldl (fun r c => if has_seq_id c s then Z.min r (pos c) else r) INT32_MAX (cells m) in
  if r =? INT32_MAX then -1 else r.

Definition seq_pos_max (m : memory) (s : Z) : Z :=
  foldl (fun r c => if has_seq_id c s then Z.max r (pos c) else r) (-1) (cells m).

#[export] Instance recurrent_memory_ops : MemoryOps memory := {|
  mem_seq_pos_min := fun m s => Some (seq_pos_min m s);
  mem_seq_pos_max := fun m s => Some (seq_pos_max m s);
|}.

(** ** Placing a ubatch *)

Section Float.
Context {float : Type}.
Abbreviation llama_ubatch := (Batch.llama_ubatch float).

(** [seq_id[i][j]] for [j < n_seq_id[i]]. *)
Definition token_ids (ub : llama_ubatch) (i : nat) : R (list Z) :=
  k ← at_ (Batch.u_n_seq_id ub) i;
  off ← at_ (Batch.u_seq_id_off ub) i;
  mapM (fun j => at_ (Batch.u_seq_id_data ub) (off + j)%nat) (List.seq 0 (Z.to_nat k)).

(** The sequences of the sets of a ubatch, read at their first tokens. *)
Definition set_ids (ub : llama_ubatch) (s : nat) : R (list Z) := token_ids ub (s * Batch.u_n_seq_tokens ub).

Definition first_id (ub : llama_ubatch) (s : nat) : R Z :=
  ids ← set_ids ub s; at_ ids 0%nat.

Definition last_pos (ub : llama_ubatch) (s : nat) : R Z :=
  _ ← ensure (0 <? s * Batch.u_n_seq_tokens ub + Batch.u_n_seq_tokens ub)%nat Undefined;
  at_ (Batch.u_pos ub) (s * Batch.u_n_seq_tokens ub + Batch.u_n_seq_tokens ub - 1)%nat.

(** Every sequence must have a cell number; those that become shared lose the cell they
    had. [false] is the early return. *)
Fixpoint clear_shared (m : memory) (j : nat) (ids : list Z) : R (memory * bool) :=
  match ids with
  | [] => Ok (m, true)
  | s :: ids =>
      if (s <? 0) || (size m <=? s) then Ok (m, false) else
      m ← (if (0 <? j)%nat then drop_tail s m else Ok m);
      clear_shared m (S j) ids
  end.

Fixpoint clear_sets (m : memory) (ub : llama_ubatch) (sets : list nat) : R (memory * bool) :=
  match sets with
  | [] => Ok (m, true)
  | s :: sets =>
      ids ← set_ids ub s;
      r ← clear_shared m 0 ids;
      if r.2 : bool then clear_sets r.1 ub sets else Ok r
  end.

(** The search for an empty cell, which looks at each cell once at most. *)
Fixpoint next_empty (fuel : nat) (l : list mem_cell) (i : Z) : R Z :=
  match fuel with
  | O => Ok i
  | S fuel =>
      let i := if Z.of_nat (length l) <=? i then i - Z.of_nat (length l) else i in
      c ← cell_at l i;
      if is_empty c then Ok i else next_empty fuel l (i + 1)
  end.

(** The same from the cell after [i], ending at the last one it looked at. *)
Fixpoint next_empty_after (fuel : nat) (l : list mem_cell) (i : Z) : R Z :=
  match fuel with
  | O => Ok i
  | S fuel =>
      let i := if Z.of_nat (length l) <=? i + 1 then i + 1 - Z.of_nat (length l) else i + 1 in
      c ← cell_at l i;
      if is_empty c then Ok i else next_empty_after fuel l i
  end.

(** Give a set of the ubatch a cell of its own: the cells, the next empty cell, and the
    range of cells used so far. *)
Record placing := mk_placing { pl_cells : list mem_cell; pl_next : Z; pl_min : Z; pl_max : Z }.

Definition own_cell (l : list mem_cell) (s : Z) (c : mem_cell) : R bool :=
  if tail c <? 0 then Ok false else
  t ← cell_at l (tail c);
  _ ← ensure (has_seq_id t s) Undefined;
  Ok (base.size (seq_id t) =? 1)%nat.

(** Move sequence [s] from the cell of its tail [t], if it has one, to the empty cell. *)
Definition split_off (s t next : Z) (l : list mem_cell) : R (list mem_cell) :=
  if t <? 0 then Ok l else
  o ← cell_at l t;
  l ← update (fun e => with_state (pos o) (src o) (seq_id e) e) next l;
  l ← update (fun o => with_ids (seq_id o ∖ {[ s ]}) o) t l;
  l ← update (fun e => with_ids (seq_id e ∪ {[ s ]}) e) next l;
  o ← cell_at l t;
  _ ← ensure (negb (is_empty o)) Undefined;
  Ok l.

Definition place_set (ub : llama_ubatch) (p : placing) (s : nat) : R placing :=
  q ← first_id ub s;
  c ← cell_at (pl_cells p) q;
  own ← own_cell (pl_cells p) q c;
  p ← (if own : bool then Ok p else
         e ← cell_at (pl_cells p) (pl_next p);
         _ ← ensure (is_empty e) Undefined;
         l ← split_off q (tail c) (pl_next p) (pl_cells p);
         l ← update (with_tail (i32 (pl_next p))) q l;
         next ← (if (s + 1 <? Batch.u_n_seqs ub)%nat then next_empty_after (length l) l (pl_next p) else Ok (pl_next p));
         Ok (mk_placing l next (pl_min p) (pl_max p)));
  c ← cell_at (pl_cells p) q;
  Ok (mk_placing (pl_cells p) (pl_next p) (if tail c <? pl_min p then tail c else pl_min p)
        (if pl_max p <? tail c then tail c else pl_max p)).

(** Exchange the states of two cells, and the tails that point to them. *)
Definition swap_tail (a b : Z) (c : mem_cell) : mem_cell :=
  if tail c =? b then with_tail a c else if tail c =? a then with_tail b c else c.

Definition swap_cells (a b : Z) (l : list mem_cell) : R (list mem_cell) :=
  x ← cell_at l a;
  y ← cell_at l b;
  l ← update (with_state (pos y) (src y) (seq_id y)) a l;
  l ← update (with_state (pos x) (src x) (seq_id x)) b l;
  Ok (swap_tail a b <$> (l : list mem_cell)).

(** Gather the cells of the sets: that of set [s] goes to [min + s]. *)
Definition gather_set (ub : llama_ubatch) (min : Z) (l : list mem_cell) (s : nat) : R (list mem_cell) :=
  q ← first_id ub s;
  c ← cell_at l q;
  let dst := Z.of_nat s + min in
  if dst =? tail c then Ok l else swap_cells dst (tail c) l.

(** The set's cell gets its last position and its sequences. The code first compares that
    position with [cell.pos + n_seq_tokens] to log a warning; the test is left out, with the
    overflow of this sum, in [llama_pos], for positions near the end of their type. *)
Definition settle_set (ub : llama_ubatch) (min : Z) (l : list mem_cell) (s : nat) : R (list mem_cell) :=
  p ← last_pos ub s;
  ids ← set_ids ub s;
  let i := Z.of_nat s + min in
  l ← update (fun c => with_state p (src c) ∅ c) i l;
  foldM (fun l q => l ← update (fun c => with_ids (seq_id c ∪ {[ q ]}) c) i l; update (with_tail i) q l) l ids.

Definition count_refs (l : list mem_cell) : R (list Z) :=
  foldM (fun refs c =>
    if 0 <=? src c then r ← at_ refs (Z.to_nat (src c)); Ok (<[Z.to_nat (src c) := r + 1]> refs) else Ok refs)
    ((fun _ => 0) <$> l) l.

(** The first cell of a range without references, or -1. *)
Fixpoint zero_cell (refs : list Z) (range : list Z) : R Z :=
  match range with
  | [] => Ok (-1)
  | i :: range => _ ← ensure (0 <=? i) Undefined; r ← at_ refs (Z.to_nat i);
                  if r =? 0 then Ok i else zero_cell refs range
  end.

Definition stage_cell (z : Z) (l : list mem_cell) (i : Z) : R (list mem_cell) :=
  c ← cell_at l i;
  _ ← ensure ((0 <=? src c) || (0 <=? z)) Undefined;
  update (fun c => with_src i (if src c <? 0 then z else src c) c) i l.

Definition find_slot (m : memory) (ub : llama_ubatch) : R (memory * bool) :=
  let n_seqs := Batch.u_n_seqs ub in
  let sets := List.seq 0 n_seqs in
  let m := if u32 (used m + u32 (2 * Z.of_nat n_seqs)) <? head m then with_head m 0 else m in
  _ ← ensure (Batch.u_equal_seqs ub) Undefined;
  r ← clear_sets m ub sets;
  if negb r.2 then Ok r else
  let m := r.1 in
  next ← next_empty (length (cells m)) (cells m) (head m);
  p ← foldM (place_set ub) (mk_placing (cells m) next (i32 (u32 (size m - 1))) 0) sets;
  let min := pl_min p in let max := pl_max p in
  l ← foldM (gather_set ub min) (pl_cells p) sets;
  l ← foldM (settle_set ub min) l sets;
  refs ← count_refs l;
  let range := seqZ min (max - min + 1) in
  z ← zero_cell refs range;
  l ← foldM (stage_cell z) l range;
  let n := u32 (max - min + 1) in
  Ok (mk_memory (u32 min) (Z.of_nat (length (filter (fun c => seq_id c <> ∅) l))) (n_rs_seq m) (rs_idx m) n z l,
      Z.of_nat n_seqs <=? n).

(** ** Preparing a batch *)

Fixpoint find_slots (m : memory) (ubs : list llama_ubatch) : R (memory * bool) :=
  match ubs with
  | [] => Ok (m, true)
  | ub :: ubs => r ← find_slot m ub; if r.2 : bool then find_slots r.1 ubs else Ok r
  end.

(** The dry run; the cells, their number in use and the head are put back. *)
Definition prepare (m : memory) (ubs : list llama_ubatch) : R (memory * bool) :=
  r ← find_slots m ubs;
  Ok (with_head (with_used (with_cells r.1 (cells m)) (used m)) (head m), r.2).

Definition lift {A} (r : Batch.R A) : R A :=
  match r with Ok a => Ok a | Error e => Error (SplitError e) end.

Definition split_of (m : memory) (n_ubatch : Z) (embd_all : bool) : Batch.split_mode :=
  if embd_all then Batch.Seq n_ubatch
  else Batch.Equal n_ubatch true (if 0 <? n_rs_seq m then Z.to_nat (u32 (n_rs_seq m + 1)) else 0%nat).

(** [None] is the status FAILED_PREPARE. *)
Definition init_batch (m : memory) (a : Batch.llama_batch_allocr float) (n_ubatch : Z) (embd_all : bool)
    : R (memory * Batch.llama_batch_allocr float * option (list llama_ubatch)) :=
  r ← lift (Batch.split_batch (split_of m n_ubatch embd_all) a);
  match r.2 with
  | None => Ok (m, r.1, None)
  | Some ubs => p ← prepare m ubs; Ok (p.1, r.1, if p.2 : bool then Some ubs else None)
  end.

(** *** The context that goes through the ubatches of a batch *)

Record context := mk_context { i_next : nat; ubatches : list llama_ubatch; is_full : bool }.

Definition next (x : context) : context * bool :=
  (mk_context (S (i_next x)) (ubatches x) (is_full x), (S (i_next x) <? length (ubatches x))%nat).

(** [apply] does not look at the result of [find_slot]. *)
Definition apply (m : memory) (x : context) : R memory :=
  match ubatches x with
  | [] => Ok m
  | _ => ub ← at_ (ubatches x) (i_next x); r ← find_slot m ub; Ok r.1
  end.

Definition get_n_rs (m : memory) (x : context) : Z := if is_full x then size m else n m.
Definition get_head (m : memory) (x : context) : Z := if is_full x then 0 else head m.
Definition get_rs_z (m : memory) (x : context) : Z := if is_full x then 0 else rs_z m.

End Float.

(** The row that cell [head + i] is copied from, in the plane of the rollback that
    is due; the rollback is then done. *)
Definition s_copy (m : memory) (i : Z) : R (memory * Z) :=
  c ← cell_at (cells m) (u32 (i + head m));
  if n_rs_seq m =? 0 then Ok (m, src0 c) else
  match list_min (elements (seq_id c)) with
  | None => Ok (m, src0 c)
  | Some s =>
      if (0 <=? s) && (s <? Z.of_nat (length (rs_idx m))) then
        k ← at_ (rs_idx m) (Z.to_nat s);
        Ok (with_rs_idx m (<[Z.to_nat s := 0]> (rs_idx m)), i32 (u32 (k * size m)) + src0 c)
      else Ok (m, src0 c)
  end.

(** ** Saved states *)

(** What is written for a cell: its position, and its sequences when all are saved. *)
Record saved_cell := mk_saved { sc_pos : Z; sc_ids : list Z }.

Definition is_written (s : Z) (c : mem_cell) : bool := ((s =? -1) && negb (is_empty c)) || has_seq_id c s.

(** The plane the state of a cell is in. *)
Definition plane_of (m : memory) (s : Z) (c : mem_cell) : R Z :=
  if n_rs_seq m =? 0 then Ok 0 else
  if negb (s =? -1) then _ ← ensure (0 <=? s) Undefined; at_ (rs_idx m) (Z.to_nat s)
  else
    ks ← mapM (fun q => _ ← ensure (0 <=? q) Undefined; at_ (rs_idx m) (Z.to_nat q)) (elements (seq_id c));
    match ks with
    | [] => Ok 0
    | k :: ks => _ ← ensure (forallb (Z.eqb k) ks) Undefined; Ok k
    end.

Definition source_row (m : memory) (s i : Z) (c : mem_cell) : R Z :=
  k ← plane_of m s c;
  Ok (u32 (u32 (k * size m) + (if 0 <=? src c then src c else i))).

(** Add a row to ranges that exclude their ends. *)
Definition add_row (ranges : list (Z * Z)) (row : Z) : list (Z * Z) :=
  match last ranges with
  | Some r => if r.2 =? row then removelast ranges ++ [(r.1, u32 (r.2 + 1))] else ranges ++ [(row, u32 (row + 1))]
  | None => [(row, u32 (row + 1))]
  end.

(** The ranges of cells, the begin of the one that is open, and the ranges of rows. *)
Record writing := mk_writing { wr_count : Z; wr_begin : option Z; wr_cells : list (Z * Z); wr_rows : list (Z * Z) }.

Definition write_cell (m : memory) (s : Z) (w : writing) (x : nat * mem_cell) : R writing :=
  let i := Z.of_nat x.1 in
  if is_written s x.2 then
    row ← source_row m s i x.2;
    Ok (mk_writing (wr_count w + 1) (match wr_begin w with None => Some i | b => b end) (wr_cells w)
          (add_row (wr_rows w) row))
  else Ok (match wr_begin w with
           | Some b => mk_writing (wr_count w) None (wr_cells w ++ [(b, i)]) (wr_rows w)
           | None => w
           end).

Definition range_size (r : Z * Z) : Z := r.2 - r.1.

Definition write_meta (m : memory) (s : Z) (ranges : list (Z * Z)) : R (list saved_cell) :=
  mapM (fun i => c ← cell_at (cells m) i;
                 Ok (mk_saved (pos c) (if s =? -1 then elements (seq_id c) else [])))
    (ranges ≫= fun r => seqZ r.1 (range_size r)).

(** The number of cells, what is written for each, and the rows of their states; a state that
    is kept in device memory has one range of cells at most. *)
Definition state_write (m : memory) (s : Z) (on_device : bool) : R (Z * list saved_cell * list (Z * Z)) :=
  w ← foldM (write_cell m s) (mk_writing 0 None [] []) (imap pair (cells m));
  let ranges := match wr_begin w with Some b => wr_cells w ++ [(b, size m)] | None => wr_cells w end in
  _ ← ensure (negb (on_device && (1 <? length ranges)%nat)) Undefined;
  _ ← ensure (wr_count w =? foldr Z.add 0 (range_size <$> ranges)) Undefined;
  _ ← ensure (wr_count w =? foldr Z.add 0 (range_size <$> wr_rows w)) Undefined;
  meta ← write_meta m s ranges;
  Ok (wr_count w, meta, wr_rows w).

Section Read.
Context {float : Type}.

(** [io.read] of one cell. *)
Definition read_cell (meta : list saved_cell) (i : nat) : R saved_cell :=
  match meta !! i with Some x => Ok x | None => Error ReadError end.

(** The ubatch for the cells of one sequence: the reserved one, with positions, and
    the sequence for its first token. *)
Definition restored_ubatch (n_pos : nat) (ps : list Z) (s : Z) : Batch.llama_ubatch float :=
  let k := length ps in
  Batch.mk_ubatch true k k 1 1 n_pos (Some (replicate k 0)) None
    (ps ++ replicate (k * n_pos - k) 0) (1 :: replicate (k - 1) 0) (replicate k 0%nat) [0]
    [] (replicate k 0) [s].

(** The positions of cells without sequences; [None] at the first cell with some. *)
Fixpoint read_positions (meta : list saved_cell) (todo : list nat) : R (option (list Z)) :=
  match todo with
  | [] => Ok (Some [])
  | i :: todo =>
      x ← read_cell meta i;
      if negb (length (sc_ids x) =? 0)%nat then Ok None else
      ps ← read_positions meta todo; Ok (option_map (cons (sc_pos x)) ps)
  end.

Definition read_sequence (n_pos : nat) (m : memory) (count : nat) (meta : list saved_cell) (s : Z) : R (memory * bool) :=
  r ← seq_rm m s (-1) (-1);
  let m := r.1 in
  if (count =? 0)%nat then Ok (m, true) else
  ps ← read_positions meta (List.seq 0 count);
  match ps with
  | None => Ok (m, false)
  | Some ps =>
  r ← find_slot m (restored_ubatch n_pos ps s);
  if negb r.2 then Ok r else
  let m := r.1 in
  _ ← ensure (head m + Z.of_nat count <=? size m) Undefined;
  a ← cell_at (cells m) (head m);
  z ← cell_at (cells m) (head m + Z.of_nat count - 1);
  p ← at_ ps 0%nat;
  q ← at_ ps (count - 1)%nat;
  _ ← ensure ((pos a =? p) && (pos z =? q) && has_seq_id a s && has_seq_id z s) Undefined;
  Ok (m, true)
  end.

(** The sequences of cell [i]; [false] for one out of range or with a tail already. *)
Fixpoint read_ids (m : memory) (i : Z) (ids : list Z) : R (memory * bool) :=
  match ids with
  | [] => Ok (m, true)
  | s :: ids =>
      if (s <? 0) || (Z.of_nat (length (rs_idx m)) <=? u32 s) then Ok (m, false) else
      m ← update_cell (fun c => with_ids (seq_id c ∪ {[ s ]}) c) i m;
      c ← cell_at (cells m) s;
      if negb (tail c =? -1) then Ok (m, false) else
      m ← update_cell (with_tail i) s m;
      read_ids m i ids
  end.

Fixpoint read_cells (m : memory) (meta : list saved_cell) (todo : list nat) : R (memory * bool) :=
  match todo with
  | [] => Ok (m, true)
  | i :: todo =>
      x ← read_cell meta i;
      m ← update_cell (with_pos (sc_pos x)) (Z.of_nat i) m;
      r ← read_ids m (Z.of_nat i) (sc_ids x);
      if r.2 : bool then read_cells r.1 meta todo else Ok r
  end.

Definition read_all (m : memory) (count : nat) (meta : list saved_cell) : R (memory * bool) :=
  if size m <? Z.of_nat count then Ok (m, false) else
  r ← read_cells (clear m) meta (List.seq 0 count);
  if negb r.2 then Ok r else Ok (with_used (with_head r.1 0) (Z.of_nat count), true).

Definition state_read_meta (n_pos : nat) (m : memory) (count : nat) (meta : list saved_cell) (s : Z) : R (memory * bool) :=
  r ← (if negb (s =? -1) then read_sequence n_pos m count meta s else read_all m count meta);
  if negb r.2 || (negb (s =? -1) && (count =? 0)%nat) then Ok r else
  l ← foldM (fun l i => update (fun c => with_src i (src0 c) c) i l) (cells r.1) (seqZ (head r.1) (Z.of_nat count));
  Ok (with_cells r.1 l, true).

(** The memory once the state is committed. A state is refused by its metadata or, as
    [data_ok] says, by its rows: the code then puts back the head, the number of cells
    in use, the zero row, the cells and the snapshot indices, but not [n], which
    reading one sequence may have set by then, and throws; here only the exception is
    left. *)
Definition state_read (n_pos : nat) (m : memory) (count : nat) (meta : list saved_cell) (data_ok : bool) (s : Z) : R memory :=
  r ← state_read_meta n_pos m count meta s;
  _ ← ensure (r.2 && data_ok) RestoreFailed;
  let m := r.1 in
  Ok (if n_rs_seq m =? 0 then m else if s =? -1 then with_rs_idx m ((fun _ => 0) <$> rs_idx m) else set_rs_idx m s 0).

End Read.

End Recurrent.
