(* ===== verification/RecurrentWf.v ===== *)
(** What holds of the memory of a recurrent model: a cell lists exactly the sequences
    whose tail it is, a cell without sequences is free, and a state is in the row of its
    cell.  [view] is what a sequence has: a position and the sequences that share its
    state; [forgets] is what operations that remove sequences do to the cells. *)

From S2P Require Import Prelude.
From S2P Require Import Memory.
From S2P Require Import Recurrent.

Module RecurrentWf.
Import Recurrent.

(** ** Cells as a function of the index *)

Definition cell (l : list mem_cell) (i : Z) : mem_cell :=
  if 0 <=? i then default new_cell (l !! Z.to_nat i) else new_cell.

Definition inside (l : list mem_cell) (i : Z) : Prop := 0 <= i < Z.of_nat (length l).

Lemma cell_outside l i : ~ inside l i -> cell l i = new_cell.
Proof.
  intros H. unfold cell, inside in *. destruct (Z.leb_spec 0 i); [|done].
  by rewrite lookup_ge_None_2 by lia.
Qed.

Lemma cell_lookup l (i : nat) c : l !! i = Some c -> cell l (Z.of_nat i) = c.
Proof. intros H. unfold cell. rewrite (proj2 (Z.leb_le _ _)) by lia. by rewrite Nat2Z.id, H. Qed.

Lemma lookup_cell l i : inside l i -> l !! Z.to_nat i = Some (cell l i).
Proof.
  intros [H1 H2]. unfold cell. rewrite (proj2 (Z.leb_le _ _)) by lia.
  destruct (lookup_lt_is_Some_2 l (Z.to_nat i)) as [c Hc]; [lia|]. by rewrite Hc.
Qed.

Lemma cell_at_ok l i : inside l i -> cell_at l i = Ok (cell l i).
Proof.
  intros H. unfold cell_at. rewrite (proj2 (Z.leb_le _ _)) by (unfold inside in H; lia). bind_simpl.
  by apply at_lookup, lookup_cell.
Qed.

Lemma elem_of_cells l c : c ∈ l <-> exists i, inside l i /\ cell l i = c.
Proof.
  rewrite list_elem_of_lookup. split.
  - intros [i Hi]. exists (Z.of_nat i). split; [apply lookup_lt_Some in Hi; split; lia|by apply cell_lookup].
  - intros (i & Hi & <-). exists (Z.to_nat i). by apply lookup_cell.
Qed.

(** Two lists with the same cells. *)
Lemma cells_eq l k : length l = length k -> (forall i, inside l i -> cell l i = cell k i) -> l = k.
Proof.
  intros Hl H. apply list_eq_same_length with (length l); [done|done|]. intros i x y Hi Hx Hy.
  apply cell_lookup in Hx, Hy. rewrite <- Hx, <- Hy. apply H. split; lia.
Qed.

Lemma cell_map f l i : cell (f <$> l) i = if decide (inside l i) then f (cell l i) else new_cell.
Proof.
  case_decide as Hi.
  - pose proof (lookup_cell l i Hi) as E. unfold cell at 1. rewrite (proj2 (Z.leb_le _ _)) by (unfold inside in Hi; lia).
    by rewrite list_lookup_fmap, E.
  - apply cell_outside. unfold inside in *. by rewrite length_fmap.
Qed.

(** [update] is an assignment. *)
Definition put_cell (l : list mem_cell) (i : Z) (c : mem_cell) : list mem_cell := <[Z.to_nat i := c]> l.

Lemma inside_set l i c j : inside (put_cell l i c) j <-> inside l j.
Proof. unfold inside, put_cell. by rewrite length_insert. Qed.

Lemma length_set l i c : length (put_cell l i c) = length l.
Proof. apply length_insert. Qed.

Lemma cell_set l i c j : inside l i -> cell (put_cell l i c) j = if decide (j = i) then c else cell l j.
Proof.
  intros Hi. unfold cell, put_cell. case_decide as H.
  - subst j. rewrite (proj2 (Z.leb_le _ _)) by (unfold inside in Hi; lia).
    by rewrite list_lookup_insert_eq by (unfold inside in Hi; lia).
  - destruct (Z.leb_spec 0 j); [|done]. rewrite list_lookup_insert_ne by (unfold inside in Hi; lia). done.
Qed.

Lemma update_ok f i l : inside l i -> update f i l = Ok (put_cell l i (f (cell l i))).
Proof. intros Hi. unfold update. rewrite (cell_at_ok l i Hi). done. Qed.

(** ** The invariant *)

(** A free cell that lay among those of a ubatch has a row too, of zeros. *)
Record cells_ok (l : list mem_cell) : Prop := mk_cells_ok {
  co_link : forall s i, 0 <= i -> (s ∈ seq_id (cell l i) <-> tail (cell l s) = i);
  co_tail : forall s, -1 <= tail (cell l s);
  co_free : forall i, seq_id (cell l i) = ∅ -> pos (cell l i) = -1 /\ (src (cell l i) = -1 \/ src (cell l i) = i);
  co_pos : forall i, seq_id (cell l i) <> ∅ -> 0 <= pos (cell l i) < INT32_MAX;
  co_src : forall i, seq_id (cell l i) <> ∅ -> src (cell l i) = i;
}.

Lemma ids_inside l i s : s ∈ seq_id (cell l i) -> inside l i.
Proof.
  intros H. destruct (decide (inside l i)) as [|Hi]; [done|]. rewrite cell_outside in H by done. set_solver.
Qed.

Lemma tail_inside l s : cells_ok l -> 0 <= tail (cell l s) -> inside l (tail (cell l s)) /\ s ∈ seq_id (cell l (tail (cell l s))).
Proof.
  intros H Ht. assert (Hs : s ∈ seq_id (cell l (tail (cell l s)))) by (by apply (co_link _ H)).
  split; [by eapply ids_inside|done].
Qed.

Lemma seq_inside l s i : cells_ok l -> 0 <= i -> s ∈ seq_id (cell l i) -> inside l s.
Proof.
  intros H Hi Hs. apply (co_link _ H) in Hs; [|done]. destruct (decide (inside l s)) as [|Hn]; [done|].
  rewrite cell_outside in Hs by done. simpl in Hs. lia.
Qed.

Lemma ids_tail l s i : cells_ok l -> s ∈ seq_id (cell l i) -> 0 <= i /\ tail (cell l s) = i.
Proof. intros H Hs. destruct (ids_inside l i s Hs) as [Hi _]. split; [done|]. by apply (co_link _ H). Qed.

Definition count_used (l : list mem_cell) : Z := Z.of_nat (length (filter (fun c => seq_id c <> ∅) l)).

Record wf (m : memory) : Prop := mk_wf {
  wf_cells : cells_ok (cells m);
  wf_used : used m = count_used (cells m);
  wf_head : 0 <= head m <= size m;
  wf_size : 0 < size m < 2 ^ 30;
  wf_rs : 0 <= n_rs_seq m <= INT32_MAX;
}.

(** *** What a sequence has *)

(** The position of its state and the sequences that share it. *)
Definition view (l : list mem_cell) (s : Z) : option (Z * gset Z) :=
  let t := tail (cell l s) in
  if t <? 0 then None else Some (pos (cell l t), seq_id (cell l t)).

Lemma view_none l s : cells_ok l -> view l s = None <-> tail (cell l s) = -1.
Proof. intros H. unfold view. pose proof (co_tail _ H s). destruct (Z.ltb_spec (tail (cell l s)) 0); split; intros; try done; lia. Qed.

Lemma view_some l s : cells_ok l -> 0 <= tail (cell l s) ->
  view l s = Some (pos (cell l (tail (cell l s))), seq_id (cell l (tail (cell l s)))).
Proof. intros H Ht. unfold view. by rewrite (proj2 (Z.ltb_ge _ _)) by lia. Qed.

Lemma view_at l s : cells_ok l -> 0 <= tail (cell l s) ->
  let c := cell l (tail (cell l s)) in view l s = Some (pos c, seq_id c) /\ 0 <= pos c < INT32_MAX.
Proof.
  intros H Ht c. split; [by apply view_some|]. apply (co_pos _ H). destruct (tail_inside l s H Ht). subst c. set_solver.
Qed.

Lemma new_memory_wf mem_size n_seq_max rs_seq :
  0 < mem_size < 2 ^ 30 -> 0 <= rs_seq <= INT32_MAX ->
  wf (new_memory mem_size n_seq_max rs_seq) /\ forall s, view (cells (new_memory mem_size n_seq_max rs_seq)) s = None.
Proof.
  intros H1 H2. assert (Hc : forall i, cell (cells (new_memory mem_size n_seq_max rs_seq)) i = new_cell).
  { intros i. unfold cell. simpl. destruct (0 <=? i); [|done].
    destruct (replicate (Z.to_nat mem_size) new_cell !! Z.to_nat i) eqn:E; [|done]. by apply lookup_replicate in E as [-> _]. }
  split; [|intros s; unfold view; by rewrite Hc].
  split; simpl; try done; [|unfold count_used; simpl|unfold size; simpl; rewrite length_replicate; lia|unfold size; simpl; rewrite length_replicate; lia].
  - split; intros; rewrite ?Hc in *; simpl in *; try done; [set_solver|by auto].
  - rewrite filter_none; [done|]. intros x [-> _]%elem_of_replicate. simpl. tauto.
Qed.

(** ** One cell at a time *)

Lemma update_cell_ok f i m : inside (cells m) i ->
  update_cell f i m = Ok (with_cells m (put_cell (cells m) i (f (cell (cells m) i)))).
Proof. intros Hi. unfold update_cell. rewrite update_ok by done. done. Qed.

(** Run the next read or write of a cell. *)
Ltac run_cell :=
  first [ rewrite cell_at_ok by (simpl; rewrite ?inside_set; assumption)
        | rewrite update_cell_ok by (simpl; rewrite ?inside_set; assumption)
        | rewrite update_ok by (simpl; rewrite ?inside_set; assumption) ]; bind_simpl;
  cbn [cells with_cells with_used with_head with_rs_idx decrement].

(** Compare a changed list of cells with the old one. *)
Ltac cell_cases :=
  repeat first [ rewrite cell_set by (rewrite ?inside_set; assumption) ];
  repeat (case_decide; subst; simpl in * ).

Lemma count_set l i c : inside l i ->
  count_used (put_cell l i c) + (if decide (seq_id (cell l i) = ∅) then 0 else 1) =
  count_used l + (if decide (seq_id c = ∅) then 0 else 1).
Proof.
  intros Hi. pose proof (take_drop_middle l _ _ (lookup_cell l i Hi)) as E. unfold count_used, put_cell.
  rewrite (insert_take_drop l) by (unfold inside in Hi; lia).
  replace (length (filter (fun c => seq_id c <> ∅) l)) with
    (length (filter (fun c => seq_id c <> ∅) (take (Z.to_nat i) l ++ cell l i :: drop (S (Z.to_nat i)) l))) by by rewrite E.
  rewrite !filter_app, !filter_cons, !length_app. repeat case_decide; simpl in *; try tauto; lia.
Qed.

Lemma count_range l : 0 <= count_used l <= Z.of_nat (length l).
Proof. unfold count_used. pose proof (length_filter (fun c => seq_id c <> ∅) l). lia. Qed.

Lemma count_pos l i : seq_id (cell l i) <> ∅ -> inside l i -> 0 < count_used l.
Proof.
  intros Hc Hi. pose proof (count_set l i new_cell Hi) as E. pose proof (count_range (put_cell l i new_cell)).
  simpl in E. repeat case_decide; try done; lia.
Qed.

Lemma count_ext l k :
  length k = length l -> (forall i, inside l i -> (seq_id (cell k i) = ∅ <-> seq_id (cell l i) = ∅)) ->
  count_used k = count_used l.
Proof.
  intros Hlen H. assert (HF : Forall2 (fun x y => seq_id x = ∅ <-> seq_id y = ∅) k l).
  { apply Forall2_same_length_lookup_2; [done|]. intros i x y Hx Hy. pose proof (lookup_lt_Some _ _ _ Hy).
    apply cell_lookup in Hx, Hy. rewrite <- Hx, <- Hy. apply H. split; lia. }
  unfold count_used. f_equal. clear H Hlen. induction HF as [|x y k l Hxy HF IH]; [done|].
  rewrite !filter_cons. repeat case_decide; simpl; tauto || lia.
Qed.

Lemma count_one l k t :
  length k = length l -> inside l t -> seq_id (cell l t) <> ∅ ->
  (forall i, i <> t -> (seq_id (cell k i) = ∅ <-> seq_id (cell l i) = ∅)) ->
  count_used k + (if decide (seq_id (cell k t) = ∅) then 1 else 0) = count_used l.
Proof.
  intros Hlen Ht Hn H. assert (E : count_used k = count_used (put_cell l t (cell k t))).
  { apply count_ext; [by rewrite length_set|]. intros i _. rewrite cell_set by done.
    case_decide; [by subst|by apply H]. }
  rewrite E. pose proof (count_set l t (cell k t) Ht) as C. repeat case_decide; try done; lia.
Qed.

(** ** Loops over all the cells *)

Definition swept (f : Z -> mem_cell -> mem_cell * bool * bool) (l : list mem_cell) : list mem_cell :=
  imap (fun i c => (f (Z.of_nat i) c).1.1) l.

Lemma length_swept f l : length (swept f l) = length l.
Proof. apply length_imap. Qed.

Lemma cell_swept f l i : cell (swept f l) i = if decide (inside l i) then (f i (cell l i)).1.1 else new_cell.
Proof.
  case_decide as Hi.
  - pose proof (lookup_cell l i Hi) as E. unfold cell at 1. rewrite (proj2 (Z.leb_le _ _)) by (unfold inside in Hi; lia).
    unfold swept. rewrite list_lookup_imap, E. simpl. unfold inside in Hi. by rewrite Z2Nat.id by lia.
  - apply cell_outside. unfold inside in *. by rewrite length_swept.
Qed.

(** A step frees cells only, and says so. *)
Definition frees (f : Z -> mem_cell -> mem_cell * bool * bool) (l : list mem_cell) : Prop :=
  forall i, inside l i -> let r := f i (cell l i) in
    (seq_id r.1.1 <> ∅ -> seq_id (cell l i) <> ∅) /\
    r.1.2 = bool_decide (seq_id (cell l i) <> ∅ /\ seq_id r.1.1 = ∅).

Lemma frees_snoc f l c : frees f (l ++ [c]) -> frees f l /\
  let r := f (Z.of_nat (length l)) c in
  (seq_id r.1.1 <> ∅ -> seq_id c <> ∅) /\ r.1.2 = bool_decide (seq_id c <> ∅ /\ seq_id r.1.1 = ∅).
Proof.
  intros H. split.
  - intros i Hi. assert (Hi' : inside (l ++ [c]) i) by (unfold inside in *; rewrite length_app; simpl; lia).
    specialize (H i Hi'). pose proof (lookup_cell l i Hi) as E. apply (lookup_app_l_Some _ [c]) in E.
    apply cell_lookup in E. unfold inside in Hi. rewrite Z2Nat.id in E by lia. by rewrite E in H.
  - specialize (H (Z.of_nat (length l))). rewrite (cell_lookup (l ++ [c]) (length l) c) in H by apply list_lookup_middle, eq_refl.
    apply H. unfold inside. rewrite length_app. simpl. lia.
Qed.

Lemma sweep_spec f l u :
  frees f l -> count_used l <= u < 2 ^ 32 ->
  sw_cells (sweep_cells f l u) = swept f l /\
  sw_used (sweep_cells f l u) = u - count_used l + count_used (swept f l) /\
  count_used (swept f l) <= count_used l /\
  forall h, sw_new_head (sweep_cells f l u) = Some h -> 0 <= h < Z.of_nat (length l).
Proof.
  induction l as [|c l IH] using rev_ind; intros Hf Hu; [split; [done|]; split; [unfold count_used; simpl; lia|done]|].
  destruct (frees_snoc f l c Hf) as [Hl Hc].
  assert (Hcount : forall k x, count_used (k ++ [x]) = count_used k + (if decide (seq_id x = ∅) then 0 else 1)).
  { intros k x. unfold count_used. rewrite filter_app, length_app, filter_cons. repeat case_decide; simpl; try tauto; lia. }
  destruct IH as (IH1 & IH2 & IH4 & IH3); [done|rewrite Hcount in Hu; case_decide; lia|].
  assert (E : sweep_cells f (l ++ [c]) u = let st := sweep_cells f l u in let r := f (Z.of_nat (length l)) c in
    mk_sweep (if r.1.2 then u32 (sw_used st - 1) else sw_used st)
      (match sw_new_head st with None => if r.2 then Some (Z.of_nat (length l)) else None | Some h => Some h end)
      (sw_cells st ++ [r.1.1])).
  { unfold sweep_cells. rewrite imap_app, foldl_app. simpl. by rewrite Nat.add_0_r. }
  rewrite E. cbv zeta in *. clear E. cbn [sw_used sw_new_head sw_cells].
  assert (Es : swept f (l ++ [c]) = swept f l ++ [(f (Z.of_nat (length l)) c).1.1]).
  { unfold swept. rewrite imap_app. simpl. by rewrite Nat.add_0_r. }
  rewrite Es, IH1, IH2, !Hcount in *. destruct Hc as [Hc1 Hc2]. rewrite Hc2.
  pose proof (count_range (swept f l)) as Hr. split; [done|]. split.
  - case_bool_decide as Hb; repeat case_decide; try tauto; try lia.
    rewrite u32_small by lia. lia.
  - split; [repeat case_decide; try tauto; lia|]. intros h. rewrite length_app. simpl. destruct (sw_new_head (sweep_cells f l u)) as [h'|].
    + intros [= <-]. specialize (IH3 _ eq_refl). lia.
    + destruct (f _ c).2; [|done]. intros [= <-]. lia.
Qed.

(** ** Forgetting sequences *)

Abbreviation view_t := (Z -> option (Z * gset Z)).

(** The sequences of [D] lose their tails and leave their cells; a cell without sequences
    becomes free. *)
Record forgets (D : gset Z) (l k : list mem_cell) : Prop := mk_forgets {
  fg_len : length k = length l;
  fg_tail : forall s, tail (cell k s) = if decide (s ∈ D) then -1 else tail (cell l s);
  fg_ids : forall i, seq_id (cell k i) = seq_id (cell l i) ∖ D;
  fg_pos : forall i, pos (cell k i) = if decide (seq_id (cell k i) = ∅) then -1 else pos (cell l i);
  fg_src : forall i, seq_id (cell k i) <> ∅ -> src (cell k i) = src (cell l i);
  fg_free : forall i, seq_id (cell k i) = ∅ ->
    src (cell k i) = -1 \/ seq_id (cell l i) = ∅ /\ src (cell k i) = src (cell l i);
}.

Definition forget (D : gset Z) (v : Z -> option (Z * gset Z)) (s : Z) : option (Z * gset Z) :=
  if decide (s ∈ D) then None else (fun x => (x.1, x.2 ∖ D)) <$> v s.

Lemma forgets_refl l : cells_ok l -> forgets ∅ l l.
Proof.
  intros H. split; intros; try done; [set_solver| |by auto].
  case_decide as E; [|done]. by apply (co_free _ H).
Qed.

Lemma forgets_trans D E l k j : forgets D l k -> forgets E k j -> forgets (D ∪ E) l j.
Proof.
  intros H1 H2. split; intros.
  - by rewrite (fg_len _ _ _ H2), (fg_len _ _ _ H1).
  - rewrite (fg_tail _ _ _ H2), (fg_tail _ _ _ H1). repeat case_decide; set_solver.
  - rewrite (fg_ids _ _ _ H2), (fg_ids _ _ _ H1). set_solver.
  - rewrite (fg_pos _ _ _ H2), (fg_pos _ _ _ H1). rewrite (fg_ids _ _ _ H2). repeat case_decide; try done. set_solver.
  - rewrite (fg_src _ _ _ H2) by done. apply (fg_src _ _ _ H1). rewrite (fg_ids _ _ _ H2) in H. set_solver.
  - destruct (fg_free _ _ _ H2 i H) as [Hs|[Hk Hs]]; [by left|]. rewrite Hs. by apply (fg_free _ _ _ H1).
Qed.

Lemma forgets_ok D l k : cells_ok l -> forgets D l k -> cells_ok k.
Proof.
  intros H F. split.
  - intros s i Hi. rewrite (fg_ids _ _ _ F), (fg_tail _ _ _ F), elem_of_difference, (co_link _ H) by done.
    case_decide; [|tauto]. split; [tauto|lia].
  - intros s. rewrite (fg_tail _ _ _ F). pose proof (co_tail _ H s). case_decide; lia.
  - intros i Hi. split; [rewrite (fg_pos _ _ _ F); by case_decide|].
    destruct (fg_free _ _ _ F i Hi) as [|[Hl ->]]; [by left|]. by apply (co_free _ H).
  - intros i Hi. rewrite (fg_pos _ _ _ F). case_decide; [done|]. apply (co_pos _ H).
    rewrite (fg_ids _ _ _ F) in Hi. set_solver.
  - intros i Hi. rewrite (fg_src _ _ _ F) by done. apply (co_src _ H). rewrite (fg_ids _ _ _ F) in Hi. set_solver.
Qed.

Lemma forgets_view D l k s : cells_ok l -> forgets D l k -> view k s = forget D (view l) s.
Proof.
  intros H F. unfold view, forget. rewrite (fg_tail _ _ _ F). case_decide as Hs; [done|].
  destruct (Z.ltb_spec (tail (cell l s)) 0) as [|Ht]; [done|]. simpl.
  destruct (tail_inside l s H) as [_ Hi]; [lia|].
  rewrite (fg_pos _ _ _ F), (fg_ids _ _ _ F). case_decide as E; [|done]. set_solver.
Qed.

(** A set of sequences without tails is forgotten already. *)
Lemma forgets_nothing D l : cells_ok l -> (forall s, s ∈ D -> tail (cell l s) = -1) -> forgets D l l.
Proof.
  intros H HD. split; intros; try done.
  - case_decide; [by apply HD|done].
  - destruct (decide (0 <= i)) as [Hi|Hi].
    + apply set_eq. intros s. rewrite elem_of_difference. split; [|tauto]. intros Hs. split; [done|].
      intros Hd%HD. apply (co_link _ H) in Hs; [lia|done].
    + rewrite cell_outside by (unfold inside; lia). set_solver.
  - case_decide as E; [|done]. by apply (co_free _ H).
  - by auto.
Qed.

Lemma forgets_one l s t k :
  cells_ok l -> tail (cell l s) = t -> 0 <= t -> length k = length l ->
  (forall i, tail (cell k i) = if decide (i = s) then -1 else tail (cell l i)) ->
  (forall i, i <> t -> with_tail 0 (cell k i) = with_tail 0 (cell l i)) ->
  seq_id (cell k t) = seq_id (cell l t) ∖ {[ s ]} ->
  (if decide (seq_id (cell k t) = ∅) then pos (cell k t) = -1 /\ src (cell k t) = -1
   else pos (cell k t) = pos (cell l t) /\ src (cell k t) = src (cell l t)) ->
  forgets {[ s ]} l k.
Proof.
  intros H Ht Ht0 Hlen Htail Hrest Hids Hstate.
  assert (Ho : forall i, i <> t -> pos (cell k i) = pos (cell l i) /\ src (cell k i) = src (cell l i) /\
    seq_id (cell k i) = seq_id (cell l i)) by (intros i Hi; specialize (Hrest i Hi); by injection Hrest).
  assert (Hi : forall i, seq_id (cell k i) = seq_id (cell l i) ∖ {[ s ]}).
  { intros i. destruct (decide (i = t)) as [->|Hi]; [done|]. destruct (Ho i Hi) as (_ & _ & ->).
    destruct (decide (0 <= i)) as [Hi0|Hi0]; [|rewrite cell_outside by (unfold inside; lia); set_solver].
    apply set_eq. intros q. rewrite elem_of_difference. split; [|tauto]. intros Hq. split; [done|].
    intros ->%elem_of_singleton. apply (co_link _ H) in Hq; [congruence|done]. }
  split; intros; try done.
  - rewrite Htail. repeat case_decide; set_solver.
  - destruct (decide (i = t)) as [->|Hn]; [case_decide; tauto|]. destruct (Ho i Hn) as (-> & _ & E).
    destruct (decide (seq_id (cell k i) = ∅)) as [E'|E']; [|done]. rewrite E in E'. by apply (co_free _ H).
  - destruct (decide (i = t)) as [->|Hn]; [case_decide; [done|tauto]|]. apply (Ho i Hn).
  - destruct (decide (i = t)) as [->|Hn]; [case_decide; [left; tauto|done]|]. right. destruct (Ho i Hn) as (_ & -> & E).
    by rewrite <- E.
Qed.

(** Operations keep the number of cells and what is fixed with it. *)
Definition same_dims (m m' : memory) : Prop :=
  length (cells m') = length (cells m) /\ n_rs_seq m' = n_rs_seq m /\ length (rs_idx m') = length (rs_idx m).

Lemma same_dims_refl m : same_dims m m.
Proof. by split_and!. Qed.

Lemma same_dims_trans m1 m2 m3 : same_dims m1 m2 -> same_dims m2 m3 -> same_dims m1 m3.
Proof. intros (A1 & A2 & A3) (B1 & B2 & B3). split_and!; congruence. Qed.

Lemma same_size m m' : same_dims m m' -> size m' = size m.
Proof. intros (E & _). unfold size. by rewrite E. Qed.

Lemma wf_intro m m' :
  wf m -> same_dims m m' -> cells_ok (cells m') -> used m' = count_used (cells m') -> 0 <= head m' <= size m -> wf m'.
Proof.
  intros W (H1 & H2 & _) Hc Hu Hh. assert (E : size m' = size m) by (unfold size; by rewrite H1). split; [done..| | |].
  - by rewrite E.
  - rewrite E. apply W.
  - rewrite H2. apply W.
Qed.

Lemma forgets_wf D m m' :
  wf m -> forgets D (cells m) (cells m') -> same_dims m m' -> used m' = count_used (cells m') -> 0 <= head m' <= size m -> wf m'.
Proof. intros W F. intros. apply (wf_intro m); [done..| |done|done]. by apply (forgets_ok D (cells m)), F; apply W. Qed.

Lemma wf_used_small m : wf m -> 0 <= used m < 2 ^ 32.
Proof. intros W. rewrite (wf_used _ W). pose proof (count_range (cells m)). pose proof (wf_size _ W). unfold size in *. lia. Qed.

Lemma drop_tail_ok s m :
  wf m -> inside (cells m) s ->
  exists m', drop_tail s m = Ok m' /\ wf m' /\ same_dims m m' /\ head m' = head m /\ rs_idx m' = rs_idx m /\
    forgets {[ s ]} (cells m) (cells m').
Proof.
  intros W Hs. pose proof (wf_cells _ W) as H. unfold drop_tail. run_cell.
  pose proof (co_tail _ H s) as Ht. destruct (Z.ltb_spec (tail (cell (cells m) s)) 0) as [Hn|Ht0].
  { exists m. split_and!; try done. apply forgets_nothing; [done|]. intros q ->%elem_of_singleton. lia. }
  destruct (tail_inside _ _ H Ht0) as [Hti Hsi]. remember (tail (cell (cells m) s)) as t eqn:Et.
  do 3 run_cell. set (l2 := put_cell (put_cell (cells m) t _) s _).
  assert (Hl2 : length l2 = length (cells m)) by (subst l2; by rewrite !length_set).
  assert (E2 : forall i, cell l2 i = with_tail (if decide (i = s) then -1 else tail (cell (cells m) i))
      (with_ids (if decide (i = t) then seq_id (cell (cells m) t) ∖ {[ s ]} else seq_id (cell (cells m) i)) (cell (cells m) i))).
  { intros i. subst l2. clear - Hs Hti. cell_cases; by destruct (cell (cells m) _). }
  assert (Hc2 : count_used l2 + (if decide (seq_id (cell l2 t) = ∅) then 1 else 0) = count_used (cells m)).
  { apply count_one; [done..|set_solver|]. intros i Hi. rewrite E2. simpl. by rewrite decide_False. }
  assert (Ht2 : inside l2 t) by (unfold inside in *; lia). clearbody l2.
  pose proof (wf_used_small m W). rewrite (wf_used _ W) in *.
  unfold is_empty. case_bool_decide as Hempty.
  - run_cell. eexists. split; [done|].
    assert (F : forgets {[ s ]} (cells m) (put_cell l2 t (free_cell (cell l2 t)))).
    { apply (forgets_one _ _ t); try done.
      - by rewrite length_set.
      - intros i. rewrite cell_set by done. destruct (decide (i = t)) as [->|]; simpl; by rewrite E2.
      - intros i Hi. rewrite cell_set, decide_False by done. rewrite E2, (decide_False (P := i = t)) by done. by destruct (cell (cells m) i).
      - rewrite cell_set, decide_True by done. simpl. rewrite E2. simpl. by rewrite decide_True.
      - rewrite cell_set, (decide_True (P := t = t)) by done. by rewrite decide_True by done. }
    assert (Hc3 : count_used (put_cell l2 t (free_cell (cell l2 t))) = count_used l2).
    { apply count_ext; [apply length_set|]. intros i _. rewrite cell_set by done. by destruct (decide (i = t)) as [->|]. }
    rewrite decide_True in Hc2 by done. pose proof (count_range l2). split_and!; try done; [|by split; [apply F|]].
    apply (forgets_wf {[ s ]} m); [done..|by split; [apply F|]| |apply W]. simpl. rewrite (wf_used _ W), u32_small; lia.
  - assert (F : forgets {[ s ]} (cells m) l2).
    { apply (forgets_one _ _ t); try done.
      - intros i. by rewrite E2.
      - intros i Hi. rewrite E2, (decide_False (P := i = t)) by done. by destruct (cell (cells m) i).
      - rewrite E2. simpl. by rewrite decide_True.
      - rewrite decide_False by done. by rewrite E2. }
    rewrite decide_False in Hc2 by done. eexists. split; [done|]. split_and!; try done.
    apply (forgets_wf {[ s ]} m); [done..| |apply W]. simpl. rewrite (wf_used _ W). lia.
Qed.

End RecurrentWf.
