(* ===== verification/RecurrentOps.v ===== *)
(** The operations on the sequences of a recurrent memory keep it well formed and change
    the position of the state of each sequence, and who shares it, as an abstract
    specification over sequences says; the memory implements the queries of positions
    that the batch allocator relies on. *)

From S2P Require Import Prelude.
From S2P Require Import Memory.
From S2P Require Import Recurrent.
From S2P Require Import RecurrentWf.

Module RecurrentOps.
Import Recurrent.
Import RecurrentWf.

(** ** Loops of operations *)

Lemma finish_sweep_ok f m k :
  wf m -> length k = length (cells m) -> frees f k -> count_used k = count_used (cells m) ->
  let m' := finish_sweep (with_cells m k) (sweep_cells f k (used m)) in
  cells m' = swept f k /\ used m' = count_used (swept f k) /\ 0 <= head m' <= size m /\
  n_rs_seq m' = n_rs_seq m /\ rs_idx m' = rs_idx m.
Proof.
  intros W Hlen Hf Hc. pose proof (wf_used_small m W) as Hu. rewrite (wf_used _ W) in *.
  destruct (sweep_spec f k (count_used (cells m))) as (E1 & E2 & _ & E4); [done|lia|].
  cbv zeta. unfold finish_sweep. simpl. split_and!; [done|lia| | |done|done]; pose proof (wf_head _ W); unfold size in *.
  all: destruct (sw_new_head _) as [h|]; [|lia]; specialize (E4 h eq_refl); destruct (Z.ltb_spec h (head m)); lia.
Qed.

Lemma rm_step_away s p0 p1 c :
  ~ (p0 <= pos c < p1 /\ (s < 0 \/ s ∈ seq_id c)) -> rm_step s p0 p1 c = (c, false, false).
Proof.
  intros H. unfold rm_step, has_seq_id.
  destruct (Z.leb_spec p0 (pos c)), (Z.ltb_spec (pos c) p1), (Z.ltb_spec s 0); simpl; try done; [tauto|].
  rewrite bool_decide_false; [done|tauto].
Qed.

Lemma rm_step_here s p0 p1 c :
  0 <= s -> p0 <= pos c < p1 -> s ∈ seq_id c ->
  rm_step s p0 p1 c = let c' := with_ids (seq_id c ∖ {[ s ]}) c in
    if decide (seq_id c ∖ {[ s ]} = ∅) then (free_cell c', 0 <=? pos c, true) else (c', false, false).
Proof.
  intros Hs Hp Hi. unfold rm_step, has_seq_id, is_empty. replace (s <? 0) with false by lia. rewrite bool_decide_true by done.
  replace ((p0 <=? pos c) && (pos c <? p1) && (false || true)) with true by lia. simpl.
  by case_bool_decide; case_decide.
Qed.

Lemma rm_frees s p0 p1 k :
  0 <= s -> (forall i, seq_id (cell k i) <> ∅ -> 0 <= pos (cell k i)) -> frees (fun _ => rm_step s p0 p1) k.
Proof.
  intros Hs Hp i Hi. simpl. destruct (decide (p0 <= pos (cell k i) < p1 /\ s ∈ seq_id (cell k i))) as [[H1 H2]|H].
  - rewrite rm_step_here by done. simpl. assert (Hn : seq_id (cell k i) <> ∅) by set_solver. specialize (Hp i Hn).
    case_decide; simpl; split; try done; [by rewrite bool_decide_true; [lia|]|by rewrite bool_decide_false by tauto].
  - rewrite rm_step_away by (intuition lia). simpl. split; [done|]. rewrite bool_decide_false; tauto.
Qed.

Lemma swept_away s p0 p1 k :
  (forall i, ~ (p0 <= pos (cell k i) < p1 /\ (s < 0 \/ s ∈ seq_id (cell k i)))) -> swept (fun _ => rm_step s p0 p1) k = k.
Proof.
  intros H. apply cells_eq; [apply length_swept|]. intros i Hi. rewrite cell_swept.
  case_decide as Hd; [|by rewrite cell_outside]. by rewrite rm_step_away.
Qed.

(** ** What each operation does to the sequences *)

(** The state shared by [X] is at another position. *)
Definition moved (X : gset Z) (p : Z) (v : view_t) (s : Z) : option (Z * gset Z) :=
  if decide (s ∈ X) then Some (p, X) else v s.

Lemma view_shared l s t :
  cells_ok l -> 0 <= tail (cell l s) -> (t ∈ seq_id (cell l (tail (cell l s))) <-> tail (cell l t) = tail (cell l s)).
Proof. intros H Hs. by apply (co_link _ H). Qed.

Lemma moved_ok l s p :
  cells_ok l -> 0 <= tail (cell l s) -> 0 <= p < INT32_MAX ->
  let t := tail (cell l s) in let k := put_cell l t (with_pos p (cell l t)) in
  cells_ok k /\ count_used k = count_used l /\ forall q, view k q = moved (seq_id (cell l t)) p (view l) q.
Proof.
  intros H Ht Hp t k. destruct (tail_inside l s H Ht) as [Hti Hsi]. fold t in Ht, Hti, Hsi.
  assert (E : forall i, cell k i = if decide (i = t) then with_pos p (cell l t) else cell l i) by (intros i; by apply cell_set).
  assert (Eo : forall i, tail (cell k i) = tail (cell l i) /\ src (cell k i) = src (cell l i) /\ seq_id (cell k i) = seq_id (cell l i)).
  { intros i. rewrite E. by destruct (decide (i = t)) as [->|]. }
  assert (Ep : forall i, pos (cell k i) = if decide (i = t) then p else pos (cell l i)).
  { intros i. rewrite E. by destruct (decide (i = t)) as [->|]. }
  split_and!.
  - split; intros; repeat rewrite ?(proj1 (Eo _)), ?(proj1 (proj2 (Eo _))), ?(proj2 (proj2 (Eo _))) in *.
    + by apply (co_link _ H).
    + apply (co_tail _ H).
    + rewrite Ep. destruct (decide (i = t)) as [->|]; [set_solver|]. by apply (co_free _ H).
    + rewrite Ep. destruct (decide (i = t)) as [->|]; [done|]. by apply (co_pos _ H).
    + by apply (co_src _ H).
  - apply count_ext; [apply length_set|]. intros i _. by rewrite (proj2 (proj2 (Eo i))).
  - intros q. unfold view, moved. rewrite (proj1 (Eo q)), (proj2 (proj2 (Eo _))), Ep.
    pose proof (view_shared l s q H Ht) as Hq. fold t in Hq. destruct (Z.ltb_spec (tail (cell l q)) 0) as [Hn|Hn].
    + rewrite decide_False; [done|]. rewrite Hq. lia.
    + destruct (decide (tail (cell l q) = t)) as [Hd|Hd]; [rewrite decide_True by tauto; by rewrite Hd|by rewrite decide_False by tauto].
Qed.

(** Removing a range of a sequence takes it off its state, or takes the state back as far
    as there are snapshots. *)
Definition spec_rm (n_rs : Z) (n_cells : Z) (s p0 p1 : Z) (v : view_t) : view_t * bool :=
  let p0 := p0_of p0 in let p1 := p1_of p1 in
  if n_cells <=? s then (v, false) else
  if s <? 0 then (v, p0 =? p1) else
  match v s with
  | None => (v, true)
  | Some (p, X) =>
      if negb ((p0 <=? p) && (p <? p1)) then (v, true)
      else if p0 =? 0 then (forget {[ s ]} v, true)
      else if p - (p0 - 1) <=? n_rs then (moved X (p0 - 1) v, true) else (v, false)
  end.

Lemma wf_with_rs_idx m l : wf m -> wf (with_rs_idx m l).
Proof. intros W. by split; apply W. Qed.

Lemma set_rs_idx_cells m s k : exists l, set_rs_idx m s k = with_rs_idx m l /\ length l = length (rs_idx m).
Proof.
  unfold set_rs_idx. destruct (_ || _); [exists (rs_idx m)|eexists; split; [done|apply length_insert]].
  by destruct m.
Qed.

Lemma rm_loop_away m s p0 p1 :
  wf m -> (forall i, ~ (p0 <= pos (cell (cells m) i) < p1 /\ (s < 0 \/ s ∈ seq_id (cell (cells m) i)))) ->
  let m' := rm_loop m s p0 p1 in wf m' /\ same_dims m m' /\ cells m' = cells m.
Proof.
  intros W H m'. pose proof (finish_sweep_ok (fun _ => rm_step s p0 p1) m (cells m) W eq_refl) as F.
  replace (with_cells m (cells m)) with m in F by by destruct m.
  destruct F as (E1 & E2 & E3 & E4 & E5); [|done|].
  { intros i Hi. rewrite rm_step_away by done. simpl. split; [done|]. rewrite bool_decide_false; tauto. }
  rewrite swept_away in E1, E2 by done. change (finish_sweep m _) with m' in E1, E2, E3, E4, E5.
  assert (Hs' : same_dims m m') by (split_and!; congruence). split_and!; [|done..].
  apply (wf_intro m); [done..|rewrite E1; apply W|congruence|done].
Qed.

Lemma rm_loop_here m s p0 p1 :
  wf m -> 0 <= tail (cell (cells m) s) -> p0 <= pos (cell (cells m) (tail (cell (cells m) s))) < p1 ->
  let m' := rm_loop (with_cells m (put_cell (cells m) s (with_tail (-1) (cell (cells m) s)))) s p0 p1 in
  wf m' /\ same_dims m m' /\ forgets {[ s ]} (cells m) (cells m').
Proof.
  intros W Ht Hp m'. pose proof (wf_cells _ W) as H. destruct (tail_inside _ s H Ht) as [Hti Hsi].
  remember (tail (cell (cells m) s)) as t eqn:Et.
  assert (Hs : inside (cells m) s) by (by eapply seq_inside).
  set (k := put_cell (cells m) s _) in *. assert (Hlen : length k = length (cells m)) by apply length_set.
  assert (E : forall i, cell k i = with_tail (if decide (i = s) then -1 else tail (cell (cells m) i)) (cell (cells m) i)).
  { intros i. unfold k. rewrite cell_set by done. destruct (decide (i = s)) as [->|]; [done|by destruct (cell _ i)]. }
  destruct (finish_sweep_ok (fun _ => rm_step s p0 p1) m k W Hlen) as (E1 & E2 & E3 & E4 & E5).
  { apply rm_frees; [unfold inside in Hs; lia|]. intros i. rewrite E. simpl. intros Hi. by apply (co_pos _ H). }
  { apply count_ext; [done|]. intros i _. by rewrite E. }
  change (finish_sweep (with_cells m k) _) with m' in E1, E2, E3, E4, E5.
  assert (F : forgets {[ s ]} (cells m) (swept (fun _ => rm_step s p0 p1) k)).
  { assert (Ec : forall i, cell (swept (fun _ => rm_step s p0 p1) k) i = (rm_step s p0 p1 (cell k i)).1.1).
    { intros i. rewrite cell_swept. case_decide as Hi; [done|]. rewrite cell_outside by done. unfold rm_step, has_seq_id.
      simpl. rewrite (bool_decide_false (s ∈ ∅)) by set_solver. unfold inside in Hs. replace (s <? 0) with false by lia.
      by rewrite andb_false_r. }
    assert (Eh : rm_step s p0 p1 (cell k t) = _) by (apply rm_step_here; rewrite ?E; unfold inside in Hs; simpl; lia || done).
    apply (forgets_one _ s t); try done.
    - rewrite length_swept. done.
    - intros i. rewrite Ec. unfold rm_step. rewrite E. by destruct (_ && _); [destruct (is_empty _)|].
    - intros i Hi. rewrite Ec, rm_step_away, E; [by destruct (cell (cells m) i)|].
      rewrite E. simpl. unfold inside in Hs. intros [_ [Hneg|Hin]]; [lia|]. apply (co_link _ H) in Hin; [congruence|].
      eapply ids_inside in Hin as [? ?]. done.
    - rewrite Ec, Eh. simpl. case_decide; simpl; by rewrite E.
    - rewrite Ec, Eh. simpl. rewrite E. simpl. repeat case_decide; simpl in *; done. }
  assert (Hsh : same_dims m m') by (split_and!; [rewrite E1, length_swept; congruence|congruence..]).
  rewrite <- E1 in F. split_and!; [|done..]. apply (forgets_wf {[ s ]} m); [done..|congruence|done].
Qed.

Lemma can_seq_rm_at m s p0 p1 :
  wf m -> 0 <= s < size m ->
  can_seq_rm m s p0 p1 = Ok (if tail (cell (cells m) s) <? 0 then true else
    let c := cell (cells m) (tail (cell (cells m) s)) in
    if cuts_suffix (p0_of p0) (p1_of p1) c then can_roll_back m (p0_of p0) c else true).
Proof.
  intros W Hs. unfold can_seq_rm. replace (size m <=? s) with false by lia. replace (s <? 0) with false by lia.
  assert (Hi : inside (cells m) s) by done. run_cell. destruct (Z.ltb_spec (tail (cell (cells m) s)) 0); [done|].
  destruct (tail_inside _ s (wf_cells _ W)) as [Ht _]; [lia|]. by run_cell.
Qed.

(** The run ends in a well-formed memory with the sequences [out] and its answer. *)
Definition leads_to (m : memory) (r : R (memory * bool)) (out : view_t * bool) : Prop :=
  exists m', r = Ok (m', out.2) /\ wf m' /\ same_dims m m' /\ forall q, view (cells m') q = out.1 q.

(** The positions of the snapshots are reset when the whole sequence goes. *)
Lemma reset_rs_idx m s p0 p1 : exists l, length l = length (rs_idx m) /\
  (if everything p0 p1 then if 0 <=? s then set_rs_idx m s 0 else with_rs_idx m ((fun _ => 0) <$> rs_idx m) else m)
  = with_rs_idx m l.
Proof.
  destruct (everything _ _); [destruct (0 <=? s)|].
  - destruct (set_rs_idx_cells m s 0) as (l & -> & Hl). by exists l.
  - eexists. split; [|done]. by rewrite length_fmap.
  - exists (rs_idx m). by destruct m.
Qed.

Lemma seq_rm_any m s p0 p1 :
  wf m -> s < 0 -> everything (p0_of p0) (p1_of p1) = false ->
  leads_to m (seq_rm m s p0 p1) (view (cells m), p0_of p0 =? p1_of p1).
Proof.
  intros W Hs Ee. pose proof (wf_size m W) as Hsz. unfold seq_rm, can_seq_rm. replace (size m <=? s) with false by lia.
  replace (s <? 0) with true by lia. replace (0 <=? s) with false by lia. rewrite Ee, orb_false_r.
  destruct (Z.eqb_spec (p0_of p0) (p1_of p1)) as [Hp|Hp]; bind_simpl; cbn [negb andb].
  - replace (size m <=? s) with false by lia.
    destruct (rm_loop_away m s (p0_of p0) (p1_of p1)) as (W' & S' & E'); [done|lia|].
    eexists. split_and!; [done..|]. by rewrite E'.
  - exists m. by split_and!.
Qed.

Lemma seq_rm_none m s p0 p1 :
  wf m -> 0 <= s < size m -> tail (cell (cells m) s) < 0 ->
  leads_to m (seq_rm m s p0 p1) (view (cells m), true).
Proof.
  intros W Hs Ht. pose proof (wf_cells m W) as H. assert (Hi : inside (cells m) s) by done.
  unfold seq_rm. rewrite can_seq_rm_at by done. bind_simpl. replace (tail _ <? 0) with true by lia. cbn [negb].
  destruct (reset_rs_idx m s (p0_of p0) (p1_of p1)) as (l & Hl & ->). change (size (with_rs_idx m l)) with (size m).
  replace (size m <=? s) with false by lia. replace (0 <=? s) with true by lia. cbn [cells with_rs_idx]. run_cell.
  replace (0 <=? tail (cell (cells m) s)) with false by lia.
  destruct (rm_loop_away (with_rs_idx m l) s (p0_of p0) (p1_of p1)) as (W' & S' & E').
  - by apply wf_with_rs_idx.
  - simpl. intros i [_ [?|Hin]]; [lia|]. apply ids_tail in Hin; [lia|done].
  - eexists. split_and!; [done..| |]; [|by rewrite E'].
    destruct S' as (S1 & S2 & S3). split_and!; simpl in *; congruence.
Qed.

Lemma seq_rm_some m s p0 p1 :
  wf m -> 0 <= s < size m -> 0 <= tail (cell (cells m) s) ->
  let c := cell (cells m) (tail (cell (cells m) s)) in
  leads_to m (seq_rm m s p0 p1)
    (if negb ((p0_of p0 <=? pos c) && (pos c <? p1_of p1)) then (view (cells m), true)
     else if p0_of p0 =? 0 then (forget {[ s ]} (view (cells m)), true)
     else if pos c - (p0_of p0 - 1) <=? n_rs_seq m then (moved (seq_id c) (p0_of p0 - 1) (view (cells m)), true)
     else (view (cells m), false)).
Proof.
  intros W Hs Ht c. pose proof (wf_cells m W) as H. assert (Hi : inside (cells m) s) by done.
  destruct (tail_inside _ s H Ht) as [Hti Hsi]. destruct (view_at _ s H Ht) as [_ Hpos]. fold c in Hpos, Hsi.
  unfold seq_rm. rewrite can_seq_rm_at by done. bind_simpl. replace (tail _ <? 0) with false by lia. fold c.
  assert (Hp0 : 0 <= p0_of p0) by (unfold p0_of; destruct (Z.ltb_spec p0 0); lia).
  assert (Hn : i32 (n_rs_seq m) = n_rs_seq m) by (apply i32_small; pose proof (wf_rs m W); unfold INT32_MAX in *; lia).
  assert (Hroll : forall l, can_roll_back (with_rs_idx m l) (p0_of p0) c = can_roll_back m (p0_of p0) c) by done.
  destruct (reset_rs_idx m s (p0_of p0) (p1_of p1)) as (l & Hl & El).
  destruct (cuts_suffix (p0_of p0) (p1_of p1) c) eqn:Ec.
  - unfold cuts_suffix in Ec. replace ((p0_of p0 <=? pos c) && (pos c <? p1_of p1)) with true by lia.
    replace (p0_of p0 =? 0) with false by lia. cbn [negb]. unfold can_roll_back at 1. rewrite Hn.
    destruct (Z.leb_spec (pos c - (p0_of p0 - 1)) (n_rs_seq m)) as [Hr|Hr].
    2:{ rewrite andb_false_r. exists m. by split_and!. }
    replace (1 <=? pos c - (p0_of p0 - 1)) with true by lia. cbn [negb andb]. rewrite El.
    change (size (with_rs_idx m l)) with (size m). replace (size m <=? s) with false by lia.
    replace (0 <=? s) with true by lia. cbn [cells with_rs_idx]. run_cell. replace (0 <=? tail _) with true by lia.
    run_cell. fold c. unfold cuts_suffix, can_roll_back. cbn [n_rs_seq with_rs_idx]. rewrite Hn.
    replace (_ && _ && _) with true by lia. replace (_ && _) with true by lia.
    destruct (set_rs_idx_cells (with_rs_idx m l) s (u32 (pos c - (p0_of p0 - 1)))) as (l' & -> & Hl').
    change (with_rs_idx (with_rs_idx m l) l') with (with_rs_idx m l'). run_cell. fold c.
    destruct (moved_ok (cells m) s (p0_of p0 - 1) H Ht) as (K1 & K2 & K3); [lia|]. fold c in K1, K2, K3.
    eexists. split_and!; [done| | |exact K3].
    + apply (wf_intro m); [done|split_and!; simpl; rewrite ?length_set; simpl in *; congruence|done| |apply W].
      simpl. rewrite K2. apply W.
    + split_and!; simpl; rewrite ?length_set; simpl in *; congruence.
  - cbn [negb]. rewrite El. change (size (with_rs_idx m l)) with (size m). replace (size m <=? s) with false by lia.
    replace (0 <=? s) with true by lia. cbn [cells with_rs_idx]. run_cell. replace (0 <=? tail _) with true by lia.
    run_cell. fold c. rewrite Ec. unfold cuts_suffix in Ec.
    destruct ((p0_of p0 <=? pos c) && (pos c <? p1_of p1)) eqn:Er; cbn [negb].
    + replace (p0_of p0 =? 0) with true by lia. run_cell.
      destruct (rm_loop_here (with_rs_idx m l) s (p0_of p0) (p1_of p1)) as (W' & S' & F).
      { by apply wf_with_rs_idx. } { done. } { simpl. fold c. lia. }
      eexists. split_and!; [done|done| |].
      * destruct S' as (S1 & S2 & S3). split_and!; simpl in *; congruence.
      * intros q. by apply (forgets_view _ (cells m)).
    + destruct (rm_loop_away (with_rs_idx m l) s (p0_of p0) (p1_of p1)) as (W' & S' & E').
      { by apply wf_with_rs_idx. }
      { simpl. intros i [Hp [?|Hin]]; [lia|]. apply ids_tail in Hin as [_ <-]; [|done]. fold c in Hp. lia. }
      eexists. split_and!; [done..| |]; [|by rewrite E']. destruct S' as (S1 & S2 & S3). split_and!; simpl in *; congruence.
Qed.

Lemma recurrent_rm_ok m s p0 p1 :
  wf m -> (s < 0 -> everything (p0_of p0) (p1_of p1) = false) ->
  leads_to m (seq_rm m s p0 p1) (spec_rm (n_rs_seq m) (size m) s p0 p1 (view (cells m))).
Proof.
  intros W Hn. pose proof (wf_cells _ W) as H. unfold spec_rm. cbv zeta.
  destruct (Z.leb_spec (size m) s) as [Hbig|Hbig].
  { unfold seq_rm, can_seq_rm. replace (size m <=? s) with true by lia. exists m. by split_and!. }
  destruct (Z.ltb_spec s 0) as [Hneg|Hs]; [by apply seq_rm_any; auto|].
  destruct (Z.ltb_spec (tail (cell (cells m) s)) 0) as [Ht|Ht].
  - rewrite (proj2 (view_none _ s H)) by (pose proof (co_tail _ H s); lia). by apply seq_rm_none.
  - rewrite (view_some _ s H Ht). by apply seq_rm_some.
Qed.

(** Copying makes two sequences share a state. *)
Definition spec_cp (a b : Z) (v : view_t) (s : Z) : option (Z * gset Z) :=
  match v a with
  | None => if decide (s = b) then None else forget {[ b ]} v s
  | Some (p, X) => if decide (s = b \/ s ∈ X) then Some (p, X ∪ {[ b ]}) else forget {[ b ]} v s
  end.

(** Join sequence [b], which has no cell, to the cell of [a]. *)
Lemma join_ok l a b :
  cells_ok l -> inside l b -> 0 <= tail (cell l a) -> tail (cell l b) = -1 ->
  let t := tail (cell l a) in
  let k := put_cell (put_cell l t (with_ids (seq_id (cell l t) ∪ {[ b ]}) (cell l t))) b
             (with_tail t (cell (put_cell l t (with_ids (seq_id (cell l t) ∪ {[ b ]}) (cell l t))) b)) in
  cells_ok k /\ count_used k = count_used l /\
  forall s, view k s = if decide (s = b \/ s ∈ seq_id (cell l t)) then Some (pos (cell l t), seq_id (cell l t) ∪ {[ b ]}) else view l s.
Proof.
  intros H Hb Ha Htb t k. destruct (tail_inside l a H Ha) as [Hti Hai]. fold t in Ha, Hti, Hai.
  assert (E : forall i, cell k i = with_tail (if decide (i = b) then t else tail (cell l i))
      (with_ids (if decide (i = t) then seq_id (cell l t) ∪ {[ b ]} else seq_id (cell l i)) (cell l i))).
  { intros i. subst k. clearbody t. clear - Hb Hti. cell_cases; by destruct (cell l _). }
  assert (Hlen : length k = length l) by (subst k; by rewrite !length_set). clearbody k.
  split_and!.
  - split; intros; rewrite ?E in *; simpl in *.
    + destruct (decide (i = t)) as [->|Hi], (decide (s = b)) as [->|Hs].
      * set_solver.
      * rewrite elem_of_union, elem_of_singleton, (co_link _ H) by done. tauto.
      * rewrite (co_link _ H), Htb by done. split; lia || congruence.
      * by apply (co_link _ H).
    + case_decide; [lia|apply (co_tail _ H)].
    + case_decide; [set_solver|]. by apply (co_free _ H).
    + apply (co_pos _ H). case_decide; [subst; set_solver|done].
    + apply (co_src _ H). case_decide; [subst; set_solver|done].
  - apply count_ext; [done|]. intros i _. rewrite E. simpl. destruct (decide (i = t)) as [->|]; [|done].
    split; intros ?; set_solver.
  - intros s. pose proof (view_shared l a s H Ha) as Hs. fold t in Hs. unfold view. rewrite !E. cbn [pos tail seq_id with_tail with_ids with_state].
    destruct (decide (s = b)) as [->|Hb'].
    + rewrite (decide_True (P := b = b \/ _)) by tauto. replace (t <? 0) with false by lia. by rewrite decide_True.
    + destruct (decide (tail (cell l s) = t)) as [Ht|Ht].
      * rewrite (decide_True (P := s = b \/ _)) by tauto. rewrite Ht. by replace (t <? 0) with false by lia.
      * by rewrite (decide_False (P := s = b \/ _)) by tauto.
Qed.

Lemma recurrent_cp_ok m a b p0 p1 :
  wf m -> 0 <= a < size m -> 0 <= b < size m -> a <> b ->
  exists m', seq_cp m a b p0 p1 = Ok m' /\ wf m' /\ same_dims m m' /\
    forall s, view (cells m') s = spec_cp a b (view (cells m)) s.
Proof.
  intros W Ha Hb Hab. pose proof (wf_size m W) as Hsz. pose proof (wf_cells m W) as H.
  unfold seq_cp. replace (a =? b) with false by lia. rewrite !u32_small by lia.
  replace ((b <? size m) && (a <? size m)) with true by lia.
  destruct (drop_tail_ok b m W Hb) as (m1 & -> & W1 & S1 & Hh & Hr & F). bind_simpl.
  assert (E1 : size m1 = size m) by (unfold size; by rewrite (proj1 S1)).
  assert (Hai : inside (cells m1) a) by (split; [lia|fold (size m1); lia]).
  assert (Hbi : inside (cells m1) b) by (split; [lia|fold (size m1); lia]).
  run_cell. rewrite (fg_tail _ _ _ F), decide_False by set_solver. unfold spec_cp.
  destruct (Z.ltb_spec (tail (cell (cells m) a)) 0) as [Ht|Ht].
  - exists m1. split_and!; [done..|]. intros s. rewrite (forgets_view _ _ _ s H F).
    rewrite (proj2 (view_none _ a H)) by (pose proof (co_tail _ H a); lia). unfold forget. case_decide as Hs; [|by rewrite decide_False by set_solver].
    by rewrite decide_True by set_solver.
  - assert (Et : tail (cell (cells m1) a) = tail (cell (cells m) a)) by (by rewrite (fg_tail _ _ _ F), decide_False by set_solver).
    destruct (join_ok (cells m1) a b (wf_cells _ W1) Hbi) as (K1 & K2 & K3); [lia|by rewrite (fg_tail _ _ _ F), decide_True by set_solver|].
    destruct (tail_inside _ a (wf_cells _ W1)) as [Hti Hin]; [lia|]. rewrite Et in *. do 2 run_cell.
    assert (Hsh : forall k, length k = length (cells m1) -> same_dims m (with_cells m1 k)).
    { intros k Hk. destruct S1 as (? & ? & ?). split_and!; simpl; congruence. }
    eexists. split_and!; [done| | |].
    + apply (wf_intro m1); [done| |done|simpl; rewrite K2; apply W1|apply W1].
      split_and!; simpl; by rewrite ?length_set.
    + apply Hsh. by rewrite !length_set.
    + intros s. cbn [cells with_cells]. rewrite K3, (view_some _ a H Ht), (fg_pos _ _ _ F), (fg_ids _ _ _ F).
      destruct (tail_inside _ a H Ht) as [_ Ha']. rewrite (forgets_view _ _ _ s H F).
      rewrite (decide_False (P := _ = ∅)) by set_solver.
      set (X := seq_id _). replace (X ∖ {[ b ]} ∪ {[ b ]}) with (X ∪ {[ b ]}) by (apply set_eq; intros q; destruct (decide (q = b)); set_solver).
      rewrite (decide_ext (s = b \/ s ∈ X ∖ {[ b ]}) (s = b \/ s ∈ X)); [done|]. destruct (decide (s = b)); set_solver.
Qed.

Definition all_ids (l : list mem_cell) : gset Z := ⋃ (seq_id <$> l).

Lemma elem_of_all_ids l s : cells_ok l -> (s ∈ all_ids l <-> 0 <= tail (cell l s)).
Proof.
  intros H. unfold all_ids. rewrite elem_of_union_list. split.
  - intros (X & (c & -> & (i & Hi & <-)%elem_of_cells)%list_elem_of_fmap & Hs). apply ids_tail in Hs; [lia|done].
  - intros Ht. destruct (tail_inside _ s H Ht) as [Hi Hs]. eexists. split; [|exact Hs].
    apply list_elem_of_fmap. eexists. split; [done|]. apply elem_of_cells. eauto.
Qed.

Lemma not_in_ids l s : cells_ok l -> s ∉ all_ids l -> tail (cell l s) = -1.
Proof. intros H Hs. rewrite elem_of_all_ids in Hs by done. pose proof (co_tail _ H s). lia. Qed.

Lemma ids_all l i : cells_ok l -> seq_id (cell l i) ⊆ all_ids l.
Proof. intros H s Hs. apply ids_tail in Hs; [|done]. apply elem_of_all_ids; [done|lia]. Qed.

Definition spec_keep (s : Z) (v : view_t) (q : Z) : option (Z * gset Z) :=
  if decide (q = s) then (fun x => (x.1, {[ s ]})) <$> v s else None.

Lemma keep_step_spec s i c :
  (keep_step s i c).1.1 = mk_cell (if decide (s ∈ seq_id c) then pos c else -1) (if decide (s ∈ seq_id c) then src c else -1)
    (src0 c) (if decide (i = s) then tail c else -1) (if decide (s ∈ seq_id c) then {[ s ]} else ∅) /\
  (keep_step s i c).1.2 = bool_decide ((s ∉ seq_id c) /\ 0 <= pos c).
Proof.
  unfold keep_step, has_seq_id. destruct (Z.eqb_spec i s) as [->|Hi]; simpl.
  all: destruct (decide (s ∈ seq_id c)) as [Hs|Hs];
    [rewrite !bool_decide_true by done; rewrite bool_decide_false by tauto
    |rewrite (bool_decide_false (s ∈ seq_id c)) by done]; simpl; rewrite ?decide_True, ?decide_False by done; try done.
  all: split; [done|]; destruct (Z.leb_spec 0 (pos c)); [by rewrite bool_decide_true|rewrite bool_decide_false; [done|lia]].
Qed.

Lemma keep_frees l s : cells_ok l -> frees (keep_step s) l.
Proof.
  intros H i Hi. cbv zeta. destruct (keep_step_spec s i (cell l i)) as [-> ->]. simpl.
  pose proof (co_pos _ H i) as Hp. pose proof (co_free _ H i) as Hf. split; [case_decide; set_solver|].
  apply bool_decide_ext. case_decide as Hs; [split; [tauto|set_solver]|].
  destruct (decide (seq_id (cell l i) = ∅)) as [Hn|Hn]; [destruct (Hf Hn) as [-> _]; split; [lia|tauto]|].
  specialize (Hp Hn). split; [done|]. split; [done|lia].
Qed.

Lemma keep_forgets l s : cells_ok l -> forgets (all_ids l ∖ {[ s ]}) l (swept (keep_step s) l).
Proof.
  intros H. assert (Ec : forall i, cell (swept (keep_step s) l) i =
    mk_cell (if decide (s ∈ seq_id (cell l i)) then pos (cell l i) else -1) (if decide (s ∈ seq_id (cell l i)) then src (cell l i) else -1)
      (src0 (cell l i)) (if decide (i = s) then tail (cell l i) else -1) (if decide (s ∈ seq_id (cell l i)) then {[ s ]} else ∅)).
  { intros i. rewrite cell_swept, (proj1 (keep_step_spec s i _)). case_decide as Hi; [done|].
    rewrite cell_outside by done. simpl. rewrite !(decide_False (P := s ∈ ∅)) by set_solver. by case_decide. }
  split; intros; rewrite ?Ec in *; simpl in *.
  - apply length_swept.
  - destruct (decide (s0 = s)), (decide (s0 ∈ all_ids l ∖ {[ s ]})); try done; try set_solver.
    symmetry. apply not_in_ids; [done|set_solver].
  - pose proof (ids_all _ i H) as Hsub. case_decide; apply set_eq; intros q; destruct (decide (q = s)) as [->|]; set_solver.
  - repeat case_decide; try done; set_solver.
  - repeat case_decide; try done; set_solver.
  - repeat case_decide; try tauto; set_solver.
Qed.

Lemma recurrent_keep_ok m s : wf m ->
  let m' := seq_keep m s in wf m' /\ same_dims m m' /\ forall q, view (cells m') q = spec_keep s (view (cells m)) q.
Proof.
  intros W m'. pose proof (wf_cells _ W) as H. pose proof (keep_forgets _ s H) as F.
  destruct (finish_sweep_ok (keep_step s) m (cells m) W eq_refl) as (E1 & E2 & E3 & E4 & E5); [by apply keep_frees|done|].
  replace (with_cells m (cells m)) with m in * by by destruct m. change (finish_sweep m _) with m' in *. rewrite <- E1 in F.
  assert (Hsh : same_dims m m') by (split_and!; [apply F|congruence..]). split_and!; [|done|].
  - apply (forgets_wf (all_ids (cells m) ∖ {[ s ]}) m); [done..|congruence|done].
  - intros q. rewrite (forgets_view _ _ _ q H F). unfold forget, spec_keep. destruct (decide (q = s)) as [->|Hq].
    + rewrite decide_False by set_solver. unfold view. destruct (Z.ltb_spec (tail (cell (cells m) s)) 0) as [|Ht]; [done|]. simpl.
      destruct (tail_inside _ s H Ht) as [_ Hs]. pose proof (ids_all (cells m) (tail (cell (cells m) s)) H).
      do 2 f_equal. apply set_eq. intros q. destruct (decide (q = s)) as [->|]; set_solver.
    + destruct (decide (q ∈ all_ids (cells m) ∖ {[ s ]})) as [|Hd]; [done|].
      rewrite (proj2 (view_none _ q H)); [done|]. apply not_in_ids; [done|set_solver].
Qed.

(** Moving the position of a sequence moves it for those it shares its state with. *)
Definition spec_move (n_cells : Z) (s p0 p1 : Z) (f : Z -> Z) (v : view_t) : view_t :=
  let p0 := p0_of p0 in let p1 := p1_of p1 in
  if (0 <=? s) && (s <? n_cells) then
    match v s with
    | Some (p, X) => if (p0 <=? p) && (p <? p1) then moved X (f p) v else v
    | None => v
    end
  else v.

(** The new position is one. *)
Definition moves_well (n_cells s p0 p1 : Z) (f : Z -> Z) (v : view_t) : Prop :=
  forall p X, 0 <= s < n_cells -> v s = Some (p, X) -> p0_of p0 <= p < p1_of p1 -> 0 <= f p < INT32_MAX.

Lemma move_pos_ok m s p0 p1 (g : Z -> R Z) (f : Z -> Z) :
  wf m -> (forall p, 0 <= p < INT32_MAX -> 0 <= f p < INT32_MAX -> g p = Ok (f p)) ->
  moves_well (size m) s p0 p1 f (view (cells m)) ->
  exists m', move_pos m s p0 p1 g = Ok m' /\ wf m' /\ same_dims m m' /\
    forall q, view (cells m') q = spec_move (size m) s p0 p1 f (view (cells m)) q.
Proof.
  intros W Hg Hm. pose proof (wf_cells _ W) as H. unfold move_pos, spec_move. cbv zeta.
  assert (Hsame : exists m', Ok m = Ok m' :> R memory /\ wf m' /\ same_dims m m' /\
    forall q, view (cells m') q = view (cells m) q) by (exists m; by split_and!).
  destruct ((0 <=? s) && (s <? size m)) eqn:Es; [|by destruct (p0_of p0 =? p1_of p1)].
  assert (Hi : inside (cells m) s) by (unfold inside; fold (size m); lia). destruct Hsame as (m' & Em & Hsame).
  destruct (Z.ltb_spec (tail (cell (cells m) s)) 0) as [Ht|Ht].
  { rewrite (proj2 (view_none _ s H)) by (pose proof (co_tail _ H s); lia). exists m'. split; [|done].
    destruct (_ =? _); [done|]. run_cell. by replace (tail _ <? 0) with true by lia. }
  destruct (view_at _ s H Ht) as [Ev Hp]. rewrite Ev. destruct (tail_inside _ s H Ht) as [Hti Hsi].
  destruct ((p0_of p0 <=? pos _) && (pos _ <? p1_of p1)) eqn:Er.
  - replace (p0_of p0 =? p1_of p1) with false by lia. run_cell. replace (tail _ <? 0) with false by lia. run_cell.
    unfold has_seq_id. rewrite bool_decide_true by done. cbn [andb]. rewrite Er.
    assert (Hf : 0 <= f (pos (cell (cells m) (tail (cell (cells m) s)))) < INT32_MAX).
    { apply (Hm _ (seq_id (cell (cells m) (tail (cell (cells m) s))))); [lia|done|lia]. }
    rewrite Hg by done. bind_simpl. run_cell.
    destruct (moved_ok (cells m) s (f (pos (cell (cells m) (tail (cell (cells m) s))))) H Ht Hf) as (K1 & K2 & K3).
    eexists. split_and!; [done| | |exact K3]; [|by split_and!; simpl; rewrite ?length_set].
    apply (wf_intro m); [done|by split_and!; simpl; rewrite ?length_set|done|simpl; rewrite K2; apply W|apply W].
  - exists m'. split; [|done]. destruct (_ =? _); [done|]. run_cell. replace (tail _ <? 0) with false by lia. run_cell.
    rewrite <- andb_assoc, Er, andb_false_r. done.
Qed.

Lemma recurrent_add_ok m s p0 p1 d : wf m -> moves_well (size m) s p0 p1 (fun p => p + d) (view (cells m)) ->
  exists m', seq_add m s p0 p1 d = Ok m' /\ wf m' /\ same_dims m m' /\
    forall q, view (cells m') q = (if d =? 0 then view (cells m) else spec_move (size m) s p0 p1 (fun p => p + d) (view (cells m))) q.
Proof.
  intros W Hm. unfold seq_add. destruct (d =? 0); [exists m; by split_and!|]. apply move_pos_ok; [done| |done].
  intros p Hp Hf. apply int_Ok. split; [|done]. apply in_i32_spec. unfold INT32_MAX in Hf. lia.
Qed.

Lemma recurrent_div_ok m s p0 p1 d : wf m -> 0 < d ->
  exists m', seq_div m s p0 p1 d = Ok m' /\ wf m' /\ same_dims m m' /\
    forall q, view (cells m') q = (if d =? 1 then view (cells m) else spec_move (size m) s p0 p1 (fun p => p / d) (view (cells m))) q.
Proof.
  intros W Hd. unfold seq_div. destruct (d =? 1); [exists m; by split_and!|]. apply move_pos_ok; [done| |].
  - intros p Hp Hf. replace (d =? 0) with false by lia. cbn [negb]. bind_simpl. rewrite Z.quot_div_nonneg by lia.
    apply int_Ok. split; [|done]. apply in_i32_spec. unfold INT32_MAX in Hf. lia.
  - intros p X Hs Hv Hp. unfold view in Hv. destruct (Z.ltb_spec (tail (cell (cells m) s)) 0) as [|Ht]; [done|].
    destruct (view_at _ s (wf_cells _ W) Ht) as [_ Hr]. injection Hv as <- _.
    split; [apply Z.div_pos; lia|]. apply Z.div_lt_upper_bound; [lia|]. nia.
Qed.

Lemma recurrent_clear_ok m : wf m ->
  wf (clear m) /\ same_dims m (clear m) /\ forall s, view (cells (clear m)) s = None.
Proof.
  intros W. assert (E : forall i, cell (cells (clear m)) i = mk_cell (-1) (-1) (src0 (cell (cells m) i)) (-1) ∅).
  { intros i. unfold clear. cbn [cells]. rewrite cell_map. case_decide; [done|]. by rewrite cell_outside. }
  assert (S : same_dims m (clear m)) by (split_and!; simpl; by rewrite ?length_fmap). split_and!; [|done|].
  - apply (wf_intro m); [done..| | |simpl; pose proof (wf_size m W); lia].
    + split; intros; rewrite ?E in *; simpl in *; try done; [split; [set_solver|lia]|by auto].
    + simpl. unfold count_used. rewrite filter_none; [done|]. intros x (c & -> & _)%list_elem_of_fmap. simpl. tauto.
  - intros s. unfold view. by rewrite E.
Qed.

(** A cell after one of its sequences has left it. *)
Definition left_cell (s : Z) (c : mem_cell) : mem_cell :=
  let c' := with_ids (seq_id c ∖ {[ s ]}) c in if decide (seq_id c' = ∅) then free_cell c' else c'.

Lemma left_cell_ids s c : seq_id (left_cell s c) = seq_id c ∖ {[ s ]}.
Proof. unfold left_cell. cbv zeta. by destruct (decide _). Qed.

Lemma leave_cell m i s :
  wf m -> inside (cells m) i -> s ∈ seq_id (cell (cells m) i) ->
  exists m2, (m ← update_cell (fun c => with_ids (seq_id c ∖ {[ s ]}) c) i m;
    c ← cell_at (cells m) i;
    if is_empty c then
      m ← update_cell free_cell i (if 0 <=? pos c then decrement m else m);
      Ok (if i <? head m then with_head m i else m)
    else Ok m) = Ok m2 /\ same_dims m m2 /\ cells m2 = put_cell (cells m) i (left_cell s (cell (cells m) i)) /\
    used m2 = count_used (cells m2) /\ 0 <= head m2 <= size m.
Proof.
  intros W Hi Hs. pose proof (wf_cells _ W) as H. set (c := cell (cells m) i) in *.
  assert (Hc : count_used (put_cell (cells m) i (left_cell s c)) + (if decide (seq_id c ∖ {[ s ]} = ∅) then 1 else 0) = count_used (cells m)).
  { pose proof (count_set (cells m) i (left_cell s c) Hi) as C. fold c in C. rewrite (decide_False (P := seq_id c = ∅)) in C by set_solver.
    rewrite left_cell_ids in C. case_decide; lia. }
  do 2 run_cell. fold c. rewrite cell_set, decide_True by done. unfold is_empty. cbn [seq_id with_ids with_state].
  assert (Hp : 0 <= pos c) by (apply (co_pos _ H); subst c; set_solver).
  pose proof (count_range (put_cell (cells m) i (left_cell s c))) as Hr. pose proof (wf_used_small m W) as Hu. pose proof (wf_head m W) as Hh.
  unfold left_cell in *. cbn [seq_id with_ids with_state] in *. rewrite length_set in Hr. fold (size m) in Hr.
  case_bool_decide as He; [rewrite decide_True in * by done|rewrite decide_False in * by done].
  - cbn [pos with_ids with_state]. replace (0 <=? pos c) with true by lia. run_cell. fold c. rewrite cell_set, decide_True by done.
    assert (E2 : forall x, put_cell (put_cell (cells m) i (with_ids (seq_id c ∖ {[ s ]}) c)) i x = put_cell (cells m) i x).
    { intros x. apply list_insert_insert_eq. }
    rewrite E2. unfold inside in Hi. rewrite (wf_used _ W) in Hu.
    assert (Hc' : count_used (put_cell (cells m) i (free_cell (with_ids (seq_id c ∖ {[ s ]}) c))) + 1 = count_used (cells m)).
    { by rewrite decide_True in Hc by done. }
    eexists. split; [done|]. change (head (with_cells (decrement _) _)) with (head m).
    destruct (Z.ltb_spec i (head m)); (split; [split_and!; simpl; by rewrite ?length_set|]); split_and!; simpl; rewrite ?length_set; try rewrite u32_small by (rewrite (wf_used _ W); lia);
      try done; rewrite ?(wf_used _ W); lia.
  - assert (Hc' : count_used (put_cell (cells m) i (with_ids (seq_id c ∖ {[ s ]}) c)) = count_used (cells m)).
    { rewrite decide_False in Hc by done. lia. }
    eexists. split; [done|]. split_and!; simpl; rewrite ?length_set; try done; rewrite ?(wf_used _ W); try lia. split_and!; simpl; by rewrite ?length_set.
Qed.

(** The cell of a sequence, and whether there is one. *)
Lemma recurrent_rm_cell_ok m s i :
  wf m -> 0 <= i ->
  exists m', seq_rm_cell m s i = Ok (m', bool_decide (0 <= s /\ tail (cell (cells m) s) = i)) /\ wf m' /\ same_dims m m' /\
    forall q, view (cells m') q =
      (if decide (0 <= s /\ tail (cell (cells m) s) = i) then forget {[ s ]} (view (cells m)) else view (cells m)) q.
Proof.
  intros W Hi0. pose proof (wf_cells _ W) as H. unfold seq_rm_cell.
  destruct (decide (0 <= s /\ tail (cell (cells m) s) = i)) as [[Hs Ht]|Hn].
  2:{ rewrite bool_decide_false by done. exists m. split; [|by split_and!]. destruct ((s <? 0) || _) eqn:Eb; [done|].
      assert (Hi : inside (cells m) i) by (unfold inside; fold (size m); lia). run_cell.
      unfold has_seq_id. rewrite bool_decide_false; [done|]. intros Hin. apply Hn. split; [lia|]. by destruct (ids_tail _ s i H Hin). }
  rewrite bool_decide_true by done. destruct (tail_inside _ s H) as [Hi Hin]; [lia|]. rewrite Ht in Hi, Hin.
  assert (Hsi : inside (cells m) s) by by apply (seq_inside _ s i).
  replace ((s <? 0) || (size m <=? i)) with false by (unfold inside in Hi; fold (size m) in Hi; lia). run_cell.
  unfold has_seq_id at 1. rewrite bool_decide_true by done. cbn [negb].
  destruct (leave_cell m i s W Hi Hin) as (m2 & E2 & S2 & Ec2 & Hu2 & Hh2).
  set (r := update_cell (fun c => with_ids (seq_id c ∖ {[ s ]}) c) i m) in *. clearbody r.
  destruct r as [m1|]; [|done]. revert E2. bind_simpl. destruct (cell_at (cells m1) i) as [c|]; [|done]. bind_simpl.
  intros ->. bind_simpl. assert (Esz : size m2 = size m) by (unfold size; by rewrite (proj1 S2)).
  rewrite Esz. destruct Hsi as [Hs1 Hs2]. fold (size m) in Hs2. replace (s <? size m) with true by lia.
  assert (Hsi2 : inside (cells m2) s) by (split; [done|fold (size m2); lia]). run_cell.
  assert (Et : tail (cell (cells m2) s) = i).
  { rewrite Ec2, cell_set by done. case_decide; [|done]. subst s. unfold left_cell. cbv zeta. by destruct (decide _). }
  pose proof (wf_size m W). rewrite Et, i32_small by (destruct Hi; unfold size in *; lia). rewrite Z.eqb_refl. run_cell.
  set (k := put_cell (cells m2) s _).
  assert (Hk : length k = length (cells m)) by (subst k; rewrite length_set; apply S2).
  assert (F : forgets {[ s ]} (cells m) k).
  { assert (E : forall j, cell k j = with_tail (if decide (j = s) then -1 else tail (cell (cells m) j))
      (if decide (j = i) then left_cell s (cell (cells m) i) else cell (cells m) j)).
    { intros j. subst k. rewrite cell_set, Ec2, !cell_set by done. clear - Hs.
      destruct (decide (j = s)) as [->|]; [done|]. destruct (decide (j = i)) as [->|]; unfold left_cell; cbv zeta;
        [destruct (decide _)|]; by destruct (cell (cells m) _). }
    clearbody k. apply (forgets_one _ s i); try done.
    - intros j. by rewrite E.
    - intros j Hj. rewrite E, (decide_False (P := j = i)) by done. by destruct (cell (cells m) j).
    - rewrite E, (decide_True (P := i = i)) by done. cbn [seq_id with_tail]. apply left_cell_ids.
    - rewrite E, (decide_True (P := i = i)) by done. cbn [seq_id pos src with_tail]. unfold left_cell. cbv zeta.
      destruct (decide (seq_id (with_ids (seq_id (cell (cells m) i) ∖ {[ s ]}) (cell (cells m) i)) = ∅)) as [He|He];
        [by rewrite decide_True|by rewrite decide_False]. }
  eexists. split_and!; [done| |split_and!; [done|apply S2..]|intros q; by apply (forgets_view _ (cells m))].
  apply (forgets_wf {[ s ]} m); [done..|split_and!; [done|apply S2..]| |done].
  simpl. rewrite Hu2. symmetry. apply count_ext; [apply length_set|]. intros j _. subst k. rewrite cell_set by done.
  by destruct (decide (j = s)) as [->|].
Qed.

(** ** Positions *)

Lemma foldl_filter {A B} (P : A -> Prop) `{!forall x, Decision (P x)} (g : B -> A -> B) r l :
  foldl (fun r c => if bool_decide (P c) then g r c else r) r l = foldl g r (filter P l).
Proof.
  revert r. induction l as [|c l IH]; intros r; [done|]. simpl. rewrite IH, filter_cons.
  case_bool_decide; by case_decide.
Qed.

(** A sequence is in one cell at most. *)
Lemma cells_of l s : cells_ok l ->
  filter (fun c => s ∈ seq_id c) l = if tail (cell l s) <? 0 then [] else [cell l (tail (cell l s))].
Proof.
  intros H. destruct (Z.ltb_spec (tail (cell l s)) 0) as [Ht|Ht].
  - apply filter_none. intros c (i & _ & <-)%elem_of_cells Hs. apply ids_tail in Hs; [lia|done].
  - destruct (tail_inside l s H Ht) as [Hi Hs]. set (t := tail (cell l s)) in *.
    assert (Hno : forall k x, l !! k = Some x -> s ∈ seq_id x -> k = Z.to_nat t).
    { intros k x Hk Hx. apply cell_lookup in Hk. rewrite <- Hk in Hx. apply ids_tail in Hx; [|done]. subst t. lia. }
    pose proof (take_drop_middle l _ _ (lookup_cell l t Hi)) as E. rewrite <- E at 1.
    rewrite filter_app, filter_cons_True by done.
    rewrite !filter_none; [done|..]; intros x [k Hk]%list_elem_of_lookup Hx.
    + rewrite lookup_drop in Hk. specialize (Hno _ _ Hk Hx). lia.
    + apply lookup_take_Some in Hk as [Hk Hlt]. specialize (Hno _ _ Hk Hx). lia.
Qed.

Lemma seq_pos_ok m s : wf m ->
  seq_pos_min m s = match view (cells m) s with Some (p, _) => p | None => -1 end /\
  seq_pos_max m s = match view (cells m) s with Some (p, _) => p | None => -1 end.
Proof.
  intros W. pose proof (wf_cells _ W) as H. unfold seq_pos_min, seq_pos_max, has_seq_id.
  rewrite !(foldl_filter (fun c => s ∈ seq_id c) (fun r c => Z.min r (pos c))).
  rewrite !(foldl_filter (fun c => s ∈ seq_id c) (fun r c => Z.max r (pos c))). rewrite cells_of by done. unfold view.
  destruct (Z.ltb_spec (tail (cell (cells m) s)) 0) as [|Ht]; [done|].
  destruct (view_at _ s H Ht) as [_ Hp]. cbn [foldl]. rewrite Z.min_r, Z.max_r by lia.
  split; [|done]. by replace (_ =? INT32_MAX) with false by lia.
Qed.

#[export] Instance recurrent_memory : Memory memory (fun _ => wf).
Proof.
  split. intros n m s W _. destruct (seq_pos_ok m s W) as [E1 E2]. exists (seq_pos_min m s), (seq_pos_max m s).
  split_and!; [done..|]. rewrite E1, E2. unfold view.
  destruct (Z.ltb_spec (tail (cell (cells m) s)) 0) as [|Ht]; [by left|].
  destruct (view_at _ s (wf_cells _ W) Ht) as [_ Hp]. right. unfold INT32_MAX in Hp. lia.
Qed.

(** ** The operations refine a specification over sequences *)

Inductive op :=
| Clear
| Rm (s p0 p1 : Z)
| Cp (s_src s_dst p0 p1 : Z)
| Keep (s : Z)
| Add (s p0 p1 shift : Z)
| Div (s p0 p1 d : Z).

Definition run_op (m : memory) (o : op) : R (memory * bool) :=
  let void r := (m ← (r : R memory); Ok (m, true)) in
  match o with
  | Clear => Ok (clear m, true)
  | Rm s p0 p1 => seq_rm m s p0 p1
  | Cp a b p0 p1 => void (seq_cp m a b p0 p1)
  | Keep s => Ok (seq_keep m s, true)
  | Add s p0 p1 d => void (seq_add m s p0 p1 d)
  | Div s p0 p1 d => void (seq_div m s p0 p1 d)
  end.

(** The sequences after an operation, and its answer, in a memory of [n_cells] cells
    and [n_rs] snapshots. *)
Definition spec_op (n_rs n_cells : Z) (o : op) (v : view_t) : view_t * bool :=
  match o with
  | Clear => (fun _ => None, true)
  | Rm s p0 p1 => spec_rm n_rs n_cells s p0 p1 v
  | Cp a b _ _ => (if a =? b then v else spec_cp a b v, true)
  | Keep s => (spec_keep s v, true)
  | Add s p0 p1 d => (if d =? 0 then v else spec_move n_cells s p0 p1 (fun p => p + d) v, true)
  | Div s p0 p1 d => (if d =? 1 then v else spec_move n_cells s p0 p1 (fun p => p / d) v, true)
  end.

(** Sequences that are copied have a cell number, positions stay positions, and all the
    sequences are not removed at once ([clear] does that). *)
Definition op_ok (n_cells : Z) (o : op) (v : view_t) : Prop :=
  match o with
  | Rm s p0 p1 => s < 0 -> everything (p0_of p0) (p1_of p1) = false
  | Cp a b _ _ => 0 <= a < n_cells /\ 0 <= b < n_cells
  | Add s p0 p1 d => moves_well n_cells s p0 p1 (fun p => p + d) v
  | Div s p0 p1 d => 0 < d
  | _ => True
  end.

Lemma run_op_ok m o : wf m -> op_ok (size m) o (view (cells m)) ->
  leads_to m (run_op m o) (spec_op (n_rs_seq m) (size m) o (view (cells m))).
Proof.
  assert (Hvoid : forall r v, (exists m', r = Ok m' /\ wf m' /\ same_dims m m' /\ forall q, view (cells m') q = v q) ->
    leads_to m (m ← r; Ok (m, true)) (v, true)).
  { intros r v (m' & -> & Hm'). by exists m'. }
  intros W Hok. destruct o as [|s p0 p1|a b p0 p1|s|s p0 p1 d|s p0 p1 d]; simpl in *.
  - exists (clear m). split; [done|]. by apply recurrent_clear_ok.
  - by apply recurrent_rm_ok.
  - apply Hvoid. destruct (Z.eqb_spec a b) as [->|Hab]; [|by apply recurrent_cp_ok; tauto].
    exists m. unfold seq_cp. rewrite Z.eqb_refl. by split_and!.
  - exists (seq_keep m s). split; [done|]. by apply recurrent_keep_ok.
  - by apply Hvoid, recurrent_add_ok.
  - by apply Hvoid, recurrent_div_ok.
Qed.

(** *** Runs of operations *)

Fixpoint run_ops (m : memory) (ops : list op) : R (memory * list bool) :=
  match ops with
  | [] => Ok (m, [])
  | o :: ops => r ← run_op m o; k ← run_ops r.1 ops; Ok (k.1, r.2 :: k.2)
  end.

Fixpoint spec_ops (n_rs n_cells : Z) (ops : list op) (v : view_t) : view_t * list bool :=
  match ops with
  | [] => (v, [])
  | o :: ops => let r := spec_op n_rs n_cells o v in let k := spec_ops n_rs n_cells ops r.1 in (k.1, r.2 :: k.2)
  end.

Fixpoint ops_ok (n_rs n_cells : Z) (ops : list op) (v : view_t) : Prop :=
  match ops with
  | [] => True
  | o :: ops => op_ok n_cells o v /\ ops_ok n_rs n_cells ops (spec_op n_rs n_cells o v).1
  end.

(** Sequences are compared one by one. *)
#[export] Instance forget_proper D : Proper (pointwise_relation Z eq ==> pointwise_relation Z eq) (forget D).
Proof. intros v w H s. unfold forget. by rewrite (H s). Qed.

#[export] Instance moved_proper X p : Proper (pointwise_relation Z eq ==> pointwise_relation Z eq) (moved X p).
Proof. intros v w H s. unfold moved. by rewrite (H s). Qed.

#[export] Instance spec_move_proper n s p0 p1 f : Proper (pointwise_relation Z eq ==> pointwise_relation Z eq) (spec_move n s p0 p1 f).
Proof.
  intros v w H. unfold spec_move. rewrite (H s). destruct (_ && _); [|done].
  destruct (w s) as [[p X]|]; [|done]. destruct (_ && _); [by apply moved_proper|done].
Qed.

#[export] Instance spec_op_proper n_rs n o :
  Proper (pointwise_relation Z eq ==> prod_relation (pointwise_relation Z eq) eq) (spec_op n_rs n o).
Proof.
  intros v w H. destruct o as [|s p0 p1|a b p0 p1|s|s p0 p1 d|s p0 p1 d]; simpl.
  - done.
  - unfold spec_rm. rewrite (H s). destruct (_ <=? _); [done|]. destruct (_ <? _); [done|].
    destruct (w s) as [[p X]|]; [|done]. destruct (negb _); [done|]. destruct (_ =? _); [split; [by apply forget_proper|done]|].
    destruct (_ <=? _); [split; [by apply moved_proper|done]|done].
  - split; [|done]. intros q. destruct (a =? b); [apply H|]. unfold spec_cp. rewrite (H a). cbn [fst].
    destruct (w a) as [[p X]|]; case_decide; try done; by apply forget_proper.
  - split; [|done]. intros q. unfold spec_keep. by rewrite (H s).
  - split; [|done]. destruct (d =? 0); [done|by apply spec_move_proper].
  - split; [|done]. destruct (d =? 1); [done|by apply spec_move_proper].
Qed.

Lemma op_ok_proper n o v w : pointwise_relation Z eq v w -> op_ok n o v -> op_ok n o w.
Proof. intros H. destruct o; simpl; try done. unfold moves_well. intros Hm p X Hs Hw. apply (Hm p X); [done|]. by rewrite (H s). Qed.

Lemma ops_ok_proper n_rs n ops v w : pointwise_relation Z eq v w -> ops_ok n_rs n ops v -> ops_ok n_rs n ops w.
Proof.
  revert v w. induction ops as [|o ops IH]; simpl; intros v w H; [done|]. intros [Ho Hops].
  split; [by eapply op_ok_proper|]. eapply IH; [|exact Hops]. by apply spec_op_proper.
Qed.

Lemma spec_ops_proper n_rs n ops v w :
  pointwise_relation Z eq v w ->
  (forall s, (spec_ops n_rs n ops v).1 s = (spec_ops n_rs n ops w).1 s) /\ (spec_ops n_rs n ops v).2 = (spec_ops n_rs n ops w).2.
Proof.
  revert v w. induction ops as [|o ops IH]; simpl; intros v w H; [done|].
  destruct (spec_op_proper n_rs n o v w H) as [H1 H2]. destruct (IH _ _ H1) as [H3 H4].
  split; [done|]. f_equal; [exact H2|done].
Qed.

(** C36: a recurrent memory run through any sequence of operations (removal of a range of
    a sequence, copies between sequences with a cell number, keeping one sequence, shifts that
    leave positions in their type, divisions by a positive number, clearing) ends,
    without an error, in a well-formed memory, and for every sequence the position of its state
    and the set of the sequences that share it, as well as every answer of the operations and of
    the queries of positions, are what the specification over sequences says. The removal
    of everything with a negative sequence is not among the operations: it leaves the tails
    ([removal_of_all_leaves_tails]). A range below the position of the state is answered with
    true and removes nothing ([range_before_the_state_is_kept]). *)
Theorem recurrent_refinement m ops :
  wf m -> ops_ok (n_rs_seq m) (size m) ops (view (cells m)) ->
  exists m', run_ops m ops = Ok (m', (spec_ops (n_rs_seq m) (size m) ops (view (cells m))).2) /\ wf m' /\ forall s,
    let v := (spec_ops (n_rs_seq m) (size m) ops (view (cells m))).1 s in
    view (cells m') s = v /\ mem_seq_pos_min m' s = Some (default (-1) (fst <$> v)) /\
    mem_seq_pos_max m' s = Some (default (-1) (fst <$> v)).
Proof.
  revert m. induction ops as [|o ops IH]; intros m W Hok; simpl.
  - exists m. split_and!; [done..|]. intros s. destruct (seq_pos_ok m s W) as [-> ->]. by destruct (view (cells m) s) as [[]|].
  - destruct Hok as [Ho Hops]. destruct (run_op_ok m o W Ho) as (m1 & -> & W1 & (S1 & S2 & S3) & V1). bind_simpl. cbn [fst snd].
    assert (E : n_rs_seq m1 = n_rs_seq m /\ size m1 = size m) by (unfold size; by rewrite S1). destruct E as [E1 E2].
    destruct (IH m1 W1) as (m' & -> & W' & V'); rewrite E1, E2 in *.
    { eapply ops_ok_proper; [|exact Hops]. intros s. symmetry. apply V1. }
    bind_simpl. cbn [fst snd]. destruct (spec_ops_proper (n_rs_seq m) (size m) ops _ _ V1) as [P1 P2]. rewrite P2.
    exists m'. split_and!; [done..|]. intros s. rewrite <- P1. apply V'.
Qed.

(** *** An example *)

(** The invariant of a concrete memory, cell by cell. *)
Definition check_cell (l : list mem_cell) (i : Z) : bool :=
  let c := cell l i in
  forallb (fun s => (0 <=? s) && (tail (cell l s) =? i)) (elements (seq_id c)) &&
  ((tail c =? -1) || (0 <=? tail c) && has_seq_id (cell l (tail c)) i) &&
  (if is_empty c then (pos c =? -1) && ((src c =? -1) || (src c =? i))
   else (0 <=? pos c) && (pos c <? INT32_MAX) && (src c =? i)).

Lemma cells_ok_check l : forallb (check_cell l) (seqZ 0 (Z.of_nat (length l))) = true -> cells_ok l.
Proof.
  rewrite forallb_forall. intros H.
  assert (Hin : forall i, inside l i -> check_cell l i = true).
  { intros i Hi. apply H, list_elem_of_In, elem_of_seqZ. unfold inside in Hi. lia. }
  clear H. unfold check_cell, has_seq_id, is_empty in Hin.
  split.
  - intros s i Hi. split.
    + intros Hs. specialize (Hin i (ids_inside l i s Hs)). apply andb_true_iff in Hin as [[Hin _]%andb_true_iff _].
      rewrite forallb_forall in Hin. apply elem_of_elements, list_elem_of_In, Hin in Hs. lia.
    + intros Ht. destruct (decide (inside l s)) as [Hs|Hs]; [|rewrite cell_outside in Ht by done; simpl in Ht; lia].
      specialize (Hin s Hs). apply andb_true_iff in Hin as [[_ Hin]%andb_true_iff _].
      rewrite Ht in Hin. replace (i =? -1) with false in Hin by lia. simpl in Hin.
      apply andb_true_iff in Hin as [_ Hin]. by apply bool_decide_eq_true in Hin.
  - intros s. destruct (decide (inside l s)) as [Hs|Hs]; [|by rewrite cell_outside].
    specialize (Hin s Hs). lia.
  - intros i He. destruct (decide (inside l i)) as [Hs|Hs]; [|rewrite cell_outside by done; split; [done|by left]].
    specialize (Hin i Hs). rewrite (bool_decide_true (seq_id (cell l i) = ∅)) in Hin by done. lia.
  - intros i He. destruct (decide (inside l i)) as [Hs|Hs]; [|by rewrite cell_outside in He].
    specialize (Hin i Hs). rewrite (bool_decide_false (seq_id (cell l i) = ∅)) in Hin by done. lia.
  - intros i He. destruct (decide (inside l i)) as [Hs|Hs]; [|by rewrite cell_outside in He].
    specialize (Hin i Hs). rewrite (bool_decide_false (seq_id (cell l i) = ∅)) in Hin by done. lia.
Qed.

(** Four cells: sequences 0 and 2 share cell 1, at position 9, and sequence 1 is in cell 3, at
    position 4; two snapshots. *)
Definition example_memory : memory :=
  mk_memory 1 2 2 [0; 0; 0; 0] 3 2
    [mk_cell (-1) (-1) (-1) 1 ∅; mk_cell 9 1 1 3 {[ 0; 2 ]}; mk_cell (-1) 2 2 1 ∅; mk_cell 4 3 3 (-1) {[ 1 ]}].

Lemma example_wf : wf example_memory.
Proof. split; [by apply cells_ok_check|..]; by vm_compute. Qed.

Definition example_ops : list op :=
  [Cp 1 3 (-1) (-1); Rm 0 9 (-1); Rm 0 2 5; Add 3 0 (-1) 10; Keep 3; Rm 3 (-1) (-1)].

Lemma recurrent_refinement_witness :
  exists m', run_ops example_memory example_ops = Ok (m', [true; true; true; true; true; true]) /\ wf m' /\ forall s,
    let v := (spec_ops 2 4 example_ops (view (cells example_memory))).1 s in
    view (cells m') s = v /\ mem_seq_pos_min m' s = Some (default (-1) (fst <$> v)) /\
    mem_seq_pos_max m' s = Some (default (-1) (fst <$> v)).
Proof.
  apply (recurrent_refinement example_memory example_ops example_wf). simpl. split_and!; try done.
  intros p X _ Hv _. vm_compute in Hv. injection Hv as <- _. by vm_compute.
Defined.

(** A second rollback forgets the first: two tokens are taken off sequence 1, one at a
    time, and its state would be read from the first snapshot, not from the second. *)
Example rollbacks_do_not_add_up :
  exists m', run_ops example_memory [Rm 1 4 (-1); Rm 1 3 (-1)] = Ok (m', [true; true]) /\
    seq_pos_max m' 1 = 2 /\ rs_idx m' !! 1%nat = Some 1.
Proof. eexists. split; [vm_compute; reflexivity|]. by vm_compute. Qed.

(** A rollback of a sequence that shares its state takes the others back too. *)
Example rollback_of_a_shared_state :
  exists m', run_ops example_memory [Rm 0 9 (-1)] = Ok (m', [true]) /\
    seq_pos_max m' 2 = 8 /\ rs_idx m' = [1; 0; 0; 0].
Proof. eexists. split; [vm_compute; reflexivity|]. by vm_compute. Qed.

(** A range before the position of the state is not removed, and the answer is true. *)
Example range_before_the_state_is_kept :
  exists m', run_ops example_memory [Rm 0 2 5] = Ok (m', [true]) /\ cells m' = cells example_memory /\
    seq_pos_max m' 0 = 9 /\ can_seq_rm example_memory 0 2 5 = Ok true.
Proof. eexists. split; [vm_compute; reflexivity|]. by vm_compute. Qed.

(** Removing everything of all sequences leaves tails that point to free cells. *)
Example removal_of_all_leaves_tails :
  exists m', seq_rm example_memory (-1) (-1) (-1) = Ok (m', true) /\
    tail (cell (cells m') 0) = 1 /\ seq_id (cell (cells m') 1) = ∅.
Proof. eexists. split; [vm_compute; reflexivity|]. by vm_compute. Qed.

End RecurrentOps.
