(* ===== verification/RecurrentSlot.v ===== *)
(** A ubatch of a recurrent model finds its cells: none of the assertions of the
    placement fails when the sequences have a cell number and belong to one set of
    the ubatch, the sets get consecutive cells in their order, and the other sequences keep
    their positions.  This file goes as far as the cells of the sets: the sequences that
    become shared leave their cells, and each set gets a cell of its own. *)

From S2P Require Import Prelude.
From S2P Require Import Memory.
From S2P Require Import Batch.
From S2P Require Import Recurrent.
From S2P Require Import RecurrentWf.

Module RecurrentSlot.
Import Recurrent.
Import RecurrentWf.

(** ** The ubatch *)

Section Ubatch.
Context {float : Type}.

(** The sequences of each set, the first of which stands for it, and the last position
    of each. *)
Record ubatch_ok (n_cells : Z) (ub : Batch.llama_ubatch float) (sets : list (Z * list Z)) (lasts : list Z) : Prop :=
  mk_ubatch_ok {
  ub_equal : Batch.u_equal_seqs ub = true;
  ub_n : Batch.u_n_seqs ub = length sets;
  ub_lasts : length lasts = length sets;
  ub_set : forall k q rest, sets !! k = Some (q, rest) -> set_ids ub k = Ok (q :: rest);
  ub_pos : forall k p, lasts !! k = Some p -> last_pos ub k = Ok p /\ 0 <= p < INT32_MAX;
  ub_nodup : NoDup ((fst <$> sets) ++ (sets ≫= snd));
  ub_range : forall s, s ∈ (fst <$> sets) ++ (sets ≫= snd) -> 0 <= s < n_cells;
  ub_some : sets <> [];
}.

Lemma first_id_ok n_cells ub sets lasts k q rest :
  ubatch_ok n_cells ub sets lasts -> sets !! k = Some (q, rest) -> first_id ub k = Ok q.
Proof. intros U Hk. unfold first_id. by rewrite (ub_set _ _ _ _ U _ _ _ Hk). Qed.

(** *** Sequences that become shared *)

Lemma clear_shared_ok m j ids :
  wf m -> Forall (fun s => 0 <= s < size m) ids ->
  exists m', clear_shared m (S j) ids = Ok (m', true) /\ wf m' /\ same_dims m m' /\ head m' = head m /\ rs_idx m' = rs_idx m /\
    forgets (list_to_set ids) (cells m) (cells m').
Proof.
  revert m j. induction ids as [|s ids IH]; intros m j W HF; cbn [clear_shared].
  - exists m. split_and!; try done. apply forgets_refl, W.
  - apply Forall_cons in HF as [Hs HF]. replace ((s <? 0) || (size m <=? s)) with false by lia.
    cbn [Nat.ltb Nat.leb]. destruct (drop_tail_ok s m W Hs) as (m1 & -> & W1 & S1 & Hh1 & Hr1 & F1). bind_simpl.
    assert (E1 : size m1 = size m) by by apply same_size.
    destruct (IH m1 (S j) W1) as (m' & -> & W' & S' & Hh' & Hr' & F'); [by rewrite E1|].
    exists m'. split_and!; try congruence; try done; [by eapply same_dims_trans|]. cbn [list_to_set]. by eapply forgets_trans.
Qed.

Lemma clear_sets_ok m ub sets lasts done todo :
  wf m -> ubatch_ok (size m) ub sets lasts -> sets = done ++ todo ->
  exists m', clear_sets m ub (List.seq (length done) (length todo)) = Ok (m', true) /\ wf m' /\ same_dims m m' /\
    head m' = head m /\ rs_idx m' = rs_idx m /\ forgets (list_to_set (todo ≫= snd)) (cells m) (cells m').
Proof.
  revert m done. induction todo as [|[q rest] todo IH]; intros m don W U E; cbn [clear_sets List.seq length].
  - exists m. split_and!; try done. apply forgets_refl, W.
  - assert (Hk : sets !! length don = Some (q, rest)) by (rewrite E; by apply list_lookup_middle).
    rewrite (ub_set _ _ _ _ U _ _ _ Hk). bind_simpl. cbn [clear_shared].
    assert (Hr : forall s, s = q \/ s ∈ rest -> 0 <= s < size m).
    { intros s Hs. apply (ub_range _ _ _ _ U). apply list_elem_of_lookup_2 in Hk. apply elem_of_app.
      destruct Hs as [->|Hs]; [left; by apply (list_elem_of_fmap_2' _ _ (q, rest))|right].
      apply list_elem_of_bind. by exists (q, rest). }
    specialize (Hr q (or_introl eq_refl)) as Hq. replace ((q <? 0) || (size m <=? q)) with false by lia.
    cbn [Nat.ltb Nat.leb]. bind_simpl.
    destruct (clear_shared_ok m 0 rest W) as (m1 & -> & W1 & S1 & Hh1 & Hr1 & F1); [apply Forall_forall; auto|]. bind_simpl. cbn [fst snd].
    assert (E1 : size m1 = size m) by by apply same_size.
    destruct (IH m1 (don ++ [(q, rest)]) W1) as (m' & Em & W' & S' & Hh' & Hr' & F'); [by rewrite E1|by rewrite <- app_assoc|].
    rewrite length_app in Em. cbn [length] in Em. rewrite Nat.add_1_r in Em.
    exists m'. split_and!; try congruence; try done; [by eapply same_dims_trans|].
    cbn [mbind list_bind]. rewrite list_to_set_app_L. by eapply forgets_trans.
Qed.

End Ubatch.

(** ** The search for an empty cell *)

(** The cell [o] places after [h], going round. *)
Definition around (n h o : Z) : Z := (h + o) mod n.

Lemma around_range n h o : 0 < n -> 0 <= around n h o < n.
Proof. intros. by apply Z.mod_pos_bound. Qed.

Lemma around_inj n h o1 o2 : 0 < n -> 0 <= o1 < n -> 0 <= o2 < n -> around n h o1 = around n h o2 -> o1 = o2.
Proof.
  intros Hn H1 H2 E. unfold around in E.
  assert (E' : (o1 - o2) mod n = 0).
  { replace (o1 - o2) with ((h + o1) - (h + o2)) by lia. rewrite Zminus_mod, E, Z.sub_diag. apply Z.mod_0_l. lia. }
  apply Z.mod_divide in E' as [k Hk]; [|lia]. destruct (Z.eq_dec k 0); [lia|].
  assert (k >= 1 \/ k <= -1) as [?|?] by lia; nia.
Qed.

Lemma around_onto n h i : 0 < n -> 0 <= i < n -> exists o, 0 <= o < n /\ around n h o = i.
Proof.
  intros Hn Hi. exists ((i - h) mod n). split; [by apply Z.mod_pos_bound|]. unfold around.
  rewrite Zplus_mod_idemp_r. replace (h + (i - h)) with i by lia. by apply Z.mod_small.
Qed.

Lemma around_succ n h o : 0 < n -> around n h (o + 1) = if n <=? around n h o + 1 then around n h o + 1 - n else around n h o + 1.
Proof.
  intros Hn. pose proof (around_range n h o Hn) as Hr. unfold around in *. rewrite Z.add_assoc, <- Zplus_mod_idemp_l.
  destruct (Z.leb_spec n ((h + o) mod n + 1)).
  - replace ((h + o) mod n + 1) with n by lia. rewrite Z_mod_same_full. lia.
  - apply Z.mod_small. lia.
Qed.

(** What a search ends with, if some cell in its way is empty: the first one. *)
Definition finds (l : list mem_cell) (h a : Z) (r : R Z) : Prop :=
  exists i, r = Ok i /\ forall o, a <= o < Z.of_nat (length l) -> seq_id (cell l (around (Z.of_nat (length l)) h o)) = ∅ ->
    exists o', a <= o' <= o /\ i = around (Z.of_nat (length l)) h o' /\ seq_id (cell l i) = ∅ /\
      forall o'', a <= o'' < o' -> seq_id (cell l (around (Z.of_nat (length l)) h o'')) <> ∅.

Section Search.
Context (l : list mem_cell) (h : Z) (Hl : 0 < Z.of_nat (length l)).
Abbreviation at_off := (around (Z.of_nat (length l)) h).

Lemma off_inside o : inside l (at_off o).
Proof. by apply around_range. Qed.

(** With [fuel] steps from offset [a] the search sees the offsets below [a + fuel]. *)
Lemma next_empty_after_ok fuel a :
  exists i, next_empty_after fuel l (at_off a) = Ok i /\
    forall o, a < o <= a + Z.of_nat fuel -> seq_id (cell l (at_off o)) = ∅ ->
      exists o', a < o' <= o /\ i = at_off o' /\ seq_id (cell l i) = ∅ /\
        forall o'', a < o'' < o' -> seq_id (cell l (at_off o'')) <> ∅.
Proof.
  revert a. induction fuel as [|fuel IH]; intros a; cbn [next_empty_after].
  - eexists. split; [done|]. intros o Ho. lia.
  - rewrite <- (around_succ (Z.of_nat (length l)) h a Hl). rewrite cell_at_ok by apply off_inside. bind_simpl.
    unfold is_empty. case_bool_decide as He.
    + eexists. split; [done|]. intros o Ho _. exists (a + 1). split_and!; [lia..|done|done|]. intros o'' ?. lia.
    + destruct (IH (a + 1)) as (i & Ei & Hi). exists i. split; [done|]. intros o Ho Hoe.
      assert (o <> a + 1) by congruence. destruct (Hi o) as (o' & Ho' & Eo' & He' & Hb'); [lia|done|].
      exists o'. split_and!; [lia..|done|done|]. intros o'' Ho''. destruct (Z.eq_dec o'' (a + 1)) as [->|]; [done|apply Hb'; lia].
Qed.

Lemma search_after a : 0 <= a -> finds l h (a + 1) (next_empty_after (length l) l (at_off a)).
Proof.
  intros Ha. destruct (next_empty_after_ok (length l) a) as (i & Ei & Hi). exists i. split; [done|].
  intros o Ho He. destruct (Hi o) as (o' & H1 & H2 & H3 & H4); [lia|done|]. exists o'. split_and!; [lia..|done|done|].
  intros o'' ?. apply H4. lia.
Qed.

Lemma next_empty_ok fuel a j :
  (j = at_off a \/ j = Z.of_nat (length l) /\ at_off a = 0) ->
  exists i, next_empty fuel l j = Ok i /\
    forall o, a <= o < a + Z.of_nat fuel -> seq_id (cell l (at_off o)) = ∅ ->
      exists o', a <= o' <= o /\ i = at_off o' /\ seq_id (cell l i) = ∅ /\
        forall o'', a <= o'' < o' -> seq_id (cell l (at_off o'')) <> ∅.
Proof.
  revert a j. induction fuel as [|fuel IH]; intros a j Hj; cbn [next_empty].
  - eexists. split; [done|]. intros o Ho. lia.
  - assert (Ej : (if Z.of_nat (length l) <=? j then j - Z.of_nat (length l) else j) = at_off a).
    { pose proof (off_inside a) as [? ?]. destruct Hj as [->|[-> Hj]]; [by replace (_ <=? _) with false by lia|].
      replace (_ <=? _) with true by lia. lia. }
    rewrite Ej. rewrite cell_at_ok by apply off_inside. bind_simpl. unfold is_empty. case_bool_decide as He.
    + eexists. split; [done|]. intros o Ho _. exists a. split_and!; [lia..|done|done|]. intros o'' ?. lia.
    + destruct (IH (a + 1) (at_off a + 1)) as (i & Ei & Hi).
      { pose proof (off_inside a) as [? ?]. rewrite around_succ by done. destruct (Z.leb_spec (Z.of_nat (length l)) (at_off a + 1)); [right; lia|by left]. }
      exists i. split; [done|]. intros o Ho Hoe. assert (o <> a) by congruence.
      destruct (Hi o) as (o' & Ho' & Eo' & He' & Hb'); [lia|done|].
      exists o'. split_and!; [lia..|done|done|]. intros o'' Ho''. destruct (Z.eq_dec o'' a) as [->|]; [done|apply Hb'; lia].
Qed.

Lemma search : 0 <= h <= Z.of_nat (length l) -> finds l h 0 (next_empty (length l) l h).
Proof.
  intros Hh. destruct (next_empty_ok (length l) 0 h) as (i & Ei & Hi).
  { unfold around. rewrite Z.add_0_r. destruct (Z.eq_dec h (Z.of_nat (length l))) as [->|]; [right|left].
    - split; [done|]. apply Z_mod_same_full.
    - symmetry. apply Z.mod_small. lia. }
  exists i. split; [done|]. intros o Ho He. destruct (Hi o) as (o' & H1 & H2 & H3 & H4); [lia|done|]. by exists o'.
Qed.

End Search.

(** A function of the elements of a list but one does not reach all of them. *)
Lemma not_onto (l : list Z) (f : Z -> Z) x :
  NoDup l -> x ∈ l -> (forall y, y ∈ l -> exists z, z ∈ l /\ z <> x /\ f z = y) -> False.
Proof.
  intros Hnd Hx H. assert (Hsub : l ⊆+ (f <$> filter (fun z => z <> x) l)).
  { apply NoDup_submseteq; [done|]. intros y (z & Hz & Hzx & <-)%H. apply list_elem_of_fmap. exists z.
    split; [done|]. by apply list_elem_of_filter. }
  apply submseteq_length in Hsub. rewrite length_fmap in Hsub.
  pose proof (length_filter_lt (fun z => z <> x) l x Hx) as Hlt. specialize (Hlt ltac:(tauto)). lia.
Qed.

(** Not every cell can be the tail of one of the others. *)
Lemma some_cell_is_no_tail l q :
  inside l q -> (forall i, inside l i -> exists s, inside l s /\ s <> q /\ tail (cell l s) = i) -> False.
Proof.
  intros Hq H. assert (Hin : forall i, i ∈ seqZ 0 (Z.of_nat (length l)) <-> inside l i).
  { intros i. rewrite elem_of_seqZ. unfold inside. lia. }
  apply (not_onto (seqZ 0 (Z.of_nat (length l))) (fun s => tail (cell l s)) q); [apply NoDup_seqZ|by apply Hin|].
  intros i (s & Hs & ?)%Hin%H. exists s. by rewrite Hin.
Qed.

(** ** A cell of its own for each set *)

Section Place.
(** The cells before the first set, and the first sequences of the sets placed so far. *)
Context (l1 : list mem_cell) (H1 : cells_ok l1).

Definition tails (ds : list Z) (l : list mem_cell) : list Z := (fun s => tail (cell l s)) <$> ds.

Lemma elem_of_tails ds l i : i ∈ tails ds l <-> exists s, s ∈ ds /\ tail (cell l s) = i.
Proof. unfold tails. rewrite list_elem_of_fmap. naive_solver. Qed.

(** A sequence that is placed for the first time points to a cell that does not list it yet. *)
Record placed (ds : list Z) (l : list mem_cell) (mn mx : Z) : Prop := mk_placed {
  pc_len : length l = length l1;
  pc_tail : forall s, s ∉ ds -> tail (cell l s) = tail (cell l1 s);
  pc_in : forall s, s ∈ ds -> inside l (tail (cell l s)) /\ mn <= tail (cell l s) <= mx;
  pc_nodup : NoDup (tails ds l);
  pc_ids : forall s i, s ∈ seq_id (cell l i) <-> 0 <= i /\ tail (cell l s) = i /\ 0 <= tail (cell l1 s);
  pc_own : forall s, s ∈ ds -> seq_id (cell l (tail (cell l s))) ⊆ {[ s ]};
  pc_state : forall s, 0 <= tail (cell l1 s) ->
    pos (cell l (tail (cell l s))) = pos (cell l1 (tail (cell l1 s))) /\
    src (cell l (tail (cell l s))) = src (cell l1 (tail (cell l1 s)));
  pc_empty : forall i, seq_id (cell l i) = ∅ ->
    seq_id (cell l1 i) = ∅ /\ pos (cell l i) = pos (cell l1 i) /\ src (cell l i) = src (cell l1 i);
  pc_bounds : 0 <= mn < Z.of_nat (length l) /\ 0 <= mx < Z.of_nat (length l);
  pc_tight : if decide (ds = []) then mn = Z.of_nat (length l) - 1 /\ mx = 0 else mn ∈ tails ds l /\ mx ∈ tails ds l;
}.

Lemma placed_nil : 0 < Z.of_nat (length l1) -> placed [] l1 (Z.of_nat (length l1) - 1) 0.
Proof.
  intros Hl. split; intros; try done; try set_solver; [constructor| |lia].
  split.
  - intros Hs. destruct (ids_tail _ _ _ H1 Hs) as [Hi <-]. done.
  - intros (Hi & Ht & _). by apply (co_link _ H1).
Qed.

Definition lower (mn t : Z) : Z := if t <? mn then t else mn.
Definition raise (mx t : Z) : Z := if mx <? t then t else mx.

Lemma lower_spec mn t : lower mn t <= mn /\ lower mn t <= t /\ (lower mn t = mn \/ lower mn t = t).
Proof. unfold lower. destruct (Z.ltb_spec t mn); lia. Qed.

Lemma raise_spec mx t : mx <= raise mx t /\ t <= raise mx t /\ (raise mx t = mx \/ raise mx t = t).
Proof. unfold raise. destruct (Z.ltb_spec mx t); lia. Qed.

Lemma tight_step ds q (l k : list mem_cell) mn mx t :
  (if decide (ds = []) then mn = Z.of_nat (length l) - 1 /\ mx = 0 else mn ∈ tails ds l /\ mx ∈ tails ds l) ->
  inside l t -> length k = length l -> (forall i, i ∈ tails (ds ++ [q]) k <-> i ∈ tails ds l \/ i = t) ->
  if decide (ds ++ [q] = []) then lower mn t = Z.of_nat (length k) - 1 /\ raise mx t = 0
  else lower mn t ∈ tails (ds ++ [q]) k /\ raise mx t ∈ tails (ds ++ [q]) k.
Proof.
  intros H [Ht0 Htn] Hlen Hin. rewrite decide_False by (by destruct ds). rewrite !Hin. unfold lower, raise.
  destruct (decide (ds = [])) as [->|].
  - destruct H as [-> ->]. destruct (Z.ltb_spec t (Z.of_nat (length l) - 1)), (Z.ltb_spec 0 t); split; right; lia.
  - destruct (t <? mn), (mx <? t); tauto.
Qed.

(** The set keeps its cell. *)
Lemma placed_own ds l mn mx q :
  placed ds l mn mx -> q ∉ ds -> 0 <= tail (cell l1 q) ->
  seq_id (cell l (tail (cell l q))) = {[ q ]} ->
  let t := tail (cell l q) in placed (ds ++ [q]) l (lower mn t) (raise mx t).
Proof.
  intros P Hq Htq Hown t. pose proof (lower_spec mn t) as Hlo. pose proof (raise_spec mx t) as Hra.
  assert (Ht : inside l t) by (apply (ids_inside l t q); unfold t; rewrite Hown; set_solver).
  split; try apply P.
  - intros s Hs. apply (pc_tail _ _ _ _ P). set_solver.
  - intros s [Hs| ->%list_elem_of_singleton]%elem_of_app; [|subst t; split; [done|lia]].
    destruct (pc_in _ _ _ _ P s Hs) as [Hi Hr]. split; [done|lia].
  - unfold tails. rewrite fmap_app. apply NoDup_app. split_and!; [apply P| |apply NoDup_singleton].
    intros i Hi Hi'. apply list_elem_of_singleton in Hi' as ->. apply elem_of_tails in Hi as (s & Hs & E).
    pose proof (pc_own _ _ _ _ P s Hs) as Ho. rewrite E, Hown in Ho. set_solver.
  - intros s [Hs| ->%list_elem_of_singleton]%elem_of_app; [by apply P|by rewrite Hown].
  - pose proof (pc_bounds _ _ _ _ P). unfold inside in Ht. lia.
  - eapply tight_step; [apply P|exact Ht|done|]. intros i. unfold tails. rewrite fmap_app, elem_of_app. simpl. by rewrite list_elem_of_singleton.
Qed.

Definition free (ds : list Z) (l : list mem_cell) (i : Z) : Prop :=
  inside l i /\ seq_id (cell l i) = ∅ /\ i ∉ tails ds l.

(** The set moves to a free cell. *)
Definition moves (l : list mem_cell) (q t e : Z) (k : list mem_cell) : Prop :=
  length k = length l /\ forall i, cell k i = with_tail (if decide (i = q) then e else tail (cell l i))
    (if decide (i = e /\ 0 <= t) then with_state (pos (cell l t)) (src (cell l t)) {[ q ]} (cell l e)
     else if decide (i = t /\ 0 <= t) then with_ids (seq_id (cell l t) ∖ {[ q ]}) (cell l t) else cell l i).

Lemma moves_fields l q t e k : moves l q t e k ->
  (forall i, tail (cell k i) = if decide (i = q) then e else tail (cell l i)) /\
  (forall i, seq_id (cell k i) = if decide (i = e /\ 0 <= t) then {[ q ]} else
             if decide (i = t /\ 0 <= t) then seq_id (cell l t) ∖ {[ q ]} else seq_id (cell l i)) /\
  (forall i, pos (cell k i) = if decide (i = e /\ 0 <= t) then pos (cell l t) else pos (cell l i)) /\
  (forall i, src (cell k i) = if decide (i = e /\ 0 <= t) then src (cell l t) else src (cell l i)).
Proof.
  intros [_ E]. split_and!; intros i; rewrite E; simpl; [done|..].
  all: destruct (decide (i = e /\ 0 <= t)); simpl; [done|].
  all: destruct (decide (i = t /\ 0 <= t)) as [[-> _]|]; by simpl.
Qed.

Lemma placed_move ds l mn mx q e k :
  placed ds l mn mx -> q ∉ ds -> free ds l e ->
  (0 <= tail (cell l1 q) -> seq_id (cell l (tail (cell l q))) <> {[ q ]}) ->
  moves l q (tail (cell l q)) e k -> placed (ds ++ [q]) k (lower mn e) (raise mx e).
Proof.
  intros P Hq (Hei & Hee & Het) Hown M. pose proof (lower_spec mn e) as Hlo. pose proof (raise_spec mx e) as Hra.
  pose proof (pc_tail _ _ _ _ P q Hq) as Etq. pose proof (proj1 M) as Hlen. apply moves_fields in M as (Et & Ei & Ep & Es).
  set (t := tail (cell l q)) in *. pose proof (proj1 Hei) as He0.
  assert (Hne : forall s, 0 <= tail (cell l1 s) -> tail (cell l s) <> e).
  { intros s Hs E. assert (s ∈ seq_id (cell l e)) by (by apply (pc_ids _ _ _ _ P)). set_solver. }
  assert (Htq : 0 <= t -> q ∈ seq_id (cell l t)) by (intros H0; apply (pc_ids _ _ _ _ P); split; [done|]; split; [done|lia]).
  split.
  - by rewrite Hlen, (pc_len _ _ _ _ P).
  - intros s Hs. rewrite Et, decide_False by set_solver. apply (pc_tail _ _ _ _ P). set_solver.
  - intros s Hs. unfold inside. rewrite Hlen, Et. destruct (decide (s = q)) as [->|Hsq]; [split; [done|lia]|].
    destruct (pc_in _ _ _ _ P s) as [Hi Hr]; [set_solver|]. split; [done|lia].
  - unfold tails. rewrite fmap_app. apply NoDup_app.
    assert (Eds : (fun s => tail (cell k s)) <$> ds = tails ds l).
    { apply list_fmap_ext. intros j s Hs. rewrite Et, decide_False; [done|]. intros ->. by apply list_elem_of_lookup_2 in Hs. }
    rewrite Eds. split_and!; [apply P| |apply NoDup_singleton]. simpl. rewrite Et, decide_True by done.
    intros i Hi ->%list_elem_of_singleton. done.
  - intros s i. rewrite Ei, Et. pose proof (pc_ids _ _ _ _ P s i) as Hs. pose proof (Hne s) as Hns.
    destruct (decide (i = e /\ 0 <= t)) as [[-> Ht]|Hi].
    + rewrite elem_of_singleton. destruct (decide (s = q)) as [->|]; [split; [intros _; split_and!; [done|done|lia]|done]|]. tauto.
    + destruct (decide (i = t /\ 0 <= t)) as [[-> Ht]|Hi'].
      * rewrite elem_of_difference, elem_of_singleton, Hs. destruct (decide (s = q)) as [->|]; [|tauto].
        split; [tauto|]. intros (_ & Ee & _). assert (t <> e) by (apply Hne; lia). congruence.
      * rewrite Hs. destruct (decide (s = q)) as [->|]; [|done]. fold t. split; intros (Hi0 & E & Hq0); exfalso; lia.
  - intros s Hs. rewrite Et. destruct (decide (s = q)) as [->|Hsq].
    + rewrite Ei. destruct (decide (e = e /\ 0 <= t)); [done|]. destruct (decide (e = t /\ 0 <= t)); [tauto|]. by rewrite Hee.
    + assert (Hs' : s ∈ ds) by set_solver. pose proof (pc_own _ _ _ _ P s Hs') as Ho. rewrite Ei.
      rewrite decide_False by (intros [E _]; apply Het, elem_of_tails; eauto).
      destruct (decide (tail (cell l s) = t /\ 0 <= t)) as [[E _]|]; [rewrite E in Ho; set_solver|done].
  - intros s Hs. rewrite Et, Ep, Es. destruct (decide (s = q)) as [->|Hsq].
    + rewrite !decide_True by lia. by apply (pc_state _ _ _ _ P).
    + rewrite !decide_False by (intros [E _]; by apply (Hne s)). by apply (pc_state _ _ _ _ P).
  - intros i Hi. rewrite Ei in Hi. rewrite Ep, Es. destruct (decide (i = e /\ 0 <= t)) as [|Hi']; [set_solver|].
    apply (pc_empty _ _ _ _ P). destruct (decide (i = t /\ 0 <= t)) as [[-> Ht]|]; [|done].
    exfalso. apply Hown; [lia|]. specialize (Htq Ht). apply set_eq. intros s. destruct (decide (s = q)); set_solver.
  - pose proof (pc_bounds _ _ _ _ P). unfold inside in Hei. rewrite Hlen. lia.
  - eapply tight_step; [apply P|exact Hei|done|]. intros i. unfold tails. rewrite fmap_app, elem_of_app. simpl.
    rewrite list_elem_of_singleton, Et, decide_True by done.
    assert (Eds : (fun s => tail (cell k s)) <$> ds = tails ds l); [|by rewrite Eds].
    apply list_fmap_ext. intros j s Hs. rewrite Et, decide_False; [done|]. intros ->. by apply list_elem_of_lookup_2 in Hs.
Qed.

(** *** The next empty cell *)

Section Next.
Context (h : Z).
Abbreviation n := (Z.of_nat (length l1)).
Abbreviation at_off := (around n h).

(** The empty cells that were given away come before those that are free, from [h] on, and
    the next one is the first of these. *)
Record next_ok (ds : list Z) (l : list mem_cell) (next : Z) : Prop := mk_next_ok {
  nx_order : forall o1 o2, 0 <= o1 < n -> 0 <= o2 < n -> seq_id (cell l (at_off o1)) = ∅ -> at_off o1 ∈ tails ds l ->
    free ds l (at_off o2) -> o1 < o2;
  nx_next : (exists i, free ds l i) -> exists o, 0 <= o < n /\ next = at_off o /\ free ds l next /\
    forall o', 0 <= o' < o -> ~ free ds l (at_off o');
}.

Lemma next_nil next : finds l1 h 0 (Ok next) -> next_ok [] l1 next.
Proof.
  intros (i & [= <-] & Hf). split; [intros; set_solver|]. intros (i & Hi & He & _).
  destruct (around_onto n h i) as (o & Ho & Eo); [unfold inside in Hi; lia..|].
  destruct (Hf o Ho) as (o' & Ho' & En & Hen & Hb); [by rewrite Eo|]. exists o'. split_and!; [lia..|done| |].
  - split_and!; [|done|set_solver]. rewrite En. apply off_inside. unfold inside in Hi. lia.
  - intros o'' Ho'' (_ & He'' & _). by apply (Hb o''); [lia|].
Qed.

Lemma next_own ds l next q : next_ok ds l next -> seq_id (cell l (tail (cell l q))) <> ∅ -> next_ok (ds ++ [q]) l next.
Proof.
  intros N Hq.
  assert (Ht : forall i, seq_id (cell l i) = ∅ -> (i ∈ tails (ds ++ [q]) l <-> i ∈ tails ds l)).
  { intros i Hi. unfold tails. rewrite fmap_app, elem_of_app. simpl. rewrite list_elem_of_singleton. split; [|tauto].
    intros [?| ->]; [done|]. done. }
  assert (Hf : forall i, free (ds ++ [q]) l i <-> free ds l i).
  { intros i. unfold free. split; intros (H2 & H3 & H4); rewrite Ht in * by done; tauto. }
  split.
  - intros o1 o2 ? ? He Hi F. apply (nx_order _ _ _ N); [done..|by apply Ht|by apply Hf].
  - intros (i & Hi). destruct (nx_next _ _ _ N) as (o & Ho & E & F & Hb); [exists i; by apply Hf|].
    exists o. split_and!; [lia..|done|by apply Hf|]. intros o' Ho' F'. apply (Hb o' Ho'). by apply Hf.
Qed.

Lemma next_move ds l next mn mx q k next' :
  placed ds l mn mx -> q ∉ ds -> next_ok ds l next -> (exists i, free ds l i) ->
  (0 <= tail (cell l1 q) -> seq_id (cell l (tail (cell l q))) <> {[ q ]}) ->
  moves l q (tail (cell l q)) next k ->
  (forall o, 0 <= o < n -> next = at_off o -> finds k h (o + 1) (Ok next')) -> next_ok (ds ++ [q]) k next'.
Proof.
  intros P Hq N Hfree Hown M Hfind. destruct (nx_next _ _ _ N Hfree) as (o & Ho & En & F & Hb).
  pose proof (placed_move _ _ _ _ _ _ _ P Hq F Hown M) as P'. pose proof (proj1 M) as Hlen.
  pose proof (pc_len _ _ _ _ P) as Hl. assert (Hn : 0 < n) by lia.
  apply moves_fields in M as (Et & Ei & _ & _). set (t := tail (cell l q)) in *.
  pose proof (pc_tail _ _ _ _ P q Hq) as Etq. fold t in Etq.
  assert (Hempty : forall i, seq_id (cell k i) = ∅ -> seq_id (cell l i) = ∅ /\ (i = next -> t < 0)).
  { intros i Hi. rewrite Ei in Hi. destruct (decide (i = next /\ 0 <= t)) as [|Hn1]; [set_solver|].
    destruct (decide (i = t /\ 0 <= t)) as [[-> Ht]|Hn2]; [|split; [done|lia]]. exfalso. apply Hown; [lia|].
    assert (q ∈ seq_id (cell l t)) by (apply (pc_ids _ _ _ _ P); split; [done|]; split; [done|lia]).
    apply set_eq. intros s. destruct (decide (s = q)); set_solver. }
  assert (Htails : forall i, i ∈ tails (ds ++ [q]) k <-> i ∈ tails ds l \/ i = next).
  { intros i. rewrite !elem_of_tails. split.
    - intros (s & [Hs| ->%list_elem_of_singleton]%elem_of_app & <-); rewrite Et; [|by rewrite decide_True; [right|]].
      rewrite decide_False by congruence. left. eauto.
    - intros [(s & Hs & <-)| ->]; [exists s|exists q]; rewrite Et; [rewrite decide_False by congruence|rewrite decide_True by done];
        (split; [apply elem_of_app|done]); [by left|right; apply list_elem_of_singleton; done]. }
  assert (Hfr : forall i, free (ds ++ [q]) k i -> free ds l i /\ i <> next).
  { intros i (A1 & A2 & A3). rewrite Htails in A3. destruct (Hempty i A2) as [B1 B2].
    split; [|tauto]. split_and!; [unfold inside in *; lia|done|tauto]. }
  assert (Hafter : forall o2, 0 <= o2 < n -> free (ds ++ [q]) k (at_off o2) -> o < o2).
  { intros o2 Ho2 [F2 Hne]%Hfr. assert (~ 0 <= o2 < o) by (intros Hlt; by apply (Hb o2 Hlt)).
    assert (o2 <> o) by congruence. lia. }
  assert (Hbefore : forall o1, 0 <= o1 < n -> seq_id (cell k (at_off o1)) = ∅ -> at_off o1 ∈ tails (ds ++ [q]) k -> o1 <= o).
  { intros o1 Ho1 [He _]%Hempty [Hin|Hin]%Htails.
    - assert (o1 < o); [|lia]. apply (nx_order _ _ _ N); try done. by rewrite <- En.
    - rewrite En in Hin. apply around_inj in Hin; [lia|done..]. }
  split.
  - intros o1 o2 Ho1 Ho2 He Hin F2. specialize (Hafter o2 Ho2 F2). specialize (Hbefore o1 Ho1 He Hin). lia.
  - intros (i & Fi). destruct (around_onto n h i) as (oi & Hoi & Eoi); [done|destruct Fi as [Hi _]; unfold inside in Hi; lia|].
    rewrite <- Eoi in Fi. pose proof (Hafter oi Hoi Fi) as Hlt. destruct (Hfind o Ho En) as (j & [= <-] & Hf).
    rewrite Hlen, Hl in Hf. destruct (Hf oi) as (o' & Ho' & Ej & Hj & Hb'); [lia|apply Fi|].
    exists o'. split_and!; [lia..|done| |].
    + split_and!; [|done|].
      * rewrite Ej. unfold inside. rewrite Hlen, Hl. by apply around_range.
      * intros Hin. rewrite Ej in Hin, Hj. specialize (Hbefore o'). specialize (Hbefore ltac:(lia) Hj Hin). lia.
    + intros o'' Ho'' F''. specialize (Hafter o'' ltac:(lia) F''). apply (Hb' o''); [lia|apply F''].
Qed.

End Next.

(** *** One set *)

Lemma own_cell_ok ds l mn mx q :
  placed ds l mn mx -> q ∉ ds ->
  own_cell l q (cell l q) = Ok (bool_decide (0 <= tail (cell l1 q) /\ seq_id (cell l (tail (cell l q))) = {[ q ]})).
Proof.
  intros P Hq. pose proof (pc_tail _ _ _ _ P q Hq) as E. unfold own_cell.
  destruct (Z.ltb_spec (tail (cell l q)) 0) as [Ht|Ht]; [rewrite bool_decide_false; [done|lia]|].
  assert (Hin : q ∈ seq_id (cell l (tail (cell l q)))) by (apply (pc_ids _ _ _ _ P); split; [done|]; split; [done|lia]).
  rewrite cell_at_ok by by eapply ids_inside. bind_simpl. unfold has_seq_id. rewrite bool_decide_true by done. bind_simpl.
  f_equal. apply eq_true_iff_eq. rewrite Nat.eqb_eq, bool_decide_eq_true. split.
  - intros [y Hy]%size_1_elem_of. split; [lia|]. apply leibniz_equiv in Hy. rewrite Hy in *. set_solver.
  - intros [_ ->]. apply size_singleton.
Qed.

Lemma split_off_ok l q t e :
  inside l e -> seq_id (cell l e) = ∅ -> inside l q -> (0 <= t -> q ∈ seq_id (cell l t) /\ seq_id (cell l t) <> {[ q ]}) ->
  exists k0, split_off q t e l = Ok k0 /\ length k0 = length l /\ moves l q t e (put_cell k0 q (with_tail e (cell k0 q))).
Proof.
  intros He Hee Hq Ht. unfold split_off. destruct (Z.ltb_spec t 0) as [Hn|H0].
  - exists l. split_and!; [done..|]. split; [by rewrite length_set|]. intros i. rewrite cell_set by done.
    rewrite (decide_False (P := i = e /\ 0 <= t)), (decide_False (P := i = t /\ 0 <= t)) by lia.
    destruct (decide (i = q)) as [->|]; [done|by destruct (cell l i)].
  - destruct (Ht H0) as [Hin Hne]. pose proof (ids_inside l t q Hin) as Hti. assert (Hd : t <> e) by (intros ->; set_solver).
    do 2 run_cell. set (la := put_cell l e _).
    assert (Ea : forall i, cell la i = if decide (i = e) then with_state (pos (cell l t)) (src (cell l t)) (seq_id (cell l e)) (cell l e) else cell l i)
      by (intros i; by apply cell_set).
    assert (La : length la = length l) by (subst la; by rewrite !length_set). clearbody la.
    assert (Hta : inside la t) by (unfold inside in *; lia). run_cell. set (lb := put_cell la t _).
    assert (Eb : forall i, cell lb i = if decide (i = t) then with_ids (seq_id (cell l t) ∖ {[ q ]}) (cell l t) else cell la i).
    { intros i. subst lb. rewrite cell_set, Ea by done. by rewrite (decide_False (P := t = e)). }
    assert (Lb : length lb = length l) by (subst lb; by rewrite !length_set). clearbody lb.
    assert (Heb : inside lb e) by (unfold inside in *; lia). run_cell. set (k0 := put_cell lb e _).
    assert (E : forall i, cell k0 i = if decide (i = e) then with_state (pos (cell l t)) (src (cell l t)) {[ q ]} (cell l e)
        else if decide (i = t) then with_ids (seq_id (cell l t) ∖ {[ q ]}) (cell l t) else cell l i).
    { intros i. subst k0. rewrite cell_set, !Eb, !Ea by done. rewrite (decide_False (P := e = t)), (decide_True (P := e = e)) by done.
      cbn [seq_id with_ids with_state]. rewrite Hee, union_empty_l_L.
      destruct (decide (i = e)) as [->|]; done. }
    assert (Hlen : length k0 = length l) by (subst k0; by rewrite !length_set). clearbody k0.
    assert (Htk : inside k0 t) by (unfold inside in *; lia). run_cell.
    unfold is_empty. rewrite E, decide_False, decide_True by done. cbn [seq_id with_ids with_state].
    rewrite bool_decide_false.
    2:{ intros Hs. apply Hne. apply set_eq. intros s. destruct (decide (s = q)); set_solver. }
    bind_simpl. exists k0. split_and!; [done..|]. split; [by rewrite length_set|]. intros i.
    rewrite cell_set by (unfold inside in *; lia). rewrite !E.
    rewrite (decide_ext (i = e /\ 0 <= t) (i = e)), (decide_ext (i = t /\ 0 <= t) (i = t)) by tauto.
    destruct (decide (i = q)) as [->|]; [done|]. destruct (decide (i = e)) as [->|]; [by destruct (cell l e)|].
    destruct (decide (i = t)) as [->|]; [by destruct (cell l t)|by destruct (cell l i)].
Qed.

(** A set that needs a cell finds one. *)
Lemma free_exists ds l mn mx q :
  placed ds l mn mx -> q ∉ ds -> inside l q ->
  (0 <= tail (cell l1 q) -> seq_id (cell l (tail (cell l q))) <> {[ q ]}) -> exists i, free ds l i.
Proof.
  intros P Hq Hqi Hown. pose proof (pc_tail _ _ _ _ P q Hq) as Etq. pose proof (pc_len _ _ _ _ P) as Hlen.
  destruct (Exists_dec (fun i => seq_id (cell l i) = ∅ /\ i ∉ tails ds l) (seqZ 0 (Z.of_nat (length l)))) as [He|He].
  { apply Exists_exists in He as (i & Hi%elem_of_seqZ & ? & ?). exists i. split_and!; [split; lia|done..]. }
  exfalso. apply (some_cell_is_no_tail l q Hqi). intros i Hi.
  assert (Hd : seq_id (cell l i) <> ∅ \/ i ∈ tails ds l).
  { destruct (decide (seq_id (cell l i) = ∅)) as [E|]; [|by left]. right. destruct (decide (i ∈ tails ds l)) as [|Hn]; [done|].
    exfalso. apply He, Exists_exists. exists i. split; [|done]. apply elem_of_seqZ. unfold inside in Hi. lia. }
  assert (Hseq : forall s, s ∈ seq_id (cell l i) -> inside l s).
  { intros s Hs%(pc_ids _ _ _ _ P). destruct Hs as (_ & _ & Hs). destruct (tail_inside l1 s H1 Hs) as [_ Hs'].
    apply seq_inside in Hs'; [|done..]. unfold inside in *. lia. }
  destruct (decide (i ∈ tails ds l)) as [Ht|Ht].
  - apply elem_of_tails in Ht as (s & Hs & E). exists s. split_and!; [|set_solver|done].
    destruct (decide (inside l s)) as [|Hn]; [done|]. rewrite cell_outside in E by done. simpl in E. unfold inside in Hi. lia.
  - destruct Hd as [Hne|]; [|done].
    assert (Hs : exists s, s ∈ seq_id (cell l i) /\ s <> q).
    { apply set_choose_L in Hne as [s Hs]. destruct (decide (s = q)) as [->|]; [|by exists s].
      destruct (proj1 (pc_ids _ _ _ _ P q i) Hs) as (Hi0 & Ei & Hq0).
      destruct (decide (seq_id (cell l i) ∖ {[ q ]} = ∅)) as [E|E].
      - exfalso. apply Hown; [done|]. rewrite Ei. apply set_eq. intros s. destruct (decide (s = q)); set_solver.
      - apply set_choose_L in E as [s Hs']. exists s. set_solver. }
    destruct Hs as (s & Hs & Hsq). exists s. split_and!; [by apply Hseq|done|]. by apply (pc_ids _ _ _ _ P) in Hs as (_ & ? & _).
Qed.

Lemma finds_ok l h a r : finds l h a r -> exists i, r = Ok i /\ finds l h a (Ok i).
Proof. intros (i & -> & H). exists i. split; [done|]. by exists i. Qed.

Lemma place_set_ok {float} (ub : Batch.llama_ubatch float) k ds l mn mx next q h :
  0 < Z.of_nat (length l1) < 2 ^ 30 -> placed ds l mn mx -> q ∉ ds -> inside l1 q -> first_id ub k = Ok q -> next_ok h ds l next ->
  exists l' next', let t := tail (cell l' q) in
    place_set ub (mk_placing l next mn mx) k = Ok (mk_placing l' next' (lower mn t) (raise mx t)) /\
    placed (ds ++ [q]) l' (lower mn t) (raise mx t) /\ ((k + 1 < Batch.u_n_seqs ub)%nat -> next_ok h (ds ++ [q]) l' next').
Proof.
  intros Hn P Hq Hqi Hid N. pose proof (pc_len _ _ _ _ P) as Hlen. assert (Hqi' : inside l q) by (unfold inside in *; lia).
  unfold place_set. rewrite Hid. bind_simpl. cbn [pl_cells pl_next pl_min pl_max]. rewrite (cell_at_ok l q) by done. bind_simpl.
  rewrite (own_cell_ok ds l mn mx) by done. bind_simpl. case_bool_decide as Hown.
  - destruct Hown as [Hq0 Hown]. bind_simpl. cbn [pl_cells pl_next pl_min pl_max]. run_cell.
    exists l, next. split_and!; [done|by apply placed_own|]. intros _. apply next_own; [done|]. rewrite Hown. set_solver.
  - assert (Hown' : 0 <= tail (cell l1 q) -> seq_id (cell l (tail (cell l q))) <> {[ q ]}) by tauto.
    pose proof (free_exists ds l mn mx q P Hq Hqi' Hown') as Hfree.
    destruct (nx_next _ _ _ _ N Hfree) as (o & Ho & En & F & Hb). pose proof F as (Hni & Hne & Hnt).
    run_cell. unfold is_empty. rewrite bool_decide_true by done. bind_simpl.
    destruct (split_off_ok l q (tail (cell l q)) next Hni Hne Hqi') as (k0 & -> & Hk0 & M).
    { intros H0. pose proof (pc_tail _ _ _ _ P q Hq). split; [|apply Hown'; lia]. apply (pc_ids _ _ _ _ P). split; [done|]. split; [done|lia]. }
    bind_simpl. unfold inside in Hni. rewrite i32_small by lia. assert (inside k0 q) by (unfold inside in *; lia). run_cell.
    set (k1 := put_cell k0 q _) in *.
    assert (Hk1 : length k1 = length l1) by (subst k1; rewrite length_set; lia).
    assert (Etq : tail (cell k1 q) = next).
    { destruct (moves_fields _ _ _ _ _ M) as (-> & _). by rewrite decide_True. }
    assert (Hsearch : finds k1 h (o + 1) (next_empty_after (length k1) k1 next)).
    { rewrite En, <- Hk1. apply search_after; rewrite ?Hk1; lia. }
    destruct (finds_ok _ _ _ _ Hsearch) as (nx' & Enx & Hf).
    assert (Hq1 : inside k1 q) by (unfold inside in *; lia).
    exists k1, (if (k + 1 <? Batch.u_n_seqs ub)%nat then nx' else next). cbv zeta. rewrite Etq. split_and!.
    + destruct (k + 1 <? _)%nat; [rewrite Enx|]; bind_simpl; cbn [pl_cells pl_next pl_min pl_max]; run_cell; by rewrite Etq.
    + by apply (placed_move _ l mn mx).
    + intros Hk. rewrite (proj2 (Nat.ltb_lt _ _) Hk). apply (next_move h ds l next mn mx q k1 nx'); try done.
      intros o2 Ho2 E2. rewrite En in E2. apply around_inj in E2; [by subst o2|lia..].
Qed.

(** All the sets. *)
Lemma place_sets_ok {float} (ub : Batch.llama_ubatch float) h qs ds l mn mx next :
  0 < Z.of_nat (length l1) < 2 ^ 30 -> Batch.u_n_seqs ub = length (ds ++ qs) -> NoDup (ds ++ qs) ->
  (forall k q, (ds ++ qs) !! k = Some q -> first_id ub k = Ok q /\ inside l1 q) ->
  placed ds l mn mx -> (qs <> [] -> next_ok h ds l next) ->
  exists l' next' mn' mx',
    foldM (place_set ub) (mk_placing l next mn mx) (List.seq (length ds) (length qs)) = Ok (mk_placing l' next' mn' mx') /\
    placed (ds ++ qs) l' mn' mx'.
Proof.
  intros Hn. revert ds l mn mx next. induction qs as [|q qs IH]; intros ds l mn mx next Hk Hnd Hid P N.
  - exists l, next, mn, mx. rewrite app_nil_r. done.
  - assert (Hq : q ∉ ds).
    { apply NoDup_app in Hnd as (_ & Hd & _). intros Hin. apply (Hd q Hin). left. }
    destruct (Hid (length ds) q) as [Hf Hi]; [by apply list_lookup_middle|].
    destruct (place_set_ok ub (length ds) ds l mn mx next q h) as (l1' & next1 & E1 & P1 & N1); try done; [by apply N|].
    cbn [List.seq length foldM]. rewrite E1. bind_simpl.
    destruct (IH (ds ++ [q]) l1' (lower mn (tail (cell l1' q))) (raise mx (tail (cell l1' q))) next1) as (l' & next' & mn' & mx' & E & P'); try done.
    + by rewrite <- app_assoc.
    + by rewrite <- app_assoc.
    + intros k x. rewrite <- app_assoc. apply Hid.
    + intros Hqs. apply N1. rewrite Hk, length_app. simpl. destruct qs; [done|simpl; lia].
    + exists l', next', mn', mx'. rewrite length_app in E. cbn [length] in E. rewrite Nat.add_1_r in E. rewrite E.
      by rewrite <- app_assoc in P'.
Qed.
End Place.

End RecurrentSlot.
