(* ===== verification/RecurrentGather.v ===== *)
(** The second half of the placement of a ubatch in a recurrent memory: the cells of
    its sets are swapped to consecutive places, take the last positions of the ubatch, and
    each cell in the range of the ubatch is given the row its state is copied from. *)

From S2P Require Import Prelude.
From S2P Require Import Memory.
From S2P Require Import Batch.
From S2P Require Import Recurrent.
From S2P Require Import RecurrentWf.
From S2P Require Import RecurrentSlot.

Module RecurrentGather.
Import Recurrent.
Import RecurrentWf.
Import RecurrentSlot.

(** ** Swaps *)

Definition swap (a b i : Z) : Z := if i =? b then a else if i =? a then b else i.

Lemma swap_swap a b i : swap a b (swap a b i) = i.
Proof.
  unfold swap. destruct (Z.eqb_spec i b) as [->|]; [destruct (Z.eqb_spec a b); [done|by rewrite Z.eqb_refl]|].
  destruct (Z.eqb_spec i a) as [->|]; [by rewrite Z.eqb_refl|]. by rewrite !(proj2 (Z.eqb_neq i _)).
Qed.

Lemma swap_other a b i : i <> a -> i <> b -> swap a b i = i.
Proof. unfold swap. intros. by rewrite !(proj2 (Z.eqb_neq _ _)) by done. Qed.

Lemma swap_left a b : swap a b b = a.
Proof. unfold swap. by rewrite Z.eqb_refl. Qed.

Lemma swap_inside (l : list mem_cell) a b i : inside l a -> inside l b -> inside l (swap a b i) <-> inside l i.
Proof. intros Ha Hb. unfold swap. destruct (Z.eqb_spec i b) as [->|]; [tauto|]. destruct (Z.eqb_spec i a) as [->|]; tauto. Qed.

Lemma swap_cells_ok l a b :
  inside l a -> inside l b ->
  exists k, swap_cells a b l = Ok k /\ length k = length l /\
    (forall s, tail (cell k s) = if decide (inside l s) then swap a b (tail (cell l s)) else -1) /\
    forall i, pos (cell k i) = pos (cell l (swap a b i)) /\ src (cell k i) = src (cell l (swap a b i)) /\
      seq_id (cell k i) = seq_id (cell l (swap a b i)).
Proof.
  intros Ha Hb. unfold swap_cells. do 2 (rewrite cell_at_ok by done; bind_simpl). run_cell.
  set (la := put_cell l a _).
  assert (Ea : forall i, cell la i = if decide (i = a) then with_state (pos (cell l b)) (src (cell l b)) (seq_id (cell l b)) (cell l a) else cell l i)
    by (intros i; by apply cell_set).
  assert (La : length la = length l) by (subst la; by rewrite length_set). clearbody la.
  assert (Hb' : inside la b) by (unfold inside in *; lia). run_cell. set (lb := put_cell la b _).
  assert (Eb : forall i, cell lb i = if decide (i = b) then with_state (pos (cell l a)) (src (cell l a)) (seq_id (cell l a)) (cell la b) else cell la i)
    by (intros i; by apply cell_set).
  assert (Lb : length lb = length l) by (subst lb; by rewrite length_set). clearbody lb.
  eexists. split; [done|]. split; [by rewrite length_fmap|].
  assert (Hin : forall i, inside lb i <-> inside l i) by (intros i; unfold inside; by rewrite Lb).
  assert (Et : forall i, tail (cell lb i) = tail (cell l i)).
  { intros i. rewrite Eb. destruct (decide (i = b)) as [->|]; cbn [tail with_state]; rewrite Ea.
    - by destruct (decide (b = a)) as [->|].
    - by destruct (decide (i = a)) as [->|]. }
  split; intros i; rewrite cell_map, (decide_ext (inside lb i) (inside l i)) by apply Hin.
  - case_decide; [|done]. unfold swap_tail, swap. rewrite <- Et.
    destruct (tail (cell lb i) =? b); [done|]. by destruct (tail (cell lb i) =? a).
  - destruct (decide (inside l i)) as [Hi|Hi].
    + assert (Est : forall c, pos (swap_tail a b c) = pos c /\ src (swap_tail a b c) = src c /\ seq_id (swap_tail a b c) = seq_id c).
      { intros c. unfold swap_tail. destruct (_ =? _); [done|]. by destruct (_ =? _). }
      destruct (Est (cell lb i)) as (-> & -> & ->). rewrite Eb. unfold swap.
      destruct (decide (i = b)) as [->|]; [by rewrite Z.eqb_refl|]. rewrite (proj2 (Z.eqb_neq i b)), Ea by done.
      destruct (decide (i = a)) as [->|]; [by rewrite Z.eqb_refl|]. by rewrite (proj2 (Z.eqb_neq i a)).
    + rewrite (cell_outside l); [done|]. by rewrite swap_inside.
Qed.

(** ** The sets side by side *)

Section Gather.
(** The cells once each set has its own. *)
Context (l2 : list mem_cell) (qs : list Z) (mn mx : Z).
Context (Hin : forall q, q ∈ qs -> inside l2 (tail (cell l2 q)) /\ mn <= tail (cell l2 q) <= mx)
  (Hnd : NoDup (tails qs l2)) (Hmn : 0 <= mn) (Hmx : mx < Z.of_nat (length l2))
  (Htail : forall s, -1 <= tail (cell l2 s)).

Lemma sets_fit : Z.of_nat (length qs) <= Z.max 0 (mx - mn + 1).
Proof.
  assert (Hsub : tails qs l2 ⊆+ seqZ mn (mx - mn + 1)).
  { apply NoDup_submseteq; [done|]. intros i (q & Hq & <-)%elem_of_tails. apply elem_of_seqZ.
    destruct (Hin q Hq) as [_ ?]. lia. }
  apply submseteq_length in Hsub. unfold tails in Hsub. rewrite length_fmap, length_seqZ in Hsub. lia.
Qed.

(** The cells are those of [l2], moved within the range. *)
Record gathered (k : nat) (l : list mem_cell) (to from : Z -> Z) : Prop := mk_gathered {
  ga_len : length l = length l2;
  ga_from : forall i, from (to i) = i;
  ga_to : forall i, to (from i) = i;
  ga_fix : forall i, ~ mn <= i <= mx -> to i = i;
  ga_tail : forall s, tail (cell l s) = to (tail (cell l2 s));
  ga_state : forall i, pos (cell l i) = pos (cell l2 (from i)) /\ src (cell l i) = src (cell l2 (from i)) /\
    seq_id (cell l i) = seq_id (cell l2 (from i));
  ga_done : forall j q, (j < k)%nat -> qs !! j = Some q -> tail (cell l q) = mn + Z.of_nat j;
}.

Lemma gathered_range k l to from i : gathered k l to from -> (mn <= to i <= mx <-> mn <= i <= mx).
Proof.
  intros G. split; intros H.
  - destruct (decide (mn <= i <= mx)) as [|Hn]; [done|]. by rewrite (ga_fix _ _ _ _ G i Hn) in H.
  - destruct (decide (mn <= to i <= mx)) as [|Hn]; [done|]. pose proof (ga_fix _ _ _ _ G _ Hn) as E.
    apply (f_equal from) in E. rewrite !(ga_from _ _ _ _ G) in E. lia.
Qed.

Lemma gathered_nil : gathered 0 l2 (fun i => i) (fun i => i).
Proof. split; try done. intros j q Hj. lia. Qed.

Lemma gather_step {float} (ub : Batch.llama_ubatch float) k l to from q :
  gathered k l to from -> qs !! k = Some q -> first_id ub k = Ok q -> inside l2 q ->
  exists l' to' from', gather_set ub mn l k = Ok l' /\ gathered (S k) l' to' from'.
Proof.
  intros G Hk Hid Hq. pose proof (ga_len _ _ _ _ G) as Hlen. unfold gather_set. rewrite Hid. bind_simpl.
  rewrite cell_at_ok by (unfold inside in *; lia). bind_simpl. pose proof sets_fit as Hfit. pose proof (lookup_lt_Some _ _ _ Hk) as Hlt.
  pose proof (list_elem_of_lookup_2 _ _ _ Hk) as Hqs. destruct (Hin q Hqs) as [Hti Htr].
  assert (Ht : mn <= tail (cell l q) <= mx) by (rewrite (ga_tail _ _ _ _ G); by apply (gathered_range _ _ _ _ _ G)).
  destruct (Z.eqb_spec (Z.of_nat k + mn) (tail (cell l q))) as [E|Hne].
  { exists l, to, from. split; [done|]. split; try apply G. intros j x Hj Hx.
    destruct (decide (j = k)) as [->|]; [|apply (ga_done _ _ _ _ G); [lia|done]]. assert (x = q) as -> by congruence. lia. }
  destruct (swap_cells_ok l (Z.of_nat k + mn) (tail (cell l q))) as (l' & El & Hl' & Et & Es); [unfold inside; lia..|].
  exists l', (fun i => swap (Z.of_nat k + mn) (tail (cell l q)) (to i)), (fun i => from (swap (Z.of_nat k + mn) (tail (cell l q)) i)).
  assert (Etail : forall s, tail (cell l' s) = swap (Z.of_nat k + mn) (tail (cell l q)) (tail (cell l s))).
  { intros s. rewrite Et. case_decide as Hs; [done|]. rewrite (cell_outside l s) by done. simpl. symmetry. apply swap_other; lia. }
  split; [done|]. split.
  - by rewrite Hl', Hlen.
  - intros i. by rewrite swap_swap, (ga_from _ _ _ _ G).
  - intros i. by rewrite (ga_to _ _ _ _ G), swap_swap.
  - intros i Hi. rewrite (ga_fix _ _ _ _ G i Hi). apply swap_other; lia.
  - intros s. by rewrite Etail, (ga_tail _ _ _ _ G s).
  - intros i. destruct (Es i) as (-> & -> & ->). apply (ga_state _ _ _ _ G).
  - intros j x Hj Hx. rewrite Etail. destruct (decide (j = k)) as [->|Hjk].
    + assert (x = q) as -> by congruence. rewrite swap_left. lia.
    + assert (Hj' : (j < k)%nat) by lia. pose proof (ga_done _ _ _ _ G j x Hj' Hx) as E.
      assert (Hd : tail (cell l x) <> tail (cell l q)).
      { intros E2. rewrite !(ga_tail _ _ _ _ G) in E2. apply (f_equal from) in E2. rewrite !(ga_from _ _ _ _ G) in E2.
        apply Hjk. apply (NoDup_lookup (tails qs l2) j k (tail (cell l2 q))); [done|..]; unfold tails; rewrite list_lookup_fmap.
        - rewrite Hx. simpl. congruence.
        - by rewrite Hk. }
      rewrite swap_other; lia.
Qed.

Lemma gather_ok {float} (ub : Batch.llama_ubatch float) :
  (forall k q, qs !! k = Some q -> first_id ub k = Ok q /\ inside l2 q) ->
  exists l to from, foldM (gather_set ub mn) l2 (List.seq 0 (length qs)) = Ok l /\ gathered (length qs) l to from.
Proof.
  intros Hid. destruct (for_total (fun k l => exists to from, gathered k l to from) (gather_set ub mn) (length qs) l2) as (l & El & to & from & G).
  - intros k l Hk (to & from & G). destruct (lookup_lt_is_Some_2 qs k Hk) as [q Hq]. destruct (Hid k q Hq) as [Hf Hi].
    destruct (gather_step ub k l to from q G Hq Hf Hi) as (l' & to' & from' & E & G'). exists l'. split; [done|]. by exists to', from'.
  - eexists _, _. apply gathered_nil.
  - by exists l, to, from.
Qed.

End Gather.

(** ** Settling *)

(** Sequences [ids] join cell [i]. *)
Lemma join_cell i ids l :
  inside l i -> Forall (inside l) ids ->
  exists k, foldM (fun l q => l ← update (fun c => with_ids (seq_id c ∪ {[ q ]}) c) i l; update (with_tail i) q l) l ids = Ok k :> R _ /\
    length k = length l /\
    (forall j, tail (cell k j) = if decide (j ∈ ids) then i else tail (cell l j)) /\
    (forall j, seq_id (cell k j) = if decide (j = i) then seq_id (cell l i) ∪ list_to_set ids else seq_id (cell l j)) /\
    (forall j, pos (cell k j) = pos (cell l j) /\ src (cell k j) = src (cell l j)).
Proof.
  intros Hi. revert l Hi. induction ids as [|q ids IH]; intros l Hi HF; cbn [foldM].
  - exists l. split_and!; [done..| |done]. intros j. destruct (decide (j = i)) as [->|]; [|done]. simpl. by rewrite union_empty_r_L.
  - apply Forall_cons in HF as [Hq HF]. run_cell. rewrite update_ok by by rewrite inside_set. bind_simpl.
    set (la := put_cell l i _).
    assert (Ea : forall j, cell la j = if decide (j = i) then with_ids (seq_id (cell l i) ∪ {[ q ]}) (cell l i) else cell l j) by (intros j; by apply cell_set).
    assert (La : length la = length l) by (subst la; by rewrite length_set). clearbody la.
    assert (Hqa : inside la q) by (unfold inside in *; lia). set (lb := put_cell la q _).
    assert (Eb : forall j, cell lb j = if decide (j = q) then with_tail i (cell la q) else cell la j) by (intros j; by apply cell_set).
    assert (Lb : length lb = length l) by (subst lb; by rewrite length_set). clearbody lb.
    assert (Hlb : forall j, inside lb j <-> inside l j) by (intros j; unfold inside; by rewrite Lb).
    destruct (IH lb) as (k & Ek & Lk & Tk & Ik & Pk); [by apply Hlb|by eapply Forall_impl; [exact HF|]; intros j; apply Hlb|].
    exists k. split_and!; [done|by rewrite Lk| | |].
    + intros j. rewrite Tk, (decide_ext (j ∈ q :: ids) (j = q \/ j ∈ ids)) by apply elem_of_cons.
      destruct (decide (j ∈ ids)) as [Hj|Hj]; [by rewrite decide_True by tauto|]. rewrite Eb.
      destruct (decide (j = q)) as [->|Hjq]; [by rewrite decide_True by tauto|]. rewrite decide_False by tauto.
      rewrite Ea. by destruct (decide (j = i)) as [->|].
    + intros j. rewrite Ik. assert (Eids : forall x, seq_id (cell lb x) = if decide (x = i) then seq_id (cell l i) ∪ {[ q ]} else seq_id (cell l x)).
      { intros x. rewrite Eb. destruct (decide (x = q)) as [->|]; cbn [seq_id with_tail]; rewrite Ea; by destruct (decide (_ = i)) as [->|]. }
      rewrite !Eids. rewrite (decide_True (P := i = i)) by done. destruct (decide (j = i)); [|done]. cbn [list_to_set]. by rewrite union_assoc_L.
    + intros j. destruct (Pk j) as [-> ->]. rewrite Eb. destruct (decide (j = q)) as [->|]; cbn [pos src with_tail]; rewrite Ea; by destruct (decide (_ = i)) as [->|].
Qed.

Section Settle.
Context {float : Type} (n_cells : Z) (ub : Batch.llama_ubatch float) (sets : list (Z * list Z)) (lasts : list Z).
Context (U : ubatch_ok n_cells ub sets lasts).
(** The cells once the sets are side by side. *)
Context (l3 : list mem_cell) (mn : Z) (Hlen : Z.of_nat (length l3) = n_cells)
  (Hmn : 0 <= mn) (Hfit : mn + Z.of_nat (length sets) <= n_cells).

(** Sequence [s] is in set [k]. *)
Definition in_set (k : nat) (s : Z) : Prop := exists q rest, sets !! k = Some (q, rest) /\ s ∈ q :: rest.

Lemma in_set_unique j k s : in_set j s -> in_set k s -> j = k.
Proof.
  intros (q & rest & Hj & Hs) (q' & rest' & Hk & Hs').
  pose proof (ub_nodup _ _ _ _ U) as Hnd. apply NoDup_app in Hnd as (Hf & Hd & Hr).
  assert (Hq : forall k q rest, sets !! k = Some (q, rest) -> q ∈ fst <$> sets /\ forall s, s ∈ rest -> s ∈ sets ≫= snd).
  { clear. intros k q rest Hk%list_elem_of_lookup_2. split; [by apply (list_elem_of_fmap_2' _ _ (q, rest))|].
    intros s Hs. apply list_elem_of_bind. by exists (q, rest). }
  destruct (Hq _ _ _ Hj) as [A1 A2], (Hq _ _ _ Hk) as [B1 B2].
  apply elem_of_cons in Hs as [->|Hs], Hs' as [->|Hs'].
  - apply (NoDup_lookup (fst <$> sets) j k q'); [done|..]; rewrite list_lookup_fmap; [by rewrite Hj|by rewrite Hk].
  - exfalso. by apply (Hd q A1), B2.
  - exfalso. by apply (Hd q' B1), A2.
  - clear - Hr Hj Hk Hs Hs'. revert j k Hj Hk. induction sets as [|[q0 r0] l IH]; intros j k Hj Hk; [done|].
    cbn in Hr. apply NoDup_app in Hr as (H1 & H2 & H3).
    assert (Hin : forall k q r, l !! k = Some (q, r) -> s ∈ r -> s ∈ l ≫= snd).
    { intros i q1 r1 Hi%list_elem_of_lookup_2 ?. apply list_elem_of_bind. by exists (q1, r1). }
    destruct j as [|j], k as [|k]; simplify_eq/=; [done|..].
    + exfalso. by apply (H2 s Hs), (Hin k q' rest').
    + exfalso. by apply (H2 s Hs'), (Hin j q rest).
    + f_equal. by apply IH.
Qed.

Record settled (k : nat) (l : list mem_cell) : Prop := mk_settled {
  st_len : length l = length l3;
  st_tail_in : forall j s, (j < k)%nat -> in_set j s -> tail (cell l s) = mn + Z.of_nat j;
  st_tail : forall s, (forall j, (j < k)%nat -> ~ in_set j s) -> tail (cell l s) = tail (cell l3 s);
  st_ids : forall j q rest, (j < k)%nat -> sets !! j = Some (q, rest) -> seq_id (cell l (mn + Z.of_nat j)) = list_to_set (q :: rest);
  st_pos : forall j p, (j < k)%nat -> lasts !! j = Some p -> pos (cell l (mn + Z.of_nat j)) = p;
  st_other : forall i, ~ mn <= i < mn + Z.of_nat k -> pos (cell l i) = pos (cell l3 i) /\ seq_id (cell l i) = seq_id (cell l3 i);
  st_src : forall i, src (cell l i) = src (cell l3 i);
}.

Lemma settle_step k l : settled k l -> (k < length sets)%nat -> exists l', settle_set ub mn l k = Ok l' /\ settled (S k) l'.
Proof.
  intros S Hk. destruct (lookup_lt_is_Some_2 sets k Hk) as [[q rest] Hs].
  destruct (lookup_lt_is_Some_2 lasts k) as [p Hp]; [by rewrite (ub_lasts _ _ _ _ U)|].
  unfold settle_set. rewrite (proj1 (ub_pos _ _ _ _ U k p Hp)), (ub_set _ _ _ _ U k q rest Hs). bind_simpl.
  pose proof (st_len _ _ S) as Hl. assert (Hi : inside l (Z.of_nat k + mn)) by (unfold inside; lia).
  rewrite Z.add_comm in *. run_cell. set (la := put_cell l _ _).
  assert (Ea : forall j, cell la j = if decide (j = mn + Z.of_nat k) then with_state p (src (cell l (mn + Z.of_nat k))) ∅ (cell l (mn + Z.of_nat k)) else cell l j)
    by (intros j; by apply cell_set).
  assert (La : length la = length l) by (subst la; by rewrite length_set). clearbody la.
  destruct (join_cell (mn + Z.of_nat k) (q :: rest) la) as (l' & El & Ll & Tl & Il & Pl); [unfold inside in *; lia| |].
  { apply Forall_forall. intros s Hin. assert (Hr : 0 <= s < n_cells); [|unfold inside; lia].
    apply (ub_range _ _ _ _ U), elem_of_app. pose proof (list_elem_of_lookup_2 _ _ _ Hs) as Hs'.
    apply elem_of_cons in Hin as [->|Hin]; [left; by apply (list_elem_of_fmap_2' _ _ (q, rest))|right].
    apply list_elem_of_bind. by exists (q, rest). }
  rewrite El. exists l'. split; [done|].
  assert (Etail : forall s, tail (cell la s) = tail (cell l s)) by (intros s; rewrite Ea; by destruct (decide (s = _)) as [->|]).
  assert (Hset : forall s, in_set k s <-> s ∈ q :: rest).
  { intros s. split; [|intros; by exists q, rest]. intros (q' & rest' & E & ?). rewrite Hs in E. by injection E as <- <-. }
  split.
  - lia.
  - intros j s Hj Hin. rewrite Tl. destruct (decide (s ∈ q :: rest)) as [Hd|Hd].
    + assert (j = k) as -> by (apply (in_set_unique j k s); [done|by apply Hset]). done.
    + assert (j <> k) by (intros ->; by apply Hd, Hset). rewrite Etail. apply (st_tail_in _ _ S); [lia|done].
  - intros s Hn. rewrite Tl, decide_False by (rewrite <- Hset; apply Hn; lia). rewrite Etail. apply (st_tail _ _ S).
    intros j Hj. apply Hn. lia.
  - intros j q' rest' Hj Hs'. rewrite Il. destruct (decide (j = k)) as [->|Hjk].
    + rewrite decide_True by done. rewrite Ea, decide_True by done. cbn [seq_id with_state]. rewrite union_empty_l_L. congruence.
    + rewrite decide_False, Ea, decide_False by lia. apply (st_ids _ _ S); [lia|done].
  - intros j p' Hj Hp'. destruct (Pl (mn + Z.of_nat j)) as [-> _]. rewrite Ea. destruct (decide (j = k)) as [->|Hjk].
    + rewrite decide_True by done. simpl. congruence.
    + rewrite decide_False by lia. apply (st_pos _ _ S); [lia|done].
  - intros i Hn. destruct (Pl i) as [-> _]. rewrite Il, !Ea, !(decide_False (P := i = _)) by lia. apply (st_other _ _ S). lia.
  - intros i. destruct (Pl i) as [_ ->]. rewrite Ea, <- (st_src _ _ S). by destruct (decide (i = _)) as [->|].
Qed.

Lemma settle_ok : exists l, foldM (settle_set ub mn) l3 (List.seq 0 (length sets)) = Ok l /\ settled (length sets) l.
Proof.
  apply (for_total settled).
  - intros k l Hk S. by apply settle_step.
  - split; try done; intros; lia.
Qed.

End Settle.

(** ** The source of each state *)

Definition refs_to (l : list mem_cell) (i : Z) : Z := Z.of_nat (length (filter (fun c => src c = i) l)).

Lemma count_refs_ok l :
  (forall c, c ∈ l -> 0 <= src c -> inside l (src c)) ->
  exists refs, count_refs l = Ok refs /\ length refs = length l /\ forall i, inside l i -> refs !! Z.to_nat i = Some (refs_to l i).
Proof.
  intros Hsrc. unfold count_refs, refs_to.
  set (f := fun (refs : list Z) c => if 0 <=? src c then r ← at_ refs (Z.to_nat (src c)); Ok (<[Z.to_nat (src c) := r + 1]> refs) else Ok refs).
  destruct (foldM_total (fun pre refs => length refs = length l /\
    forall i, inside l i -> refs !! Z.to_nat i = Some (Z.of_nat (length (filter (fun c => src c = i) pre)))) f l ((fun _ => 0) <$> l)) as (refs & E & Hlen & H).
  - intros pre c refs Hp [Hlen H]. assert (Hc : c ∈ l) by (destruct Hp as [suf ->]; set_solver). unfold f.
    assert (Hf : forall i, filter (fun c => src c = i) (pre ++ [c]) = filter (fun c => src c = i) pre ++ (if decide (src c = i) then [c] else [])).
    { intros i. rewrite filter_app, filter_cons. by case_decide. }
    destruct (Z.leb_spec 0 (src c)) as [H0|H0].
    + specialize (Hsrc c Hc H0). rewrite (at_lookup _ _ _ (H _ Hsrc)). bind_simpl. eexists. split; [done|].
      split; [by rewrite length_insert|]. intros i Hi. rewrite Hf, length_app. unfold inside in *.
      destruct (decide (src c = i)) as [<-|Hn].
      * rewrite list_lookup_insert_eq by lia. f_equal. simpl. lia.
      * rewrite list_lookup_insert_ne by lia. rewrite H by done. f_equal. simpl. lia.
    + exists refs. split; [done|]. split; [done|]. intros i Hi. rewrite Hf, length_app, (H i Hi). f_equal.
      rewrite decide_False by (unfold inside in Hi; lia). simpl. lia.
  - split; [by rewrite length_fmap|]. intros i Hi. rewrite list_lookup_fmap, (lookup_cell l i Hi). done.
  - by exists refs.
Qed.

Lemma zero_cell_ok l refs range :
  length refs = length l -> (forall i, inside l i -> refs !! Z.to_nat i = Some (refs_to l i)) ->
  (forall i, i ∈ range -> inside l i) ->
  exists z, zero_cell refs range = Ok z /\
    (z = -1 /\ (forall i, i ∈ range -> refs_to l i <> 0) \/ z ∈ range /\ refs_to l z = 0).
Proof.
  intros Hlen H. induction range as [|i range IH]; intros Hr; cbn [zero_cell].
  - exists (-1). split; [done|]. left. split; [done|]. set_solver.
  - assert (Hi : inside l i) by (apply Hr; left). unfold inside in Hi. replace (0 <=? i) with true by lia. bind_simpl.
    rewrite (at_lookup _ _ _ (H i Hi)). bind_simpl. destruct (Z.eqb_spec (refs_to l i) 0) as [E|E].
    + exists i. split; [done|]. right. split; [left|done].
    + destruct IH as (z & Ez & Hz); [intros j Hj; apply Hr; by right|]. exists z. split; [done|].
      destruct Hz as [[-> Hz]|[Hz ?]]; [left|right]; [|split; [by right|done]].
      split; [done|]. by intros j [->|Hj]%elem_of_cons; [|apply Hz].
Qed.

Lemma refs_to_zero l i : refs_to l i = 0 <-> forall j, inside l j -> src (cell l j) <> i.
Proof.
  unfold refs_to. split.
  - intros E j Hj Es. assert (Hc : cell l j ∈ filter (fun c => src c = i) l).
    { apply list_elem_of_filter. split; [done|]. apply elem_of_cells. eauto. }
    destruct (filter _ l); [set_solver|simpl in E; lia].
  - intros H. rewrite filter_none; [done|]. intros c (j & Hj & <-)%elem_of_cells. by apply H.
Qed.

(** If a cell of the range has no source, another has no references. *)
Lemma some_cell_unreferenced l mn len j0 :
  (forall i, mn <= i < mn + len -> inside l i) ->
  (forall j, inside l j -> mn <= src (cell l j) < mn + len -> mn <= j < mn + len) ->
  mn <= j0 < mn + len -> src (cell l j0) < 0 -> 0 <= mn ->
  ~ forall i, i ∈ seqZ mn len -> refs_to l i <> 0.
Proof.
  intros Hr Hsrc Hj0 Hs Hmn H. apply (not_onto (seqZ mn len) (fun j => src (cell l j)) j0); [apply NoDup_seqZ|by apply elem_of_seqZ|].
  intros i Hi. specialize (H i Hi). apply elem_of_seqZ in Hi.
  destruct (decide (Exists (fun j => src (cell l j) = i) (seqZ 0 (Z.of_nat (length l))))) as [He|He].
  - apply Exists_exists in He as (j & Hj%elem_of_seqZ & E). exists j. split_and!; [|intros ->; lia|done].
    apply elem_of_seqZ. apply Hsrc; [split; lia|lia].
  - exfalso. apply H, refs_to_zero. intros j Hj E. apply He, Exists_exists. exists j. split; [|done].
    apply elem_of_seqZ. unfold inside in Hj. lia.
Qed.

Lemma stage_ok z range l :
  NoDup range -> (forall i, i ∈ range -> inside l i) ->
  (forall i, i ∈ range -> 0 <= src (cell l i) \/ 0 <= z) ->
  exists k, foldM (stage_cell z) l range = Ok k /\ length k = length l /\ forall i, cell k i =
    if decide (i ∈ range) then with_src i (if src (cell l i) <? 0 then z else src (cell l i)) (cell l i) else cell l i.
Proof.
  revert l. induction range as [|i range IH]; intros l Hnd Hr Hz; cbn [foldM].
  - exists l. split_and!; [done..|]. intros i. by rewrite decide_False by set_solver.
  - apply NoDup_cons in Hnd as [Hi Hnd]. assert (Hii : inside l i) by (apply Hr; left).
    assert (Es : stage_cell z l i = Ok (put_cell l i (with_src i (if src (cell l i) <? 0 then z else src (cell l i)) (cell l i)))).
    { unfold stage_cell. rewrite cell_at_ok by done. bind_simpl.
      replace ((0 <=? src (cell l i)) || (0 <=? z)) with true by (specialize (Hz i ltac:(left)); lia). bind_simpl. by rewrite update_ok. }
    rewrite Es. bind_simpl. set (la := put_cell l i _).
    assert (Ea : forall j, cell la j = if decide (j = i) then with_src i (if src (cell l i) <? 0 then z else src (cell l i)) (cell l i) else cell l j)
      by (intros j; by apply cell_set).
    assert (La : length la = length l) by (subst la; by rewrite length_set). clearbody la.
    assert (Ho : forall j, j ∈ range -> cell la j = cell l j).
    { intros j Hj. rewrite Ea. rewrite decide_False; [done|]. by intros ->. }
    destruct (IH la) as (k & Ek & Lk & Hk); [done|..].
    + intros j Hj. specialize (Hr j ltac:(by right)). unfold inside in *. lia.
    + intros j Hj. rewrite Ho by done. apply Hz. by right.
    + exists k. split_and!; [done|by rewrite Lk|]. intros j. rewrite Hk.
      rewrite (decide_ext (j ∈ i :: range) (j = i \/ j ∈ range)) by apply elem_of_cons.
      destruct (decide (j ∈ range)) as [Hj|Hj]; [rewrite decide_True by tauto; by rewrite !Ho|]. rewrite Ea.
      destruct (decide (j = i)) as [->|]; [by rewrite decide_True by tauto|by rewrite decide_False by tauto].
Qed.

End RecurrentGather.
