(* ===== verification/RecurrentPlace.v ===== *)
(** The placement of a ubatch in a recurrent memory as a whole: it succeeds when each
    sequence has a cell number and is in one set of the ubatch, it keeps the memory well
    formed, it gives the sets consecutive cells, and each cell in the range of the ubatch
    is given the row of the state that moves there, or one of zeros. *)

From S2P Require Import Prelude.
From S2P Require Import Memory.
From S2P Require Import Batch.
From S2P Require Import Recurrent.
From S2P Require Import RecurrentWf.
From S2P Require Import RecurrentSlot.
From S2P Require Import RecurrentGather.

Module RecurrentPlace.
Import Recurrent.
Import RecurrentWf.
Import RecurrentSlot.
Import RecurrentGather.

(** ** What a placement does *)

(** A free cell whose row is of zeros. *)
Definition blank (l : list mem_cell) (i : Z) : Prop := 0 <= i /\ seq_id (cell l i) = ∅ /\ src (cell l i) = i.

(** The cells [l] after the placement of the sets in the [n] cells from [h] on, with row
    [z] to be zeroed, when [l0] were the cells before. *)
Record slotted (l0 : list mem_cell) (sets : list (Z * list Z)) (lasts : list Z) (l : list mem_cell) (h n z : Z) : Prop := mk_slotted {
  sl_range : 0 <= h /\ Z.of_nat (length sets) <= n /\ h + n <= Z.of_nat (length l0) /\ length l = length l0;
  sl_set : forall k q rest p s, sets !! k = Some (q, rest) -> lasts !! k = Some p -> s ∈ q :: rest ->
    tail (cell l s) = h + Z.of_nat k /\ view l s = Some (p, list_to_set (q :: rest));
  sl_other : forall s, s ∉ (fst <$> sets) ++ (sets ≫= snd) ->
    view l s = forget (list_to_set ((fst <$> sets) ++ (sets ≫= snd))) (view l0) s;
  sl_source : forall s, s ∉ (fst <$> sets) ++ (sets ≫= snd) -> 0 <= tail (cell l0 s) ->
    tail (cell l0 s) <> z /\ ~ h <= tail (cell l s) < h + Z.of_nat (length sets) /\
    (if decide (h <= tail (cell l s) < h + n) then src0 (cell l (tail (cell l s))) = tail (cell l0 s)
     else tail (cell l s) = tail (cell l0 s));
  sl_input : forall k q rest, sets !! k = Some (q, rest) -> 0 <= tail (cell l0 q) ->
    src0 (cell l (h + Z.of_nat k)) = tail (cell l0 q) /\ tail (cell l0 q) <> z;
  sl_blank : forall i, h <= i < h + n ->
    seq_id (cell l i) = ∅ \/ (exists k q rest, i = h + Z.of_nat k /\ sets !! k = Some (q, rest) /\ tail (cell l0 q) < 0) ->
    src0 (cell l i) = z /\ 0 <= z \/ blank l0 (src0 (cell l i));
  sl_out : forall i, ~ h <= i < h + n -> blank l i -> blank l0 i;
  sl_zero : z < 0 \/ h <= z < h + n;
  sl_src0 : forall i, h <= i < h + n -> inside l0 (src0 (cell l i));
  sl_one : length sets = 1%nat -> n = 1;
}.

Lemma forgets_blank D l k i : forgets D l k -> blank k i -> blank l i.
Proof. intros F (Hi & He & Es). destruct (fg_free _ _ _ F i He) as [|[He' Es']]; [lia|]. split_and!; congruence. Qed.

Lemma forget_forget D E (v : view_t) s : s ∉ E -> (fun x : Z * gset Z => (x.1, x.2 ∖ E)) <$> forget D v s = forget (D ∪ E) v s.
Proof.
  intros Hs. unfold forget. destruct (decide (s ∈ D)); [by rewrite decide_True by set_solver|].
  rewrite decide_False by set_solver. destruct (v s) as [[p X]|]; [|done]. simpl. do 2 f_equal. set_solver.
Qed.

(** ** From the cleared cells to the settled ones *)

Section Steps.
Context {float : Type} (n_cells : Z) (ub : Batch.llama_ubatch float) (sets : list (Z * list Z)) (lasts : list Z).
Context (U : ubatch_ok n_cells ub sets lasts).
Abbreviation qs := (fst <$> sets).
Abbreviation len := (Z.of_nat (length sets)).
Abbreviation inset := (in_set sets).

(** The cells when the shared sequences have left theirs, when each set has a cell, when
    these are side by side, and when they have taken their positions. *)
Context (l1 l2 l3 l4 : list mem_cell) (mn mx : Z) (to from : Z -> Z).
Context (H1 : cells_ok l1) (Hn : Z.of_nat (length l1) = n_cells)
  (Hrest : forall s, s ∈ sets ≫= snd -> tail (cell l1 s) = -1)
  (P : placed l1 qs l2 mn mx)
  (G : gathered l2 qs mn mx (length qs) l3 to from)
  (S : settled sets lasts l3 mn (length sets) l4).

Lemma in_qs s : s ∈ qs -> exists k q rest, sets !! k = Some (q, rest) /\ s = q.
Proof. intros ([q rest] & -> & [k Hk]%list_elem_of_lookup)%list_elem_of_fmap. by exists k, q, rest. Qed.

Lemma in_rests s : s ∈ sets ≫= snd -> exists k q rest, sets !! k = Some (q, rest) /\ s ∈ rest.
Proof. intros ([q rest] & Hs & [k Hk]%list_elem_of_lookup)%list_elem_of_bind. by exists k, q, rest. Qed.

Lemma in_sets_cases k s : inset k s -> (exists q rest, sets !! k = Some (q, rest) /\ s = q) \/ s ∈ sets ≫= snd.
Proof.
  intros (q & rest & Hk & [->|Hs]%elem_of_cons); [left; by exists q, rest|right].
  apply list_elem_of_lookup_2 in Hk. apply list_elem_of_bind. by exists (q, rest).
Qed.

Lemma in_set_lt k s : inset k s -> (k < length sets)%nat.
Proof. intros (q & rest & Hk & _). by eapply lookup_lt_Some. Qed.

Lemma tail_l2 s : -1 <= tail (cell l2 s).
Proof.
  destruct (decide (s ∈ qs)) as [Hs|Hs]; [destruct (pc_in _ _ _ _ _ P s Hs) as [[? _] _]; lia|].
  rewrite (pc_tail _ _ _ _ _ P s Hs). apply (co_tail _ H1).
Qed.

Lemma to_none : to (-1) = -1.
Proof. apply (ga_fix _ _ _ _ _ _ _ _ G). pose proof (pc_bounds _ _ _ _ _ P). lia. Qed.

Lemma from_none : from (-1) = -1.
Proof. rewrite <- to_none at 1. apply (ga_from _ _ _ _ _ _ _ _ G). Qed.

Lemma from_fix i : ~ mn <= i <= mx -> from i = i.
Proof. intros Hi. rewrite <- (ga_fix _ _ _ _ _ _ _ _ G i Hi) at 1. apply (ga_from _ _ _ _ _ _ _ _ G). Qed.

Lemma from_range i : mn <= from i <= mx <-> mn <= i <= mx.
Proof. rewrite <- (gathered_range _ _ _ _ _ _ _ _ (from i) G). by rewrite (ga_to _ _ _ _ _ _ _ _ G). Qed.

(** *** Sequences out of the sets *)

Lemma tail_l4_other s : (forall k, ~ inset k s) -> tail (cell l4 s) = to (tail (cell l1 s)).
Proof.
  intros Hs. rewrite (st_tail _ _ _ _ _ _ S), (ga_tail _ _ _ _ _ _ _ _ G) by auto.
  rewrite (pc_tail _ _ _ _ _ P); [done|]. intros (k & q & rest & Hk & ->)%in_qs. apply (Hs k). exists q, rest. split; [done|left].
Qed.

Lemma tail_l4_set k s : inset k s -> tail (cell l4 s) = mn + Z.of_nat k.
Proof. intros Hs. by apply (st_tail_in _ _ _ _ _ _ S); [by eapply in_set_lt|]. Qed.

Lemma sets_room : mn + len <= mx + 1 /\ 0 <= mn /\ mx < n_cells.
Proof.
  pose proof (pc_bounds _ _ _ _ _ P). pose proof (pc_len _ _ _ _ _ P).
  pose proof (sets_fit l2 qs mn mx (pc_in _ _ _ _ _ P) (pc_nodup _ _ _ _ _ P)) as Hf. rewrite length_fmap in Hf.
  assert (0 < len) by (pose proof (ub_some _ _ _ _ U); destruct sets; [done|simpl; lia]). lia.
Qed.

(** The sequences listed by a cell that is not one of the sets'. *)
Lemma ids_l4_other s i : ~ mn <= i < mn + len ->
  (s ∈ seq_id (cell l4 i) <-> (forall k, ~ inset k s) /\ 0 <= tail (cell l1 s) /\ tail (cell l1 s) = from i).
Proof.
  intros Hi. destruct (st_other _ _ _ _ _ _ S i Hi) as [_ ->]. destruct (ga_state _ _ _ _ _ _ _ _ G i) as (_ & _ & ->).
  rewrite (pc_ids _ _ _ _ _ P). split.
  - intros (Hf & Et & H0). assert (Hno : forall k, ~ inset k s).
    { intros k Hs. pose proof (in_set_lt k s Hs) as Hlt. destruct (in_sets_cases k s Hs) as [(q & rest & Hk & ->)|Hr]; [|rewrite Hrest in H0 by done; lia].
      assert (Eq : tail (cell l3 q) = mn + Z.of_nat k).
      { apply (ga_done _ _ _ _ _ _ _ _ G k q); [by rewrite length_fmap|]. by rewrite list_lookup_fmap, Hk. }
      rewrite (ga_tail _ _ _ _ _ _ _ _ G), Et, (ga_to _ _ _ _ _ _ _ _ G) in Eq. lia. }
    split_and!; [done..|]. rewrite <- Et. symmetry. apply (pc_tail _ _ _ _ _ P).
    intros (k & q & rest & Hk & ->)%in_qs. apply (Hno k). exists q, rest. split; [done|left].
  - intros (Hno & H0 & Et). assert (E2 : tail (cell l2 s) = tail (cell l1 s)).
    { apply (pc_tail _ _ _ _ _ P). intros (k & q & rest & Hk & ->)%in_qs. apply (Hno k). exists q, rest. split; [done|left]. }
    split_and!; [lia|congruence|done].
Qed.

Lemma ids_l4_set k q rest : sets !! k = Some (q, rest) -> seq_id (cell l4 (mn + Z.of_nat k)) = list_to_set (q :: rest).
Proof. intros Hk. apply (st_ids _ _ _ _ _ _ S); [by eapply lookup_lt_Some|done]. Qed.

Lemma set_cell_of i : mn <= i < mn + len -> exists k q rest, i = mn + Z.of_nat k /\ sets !! k = Some (q, rest).
Proof.
  intros Hi. destruct (lookup_lt_is_Some_2 sets (Z.to_nat (i - mn))) as [[q rest] Hk]; [lia|].
  exists (Z.to_nat (i - mn)), q, rest. split; [lia|done].
Qed.

Lemma in_sets s : s ∈ qs ++ (sets ≫= snd) <-> exists k, inset k s.
Proof.
  rewrite elem_of_app. split.
  - intros [(k & q & rest & Hk & ->)%in_qs|(k & q & rest & Hk & Hs)%in_rests]; exists k, q, rest; (split; [done|]); [left|by right].
  - intros [k Hs]. pose proof Hs as Hs'. destruct (in_sets_cases k s Hs') as [(q & rest & Hk & ->)|]; [left|by right].
    by apply (list_elem_of_fmap_2' _ _ (q, rest)); [eapply list_elem_of_lookup_2|].
Qed.

Lemma not_in_sets s : s ∉ qs ++ (sets ≫= snd) <-> forall k, ~ inset k s.
Proof. rewrite in_sets. naive_solver. Qed.

(** A cell and the tails agree again. *)
Lemma link_l4 s i : 0 <= i -> (s ∈ seq_id (cell l4 i) <-> tail (cell l4 s) = i).
Proof.
  intros Hi. destruct (decide (mn <= i < mn + len)) as [Hin|Hout].
  - destruct (set_cell_of i Hin) as (k & q & rest & -> & Hk). rewrite (ids_l4_set _ _ _ Hk), elem_of_list_to_set. split.
    + intros Hs. apply tail_l4_set. by exists q, rest.
    + intros Et. destruct (decide (s ∈ qs ++ (sets ≫= snd))) as [[j Hj]%in_sets|Hno].
      * rewrite (tail_l4_set j s Hj) in Et. assert (j = k) as -> by lia. destruct Hj as (q' & rest' & Hk' & ?). congruence.
      * pose proof (proj1 (not_in_sets s) Hno) as Hno'. rewrite tail_l4_other in Et by done. exfalso.
        assert (Eq : tail (cell l3 q) = mn + Z.of_nat k).
        { apply (ga_done _ _ _ _ _ _ _ _ G k q); [rewrite length_fmap; by eapply lookup_lt_Some|]. by rewrite list_lookup_fmap, Hk. }
        rewrite (ga_tail _ _ _ _ _ _ _ _ G), <- Et in Eq. apply (f_equal from) in Eq. rewrite !(ga_from _ _ _ _ _ _ _ _ G) in Eq.
        assert (Hq : q ∈ qs) by (by apply (list_elem_of_fmap_2' _ _ (q, rest)); [eapply list_elem_of_lookup_2|]).
        pose proof (pc_own _ _ _ _ _ P q Hq) as Ho. destruct (pc_in _ _ _ _ _ P q Hq) as [[Ht0 _] _]. rewrite Eq in Ho, Ht0.
        assert (Hs : s ∈ seq_id (cell l2 (tail (cell l1 s)))).
        { apply (pc_ids _ _ _ _ _ P). split_and!; [done| |done]. apply (pc_tail _ _ _ _ _ P). intros Hs. apply Hno, elem_of_app. by left. }
        apply Ho, elem_of_singleton in Hs as ->. apply Hno, elem_of_app. by left.
  - rewrite ids_l4_other by done. destruct (decide (s ∈ qs ++ (sets ≫= snd))) as [[j Hj]%in_sets|Hno].
    + rewrite (tail_l4_set j s Hj). pose proof (in_set_lt j s Hj). split; [intros (Hno & _); by destruct (Hno j)|lia].
    + pose proof (proj1 (not_in_sets s) Hno) as Hno'. rewrite tail_l4_other by done. split.
      * intros (_ & _ & ->). apply (ga_to _ _ _ _ _ _ _ _ G).
      * intros <-. rewrite (ga_from _ _ _ _ _ _ _ _ G). split_and!; [done| |done].
        pose proof (co_tail _ H1 s). destruct (Z.eq_dec (tail (cell l1 s)) (-1)) as [E|]; [|lia]. rewrite E, to_none in Hi. lia.
Qed.

(** *** Positions and sources *)

Lemma state_l2 s : 0 <= tail (cell l1 s) ->
  pos (cell l2 (tail (cell l2 s))) = pos (cell l1 (tail (cell l1 s))) /\ src (cell l2 (tail (cell l2 s))) = tail (cell l1 s).
Proof.
  intros Hs. destruct (pc_state _ _ _ _ _ P s Hs) as [-> ->]. split; [done|]. apply (co_src _ H1).
  destruct (tail_inside _ s H1 Hs). set_solver.
Qed.

(** The source of a cell before its state moves: that of a sequence it holds, or itself. *)
Lemma src_l2 j : (exists s, s ∈ seq_id (cell l2 j) /\ 0 <= tail (cell l1 s) /\ tail (cell l2 s) = j /\ src (cell l2 j) = tail (cell l1 s)) \/
  seq_id (cell l2 j) = ∅ /\ seq_id (cell l1 j) = ∅ /\ pos (cell l2 j) = -1 /\ src (cell l2 j) = src (cell l1 j) /\
    (src (cell l1 j) = -1 \/ src (cell l1 j) = j).
Proof.
  destruct (decide (seq_id (cell l2 j) = ∅)) as [He|He].
  - right. destruct (pc_empty _ _ _ _ _ P j He) as (He1 & -> & ->). destruct (co_free _ H1 j He1). by split_and!.
  - left. apply set_choose_L in He as [s Hs]. exists s. pose proof (proj1 (pc_ids _ _ _ _ _ P s j) Hs) as (Hj & Et & H0).
    split_and!; try done. rewrite <- Et. by apply state_l2.
Qed.

Lemma src_l4 i : src (cell l4 i) = src (cell l2 (from i)).
Proof. rewrite (st_src _ _ _ _ _ _ S). apply (ga_state _ _ _ _ _ _ _ _ G). Qed.

Lemma src_l4_inside i : 0 <= src (cell l4 i) -> inside l4 (src (cell l4 i)).
Proof.
  intros Hi. pose proof (st_len _ _ _ _ _ _ S) as E4. rewrite (ga_len _ _ _ _ _ _ _ _ G), (pc_len _ _ _ _ _ P) in E4.
  rewrite src_l4 in *. destruct (src_l2 (from i)) as [(s & Hs & H0 & Et & Es)|(He & He1 & _ & Es & Hsrc)].
  - rewrite Es. destruct (tail_inside _ s H1 H0) as [? _]. unfold inside in *. lia.
  - destruct Hsrc as [Hsrc|Hsrc]; [lia|]. rewrite Es, Hsrc in *.
    destruct (decide (inside l1 (from i))) as [|Ho]; [unfold inside in *; lia|]. rewrite cell_outside in Hsrc by done. simpl in Hsrc. lia.
Qed.

(** Out of the range of the ubatch a cell is its own source. *)
Lemma src_l4_out i : ~ mn <= i <= mx ->
  src (cell l4 i) = src (cell l1 i) /\ (seq_id (cell l4 i) = ∅ <-> seq_id (cell l1 i) = ∅) /\ (src (cell l4 i) = -1 \/ src (cell l4 i) = i).
Proof.
  intros Hi. pose proof sets_room as (R1 & R2 & R3). rewrite src_l4, (from_fix i Hi).
  destruct (st_other _ _ _ _ _ _ S i) as [_ Ei]; [lia|]. destruct (ga_state _ _ _ _ _ _ _ _ G i) as (_ & _ & Ei3).
  rewrite (from_fix i Hi) in Ei3. destruct (src_l2 i) as [(s & Hs & H0 & Et & Es)|(He & He1 & _ & Es & Hsrc)].
  - assert (Hsq : s ∉ qs) by (intros Hq; destruct (pc_in _ _ _ _ _ P s Hq) as [_ ?]; lia).
    rewrite (pc_tail _ _ _ _ _ P s Hsq) in Et. destruct (tail_inside _ s H1 H0) as [_ Hin]. rewrite Et in Hin.
    rewrite Es, Et. split_and!; [|rewrite Ei, Ei3; set_solver|by right]. symmetry. apply (co_src _ H1). set_solver.
  - split_and!; [done|by rewrite Ei, Ei3, He, He1|]. rewrite Es. destruct Hsrc as [-> | ->]; auto.
Qed.


(** *** The rows of zeros and the sources *)

(** The row of zeros is one that no cell has for its source; it is there if it is needed. *)
Definition zero_ok (z : Z) : Prop :=
  (z = -1 /\ forall i, mn <= i <= mx -> 0 <= src (cell l4 i)) \/
  (mn <= z <= mx /\ forall j, inside l4 j -> src (cell l4 j) <> z).

Definition staged (z : Z) (l5 : list mem_cell) : Prop :=
  length l5 = length l4 /\ forall i, cell l5 i =
    if decide (mn <= i <= mx) then with_src i (if src (cell l4 i) <? 0 then z else src (cell l4 i)) (cell l4 i) else cell l4 i.

Lemma length_l4 : Z.of_nat (length l4) = n_cells.
Proof. by rewrite (st_len _ _ _ _ _ _ S), (ga_len _ _ _ _ _ _ _ _ G), (pc_len _ _ _ _ _ P). Qed.

Lemma stage_run : exists refs z l5,
  count_refs l4 = Ok refs /\ zero_cell refs (seqZ mn (mx - mn + 1)) = Ok z /\
  foldM (stage_cell z) l4 (seqZ mn (mx - mn + 1)) = Ok l5 /\ zero_ok z /\ staged z l5.
Proof.
  pose proof sets_room as (R1 & R2 & R3). pose proof length_l4 as E4.
  assert (Hr : forall i, i ∈ seqZ mn (mx - mn + 1) <-> mn <= i <= mx) by (intros i; rewrite elem_of_seqZ; lia).
  destruct (count_refs_ok l4) as (refs & Er & Lr & Hrefs).
  { intros c (i & Hi & <-)%elem_of_cells. apply src_l4_inside. }
  destruct (zero_cell_ok l4 refs (seqZ mn (mx - mn + 1)) Lr Hrefs) as (z & Ez & Hz).
  { intros i Hi%Hr. split; lia. }
  assert (Hzok : zero_ok z).
  { destruct Hz as [[-> Hz]|[Hz Hz0]]; [left|right; split; [by apply Hr|by apply refs_to_zero]].
    split; [done|]. intros i Hi. destruct (Z.le_gt_cases 0 (src (cell l4 i))) as [|Hneg]; [done|]. exfalso.
    apply (some_cell_unreferenced l4 mn (mx - mn + 1) i); try done; try lia.
    - intros j Hj. split; lia.
    - intros j Hj Hs. destruct (decide (mn <= j <= mx)) as [|Ho]; [lia|]. destruct (src_l4_out j Ho) as (_ & _ & [E|E]); lia. }
  destruct (stage_ok z (seqZ mn (mx - mn + 1)) l4) as (l5 & E5 & L5 & H5); [apply NoDup_seqZ|intros i Hi%Hr; split; lia| |].
  { intros i Hi%Hr. destruct Hzok as [[_ H]|[H _]]; [left; by apply H|right; lia]. }
  exists refs, z, l5. split_and!; try done. split; [done|]. intros i. rewrite H5. by rewrite (decide_ext _ _ _ _ (Hr i)).
Qed.

Context (z : Z) (l5 : list mem_cell) (Hz : zero_ok z) (T : staged z l5).

Lemma l5_fields i : tail (cell l5 i) = tail (cell l4 i) /\ pos (cell l5 i) = pos (cell l4 i) /\ seq_id (cell l5 i) = seq_id (cell l4 i) /\
  src (cell l5 i) = if decide (mn <= i <= mx) then i else src (cell l4 i).
Proof. rewrite (proj2 T). by case_decide. Qed.

Lemma tail_l5_other s : (forall k, ~ inset k s) -> tail (cell l5 s) = to (tail (cell l1 s)).
Proof. intros Hs. rewrite (proj1 (l5_fields s)). by apply tail_l4_other. Qed.

Lemma tail_l5_set k s : inset k s -> tail (cell l5 s) = mn + Z.of_nat k.
Proof. intros Hs. rewrite (proj1 (l5_fields s)). by apply tail_l4_set. Qed.

Lemma pos_l4_set k q rest : sets !! k = Some (q, rest) -> exists p, lasts !! k = Some p /\ pos (cell l4 (mn + Z.of_nat k)) = p /\ 0 <= p < INT32_MAX.
Proof.
  intros Hk%lookup_lt_Some. destruct (lookup_lt_is_Some_2 lasts k) as [p Hp]; [by rewrite (ub_lasts _ _ _ _ U)|].
  exists p. split_and!; [done|by apply (st_pos _ _ _ _ _ _ S)|apply (ub_pos _ _ _ _ U k p Hp)..].
Qed.

Lemma pos_l4_other i : ~ mn <= i < mn + len -> pos (cell l4 i) = pos (cell l2 (from i)) /\ seq_id (cell l4 i) = seq_id (cell l2 (from i)).
Proof.
  intros Hi. destruct (st_other _ _ _ _ _ _ S i Hi) as [-> ->]. destruct (ga_state _ _ _ _ _ _ _ _ G i) as (-> & _ & ->). done.
Qed.

Lemma tail_l4_min s : -1 <= tail (cell l4 s).
Proof.
  destruct (decide (s ∈ qs ++ (sets ≫= snd))) as [[j Hj]%in_sets|Hno].
  - rewrite (tail_l4_set j s Hj). pose proof sets_room. lia.
  - rewrite tail_l4_other by by apply not_in_sets. pose proof (co_tail _ H1 s). pose proof sets_room as (R1 & R2 & R3).
    destruct (decide (mn <= tail (cell l1 s) <= mx)) as [Hr|Hr].
    + apply (gathered_range _ _ _ _ _ _ _ _ _ G) in Hr. lia.
    + by rewrite (ga_fix _ _ _ _ _ _ _ _ G).
Qed.

Lemma cells_ok_l5 : cells_ok l5.
Proof.
  split; intros; rewrite ?(proj1 (l5_fields _)), ?(proj1 (proj2 (l5_fields _))), ?(proj2 (proj2 (proj2 (l5_fields _)))), ?(proj1 (proj2 (proj2 (l5_fields _)))) in *.
  - by apply link_l4.
  - apply tail_l4_min.
  - split.
    + destruct (decide (mn <= i < mn + len)) as [Hin|Hout].
      * destruct (set_cell_of i Hin) as (k & q & rest & -> & Hk). rewrite (ids_l4_set _ _ _ Hk) in H. set_solver.
      * destruct (pos_l4_other i Hout) as [-> Ei]. rewrite Ei in H.
        destruct (src_l2 (from i)) as [(s & Hs & _)|(_ & _ & Hp & _)]; [set_solver|done].
    + case_decide as Hr; [by right|]. apply (src_l4_out i Hr).
  - destruct (decide (mn <= i < mn + len)) as [Hin|Hout].
    + destruct (set_cell_of i Hin) as (k & q & rest & -> & Hk). by destruct (pos_l4_set k q rest Hk) as (p & _ & -> & Hp).
    + destruct (pos_l4_other i Hout) as [-> Ei]. rewrite Ei in H.
      destruct (src_l2 (from i)) as [(s & Hs & H0 & Et & _)|(He & _)]; [|done]. rewrite <- Et.
      destruct (state_l2 s H0) as [-> _]. apply (co_pos _ H1). destruct (tail_inside _ s H1 H0). set_solver.
  - case_decide as Hr; [done|]. destruct (src_l4_out i Hr) as (Es & Ei & _). rewrite Es. apply (co_src _ H1). tauto.
Qed.

(** *** What the sequences have *)

Lemma view_l5_set k q rest p s :
  sets !! k = Some (q, rest) -> lasts !! k = Some p -> s ∈ q :: rest -> view l5 s = Some (p, list_to_set (q :: rest)).
Proof.
  intros Hk Hp Hs. pose proof sets_room as (R1 & R2 & R3). unfold view. rewrite (tail_l5_set k s) by by exists q, rest.
  rewrite (proj2 (Z.ltb_ge (mn + Z.of_nat k) 0)) by lia.
  destruct (l5_fields (mn + Z.of_nat k)) as (_ & -> & -> & _). rewrite (ids_l4_set _ _ _ Hk).
  destruct (pos_l4_set k q rest Hk) as (p' & Hp' & -> & _). congruence.
Qed.

Lemma tail_l2_other s : (forall k, ~ inset k s) -> tail (cell l2 s) = tail (cell l1 s).
Proof. intros Hs. apply (pc_tail _ _ _ _ _ P). intros (k & q & rest & Hk & ->)%in_qs. apply (Hs k). exists q, rest. split; [done|left]. Qed.

Lemma to_pos t : 0 <= t -> 0 <= to t.
Proof.
  intros Ht. pose proof sets_room as (R1 & R2 & R3). destruct (decide (mn <= t <= mx)) as [Hr|Hr].
  - apply (gathered_range _ _ _ _ _ _ _ _ _ G) in Hr. lia.
  - by rewrite (ga_fix _ _ _ _ _ _ _ _ G).
Qed.

(** The state of a sequence out of the sets is in no cell of theirs. *)
Lemma other_cell s : (forall k, ~ inset k s) -> 0 <= tail (cell l1 s) -> ~ mn <= to (tail (cell l1 s)) < mn + len.
Proof.
  intros Hs H0 Hin. pose proof sets_room as (R1 & R2 & R3). destruct (set_cell_of _ Hin) as (k & q & rest & E & Hk).
  assert (Hs' : s ∈ seq_id (cell l4 (mn + Z.of_nat k))).
  { apply link_l4; [lia|]. by rewrite tail_l4_other. }
  rewrite (ids_l4_set _ _ _ Hk), elem_of_list_to_set in Hs'. apply (Hs k). by exists q, rest.
Qed.

Lemma view_l5_other s : (forall k, ~ inset k s) ->
  view l5 s = (fun x => (x.1, x.2 ∖ list_to_set (qs ++ (sets ≫= snd)))) <$> view l1 s.
Proof.
  intros Hs. unfold view. rewrite tail_l5_other by done. pose proof (co_tail _ H1 s) as Ht.
  destruct (Z.ltb_spec (tail (cell l1 s)) 0) as [Hneg|H0].
  { assert (tail (cell l1 s) = -1) as -> by lia. by rewrite to_none. }
  pose proof (to_pos _ H0) as Hto. rewrite (proj2 (Z.ltb_ge (to _) 0)) by lia. simpl.
  destruct (l5_fields (to (tail (cell l1 s)))) as (_ & -> & -> & _).
  destruct (pos_l4_other _ (other_cell s Hs H0)) as [-> Eids]. rewrite (ga_from _ _ _ _ _ _ _ _ G) in *.
  destruct (state_l2 s H0) as [Ep _]. rewrite tail_l2_other in Ep by done. rewrite Ep. do 2 f_equal.
  apply set_eq. intros x. rewrite elem_of_difference, elem_of_list_to_set.
  rewrite (ids_l4_other x (to (tail (cell l1 s))) (other_cell s Hs H0)), (ga_from _ _ _ _ _ _ _ _ G), not_in_sets, (co_link _ H1) by done.
  split; [tauto|]. intros [E Hx]. split_and!; [done|lia|done].
Qed.

(** *** Where the states come from *)

Lemma src_held i s : s ∈ seq_id (cell l2 (from i)) -> 0 <= tail (cell l1 s) /\ src (cell l4 i) = tail (cell l1 s).
Proof.
  intros Hs. pose proof (proj1 (pc_ids _ _ _ _ _ P s (from i)) Hs) as (Hj & Et & H0). split; [done|].
  rewrite src_l4, <- Et. by apply state_l2.
Qed.

Lemma src_not_zero i : 0 <= src (cell l4 i) -> inside l4 i -> src (cell l4 i) <> z.
Proof. intros Hi Hin. destruct Hz as [[-> _]|[_ Hno]]; [lia|by apply Hno]. Qed.

Lemma src0_l5 i : mn <= i <= mx -> src0 (cell l5 i) = if src (cell l4 i) <? 0 then z else src (cell l4 i).
Proof. intros Hi. rewrite (proj2 T). by rewrite decide_True. Qed.

Lemma source_other s : (forall k, ~ inset k s) -> 0 <= tail (cell l1 s) ->
  tail (cell l1 s) <> z /\ ~ mn <= tail (cell l5 s) < mn + len /\
  if decide (mn <= tail (cell l5 s) <= mx) then src0 (cell l5 (tail (cell l5 s))) = tail (cell l1 s)
  else tail (cell l5 s) = tail (cell l1 s).
Proof.
  intros Hs H0. pose proof sets_room as (R1 & R2 & R3). rewrite tail_l5_other by done.
  set (i := to (tail (cell l1 s))). assert (Hi : s ∈ seq_id (cell l2 (from i))).
  { subst i. rewrite (ga_from _ _ _ _ _ _ _ _ G). apply (pc_ids _ _ _ _ _ P). split_and!; [done|by apply tail_l2_other|done]. }
  destruct (src_held i s Hi) as [_ Es]. pose proof (other_cell s Hs H0) as Ho. fold i in Ho.
  assert (Hin : inside l4 i).
  { apply (ids_inside l4 i s). apply link_l4; [by apply to_pos|]. by apply tail_l4_other. }
  split; [rewrite <- Es; apply src_not_zero; [lia|done]|]. split; [done|].
  case_decide as Hr; [|].
  - rewrite src0_l5, Es by done. by rewrite (proj2 (Z.ltb_ge _ 0)).
  - subst i. apply (ga_fix _ _ _ _ _ _ _ _ G). intros Hr'. by apply (gathered_range _ _ _ _ _ _ _ _ _ G) in Hr'.
Qed.

Lemma from_set k q rest : sets !! k = Some (q, rest) -> from (mn + Z.of_nat k) = tail (cell l2 q) /\ q ∈ qs.
Proof.
  intros Hk. split.
  - assert (Eq : tail (cell l3 q) = mn + Z.of_nat k).
    { apply (ga_done _ _ _ _ _ _ _ _ G k q); [rewrite length_fmap; by eapply lookup_lt_Some|]. by rewrite list_lookup_fmap, Hk. }
    rewrite (ga_tail _ _ _ _ _ _ _ _ G) in Eq. rewrite <- Eq. apply (ga_from _ _ _ _ _ _ _ _ G).
  - by apply (list_elem_of_fmap_2' _ _ (q, rest)); [eapply list_elem_of_lookup_2|].
Qed.

Lemma set_range k q rest : sets !! k = Some (q, rest) -> mn <= mn + Z.of_nat k <= mx /\ inside l4 (mn + Z.of_nat k).
Proof.
  intros Hk%lookup_lt_Some. pose proof sets_room as (R1 & R2 & R3). pose proof length_l4. unfold inside. lia.
Qed.

(** A set goes on from the state of its first sequence. *)
Lemma source_set k q rest : sets !! k = Some (q, rest) -> 0 <= tail (cell l1 q) ->
  src0 (cell l5 (mn + Z.of_nat k)) = tail (cell l1 q) /\ tail (cell l1 q) <> z.
Proof.
  intros Hk H0. destruct (from_set k q rest Hk) as [Ef Hq]. destruct (set_range k q rest Hk) as [Hr Hin].
  assert (Hi : q ∈ seq_id (cell l2 (from (mn + Z.of_nat k)))).
  { rewrite Ef. apply (pc_ids _ _ _ _ _ P). split_and!; [|done|done]. by destruct (pc_in _ _ _ _ _ P q Hq) as [[? _] _]. }
  destruct (src_held _ q Hi) as [_ Es]. rewrite src0_l5, Es by done. rewrite (proj2 (Z.ltb_ge _ 0)) by lia.
  split; [done|]. rewrite <- Es. apply src_not_zero; [lia|done].
Qed.

(** A free cell of the range, and a set without a state, take zeros. *)
Lemma source_blank i : mn <= i <= mx ->
  seq_id (cell l5 i) = ∅ \/ (exists k q rest, i = mn + Z.of_nat k /\ sets !! k = Some (q, rest) /\ tail (cell l1 q) < 0) ->
  (src0 (cell l5 i) = z /\ 0 <= z) \/
  (let j := src0 (cell l5 i) in 0 <= j /\ seq_id (cell l1 j) = ∅ /\ src (cell l1 j) = j).
Proof.
  intros Hr Hfree. pose proof sets_room as (R1 & R2 & R3). rewrite src0_l5 by done. rewrite src_l4.
  destruct (src_l2 (from i)) as [(s & Hs & H0 & Et & _)|(_ & He1 & _ & Esrc & Hsrc)].
  - exfalso. destruct Hfree as [He|(k & q & rest & -> & Hk & Hq)].
    + destruct (l5_fields i) as (_ & _ & E & _). rewrite E in He. destruct (decide (mn <= i < mn + len)) as [Hin|Hout].
      * destruct (set_cell_of i Hin) as (k & q & rest & -> & Hk). rewrite (ids_l4_set _ _ _ Hk) in He. set_solver.
      * destruct (pos_l4_other i Hout) as [_ Ei]. rewrite Ei in He. set_solver.
    + destruct (from_set k q rest Hk) as [Ef Hqs]. rewrite Ef in Hs.
      pose proof (pc_own _ _ _ _ _ P q Hqs) as Ho. apply Ho, elem_of_singleton in Hs as ->. lia.
  - destruct Hsrc as [E|E].
    + rewrite Esrc, E. left. split; [done|]. destruct Hz as [[_ Hall]|[Hzr _]]; [|lia]. specialize (Hall i Hr). rewrite src_l4 in Hall. lia.
    + pose proof (proj2 (from_range i) Hr). rewrite Esrc, E, (proj2 (Z.ltb_ge _ 0)) by lia. right. cbv zeta. split_and!; [lia|done|done].
Qed.

(** *** Put together *)

Lemma steps_slotted l0 :
  cells_ok l0 -> forgets (list_to_set (sets ≫= snd)) l0 l1 -> cells_ok l5 /\ slotted l0 sets lasts l5 mn (mx - mn + 1) z.
Proof.
  intros H0 F. pose proof sets_room as (R1 & R2 & R3). pose proof length_l4 as L4.
  assert (Hl : length l1 = length l0) by apply F.
  assert (Hq : forall k q rest, sets !! k = Some (q, rest) -> tail (cell l1 q) = tail (cell l0 q)).
  { intros k q rest Hk. rewrite (fg_tail _ _ _ F), decide_False; [done|]. rewrite elem_of_list_to_set. intros Hin.
    pose proof (ub_nodup _ _ _ _ U) as (_ & Hd & _)%NoDup_app. apply (Hd q); [|done].
    apply (list_elem_of_fmap_2' _ _ (q, rest)); [by eapply list_elem_of_lookup_2|done]. }
  assert (Hs : forall s, s ∉ qs ++ (sets ≫= snd) -> tail (cell l1 s) = tail (cell l0 s)).
  { intros s Hno. rewrite (fg_tail _ _ _ F), decide_False; [done|]. rewrite elem_of_list_to_set. set_solver. }
  assert (Hr : forall i, mn <= i < mn + (mx - mn + 1) <-> mn <= i <= mx) by lia.
  split; [apply cells_ok_l5|]. split.
  - split_and!; try lia. pose proof (proj1 T). lia.
  - intros k q rest p s Hk Hp Hin. split; [apply tail_l5_set; by exists q, rest|by eapply view_l5_set].
  - intros s Hno. rewrite view_l5_other by by apply not_in_sets. rewrite (forgets_view _ l0 l1) by done.
    rewrite forget_forget by by rewrite elem_of_list_to_set. unfold forget.
    rewrite list_to_set_app_L. replace (list_to_set (sets ≫= snd) ∪ (list_to_set qs ∪ list_to_set (sets ≫= snd))) with
      (list_to_set qs ∪ list_to_set (sets ≫= snd) : gset Z) by (apply set_eq; set_solver). done.
  - intros s Hno H. rewrite <- Hs in * by done. destruct (source_other s) as (A1 & A2 & A3); [by apply not_in_sets|done|].
    split_and!; [done..|]. by rewrite (decide_ext _ _ _ _ (Hr _)).
  - intros k q rest Hk H. rewrite <- (Hq k q rest Hk) in *. by eapply source_set.
  - intros i Hi Hfree. apply Hr in Hi. destruct (source_blank i Hi) as [|Hb]; [|by left|right; by apply (forgets_blank _ _ _ _ F)].
    destruct Hfree as [|(k & q & rest & Hk)]; [by left|right]. exists k, q, rest. destruct Hk as (? & Hk & ?). by rewrite (Hq k q rest Hk).
  - intros i Hi (Hi0 & He & Es). rewrite Hr in Hi. destruct (l5_fields i) as (_ & _ & E1 & E2). rewrite decide_False in E2 by done.
    apply (forgets_blank _ _ _ _ F). destruct (src_l4_out i Hi) as (B1 & B2 & _). split_and!; [done|apply B2; congruence|congruence].
  - destruct Hz as [[-> _]|[? _]]; lia.
  - intros i Hi%Hr. rewrite src0_l5 by done. destruct (Z.ltb_spec (src (cell l4 i)) 0) as [Hneg|Hpos].
    + destruct Hz as [[_ Hall]|[? _]]; [specialize (Hall i Hi); lia|]. unfold inside. lia.
    + pose proof (src_l4_inside i Hpos). unfold inside in *. lia.
  - intros Hone. pose proof (pc_tight _ _ _ _ _ P) as Ht. destruct sets as [|[q rest] [|]]; try done. simpl in Ht.
    destruct Ht as [->%list_elem_of_singleton ->%list_elem_of_singleton]. lia.
Qed.

End Steps.

(** ** The placement *)

Section Whole.
Context {float : Type} (ub : Batch.llama_ubatch float) (sets : list (Z * list Z)) (lasts : list Z).

Lemma restart_wf m b : wf m -> wf (if b : bool then with_head m 0 else m).
Proof. intros W. destruct b; [|done]. split; try apply W. simpl. pose proof (wf_size m W). unfold size in *. simpl. lia. Qed.


Lemma find_slot_ok m :
  wf m -> ubatch_ok (size m) ub sets lasts ->
  exists m', find_slot m ub = Ok (m', true) /\ wf m' /\ same_dims m m' /\ rs_idx m' = rs_idx m /\
    slotted (cells m) sets lasts (cells m') (head m') (n m') (rs_z m').
Proof.
  intros W U. pose proof (wf_size m W) as Hsz. unfold find_slot. rewrite (ub_equal _ _ _ _ U). cbn [ensure]. bind_simpl.
  set (b := _ <? head m). pose proof (restart_wf m b W) as W0. set (m0 := if b then with_head m 0 else m) in *.
  assert (E0 : cells m0 = cells m /\ rs_idx m0 = rs_idx m /\ n_rs_seq m0 = n_rs_seq m) by (subst m0; by destruct b).
  destruct E0 as (Ec0 & Er0 & En0). assert (Es0 : size m0 = size m) by (unfold size; by rewrite Ec0). rewrite <- Es0 in U.
  rewrite (ub_n _ _ _ _ U). destruct (clear_sets_ok m0 ub sets lasts [] sets W0 U eq_refl) as (m1 & Ecl & W1 & S1 & Hh1 & Hr1 & F1).
  cbn [length] in Ecl. rewrite Ecl. bind_simpl. cbn [fst snd negb]. pose proof (same_size _ _ S1) as Es1. rewrite Ec0 in F1.
  assert (Hl1 : Z.of_nat (length (cells m1)) = size m) by (fold (size m1); lia).
  destruct (search (cells m1) (head m1) ltac:(lia)) as (next & -> & Hf); [rewrite Hh1; pose proof (wf_head _ W0); lia|].
  bind_simpl. rewrite u32_small, i32_small by lia.
  assert (Hids : forall k q, (fst <$> sets) !! k = Some q -> first_id ub k = Ok q /\ inside (cells m1) q).
  { intros k q Hk. rewrite list_lookup_fmap in Hk. destruct (sets !! k) as [[q' rest]|] eqn:Ek; [|done]. simplify_eq/=.
    split; [by eapply first_id_ok|]. unfold inside. rewrite Hl1, <- Es0. apply (ub_range _ _ _ _ U), elem_of_app. left.
    by apply (list_elem_of_fmap_2' _ _ (q, rest)); [eapply list_elem_of_lookup_2|]. }
  destruct (place_sets_ok (cells m1) (wf_cells _ W1) ub (head m1) (fst <$> sets) [] (cells m1) (size m1 - 1) 0 next) as (l2 & next2 & mn & mx & Ep & P).
  { rewrite Hl1. lia. } { rewrite (ub_n _ _ _ _ U). cbn [app]. by rewrite length_fmap. } { by pose proof (ub_nodup _ _ _ _ U) as (Hnd & _)%NoDup_app. } { done. }
  { unfold size. apply placed_nil; [apply W1|lia]. } { intros _. by apply next_nil; [apply W1|exists next]. }
  rewrite length_fmap in Ep. cbn [length] in Ep. cbn [app] in P. rewrite Ep. bind_simpl. cbn [pl_cells pl_min pl_max].
  pose proof (pc_len _ _ _ _ _ P) as L2. pose proof (pc_bounds _ _ _ _ _ P) as Hb.
  pose proof (sets_fit l2 (fst <$> sets) mn mx (pc_in _ _ _ _ _ P) (pc_nodup _ _ _ _ _ P)) as Hfit. rewrite length_fmap in Hfit.
  assert (Hlen : 0 < Z.of_nat (length sets)) by (pose proof (ub_some _ _ _ _ U); destruct sets; [done|simpl; lia]).
  destruct (gather_ok l2 (fst <$> sets) mn mx (pc_in _ _ _ _ _ P) (pc_nodup _ _ _ _ _ P) ltac:(lia) ltac:(lia) ub) as (l3 & to & from & Eg & G).
  { intros k q Hk. destruct (Hids k q Hk) as [? Hi]. split; [done|]. unfold inside in *. lia. }
  rewrite length_fmap in Eg. rewrite Eg. bind_simpl.
  destruct (settle_ok (size m0) ub sets lasts U l3 mn) as (l4 & Es & S); [rewrite (ga_len _ _ _ _ _ _ _ _ G); lia|lia..|].
  rewrite Es. bind_simpl.
  assert (Hrest : forall s, s ∈ sets ≫= snd -> tail (cell (cells m1) s) = -1).
  { intros s Hs. rewrite (fg_tail _ _ _ F1), decide_True; [done|]. by apply elem_of_list_to_set. }
  destruct (stage_run (size m0) ub sets lasts U (cells m1) l2 l3 l4 mn mx to from (wf_cells _ W1) ltac:(lia) Hrest P G S)
    as (refs & z & l5 & -> & Ez & E5 & Hz & T). bind_simpl. rewrite Ez. bind_simpl. rewrite E5. bind_simpl.
  destruct (steps_slotted (size m0) ub sets lasts U (cells m1) l2 l3 l4 mn mx to from (wf_cells _ W1) ltac:(lia) Hrest P G S z l5 Hz T (cells m))
    as [H5 Hslot]; [apply W|done|].
  destruct (sl_range _ _ _ _ _ _ _ Hslot) as (R1 & R2 & R3 & R4). fold (size m) in R3. rewrite !u32_small by lia.
  rewrite (proj2 (Z.leb_le _ _)) by lia. eexists. split; [done|]. cbn [rs_idx cells head n rs_z]. split_and!; [|split_and!| |done].
  - apply (wf_intro m); [done| |done|done|simpl; lia]. split_and!; simpl; [lia|..]; destruct S1 as (_ & A2 & A3); congruence.
  - simpl. lia.
  - simpl. destruct S1 as (_ & A2 & A3). congruence.
  - simpl. congruence.
  - congruence.
Qed.
End Whole.

End RecurrentPlace.
