(* ===== verification/RecurrentState.v ===== *)
(** The states of the sequences of a recurrent model: the rows of the tensors, the
    copies the graph makes when a ubatch is processed (src/src/llama-graph.cpp), and what
    they do to the states: the layers see the states of the sequences of the ubatch, and every
    other sequence keeps its own, wherever its cell went.  Rollback snapshots are left out:
    the theorems are about memories without them. *)

From S2P Require Import Prelude.
From S2P Require Import Memory.
From S2P Require Import Batch.
From S2P Require Import Recurrent.
From S2P Require Import RecurrentWf.
From S2P Require Import RecurrentSlot.
From S2P Require Import RecurrentGather.
From S2P Require Import RecurrentPlace.

Module RecurrentState.
Import Recurrent.
Import RecurrentWf.
Import RecurrentSlot.
Import RecurrentPlace.

Section Rows.
(** A row of the tensors of the states, and the one of zeros. *)
Context {row : Type} (zero : row).

(** ** What the graph does *)

(** The input of the graph: the rows that the cells in the range are copied from. *)
Fixpoint set_input (m : memory) (i : Z) (n_rs : nat) : R (memory * list Z) :=
  match n_rs with
  | O => Ok (m, [])
  | S n_rs => r ← s_copy m i; k ← set_input r.1 (i + 1) n_rs; Ok (k.1, r.2 :: k.2)
  end.

Definition get_row (rows : list row) (i : Z) : R row :=
  _ ← ensure (0 <=? i) Undefined; at_ rows (Z.to_nat i).

(** A copy of rows to a view of the tensor. *)
Definition write_rows (h : Z) (new rows : list row) : R (list row) :=
  _ ← ensure ((0 <=? h) && (h + Z.of_nat (length new) <=? Z.of_nat (length rows))) Undefined;
  Ok (take (Z.to_nat h) rows ++ new ++ drop (Z.to_nat h + length new) rows).

(** The rows after the copies, and the states that the layers start from. *)
Definition build_rs (rows : list row) (copies : list Z) (n_seqs : nat) (rs_head rs_zero : Z) : R (list row * list row) :=
  rows ← (if 0 <=? rs_zero then write_rows rs_zero [zero] rows else Ok rows);
  output_states ← mapM (get_row rows) (take n_seqs copies);
  states_extra ← mapM (get_row rows) (drop n_seqs copies);
  rows ← write_rows (rs_head + Z.of_nat n_seqs) states_extra rows;
  Ok (rows, output_states).

(** The layers write the new states of the sequences of the ubatch to its first rows. *)
Definition store_states (rs_head : Z) (new_state rows : list row) : R (list row) := write_rows rs_head new_state rows.

(** A ubatch whose states are changed by [f]. *)
Definition process {float} (m : memory) (ub : Batch.llama_ubatch float) (rows : list row) (f : list row -> list row)
    : R (memory * list row) :=
  r ← find_slot m ub;
  _ ← ensure r.2 Undefined;
  c ← set_input r.1 0 (Z.to_nat (n r.1));
  p ← build_rs rows c.2 (Batch.u_n_seqs ub) (head r.1) (rs_z r.1);
  rows ← store_states (head r.1) (f p.2) p.1;
  Ok (c.1, rows).

(** ** The state of a sequence *)

(** A sequence without a cell starts from zeros. *)
Definition state_of (rows : list row) (l : list mem_cell) (s : Z) : row :=
  let t := tail (cell l s) in if t <? 0 then zero else default zero (rows !! Z.to_nat t).

(** The free cells that keep a row have one of zeros. *)
Definition blank_rows (rows : list row) (l : list mem_cell) : Prop :=
  forall i, blank l i -> inside l i -> rows !! Z.to_nat i = Some zero.

(** *** Rows *)

Lemma lookup_write_rows h new rows k : 0 <= h -> h + Z.of_nat (length new) <= Z.of_nat (length rows) ->
  write_rows h new rows = Ok k ->
  length k = length rows /\ forall i, 0 <= i -> k !! Z.to_nat i =
    if decide (h <= i < h + Z.of_nat (length new)) then new !! Z.to_nat (i - h) else rows !! Z.to_nat i.
Proof.
  intros Hh Hlen E. unfold write_rows in E. replace ((0 <=? h) && _) with true in E by lia. injection E as <-.
  split; [rewrite !length_app, length_take, length_drop; lia|]. intros i Hi. case_decide as Hr.
  - rewrite lookup_app_r by (rewrite length_take; lia). rewrite length_take, lookup_app_l by lia. f_equal. lia.
  - destruct (decide (i < h)) as [Hlt|Hge].
    + rewrite lookup_app_l by (rewrite length_take; lia). apply lookup_take_lt. lia.
    + rewrite lookup_app_r by (rewrite length_take; lia). rewrite length_take, lookup_app_r by lia. rewrite lookup_drop. f_equal. lia.
Qed.

Lemma write_rows_ok h new rows : 0 <= h -> h + Z.of_nat (length new) <= Z.of_nat (length rows) ->
  exists k, write_rows h new rows = Ok k.
Proof. intros. unfold write_rows. replace ((0 <=? h) && _) with true by lia. eauto. Qed.

Lemma set_input_ok m i k : n_rs_seq m = 0 -> wf m -> 0 <= i -> 0 <= head m -> head m + i + Z.of_nat k <= size m ->
  set_input m i k = Ok (m, (fun j => src0 (cell (cells m) (head m + j))) <$> seqZ i (Z.of_nat k)).
Proof.
  intros Hrs W. revert i. pose proof (wf_size m W) as Hsz. induction k as [|k IH]; intros i Hi Hh Hk; cbn [set_input]; [done|].
  unfold s_copy. rewrite u32_small by lia. rewrite cell_at_ok by (unfold inside; fold (size m); lia). bind_simpl.
  rewrite Hrs. cbn [Z.eqb]. bind_simpl. cbn [fst snd]. rewrite IH by lia. bind_simpl. cbn [fst snd].
  replace (Z.of_nat (S k)) with (Z.succ (Z.of_nat k)) by lia. rewrite (seqZ_cons i) by lia. cbn [fmap list_fmap].
  by rewrite Z.pred_succ, Z.add_1_r, (Z.add_comm i (head m)).
Qed.

Lemma get_rows_ok rows (c : Z -> Z) idxs :
  (forall j, j ∈ idxs -> 0 <= c j < Z.of_nat (length rows)) ->
  exists k, mapM (get_row rows) (c <$> idxs) = Ok k /\ length k = length idxs /\
    forall x j, idxs !! x = Some j -> k !! x = rows !! Z.to_nat (c j).
Proof.
  induction idxs as [|j idxs IH]; intros Hc; [exists []; by split_and!|]. cbn [fmap list_fmap mapM].
  destruct IH as (k & -> & Hlen & Hk); [intros; apply Hc; by right|]. pose proof (Hc j ltac:(left)) as Hj.
  destruct (lookup_lt_is_Some_2 rows (Z.to_nat (c j))) as [r Hr]; [lia|].
  unfold get_row. rewrite (proj2 (Z.leb_le 0 (c j))) by lia. bind_simpl. rewrite (at_lookup _ _ _ Hr). bind_simpl.
  exists (r :: k). split_and!; [done|simpl; lia|]. intros [|x] j' Hx; simplify_eq/=; [done|by apply Hk].
Qed.

(** The copies and the stores, row by row. *)
Lemma graph_ok rows (c : Z -> Z) (n_seqs : nat) h n z f :
  0 <= h -> Z.of_nat n_seqs <= n -> h + n <= Z.of_nat (length rows) -> (z < 0 \/ h <= z < h + n) ->
  (forall j, 0 <= j < n -> 0 <= c j < Z.of_nat (length rows)) -> (forall l : list row, length (f l) = length l) ->
  let rows0 i := if decide (0 <= z /\ i = z) then Some zero else rows !! Z.to_nat i in
  exists rows1 main rows2,
    build_rs rows (c <$> seqZ 0 n) n_seqs h z = Ok (rows1, main) /\ store_states h (f main) rows1 = Ok rows2 /\
    length rows2 = length rows /\ length main = n_seqs /\
    (forall j, 0 <= j < Z.of_nat n_seqs -> main !! Z.to_nat j = rows0 (c j)) /\
    forall i, 0 <= i -> rows2 !! Z.to_nat i =
      if decide (h <= i < h + Z.of_nat n_seqs) then f main !! Z.to_nat (i - h)
      else if decide (h <= i < h + n) then rows0 (c (i - h)) else rows0 i.
Proof.
  intros Hh Hn Hfit Hz Hc Hf rows0. unfold build_rs.
  assert (Hr0 : exists r0, (if 0 <=? z then write_rows z [zero] rows else Ok rows) = Ok r0 /\ length r0 = length rows /\
    forall i, 0 <= i -> r0 !! Z.to_nat i = rows0 i).
  { destruct (Z.leb_spec 0 z) as [Hz0|Hz0].
    - destruct (write_rows_ok z [zero] rows) as [r0 E0]; [lia|simpl; lia|]. exists r0. split; [done|].
      apply lookup_write_rows in E0 as [L0 E0]; [|lia|simpl; lia]. split; [done|]. intros i Hi. rewrite E0 by done. subst rows0. simpl.
      destruct (decide (i = z)) as [->|Hne]; [rewrite decide_True by lia; rewrite decide_True by lia; by rewrite Z.sub_diag|].
      rewrite decide_False by lia. by rewrite decide_False by lia.
    - exists rows. split_and!; [done..|]. intros i Hi. subst rows0. simpl. by rewrite decide_False by lia. }
  destruct Hr0 as (r0 & -> & L0 & E0). bind_simpl.
  assert (Esplit : seqZ 0 n = seqZ 0 (Z.of_nat n_seqs) ++ seqZ (Z.of_nat n_seqs) (n - Z.of_nat n_seqs)).
  { replace n with (Z.of_nat n_seqs + (n - Z.of_nat n_seqs)) at 1 by lia. rewrite seqZ_app by lia. by rewrite Z.add_0_l. }
  rewrite Esplit, fmap_app. assert (Ln : length (c <$> seqZ 0 (Z.of_nat n_seqs)) = n_seqs) by (rewrite length_fmap, length_seqZ; lia).
  rewrite take_app_length', drop_app_length' by done.
  destruct (get_rows_ok r0 c (seqZ 0 (Z.of_nat n_seqs))) as (main & Em & Lm & Hm).
  { intros j Hj%elem_of_seqZ. rewrite L0. apply Hc. lia. }
  destruct (get_rows_ok r0 c (seqZ (Z.of_nat n_seqs) (n - Z.of_nat n_seqs))) as (extra & Ee & Le & He).
  { intros j Hj%elem_of_seqZ. rewrite L0. apply Hc. lia. }
  rewrite Em. bind_simpl. rewrite Ee. bind_simpl. rewrite length_seqZ in Lm, Le.
  destruct (write_rows_ok (h + Z.of_nat n_seqs) extra r0) as [r1 E1]; [lia..|]. rewrite E1. bind_simpl.
  apply lookup_write_rows in E1 as [L1 E1]; [|lia..].
  destruct (write_rows_ok h (f main) r1) as [r2 E2]; [lia|rewrite Hf; lia|]. unfold store_states.
  exists r1, main, r2. split; [done|]. split; [done|]. apply lookup_write_rows in E2 as [L2 E2]; [|lia|rewrite Hf; lia].
  split_and!; [lia|lia| |].
  - intros j Hj. rewrite (Hm (Z.to_nat j) j); [apply E0; apply Hc; lia|]. apply lookup_seqZ. lia.
  - intros i Hi. rewrite E2, Hf by done. rewrite (decide_ext (h <= i < h + Z.of_nat (length main)) (h <= i < h + Z.of_nat n_seqs)) by lia.
    destruct (decide (h <= i < h + Z.of_nat n_seqs)) as [|Hno]; [done|]. rewrite E1 by done.
    rewrite (decide_ext (h + Z.of_nat n_seqs <= i < h + Z.of_nat n_seqs + Z.of_nat (length extra)) (h <= i < h + n)) by lia.
    destruct (decide (h <= i < h + n)) as [Hr|]; [|by apply E0].
    rewrite (He _ (i - h)); [apply E0; apply Hc; lia|]. apply lookup_seqZ. lia.
Qed.

(** ** The states of the sequences *)

Section Placed.
Context (l0 l : list mem_cell) (sets : list (Z * list Z)) (lasts : list Z) (h n z : Z).
Context (H0 : cells_ok l0) (H : cells_ok l) (SL : slotted l0 sets lasts l h n z) (Hlasts : length lasts = length sets).
Context (rows : list row) (Hrows : length rows = length l0) (Hblank : blank_rows rows l0).
Abbreviation rows0 := (fun i => if decide (0 <= z /\ i = z) then Some zero else rows !! Z.to_nat i).

Lemma row_of_blank i : 0 <= i -> (i = z /\ 0 <= z) \/ blank l0 i -> inside l0 i -> rows0 i = Some zero.
Proof. intros Hi Hb Hin. simpl. case_decide as Hd; [done|]. destruct Hb as [|Hb]; [tauto|by apply Hblank]. Qed.

(** A set starts from the state of its first sequence. *)
Lemma input_state k q rest : sets !! k = Some (q, rest) ->
  rows0 (src0 (cell l (h + Z.of_nat k))) = Some (state_of rows l0 q).
Proof.
  intros Hk. pose proof (lookup_lt_Some _ _ _ Hk) as Hlt. destruct (sl_range _ _ _ _ _ _ _ SL) as (R1 & R2 & R3 & R4).
  assert (Hr : h <= h + Z.of_nat k < h + n) by lia. pose proof (sl_src0 _ _ _ _ _ _ _ SL _ Hr) as Hin.
  unfold state_of. destruct (Z.ltb_spec (tail (cell l0 q)) 0) as [Hneg|Hpos].
  - apply row_of_blank; [apply Hin|apply (sl_blank _ _ _ _ _ _ _ SL _ Hr)|done]. right. by exists k, q, rest.
  - destruct (sl_input _ _ _ _ _ _ _ SL k q rest Hk Hpos) as [Es Hz]. rewrite Es. rewrite decide_False by tauto.
    destruct (tail_inside l0 q H0 Hpos) as [[_ Hti] _]. destruct (lookup_lt_is_Some_2 rows (Z.to_nat (tail (cell l0 q)))) as [r Hr']; [lia|].
    by rewrite Hr'.
Qed.

(** The rows at the end. *)
Context (rows2 : list row) (news : list row) (Hlen : length rows2 = length rows).
Context (E : forall i, 0 <= i -> rows2 !! Z.to_nat i =
  if decide (h <= i < h + Z.of_nat (length sets)) then news !! Z.to_nat (i - h)
  else if decide (h <= i < h + n) then rows0 (src0 (cell l i)) else rows0 i).

Lemma other_state s : s ∉ (fst <$> sets) ++ (sets ≫= snd) -> state_of rows2 l s = state_of rows l0 s.
Proof.
  intros Hs. pose proof (sl_other _ _ _ _ _ _ _ SL s Hs) as Hv. unfold forget in Hv.
  rewrite decide_False in Hv by by rewrite elem_of_list_to_set. unfold state_of.
  destruct (Z.ltb_spec (tail (cell l0 s)) 0) as [Hneg|Hpos].
  - rewrite (proj2 (view_none l0 s H0)) in Hv by (pose proof (co_tail _ H0 s); lia). apply view_none in Hv; [|done].
    by rewrite Hv.
  - destruct (sl_source _ _ _ _ _ _ _ SL s Hs Hpos) as (Hz & Hout & Hsrc). destruct (sl_range _ _ _ _ _ _ _ SL) as (R1 & _).
    assert (Hpos' : 0 <= tail (cell l s)) by (destruct (decide (h <= tail (cell l s) < h + n)); lia). rewrite (proj2 (Z.ltb_ge _ 0)) by done.
    rewrite E, (decide_False (P := h <= tail (cell l s) < _)) by done. case_decide as Hr; rewrite Hsrc, decide_False by tauto; done.
Qed.

Lemma set_state k q rest s : sets !! k = Some (q, rest) -> s ∈ q :: rest -> state_of rows2 l s = default zero (news !! k).
Proof.
  intros Hk Hs. pose proof (lookup_lt_Some _ _ _ Hk) as Hlt. destruct (lookup_lt_is_Some_2 lasts k) as [p Hp]; [lia|].
  destruct (sl_set _ _ _ _ _ _ _ SL k q rest p s Hk Hp Hs) as [Et _]. destruct (sl_range _ _ _ _ _ _ _ SL) as (R1 & _).
  unfold state_of. rewrite Et, (proj2 (Z.ltb_ge _ 0)), E, decide_True by lia. do 2 f_equal. lia.
Qed.

Lemma blank_after : blank_rows rows2 l.
Proof.
  intros i Hb Hin. destruct (sl_range _ _ _ _ _ _ _ SL) as (R1 & R2 & R3 & R4). pose proof Hb as (Hi & He & _). rewrite E by done.
  destruct (decide (h <= i < h + Z.of_nat (length sets))) as [Hd|Hd].
  - exfalso. destruct (lookup_lt_is_Some_2 sets (Z.to_nat (i - h))) as [[q rest] Hk]; [lia|].
    destruct (lookup_lt_is_Some_2 lasts (Z.to_nat (i - h))) as [p Hp]; [lia|].
    destruct (sl_set _ _ _ _ _ _ _ SL _ q rest p q Hk Hp ltac:(left)) as [Et Hv].
    unfold view in Hv. rewrite Et, (proj2 (Z.ltb_ge _ 0)) in Hv by lia. replace (h + Z.of_nat (Z.to_nat (i - h))) with i in Hv by lia.
    injection Hv as _ Hv. rewrite He in Hv. set_solver.
  - destruct (decide (h <= i < h + n)) as [Hr|Hr].
    + apply row_of_blank; [apply (sl_src0 _ _ _ _ _ _ _ SL i Hr)|apply (sl_blank _ _ _ _ _ _ _ SL i Hr); by left|apply (sl_src0 _ _ _ _ _ _ _ SL i Hr)].
    + apply row_of_blank; [done| |unfold inside in *; lia]. right. by apply (sl_out _ _ _ _ _ _ _ SL).
Qed.
End Placed.

Lemma process_ok {float} m (ub : Batch.llama_ubatch float) sets lasts rows f :
  wf m -> ubatch_ok (size m) ub sets lasts -> n_rs_seq m = 0 -> length rows = length (cells m) -> blank_rows rows (cells m) ->
  (forall l : list row, length (f l) = length l) ->
  let news := f ((fun x => state_of rows (cells m) x.1) <$> sets) in
  exists m' rows', process m ub rows f = Ok (m', rows') /\ wf m' /\ same_dims m m' /\ length rows' = length rows /\
    blank_rows rows' (cells m') /\
    (forall k q rest s, sets !! k = Some (q, rest) -> s ∈ q :: rest -> state_of rows' (cells m') s = default zero (news !! k)) /\
    (forall s, s ∉ (fst <$> sets) ++ (sets ≫= snd) -> state_of rows' (cells m') s = state_of rows (cells m) s) /\
    slotted (cells m) sets lasts (cells m') (head m') (n m') (rs_z m').
Proof.
  intros W U Hrs Hlen Hblank Hf news. destruct (find_slot_ok ub sets lasts m W U) as (m' & Efs & W' & S' & Er & SL).
  pose proof (same_size _ _ S') as Esz. pose proof S' as (SL1 & SL2 & SL3). destruct (sl_range _ _ _ _ _ _ _ SL) as (R1 & R2 & R3 & R4).
  unfold process. rewrite Efs. bind_simpl. cbn [fst snd]. rewrite set_input_ok; [|congruence|done|lia|lia|unfold size; lia].
  bind_simpl. cbn [fst snd]. rewrite Z2Nat.id by lia. rewrite (ub_n _ _ _ _ U).
  destruct (graph_ok rows (fun j => src0 (cell (cells m') (head m' + j))) (length sets) (head m') (n m') (rs_z m') f)
    as (rows1 & main & rows2 & Eb & Es & L2 & Lm & Hm & E2); try done; try lia.
  { apply (sl_zero _ _ _ _ _ _ _ SL). }
  { intros j Hj. assert (Hr : head m' <= head m' + j < head m' + n m') by lia. pose proof (sl_src0 _ _ _ _ _ _ _ SL _ Hr) as [? ?]. lia. }
  assert (Emain : main = (fun x => state_of rows (cells m) x.1) <$> sets).
  { apply list_eq_same_length with (length sets); [by rewrite length_fmap|done|]. intros k a b Hk Ha Hb.
    rewrite list_lookup_fmap in Hb. destruct (sets !! k) as [[q rest]|] eqn:Ek; [|done]. injection Hb as <-.
    specialize (Hm (Z.of_nat k) ltac:(lia)). rewrite Nat2Z.id, Ha in Hm.
    pose proof (input_state (cells m) (cells m') sets lasts (head m') (n m') (rs_z m') (wf_cells _ W) SL (ub_lasts _ _ _ _ U) rows Hlen Hblank k q rest Ek) as Hin.
    cbv beta in Hin. rewrite Hin in Hm. by injection Hm. }
  rewrite Eb. bind_simpl. cbn [fst snd]. rewrite Es. bind_simpl.
  assert (E : forall i, 0 <= i -> rows2 !! Z.to_nat i =
    if decide (head m' <= i < head m' + Z.of_nat (length sets)) then news !! Z.to_nat (i - head m')
    else if decide (head m' <= i < head m' + n m') then if decide (0 <= rs_z m' /\ src0 (cell (cells m') i) = rs_z m') then Some zero else rows !! Z.to_nat (src0 (cell (cells m') i))
    else if decide (0 <= rs_z m' /\ i = rs_z m') then Some zero else rows !! Z.to_nat i).
  { intros i Hi. rewrite E2 by done. subst news. rewrite Emain. replace (head m' + (i - head m')) with i by lia. done. }
  exists m', rows2. split_and!; try done.
  - eapply blank_after; try done; try apply W; try apply W'; try exact SL; try apply U; exact E.
  - intros k q rest s Hk Hs. eapply set_state; try done; try apply W; try apply W'; try exact SL; try apply U; exact E.
  - intros s Hs. eapply other_state; try done; try apply W; try apply W'; try exact SL; try apply U; exact E.
Qed.
End Rows.

End RecurrentState.
