(* ===== verification/RecurrentBatch.v ===== *)
(** A batch in a recurrent memory: when every ubatch finds its cells in the dry run, which
    puts the memory back, the ubatches find the same cells when they are applied one by
    one; a ubatch with a sequence that has no cell number is refused without an error. *)

From S2P Require Import Prelude.
From S2P Require Import Memory.
From S2P Require Import Batch.
From S2P Require Import Recurrent.
From S2P Require Import RecurrentWf.
From S2P Require Import RecurrentOps.
From S2P Require Import RecurrentSlot.
From S2P Require Import RecurrentPlace.
From S2P Require Import RecurrentState.

Module RecurrentBatch.
Import Recurrent.
Import RecurrentWf.
Import RecurrentSlot.
Import RecurrentPlace.

Section Batch.
Context {float : Type}.
Abbreviation llama_ubatch := (Batch.llama_ubatch float).

(** [do { apply } while (next)] *)
Fixpoint run_ubatches (m : memory) (x : context (float := float)) (k : nat) : R memory :=
  match k with
  | O => Ok m
  | S k => m ← apply m x; run_ubatches m (next x).1 k
  end.

(** *** What a placement does not depend on *)

(** The memories differ in the range and the row of zeros of the last placement only. *)
Definition same_but_range (m m' : memory) : Prop :=
  head m' = head m /\ used m' = used m /\ n_rs_seq m' = n_rs_seq m /\ rs_idx m' = rs_idx m /\ cells m' = cells m.

Definition same_run (r r' : R (memory * bool)) : Prop :=
  match r, r' with
  | Ok a, Ok b => same_but_range a.1 b.1 /\ b.2 = a.2
  | Error e, Error e' => e' = e
  | _, _ => False
  end.

Lemma same_range_iff m m' : same_but_range m m' <-> exists a b, m' = mk_memory (head m) (used m) (n_rs_seq m) (rs_idx m) a b (cells m).
Proof.
  split.
  - intros (A & B & C & D & E). exists (n m'), (rs_z m'). destruct m'. simpl in *. by subst.
  - intros (a & b & ->). by split_and!.
Qed.

Lemma drop_tail_range s m m' : same_but_range m m' ->
  match drop_tail s m, drop_tail s m' with
  | Ok a, Ok b => same_but_range a b | Error e, Error e' => e' = e | _, _ => False end.
Proof.
  intros (a & b & ->)%same_range_iff. unfold drop_tail, update_cell. cbn [cells with_cells].
  destruct (cell_at (cells m) s) as [d|]; [|done]. bind_simpl. destruct (tail d <? 0); [by split_and!|].
  destruct (update _ (tail d) (cells m)) as [l|]; [|done]. bind_simpl. cbn [cells with_cells].
  destruct (update _ s l) as [l'|]; [|done]. bind_simpl. cbn [cells with_cells].
  destruct (cell_at l' (tail d)) as [c|]; [|done]. bind_simpl. destruct (is_empty c); [|by split_and!].
  destruct (update free_cell (tail d) l') as [l''|]; [|done]. bind_simpl. by split_and!.
Qed.

Lemma clear_shared_range m m' j ids : same_but_range m m' -> same_run (clear_shared m j ids) (clear_shared m' j ids).
Proof.
  revert m m' j. induction ids as [|s ids IH]; intros m m' j Hm; cbn [clear_shared]; [done|].
  assert (Es : size m' = size m) by (unfold size; destruct Hm as (_ & _ & _ & _ & E); by rewrite E). rewrite Es.
  destruct ((s <? 0) || _); [done|]. destruct (0 <? j)%nat; [|bind_simpl; by apply IH].
  pose proof (drop_tail_range s m m' Hm) as Hd. destruct (drop_tail s m), (drop_tail s m'); try done; bind_simpl; by apply IH.
Qed.

Lemma clear_sets_range m m' ub sets : same_but_range m m' -> same_run (clear_sets m ub sets) (clear_sets m' (float := float) ub sets).
Proof.
  revert m m'. induction sets as [|s sets IH]; intros m m' Hm; cbn [clear_sets]; [done|].
  destruct (set_ids ub s) as [ids|]; [|done]. bind_simpl. pose proof (clear_shared_range m m' 0 ids Hm) as Hc.
  destruct (clear_shared m 0 ids) as [[a []]|], (clear_shared m' 0 ids) as [[b b']|]; try done; bind_simpl; cbn [fst snd] in *;
    destruct Hc as [Hc E]; simpl in E; subst b'; [by apply IH|done].
Qed.

Lemma find_slot_range m m' (ub : llama_ubatch) : same_but_range m m' -> same_run (find_slot m ub) (find_slot m' ub).
Proof.
  intros Hm. unfold find_slot. destruct Hm as (E1 & E2 & E3 & E4 & E5). rewrite E1, E2.
  set (b := _ <? head m). destruct (ensure (Batch.u_equal_seqs ub) Undefined) as [[]|]; [|done]. bind_simpl.
  assert (Hm : same_but_range (if b then with_head m 0 else m) (if b then with_head m' 0 else m')) by (destruct b; by split_and!).
  pose proof (clear_sets_range _ _ ub (List.seq 0 (Batch.u_n_seqs ub)) Hm) as Hc.
  destruct (clear_sets (if b then with_head m 0 else m) ub _) as [[a []]|], (clear_sets (if b then with_head m' 0 else m') ub _) as [[a' b']|];
    try done; bind_simpl; cbn [fst snd] in *; destruct Hc as [Hc E]; simpl in E; subst b'; [|done]. cbn [negb].
  destruct Hc as (F1 & F2 & F3 & F4 & F5). cbn [fst] in F1, F2, F3, F4, F5. unfold size. rewrite F1, F3, F4, F5.
  destruct (next_empty _ _ _); [|done]. bind_simpl. destruct (foldM (place_set ub) _ _) as [p|]; [|done]. bind_simpl.
  destruct (foldM (gather_set ub _) _ _) as [l|]; [|done]. bind_simpl. destruct (foldM (settle_set ub _) _ _) as [l'|]; [|done]. bind_simpl.
  destruct (count_refs l'); [|done]. bind_simpl. destruct (zero_cell _ _); [|done]. bind_simpl.
  destruct (foldM (stage_cell _) _ _); [|done]. bind_simpl. split; [|done]. by split_and!.
Qed.

(** *** The dry run and the run *)

Definition batch_ok (n_cells : Z) (ubs : list llama_ubatch) : Prop :=
  Forall (fun ub => exists sets lasts, ubatch_ok n_cells ub sets lasts) ubs.

Lemma find_slots_ok m ubs : wf m -> batch_ok (size m) ubs ->
  exists m', find_slots m ubs = Ok (m', true) /\ wf m' /\ same_dims m m' /\ rs_idx m' = rs_idx m.
Proof.
  revert m. induction ubs as [|ub ubs IH]; intros m W HF; cbn [find_slots].
  - exists m. split_and!; try done.
  - apply Forall_cons in HF as [(sets & lasts & U) HF]. destruct (find_slot_ok ub sets lasts m W U) as (m1 & -> & W1 & S1 & R1 & _).
    bind_simpl. cbn [fst snd]. destruct (IH m1 W1) as (m' & -> & W' & S' & R'); [by rewrite (same_size _ _ S1)|].
    exists m'. split_and!; [done..|by eapply same_dims_trans|congruence].
Qed.

Lemma run_follows m m0 m' ubs pre full :
  find_slots m ubs = Ok (m', true) -> same_but_range m m0 ->
  exists m0', run_ubatches m0 (mk_context (length pre) (pre ++ ubs) full) (length ubs) = Ok m0' /\ same_but_range m' m0'.
Proof.
  revert m m0 pre. induction ubs as [|ub ubs IH]; intros m m0 pre E Hm; cbn [find_slots run_ubatches length] in *.
  - injection E as <-. by exists m0.
  - pose proof (find_slot_range m m0 ub Hm) as Hr. unfold apply at 1. cbn [ubatches i_next].
    assert (Eat : at_ (E := recurrent_error) (pre ++ ub :: ubs) (length pre) = Ok ub) by (apply at_lookup; by apply list_lookup_middle).
    destruct (find_slot m ub) as [[a b]|]; [|done]. bind_simpl. cbn [fst snd] in *. destruct b; [|done].
    destruct (find_slot m0 ub) as [[a' b']|] eqn:E0; [|done]. destruct Hr as [Hr E']. simpl in E'. subst b'.
    destruct (IH a a' (pre ++ [ub]) E Hr) as (m0' & E1 & H1). exists m0'. split; [|done].
    rewrite length_app, <- app_assoc in E1. cbn [length app] in E1. rewrite Nat.add_1_r in E1.
    destruct (pre ++ ub :: ubs) as [|x l] eqn:El; [by destruct pre|]. rewrite Eat. bind_simpl. rewrite E0. bind_simpl. exact E1.
Qed.

(** *** Refusals *)

Lemma clear_shared_total m j ids : wf m -> exists m' b, clear_shared m j ids = Ok (m', b) /\ wf m' /\ same_dims m m' /\
  b = forallb (fun s => (0 <=? s) && (s <? size m)) ids.
Proof.
  revert m j. induction ids as [|s ids IH]; intros m j W; cbn [clear_shared forallb].
  - exists m, true. by split_and!.
  - destruct ((s <? 0) || (size m <=? s)) eqn:Es.
    + exists m, false. split_and!; try done. replace ((0 <=? s) && (s <? size m)) with false by lia. done.
    + assert (Hs : 0 <= s < size m) by lia. replace ((0 <=? s) && (s <? size m)) with true by lia. cbn [andb].
      destruct (0 <? j)%nat; bind_simpl; [|by apply IH].
      destruct (drop_tail_ok s m W Hs) as (m1 & -> & W1 & S1 & _). bind_simpl.
      destruct (IH m1 (S j) W1) as (m' & b & E & W' & S' & Hb). exists m', b. split_and!; try done; [by eapply same_dims_trans|].
      by rewrite <- (same_size _ _ S1).
Qed.

Lemma find_slot_refuses m (ub : llama_ubatch) sets : wf m -> Batch.u_equal_seqs ub = true -> Batch.u_n_seqs ub = length sets ->
  (forall k ids, sets !! k = Some ids -> set_ids ub k = Ok ids) -> (exists s, s ∈ concat sets /\ ~ 0 <= s < size m) ->
  exists m', find_slot m ub = Ok (m', false).
Proof.
  intros W Hu Hn Hids (s & Hs & Hbad).
  enough (Hgen : forall don todo m, wf m -> sets = don ++ todo -> s ∈ concat todo -> ~ 0 <= s < size m ->
    exists m', clear_sets m ub (List.seq (length don) (length todo)) = Ok (m', false)).
  { unfold find_slot. rewrite Hu, Hn. cbn [ensure]. bind_simpl. set (b := _ <? head m).
    destruct (Hgen [] sets (if b then with_head m 0 else m)) as (m' & E); try done; [by apply restart_wf|by destruct b|].
    cbn [length] in E. rewrite E. bind_simpl. by exists m'. }
  clear Hs Hbad W m. intros don todo. revert don. induction todo as [|ids todo IH]; intros don m W E Hs Hbad; [simpl in Hs; set_solver|].
  cbn [List.seq length clear_sets]. rewrite (Hids (length don) ids) by (rewrite E; by apply list_lookup_middle). bind_simpl.
  destruct (clear_shared_total m 0 ids W) as (m1 & b & -> & W1 & S1 & Hb). bind_simpl. cbn [fst snd].
  destruct b; [|by exists m1]. cbn [concat] in Hs. apply elem_of_app in Hs as [Hs|Hs].
  - exfalso. symmetry in Hb. rewrite forallb_forall in Hb. apply list_elem_of_In, Hb in Hs. lia.
  - destruct (IH (don ++ [ids]) m1) as (m' & E'); try done; [by rewrite <- app_assoc|by rewrite (same_size _ _ S1)|].
    rewrite length_app in E'. cbn [length] in E'. rewrite Nat.add_1_r in E'. by exists m'.
Qed.

(** C38: when each ubatch of a batch lists every sequence once, with a cell number, the dry
    run succeeds without a failed assertion and puts the memory back (its cells, their number
    in use, the head and the rollbacks), and the ubatches then all find their cells when they
    are applied one after the other, which leaves a well-formed memory. *)
Theorem recurrent_batch m ubs :
  wf m -> batch_ok (size m) ubs ->
  exists m1 m2 m3, prepare m ubs = Ok (m1, true) /\ same_but_range m m1 /\
    find_slots m1 ubs = Ok (m2, true) /\ run_ubatches m1 (mk_context 0 ubs false) (length ubs) = Ok m3 /\ same_but_range m2 m3 /\
    wf m3 /\ size m3 = size m.
Proof.
  intros W HF. destruct (find_slots_ok m ubs W HF) as (m0 & E0 & W0 & S0 & R0).
  unfold prepare. rewrite E0. bind_simpl. cbn [fst snd].
  set (m1 := with_head (with_used (with_cells m0 (cells m)) (used m)) (head m)).
  assert (H1 : same_but_range m m1) by (destruct S0 as (_ & S2 & _); by split_and!).
  assert (W1 : wf m1) by (destruct S0 as (_ & S2 & _); split; try apply W; simpl; rewrite S2; apply W).
  destruct (find_slots_ok m1 ubs W1 HF) as (m2 & E2 & W2 & S2 & R2).
  destruct (run_follows m1 m1 m2 ubs [] false E2) as (m3 & E3 & H3); [by split_and!|].
  exists m1, m2, m3. split_and!; try done.
  - apply same_range_iff in H3 as (a & b & ->). by split; apply W2.
  - destruct H3 as (_ & _ & _ & _ & E). unfold size. rewrite E. by rewrite (proj1 S2).
Qed.

End Batch.

Section States.
Context {row : Type} (zero : row).
Abbreviation state_of := (RecurrentState.state_of zero).
Abbreviation blank_rows := (RecurrentState.blank_rows zero).

(** C37: processing a ubatch in a recurrent memory without rollback snapshots is processing it in a map from sequences
    to states.  The layers see, for each set of the ubatch in order, the state of its first
    sequence, of zeros if it has none; the set then has the new state, at the last position of its
    tokens, shared by its sequences only; every other sequence keeps its state and its position,
    though cells move, and shares it with the same sequences less those of the ubatch. *)
Theorem recurrent_states {float} m (ub : Batch.llama_ubatch float) sets lasts rows f :
  wf m -> ubatch_ok (size m) ub sets lasts -> n_rs_seq m = 0 -> length rows = length (cells m) -> blank_rows rows (cells m) ->
  (forall l : list row, length (f l) = length l) ->
  let all := (fst <$> sets) ++ (sets ≫= snd) in
  let news := f ((fun x => state_of rows (cells m) x.1) <$> sets) in
  exists m' rows', RecurrentState.process zero m ub rows f = Ok (m', rows') /\
    wf m' /\ size m' = size m /\ length rows' = length rows /\ blank_rows rows' (cells m') /\
    (forall k q rest p s, sets !! k = Some (q, rest) -> lasts !! k = Some p -> s ∈ q :: rest ->
       tail (cell (cells m') s) = head m' + Z.of_nat k /\ view (cells m') s = Some (p, list_to_set (q :: rest)) /\
       news !! k = Some (state_of rows' (cells m') s)) /\
    (forall s, s ∉ all ->
       view (cells m') s = forget (list_to_set all) (view (cells m)) s /\
       state_of rows' (cells m') s = state_of rows (cells m) s).
Proof.
  intros W U Hrs Hlen Hb Hf all news.
  destruct (RecurrentState.process_ok zero m ub sets lasts rows f W U Hrs Hlen Hb Hf) as (m' & rows' & E & W' & S' & L' & B' & Hset & Ho & SL).
  exists m', rows'. split_and!; try done; [by apply same_size| |].
  - intros k q rest p s Hk Hp Hs. destruct (sl_set _ _ _ _ _ _ _ SL k q rest p s Hk Hp Hs) as [Ht Hv]. split_and!; [done..|].
    rewrite (Hset k q rest s Hk Hs). assert (Hlt : (k < length news)%nat).
    { subst news. rewrite Hf, length_fmap. by eapply lookup_lt_Some. }
    destruct (lookup_lt_is_Some_2 news k Hlt) as [r Hr]. unfold news in Hr. by rewrite Hr.
  - intros s Hs. split; [by apply (sl_other _ _ _ _ _ _ _ SL)|by apply Ho].
Qed.
End States.

(** ** Examples *)

(** The memory of [RecurrentOps.example_memory], without snapshots. *)
Definition example_memory : memory :=
  mk_memory 1 2 0 [0; 0; 0; 0] 3 2 (cells RecurrentOps.example_memory).

Lemma batch_example_wf : wf example_memory.
Proof. split; try apply RecurrentOps.example_wf. by vm_compute. Qed.

(** Sequence 2, which shares its state with sequence 0, goes on together with sequence 3, which
    is new, and so does sequence 1, with two tokens each. *)
Definition example_ubatch : Batch.llama_ubatch unit :=
  Batch.mk_ubatch true 4 2 2 3 1 (Some [5; 6; 7; 8]) None [10; 11; 5; 6] [2; 2; 1; 1] [0; 0; 2; 2]%nat [1; 2; 3]
    [-1; 0; 1; 2] [0; 0; 0; 0] [2; 3; 1].

Definition example_sets : list (Z * list Z) := [(2, [3]); (1, [])].

Lemma recurrent_ubatch_ok : ubatch_ok 4 example_ubatch example_sets [11; 6].
Proof.
  split; try done.
  - intros [|[|k]] q rest Hk; by simplify_eq/=.
  - intros [|[|k]] p Hk; by simplify_eq/=.
  - by apply (bool_decide_unpack _).
  - intros s Hs. simpl in Hs. repeat (apply elem_of_cons in Hs as [->|Hs]; [lia|]). set_solver.
Qed.

Lemma recurrent_batch_witness :
  exists m1 m2 m3, prepare example_memory [example_ubatch; example_ubatch] = Ok (m1, true) /\ same_but_range example_memory m1 /\
    find_slots m1 [example_ubatch; example_ubatch] = Ok (m2, true) /\
    run_ubatches m1 (mk_context 0 [example_ubatch; example_ubatch] false) 2 = Ok m3 /\ same_but_range m2 m3 /\
    wf m3 /\ size m3 = size example_memory.
Proof.
  apply (recurrent_batch example_memory [example_ubatch; example_ubatch] batch_example_wf).
  repeat constructor; exists example_sets, [11; 6]; exact recurrent_ubatch_ok.
Defined.

Definition example_rows : list Z := [7; 20; 0; 40].

Lemma recurrent_states_witness :
  let all := [2; 1; 3] in
  exists m' rows', RecurrentState.process 0 example_memory example_ubatch example_rows (fmap (Z.add 100)) = Ok (m', rows') /\
    wf m' /\ size m' = size example_memory /\ length rows' = length example_rows /\ RecurrentState.blank_rows 0 rows' (cells m') /\
    (forall k q rest p s, example_sets !! k = Some (q, rest) -> [11; 6] !! k = Some p -> s ∈ q :: rest ->
       tail (cell (cells m') s) = head m' + Z.of_nat k /\ view (cells m') s = Some (p, list_to_set (q :: rest)) /\
       [120; 140] !! k = Some (RecurrentState.state_of 0 rows' (cells m') s)) /\
    (forall s, s ∉ all ->
       view (cells m') s = forget (list_to_set all) (view (cells example_memory)) s /\
       RecurrentState.state_of 0 rows' (cells m') s = RecurrentState.state_of 0 example_rows (cells example_memory) s).
Proof.
  assert (E : [120; 140] = Z.add 100 <$> ((fun x => RecurrentState.state_of 0 example_rows (cells example_memory) x.1) <$> example_sets)) by by vm_compute.
  rewrite E. apply (recurrent_states 0 example_memory example_ubatch example_sets [11; 6] example_rows (fmap (Z.add 100)) batch_example_wf recurrent_ubatch_ok); try done.
  - intros i (Hi & He & Es) [_ Hlt]. assert (i = 0 \/ i = 1 \/ i = 2 \/ i = 3) as [->|[->|[-> | ->]]] by (simpl in Hlt; lia); done.
  - intros l. apply length_fmap.
Defined.

(** After the removal of everything from all sequences the tails are stale, and the next
    ubatch of one of them fails an assertion. *)
Example removal_of_all_breaks_the_next_batch :
  exists m', seq_rm example_memory (-1) (-1) (-1) = Ok (m', true) /\ find_slot m' example_ubatch = Error Undefined.
Proof. eexists. split; [vm_compute; reflexivity|]. by vm_compute. Qed.

End RecurrentBatch.
