(* ===== verification/RecurrentSave.v ===== *)
(** Saved states of a recurrent memory: a state that was written, of one sequence or of all,
    is read back into another memory, and the sequences have their positions, the
    sequences they share their states with, and the states themselves. *)

From S2P Require Import Prelude.
From S2P Require Import Memory.
From S2P Require Import Batch.
From S2P Require Import Recurrent.
From S2P Require Import RecurrentWf.
From S2P Require Import RecurrentOps.
From S2P Require Import RecurrentSlot.
From S2P Require Import RecurrentPlace.
From S2P Require Import RecurrentState.
From S2P Require Import RecurrentBatch.

Module RecurrentSave.
Import Recurrent.
Import RecurrentWf.
Import RecurrentOps.
Import RecurrentSlot.
Import RecurrentPlace.
Import RecurrentState.

(** The indices in ranges that exclude their ends. *)
Definition indices (ranges : list (Z * Z)) : list Z := ranges ≫= fun r => seqZ r.1 (range_size r).

Section Rows.
Context {row : Type} (zero : row).

(** The rows of the ranges, one after the other. *)
Definition state_write_data (rows : list row) (ranges : list (Z * Z)) : R (list row) := mapM (get_row rows) (indices ranges).

(** All the rows at once, from the first cell on. *)
Definition state_read_data (h : Z) (data rows : list row) : R (list row) :=
  if (length data =? 0)%nat then Ok rows else write_rows h data rows.

Definition save_state (m : memory) (rows : list row) (s : Z) : R (Z * list saved_cell * list row) :=
  w ← state_write m s false; data ← state_write_data rows w.2; Ok (w.1, data).

Definition restore_state (n_pos : nat) (m : memory) (rows : list row) (saved : Z * list saved_cell * list row) (s : Z) : R (memory * list row) :=
  m ← state_read (float := unit) n_pos m (Z.to_nat saved.1.1) saved.1.2 true s;
  rows ← state_read_data (head m) saved.2 rows;
  Ok (m, rows).
End Rows.

(** ** Writing *)

Lemma indices_app a b : indices (a ++ b) = indices a ++ indices b.
Proof. apply bind_app. Qed.

Lemma indices_one a b : indices [(a, b)] = seqZ a (b - a).
Proof. unfold indices. simpl. apply app_nil_r. Qed.

Lemma seqZ_snoc a b : a <= b -> seqZ a (b + 1 - a) = seqZ a (b - a) ++ [b].
Proof.
  intros H. replace (b + 1 - a) with ((b - a) + 1) by lia. rewrite seqZ_app by lia. f_equal.
  by replace (a + (b - a)) with b by lia.
Qed.

Lemma sum_sizes ranges : Forall (fun r => r.1 <= r.2) ranges ->
  foldr Z.add 0 (range_size <$> ranges) = Z.of_nat (length (indices ranges)).
Proof.
  induction 1 as [|r ranges Hr HF IH]; [done|]. cbn [fmap list_fmap foldr]. rewrite IH.
  change (r :: ranges) with ([r] ++ ranges). rewrite indices_app, length_app. destruct r as [a b]. rewrite indices_one, length_seqZ.
  unfold range_size. simpl in *. lia.
Qed.

Lemma add_row_ok ranges i : Forall (fun r => 0 <= r.1 <= r.2 /\ r.2 < 2 ^ 31) ranges -> 0 <= i < 2 ^ 30 ->
  Forall (fun r => 0 <= r.1 <= r.2 /\ r.2 < 2 ^ 31) (add_row ranges i) /\ indices (add_row ranges i) = indices ranges ++ [i].
Proof.
  intros HF Hi. unfold add_row. rewrite (u32_small (i + 1)) by lia.
  destruct ranges as [|[a b] ranges _] using rev_ind; [split; [by constructor; [simpl; lia|]|]|].
  { unfold indices. simpl. rewrite app_nil_r. unfold range_size. simpl. by replace (i + 1 - i) with 1 by lia. }
  rewrite last_snoc. cbn [fst snd]. apply Forall_app in HF as [HF Hab]. rewrite Forall_singleton in Hab. simpl in Hab.
  assert (Ei : seqZ i (i + 1 - i) = [i]) by (by replace (i + 1 - i) with 1 by lia).
  destruct (Z.eqb_spec b i) as [->|Hne].
  - rewrite removelast_last, u32_small by lia. split; [apply Forall_app; split; [done|]; constructor; [simpl; lia|done]|].
    rewrite !indices_app, !indices_one, <- app_assoc. f_equal. apply seqZ_snoc. lia.
  - split; [apply Forall_app; split; [apply Forall_app; split; [done|]; by constructor|]; constructor; [simpl; lia|done]|].
    rewrite (indices_app _ [(i, i + 1)]), indices_one, Ei. done.
Qed.

(** The cells that are written, in order. *)
Definition written (s : Z) (l : list mem_cell) : list Z := filter (fun i => is_written s (cell l i) = true) (seqZ 0 (Z.of_nat (length l))).

Definition saved_of (s : Z) (l : list mem_cell) (i : Z) : saved_cell :=
  mk_saved (pos (cell l i)) (if s =? -1 then elements (seq_id (cell l i)) else []).

Section Write.
Context (m : memory) (s : Z) (W : wf m) (Hrs : n_rs_seq m = 0).
Abbreviation l := (cells m).
Abbreviation upto := (fun k => filter (fun i => is_written s (cell l i) = true) (seqZ 0 k)).

Lemma written_src i : is_written s (cell l i) = true -> src (cell l i) = i /\ seq_id (cell l i) <> ∅.
Proof.
  intros H. assert (Hn : seq_id (cell l i) <> ∅).
  { unfold is_written, is_empty, has_seq_id in H. destruct (decide (seq_id (cell l i) = ∅)) as [E|]; [|done].
    rewrite (bool_decide_true (seq_id _ = ∅)), (bool_decide_false (s ∈ _)) in H by (done || set_solver). lia. }
  split; [|done]. by apply (co_src _ (wf_cells _ W)).
Qed.

(** The loop after [k] cells. *)
Definition writes (k : Z) (w : writing) : Prop :=
  wr_count w = Z.of_nat (length (upto k)) /\
  indices (wr_cells w) ++ (match wr_begin w with Some b => seqZ b (k - b) | None => [] end) = upto k /\
  (match wr_begin w with Some b => 0 <= b < k | None => True end) /\
  Forall (fun r => r.1 <= r.2) (wr_cells w) /\
  indices (wr_rows w) = upto k /\ Forall (fun r => 0 <= r.1 <= r.2 /\ r.2 < 2 ^ 31) (wr_rows w).

Lemma upto_succ k : 0 <= k -> upto (k + 1) = upto k ++ (if is_written s (cell l k) then [k] else []).
Proof.
  intros Hk. cbv beta. replace (k + 1) with (k + 1 - 0) by lia. rewrite seqZ_snoc, filter_app, Z.sub_0_r by lia. f_equal.
  rewrite filter_cons. by destruct (is_written s (cell l k)).
Qed.

Lemma write_step k c w : l !! k = Some c -> writes (Z.of_nat k) w ->
  exists w', write_cell m s w (k, c) = Ok w' /\ writes (Z.of_nat k + 1) w'.
Proof.
  intros Hk (E1 & E2 & E3 & E4 & E5 & E6). pose proof (cell_lookup l k c Hk) as Ec. pose proof (lookup_lt_Some _ _ _ Hk) as Hlt.
  pose proof (wf_size m W) as Hsz. unfold size in Hsz.
  unfold write_cell. cbn [fst snd]. pose proof (upto_succ (Z.of_nat k) ltac:(lia)) as Eu. rewrite Ec in Eu. unfold writes. cbv beta in *.
  destruct (is_written s c) eqn:Ew.
  - destruct (written_src (Z.of_nat k)) as [Esrc _]; [by rewrite Ec|]. rewrite Ec in Esrc.
    unfold source_row, plane_of. rewrite Hrs. cbn [Z.eqb]. bind_simpl. rewrite Esrc. rewrite (proj2 (Z.leb_le 0 _)) by lia.
    rewrite Z.mul_0_l, (u32_small 0), Z.add_0_l, u32_small by lia. eexists. split; [done|].
    cbn [wr_count wr_begin wr_cells wr_rows]. rewrite Eu, E1, length_app. destruct (add_row_ok (wr_rows w) (Z.of_nat k) E6) as [F6 F5]; [lia|].
    split_and!; [simpl; lia| | |done|by rewrite F5, E5|done].
    + destruct (wr_begin w) as [b|].
      * rewrite seqZ_snoc by lia. by rewrite app_assoc, E2.
      * rewrite app_nil_r in E2. rewrite seqZ_snoc, Z.sub_diag by lia. by rewrite E2.
    + destruct (wr_begin w); lia.
  - eexists. split; [done|]. rewrite Eu, app_nil_r. destruct (wr_begin w) as [b|] eqn:Eb; cbn [wr_count wr_begin wr_cells wr_rows].
    + split_and!; try done.
      * by rewrite indices_app, indices_one, app_nil_r, E2.
      * apply Forall_app. split; [done|]. constructor; [simpl; lia|done].
    + rewrite Eb. split_and!; try done.
Qed.

Lemma state_write_ok : exists rws, state_write m s false = Ok (Z.of_nat (length (written s l)), saved_of s l <$> written s l, rws) /\
  indices rws = written s l.
Proof.
  unfold state_write.
  destruct (foldM_total (fun pre w => writes (Z.of_nat (length pre)) w) (write_cell m s) (imap pair l) (mk_writing 0 None [] [])) as (w & -> & Hw).
  - intros pre [k c] w [suf Hp] Hw. assert (Hat : imap pair l !! length pre = Some (k, c)).
    { rewrite Hp, <- app_assoc. by apply list_lookup_middle. }
    rewrite list_lookup_imap in Hat. destruct (l !! length pre) as [c'|] eqn:Ec; [|done]. simplify_eq/=.
    destruct (write_step (length pre) c w Ec Hw) as (w' & E' & Hw'). exists w'. split; [done|].
    rewrite length_app. simpl. by rewrite Nat2Z.inj_add.
  - unfold writes. cbn. by split_and!.
  - bind_simpl. rewrite length_imap in Hw. destruct Hw as (E1 & E2 & E3 & E4 & E5 & E6). fold (written s l) in E1, E2, E5.
    set (ranges := match wr_begin w with Some b => wr_cells w ++ [(b, size m)] | None => wr_cells w end).
    assert (Er : indices ranges = written s l /\ Forall (fun r => r.1 <= r.2) ranges).
    { subst ranges. destruct (wr_begin w) as [b|].
      - rewrite indices_app, indices_one. split; [done|]. apply Forall_app. split; [done|]. constructor; [simpl; unfold size; lia|done].
      - rewrite app_nil_r in E2. done. }
    destruct Er as [Er HF]. rewrite (sum_sizes ranges) by done. rewrite (sum_sizes (wr_rows w)) by (eapply Forall_impl; [exact E6|]; simpl; lia).
    rewrite Er, E5, E1, !Z.eqb_refl. bind_simpl. unfold write_meta. fold (indices ranges). rewrite Er.
    assert (Em : mapM (fun i => c ← cell_at l i; Ok (mk_saved (pos c) (if s =? -1 then elements (seq_id c) else []))) (written s l)
      = Ok (E := recurrent_error) (saved_of s l <$> written s l)).
    { apply mapM_Ok. apply Forall2_fmap_r, Forall_Forall2_diag, Forall_forall. intros i Hi.
      apply list_elem_of_filter in Hi as [_ Hi%elem_of_seqZ]. rewrite cell_at_ok by (split; lia). done. }
    rewrite Em. bind_simpl. by exists (wr_rows w).
Qed.
End Write.

(** ** Reading all the sequences *)

Lemma read_ids_ok m i ids l0 :
  0 < size m < 2 ^ 30 -> inside l0 i -> length l0 = length (cells m) -> NoDup ids ->
  Forall (fun s => 0 <= s < Z.of_nat (length (rs_idx m)) /\ s < size m /\ tail (cell l0 s) = -1) ids ->
  exists k, read_ids (with_cells m l0) i ids = Ok (with_cells m k, true) /\ length k = length l0 /\
    (forall j, tail (cell k j) = if decide (j ∈ ids) then i else tail (cell l0 j)) /\
    (forall j, seq_id (cell k j) = if decide (j = i) then seq_id (cell l0 i) ∪ list_to_set ids else seq_id (cell l0 j)) /\
    (forall j, pos (cell k j) = pos (cell l0 j) /\ src (cell k j) = src (cell l0 j)).
Proof.
  intros Hsz Hi Hlen Hnd. revert l0 Hi Hlen. induction ids as [|s ids IH]; intros l0 Hi Hlen HF; cbn [read_ids].
  - exists l0. split_and!; [done..| |done]. intros j. destruct (decide (j = i)) as [->|]; [|done]. simpl. by rewrite union_empty_r_L.
  - apply NoDup_cons in Hnd as [Hs Hnd]. apply Forall_cons in HF as [(Hr & Hm & Ht) HF].
    assert (Hin : forall k : list mem_cell, length k = length l0 -> inside k s) by (intros k Hk; unfold inside, size in *; lia).
    change (rs_idx (with_cells m l0)) with (rs_idx m). rewrite u32_small by lia.
    replace ((s <? 0) || (Z.of_nat (length (rs_idx m)) <=? s)) with false by lia.
    rewrite update_cell_ok by done. bind_simpl. cbn [cells with_cells]. set (la := put_cell l0 i _).
    assert (Ea : forall j, cell la j = if decide (j = i) then with_ids (seq_id (cell l0 i) ∪ {[ s ]}) (cell l0 i) else cell l0 j) by (intros j; by apply cell_set).
    assert (La : length la = length l0) by (subst la; by rewrite length_set). clearbody la.
    assert (Eta : forall j, tail (cell la j) = tail (cell l0 j)) by (intros j; rewrite Ea; by destruct (decide (j = i)) as [->|]).
    rewrite cell_at_ok by by apply Hin. bind_simpl. rewrite Eta, Ht. cbn [Z.eqb Pos.eqb negb].
    rewrite update_cell_ok by (cbn [cells with_cells]; by apply Hin). bind_simpl. cbn [cells with_cells]. set (lb := put_cell la s _).
    assert (Eb : forall j, cell lb j = if decide (j = s) then with_tail i (cell la s) else cell la j) by (intros j; apply cell_set; by apply Hin).
    assert (Lb : length lb = length l0) by (subst lb; by rewrite length_set). clearbody lb.
    change (with_cells (with_cells (with_cells m l0) la) lb) with (with_cells m lb).
    destruct (IH Hnd lb) as (k & -> & Lk & Tk & Ik & Pk); [unfold inside in *; lia|congruence| |].
    { eapply Forall_impl; [apply Forall_and; split; [exact HF|apply Forall_forall; exact (fun x H => H)]|].
      intros q [(? & ? & Hq) Hqin]. split_and!; [lia..|]. rewrite Eb, decide_False by (intros ->; done). by rewrite Eta. }
    exists k. split_and!; [done|congruence| | |].
    + intros j. rewrite Tk, (decide_ext (j ∈ s :: ids) (j = s \/ j ∈ ids)) by apply elem_of_cons.
      destruct (decide (j ∈ ids)) as [Hj|Hj]; [by rewrite decide_True by tauto|]. rewrite Eb.
      destruct (decide (j = s)) as [->|Hjq]; [by rewrite decide_True by tauto|]. rewrite decide_False by tauto. apply Eta.
    + intros j. rewrite Ik. assert (Eids : forall x, seq_id (cell lb x) = if decide (x = i) then seq_id (cell l0 i) ∪ {[ s ]} else seq_id (cell l0 x)).
      { intros x. rewrite Eb. destruct (decide (x = s)) as [->|]; cbn [seq_id with_tail]; rewrite Ea; by destruct (decide (_ = i)) as [->|]. }
      rewrite !Eids. rewrite (decide_True (P := i = i)) by done. destruct (decide (j = i)); [|done]. cbn [list_to_set]. by rewrite union_assoc_L.
    + intros j. destruct (Pk j) as [-> ->]. rewrite Eb. destruct (decide (j = s)) as [->|]; cbn [pos src with_tail]; rewrite Ea; by destruct (decide (_ = i)) as [->|].
Qed.

Section ReadAll.
(** The memory that was saved and the one it is read into. *)
Context (m m2 : memory) (W : wf m) (W2 : wf m2).
Abbreviation l := (cells m).
Abbreviation ws := (written (-1) l).
Context (Hfit : Z.of_nat (length ws) <= size m2)
  (Hseqs : forall s, 0 <= tail (cell l s) -> s < size m2 /\ s < Z.of_nat (length (rs_idx m2))).

Lemma written_spec i : i ∈ ws <-> inside l i /\ seq_id (cell l i) <> ∅.
Proof.
  unfold written. rewrite list_elem_of_filter, elem_of_seqZ. unfold is_written, is_empty, inside. cbn [Z.eqb Pos.eqb andb].
  assert (Hneg : has_seq_id (cell l i) (-1) = false).
  { apply bool_decide_false. intros Hs. destruct (ids_tail _ _ _ (wf_cells _ W) Hs) as [Hi Ht].
    apply (seq_inside _ _ _ (wf_cells _ W)) in Hs as [? _]; lia. }
  rewrite Hneg, orb_false_r, negb_true_iff, bool_decide_eq_false. split; intros [? ?]; (split; [lia || done|lia || done]).
Qed.

Lemma written_nodup s k : NoDup (written s k).
Proof. apply NoDup_filter, NoDup_seqZ. Qed.

(** The cells after the first [j] of them are read. *)
Record read_upto (j : nat) (k : list mem_cell) : Prop := mk_read_upto {
  ru_len : length k = length (cells m2);
  ru_tail : forall x i s, (x < j)%nat -> ws !! x = Some i -> s ∈ seq_id (cell l i) -> tail (cell k s) = Z.of_nat x;
  ru_none : forall s, (forall x i, (x < j)%nat -> ws !! x = Some i -> s ∉ seq_id (cell l i)) -> tail (cell k s) = -1;
  ru_cell : forall x i, (x < j)%nat -> ws !! x = Some i -> pos (cell k (Z.of_nat x)) = pos (cell l i) /\ seq_id (cell k (Z.of_nat x)) = seq_id (cell l i);
  ru_rest : forall x, ~ 0 <= x < Z.of_nat j -> pos (cell k x) = -1 /\ seq_id (cell k x) = ∅;
  ru_src : forall x, src (cell k x) = -1;
}.

Lemma ws_unique x y i j s : ws !! x = Some i -> ws !! y = Some j -> s ∈ seq_id (cell l i) -> s ∈ seq_id (cell l j) -> x = y.
Proof.
  intros Hx Hy Hi Hj. apply ids_tail in Hi as [_ Ei]; [|apply W]. apply ids_tail in Hj as [_ Ej]; [|apply W].
  apply (NoDup_lookup ws x y i); [apply written_nodup|done|]. congruence.
Qed.

Lemma read_step j k i : ws !! j = Some i -> read_upto j k ->
  exists k', (m ← update_cell (with_pos (pos (cell l i))) (Z.of_nat j) (with_cells (clear m2) k);
    read_ids m (Z.of_nat j) (elements (seq_id (cell l i)))) = Ok (with_cells (clear m2) k', true) /\ read_upto (S j) k'.
Proof.
  intros Hj RU. pose proof (lookup_lt_Some _ _ _ Hj) as Hlt. pose proof (wf_size _ W2) as Hsz. unfold size in Hsz, Hfit.
  pose proof (ru_len _ _ RU) as Lk. assert (Hin : inside k (Z.of_nat j)) by (unfold inside; lia).
  assert (Hi : inside l i /\ seq_id (cell l i) <> ∅) by (apply written_spec; by eapply list_elem_of_lookup_2).
  rewrite update_cell_ok by done. bind_simpl. cbn [cells with_cells]. set (la := put_cell k _ _).
  assert (Ea : forall x, cell la x = if decide (x = Z.of_nat j) then with_pos (pos (cell l i)) (cell k (Z.of_nat j)) else cell k x)
    by (intros x; by apply cell_set).
  assert (La : length la = length k) by (subst la; by rewrite length_set). clearbody la.
  assert (Eta : forall x, tail (cell la x) = tail (cell k x) /\ seq_id (cell la x) = seq_id (cell k x) /\ src (cell la x) = src (cell k x)).
  { intros x. rewrite Ea. by destruct (decide (x = _)) as [->|]. }
  change (with_cells (with_cells (clear m2) k) la) with (with_cells (clear m2) la).
  assert (Lc : length (cells (clear m2)) = length (cells m2)) by apply length_fmap.
  assert (Hnew : forall s, s ∈ seq_id (cell l i) -> forall x y, (x < j)%nat -> ws !! x = Some y -> s ∉ seq_id (cell l y)).
  { intros s Hs x y Hx Hy Hs'. assert (x = j) by by eapply ws_unique. lia. }
  destruct (read_ids_ok (clear m2) (Z.of_nat j) (elements (seq_id (cell l i))) la) as (k' & -> & Lk' & Tk & Ik & Pk).
  { unfold size. rewrite Lc. lia. } { unfold inside in *; lia. } { lia. } { apply NoDup_elements. }
  { apply Forall_forall. intros s Hs%elem_of_elements. simpl. rewrite length_fmap. unfold size. rewrite Lc. fold (size m2).
    pose proof Hs as Hs'. apply ids_tail in Hs' as [Hi0 Et]; [|apply W]. destruct (Hseqs s) as [? ?]; [lia|].
    pose proof (seq_inside l s i (wf_cells _ W) Hi0 Hs) as [? _]. split_and!; [lia..|].
    rewrite (proj1 (Eta s)). apply (ru_none _ _ RU). by apply Hnew. }
  exists k'. split; [done|]. assert (Hids : forall s, s ∈ elements (seq_id (cell l i)) <-> s ∈ seq_id (cell l i)) by (intros; apply elem_of_elements).
  split.
  - congruence.
  - intros x y s Hx Hy Hs. rewrite Tk, (decide_ext _ _ _ _ (Hids s)). destruct (decide (x = j)) as [->|Hxj].
    + assert (y = i) as -> by congruence. by rewrite decide_True.
    + rewrite decide_False by (intros Hs'; apply Hxj; by eapply ws_unique). rewrite (proj1 (Eta s)). apply (ru_tail _ _ RU x y); [lia|done..].
  - intros s Hno. rewrite Tk, (decide_ext _ _ _ _ (Hids s)), decide_False by (apply (Hno j); [lia|done]). rewrite (proj1 (Eta s)).
    apply (ru_none _ _ RU). intros x y Hx. apply Hno. lia.
  - intros x y Hx Hy. destruct (Pk (Z.of_nat x)) as [-> _]. rewrite Ik. destruct (decide (x = j)) as [->|Hxj].
    + assert (y = i) as -> by congruence. rewrite decide_True by done. rewrite Ea, decide_True by done. cbn [pos seq_id with_pos].
      split; [done|]. destruct (ru_rest _ _ RU (Z.of_nat j)) as [_ ->]; [lia|]. rewrite union_empty_l_L. apply list_to_set_elements_L.
    + rewrite decide_False by lia. rewrite (proj1 (proj2 (Eta _))), Ea, decide_False by lia. apply (ru_cell _ _ RU); [lia|done].
  - intros x Hx. destruct (Pk x) as [-> _]. rewrite Ik, decide_False by lia. rewrite (proj1 (proj2 (Eta _))), Ea, decide_False by lia.
    apply (ru_rest _ _ RU). lia.
  - intros x. destruct (Pk x) as [_ ->]. rewrite (proj2 (proj2 (Eta x))). apply (ru_src _ _ RU).
Qed.

Lemma read_cells_ok k j n : (j + n = length ws)%nat -> read_upto j k ->
  exists k', read_cells (with_cells (clear m2) k) (saved_of (-1) l <$> ws) (List.seq j n) = Ok (with_cells (clear m2) k', true) /\
    read_upto (length ws) k'.
Proof.
  revert k j. induction n as [|n IH]; intros k j Hj RU; cbn [List.seq read_cells].
  - exists k. split; [done|]. by replace (length ws) with j by lia.
  - destruct (lookup_lt_is_Some_2 ws j) as [i Hi]; [lia|].
    unfold read_cell. rewrite list_lookup_fmap, Hi. bind_simpl. change (saved_of (-1) l i) with (mk_saved (pos (cell l i)) (elements (seq_id (cell l i)))).
    cbn [fmap option_fmap option_map sc_pos sc_ids]. destruct (read_step j k i Hi RU) as (k1 & E1 & RU1).
    destruct (update_cell (with_pos (pos (cell l i))) (Z.of_nat j) (with_cells (clear m2) k)) as [ma|]; revert E1; bind_simpl; [|done].
    intros ->. bind_simpl. cbn [fst snd]. apply IH; [lia|done].
Qed.

Lemma own_sources_ok range k : Forall (inside k) range ->
  exists k', foldM (fun l i => update (fun c => with_src i (src0 c) c) i l) k range = Ok k' :> R _ /\ length k' = length k /\
    forall i, tail (cell k' i) = tail (cell k i) /\ pos (cell k' i) = pos (cell k i) /\ seq_id (cell k' i) = seq_id (cell k i) /\
      src (cell k' i) = if decide (i ∈ range) then i else src (cell k i).
Proof.
  revert k. induction range as [|j range IH]; intros k HF; cbn [foldM].
  - exists k. split_and!; [done..|]. intros i. by rewrite decide_False by set_solver.
  - apply Forall_cons in HF as [Hj HF]. rewrite update_ok by done. bind_simpl. set (la := put_cell k j _).
    assert (Ea : forall i, cell la i = if decide (i = j) then with_src j (src0 (cell k j)) (cell k j) else cell k i) by (intros i; by apply cell_set).
    assert (La : length la = length k) by (subst la; by rewrite length_set). clearbody la.
    destruct (IH la) as (k' & -> & Lk & Hk); [eapply Forall_impl; [exact HF|]; unfold inside; intros; lia|].
    exists k'. split_and!; [done|lia|]. intros i. destruct (Hk i) as (-> & -> & -> & ->).
    rewrite (decide_ext (i ∈ j :: range) (i = j \/ i ∈ range)) by apply elem_of_cons. rewrite Ea.
    destruct (decide (i = j)) as [->|Hij]; cbn [tail pos seq_id src with_src].
    + rewrite (decide_True (P := j = j \/ _)) by tauto. by case_decide.
    + by rewrite (decide_ext (i = j \/ i ∈ range) (i ∈ range)) by tauto.
Qed.

(** The cells after a state of all the sequences is read. *)
Definition all_read (k : list mem_cell) : Prop :=
  length k = length (cells m2) /\
  (forall x i s, ws !! x = Some i -> s ∈ seq_id (cell l i) -> tail (cell k s) = Z.of_nat x) /\
  (forall s, tail (cell l s) = -1 -> tail (cell k s) = -1) /\
  (forall x i, ws !! x = Some i -> pos (cell k (Z.of_nat x)) = pos (cell l i) /\ seq_id (cell k (Z.of_nat x)) = seq_id (cell l i) /\
     src (cell k (Z.of_nat x)) = Z.of_nat x) /\
  (forall x, ~ 0 <= x < Z.of_nat (length ws) -> pos (cell k x) = -1 /\ seq_id (cell k x) = ∅ /\ src (cell k x) = -1).

Lemma state_read_all n_pos :
  exists m3, state_read (float := unit) n_pos m2 (length ws) (saved_of (-1) l <$> ws) true (-1) = Ok m3 /\
    all_read (cells m3) /\ head m3 = 0 /\ used m3 = Z.of_nat (length ws) /\ same_dims m2 m3.
Proof.
  unfold state_read, state_read_meta, read_all. cbn [Z.eqb Pos.eqb negb]. rewrite (proj2 (Z.ltb_ge _ _)) by done.
  assert (Lc : length (cells (clear m2)) = length (cells m2)) by apply length_fmap.
  assert (Hc : forall i, cell (cells (clear m2)) i = mk_cell (-1) (-1) (src0 (cell (cells m2) i)) (-1) ∅).
  { intros i. unfold clear. cbn [cells]. rewrite cell_map. case_decide; [done|]. by rewrite cell_outside. }
  destruct (read_cells_ok (cells (clear m2)) 0 (length ws)) as (k & E & RU); [done| |].
  { split; [done|intros; lia|intros; by rewrite Hc|intros; lia|intros; by rewrite Hc|intros; by rewrite Hc]. }
  replace (with_cells (clear m2) (cells (clear m2))) with (clear m2) in E by done. rewrite E. do 2 (bind_simpl; cbn [fst snd negb andb orb cells with_cells head with_head with_used]).
  pose proof (ru_len _ _ RU) as Lk.
  destruct (own_sources_ok (seqZ 0 (Z.of_nat (length ws))) k) as (k' & -> & Lk' & Hk).
  { apply Forall_forall. intros i Hi%elem_of_seqZ. unfold inside. rewrite Lk. unfold size in Hfit. lia. }
  bind_simpl. cbn [fst snd andb]. bind_simpl. cbn [fst snd]. set (m3 := with_cells _ k').
  assert (A : all_read k').
  { split_and!; [congruence|..].
    - intros x i s Hx Hs. destruct (Hk s) as (-> & _). apply (ru_tail _ _ RU x i); [by eapply lookup_lt_Some|done..].
    - intros s Hs. destruct (Hk s) as (-> & _). apply (ru_none _ _ RU). intros x i _ Hx Hin. apply ids_tail in Hin; [lia|apply W].
    - intros x i Hx. pose proof (lookup_lt_Some _ _ _ Hx) as Hlt. destruct (Hk (Z.of_nat x)) as (_ & -> & -> & ->).
      destruct (ru_cell _ _ RU x i Hlt Hx) as [-> ->]. rewrite decide_True; [done|]. apply elem_of_seqZ. lia.
    - intros x Hx. destruct (Hk x) as (_ & -> & -> & ->). destruct (ru_rest _ _ RU x Hx) as [-> ->].
      rewrite decide_False; [|rewrite elem_of_seqZ; lia]. by rewrite (ru_src _ _ RU). }
  assert (S3 : same_dims m2 m3).
  { split_and!; [|done|]; subst m3; cbn [cells with_cells rs_idx with_head with_used clear]; [congruence|apply length_fmap]. }
  destruct (n_rs_seq m3 =? 0); eexists; (split; [done|]); [by split_and!|].
  split_and!; try done. destruct S3 as (S31 & S32 & S33). split_and!; [done|done|]. cbn [rs_idx with_rs_idx]. by rewrite length_fmap.
Qed.

(** *** The memory that is read *)

Context (k : list mem_cell) (A : all_read k).

Lemma tail_cases s :
  tail (cell l s) = -1 /\ tail (cell k s) = -1 \/
  exists x, ws !! x = Some (tail (cell l s)) /\ 0 <= tail (cell l s) /\ s ∈ seq_id (cell l (tail (cell l s))) /\ tail (cell k s) = Z.of_nat x.
Proof.
  destruct A as (_ & At & An & _). pose proof (co_tail _ (wf_cells _ W) s) as Ht.
  destruct (decide (tail (cell l s) = -1)) as [E|E]; [left; split; [done|by apply An]|]. right.
  destruct (tail_inside l s (wf_cells _ W)) as [Hi Hs]; [lia|].
  assert (Hw : tail (cell l s) ∈ ws) by (apply written_spec; split; [done|set_solver]).
  apply list_elem_of_lookup in Hw as [x Hx]. exists x. split_and!; [done|lia|done|]. by eapply At.
Qed.

Lemma cell_cases_read i : 0 <= i ->
  (exists x j, i = Z.of_nat x /\ ws !! x = Some j) \/ ~ 0 <= i < Z.of_nat (length ws).
Proof.
  intros Hi. destruct (decide (i < Z.of_nat (length ws))) as [Hlt|]; [left|right; lia].
  destruct (lookup_lt_is_Some_2 ws (Z.to_nat i)) as [j Hj]; [lia|]. exists (Z.to_nat i), j. split; [lia|done].
Qed.

Lemma read_cells_wf : cells_ok k.
Proof.
  pose proof A as (Al & At & An & Ac & Ar). split.
  - intros s i Hi. destruct (cell_cases_read i Hi) as [(x & j & -> & Hx)|Hout].
    + destruct (Ac x j Hx) as (_ & -> & _). split; [intros Hs; by eapply At|]. intros Et.
      destruct (tail_cases s) as [[_ E]|(y & Hy & _ & Hs & E)]; [lia|]. assert (y = x) as -> by lia. congruence.
    + destruct (Ar i Hout) as (_ & -> & _). split; [set_solver|]. intros Et.
      destruct (tail_cases s) as [[_ E]|(y & Hy & _ & _ & E)]; [lia|]. apply lookup_lt_Some in Hy. lia.
  - intros s. destruct (tail_cases s) as [[_ E]|(y & _ & _ & _ & E)]; lia.
  - intros i Hi. destruct (decide (0 <= i)) as [H0|H0]; [|destruct (Ar i) as (-> & _ & ->); [lia|by auto]].
    destruct (cell_cases_read i H0) as [(x & j & -> & Hx)|Hout]; [|destruct (Ar i Hout) as (-> & _ & ->); by auto].
    exfalso. destruct (Ac x j Hx) as (_ & E & _). apply list_elem_of_lookup_2, written_spec in Hx as [_ Hx]. congruence.
  - intros i Hi. destruct (decide (0 <= i)) as [H0|H0]; [|destruct (Ar i) as (_ & E & _); [lia|done]].
    destruct (cell_cases_read i H0) as [(x & j & -> & Hx)|Hout]; [|destruct (Ar i Hout) as (_ & E & _); done].
    destruct (Ac x j Hx) as (-> & _ & _). apply (co_pos _ (wf_cells _ W)). by apply list_elem_of_lookup_2, written_spec in Hx as [_ Hx].
  - intros i Hi. destruct (decide (0 <= i)) as [H0|H0]; [|destruct (Ar i) as (_ & E & _); [lia|done]].
    destruct (cell_cases_read i H0) as [(x & j & -> & Hx)|Hout]; [|destruct (Ar i Hout) as (_ & E & _); done].
    by destruct (Ac x j Hx) as (_ & _ & ->).
Qed.

Lemma read_view s : view k s = view l s.
Proof.
  pose proof A as (_ & _ & _ & Ac & _). unfold view. destruct (tail_cases s) as [[-> ->]|(x & Hx & H0 & _ & ->)]; [done|].
  destruct (Ac x _ Hx) as (-> & -> & _). by rewrite !(proj2 (Z.ltb_ge _ 0)) by lia.
Qed.

Lemma read_count : count_used k = Z.of_nat (length ws).
Proof.
  pose proof A as (Al & _ & _ & Ac & Ar). unfold size in Hfit. unfold count_used. rewrite <- (take_drop (length ws) k), filter_app, length_app.
  rewrite (filter_all _ (take _ k)), (filter_none _ (drop _ k)).
  - rewrite length_take. simpl. lia.
  - intros c [x Hx]%list_elem_of_lookup. rewrite lookup_drop in Hx. apply cell_lookup in Hx. rewrite <- Hx.
    destruct (Ar (Z.of_nat (length ws + x))) as (_ & -> & _); [lia|]. by intros [].
  - intros c [x Hx]%list_elem_of_lookup. apply lookup_take_Some in Hx as [Hx Hlt]. apply cell_lookup in Hx. rewrite <- Hx.
    destruct (lookup_lt_is_Some_2 ws x) as [j Hj]; [done|]. destruct (Ac x j Hj) as (_ & -> & _).
    by apply list_elem_of_lookup_2, written_spec in Hj as [_ Hj].
Qed.

Lemma read_not_blank i : ~ blank k i.
Proof.
  pose proof A as (_ & _ & _ & Ac & Ar). intros (H0 & He & Hs). destruct (cell_cases_read i H0) as [(x & j & -> & Hx)|Hout].
  - destruct (Ac x j Hx) as (_ & E & _). apply list_elem_of_lookup_2, written_spec in Hx as [_ Hx]. congruence.
  - destruct (Ar i Hout) as (_ & _ & E). lia.
Qed.

End ReadAll.

(** *** Numbers and rows *)

Lemma length_filter_fmap {A B} (f : A -> B) (P : B -> Prop) (Q : A -> Prop)
    `{!forall x, Decision (P x)} `{!forall x, Decision (Q x)} k :
  (forall i, i ∈ k -> (P (f i) <-> Q i)) -> length (filter P (f <$> k)) = length (filter Q k).
Proof.
  induction k as [|i k IH]; intros HPQ; [done|]. cbn [fmap list_fmap]. rewrite !filter_cons.
  assert (Hi : P (f i) <-> Q i) by (apply HPQ; left).
  assert (Hk : length (filter P (f <$> k)) = length (filter Q k)) by (apply IH; intros; apply HPQ; by right).
  destruct (decide (P (f i))), (decide (Q i)); simpl; tauto || lia.
Qed.

Lemma cells_seqZ l : l = cell l <$> seqZ 0 (Z.of_nat (length l)).
Proof.
  apply list_eq_same_length with (length l); [by rewrite length_fmap, length_seqZ, Nat2Z.id|done|].
  intros i x y _ Hx Hy. rewrite list_lookup_fmap in Hy. destruct (seqZ _ _ !! i) as [j|] eqn:Ej; [|done].
  apply lookup_seqZ in Ej as [-> _]. injection Hy as <-. by rewrite Z.add_0_l, (cell_lookup l i x Hx).
Qed.

Lemma count_written m : wf m -> Z.of_nat (length (written (-1) (cells m))) = used m.
Proof.
  intros W. rewrite (wf_used _ W). unfold count_used. rewrite (cells_seqZ (cells m)) at 2. f_equal. symmetry. apply length_filter_fmap.
  intros i Hi. assert (Hin : inside (cells m) i) by (apply elem_of_seqZ in Hi; unfold inside; lia).
  transitivity (i ∈ written (-1) (cells m)).
  - rewrite written_spec by done. tauto.
  - unfold written. rewrite list_elem_of_filter. tauto.
Qed.

(** ** One sequence *)

Lemma written_one m s : wf m -> 0 <= tail (cell (cells m) s) -> 0 <= s -> written s (cells m) = [tail (cell (cells m) s)].
Proof.
  intros W Ht Hs. apply Permutation_singleton_r, NoDup_Permutation; [apply written_nodup|apply NoDup_singleton|].
  destruct (tail_inside _ s (wf_cells _ W) Ht) as [[Hi Hi'] Hin]. intros i.
  unfold written. rewrite list_elem_of_filter, elem_of_seqZ, list_elem_of_singleton. unfold is_written, has_seq_id.
  replace (s =? -1) with false by lia. cbn [andb orb]. rewrite bool_decide_eq_true. split.
  - intros [Hsi _]. symmetry. by apply ids_tail in Hsi as [_ ?]; [|apply W].
  - intros ->. split; [done|lia].
Qed.

(** Removing the whole of a sequence forgets it. *)
Lemma seq_rm_full m s : wf m -> 0 <= s < size m ->
  exists m', seq_rm m s (-1) (-1) = Ok (m', true) /\ wf m' /\ same_dims m m' /\ forgets {[ s ]} (cells m) (cells m').
Proof.
  intros W Hs. pose proof (wf_cells m W) as H. assert (Hi : inside (cells m) s) by done.
  assert (Ec : can_seq_rm m s (-1) (-1) = Ok true) by (rewrite can_seq_rm_at by done; by destruct (_ <? 0)).
  unfold seq_rm. rewrite Ec. bind_simpl. cbn [negb]. cbv zeta.
  destruct (reset_rs_idx m s (p0_of (-1)) (p1_of (-1))) as (l & Hl & ->). change (size (with_rs_idx m l)) with (size m).
  replace (size m <=? s) with false by lia. replace (0 <=? s) with true by lia. cbn [cells with_rs_idx]. run_cell.
  destruct (Z.leb_spec 0 (tail (cell (cells m) s))) as [Ht|Ht].
  - destruct (tail_inside _ s H Ht) as [Hti _]. destruct (view_at _ s H Ht) as [_ Hpos]. run_cell.
    change (p0_of (-1)) with 0. change (p1_of (-1)) with INT32_MAX.
    change (cuts_suffix 0 INT32_MAX (cell (cells m) (tail (cell (cells m) s)))) with false. cbn [andb].
    replace ((0 <=? _) && _) with true by lia. run_cell.
    destruct (rm_loop_here (with_rs_idx m l) s 0 INT32_MAX) as (W' & S' & F); [by apply wf_with_rs_idx|done|done|].
    eexists. split_and!; [done|done| |exact F]. destruct S' as (S1 & S2 & S3). split_and!; simpl in *; congruence.
  - destruct (rm_loop_away (with_rs_idx m l) s (p0_of (-1)) (p1_of (-1))) as (W' & S' & E').
    + by apply wf_with_rs_idx.
    + simpl. intros i [_ [?|Hin]]; [lia|]. apply ids_tail in Hin; [lia|done].
    + eexists. split_and!; [done|done| |].
      * destruct S' as (S1 & S2 & S3). split_and!; simpl in *; congruence.
      * rewrite E'. apply forgets_nothing; [done|]. intros q ->%elem_of_singleton. pose proof (co_tail _ H s). simpl. lia.
Qed.

Lemma restored_ubatch_ok n_pos p d n_cells : 0 <= p < INT32_MAX -> 0 <= d < n_cells ->
  ubatch_ok n_cells (restored_ubatch (float := unit) n_pos [p] d) [(d, [])] [p].
Proof.
  intros Hp Hd. split; try done.
  - intros [|k] q rest Hk; by simplify_eq/=.
  - intros [|k] q Hk; by simplify_eq/=.
  - apply NoDup_singleton.
  - intros s ->%list_elem_of_singleton. done.
Qed.

(** The cells that [find_slot] gives to one sequence. *)
Lemma read_sequence_ok n_pos m p d : wf m -> 0 <= p < INT32_MAX -> 0 <= d < size m ->
  exists m' m1, state_read (float := unit) n_pos m 1 [mk_saved p []] true d = Ok m' /\ wf m' /\ same_dims m m' /\
    forgets {[ d ]} (cells m) (cells m1) /\ wf m1 /\ exists z, slotted (cells m1) [(d, [])] [p] (cells m') (head m') 1 z.
Proof.
  intros W Hp Hd. destruct (seq_rm_full m d W Hd) as (m1 & E1 & W1 & S1 & F1). pose proof (same_size _ _ S1) as Z1.
  destruct (find_slot_ok (restored_ubatch (float := unit) n_pos [p] d) [(d, [])] [p] m1 W1) as (m2 & E2 & W2 & S2 & _ & SL).
  { apply restored_ubatch_ok; [done|by rewrite Z1]. }
  pose proof (sl_one _ _ _ _ _ _ _ SL eq_refl) as En. rewrite En in SL. pose proof (same_size _ _ S2) as Z2.
  destruct (sl_range _ _ _ _ _ _ _ SL) as (R1 & R2 & R3 & R4). destruct (sl_set _ _ _ _ _ _ _ SL 0 d [] p d eq_refl eq_refl ltac:(left)) as [Et Ev].
  assert (Hh : inside (cells m2) (head m2)) by (unfold inside; lia). simpl in Et. rewrite Z.add_0_r in Et.
  unfold view in Ev. rewrite Et, (proj2 (Z.ltb_ge _ 0)) in Ev by lia. injection Ev as Ep Eids.
  unfold state_read, state_read_meta, read_sequence. replace (d =? -1) with false by lia. cbn [negb]. rewrite E1. bind_simpl. cbn [fst snd Nat.eqb].
  unfold read_positions, read_cell. cbn [List.seq lookup list_lookup]. bind_simpl. cbn [sc_ids sc_pos length Nat.eqb negb]. bind_simpl.
  rewrite E2. bind_simpl. cbn [fst snd negb].
  rewrite (proj2 (Z.leb_le (head m2 + Z.of_nat 1) (size m2))) by (unfold inside, size in *; lia). bind_simpl.
  replace (head m2 + Z.of_nat 1 - 1) with (head m2) by lia. rewrite !cell_at_ok by done.
  change (at_ [p] (1 - 1)%nat) with (Ok (E := recurrent_error) p). change (at_ [p] 0%nat) with (Ok (E := recurrent_error) p).
  bind_simpl. unfold has_seq_id. rewrite Ep, Eids, Z.eqb_refl, bool_decide_true by set_solver. bind_simpl.
  do 2 (bind_simpl; cbn [andb negb orb fst snd]). replace (seqZ (head m2) (Z.of_nat 1)) with [head m2] by by rewrite (seqZ_cons (head m2)) by lia.
  cbn [foldM]. rewrite update_ok by done. bind_simpl.
  assert (Esame : put_cell (cells m2) (head m2) (with_src (head m2) (src0 (cell (cells m2) (head m2))) (cell (cells m2) (head m2))) = cells m2).
  { apply cells_eq; [apply length_set|]. intros i _. rewrite cell_set by done. case_decide as Hi; [|done]. subst i.
    pose proof (co_src _ (wf_cells _ W2) (head m2)) as Es. rewrite Eids in Es. specialize (Es ltac:(set_solver)).
    destruct (cell (cells m2) (head m2)). simpl in *. by subst. }
  rewrite Esame. replace (with_cells m2 (cells m2)) with m2 by by destruct m2. cbn [fst snd]. bind_simpl.
  exists (if n_rs_seq m2 =? 0 then m2 else set_rs_idx m2 d 0), m1. split; [done|].
  destruct (set_rs_idx_cells m2 d 0) as (ks & Ek & Lk). pose proof (same_dims_trans _ _ _ S1 S2) as S3.
  destruct (n_rs_seq m2 =? 0).
  - split_and!; try done. by exists (rs_z m2).
  - rewrite Ek. split_and!; try done; [by apply wf_with_rs_idx| |by exists (rs_z m2)].
    destruct S3 as (? & ? & ?). split_and!; simpl; congruence.
Qed.

Lemma written_no_cell m s : wf m -> tail (cell (cells m) s) < 0 -> 0 <= s -> written s (cells m) = [].
Proof.
  intros W Ht Hs. unfold written. apply filter_none. intros i _. unfold is_written, has_seq_id. replace (s =? -1) with false by lia.
  cbn [andb orb]. rewrite bool_decide_eq_true. intros Hsi. apply ids_tail in Hsi; [lia|apply W].
Qed.

Lemma read_nothing_ok n_pos m d : wf m -> 0 <= d < size m ->
  exists m', state_read (float := unit) n_pos m 0 [] true d = Ok m' /\ wf m' /\ same_dims m m' /\ forgets {[ d ]} (cells m) (cells m').
Proof.
  intros W Hd. destruct (seq_rm_full m d W Hd) as (m1 & E1 & W1 & S1 & F1).
  unfold state_read, state_read_meta, read_sequence. replace (d =? -1) with false by lia. cbn [negb]. rewrite E1.
  do 2 (bind_simpl; cbn [fst snd Nat.eqb negb orb andb]). destruct (set_rs_idx_cells m1 d 0) as (ks & Ek & Lk).
  exists (if n_rs_seq m1 =? 0 then m1 else set_rs_idx m1 d 0). split; [done|]. destruct (n_rs_seq m1 =? 0); [done|]. rewrite Ek.
  split_and!; [by apply wf_with_rs_idx| |done]. destruct S1 as (? & ? & ?). split_and!; simpl; congruence.
Qed.

Section Rows2.
Context {row : Type} (zero : row).

Lemma write_data_ok (rows : list row) rws : (forall i, i ∈ indices rws -> 0 <= i < Z.of_nat (length rows)) ->
  exists data, state_write_data rows rws = Ok data /\ length data = length (indices rws) /\
    forall x i, indices rws !! x = Some i -> data !! x = rows !! Z.to_nat i.
Proof.
  intros H. unfold state_write_data. destruct (get_rows_ok rows id (indices rws) H) as (k & E & Hk).
  rewrite list_fmap_id in E. by exists k.
Qed.

Lemma read_data_ok h (data rows : list row) : 0 <= h -> h + Z.of_nat (length data) <= Z.of_nat (length rows) ->
  exists rows', state_read_data h data rows = Ok rows' /\ length rows' = length rows /\
    forall i, 0 <= i -> rows' !! Z.to_nat i = if decide (h <= i < h + Z.of_nat (length data)) then data !! Z.to_nat (i - h) else rows !! Z.to_nat i.
Proof.
  intros Hh Hlen. unfold state_read_data. destruct (Nat.eqb_spec (length data) 0) as [E|E].
  - exists rows. split_and!; [done..|]. intros i Hi. by rewrite decide_False by lia.
  - destruct (write_rows_ok h data rows Hh Hlen) as [r Er]. exists r. split; [done|]. by apply lookup_write_rows.
Qed.

Abbreviation state_of := (RecurrentState.state_of zero).
Abbreviation blank_rows := (RecurrentState.blank_rows zero).

(** C39: a saved state of all the sequences of a recurrent memory without rollback snapshots is
    read back into any memory, whatever it held, that has as many cells as the saved one uses,
    and for every sequence with a state a cell number and a snapshot index: the state is
    written and accepted, and in the memory that
    is read every sequence has the position, the sharing sequences and the state it had in the
    memory that was saved, or none if it had none. Without a number for one of the sequences the
    state is refused, even where its cells fit ([restore_needs_the_sequences]). *)
Theorem recurrent_save_roundtrip n_pos m m2 (rows rows2 : list row) :
  wf m -> wf m2 -> n_rs_seq m = 0 -> length rows = length (cells m) -> (length (cells m2) <= length rows2)%nat ->
  used m <= size m2 -> (forall s, 0 <= tail (cell (cells m) s) -> s < size m2 /\ s < Z.of_nat (length (rs_idx m2))) ->
  exists saved m3 rows3, save_state m rows (-1) = Ok saved /\ restore_state n_pos m2 rows2 saved (-1) = Ok (m3, rows3) /\
    wf m3 /\ same_dims m2 m3 /\ length rows3 = length rows2 /\ blank_rows rows3 (cells m3) /\
    forall s, view (cells m3) s = view (cells m) s /\ state_of rows3 (cells m3) s = state_of rows (cells m) s.
Proof.
  intros W W2 Hrs Hrows Hrows2 Hfit Hseqs. destruct (state_write_ok m (-1) W Hrs) as (rws & Ew & Ei).
  pose proof (count_written m W) as Hcount. rewrite <- Hcount in Hfit.
  destruct (write_data_ok rows rws) as (data & Ed & Ld & Hd).
  { rewrite Ei, Hrows. intros i Hi. by apply written_spec in Hi as [? _]. }
  rewrite Ei in Ld, Hd. unfold save_state. rewrite Ew. bind_simpl. cbn [fst snd]. rewrite Ed. bind_simpl.
  set (ws := written (-1) (cells m)) in *.
  exists (Z.of_nat (length ws), saved_of (-1) (cells m) <$> ws, data). destruct (state_read_all m m2 W W2 Hfit Hseqs n_pos) as (m3 & Er & A & Hh & Hu & S3).
  unfold restore_state. cbn [fst snd]. rewrite Nat2Z.id. subst ws. rewrite Er. bind_simpl.
  destruct (read_data_ok (head m3) data rows2) as (rows3 & E3 & L3 & H3); [lia|unfold size in Hfit; lia|].
  exists m3, rows3. split; [done|]. rewrite E3. bind_simpl. split; [done|]. pose proof (read_cells_wf m m2 W W2 Hfit Hseqs (cells m3) A) as H.
  split_and!; [|done..| |].
  - pose proof (wf_size _ W2). apply (wf_intro m2); [done..| |lia]. rewrite (read_count m m2 W Hfit (cells m3) A). lia.
  - intros i Hb. by destruct (read_not_blank m m2 W (cells m3) A i).
  - intros s. split; [by apply (read_view m m2 W W2 Hfit Hseqs)|]. unfold RecurrentState.state_of.
    destruct (tail_cases m m2 W W2 Hfit Hseqs (cells m3) A s) as [[-> ->]|(x & Hx & H0 & _ & ->)]; [done|].
    rewrite !(proj2 (Z.ltb_ge _ 0)) by lia. f_equal. pose proof (lookup_lt_Some _ _ _ Hx).
    rewrite H3, decide_True, Hh, Z.sub_0_r, Nat2Z.id by lia. by apply Hd.
Qed.

(** What the restored cells are of the sequences, when the rows are written from the head on. *)
Lemma restored_one m2 m1 m3 rows2 rows3 p d z r :
  wf m2 -> forgets {[ d ]} (cells m2) (cells m1) -> wf m1 -> slotted (cells m1) [(d, [])] [p] (cells m3) (head m3) 1 z -> wf m3 ->
  blank_rows rows2 (cells m2) ->
  (forall i, 0 <= i -> rows3 !! Z.to_nat i = if decide (i = head m3) then Some r else rows2 !! Z.to_nat i) ->
  blank_rows rows3 (cells m3) /\ view (cells m3) d = Some (p, {[ d ]}) /\ state_of rows3 (cells m3) d = r /\
  forall q, q <> d -> view (cells m3) q = forget {[ d ]} (view (cells m2)) q /\ state_of rows3 (cells m3) q = state_of rows2 (cells m2) q.
Proof.
  intros W2 F W1 SL W3 Hblank E.
  destruct (sl_range _ _ _ _ _ _ _ SL) as (R1 & _ & R3 & R4).
  destruct (sl_set _ _ _ _ _ _ _ SL 0 d [] p d eq_refl eq_refl ltac:(left)) as [Et Ev]. simpl in Et. rewrite Z.add_0_r in Et.
  split_and!.
  - intros i Hb Hi. pose proof Hb as (H0 & He & _). rewrite E by done. case_decide as Hh.
    { subst i. unfold view in Ev. rewrite Et, (proj2 (Z.ltb_ge _ 0)) in Ev by lia. injection Ev as _ Ev. rewrite He in Ev. set_solver. }
    apply Hblank; [|unfold inside in *; rewrite <- (fg_len _ _ _ F); lia]. apply (forgets_blank {[ d ]} _ (cells m1)); [done|].
    apply (sl_out _ _ _ _ _ _ _ SL); [lia|done].
  - rewrite Ev. cbn [list_to_set foldr]. simpl. by rewrite union_empty_r_L.
  - unfold RecurrentState.state_of. rewrite Et, (proj2 (Z.ltb_ge _ 0)), E, decide_True by lia. done.
  - intros q Hq. assert (Ho : q ∉ (fst <$> [(d, @nil Z)]) ++ ([(d, @nil Z)] ≫= snd)) by (simpl; set_solver).
    pose proof (sl_other _ _ _ _ _ _ _ SL q Ho) as Hv. simpl in Hv.
    assert (Hv2 : view (cells m1) q = forget {[ d ]} (view (cells m2)) q) by (by apply forgets_view; [apply W2|]).
    assert (Hv3 : view (cells m3) q = forget {[ d ]} (view (cells m2)) q).
    { rewrite Hv. unfold forget at 1. rewrite decide_False by set_solver. rewrite Hv2. unfold forget. rewrite decide_False by set_solver.
      destruct (view (cells m2) q) as [[a X]|]; [|done]. simpl. do 2 f_equal. set_solver. }
    split; [done|]. assert (Etq : tail (cell (cells m1) q) = tail (cell (cells m2) q)).
    { rewrite (fg_tail _ _ _ F). by rewrite decide_False by set_solver. }
    unfold RecurrentState.state_of. rewrite <- Etq. pose proof (co_tail _ (wf_cells _ W1) q) as Hlow.
    destruct (Z.ltb_spec (tail (cell (cells m1) q)) 0) as [Hneg|Hpos].
    + rewrite <- Hv2, (proj2 (view_none _ q (wf_cells _ W1))) in Hv3 by lia. apply view_none in Hv3; [|apply W3]. by rewrite Hv3.
    + destruct (sl_source _ _ _ _ _ _ _ SL q Ho Hpos) as (_ & Hout & Hsrc). simpl in Hout. rewrite decide_False in Hsrc by lia.
      rewrite Hsrc, (proj2 (Z.ltb_ge _ 0)), E, decide_False by lia. done.
Qed.

(** C40: the saved state of one sequence of a recurrent memory without rollback snapshots is read back as that of any
    sequence of another, or of the same: the state is written and accepted; the destination then
    has the position and the state that the sequence had, shared with no other (or no state,
    if it had none); every other sequence of the memory keeps its position, its state and the
    sequences it shares it with, less the destination. *)
Theorem recurrent_restore_sequence n_pos m m2 (rows rows2 : list row) s d :
  wf m -> wf m2 -> n_rs_seq m = 0 -> length rows = length (cells m) -> (length (cells m2) <= length rows2)%nat ->
  blank_rows rows2 (cells m2) -> 0 <= s -> 0 <= d < size m2 ->
  exists saved m3 rows3, save_state m rows s = Ok saved /\ restore_state n_pos m2 rows2 saved d = Ok (m3, rows3) /\
    wf m3 /\ same_dims m2 m3 /\ length rows3 = length rows2 /\ blank_rows rows3 (cells m3) /\
    view (cells m3) d = (fun x => (x.1, {[ d ]})) <$> view (cells m) s /\
    state_of rows3 (cells m3) d = state_of rows (cells m) s /\
    forall q, q <> d -> view (cells m3) q = forget {[ d ]} (view (cells m2)) q /\ state_of rows3 (cells m3) q = state_of rows2 (cells m2) q.
Proof.
  intros W W2 Hrs Hrows Hrows2 Hblank Hs Hd. destruct (state_write_ok m s W Hrs) as (rws & Ew & Ei).
  unfold save_state, restore_state, state_write_data. rewrite Ew. bind_simpl. cbn [fst snd]. rewrite Ei.
  destruct (decide (0 <= tail (cell (cells m) s))) as [Ht|Ht].
  - rewrite written_one by done. destruct (tail_inside _ s (wf_cells _ W) Ht) as [[_ Hti] _]. destruct (view_at _ s (wf_cells _ W) Ht) as [Ev Hp].
    set (t := tail (cell (cells m) s)) in *. destruct (lookup_lt_is_Some_2 rows (Z.to_nat t)) as [r Hr]; [lia|].
    destruct (read_sequence_ok n_pos m2 _ d W2 Hp Hd) as (m3 & m1 & E3 & W3 & S3 & F1 & W1 & z & SL).
    destruct (sl_range _ _ _ _ _ _ _ SL) as (R1 & _ & R3 & R4). rewrite (fg_len _ _ _ F1) in R3.
    destruct (read_data_ok (head m3) [r] rows2) as (rows3 & Ed & L3 & H3); [lia|simpl; lia|].
    destruct (restored_one m2 m1 m3 rows2 rows3 _ d z r W2 F1 W1 SL W3 Hblank) as (Hb & Hv & Hst & Ho).
    { intros i Hi. rewrite H3 by done. simpl. case_decide; [rewrite decide_True by lia|by rewrite decide_False by lia].
      by replace (Z.to_nat (i - head m3)) with 0%nat by lia. }
    exists (1, [mk_saved (pos (cell (cells m) t)) []], [r]), m3, rows3. split.
    { cbn [mapM fmap list_fmap]. unfold get_row, saved_of. rewrite (proj2 (Z.leb_le 0 t)) by done. bind_simpl.
      rewrite (at_lookup _ _ _ Hr). by replace (s =? -1) with false by lia. }
    cbn [fst snd]. change (Z.to_nat 1) with 1%nat. rewrite E3. bind_simpl. rewrite Ed. split; [done|].
    split_and!; try done; [by rewrite Hv, Ev|]. rewrite Hst. unfold RecurrentState.state_of. fold t. by rewrite (proj2 (Z.ltb_ge _ 0)), Hr by lia.
  - rewrite written_no_cell by (done || lia). destruct (read_nothing_ok n_pos m2 d W2 Hd) as (m3 & E3 & W3 & S3 & F3).
    exists (0, [], []), m3, rows2. split_and!; try done.
    + cbn [fst snd]. change (Z.to_nat 0) with 0%nat. by rewrite E3.
    + intros i Hb Hi. apply Hblank; [by eapply forgets_blank|]. unfold inside in *. rewrite (fg_len _ _ _ F3) in Hi. done.
    + rewrite (proj2 (view_none _ s (wf_cells _ W))) by (pose proof (co_tail _ (wf_cells _ W) s); lia).
      rewrite (forgets_view _ _ _ d (wf_cells _ W2) F3). unfold forget. by rewrite decide_True by set_solver.
    + unfold RecurrentState.state_of. rewrite (fg_tail _ _ _ F3), decide_True by set_solver. by replace (tail (cell (cells m) s) <? 0) with true by lia.
    + intros q Hq. split; [by apply forgets_view; [apply W2|]|]. unfold RecurrentState.state_of. rewrite (fg_tail _ _ _ F3).
      by rewrite decide_False by set_solver.
Qed.

End Rows2.

(** ** Examples *)

Lemma example_blank_rows : RecurrentState.blank_rows 0 RecurrentBatch.example_rows (cells RecurrentBatch.example_memory).
Proof.
  intros i (Hi & He & Es) [_ Hlt]. assert (i = 0 \/ i = 1 \/ i = 2 \/ i = 3) as [->|[->|[-> | ->]]] by (simpl in Hlt; lia); done.
Qed.

(** A memory with more cells, which are all free. *)
Definition other_memory : memory := new_memory 6 5 0.

Lemma recurrent_save_roundtrip_witness :
  exists saved m3 rows3, save_state RecurrentBatch.example_memory RecurrentBatch.example_rows (-1) = Ok saved /\
    restore_state 1 other_memory (replicate 6 0) saved (-1) = Ok (m3, rows3) /\
    wf m3 /\ same_dims other_memory m3 /\ length rows3 = 6%nat /\ RecurrentState.blank_rows 0 rows3 (cells m3) /\
    forall s, view (cells m3) s = view (cells RecurrentBatch.example_memory) s /\
      RecurrentState.state_of 0 rows3 (cells m3) s = RecurrentState.state_of 0 RecurrentBatch.example_rows (cells RecurrentBatch.example_memory) s.
Proof.
  apply (recurrent_save_roundtrip 0 1 RecurrentBatch.example_memory other_memory RecurrentBatch.example_rows (replicate 6 0));
    try done; try apply RecurrentBatch.batch_example_wf; try (by apply new_memory_wf).
  intros s Ht. destruct (tail_inside _ s (wf_cells _ RecurrentBatch.batch_example_wf) Ht) as [_ Hs].
  apply (seq_inside _ _ _ (wf_cells _ RecurrentBatch.batch_example_wf)) in Hs as [_ Hs]; [|done]. change (s < 4) in Hs. change (s < 6 /\ s < 5). lia.
Defined.

(** One used cell, of sequence 3, does not go into two cells for two sequences. *)
Definition third_sequence : memory :=
  mk_memory 0 1 0 [0; 0; 0; 0] 1 (-1)
    [mk_cell 5 0 0 (-1) {[ 3 ]}; mk_cell (-1) (-1) (-1) (-1) ∅; mk_cell (-1) (-1) (-1) (-1) ∅; mk_cell (-1) (-1) (-1) 0 ∅].

Lemma third_sequence_wf : wf third_sequence.
Proof. split; [by apply RecurrentOps.cells_ok_check|..]; by vm_compute. Qed.

Example restore_needs_the_sequences :
  (saved ← save_state third_sequence [7; 0; 0; 0] (-1); restore_state 1 (new_memory 2 2 0) [0; 0] saved (-1)) =
  Error RestoreFailed.
Proof. vm_compute. reflexivity. Qed.

Lemma recurrent_restore_sequence_witness :
  exists saved m3 rows3, save_state RecurrentBatch.example_memory RecurrentBatch.example_rows 0 = Ok saved /\
    restore_state 1 RecurrentBatch.example_memory RecurrentBatch.example_rows saved 3 = Ok (m3, rows3) /\
    wf m3 /\ same_dims RecurrentBatch.example_memory m3 /\ length rows3 = 4%nat /\ RecurrentState.blank_rows 0 rows3 (cells m3) /\
    view (cells m3) 3 = (fun x => (x.1, {[ 3 ]})) <$> view (cells RecurrentBatch.example_memory) 0 /\
    RecurrentState.state_of 0 rows3 (cells m3) 3 = RecurrentState.state_of 0 RecurrentBatch.example_rows (cells RecurrentBatch.example_memory) 0 /\
    forall q, q <> 3 -> view (cells m3) q = forget {[ 3 ]} (view (cells RecurrentBatch.example_memory)) q /\
      RecurrentState.state_of 0 rows3 (cells m3) q = RecurrentState.state_of 0 RecurrentBatch.example_rows (cells RecurrentBatch.example_memory) q.
Proof.
  apply (recurrent_restore_sequence 0 1 RecurrentBatch.example_memory RecurrentBatch.example_memory RecurrentBatch.example_rows
    RecurrentBatch.example_rows 0 3); try done; try apply RecurrentBatch.batch_example_wf; apply example_blank_rows.
Defined.

End RecurrentSave.
