(* ===== verification/KvCache.v ===== *)
(** The operations of the KV cache on the metadata of its cells
    (src/src/llama-kv-cache.cpp): removing, copying, keeping, shifting and dividing
    sequences, the search for slots, the placement of ubatches and the dry run that
    prepares a batch.

    The model is of a cache without an exact tail (the pointer [tail] is null) and
    leaves out the tensors: [materialize_pending_copies] only forgets the
    copies that are pending.  A cell index and a head are [nat]; the search counts
    tested cells without wrap-around (at most twice the number of cells). *)

From S2P Require Import Prelude.
From S2P Require Import KvCells.
From S2P Require Import Memory.
From S2P Require Import Batch.

Module KvCache.
Import Cells.

(** ** Data *)

(** What the operations can end with: undefined behaviour or a failed assertion, a
    loop the model cut short, and the exceptions of the structured allocation and of
    [set_allocation_group_size]. *)
Inductive kv_error :=
| Undefined
| OutOfFuel
| StageAlias
| NoOwner
| InvalidOwner
| InvalidGroupSize
| SplitError (e : Batch.batch_error).

#[export] Instance kv_undef : Undef kv_error := Undefined.

Abbreviation R := (result kv_error).

Inductive llama_swa_type :=
| LLAMA_SWA_TYPE_NONE
| LLAMA_SWA_TYPE_STANDARD
| LLAMA_SWA_TYPE_CHUNKED
| LLAMA_SWA_TYPE_SYMMETRIC.

(** [other] tells whether the cache shares the cells of another one; [sc_info] holds
    the pairs of streams whose copy is pending. *)
Record kv_cache := mk_cache {
  other : bool;
  n_pos_per_embd : Z;
  n_seq_max : nat;
  n_stream : nat;
  n_swa : Z;
  swa_type : llama_swa_type;
  v_heads : list nat;
  v_cells : list llama_kv_cells;
  seq_to_stream : list nat;
  sc_info : list (nat * nat);
  allocation_group_size : nat;
  allocation_stage_groups : nat;
  allocation_seq_heads : list nat;
}.

Definition with_streams (k : kv_cache) (cs : list llama_kv_cells) (hs : list nat) : kv_cache :=
  mk_cache (other k) (n_pos_per_embd k) (n_seq_max k) (n_stream k) (n_swa k) (swa_type k) hs cs
    (seq_to_stream k) (sc_info k) (allocation_group_size k) (allocation_stage_groups k)
    (allocation_seq_heads k).
Definition with_sc_info (k : kv_cache) (sc : list (nat * nat)) : kv_cache :=
  mk_cache (other k) (n_pos_per_embd k) (n_seq_max k) (n_stream k) (n_swa k) (swa_type k)
    (v_heads k) (v_cells k) (seq_to_stream k) sc (allocation_group_size k)
    (allocation_stage_groups k) (allocation_seq_heads k).
Definition with_allocation (k : kv_cache) (g st : nat) (ahs : list nat) : kv_cache :=
  mk_cache (other k) (n_pos_per_embd k) (n_seq_max k) (n_stream k) (n_swa k) (swa_type k)
    (v_heads k) (v_cells k) (seq_to_stream k) (sc_info k) g st ahs.
Definition with_allocation_heads (k : kv_cache) (ahs : list nat) : kv_cache :=
  with_allocation k (allocation_group_size k) (allocation_stage_groups k) ahs.

(** Replace the cells and the head of one stream. *)
Definition set_stream (k : kv_cache) (st : nat) (c : llama_kv_cells) (h : nat) : kv_cache :=
  with_streams k (<[st := c]> (v_cells k)) (<[st := h]> (v_heads k)).

(** The stream, the cells and the head of a sequence. *)
Definition stream_id (k : kv_cache) (s : Z) : R nat :=
  _ ← ensure (0 <=? s) Undefined; at_ (seq_to_stream k) (Z.to_nat s).

Definition seq_in_range (k : kv_cache) (s : Z) : bool :=
  (0 <=? s) && (s <? Z.of_nat (length (seq_to_stream k))).

Definition get_size (k : kv_cache) : R nat :=
  st ← at_ (seq_to_stream k) 0%nat; c ← at_ (v_cells k) st; Ok (size c).

(** The part of the constructor that sets up the cells. *)
Definition init_cells (n_pos : Z) (kv_size n_seq_max n_stream : nat) (n_swa : Z)
    (swa : llama_swa_type) : kv_cache :=
  mk_cache false n_pos n_seq_max n_stream n_swa swa (replicate n_stream 0%nat)
    (replicate n_stream (resize kv_size cells_init))
    (if (1 <? n_stream)%nat then List.seq 0 n_stream
     else replicate (Z.to_nat LLAMA_MAX_SEQ) 0%nat)
    [] 1 1 (replicate n_seq_max 0%nat).

(** ** Sliding windows *)

Definition is_masked_swa (n_swa : Z) (swa : llama_swa_type) (p0 p1 : Z) : option bool :=
  assert_ ((0 <=? p0) && (0 <=? p1));;
  match swa with
  | LLAMA_SWA_TYPE_NONE => Some false
  | LLAMA_SWA_TYPE_STANDARD => Some (i32 n_swa <=? p1 - p0)
  | LLAMA_SWA_TYPE_CHUNKED =>
      assert_ (negb (n_swa =? 0));; Some (p0 <? p1 / n_swa * n_swa)
  | LLAMA_SWA_TYPE_SYMMETRIC =>
      let half := Z.quot (i32 n_swa) 2 in
      Some ((p1 - p0 <? - half) || (half <? p1 - p0))
  end.

(** ** The heads of the structured allocation *)

Definition reset_allocation_head (k : kv_cache) (s : Z) : kv_cache :=
  if (s <? 0) || (Z.of_nat (n_seq_max k) <=? s) || (length (allocation_seq_heads k) =? 0)%nat then k
  else with_allocation_heads k (<[Z.to_nat s := 0%nat]> (allocation_seq_heads k)).

(** The cell of the largest position of a sequence; [size] when there is none. *)
Definition newest_cell (c : llama_kv_cells) (s : Z) : R (Z * nat) :=
  foldM (fun (st : Z * nat) i =>
    b ← deref (seq_has c i s);
    if b : bool then p ← deref (pos_get c i); Ok (if st.1 <? p then (p, i) else st) else Ok st)
    (-1, size c) (List.seq 0 (size c)).

Definition rebuild_allocation_head (k : kv_cache) (s : Z) : R kv_cache :=
  if (s <? 0) || (Z.of_nat (n_seq_max k) <=? s) || (allocation_group_size k <=? 1)%nat
     || negb (n_stream k =? 1)%nat then Ok k
  else
    c ← at_ (v_cells k) 0%nat;
    r ← newest_cell c s;
    if (r.2 =? size c)%nat then Ok (reset_allocation_head k s)
    else
      _ ← at_ (allocation_seq_heads k) (Z.to_nat s);
      Ok (with_allocation_heads k (<[Z.to_nat s := S r.2]> (allocation_seq_heads k))).

Definition all_seqs (k : kv_cache) : list Z := seqZ 0 (Z.of_nat (n_seq_max k)).

Definition rebuild_all (k : kv_cache) : R kv_cache := foldM rebuild_allocation_head k (all_seqs k).

Definition set_allocation_group_size (k : kv_cache) (group_size stage_groups : nat) : R kv_cache :=
  n ← get_size k;
  _ ← ensure (negb ((group_size =? 0)%nat || (stage_groups =? 0)%nat ||
                    negb (n mod group_size =? 0)%nat || (n / group_size <? stage_groups)%nat))
        InvalidGroupSize;
  Ok (foldl reset_allocation_head (with_allocation k group_size stage_groups (allocation_seq_heads k))
        (all_seqs k)).

(** ** Operations on sequences *)

Definition materialize_pending_copies (k : kv_cache) : kv_cache := with_sc_info k [].

Definition clear (k : kv_cache) : R kv_cache :=
  let k := with_sc_info k [] in
  k ← foldM (fun k st => c ← at_ (v_cells k) st; _ ← at_ (v_heads k) st;
               Ok (set_stream k st (reset c) 0)) k (List.seq 0 (n_stream k));
  Ok (foldl reset_allocation_head k (all_seqs k)).

(** A loop over all cells that remembers the first cell it freed ([new_head]). *)
Definition sweep (f : llama_kv_cells -> nat -> R (llama_kv_cells * bool)) (c : llama_kv_cells)
    : R (llama_kv_cells * nat) :=
  foldM (fun (st : llama_kv_cells * nat) i =>
    r ← f st.1 i;
    Ok (r.1, if (r.2 : bool) && (st.2 =? size c)%nat then i else st.2))
    (c, size c) (List.seq 0 (size c)).

(** "If we freed up a slot, set head to it so searching can start there." *)
Definition lower_head (c : llama_kv_cells) (new_head head : nat) : nat :=
  if negb (new_head =? size c)%nat && (new_head <? head)%nat then new_head else head.

Definition p0_of (p0 : Z) : Z := if p0 <? 0 then 0 else p0.
Definition p1_of (p1 : Z) : Z := if p1 <? 0 then 2 ^ 31 - 1 else p1.

Definition seq_rm_cell_in (p0 p1 s : Z) (c : llama_kv_cells) (i : nat) : R (llama_kv_cells * bool) :=
  hit ← deref (pos_in c i p0 p1);
  if negb hit then Ok (c, false) else
  b ← deref (seq_has c i s);
  if b : bool then deref (Cells.seq_rm c i s) else Ok (c, false).

Definition rm_cell_in (p0 p1 : Z) (c : llama_kv_cells) (i : nat) : R (llama_kv_cells * bool) :=
  hit ← deref (pos_in c i p0 p1);
  if negb hit then Ok (c, false) else
  c ← deref (rm c i); Ok (c, true).

Definition sweep_stream (f : llama_kv_cells -> nat -> R (llama_kv_cells * bool))
    (k : kv_cache) (st : nat) : R kv_cache :=
  c ← at_ (v_cells k) st;
  h ← at_ (v_heads k) st;
  r ← sweep f c;
  Ok (set_stream k st r.1 (lower_head r.1 r.2 h)).

Definition seq_rm_unchecked (k : kv_cache) (s p0 p1 : Z) : R kv_cache :=
  if other k then Ok k else
  let k := materialize_pending_copies k in
  _ ← ensure ((s =? -1) || seq_in_range k s) Undefined;
  let p0 := p0_of p0 in
  let p1 := p1_of p1 in
  if 0 <=? s then
    st ← stream_id k s;
    k ← sweep_stream (seq_rm_cell_in p0 p1 s) k st;
    rebuild_allocation_head k s
  else
    k ← foldM (sweep_stream (rm_cell_in p0 p1)) k (List.seq 0 (n_stream k));
    rebuild_all k.

(** [can_seq_rm] is always true without a compact tail. *)
Definition seq_rm (k : kv_cache) (s p0 p1 : Z) : R kv_cache :=
  if other k then Ok k else seq_rm_unchecked k s p0 p1.

Definition seq_rm_cell (k : kv_cache) (s : Z) (i : nat) : R kv_cache :=
  _ ← ensure (seq_in_range k s) Undefined;
  st ← stream_id k s;
  c ← at_ (v_cells k) st;
  h ← at_ (v_heads k) st;
  r ← deref (Cells.seq_rm_cell c i s);
  if r.2 : bool then
    rebuild_allocation_head (set_stream k st r.1 (if (i <? h)%nat then i else h)) s
  else Ok (set_stream k st r.1 h).

Definition seq_keep (k : kv_cache) (s : Z) : R kv_cache :=
  if other k then Ok k else
  let k := materialize_pending_copies k in
  _ ← ensure (seq_in_range k s) Undefined;
  st ← stream_id k s;
  k ← sweep_stream (fun c i => deref (Cells.seq_keep c i s)) k st;
  rebuild_all k.

Definition seq_add_cell_in (p0 p1 s d : Z) (c : llama_kv_cells) (i : nat) : R (llama_kv_cells * bool) :=
  hit ← deref (pos_in c i p0 p1);
  if negb hit then Ok (c, false) else
  b ← deref (seq_has c i s);
  if b : bool then deref (pos_add c i d) else Ok (c, false).

Definition seq_add (k : kv_cache) (s p0 p1 d : Z) : R kv_cache :=
  if other k then Ok k else
  let k := materialize_pending_copies k in
  _ ← ensure (seq_in_range k s) Undefined;
  _ ← ensure (n_pos_per_embd k =? 1) Undefined;
  st ← stream_id k s;
  c ← at_ (v_cells k) st;
  _ ← at_ (v_heads k) st;
  if d =? 0 then Ok k else
  let p0 := p0_of p0 in
  let p1 := p1_of p1 in
  if p0 =? p1 then Ok k else
  r ← sweep (seq_add_cell_in p0 p1 s d) c;
  rebuild_allocation_head (set_stream k st r.1 (if (r.2 =? size c)%nat then 0%nat else r.2)) s.

Definition seq_div_cell_in (p0 p1 s d : Z) (c : llama_kv_cells) (i : nat) : R (llama_kv_cells * bool) :=
  hit ← deref (pos_in c i p0 p1);
  if negb hit then Ok (c, false) else
  b ← deref (seq_has c i s);
  if b : bool then c ← deref (pos_div c i d); Ok (c, false) else Ok (c, false).

Definition seq_div (k : kv_cache) (s p0 p1 d : Z) : R kv_cache :=
  if other k then Ok k else
  let k := materialize_pending_copies k in
  _ ← ensure (seq_in_range k s) Undefined;
  _ ← ensure (n_pos_per_embd k =? 1) Undefined;
  st ← stream_id k s;
  c ← at_ (v_cells k) st;
  if d =? 1 then Ok k else
  let p0 := p0_of p0 in
  let p1 := p1_of p1 in
  if p0 =? p1 then Ok k else
  h ← at_ (v_heads k) st;
  r ← sweep (seq_div_cell_in p0 p1 s d) c;
  rebuild_allocation_head (set_stream k st r.1 h) s.

(** Copy within a stream: the cells of the source also belong to the destination. *)
Definition seq_cp_cell_in (p0 p1 src dst : Z) (c : llama_kv_cells) (i : nat) : R (llama_kv_cells * bool) :=
  hit ← deref (pos_in c i p0 p1);
  if negb hit then Ok (c, false) else
  b ← deref (seq_has c i src);
  if b : bool then c ← deref (Cells.seq_add c i dst); Ok (c, false) else Ok (c, false).

(** Copy between streams: cell [i] of the destination from cell [i] of the source. *)
Definition cross_cp_cell (c0 : llama_kv_cells) (src dst : Z) (c1 : llama_kv_cells) (i : nat)
    : R llama_kv_cells :=
  b ← deref (seq_has c0 i src);
  if b : bool then
    p ← deref (pos_get c0 i);
    sh ← deref (get_shift c0 i);
    e ← deref (ext_get c0 i);
    p ← (if negb (sh =? 0) then
           p ← int_ (p - sh); _ ← ensure (0 <=? p) Undefined; Ok p
         else Ok p);
    c1 ← deref (pos_set c1 i p);
    c1 ← deref (Cells.seq_add c1 i dst);
    c1 ← (if negb (sh =? 0) then fst <$> deref (pos_add c1 i sh) else Ok c1);
    deref (ext_set c1 i e)
  else Ok c1.

(** A bound that leaves out a part of the buffer. *)
Definition cuts (n : nat) (p : Z) : R bool :=
  if 0 <? p then q ← int_ (p + 1); Ok (q <? i32 (Z.of_nat n)) else Ok false.

Definition is_full (n : nat) (p0 p1 : Z) : R bool :=
  b0 ← cuts n p0; b1 ← cuts n p1; Ok (negb b0 && negb b1).

Definition seq_cp (k : kv_cache) (src dst p0 p1 : Z) : R kv_cache :=
  if other k then Ok k else
  let k := materialize_pending_copies k in
  _ ← ensure (seq_in_range k src) Undefined;
  _ ← ensure (seq_in_range k dst) Undefined;
  st0 ← stream_id k src;
  st1 ← stream_id k dst;
  if (st0 =? st1)%nat then
    c ← at_ (v_cells k) st0;
    if src =? dst then Ok k else
    h ← at_ (v_heads k) st0;
    r ← sweep (seq_cp_cell_in (p0_of p0) (p1_of p1) src dst) c;
    rebuild_allocation_head (set_stream k st0 r.1 h) dst
  else
    n ← get_size k;
    full ← is_full n p0 p1;
    _ ← ensure full Undefined;
    let k := with_sc_info k (sc_info k ++ [(st0, st1)]) in
    c0 ← at_ (v_cells k) st0;
    c1 ← at_ (v_cells k) st1;
    c1 ← foldM (cross_cp_cell c0 src dst) (reset c1) (List.seq 0 (size c0));
    h0 ← at_ (v_heads k) st0;
    rebuild_allocation_head (set_stream k st1 c1 h0) dst.

End KvCache.
