(* ===== verification/KvCacheWf.v ===== *)
(** The operations of [KvCache] on sequences against an abstract cache: for each
    stream an array of cells, which every operation changes cell by cell. *)

From S2P Require Import Prelude.
From S2P Require Import KvCells.
From S2P Require Import Memory.
From S2P Require Import Batch.
From S2P Require Import KvCache.

Module KvCacheWf.
Import Cells KvCache.

(** ** The abstract cache *)

Inductive cache_op :=
| Clear
| SeqRm (s p0 p1 : Z)
| SeqRmCell (s : Z) (i : nat)
| SeqKeep (s : Z)
| SeqAdd (s p0 p1 d : Z)
| SeqDiv (s p0 p1 d : Z)
| SeqCp (src dst p0 p1 : Z).

Definition run_cache_op (o : cache_op) (k : kv_cache) : R kv_cache :=
  match o with
  | Clear => clear k
  | SeqRm s p0 p1 => seq_rm k s p0 p1
  | SeqRmCell s i => seq_rm_cell k s i
  | SeqKeep s => seq_keep k s
  | SeqAdd s p0 p1 d => seq_add k s p0 p1 d
  | SeqDiv s p0 p1 d => seq_div k s p0 p1 d
  | SeqCp src dst p0 p1 => seq_cp k src dst p0 p1
  end.

(** A cell afterwards, and whether its shift is now pending. *)
Definition cell_change := cell -> option (cell * bool).

Definition in_range (p0 p1 : Z) (x : cell) : bool :=
  (p0_of p0 <=? c_pos x) && (c_pos x <? p1_of p1).

(** The cells of a sequence with a position in a range change by [g]. *)
Definition of_range (p0 p1 s : Z) (g : cell_change) : cell_change := fun x =>
  if in_range p0 p1 x && bool_decide (s ∈ c_seq x) then g x else Some (x, false).

Definition leave (s : Z) (x : cell) : cell :=
  let b := c_seq x ∖ {[s]} in
  if bool_decide (b = ∅) then free else mk_cell (c_pos x) (c_ext x) (c_shift x) b.

Definition rm_change (s : Z) : cell_change := fun x => Some (leave s x, false).

Definition rm_any_change (p0 p1 : Z) : cell_change := fun x =>
  Some (if in_range p0 p1 x then free else x, false).

Definition keep_change (s : Z) : cell_change := fun x =>
  if bool_decide (s ∈ c_seq x) then
    Some (mk_cell (c_pos x) (c_ext x) (c_shift x) {[s]}, false)
  else if bool_decide (c_seq x = ∅) then assert_ (c_pos x =? -1);; Some (x, false)
  else Some (free, false).

Definition add_change (d : Z) : cell_change := fun x =>
  assert_ (in_i32 (c_pos x + d) && in_i32 (c_shift x + d));;
  Some (if c_pos x + d <? 0 then mk_cell (-1) (c_ext x) 0 ∅
        else mk_cell (c_pos x + d) (c_ext x) (c_shift x + d) (c_seq x), true).

Definition div_change (d : Z) : cell_change := fun x =>
  let p := Z.quot (c_pos x) d in
  assert_ ((0 <? d) && in_i32 (c_shift x + (c_pos x - p)));;
  Some (mk_cell p (c_ext x) (c_shift x + (c_pos x - p)) (c_seq x), true).

Definition join_change (s : Z) : cell_change := fun x =>
  assert_ (negb (bool_decide (s ∈ c_seq x)));;
  Some (mk_cell (c_pos x) (c_ext x) (c_shift x) (c_seq x ∪ {[s]}), false).

(** The copy of a cell of another stream. *)
Definition copy_change (src dst : Z) : cell_change := fun x =>
  if bool_decide (src ∈ c_seq x) then
    assert_ ((c_shift x =? 0) || in_i32 (c_pos x - c_shift x) && (0 <=? c_pos x - c_shift x));;
    Some (mk_cell (c_pos x) (c_ext x) (c_shift x) {[dst]}, negb (c_shift x =? 0))
  else Some (free, false).

Definition change_cells (g : cell_change) (lh : spec) : option spec :=
  rs ← mapM g lh.1; Some (rs.*1, lh.2 || existsb snd rs).

Definition cleared (lh : spec) : spec := (replicate (length lh.1) free, false).

(** The streams, and the copies between streams that are pending. *)
Definition aspec := (list spec * list (nat * nat))%type.

Section Spec.
  Context (sts : list nat) (n_pos : Z) (n : nat).

Definition stream_of_seq (s : Z) : option nat := assert_ (0 <=? s);; sts !! Z.to_nat s.

Definition on_stream (s : Z) (g : cell_change) (ls : list spec) : option (list spec) :=
  st ← stream_of_seq s;
  lh ← ls !! st;
  lh' ← change_cells g lh;
  Some (<[st := lh']> ls).

Definition spec_cp (src dst p0 p1 : Z) (ls : list spec) : option aspec :=
  st0 ← stream_of_seq src;
  st1 ← stream_of_seq dst;
  if (st0 =? st1)%nat then
    if src =? dst then Some (ls, [])
    else ls ← on_stream src (of_range p0 p1 src (join_change dst)) ls; Some (ls, [])
  else
    lh ← ls !! st0;
    assert_ (match is_full n p0 p1 with Ok b => b | Error _ => false end);;
    lh' ← change_cells (copy_change src dst) (lh.1, false);
    Some (<[st1 := lh']> ls, [(st0, st1)]).

Definition spec_cache_op (o : cache_op) (a : aspec) : option aspec :=
  let '(ls, pend) := a in
  match o with
  | Clear => Some (cleared <$> ls, [])
  | SeqRm s p0 p1 =>
      if s =? -1 then
        ls ← mapM (change_cells (rm_any_change p0 p1)) ls; Some (ls, [])
      else
        ls ← on_stream s (of_range p0 p1 s (rm_change s)) ls; Some (ls, [])
  | SeqRmCell s i =>
      st ← stream_of_seq s;
      lh ← ls !! st;
      x ← lh.1 !! i;
      Some (<[st := (<[i := if bool_decide (s ∈ c_seq x) then leave s x else x]> lh.1, lh.2)]> ls, pend)
  | SeqKeep s => ls ← on_stream s (keep_change s) ls; Some (ls, [])
  | SeqAdd s p0 p1 d =>
      assert_ (n_pos =? 1);;
      ls ← on_stream s (if (d =? 0) || (p0_of p0 =? p1_of p1) then fun x => Some (x, false)
                        else of_range p0 p1 s (add_change d)) ls;
      Some (ls, [])
  | SeqDiv s p0 p1 d =>
      assert_ (n_pos =? 1);;
      ls ← on_stream s (if (d =? 1) || (p0_of p0 =? p1_of p1) then fun x => Some (x, false)
                        else of_range p0 p1 s (div_change d)) ls;
      Some (ls, [])
  | SeqCp src dst p0 p1 => spec_cp src dst p0 p1 ls
  end.
End Spec.

(** ** The representation *)

Record cache_rep (n : nat) (k : kv_cache) (ls : list spec) : Prop := {
  ck_other : other k = false;
  ck_n : Z.of_nat n < 2 ^ 31;
  ck_cells : Forall2 (fun c (lh : spec) => rep c lh.1 lh.2) (v_cells k) ls;
  ck_size : Forall (fun lh : spec => length lh.1 = n) ls;
  ck_heads : length (v_heads k) = length ls;
  ck_head : Forall (fun h => h <= n)%nat (v_heads k);
  ck_streams : n_stream k = length ls;
  ck_seqs : (0 < length (seq_to_stream k))%nat /\ Z.of_nat (length (seq_to_stream k)) <= LLAMA_MAX_SEQ;
  ck_stream : Forall (fun st => st < length ls)%nat (seq_to_stream k);
  ck_alloc : length (allocation_seq_heads k) = n_seq_max k;
  ck_seq_max : Z.of_nat (n_seq_max k) <= LLAMA_MAX_SEQ;
}.

(** What no operation on sequences changes. *)
Definition config (k : kv_cache) :=
  (n_pos_per_embd k, n_seq_max k, n_stream k, n_swa k, swa_type k, seq_to_stream k,
   allocation_group_size k, allocation_stage_groups k).

(** ** One cell *)

Section Rep.
  Context (c : llama_kv_cells) (l : list cell) (h : bool) (i : nat) (x : cell).
  Context (HR : rep c l h) (Hx : l !! i = Some x).

Lemma pos_in_rep p0 p1 : pos_in c i p0 p1 = Some ((p0 <=? c_pos x) && (c_pos x <? p1)).
Proof. destruct (rep_at _ _ _ HR _ _ Hx) as (Hp & _). unfold pos_in. by rewrite Hp. Qed.

Lemma seq_has_rep s : 0 <= s < LLAMA_MAX_SEQ -> seq_has c i s = Some (bool_decide (s ∈ c_seq x)).
Proof.
  intros Hs. destruct (rep_at _ _ _ HR _ _ Hx) as (_ & _ & _ & Hb). unfold seq_has.
  rewrite Hb; bind_simpl. unfold has_bit. by replace ((0 <=? s) && (s <? LLAMA_MAX_SEQ)) with true by lia.
Qed.

Lemma is_empty_rep : is_empty c i = Some (c_pos x =? -1).
Proof.
  destruct (rep_at _ _ _ HR _ _ Hx) as (Hp & _). unfold is_empty. rewrite Hp; bind_simpl.
  destruct (rep_ok _ _ _ HR i x Hx) as (Hok & _).
  by replace ((c_pos x =? -1) || (0 <=? c_pos x)) with true by lia.
Qed.

Lemma pos_get_rep : c_pos x <> -1 -> pos_get c i = Some (c_pos x).
Proof.
  intros Hne. destruct (rep_at _ _ _ HR _ _ Hx) as (Hp & _). unfold pos_get.
  rewrite Hp; bind_simpl. by replace (c_pos x =? -1) with false by lia.
Qed.

Lemma get_shift_rep : c_pos x <> -1 -> get_shift c i = Some (c_shift x).
Proof.
  intros Hne. destruct (rep_at _ _ _ HR _ _ Hx) as (Hp & _ & Hs & _). unfold get_shift.
  rewrite Hp; bind_simpl. by replace (c_pos x =? -1) with false by lia.
Qed.

Lemma ext_get_rep : c_pos x <> -1 -> ext_get c i = Some (c_ext x).
Proof.
  intros Hne. destruct (rep_at _ _ _ HR _ _ Hx) as (Hp & He & _). unfold ext_get.
  rewrite Hp; bind_simpl. by replace (c_pos x =? -1) with false by lia.
Qed.

Lemma seq_count_rep : c_pos x <> -1 -> seq_count c i = Some (base.size (c_seq x)).
Proof.
  intros Hne. destruct (rep_at _ _ _ HR _ _ Hx) as (Hp & _ & _ & Hb). unfold seq_count.
  rewrite Hp; bind_simpl. rewrite Hb; bind_simpl. by replace (c_pos x =? -1) with false by lia.
Qed.

Lemma rep_same : rep c (<[i := x]> l) (h || false).
Proof. by rewrite orb_false_r, list_insert_id. Qed.
End Rep.

(** [f] changes a cell as [g] says and does nothing else; [steps_on s] asks it of the
    cells of sequence [s] only. *)
Definition steps_if (P : cell -> Prop) (f : llama_kv_cells -> nat -> R (llama_kv_cells * bool))
    (g : cell_change) : Prop :=
  forall c l h i x y, rep c l h -> l !! i = Some x -> P x -> g x = Some y ->
  exists c' fr, f c i = Ok (c', fr) /\ rep c' (<[i := y.1]> l) (h || y.2).

Abbreviation steps_to := (steps_if (fun _ => True)).
Abbreviation steps_on s := (steps_if (fun x => s ∈ c_seq x)).

(** A step that is one operation of the class. *)
Lemma op_step (P : cell -> Prop) f g (o : nat -> kv_op) :
  (forall c i, f c i = deref (run_op (o i) c)) ->
  (forall l h i x y, l !! i = Some x -> cell_ok x -> P x -> g x = Some y ->
     exists r, spec_op (o i) (l, h) = Some ((<[i := y.1]> l, h || y.2), r)) ->
  steps_if P f g.
Proof.
  intros Hf Ho c l h i x y HR Hx HP Hg.
  destruct (Ho l h i x y Hx (rep_ok _ _ _ HR i x Hx) HP Hg) as (r & Hs).
  destruct (op_sim (o i) c l h _ _ r HR Hs) as (c' & E & HR').
  exists c', r. rewrite Hf, E. done.
Qed.

Lemma in_range_step p0 p1 s f g :
  0 <= s < LLAMA_MAX_SEQ -> steps_on s f g ->
  steps_to (fun c i =>
    hit ← deref (pos_in c i (p0_of p0) (p1_of p1));
    if negb hit then Ok (c, false) else
    b ← deref (seq_has c i s);
    if b : bool then f c i else Ok (c, false)) (of_range p0 p1 s g).
Proof.
  intros Hs Hf c l h i x y HR Hx _ Hg. cbn beta.
  rewrite (pos_in_rep _ _ _ _ _ HR Hx), (seq_has_rep _ _ _ _ _ HR Hx) by done.
  unfold of_range, in_range in Hg. cbn [deref mbind result_bind].
  destruct ((p0_of p0 <=? c_pos x) && (c_pos x <? p1_of p1)) eqn:E; cbn [negb andb] in *.
  - case_bool_decide as Hin; simplify_eq/=; [by eapply Hf|].
    do 2 eexists. split; [done|]. by apply rep_same.
  - simplify_eq/=. do 2 eexists. split; [done|]. by apply rep_same.
Qed.

Lemma cell_ok_pos x s : cell_ok x -> s ∈ c_seq x -> c_pos x <> -1.
Proof. intros (_ & Hf & _) Hs E. destruct (Hf E). set_solver. Qed.

Ltac op_side := intros l h i x [y b] Hx Hok HP Hg; cbn [spec_op]; rewrite Hx; bind_simpl; cbn [fst snd].

Lemma rm_steps s : steps_on s (fun c i => deref (Cells.seq_rm c i s)) (rm_change s).
Proof.
  apply (op_step _ _ _ (fun i => KvCells.Cells.SeqRm i s)); [done|]. op_side.
  unfold rm_change, leave in Hg. simplify_eq. rewrite bool_decide_eq_true_2 by done. bind_simpl.
  unfold spec_seq_rm. rewrite orb_false_r. case_bool_decide; eauto.
Qed.

Lemma keep_steps s : 0 <= s < LLAMA_MAX_SEQ -> steps_to (fun c i => deref (Cells.seq_keep c i s)) (keep_change s).
Proof.
  intros Hs. assert (Hbit : has_bit s = true) by (unfold has_bit; lia).
  apply (op_step _ _ _ (fun i => KvCells.Cells.SeqKeep i s)); [done|]. op_side. rewrite Hbit. cbn [assert_]. bind_simpl.
  unfold keep_change in Hg. repeat case_bool_decide; inv_ok Hg; rewrite orb_false_r; eauto.
  rewrite Hx0. bind_simpl. rewrite list_insert_id by done. eauto.
Qed.

Lemma add_steps s d : steps_on s (fun c i => deref (pos_add c i d)) (add_change d).
Proof.
  apply (op_step _ _ _ (fun i => PosAdd i d)); [done|]. op_side.
  unfold add_change in Hg. inv_ok Hg. rewrite orb_true_r.
  pose proof (cell_ok_pos _ _ Hok HP).
  replace (c_pos x =? -1) with false by lia. cbn [negb andb]. rewrite Hx0. bind_simpl.
  destruct (c_pos x + d <? 0); eauto.
Qed.

Lemma div_steps s d : steps_on s (fun c i => c ← deref (pos_div c i d); Ok (c, false)) (div_change d).
Proof.
  apply (op_step _ _ _ (fun i => PosDiv i d)).
  { intros c i. cbn [run_op]. unfold no_result. by destruct (pos_div c i d). }
  op_side. unfold div_change in Hg. inv_ok Hg. rewrite orb_true_r.
  pose proof (cell_ok_pos _ _ Hok HP).
  replace (c_pos x =? -1) with false by lia. cbn [negb andb]. rewrite Hx0. bind_simpl. eauto.
Qed.

Lemma join_steps src dst : 0 <= dst < LLAMA_MAX_SEQ ->
  steps_on src (fun c i => c ← deref (Cells.seq_add c i dst); Ok (c, false)) (join_change dst).
Proof.
  intros Hd. apply (op_step _ _ _ (fun i => KvCells.Cells.SeqAdd i dst)).
  { intros c i. cbn [run_op]. unfold no_result. by destruct (Cells.seq_add c i dst). }
  op_side. unfold join_change in Hg. inv_ok Hg. rewrite orb_false_r.
  pose proof (cell_ok_pos _ _ Hok HP).
  replace (c_pos x =? -1) with false by lia.
  replace ((0 <=? dst)) with true by lia. replace (dst <? LLAMA_MAX_SEQ) with true by lia.
  rewrite Hx0. cbn [negb andb]. bind_simpl. eauto.
Qed.

Lemma rm_any_steps p0 p1 : steps_to (rm_cell_in (p0_of p0) (p1_of p1)) (rm_any_change p0 p1).
Proof.
  intros c l h i x y HR Hx _ Hg. unfold rm_cell_in. rewrite (pos_in_rep _ _ _ _ _ HR Hx).
  cbn [deref mbind result_bind]. unfold rm_any_change, in_range in Hg. simplify_eq/=.
  destruct ((p0_of p0 <=? c_pos x) && (c_pos x <? p1_of p1)) eqn:E; cbn [negb].
  - destruct (rm_sim i c l h (<[i := free]> l) h false HR) as (c' & E' & HR').
    { simpl. rewrite Hx. bind_simpl.
      assert (0 <= p0_of p0) by (unfold p0_of; destruct (Z.ltb_spec p0 0); lia).
      by replace (c_pos x =? -1) with false by lia. }
    simpl in E'. unfold no_result in E'. apply fmap_Some in E' as (c1 & E1 & [= ->]).
    rewrite E1. cbn. rewrite orb_false_r. eauto.
  - do 2 eexists. split; [done|]. by apply rep_same.
Qed.

(** ** All cells of a stream *)

Lemma mapM_lookup_Some {A B} (f : A -> option B) l k i x :
  mapM f l = Some k -> l !! i = Some x -> exists y, k !! i = Some y /\ f x = Some y.
Proof.
  intros Hm Hx. apply mapM_Some_1 in Hm.
  destruct (Forall2_lookup_l _ _ _ _ _ Hm Hx) as (y & ? & ?). eauto.
Qed.

(** The cells while the loop is at cell [j]. *)
Definition partly (l : list cell) (rs : list (cell * bool)) (j : nat) : list cell :=
  (take j rs).*1 ++ drop j l.

Lemma partly_lookup l rs j : length rs = length l -> (j < length l)%nat -> partly l rs j !! j = l !! j.
Proof.
  intros Hl Hj. unfold partly. rewrite lookup_app_r; rewrite length_fmap, length_take; [|lia].
  rewrite lookup_drop. f_equal. lia.
Qed.

Lemma partly_step l rs j y : length rs = length l -> rs !! j = Some y ->
  <[j := y.1]> (partly l rs j) = partly l rs (S j).
Proof.
  intros Hl Hy. assert (j < length l)%nat by (rewrite <- Hl; by eapply lookup_lt_Some).
  unfold partly. rewrite insert_app_r_alt; rewrite length_fmap, length_take; [|lia].
  replace (j - j `min` length rs)%nat with 0%nat by lia.
  destruct (drop j l) as [|z k] eqn:E.
  { apply (f_equal length) in E. rewrite length_drop in E. simpl in E. lia. }
  simpl. rewrite (take_S_r _ _ _ Hy), fmap_app, <- app_assoc. f_equal. simpl. f_equal.
  apply (f_equal (drop 1)) in E. rewrite drop_drop in E. simpl in E. rewrite drop_0 in E.
  rewrite <- E. f_equal. lia.
Qed.

Lemma existsb_take_S (rs : list (cell * bool)) j y : rs !! j = Some y ->
  existsb snd (take (S j) rs) = existsb snd (take j rs) || y.2.
Proof. intros Hy. rewrite (take_S_r _ _ _ Hy), existsb_app. simpl. by rewrite orb_false_r. Qed.

Lemma rep_size_eq c l h : rep c l h -> size c = length l.
Proof. intros HR. unfold size. by rewrite (rep_pos _ _ _ HR), length_fmap. Qed.

(** The loop over the cells of a stream. *)
Lemma loop_rep (St : Type) (cells_of : St -> llama_kv_cells) (step : St -> nat -> R St) (ok : St -> Prop)
    (g : cell_change) (l : list cell) (h : bool) (rs : list (cell * bool)) (s : St) :
  (forall s i x y k h', ok s -> rep (cells_of s) k h' -> k !! i = Some x -> l !! i = Some x ->
     g x = Some y ->
     exists s', step s i = Ok s' /\ ok s' /\ rep (cells_of s') (<[i := y.1]> k) (h' || y.2)) ->
  rep (cells_of s) l h -> ok s -> mapM g l = Some rs ->
  exists s', foldM step s (List.seq 0 (length l)) = Ok s' /\ ok s' /\
    rep (cells_of s') rs.*1 (h || existsb snd rs).
Proof.
  intros Hstep HR Hok Hm. pose proof (length_mapM _ _ _ Hm) as Hl; symmetry in Hl.
  destruct (for_total (fun j s => ok s /\ rep (cells_of s) (partly l rs j) (h || existsb snd (take j rs)))
    step (length l) s) as (s' & E & Hok' & HR').
  - intros j s1 Hj [Hok1 HR1]. destruct (lookup_lt_is_Some_2 l j Hj) as [x Hx].
    destruct (mapM_lookup_Some _ _ _ _ _ Hm Hx) as (y & Hy & Hg).
    destruct (Hstep s1 j x y _ _ Hok1 HR1) as (s2 & E2 & Hok2 & HR2);
      [by rewrite partly_lookup by lia|done..|].
    exists s2. split; [done|]. split; [done|].
    rewrite <- partly_step with (y := y) by (done || lia).
    by rewrite (existsb_take_S _ _ _ Hy), orb_assoc.
  - split; [done|]. unfold partly. by rewrite take_0, drop_0, orb_false_r.
  - exists s'. split; [done|]. split; [done|]. unfold partly in HR'.
    rewrite drop_ge in HR' by lia. rewrite !take_ge in HR' by lia. by rewrite app_nil_r in HR'.
Qed.

Lemma sweep_rep f g c l h lh' :
  steps_to f g -> rep c l h -> change_cells g (l, h) = Some lh' ->
  exists c' nh, sweep f c = Ok (c', nh) /\ rep c' lh'.1 lh'.2 /\ (nh <= length l)%nat /\
    length lh'.1 = length l.
Proof.
  intros Hf HR Hc. unfold change_cells in Hc. cbn [fst snd] in Hc.
  apply bind_Some_inv in Hc as (rs & Hm & [= <-]).
  unfold sweep. rewrite (rep_size_eq _ _ _ HR).
  destruct (loop_rep _ fst (fun (st : llama_kv_cells * nat) i =>
    r ← f st.1 i;
    Ok (r.1, if (r.2 : bool) && (st.2 =? length l)%nat then i else st.2))
    (fun st => st.2 <= length l)%nat g l h rs (c, length l)) as ([c' nh] & E & Hle & HR');
    [|done|done|done|].
  - intros [c1 n1] i x y k h' Hle HR1 Hx Hlx Hg. simpl in HR1, Hle.
    destruct (Hf _ _ _ _ _ _ HR1 Hx I Hg) as (c2 & fr & E2 & HR2).
    cbn [fst]. rewrite E2. eexists. split; [reflexivity|]. split; [|done]. simpl.
    apply lookup_lt_Some in Hlx. case_match; lia.
  - exists c', nh. split_and!; [done|done|done|]. simpl. rewrite length_fmap.
    by rewrite (length_mapM _ _ _ Hm).
Qed.

(** ** One stream of a cache *)

Section Cache.
  Context (n : nat).

Lemma cache_rep_sc k ls sc : cache_rep n k ls -> cache_rep n (with_sc_info k sc) ls.
Proof. intros []. by split. Qed.

Lemma cache_rep_alloc k ls ahs :
  cache_rep n k ls -> length ahs = n_seq_max k -> cache_rep n (with_allocation_heads k ahs) ls.
Proof. intros [] Hl. by split. Qed.

Lemma cache_rep_set k ls st c lh h :
  cache_rep n k ls -> rep c lh.1 lh.2 -> length lh.1 = n -> (h <= n)%nat ->
  cache_rep n (set_stream k st c h) (<[st := lh]> ls).
Proof.
  intros [] HR Hl Hh. split; cbn; try done.
  - by apply Forall2_insert.
  - by apply Forall_insert.
  - by rewrite !length_insert.
  - by apply Forall_insert.
  - by rewrite length_insert.
  - by rewrite length_insert.
Qed.

(** What a cache has for a stream. *)
Lemma cache_rep_stream k ls st lh :
  cache_rep n k ls -> ls !! st = Some lh ->
  exists c h, v_cells k !! st = Some c /\ v_heads k !! st = Some h /\
    rep c lh.1 lh.2 /\ length lh.1 = n /\ (h <= n)%nat /\ size c = n.
Proof.
  intros HC Hst. destruct (Forall2_lookup_r _ _ _ _ _ (ck_cells _ _ _ HC) Hst) as (c & Hc & HR).
  destruct (lookup_lt_is_Some_2 (v_heads k) st) as [h Hh].
  { rewrite (ck_heads _ _ _ HC). by eapply lookup_lt_Some. }
  exists c, h. pose proof (Forall_lookup_1 _ _ _ _ (ck_size _ _ _ HC) Hst) as Hl.
  split_and!; [done|done|done|done| |by rewrite (rep_size_eq _ _ _ HR)].
  by apply (Forall_lookup_1 _ _ _ _ (ck_head _ _ _ HC) Hh).
Qed.

Lemma stream_lookup k ls s st :
  cache_rep n k ls -> stream_of_seq (seq_to_stream k) s = Some st ->
  stream_id k s = Ok st /\ seq_in_range k s = true /\ 0 <= s < LLAMA_MAX_SEQ /\
  exists lh, ls !! st = Some lh.
Proof.
  intros HC Hs. unfold stream_of_seq in Hs. inv_ok Hs. unfold stream_id, seq_in_range.
  pose proof (lookup_lt_Some _ _ _ Hs). destruct (ck_seqs _ _ _ HC) as [_ Hmax].
  assert (Hx0 : 0 <= s) by lia. replace (0 <=? s) with true by lia. bind_simpl.
  unfold at_. rewrite Hs. split_and!; [done|lia|lia|lia|].
  apply lookup_lt_is_Some_2. by apply (Forall_lookup_1 _ _ _ _ (ck_stream _ _ _ HC) Hs).
Qed.

(** *** The heads of the structured allocation *)

(** A cache that differs in these heads only. *)
Definition same_cells (k k' : kv_cache) : Prop :=
  exists ahs, length ahs = length (allocation_seq_heads k) /\ k' = with_allocation_heads k ahs.

Lemma same_cells_refl k : same_cells k k.
Proof. exists (allocation_seq_heads k). by destruct k. Qed.

Lemma same_cells_trans k1 k2 k3 : same_cells k1 k2 -> same_cells k2 k3 -> same_cells k1 k3.
Proof.
  intros (a & Ha & ->) (b & Hb & ->). exists b. split; [|done]. simpl in Hb. congruence.
Qed.

Lemma same_cells_rep k k' ls : cache_rep n k ls -> same_cells k k' -> cache_rep n k' ls.
Proof.
  intros HC (ahs & Hl & ->). apply cache_rep_alloc; [done|]. by rewrite Hl, (ck_alloc _ _ _ HC).
Qed.

Lemma same_cells_config k k' : same_cells k k' -> config k' = config k /\ sc_info k' = sc_info k.
Proof. by intros (ahs & _ & ->). Qed.

Lemma reset_allocation_head_same k s : same_cells k (reset_allocation_head k s).
Proof.
  unfold reset_allocation_head. case_match; [apply same_cells_refl|].
  eexists. split; [|done]. by rewrite length_insert.
Qed.

Lemma newest_cell_ok c l h s : rep c l h -> 0 <= s < LLAMA_MAX_SEQ ->
  exists p i, newest_cell c s = Ok (p, i) /\ (i <= size c)%nat.
Proof.
  intros HR Hs. unfold newest_cell.
  destruct (for_total (E := kv_error) (fun _ (st : Z * nat) => st.2 <= size c)%nat
    (fun (st : Z * nat) i =>
      b ← deref (seq_has c i s);
      if b : bool then p ← deref (pos_get c i); Ok (if st.1 <? p then (p, i) else st) else Ok st)
    (size c) (-1, size c)) as ([p i] & E & Hi); [|done|by eauto].
  intros j [q m] Hj Hm. rewrite (rep_size_eq _ _ _ HR) in Hj.
  destruct (lookup_lt_is_Some_2 l j Hj) as [x Hx].
  rewrite (seq_has_rep _ _ _ _ _ HR Hx) by done. cbn [deref mbind result_bind].
  case_bool_decide as Hin; [|eauto].
  rewrite (pos_get_rep _ _ _ _ _ HR Hx) by (eapply rep_at_seq; done). cbn [deref mbind result_bind].
  eexists. split; [done|]. rewrite (rep_size_eq _ _ _ HR) in *. simpl in *. case_match; simpl; lia.
Qed.

Lemma rebuild_allocation_head_ok k ls s :
  cache_rep n k ls -> exists k', rebuild_allocation_head k s = Ok k' /\ same_cells k k'.
Proof.
  intros HC. unfold rebuild_allocation_head.
  destruct (_ || _) eqn:E; [eauto using same_cells_refl|].
  pose proof (ck_seq_max _ _ _ HC).
  assert (0 <= s < LLAMA_MAX_SEQ /\ s < Z.of_nat (n_seq_max k) /\ n_stream k = 1%nat) as (Hs & Hs' & H1).
  { apply orb_false_iff in E as [[[? ?]%orb_false_iff ?]%orb_false_iff ?%negb_false_iff].
    split_and!; [lia|lia|lia|]. by apply Nat.eqb_eq. }
  rewrite (ck_streams _ _ _ HC) in H1.
  destruct (lookup_lt_is_Some_2 ls 0%nat) as [lh Hlh]; [lia|].
  destruct (cache_rep_stream _ _ _ _ HC Hlh) as (c & h & Hc & _ & HR & _).
  rewrite (at_lookup _ _ _ Hc). cbn [mbind result_bind].
  destruct (newest_cell_ok _ _ _ s HR Hs) as (p & i & E1 & _). rewrite E1. cbn [mbind result_bind snd].
  case_match; [eexists; split; [done|]; apply reset_allocation_head_same|].
  destruct (lookup_lt_is_Some_2 (allocation_seq_heads k) (Z.to_nat s)) as [a Ha].
  { rewrite (ck_alloc _ _ _ HC). lia. }
  rewrite (at_lookup _ _ _ Ha). cbn [mbind result_bind]. eexists. split; [done|].
  eexists. split; [|done]. by rewrite length_insert.
Qed.

Lemma rebuild_all_ok k ls : cache_rep n k ls -> exists k', rebuild_all k = Ok k' /\ same_cells k k'.
Proof.
  intros HC. unfold rebuild_all.
  apply (foldM_total (fun _ k' => same_cells k k')); [|apply same_cells_refl].
  intros pre s k1 _ Hk. destruct (rebuild_allocation_head_ok k1 ls s) as (k2 & E & Hk2).
  { by eapply same_cells_rep. }
  exists k2. split; [done|]. by eapply same_cells_trans.
Qed.

(** ** The operations *)

(** A run that ends in a cache with the streams [ls] and the pending copies [pend]. *)
Definition ends_in (k : kv_cache) (r : R kv_cache) (ls : list spec) (pend : list (nat * nat)) : Prop :=
  exists k', r = Ok k' /\ cache_rep n k' ls /\ sc_info k' = pend /\ config k' = config k.

Lemma ends_now k k' ls : cache_rep n k' ls -> config k' = config k -> ends_in k (Ok k') ls (sc_info k').
Proof. intros. by exists k'. Qed.

Lemma rebuild_ends k k' ls s :
  cache_rep n k' ls -> config k' = config k -> ends_in k (rebuild_allocation_head k' s) ls (sc_info k').
Proof.
  intros HC Hc. destruct (rebuild_allocation_head_ok k' ls s HC) as (k2 & E & Hs).
  destruct (same_cells_config _ _ Hs). exists k2. split_and!; [done| |done|congruence].
  by eapply same_cells_rep.
Qed.

Lemma rebuild_all_ends k k' ls :
  cache_rep n k' ls -> config k' = config k -> ends_in k (rebuild_all k') ls (sc_info k').
Proof.
  intros HC Hc. destruct (rebuild_all_ok k' ls HC) as (k2 & E & Hs).
  destruct (same_cells_config _ _ Hs). exists k2. split_and!; [done| |done|congruence].
  by eapply same_cells_rep.
Qed.

Lemma on_stream_range k ls s g ls' :
  cache_rep n k ls -> on_stream (seq_to_stream k) s g ls = Some ls' -> 0 <= s < LLAMA_MAX_SEQ.
Proof. intros HC Ho. unfold on_stream in Ho. apply bind_Some_inv in Ho as (st & Hs & _). by apply (stream_lookup _ _ _ _ HC Hs). Qed.

(** Changing the cells of the stream of a sequence. *)
Lemma on_stream_ok k ls s f g ls' :
  steps_to f g -> cache_rep n k ls -> on_stream (seq_to_stream k) s g ls = Some ls' ->
  exists st c h c' nh, stream_id k s = Ok st /\ seq_in_range k s = true /\
    at_ (E := kv_error) (v_cells k) st = Ok c /\ at_ (E := kv_error) (v_heads k) st = Ok h /\
    (h <= n)%nat /\ sweep f c = Ok (c', nh) /\ (nh <= n)%nat /\ size c = n /\ size c' = n /\
    forall h', (h' <= n)%nat -> cache_rep n (set_stream k st c' h') ls'.
Proof.
  intros Hf HC Ho. unfold on_stream in Ho. inv_ok Ho.
  destruct (stream_lookup _ _ _ _ HC Hx) as (E & Hr & _ & _).
  destruct (cache_rep_stream _ _ _ _ HC Hx0) as (c & h & Hc & Hh & HR & Hl & Hhn & Hsz).
  destruct x0 as [l b]. cbn [fst snd] in *.
  destruct (sweep_rep f g c l b _ Hf HR Hx1) as (c' & nh & E1 & HR' & Hnh & Hl').
  exists x, c, h, c', nh. rewrite (at_lookup _ _ _ Hc), (at_lookup _ _ _ Hh).
  split_and!; [done|done|done|done|done|done|lia|done|by rewrite (rep_size_eq _ _ _ HR'), Hl'|].
  intros h' Hh'. eapply cache_rep_set; [done|done|by rewrite Hl'|done].
Qed.

Lemma lower_head_le c nh h : (h <= n)%nat -> (lower_head c nh h <= n)%nat.
Proof. intros Hh. unfold lower_head. case_match eqn:E; [|done]. apply andb_true_iff in E as [_ ?%Nat.ltb_lt]. lia. Qed.

Lemma sweep_stream_ok k ls s f g ls' :
  steps_to f g -> cache_rep n k ls -> on_stream (seq_to_stream k) s g ls = Some ls' ->
  exists st k', stream_id k s = Ok st /\ seq_in_range k s = true /\ sweep_stream f k st = Ok k' /\
    cache_rep n k' ls' /\ sc_info k' = sc_info k /\ config k' = config k.
Proof.
  intros Hf HC Ho.
  destruct (on_stream_ok _ _ _ _ _ _ Hf HC Ho) as (st & c & h & c' & nh & E & Hr & Ec & Eh & Hh & Es & Hnh & _ & _ & HC').
  eexists st, _. split_and!; [done|done| |apply (HC' (lower_head c' nh h)), lower_head_le; done|done|done].
  unfold sweep_stream. rewrite Ec. cbn [mbind result_bind]. rewrite Eh. cbn [mbind result_bind].
  rewrite Es. done.
Qed.

Lemma forgotten k ls : cache_rep n k ls ->
  cache_rep n (materialize_pending_copies k) ls /\ config (materialize_pending_copies k) = config k /\
  sc_info (materialize_pending_copies k) = [] /\
  seq_to_stream (materialize_pending_copies k) = seq_to_stream k /\
  n_stream (materialize_pending_copies k) = n_stream k.
Proof. intros HC. split_and!; [by apply cache_rep_sc|done..]. Qed.

Lemma seq_rm_ok k ls s p0 p1 ls' : s <> -1 ->
  cache_rep n k ls -> on_stream (seq_to_stream k) s (of_range p0 p1 s (rm_change s)) ls = Some ls' ->
  ends_in k (seq_rm_unchecked k s p0 p1) ls' [].
Proof.
  intros Hne HC Ho. destruct (forgotten _ _ HC) as (HC0 & Hc0 & Hp & Hst & _).
  unfold seq_rm_unchecked. rewrite (ck_other _ _ _ HC). revert HC0 Hc0 Hp Hst.
  generalize (materialize_pending_copies k) as k0. intros k0 HC0 Hc0 Hp Hst. rewrite <- Hst in Ho.
  pose proof (on_stream_range _ _ _ _ _ HC0 Ho) as Hrange.
  destruct (sweep_stream_ok _ _ _ (seq_rm_cell_in (p0_of p0) (p1_of p1) s) _ _
    (in_range_step p0 p1 s _ _ ltac:(done) (rm_steps s)) HC0 Ho) as (st & k1 & E & Hr & Es & HC1 & Hp1 & Hc1).
  rewrite Hr, orb_true_r. cbn [ensure mbind result_bind]. replace (0 <=? s) with true by lia.
  rewrite E. cbn [mbind result_bind]. rewrite Es. cbn [mbind result_bind].
  rewrite <- Hp, <- Hp1. apply rebuild_ends; [done|congruence].
Qed.

Lemma rm_any_ok k ls p0 p1 ls' :
  cache_rep n k ls -> mapM (change_cells (rm_any_change p0 p1)) ls = Some ls' ->
  ends_in k (seq_rm_unchecked k (-1) p0 p1) ls' [].
Proof.
  intros HC Hm. destruct (forgotten _ _ HC) as (HC0 & Hc0 & Hp & Hst & Hns).
  unfold seq_rm_unchecked. rewrite (ck_other _ _ _ HC). revert HC0 Hc0 Hp Hst Hns.
  generalize (materialize_pending_copies k) as k0. intros k0 HC0 Hc0 Hp Hst Hns.
  cbn [Z.eqb Pos.eqb orb ensure mbind result_bind Z.leb Z.compare].
  pose proof (length_mapM _ _ _ Hm) as Hl.
  destruct (for_total (fun j k1 => cache_rep n k1 (take j ls' ++ drop j ls) /\ sc_info k1 = [] /\ config k1 = config k)
    (sweep_stream (rm_cell_in (p0_of p0) (p1_of p1))) (n_stream k0) k0) as (k1 & E & HC1 & Hp1 & Hc1).
  - rewrite (ck_streams _ _ _ HC0). intros j k1 Hj (HC1 & Hp1 & Hc1).
    destruct (lookup_lt_is_Some_2 ls j Hj) as [lh Hlh].
    destruct (mapM_lookup_Some _ _ _ _ _ Hm Hlh) as (lh' & Hlh' & Hch).
    assert (Hj' : (take j ls' ++ drop j ls) !! j = Some lh).
    { rewrite lookup_app_r; rewrite length_take; [|lia]. rewrite lookup_drop, <- Hlh. f_equal. lia. }
    destruct (cache_rep_stream _ _ _ _ HC1 Hj') as (c & h & Hc & Hh & HR & Hln & Hhn & Hsz).
    destruct lh as [l b]. cbn [fst snd] in *.
    destruct (sweep_rep _ _ c l b _ (rm_any_steps p0 p1) HR Hch) as (c' & nh & E1 & HR' & Hnh & Hl').
    exists (set_stream k1 j c' (lower_head c' nh h)). unfold sweep_stream.
    rewrite (at_lookup _ _ _ Hc). cbn [mbind result_bind]. rewrite (at_lookup _ _ _ Hh).
    cbn [mbind result_bind]. rewrite E1. cbn [mbind result_bind fst snd]. split; [done|].
    split; [|done].
    replace (take (S j) ls' ++ drop (S j) ls) with (<[j := lh']> (take j ls' ++ drop j ls)).
    { eapply cache_rep_set; [done|done|by rewrite Hl'|by apply lower_head_le]. }
    rewrite (take_S_r _ _ _ Hlh'), <- app_assoc. rewrite (drop_S _ _ _ Hlh).
    rewrite insert_app_r_alt; rewrite length_take; [|lia].
    by replace (j - j `min` length ls')%nat with 0%nat by lia.
  - split; [by rewrite take_0, drop_0|done].
  - rewrite E. cbn [mbind result_bind]. rewrite <- Hp1.
    rewrite (ck_streams _ _ _ HC0) in HC1. rewrite take_ge, drop_ge, app_nil_r in HC1 by lia.
    by apply rebuild_all_ends.
Qed.

Lemma seq_rm_cell_ok k ls s i st lh x :
  cache_rep n k ls -> stream_of_seq (seq_to_stream k) s = Some st -> ls !! st = Some lh ->
  lh.1 !! i = Some x ->
  ends_in k (seq_rm_cell k s i)
    (<[st := (<[i := if bool_decide (s ∈ c_seq x) then leave s x else x]> lh.1, lh.2)]> ls) (sc_info k).
Proof.
  intros HC Hs Hst Hx. destruct (stream_lookup _ _ _ _ HC Hs) as (E & Hr & Hs' & _).
  destruct (cache_rep_stream _ _ _ _ HC Hst) as (c & h & Hc & Hh & HR & Hl & Hhn & _).
  destruct lh as [l b]. cbn [fst snd] in *.
  unfold seq_rm_cell. rewrite Hr. cbn [ensure mbind result_bind]. rewrite E. cbn [mbind result_bind].
  rewrite (at_lookup _ _ _ Hc), (at_lookup _ _ _ Hh). cbn [mbind result_bind].
  destruct (seq_rm_cell_sim i s c l b (<[i := if bool_decide (s ∈ c_seq x) then leave s x else x]> l) b
    (bool_decide (s ∈ c_seq x) && bool_decide (c_seq x ∖ {[s]} = ∅)) HR) as (c' & E1 & HR').
  { cbn [spec_op]. rewrite Hx. bind_simpl. unfold has_bit. replace ((0 <=? s) && (s <? LLAMA_MAX_SEQ)) with true by lia. bind_simpl.
    unfold spec_seq_rm, leave. repeat case_bool_decide; simplify_eq/=; rewrite ?list_insert_id by done; done. }
  cbn [run_op] in E1. rewrite E1. cbn [deref mbind result_bind fst snd].
  assert (forall h', (h' <= n)%nat -> cache_rep n (set_stream k st c' h')
    (<[st := (<[i := if bool_decide (s ∈ c_seq x) then leave s x else x]> l, b)]> ls)) as HC'.
  { intros h' Hh'. eapply cache_rep_set; [done|done| |done]. simpl. by rewrite length_insert. }
  destruct (_ && _); [|apply (ends_now _ (set_stream k st c' h)); [by apply HC'|done]].
  apply (rebuild_ends _ (set_stream k st c' (if (i <? h)%nat then i else h))); [|done].
  apply HC'. destruct (Nat.ltb_spec i h); lia.
Qed.

Lemma seq_keep_ok k ls s ls' :
  cache_rep n k ls -> on_stream (seq_to_stream k) s (keep_change s) ls = Some ls' ->
  ends_in k (seq_keep k s) ls' [].
Proof.
  intros HC Ho. destruct (forgotten _ _ HC) as (HC0 & Hc0 & Hp & Hst & _).
  unfold seq_keep. rewrite (ck_other _ _ _ HC). revert HC0 Hc0 Hp Hst.
  generalize (materialize_pending_copies k) as k0. intros k0 HC0 Hc0 Hp Hst. rewrite <- Hst in Ho.
  pose proof (on_stream_range _ _ _ _ _ HC0 Ho) as Hrange.
  destruct (sweep_stream_ok _ _ _ _ _ _ (keep_steps s Hrange) HC0 Ho) as (st & k1 & E & Hr & Es & HC1 & Hp1 & Hc1).
  rewrite Hr. cbn [ensure mbind result_bind]. rewrite E. cbn [mbind result_bind].
  rewrite Es. cbn [mbind result_bind].
  rewrite <- Hp, <- Hp1. apply rebuild_all_ends; [done|congruence].
Qed.

Lemma id_steps : steps_to (fun c _ => Ok (c, false)) (fun x => Some (x, false)).
Proof. intros c l h i x y HR Hx _ [= <-]. do 2 eexists. split; [done|]. by apply rep_same. Qed.

Lemma on_stream_id sts s ls ls' :
  on_stream sts s (fun x => Some (x, false)) ls = Some ls' -> ls' = ls.
Proof.
  intros Ho. unfold on_stream, change_cells in Ho. inv_ok Ho.
  assert (x2 = (fun y => (y, false)) <$> x0.1) as ->.
  { clear Hx0. revert x2 Hx2. induction x0.1 as [|y l IH]; intros x2 Hm; simpl in Hm; inv_ok Hm; [done|].
    simpl. f_equal. by apply IH. }
  destruct x0 as [l b]. cbn [fst snd].
  rewrite list_insert_id; [done|]. rewrite Hx0. f_equal. f_equal.
  - rewrite <- list_fmap_compose. by rewrite list_fmap_id.
  - replace (existsb snd ((fun y => (y, false)) <$> l)) with false; [by rewrite orb_false_r|].
    clear. symmetry. by induction l as [|y l IH].
Qed.

(** [seq_add] and [seq_div]: nothing when the argument is neutral or the range is
    empty, and otherwise a change of the cells of the range. *)
Lemma seq_add_ok k ls s p0 p1 d ls' :
  cache_rep n k ls -> n_pos_per_embd k = 1 ->
  on_stream (seq_to_stream k) s (if (d =? 0) || (p0_of p0 =? p1_of p1) then fun x => Some (x, false)
                                 else of_range p0 p1 s (add_change d)) ls = Some ls' ->
  ends_in k (seq_add k s p0 p1 d) ls' [].
Proof.
  intros HC Hnp Ho. destruct (forgotten _ _ HC) as (HC0 & Hc0 & Hp & Hst & _).
  assert (n_pos_per_embd (materialize_pending_copies k) = 1) as Hnp0 by done.
  unfold seq_add. rewrite (ck_other _ _ _ HC). revert HC0 Hc0 Hp Hst Hnp0.
  generalize (materialize_pending_copies k) as k0. intros k0 HC0 Hc0 Hp Hst Hnp0. rewrite <- Hst in Ho.
  rewrite Hnp0.
  pose proof (on_stream_range _ _ _ _ _ HC0 Ho) as Hrange.
  destruct ((d =? 0) || (p0_of p0 =? p1_of p1)) eqn:Ei.
  - pose proof (on_stream_id _ _ _ _ Ho) as ->.
    destruct (on_stream_ok _ _ _ _ _ _ id_steps HC0 Ho) as (st & c & h & c' & nh & E & Hr & Ec & Eh & _).
    rewrite Hr. cbn [ensure mbind result_bind Z.eqb Pos.eqb]. rewrite E. cbn [mbind result_bind].
    rewrite Ec, Eh. cbn [mbind result_bind]. rewrite <- Hp.
    destruct (d =? 0); [by apply ends_now|]. cbn [orb] in Ei. rewrite Ei. by apply ends_now.
  - destruct (on_stream_ok _ _ _ (seq_add_cell_in (p0_of p0) (p1_of p1) s d) _ _
      (in_range_step p0 p1 s _ _ ltac:(done) (add_steps s d)) HC0 Ho)
      as (st & c & h & c' & nh & E & Hr & Ec & Eh & Hh & Es & Hnh & _ & _ & HC').
    rewrite Hr. cbn [ensure mbind result_bind Z.eqb Pos.eqb]. rewrite E. cbn [mbind result_bind].
    rewrite Ec, Eh. cbn [mbind result_bind].
    apply orb_false_iff in Ei as [-> ->]. rewrite Es. cbn [mbind result_bind fst snd].
    rewrite <- Hp. 
    apply (rebuild_ends _ (set_stream k0 st c' (if (nh =? size c)%nat then 0%nat else nh))); [|done].
    apply HC'. case_match; lia.
Qed.

Lemma seq_div_ok k ls s p0 p1 d ls' :
  cache_rep n k ls -> n_pos_per_embd k = 1 ->
  on_stream (seq_to_stream k) s (if (d =? 1) || (p0_of p0 =? p1_of p1) then fun x => Some (x, false)
                                 else of_range p0 p1 s (div_change d)) ls = Some ls' ->
  ends_in k (seq_div k s p0 p1 d) ls' [].
Proof.
  intros HC Hnp Ho. destruct (forgotten _ _ HC) as (HC0 & Hc0 & Hp & Hst & _).
  assert (n_pos_per_embd (materialize_pending_copies k) = 1) as Hnp0 by done.
  unfold seq_div. rewrite (ck_other _ _ _ HC). revert HC0 Hc0 Hp Hst Hnp0.
  generalize (materialize_pending_copies k) as k0. intros k0 HC0 Hc0 Hp Hst Hnp0. rewrite <- Hst in Ho.
  rewrite Hnp0.
  pose proof (on_stream_range _ _ _ _ _ HC0 Ho) as Hrange.
  destruct ((d =? 1) || (p0_of p0 =? p1_of p1)) eqn:Ei.
  - pose proof (on_stream_id _ _ _ _ Ho) as ->.
    destruct (on_stream_ok _ _ _ _ _ _ id_steps HC0 Ho) as (st & c & h & c' & nh & E & Hr & Ec & Eh & _).
    rewrite Hr. cbn [ensure mbind result_bind Z.eqb Pos.eqb]. rewrite E. cbn [mbind result_bind].
    rewrite Ec. cbn [mbind result_bind]. rewrite <- Hp.
    destruct (d =? 1); [by apply ends_now|]. simpl in Ei. rewrite Ei. by apply ends_now.
  - destruct (on_stream_ok _ _ _ (seq_div_cell_in (p0_of p0) (p1_of p1) s d) _ _
      (in_range_step p0 p1 s _ _ ltac:(done) (div_steps s d)) HC0 Ho)
      as (st & c & h & c' & nh & E & Hr & Ec & Eh & Hh & Es & Hnh & _ & _ & HC').
    rewrite Hr. cbn [ensure mbind result_bind Z.eqb Pos.eqb]. rewrite E. cbn [mbind result_bind].
    rewrite Ec. cbn [mbind result_bind].
    apply orb_false_iff in Ei as [-> ->]. rewrite Eh. cbn [mbind result_bind].
    rewrite Es. cbn [mbind result_bind fst snd].
    rewrite <- Hp. apply (rebuild_ends _ (set_stream k0 st c' h)); [|done]. by apply HC'.
Qed.

(** *** Copies *)

(** Opens the run of a list of operations whose specification is known. *)
Ltac spec_run :=
  unfold spec_ops; cbn [foldM spec_op];
  repeat first
    [ rewrite list_lookup_insert_eq by (rewrite ?length_insert; by eapply lookup_lt_Some)
    | progress bind_simpl | progress cbn [fst snd c_pos c_ext c_shift c_seq free spec_op andb negb] ].

Lemma singleton_union_empty (s : Z) : (∅ : gset Z) ∪ {[s]} = {[s]}.
Proof. set_solver. Qed.

Lemma plain_copy_spec l h i p e dst :
  l !! i = Some free -> 0 <= dst < LLAMA_MAX_SEQ -> 0 <= p < 2 ^ 31 ->
  spec_ops [PosSet i p; KvCells.Cells.SeqAdd i dst; ExtSet i e] (l, h)
    = Some (<[i := mk_cell p e 0 {[dst]}]> l, h).
Proof.
  intros Hi Hd Hp. unfold spec_ops. cbn [foldM spec_op]. rewrite Hi. spec_run.
  replace (-1 =? -1) with true by lia. replace (0 <=? p) with true by lia.
  replace (p <? 2 ^ 31) with true by lia. spec_run.
  replace (p =? -1) with false by lia. replace (0 <=? dst) with true by lia.
  replace (dst <? LLAMA_MAX_SEQ) with true by lia.
  rewrite bool_decide_eq_false_2 by set_solver. spec_run.
  by rewrite !list_insert_insert_eq, singleton_union_empty.
Qed.

Lemma shifted_copy_spec l h i p e dst sh :
  l !! i = Some free -> 0 <= dst < LLAMA_MAX_SEQ -> 0 <= p < 2 ^ 31 -> 0 <= p - sh < 2 ^ 31 ->
  spec_ops [PosSet i (p - sh); KvCells.Cells.SeqAdd i dst; PosAdd i sh; ExtSet i e] (l, h)
    = Some (<[i := mk_cell p e sh {[dst]}]> l, true).
Proof.
  intros Hi Hd Hp Hq. unfold spec_ops. cbn [foldM spec_op]. rewrite Hi. spec_run.
  replace (-1 =? -1) with true by lia. replace (0 <=? p - sh) with true by lia.
  replace (p - sh <? 2 ^ 31) with true by lia. spec_run.
  replace (p - sh =? -1) with false by lia. replace (0 <=? dst) with true by lia.
  replace (dst <? LLAMA_MAX_SEQ) with true by lia.
  rewrite bool_decide_eq_false_2 by set_solver. spec_run.
  replace (p - sh =? -1) with false by lia. replace (p - sh + sh) with p by lia.
  replace (in_i32 p) with true by (unfold in_i32; lia).
  replace (in_i32 (0 + sh)) with true by (unfold in_i32; lia). spec_run.
  replace (p <? 0) with false by lia. spec_run.
  by rewrite !list_insert_insert_eq, singleton_union_empty.
Qed.

Lemma run_ops_cons o os c c' :
  run_ops (o :: os) c = Some c' -> exists c1 r, run_op o c = Some (c1, r) /\ run_ops os c1 = Some c'.
Proof.
  unfold run_ops. cbn [foldM]. intros H. apply bind_Some_inv in H as (c1 & H1 & H).
  apply fmap_Some in H1 as ([c2 r] & H1 & ->). eauto.
Qed.

Lemma no_result_Some (r : option llama_kv_cells) c b : no_result r = Some (c, b) -> r = Some c.
Proof. intros H. apply fmap_Some in H as (c' & -> & [= -> _]). done. Qed.

Ltac run_one H E :=
  apply run_ops_cons in H as (? & ? & E & H); cbn [run_op] in E; try apply no_result_Some in E.

Lemma cross_cp_step c0 l0 h0 c1 l1 h1 src dst i x y :
  rep c0 l0 h0 -> l0 !! i = Some x -> rep c1 l1 h1 -> l1 !! i = Some free ->
  0 <= src < LLAMA_MAX_SEQ -> 0 <= dst < LLAMA_MAX_SEQ -> copy_change src dst x = Some y ->
  exists c1', cross_cp_cell c0 src dst c1 i = Ok c1' /\ rep c1' (<[i := y.1]> l1) (h1 || y.2).
Proof.
  intros HR0 Hx HR1 Hf Hs Hd Hg. unfold cross_cp_cell, copy_change in *.
  rewrite (seq_has_rep _ _ _ _ _ HR0 Hx) by done. cbn [deref mbind result_bind].
  pose proof (rep_ok _ _ _ HR0 _ _ Hx) as Hok. case_bool_decide as Hin.
  2: { simplify_eq. eexists. split; [done|]. by apply (rep_same _ _ _ _ _ HR1). }
  pose proof (cell_ok_pos _ _ Hok Hin) as Hne. destruct Hok as (Hr & _).
  rewrite (pos_get_rep _ _ _ _ _ HR0 Hx), (get_shift_rep _ _ _ _ _ HR0 Hx),
    (ext_get_rep _ _ _ _ _ HR0 Hx) by done. cbn [deref mbind result_bind].
  inv_ok Hg. cbn [fst snd]. destruct (Z.eqb_spec (c_shift x) 0) as [E0|Hsh]; cbn [negb mbind result_bind] in *.
  - destruct (ops_sim _ _ _ _ _ _ HR1 (plain_copy_spec l1 h1 i (c_pos x) (c_ext x) dst Hf Hd ltac:(lia)))
      as (c' & Er & HR').
    run_one Er E1. rewrite E1. cbn [deref mbind result_bind].
    run_one Er E2. rewrite E2. cbn [deref mbind result_bind].
    run_one Er E3. rewrite E3. cbn [deref]. injection Er as ->.
    rewrite E0, orb_false_r. eauto.
  - simpl in Hx0. apply andb_true_iff in Hx0 as [Hi ?]. pose proof (proj1 (in_i32_spec _) Hi).
    unfold int_. rewrite Hi. cbn [mbind result_bind]. rewrite H. cbn [ensure mbind result_bind].
    destruct (ops_sim _ _ _ _ _ _ HR1
      (shifted_copy_spec l1 h1 i (c_pos x) (c_ext x) dst (c_shift x) Hf Hd ltac:(lia) ltac:(lia)))
      as (c' & Er & HR').
    run_one Er E1. rewrite E1. cbn [deref mbind result_bind].
    run_one Er E2. rewrite E2. cbn [deref mbind result_bind].
    run_one Er E3. rewrite E3. cbn [deref mbind result_bind fst snd fmap result_fmap].
    run_one Er E4. rewrite E4. cbn [deref]. injection Er as ->.
    rewrite orb_true_r. eauto.
Qed.

Lemma cross_cp_ok c0 l0 h0 c1 src dst lh' :
  rep c0 l0 h0 -> rep c1 (replicate (length l0) free) false ->
  0 <= src < LLAMA_MAX_SEQ -> 0 <= dst < LLAMA_MAX_SEQ ->
  change_cells (copy_change src dst) (l0, false) = Some lh' ->
  exists c', foldM (cross_cp_cell c0 src dst) c1 (List.seq 0 (size c0)) = Ok c' /\
    rep c' lh'.1 lh'.2 /\ length lh'.1 = length l0.
Proof.
  intros HR0 HR1 Hs Hd Hc. unfold change_cells in Hc. apply bind_Some_inv in Hc as (rs & Hm & [= <-]).
  cbn [fst snd orb] in *. pose proof (length_mapM _ _ _ Hm) as Hl. rewrite (rep_size_eq _ _ _ HR0).
  assert (Hlr : length rs = length (replicate (length l0) free)) by (rewrite length_replicate; lia).
  destruct (for_total (fun j c => rep c (partly (replicate (length l0) free) rs j) (existsb snd (take j rs)))
    (cross_cp_cell c0 src dst) (length l0) c1) as (c' & E & HR').
  - intros j c2 Hj HR2. destruct (lookup_lt_is_Some_2 l0 j Hj) as [x Hx].
    destruct (mapM_lookup_Some _ _ _ _ _ Hm Hx) as (y & Hy & Hg).
    destruct (cross_cp_step _ _ _ _ _ _ src dst j x y HR0 Hx HR2) as (c3 & E3 & HR3); [|done..|].
    { rewrite partly_lookup; [|done|rewrite length_replicate; lia]. by apply lookup_replicate_2. }
    exists c3. split; [done|]. rewrite <- partly_step with (y := y) by done.
    by rewrite (existsb_take_S _ _ _ Hy).
  - unfold partly. by rewrite take_0, drop_0.
  - exists c'. split; [done|]. unfold partly in HR'.
    rewrite drop_ge in HR' by (rewrite length_replicate; lia). rewrite !take_ge in HR' by lia.
    rewrite app_nil_r in HR'. rewrite length_fmap. by rewrite <- Hl.
Qed.

Lemma get_size_ok k ls : cache_rep n k ls -> get_size k = Ok n.
Proof.
  intros HC. destruct (ck_seqs _ _ _ HC) as [Hpos _]. unfold get_size.
  destruct (lookup_lt_is_Some_2 (seq_to_stream k) 0%nat Hpos) as [st Hst].
  rewrite (at_lookup _ _ _ Hst). cbn [mbind result_bind].
  pose proof (Forall_lookup_1 _ _ _ _ (ck_stream _ _ _ HC) Hst) as Hlt.
  destruct (lookup_lt_is_Some_2 ls st Hlt) as [lh Hlh].
  destruct (cache_rep_stream _ _ _ _ HC Hlh) as (c & h & Hc & _ & _ & _ & _ & Hsz).
  rewrite (at_lookup _ _ _ Hc). cbn [mbind result_bind]. by rewrite Hsz.
Qed.

Lemma reset_rep c l h : rep c l h -> rep (reset c) (replicate (length l) free) false.
Proof.
  intros HR. destruct (reset_sim c l h (replicate (length l) free) false false HR eq_refl) as (c' & E & HR').
  cbn [run_op] in E. by simplify_eq.
Qed.

Lemma seq_cp_ok k ls src dst p0 p1 ls' pend :
  cache_rep n k ls -> spec_cp (seq_to_stream k) n src dst p0 p1 ls = Some (ls', pend) ->
  ends_in k (seq_cp k src dst p0 p1) ls' pend.
Proof.
  intros HC Ho. destruct (forgotten _ _ HC) as (HC0 & Hc0 & Hp & Hst & _).
  unfold seq_cp. rewrite (ck_other _ _ _ HC). revert HC0 Hc0 Hp Hst.
  generalize (materialize_pending_copies k) as k0. intros k0 HC0 Hc0 Hp Hst. rewrite <- Hst in Ho.
  unfold spec_cp in Ho. apply bind_Some_inv in Ho as (st0 & H0 & Ho). apply bind_Some_inv in Ho as (st1 & H1 & Ho).
  destruct (stream_lookup _ _ _ _ HC0 H0) as (E0 & Hr0 & Hs0 & _).
  destruct (stream_lookup _ _ _ _ HC0 H1) as (E1 & Hr1 & Hs1 & lh1 & Hlh1).
  rewrite Hr0, Hr1. cbn [ensure mbind result_bind]. rewrite E0, E1. cbn [mbind result_bind].
  destruct (Nat.eqb_spec st0 st1) as [<-|Hne].
  - destruct (Z.eqb_spec src dst) as [->|Hsd].
    + injection Ho as <- <-. destruct (cache_rep_stream _ _ _ _ HC0 Hlh1) as (c & h & Hc & _).
      rewrite (at_lookup _ _ _ Hc). cbn [mbind result_bind]. rewrite <- Hp. by apply ends_now.
    + apply bind_Some_inv in Ho as (ls1 & Ho & [= <- <-]).
      destruct (on_stream_ok _ _ _ (seq_cp_cell_in (p0_of p0) (p1_of p1) src dst) _ _
        (in_range_step p0 p1 src _ _ ltac:(lia) (join_steps src dst Hs1)) HC0 Ho)
        as (st & c & h & c' & nh & E & _ & Ec & Eh & Hh & Es & Hnh & _ & _ & HC').
      rewrite E in E0. injection E0 as ->. rewrite Ec. cbn [mbind result_bind]. rewrite Eh.
      cbn [mbind result_bind]. rewrite Es. cbn [mbind result_bind fst snd].
      rewrite <- Hp. apply (rebuild_ends _ (set_stream k0 st0 c' h)); [by apply HC'|done].
  - apply bind_Some_inv in Ho as ([l0 b0] & Hlh0 & Ho).
    apply bind_Some_inv in Ho as ([] & Hfull%assert_Some & Ho). apply bind_Some_inv in Ho as (lh' & Hch & [= <- <-]).
    rewrite (get_size_ok _ _ HC0). cbn [mbind result_bind].
    destruct (is_full n p0 p1) as [b|]; [subst b|done]. cbn [ensure mbind result_bind].
    destruct (cache_rep_stream _ _ _ _ HC0 Hlh0) as (c0 & h0 & Hc0' & Hh0 & HR0 & Hl0 & Hhn0 & _).
    destruct (cache_rep_stream _ _ _ _ HC0 Hlh1) as (c1 & h1 & Hc1 & Hh1 & HR1 & Hl1 & Hhn1 & _).
    assert (exists k1, k1 = with_sc_info k0 (sc_info k0 ++ [(st0, st1)]) /\ cache_rep n k1 ls /\
      config k1 = config k /\ sc_info k1 = [(st0, st1)]) as (k1 & Ek & HC1 & Hcf1 & Hp1).
    { eexists. split; [reflexivity|]. split; [by apply cache_rep_sc|]. split; [done|]. simpl. by rewrite Hp. }
    rewrite <- Ek. assert (v_cells k1 = v_cells k0 /\ v_heads k1 = v_heads k0) as [-> ->] by (by rewrite Ek).
    rewrite (at_lookup _ _ _ Hc0'), (at_lookup _ _ _ Hc1). cbn [mbind result_bind].
    pose proof (reset_rep _ _ _ HR1) as HRr. rewrite Hl1 in HRr. cbn [fst snd] in *. rewrite <- Hl0 in HRr.
    destruct (cross_cp_ok _ _ _ _ src dst _ HR0 HRr ltac:(lia) Hs1 Hch) as (c' & E & HR' & Hl').
    rewrite E. cbn [mbind result_bind]. rewrite (at_lookup _ _ _ Hh0). cbn [mbind result_bind].
    rewrite <- Hp1. apply (rebuild_ends _ (set_stream k1 st1 c' h0)); [|done].
    eapply cache_rep_set; [done|done|by rewrite Hl', Hl0|done].
Qed.

Lemma clear_ok k ls :
  cache_rep n k ls ->
  ends_in k (clear k) (cleared <$> ls) [].
Proof.
  intros HC. unfold clear.
  assert (HC0 : cache_rep n (with_sc_info k []) ls) by (by apply cache_rep_sc).
  assert (Hc0 : config (with_sc_info k []) = config k /\ sc_info (with_sc_info k []) = []) by done.
  revert HC0 Hc0. generalize (with_sc_info k []) as k0. intros k0 HC0 [Hc0 Hp0].
  remember (cleared <$> ls) as ls' eqn:El.
  assert (Hl : length ls' = length ls) by (subst ls'; apply length_fmap).
  destruct (for_total (fun j k1 => cache_rep n k1 (take j ls' ++ drop j ls) /\ sc_info k1 = [] /\ config k1 = config k)
    (fun k st => c ← at_ (v_cells k) st; _ ← at_ (v_heads k) st; Ok (set_stream k st (reset c) 0))
    (n_stream k0) k0) as (k1 & E & HC1 & Hp1 & Hc1).
  - rewrite (ck_streams _ _ _ HC0). intros j k1 Hj (HC1 & Hp1 & Hc1).
    destruct (lookup_lt_is_Some_2 ls j Hj) as [lh Hlh].
    assert (Hlh' : ls' !! j = Some (cleared lh)).
    { subst ls'. by rewrite list_lookup_fmap, Hlh. }
    assert (Hj' : (take j ls' ++ drop j ls) !! j = Some lh).
    { rewrite lookup_app_r; rewrite length_take; [|lia]. rewrite lookup_drop, <- Hlh. f_equal. lia. }
    destruct (cache_rep_stream _ _ _ _ HC1 Hj') as (c & h & Hc & Hh & HR & Hln & Hhn & Hsz).
    rewrite (at_lookup _ _ _ Hc). cbn [mbind result_bind]. rewrite (at_lookup _ _ _ Hh). cbn [mbind result_bind].
    eexists. split; [done|]. split; [|done].
    replace (take (S j) ls' ++ drop (S j) ls)
      with (<[j := cleared lh]> (take j ls' ++ drop j ls)).
    { eapply cache_rep_set; [done|by apply (reset_rep _ _ _ HR)| |lia]. simpl. by rewrite length_replicate. }
    rewrite (take_S_r _ _ _ Hlh'), <- app_assoc. rewrite (drop_S _ _ _ Hlh).
    rewrite insert_app_r_alt; rewrite length_take; [|lia].
    by replace (j - j `min` length ls')%nat with 0%nat by lia.
  - split; [by rewrite take_0, drop_0|done].
  - rewrite E. cbn [mbind result_bind].
    rewrite (ck_streams _ _ _ HC0) in HC1.
    rewrite take_ge, drop_ge, app_nil_r in HC1 by lia.
    assert (forall l k2, same_cells k1 k2 -> same_cells k1 (foldl reset_allocation_head k2 l)) as Hf.
    { induction l as [|s l IH]; intros k2 Hk; [done|]. simpl. apply IH.
      eapply same_cells_trans; [exact Hk|]. apply reset_allocation_head_same. }
    pose proof (Hf (all_seqs k1) k1 (same_cells_refl k1)) as Hs. destruct (same_cells_config _ _ Hs).
    eexists. split_and!; [done|by eapply same_cells_rep|congruence|congruence].
Qed.
End Cache.

(** The cache the constructor makes, and any cache the operations lead to, represent
    an abstract cache. *)
Lemma init_cells_rep n_pos n N M n_swa swa :
  Z.of_nat n < 2 ^ 31 -> (0 < M)%nat -> Z.of_nat M <= LLAMA_MAX_SEQ -> Z.of_nat N <= LLAMA_MAX_SEQ ->
  cache_rep n (init_cells n_pos n N M n_swa swa) (replicate M (replicate n free, false)).
Proof.
  intros Hn HM HM' HN. unfold init_cells.
  split; cbn [other v_cells v_heads n_stream seq_to_stream n_seq_max allocation_seq_heads];
    rewrite ?length_replicate; try done.
  - apply Forall2_replicate. apply rep_fresh. lia.
  - apply Forall_replicate. simpl. by rewrite length_replicate.
  - apply Forall_replicate. lia.
  - destruct (Nat.ltb_spec 1 M); rewrite ?length_seq, ?length_replicate; [lia|].
    split; [by apply Nat.ltb_lt|by apply Z.leb_le].
  - destruct (Nat.ltb_spec 1 M); [|by apply Forall_replicate].
    apply Forall_forall. intros st [? ?]%elem_of_seq. lia.
Qed.

(** C2: every operation of the cache on sequences does what it says to the cells.
    Where the abstract cache allows an operation, the code runs without a failed
    assertion and ends in a cache that represents the abstract result: [seq_rm]
    takes the sequence out of the cells of its stream in the range of positions (of
    all streams for sequence -1), [seq_keep] leaves no other sequence in the
    stream of its sequence (and, against llama.h, does nothing to other streams), [seq_add] and [seq_div] move the positions and record the shifts,
    [seq_cp] adds the sequence to the cells of the source, or replaces the
    destination's stream by a copy that is then pending, [clear] frees all cells.
    Nothing else changes: other cells, other streams, and the configuration. *)
Theorem cache_refinement n k ls o ls' pend :
  cache_rep n k ls ->
  spec_cache_op (seq_to_stream k) (n_pos_per_embd k) n o (ls, sc_info k) = Some (ls', pend) ->
  exists k', run_cache_op o k = Ok k' /\ cache_rep n k' ls' /\ sc_info k' = pend /\ config k' = config k.
Proof.
  intros HC Ho. destruct o; cbn [spec_cache_op run_cache_op] in *.
  - simplify_eq. by apply clear_ok.
  - unfold seq_rm. rewrite (ck_other _ _ _ HC). destruct (Z.eqb_spec s (-1)) as [->|Hne].
    + apply bind_Some_inv in Ho as (x & Hm & [= <- <-]). by apply rm_any_ok with (ls := ls).
    + apply bind_Some_inv in Ho as (x & Hm & [= <- <-]). by eapply seq_rm_ok.
  - apply bind_Some_inv in Ho as (st & Hs & Ho). apply bind_Some_inv in Ho as (lh & Hl & Ho).
    apply bind_Some_inv in Ho as (x & Hx & [= <- <-]). by apply seq_rm_cell_ok.
  - apply bind_Some_inv in Ho as (x & Hm & [= <- <-]). by eapply seq_keep_ok.
  - apply bind_Some_inv in Ho as ([] & Hn%assert_Some%Z.eqb_eq & Ho).
    apply bind_Some_inv in Ho as (x & Hm & [= <- <-]). by eapply seq_add_ok.
  - apply bind_Some_inv in Ho as ([] & Hn%assert_Some%Z.eqb_eq & Ho).
    apply bind_Some_inv in Ho as (x & Hm & [= <- <-]). by eapply seq_div_ok.
  - by eapply seq_cp_ok.
Qed.

(** Two streams of four cells: positions 0 to 3 of sequence 0 in the first, shifted by
    two from position 2 on. *)
Definition example_cells_of : list cell :=
  [mk_cell 0 ext_zero 0 {[0]}; mk_cell 1 ext_zero 0 {[0]};
   mk_cell 4 ext_zero 2 {[0]}; mk_cell 5 ext_zero 2 {[0]}].

Definition example_ops : list kv_op :=
  [KvCells.Cells.Resize 4; PosSet 0 0; KvCells.Cells.SeqAdd 0 0; PosSet 1 1; KvCells.Cells.SeqAdd 1 0;
   PosSet 2 2; KvCells.Cells.SeqAdd 2 0; PosSet 3 3; KvCells.Cells.SeqAdd 3 0; PosAdd 2 2; PosAdd 3 2].

Definition example_cache : kv_cache :=
  set_stream (init_cells 1 4 2 2 0 LLAMA_SWA_TYPE_NONE) 0 (default cells_init (run_ops example_ops cells_init)) 4.

Lemma example_cache_rep :
  cache_rep 4 example_cache [(example_cells_of, true); (replicate 4 free, false)].
Proof.
  destruct (ops_sim example_ops cells_init [] false example_cells_of true) as (c & E & HR).
  - apply (rep_fresh 0). by vm_compute.
  - unfold example_cells_of. vm_compute. done.
  - unfold example_cache. rewrite E. cbn [default].
    apply (cache_rep_set 4 _ (replicate 2 (replicate 4 free, false)) 0 c (example_cells_of, true) 4);
      [|done|done|lia].
    by apply init_cells_rep; [|lia| |].
Qed.

Lemma cache_refinement_witness : exists k',
  run_cache_op (SeqCp 0 1 (-1) (-1)) example_cache = Ok k' /\
  cache_rep 4 k' [(example_cells_of, true);
    ([mk_cell 0 ext_zero 0 {[1]}; mk_cell 1 ext_zero 0 {[1]};
      mk_cell 4 ext_zero 2 {[1]}; mk_cell 5 ext_zero 2 {[1]}], true)] /\
  sc_info k' = [(0%nat, 1%nat)] /\ config k' = config example_cache.
Proof. eapply cache_refinement; [exact example_cache_rep|]. vm_compute. reflexivity. Defined.

(** [seq_add] records the new position minus the old one as the shift of a cell, and
    [seq_div] the old one minus the new one. A copy to another stream, which takes the
    shift off the position first, fails its assertion after a division. *)
Lemma seq_div_shift :
  (k ← seq_div example_cache 0 2 (-1) 4; Ok (shift <$> v_cells k)) = Ok [[0; 0; 5; 6]; [0; 0; 0; 0]] /\
  (k ← seq_div example_cache 0 2 (-1) 4; seq_cp k 0 1 (-1) (-1)) = Error Undefined.
Proof. split; vm_compute; reflexivity. Qed.

(** llama.h says that [seq_keep] removes all tokens that are not of the sequence: those of
    another stream stay. *)
Lemma seq_keep_other_streams :
  (k ← seq_keep example_cache 1; Ok (pos <$> v_cells k, seq <$> v_cells k)) =
  Ok (pos <$> v_cells example_cache, seq <$> v_cells example_cache) /\
  pos <$> v_cells example_cache = [[0; 1; 4; 5]; [-1; -1; -1; -1]].
Proof. split; vm_compute; reflexivity. Qed.

(** A copy between streams takes a range that begins at the last cell of the buffer, or past
    it, for the whole buffer, and copies every position. *)
Lemma seq_cp_takes_all :
  (k ← seq_cp example_cache 0 1 3 (-1); Ok (pos <$> v_cells k)) = Ok [[0; 1; 4; 5]; [0; 1; 4; 5]] /\
  (k ← seq_cp example_cache 0 1 100 (-1); Ok (pos <$> v_cells k)) = Ok [[0; 1; 4; 5]; [0; 1; 4; 5]].
Proof. split; vm_compute; reflexivity. Qed.

End KvCacheWf.
