(* ===== verification/KvSlot.v ===== *)
(** Slots of the KV cache (src/src/llama-kv-cache.cpp): the search for the cells of a
    ubatch, the structured allocation of groups of cells, the placement of a ubatch,
    and the dry run over all ubatches of a batch with the restoration of the cells.

    As in [KvCache], the cache has no exact tail. *)

From S2P Require Import Prelude.
From S2P Require Import KvCells.
From S2P Require Import Memory.
From S2P Require Import Batch.
From S2P Require Import KvCache.

Module KvSlot.
Import Cells KvCache.

Section Float.
Context {float : Type}.
Abbreviation llama_ubatch := (Batch.llama_ubatch float).

(** [slot_info]: the streams of a slot and the cells in each. *)
Record slot_info := mk_slot {
  s0 : Z;
  s1 : Z;
  strm : list nat;
  idxs : list (list nat);
}.

(** [return { }]. *)
Definition no_slot : slot_info := mk_slot 0 0 [] [].

Definition slot_empty (si : slot_info) : bool := (length (idxs si) =? 0)%nat.

Definition slot_n_stream (si : slot_info) : nat := length (strm si).

Definition slot_size (si : slot_info) : R nat :=
  _ ← ensure (length (idxs si) =? length (strm si))%nat Undefined;
  row ← at_ (idxs si) 0%nat;
  Ok (length row).

(** [ubatch.n_seq_id[i]] and the row [ubatch.seq_id[i]]. *)
Definition token_ids (ub : llama_ubatch) (i : nat) : R (list Z) :=
  n ← at_ (Batch.u_n_seq_id ub) i;
  off ← at_ (Batch.u_seq_id_off ub) i;
  mapM (fun j => at_ (Batch.u_seq_id_data ub) (off + j)%nat) (List.seq 0 (Z.to_nat n)).

Definition list_min_from (x : Z) (l : list Z) : Z := foldl Z.min x l.

(** ** Groups of cells owned by one set of sequences *)

(** Whether the cells in use among [todo] all belong to exactly the sequences [ids]. *)
Fixpoint all_has (c : llama_kv_cells) (i : nat) (ids : list Z) : R bool :=
  match ids with
  | [] => Ok true
  | s :: ids => b ← deref (seq_has c i s); if b : bool then all_has c i ids else Ok false
  end.

Fixpoint group_compatible (c : llama_kv_cells) (ids : list Z) (todo : list nat) : R bool :=
  match todo with
  | [] => Ok true
  | i :: todo =>
      e ← deref (is_empty c i);
      if e : bool then group_compatible c ids todo else
      n ← deref (seq_count c i);
      if negb (n =? length ids)%nat then Ok false else
      b ← all_has c i ids;
      if b : bool then group_compatible c ids todo else Ok false
  end.

Definition group_cells (k : kv_cache) (c : llama_kv_cells) (g : nat) : list nat :=
  let b := (g * allocation_group_size k)%nat in
  List.seq b (Nat.min (b + allocation_group_size k) (size c) - b).

(** *** The structured allocation: one physical stream, cells in groups *)

Record alloc := mk_alloc {
  a_idxs : list nat;
  a_heads : list nat;
  a_reserved : list bool;
  a_used : list nat;
  a_owners : list Z;
}.

Definition stage_slot (k : kv_cache) (g : nat) : nat :=
  if (g =? 0)%nat then 0%nat else S ((g - 1) mod allocation_stage_groups k).

Definition count_groups (k : kv_cache) (c : llama_kv_cells) : R (list nat) :=
  foldM (fun gu i =>
    e ← deref (is_empty c i);
    let g := (i / allocation_group_size k)%nat in
    u ← at_ gu g;
    Ok (<[g := if e : bool then u else S u]> gu))
    (replicate (size c / allocation_group_size k)%nat 0%nat) (List.seq 0 (size c)).

(** The groups that sequences are still filling hold their stage. *)
Definition live_groups (k : kv_cache) (heads : list nat) (owners : list Z) : R (list Z) :=
  foldM (fun owners s =>
    h ← at_ heads s;
    let gs := allocation_group_size k in
    if (h =? 0)%nat || (h mod gs =? 0)%nat then Ok owners else
    let g := ((h - 1) / gs)%nat in
    if (0 <? g)%nat then
      o ← at_ owners (stage_slot k g);
      if (0 <=? o) && negb (o =? Z.of_nat g) then Error StageAlias
      else Ok (<[stage_slot k g := Z.of_nat g]> owners)
    else Ok owners)
    owners (List.seq 0 (n_seq_max k)).

(** The search for the cell of one token, which tests at most [tested] cells. *)
Fixpoint find_cell (k : kv_cache) (c : llama_kv_cells) (ids : list Z) (tested head : nat) (a : alloc)
    : R (option alloc) :=
  match tested with
  | O => Ok None
  | S tested =>
      let idx := if (size c <=? head)%nat then 0%nat else head in
      let g := (idx / allocation_group_size k)%nat in
      res ← at_ (a_reserved a) idx;
      e ← (if res : bool then Ok false else deref (is_empty c idx));
      if negb e then find_cell k c ids tested (S idx) a else
      ok ← group_compatible c ids (group_cells k c g);
      if negb ok then find_cell k c ids tested (S idx) a else
      u ← at_ (a_used a) g;
      o ← at_ (a_owners a) (stage_slot k g);
      if (u =? 0)%nat && (0 <=? o) && negb (o =? Z.of_nat g) then find_cell k c ids tested (S idx) a else
      let owners := if (u =? 0)%nat then <[stage_slot k g := Z.of_nat g]> (a_owners a) else a_owners a in
      let owners := if (S u =? allocation_group_size k)%nat && (0 <? g)%nat
                    then <[stage_slot k g := -1]> owners else owners in
      Ok (Some (mk_alloc (a_idxs a ++ [idx])
        (foldl (fun hs s => <[Z.to_nat s := S idx]> hs) (a_heads a) ids)
        (<[idx := true]> (a_reserved a)) (<[g := S u]> (a_used a)) owners))
  end.

Definition find_token (k : kv_cache) (c : llama_kv_cells) (ub : llama_ubatch) (a : alloc) (i : nat)
    : R (option alloc) :=
  n ← at_ (Batch.u_n_seq_id ub) i;
  if n <=? 0 then Error NoOwner else
  ids ← token_ids ub i;
  first ← at_ ids 0%nat;
  _ ← ensure (forallb (fun s => (0 <=? s) && (s <? Z.of_nat (n_seq_max k))) ids) InvalidOwner;
  head ← at_ (a_heads a) (Z.to_nat (list_min_from first ids));
  find_cell k c ids (size c) head a.

Fixpoint find_tokens (k : kv_cache) (c : llama_kv_cells) (ub : llama_ubatch) (a : alloc) (todo : list nat)
    : R (option alloc) :=
  match todo with
  | [] => Ok (Some a)
  | i :: todo =>
      r ← find_token k c ub a i;
      match r with None => Ok None | Some a => find_tokens k c ub a todo end
  end.

Definition find_structured (k : kv_cache) (ub : llama_ubatch) : R slot_info :=
  c ← at_ (v_cells k) 0%nat;
  gu ← count_groups k c;
  e ← deref (is_empty c 0);
  let owners := replicate (S (allocation_stage_groups k)) (-1) in
  owners ← live_groups k (allocation_seq_heads k) (if e : bool then owners else <[0%nat := 0]> owners);
  r ← find_tokens k c ub
        (mk_alloc [] (allocation_seq_heads k) (replicate (size c) false) gu owners)
        (List.seq 0 (Batch.u_n_tokens ub));
  Ok (match r with None => no_slot | Some a => mk_slot 0 0 [0%nat] [a_idxs a] end).

(** *** The general search *)

(** The sequences that will own the next cell; an error when there is none. *)
Definition next_owners (k : kv_cache) (ub : llama_ubatch) (s : Z) (found : nat) : R (list Z) :=
  ids ← (if (n_stream k =? 1)%nat then
           n ← at_ (Batch.u_n_seq_id ub) found;
           _ ← ensure (0 <? n) NoOwner;
           token_ids ub found
         else Ok [s]);
  first ← at_ ids 0%nat;
  _ ← ensure (0 <=? list_min_from first ids) InvalidOwner;
  Ok ids.

(** [can_use]: a cell that is empty, or occupied by one sequence that no longer sees it. *)
Definition can_use (k : kv_cache) (ub : llama_ubatch) (c : llama_kv_cells) (s : Z) (found idx : nat)
    : R bool :=
  e ← deref (is_empty c idx);
  can ← (if (e : bool) && (1 <? allocation_group_size k)%nat then
           ids ← next_owners k ub s found;
           group_compatible c ids (group_cells k c (idx / allocation_group_size k)%nat)
         else Ok e);
  if can : bool then Ok true else
  n ← deref (seq_count c idx);
  if (n =? 1)%nat then
    p ← deref (pos_get c idx);
    s' ← deref (seq_get c idx);
    m ← deref (seq_pos_max c s');
    m1 ← int_ (m + 1);
    deref (is_masked_swa (n_swa k) (swa_type k) p m1)
  else Ok false.

(** The inner loop: test [n] cells from [head]; a continuous slot stops at the first
    cell it cannot use. *)
Fixpoint test_cells (k : kv_cache) (ub : llama_ubatch) (c : llama_kv_cells) (s : Z) (cont : bool)
    (n head n_tested : nat) (found : list nat) : R (nat * nat * list nat) :=
  match n with
  | O => Ok (head, n_tested, found)
  | S n =>
      b ← can_use k ub c s (length found) head;
      if b : bool then test_cells k ub c s cont n (S head) (S n_tested) (found ++ [head])
      else if cont then Ok (S head, S n_tested, found)
      else test_cells k ub c s cont n (S head) (S n_tested) found
  end.

Fixpoint search_loop (fuel : nat) (k : kv_cache) (ub : llama_ubatch) (c : llama_kv_cells) (s : Z)
    (cont : bool) (n_tokens head n_tested : nat) (found : list nat) : R (option (list nat)) :=
  match fuel with
  | O => Error OutOfFuel
  | S fuel =>
      let n_test := if cont then n_tokens else 1%nat in
      if (size c <? head + n_test)%nat then
        search_loop fuel k ub c s cont n_tokens 0 (n_tested + (size c - head)) found
      else
        r ← test_cells k ub c s cont n_test head n_tested found;
        let '(head, n_tested, found) := r in
        if (length found =? n_tokens)%nat then Ok (Some found) else
        let found := if cont then [] else found in
        if (size c <=? n_tested)%nat then Ok None
        else search_loop fuel k ub c s cont n_tokens head n_tested found
  end.

(** "If we have enough unused cells before the current head, better to start
    searching from the beginning of the cache". *)
Definition start_head (c : llama_kv_cells) (head n_tokens : nat) : nat :=
  if u32 (Z.of_nat (get_used c) + 2 * Z.of_nat n_tokens) <? Z.of_nat head then 0%nat else head.

(** The slot in the stream of the [s]-th sequence of the ubatch. *)
Definition find_stream (k : kv_cache) (ub : llama_ubatch) (cont : bool) (n_tokens s : nat)
    : R (nat * option (list nat)) :=
  id ← at_ (Batch.u_seq_id_unq ub) s;
  _ ← (if (1 <? n_stream k)%nat then
         n ← at_ (Batch.u_n_seq_id ub) (s * n_tokens)%nat;
         _ ← ensure (n =? 1) Undefined;
         ids ← token_ids ub (s * n_tokens)%nat;
         ensure (bool_decide (ids = [id])) Undefined
       else Ok tt);
  st ← stream_id k id;
  c ← at_ (v_cells k) st;
  h ← at_ (v_heads k) st;
  if (size c <? n_tokens)%nat then Ok (st, None) else
  r ← search_loop (2 * size c + 3) k ub c id cont n_tokens (start_head c h n_tokens) 0 [];
  Ok (st, r).

Fixpoint find_streams (k : kv_cache) (ub : llama_ubatch) (cont : bool) (n_tokens : nat) (res : slot_info)
    (todo : list nat) : R slot_info :=
  match todo with
  | [] => Ok res
  | s :: todo =>
      r ← find_stream k ub cont n_tokens s;
      match r.2 with
      | None => Ok no_slot
      | Some found =>
          find_streams k ub cont n_tokens
            (mk_slot (Z.min (s0 res) (Z.of_nat r.1)) (Z.max (s1 res) (Z.of_nat r.1))
               (strm res ++ [r.1]) (idxs res ++ [found])) todo
      end
  end.

Definition find_slot (k : kv_cache) (ub : llama_ubatch) (cont : bool) : R slot_info :=
  let unq := Batch.u_n_seqs_unq ub in
  ns ← (if (1 <? n_stream k)%nat then
          _ ← ensure (negb (unq =? 0)%nat && (Batch.u_n_tokens ub mod unq =? 0)%nat) Undefined;
          Ok (unq, (Batch.u_n_tokens ub / unq)%nat)
        else Ok (1%nat, Batch.u_n_tokens ub));
  if (1 <? allocation_group_size k)%nat && (n_stream k =? 1)%nat && negb cont then find_structured k ub
  else
    res ← find_streams k ub cont ns.2 (mk_slot LLAMA_MAX_SEQ 0 [] []) (List.seq 0 ns.1);
    _ ← ensure (slot_empty res || (s0 res <=? s1 res)) Undefined;
    Ok res.

(** ** Placing a ubatch *)

(** One token: free the cell if it is in use, remembering the position it overwrites
    ([seq_pos_max_rm]), then set the position, the 2D coordinates and the owners. *)
Definition free_cell (c : llama_kv_cells) (rmv : list Z) (idx : nat) : R (llama_kv_cells * list Z) :=
  e ← deref (is_empty c idx);
  if e : bool then Ok (c, rmv) else
  n ← deref (seq_count c idx);
  _ ← ensure (n =? 1)%nat Undefined;
  s ← deref (seq_get c idx);
  p ← deref (pos_get c idx);
  old ← at_ rmv (Z.to_nat s);
  c ← deref (rm c idx);
  Ok (c, <[Z.to_nat s := Z.max old p]> rmv).

Definition is_pos_2d (ub : llama_ubatch) : bool := (3 <=? Batch.u_n_pos ub)%nat.

Definition add_owner (grouped : bool) (idx : nat) (st : llama_kv_cells * list nat) (s : Z)
    : R (llama_kv_cells * list nat) :=
  c ← deref (Cells.seq_add st.1 idx s);
  if grouped then _ ← at_ st.2 (Z.to_nat s); Ok (c, <[Z.to_nat s := S idx]> st.2)
  else Ok (c, st.2).

Definition place_token (k : kv_cache) (rmv : list Z) (ub : llama_ubatch) (i st idx : nat)
    : R (kv_cache * list Z) :=
  c ← at_ (v_cells k) st;
  r ← free_cell c rmv idx;
  p ← at_ (Batch.u_pos ub) i;
  c ← deref (pos_set r.1 idx p);
  c ← (if is_pos_2d ub then
         x ← at_ (Batch.u_pos ub) (i + Batch.u_n_tokens ub * 2)%nat;
         y ← at_ (Batch.u_pos ub) (i + Batch.u_n_tokens ub)%nat;
         deref (ext_set c idx (mk_ext x y))
       else Ok c);
  ids ← token_ids ub i;
  cs ← foldM (add_owner ((1 <? allocation_group_size k)%nat && (n_stream k =? 1)%nat) idx)
         (c, allocation_seq_heads k) ids;
  Ok (with_allocation_heads (with_streams k (<[st := cs.1]> (v_cells k)) (v_heads k)) cs.2, r.2).

Definition place_tokens (k : kv_cache) (si : slot_info) (n : nat) (ub : llama_ubatch)
    : R (kv_cache * list Z) :=
  foldM (fun (kr : kv_cache * list Z) s =>
    st ← at_ (strm si) s;
    foldM (fun (kr : kv_cache * list Z) ii =>
      row ← at_ (idxs si) s;
      idx ← at_ row ii;
      place_token kr.1 kr.2 ub (s * n + ii)%nat st idx) kr (List.seq 0 n))
    (k, replicate (Z.to_nat LLAMA_MAX_SEQ) (-1)) (List.seq 0 (slot_n_stream si)).

(** Remove the positions up to the largest one overwritten, for each sequence. *)
Definition purge (rmv : list Z) (k : kv_cache) (s : Z) : R kv_cache :=
  m ← at_ rmv (Z.to_nat s);
  if m =? -1 then Ok k else
  _ ← ensure (s <? Z.of_nat (length (seq_to_stream k))) Undefined;
  st ← stream_id k s;
  c ← at_ (v_cells k) st;
  lo ← deref (seq_pos_min c s);
  if lo <=? m then p1 ← int_ (m + 1); seq_rm_unchecked k s lo p1 else Ok k.

Definition move_head (si : slot_info) (k : kv_cache) (s : nat) : R kv_cache :=
  st ← at_ (strm si) s;
  row ← at_ (idxs si) s;
  i ← deref (last row);
  _ ← at_ (v_heads k) st;
  Ok (with_streams k (v_cells k) (<[st := S i]> (v_heads k))).

Definition apply_ubatch (k : kv_cache) (si : slot_info) (ub : llama_ubatch) : R kv_cache :=
  if other k then Ok k else
  n ← slot_size si;
  _ ← ensure (Batch.u_n_tokens ub =? slot_n_stream si * n)%nat Undefined;
  r ← place_tokens k si n ub;
  k ← foldM (purge r.2) r.1 (seqZ 0 LLAMA_MAX_SEQ);
  foldM (move_head si) k (List.seq 0 (slot_n_stream si)).

(** ** Preparing a batch *)

(** What is kept of the cache before a ubatch is placed. *)
Record state_t := mk_state {
  st_sinfo : slot_info;
  st_heads : list nat;
  st_cells : list llama_kv_cells;
}.

Definition save (k : kv_cache) (si : slot_info) : R state_t :=
  cs ← mapM (fun s => st ← at_ (strm si) s; row ← at_ (idxs si) s;
                      c ← at_ (v_cells k) st; deref (cp_idxs c row))
         (List.seq 0 (slot_n_stream si));
  Ok (mk_state si (v_heads k) cs).

(** The loop over the ubatches: the cache, the slots found, the states with the last
    one first, and whether every ubatch has a slot. *)
Fixpoint prepare_loop (k : kv_cache) (ubs : list llama_ubatch) (res : list slot_info)
    (states : list state_t) : R (kv_cache * list slot_info * list state_t * bool) :=
  match ubs with
  | [] => Ok (k, res, states, true)
  | ub :: ubs =>
      si ← find_slot k ub false;
      if slot_empty si then Ok (k, res, states, false) else
      state ← save k si;
      k ← apply_ubatch k si ub;
      prepare_loop k ubs (res ++ [si]) (state :: states)
  end.

(** The head of a stream is read at the index of the stream in the slot. *)
Definition restore_stream (state : state_t) (k : kv_cache) (s : nat) : R kv_cache :=
  st ← at_ (strm (st_sinfo state)) s;
  row ← at_ (idxs (st_sinfo state)) s;
  c ← at_ (v_cells k) st;
  _ ← at_ (v_heads k) st;
  saved ← at_ (st_cells state) s;
  c ← deref (set_idxs c row saved);
  h ← at_ (st_heads state) s;
  Ok (set_stream k st c h).

Definition restore (k : kv_cache) (state : state_t) : R kv_cache :=
  foldM (restore_stream state) k (List.seq 0 (slot_n_stream (st_sinfo state))).

(** The cache afterwards and the slots of the ubatches; none on failure. *)
Definition prepare (k : kv_cache) (ubs : list llama_ubatch) : R (kv_cache * list slot_info) :=
  r ← prepare_loop k ubs [] [];
  let '(k, res, states, success) := r in
  _ ← ensure (negb (length states =? 0)%nat || negb success) Undefined;
  k ← foldM restore k states;
  Ok (k, if success : bool then res else []).

Definition lift {A} (r : Batch.R A) : R A :=
  match r with Ok a => Ok a | Error e => Error (SplitError e) end.

(** [init_batch]: split the batch, then prepare; [None] is the status
    FAILED_PREPARE. *)
Definition init_batch (k : kv_cache) (a : Batch.llama_batch_allocr float) (n_ubatch : Z)
    : R (kv_cache * Batch.llama_batch_allocr float * option (list slot_info * list llama_ubatch)) :=
  r ← lift (Batch.split_batch
        (if (n_stream k =? 1)%nat then Batch.Simple n_ubatch else Batch.Equal n_ubatch true 0) a);
  match r.2 with
  | None => Ok (k, r.1, None)
  | Some ubs =>
      p ← prepare k ubs;
      Ok (p.1, r.1, match p.2 with [] => None | si => Some (si, ubs) end)
  end.

End Float.

End KvSlot.
