(* ===== verification/KvSlotWf.v ===== *)
(** Slots of the KV cache: the search of [KvSlot] against a reference that lists the
    cells in the order they are tested, the placement of a ubatch on the abstract
    cache of [KvCacheWf], and the dry run, which restores the cells. *)

From S2P Require Import Prelude.
From S2P Require Import KvCells.
From S2P Require Import Memory.
From S2P Require Import Batch.
From S2P Require Import KvCache.
From S2P Require Import KvCacheWf.
From S2P Require Import KvSlot.

Module KvSlotWf.
Import Cells KvCache KvCacheWf KvSlot.

(** ** Usable cells *)

(** The largest position of a sequence in a stream, -1 when it is empty. *)
Definition max_pos (l : list cell) (s : Z) : Z := default (-1) (list_max (positions l s)).
Definition min_pos (l : list cell) (s : Z) : Z := default (-1) (list_min (positions l s)).

(** A cell is usable when it is empty, or when only one sequence is in it and the next
    token of this sequence no longer sees it. *)
Definition usable (k : kv_cache) (l : list cell) (x : cell) : bool :=
  (c_pos x =? -1) ||
  match elements (c_seq x) with
  | [s] => default false (is_masked_swa (n_swa k) (swa_type k) (c_pos x) (max_pos l s + 1))
  | _ => false
  end.

(** The window of the cache is defined, and the next position of every sequence. *)
Record search_ok (k : kv_cache) (ls : list spec) : Prop := {
  so_groups : (allocation_group_size k <= 1)%nat;
  so_window : swa_type k = LLAMA_SWA_TYPE_CHUNKED -> n_swa k <> 0;
  so_room : Forall (fun lh : spec => Forall (fun x => c_pos x < 2 ^ 31 - 1) lh.1) ls;
}.

Lemma is_masked_total n_swa t p0 p1 :
  0 <= p0 -> 0 <= p1 -> (t = LLAMA_SWA_TYPE_CHUNKED -> n_swa <> 0) ->
  exists b, is_masked_swa n_swa t p0 p1 = Some b.
Proof.
  intros H0 H1 Ht. unfold is_masked_swa. replace (0 <=? p0) with true by lia.
  replace (0 <=? p1) with true by lia. bind_simpl. cbn [andb]. bind_simpl.
  destruct t; eauto. specialize (Ht eq_refl). replace (n_swa =? 0) with false by lia. bind_simpl. eauto.
Qed.

Lemma max_pos_room l s : Forall (fun x => c_pos x < 2 ^ 31 - 1) l -> max_pos l s < 2 ^ 31 - 1.
Proof.
  intros Hr. unfold max_pos. destruct (list_max (positions l s)) as [m|] eqn:E; simpl; [|lia].
  apply list_max_Some in E as [(x & -> & [_ Hx]%list_elem_of_filter)%list_elem_of_fmap _].
  rewrite Forall_forall in Hr. by apply Hr.
Qed.

Lemma max_pos_ge l i x s : l !! i = Some x -> s ∈ c_seq x -> c_pos x <= max_pos l s.
Proof.
  intros Hx Hs. assert (Hin : c_pos x ∈ positions l s).
  { apply list_elem_of_fmap. exists x. split; [done|]. apply list_elem_of_filter. split; [done|].
    by eapply list_elem_of_lookup_2. }
  unfold max_pos. destruct (list_max (positions l s)) as [m|] eqn:E; simpl.
  - apply list_max_Some in E as [_ Hm]. by apply Hm.
  - apply list_max_None in E. rewrite E in Hin. by apply elem_of_nil in Hin.
Qed.

Lemma seq_get_rep c l h i x s :
  rep c l h -> l !! i = Some x -> elements (c_seq x) = [s] -> seq_get c i = Some s.
Proof.
  intros HR Hx He. destruct (rep_at _ _ _ HR _ _ Hx) as (_ & _ & _ & Hb).
  assert (E : c_seq x = {[s]}).
  { apply set_eq. intros y. rewrite <- elem_of_elements, He. set_solver. }
  unfold seq_get. rewrite Hb; bind_simpl. rewrite E, size_singleton.
  rewrite bool_decide_eq_true_2 by done. bind_simpl. f_equal.
  assert (Hs : 0 <= s < LLAMA_MAX_SEQ) by (eapply rep_at_bits; [done..|rewrite E; set_solver]).
  destruct (filter (fun s' => s' ∈ ({[s]} : gset Z)) (seqZ 0 LLAMA_MAX_SEQ)) as [|s' k] eqn:Ef; simpl.
  - assert (Hin : s ∈ filter (fun s' => s' ∈ ({[s]} : gset Z)) (seqZ 0 LLAMA_MAX_SEQ)).
    { apply list_elem_of_filter. split; [set_solver|]. apply elem_of_seqZ. lia. }
    rewrite Ef in Hin. by apply elem_of_nil in Hin.
  - assert (Hin : s' ∈ filter (fun s' => s' ∈ ({[s]} : gset Z)) (seqZ 0 LLAMA_MAX_SEQ)) by (rewrite Ef; left).
    apply list_elem_of_filter in Hin as [Hin _]. set_solver.
Qed.

Section Float.
Context {float : Type}.
Abbreviation llama_ubatch := (Batch.llama_ubatch float).

Lemma can_use_rep k ls (ub : llama_ubatch) c l h s found i x :
  search_ok k ls -> (l, h) ∈ ls -> rep c l h -> l !! i = Some x ->
  can_use k ub c s found i = Ok (usable k l x).
Proof.
  intros HS Hin HR Hx. unfold can_use. rewrite (is_empty_rep _ _ _ _ _ HR Hx).
  destruct HS as [Hg Hw Hroom]. replace (1 <? allocation_group_size k)%nat with false by (symmetry; apply Nat.ltb_ge; lia).
  cbn [deref mbind result_bind]. rewrite andb_false_r. cbn [mbind result_bind]. unfold usable.
  destruct (Z.eqb_spec (c_pos x) (-1)) as [|Hne]; [done|].
  rewrite (seq_count_rep _ _ _ _ _ HR Hx) by done. cbn [deref mbind result_bind orb].
  unfold base.size at 1, set_size. cbn [compose]. destruct (elements (c_seq x)) as [|s' [|s'' e]] eqn:He; try done.
  cbn [length Nat.eqb]. rewrite (pos_get_rep _ _ _ _ _ HR Hx) by done.
  rewrite (seq_get_rep _ _ _ _ _ _ HR Hx He). cbn [deref mbind result_bind].
  assert (Hs' : s' ∈ c_seq x) by (apply elem_of_elements; rewrite He; left).
  pose proof (rep_at_bits _ _ _ HR _ _ _ Hx Hs') as Hb.
  rewrite (seq_pos_max_spec _ _ _ _ HR Hb). fold (max_pos l s'). cbn [deref mbind result_bind].
  pose proof (max_pos_ge _ _ _ _ Hx Hs'). destruct (rep_ok _ _ _ HR _ _ Hx) as (Hr & _).
  rewrite Forall_forall in Hroom. specialize (Hroom _ Hin). pose proof (max_pos_room l s' Hroom).
  unfold int_. replace (in_i32 (max_pos l s' + 1)) with true by (unfold in_i32; lia).
  cbn [deref mbind result_bind].
  destruct (is_masked_total (n_swa k) (swa_type k) (c_pos x) (max_pos l s' + 1)) as [b Eb]; [lia|lia|done|].
  by rewrite Eb.
Qed.

(** ** The search in one stream *)

(** The cells in the order they are tested: from the head to the end, then from the
    start. *)
Definition order (n h : nat) : list nat := List.seq h (n - h) ++ List.seq 0 h.

Definition run_at (ok : nat -> bool) (n m a : nat) : bool :=
  (a + m <=? n)%nat && forallb ok (List.seq a m).

(** The slot for [m] tokens: the first usable cells in this order, or the first run of
    consecutive ones. *)
Definition first_slot (ok : nat -> bool) (cont : bool) (n m h : nat) : option (list nat) :=
  if cont then (fun a => List.seq a m) <$> head (filter (fun a => run_at ok n m a = true) (order n h))
  else
    let us := filter (fun i => ok i = true) (order n h) in
    if (m <=? length us)%nat then Some (take m us) else None.

(** [t] tests have been made and the next one is at [hd]. *)
Definition tested (n h t hd : nat) : Prop :=
  (t <= n - h /\ hd = h + t)%nat \/ (n - h <= t /\ hd = t - (n - h))%nat.

Lemma order_lookup n h t hd :
  (h <= n)%nat -> tested n h t hd -> (t < n)%nat -> (hd < n)%nat -> order n h !! t = Some hd.
Proof.
  intros Hh Ht Htn Hn. unfold order. destruct Ht as [[Ht ->]|[Ht ->]].
  - rewrite lookup_app_l by (rewrite length_seq; lia). apply lookup_seq. lia.
  - rewrite lookup_app_r by (rewrite length_seq; lia). rewrite length_seq. apply lookup_seq. lia.
Qed.

Lemma length_order n h : (h <= n)%nat -> length (order n h) = n.
Proof. intros. unfold order. rewrite length_app, !length_seq. lia. Qed.

Lemma filter_snoc_take {A} (P : A -> Prop) `{!forall x, Decision (P x)} (l : list A) t x :
  l !! t = Some x -> filter P (take (S t) l) = filter P (take t l) ++ (if decide (P x) then [x] else []).
Proof.
  intros Hx. by rewrite (take_S_r _ _ _ Hx), filter_app.
Qed.

Lemma filter_take_seq_prefix {A} (P : A -> Prop) `{!forall x, Decision (P x)} (l : list A) t :
  filter P (take t l) `prefix_of` filter P l.
Proof. exists (filter P (drop t l)). by rewrite <- filter_app, take_drop. Qed.

Lemma take_seq_prefix {A} (l k : list A) : l `prefix_of` k -> take (length l) k = l.
Proof. intros [z ->]. by rewrite take_app_length. Qed.

Section Search.
  Context (k : kv_cache) (ub : llama_ubatch) (c : llama_kv_cells) (s : Z) (ok : nat -> bool) (n h m : nat).
  Context (Hsz : size c = n) (Hh : (h <= n)%nat) (Hm : (0 < m <= n)%nat).
  Context (Hcan : forall found i, (i < n)%nat -> can_use k ub c s found i = Ok (ok i)).

Lemma search_plain fuel t hd found :
  tested n h t hd -> (t < n)%nat -> (hd <= n)%nat ->
  found = filter (fun i => ok i = true) (take t (order n h)) -> (length found < m)%nat ->
  (2 * (n - t) + (if hd =? n then 1 else 0) < fuel)%nat ->
  search_loop fuel k ub c s false m hd t found = Ok (first_slot ok false n m h).
Proof.
  revert t hd found. induction fuel as [|fuel IH]; intros t hd found Ht Htn Hhd Hf Hl Hfuel; [lia|].
  cbn [search_loop]. rewrite Hsz. destruct (Nat.ltb_spec n (hd + 1)) as [Hw|Hw].
  - assert (hd = n) as -> by lia. rewrite Nat.eqb_refl in Hfuel.
    apply IH; [|lia|lia| |done|].
    + destruct Ht as [[? ?]|[? ?]]; right; lia.
    + rewrite Hf. f_equal. f_equal. lia.
    + replace (0 =? n)%nat with false by (symmetry; apply Nat.eqb_neq; lia). lia.
  - replace (hd =? n)%nat with false in Hfuel by (symmetry; apply Nat.eqb_neq; lia).
    pose proof (order_lookup n h t hd Hh Ht Htn ltac:(lia)) as Ho.
    pose proof (filter_snoc_take (fun i => ok i = true) _ _ _ Ho) as Hsnoc. rewrite <- Hf in Hsnoc.
    remember (filter (fun i => ok i = true) (take (S t) (order n h))) as found' eqn:Ef.
    assert (test_cells k ub c s false 1 hd t found = Ok (S hd, S t, found')) as ->.
    { cbn [test_cells]. rewrite Hcan by lia. cbn [mbind result_bind]. rewrite Hsnoc.
      destruct (ok hd) eqn:Eo; [by rewrite decide_True by done|].
      rewrite decide_False by congruence. by rewrite app_nil_r. }
    cbn [mbind result_bind].
    assert (Hpre : found' `prefix_of` filter (fun i => ok i = true) (order n h)) by (subst found'; apply filter_take_seq_prefix).
    assert (Hle : (length found' <= m)%nat).
    { rewrite Hsnoc, length_app. case_decide; simpl; lia. }
    unfold first_slot. destruct (Nat.eqb_spec (length found') m) as [E|E].
    + pose proof (prefix_length _ _ Hpre). replace (m <=? _)%nat with true by (symmetry; apply Nat.leb_le; lia).
      rewrite <- E. by rewrite take_seq_prefix.
    + destruct (Nat.leb_spec n (S t)) as [Hend|Hend].
      * assert (found' = filter (fun i => ok i = true) (order n h)) as <-.
        { rewrite Ef. by rewrite take_ge by (rewrite length_order; lia). }
        by replace (m <=? _)%nat with false by (symmetry; apply Nat.leb_gt; lia).
      * apply IH; [|lia|lia|done|lia|].
        -- destruct Ht as [[? ?]|[? ?]]; [left|right]; lia.
        -- destruct (S hd =? n)%nat; lia.
Qed.
(** A continuous slot: the inner loop stops at the first cell it cannot use. *)
Lemma test_run m' hd t found :
  (hd + m' <= n)%nat ->
  if forallb ok (List.seq hd m')
  then test_cells k ub c s true m' hd t found = Ok (hd + m', t + m', found ++ List.seq hd m')%nat
  else exists j, (j < m')%nat /\ ok (hd + j)%nat = false /\
    test_cells k ub c s true m' hd t found = Ok (S (hd + j), S (t + j), found ++ List.seq hd j).
Proof.
  revert hd t found. induction m' as [|m' IH]; intros hd t found Hn.
  - cbn. by rewrite !Nat.add_0_r, app_nil_r.
  - cbn [test_cells List.seq forallb]. rewrite Hcan by lia. cbn [mbind result_bind].
    destruct (ok hd) eqn:Eo; cbn [andb].
    + specialize (IH (S hd) (S t) (found ++ [hd]) ltac:(lia)). destruct (forallb ok (List.seq (S hd) m')).
      * rewrite IH. rewrite <- app_assoc. f_equal. f_equal. f_equal; lia.
      * destruct IH as (j & Hj & Ho & E). exists (S j). split; [lia|].
        replace (hd + S j)%nat with (S hd + j)%nat by lia. split; [done|]. rewrite E, <- app_assoc.
        f_equal. f_equal. f_equal; lia.
    + exists 0%nat. rewrite !Nat.add_0_r, app_nil_r. split; [lia|]. done.
Qed.

Definition no_run (t : nat) : Prop := forall a, a ∈ take t (order n h) -> run_at ok n m a = false.

Lemma elem_of_tested t hd a :
  tested n h t hd -> (hd <= n)%nat ->
  a ∈ take t (order n h) <->
    if (t <=? n - h)%nat then (h <= a < h + t)%nat else ((h <= a < n) \/ (a < hd /\ a < h))%nat.
Proof.
  intros Ht Hn. unfold order. destruct (Nat.leb_spec t (n - h)).
  - rewrite take_app_le by (rewrite length_seq; lia). rewrite take_seq, elem_of_seq. lia.
  - rewrite take_app_ge by (rewrite length_seq; lia). rewrite elem_of_app, length_seq, take_seq, !elem_of_seq.
    unfold tested in Ht. lia.
Qed.

Lemma run_too_late a : (n < a + m)%nat -> run_at ok n m a = false.
Proof. intros Ha. unfold run_at. by replace (a + m <=? n)%nat with false by (symmetry; apply Nat.leb_gt; lia). Qed.

Lemma run_blocked a j : (a <= j < a + m)%nat -> ok j = false -> run_at ok n m a = false.
Proof.
  intros Ha Hj. unfold run_at. apply andb_false_iff. right. apply not_true_iff_false. intros Hf.
  rewrite forallb_forall in Hf. specialize (Hf j). rewrite in_seq in Hf. specialize (Hf Ha). congruence.
Qed.

Lemma no_run_filter t : no_run t -> filter (fun a => run_at ok n m a = true) (take t (order n h)) = [].
Proof.
  intros Hr. destruct (filter _ _) as [|a l] eqn:E; [done|]. exfalso.
  assert (Hin : a ∈ filter (fun a => run_at ok n m a = true) (take t (order n h))) by (rewrite E; left).
  apply list_elem_of_filter in Hin as [Ha Hin]. rewrite (Hr _ Hin) in Ha. done.
Qed.

Lemma no_run_end t : (n <= t)%nat -> no_run t -> first_slot ok true n m h = None.
Proof.
  intros Hn Hr%no_run_filter. rewrite take_ge in Hr by (rewrite length_order; lia).
  unfold first_slot. by rewrite Hr.
Qed.

Lemma run_found t hd :
  no_run t -> order n h !! t = Some hd -> run_at ok n m hd = true ->
  first_slot ok true n m h = Some (List.seq hd m).
Proof.
  intros Hr%no_run_filter Ho Ha. unfold first_slot.
  rewrite <- (take_drop t (order n h)), filter_app, Hr, (drop_S _ _ _ Ho), filter_cons.
  by rewrite decide_True by done.
Qed.

(** What is known before an iteration: no run starts at a tested cell. *)
Definition run_inv (t hd : nat) : Prop :=
  no_run t /\ ((tested n h t hd /\ t < n /\ hd <= n) \/ (n <= t /\ hd = 0))%nat.

(** An attempt at [hd] that fails at cell [hd + j], and a return to the first cell. *)
Lemma run_inv_fail t hd j :
  run_inv t hd -> (j < m)%nat -> (hd + m <= n)%nat -> ok (hd + j)%nat = false ->
  (n <= S (t + j) /\ no_run (S (t + j)))%nat \/ (S (t + j) < n /\ run_inv (S (t + j)) (S (hd + j)))%nat.
Proof.
  intros [Hr Hinv] Hj Hn Ho. destruct Hinv as [(Ht & Htn & Hhd)|[Hend ->]].
  2: { left. split; [lia|]. intros a Ha. apply Hr. rewrite take_ge in * by (rewrite length_order; lia). done. }
  assert (Ht' : tested n h (S (t + j)) (S (hd + j))) by (unfold tested in *; lia).
  assert (no_run (S (t + j))) as Hr'.
  { intros a Ha. destruct (decide (hd <= a <= hd + j)%nat) as [Hb|Hb].
    { apply (run_blocked _ (hd + j)); [lia|done]. }
    apply Hr. rewrite (elem_of_tested _ _ _ Ht Hhd). rewrite (elem_of_tested _ _ _ Ht' ltac:(lia)) in Ha.
    clear - Ha Hb Ht Ht' Hj Hn Hm Hh. unfold tested in *.
    destruct (Nat.leb_spec t (n - h)), (Nat.leb_spec (S (t + j)) (n - h)); lia. }
  destruct (Nat.le_gt_cases n (S (t + j))); [by left|right].
  split; [done|]. split; [done|]. left. split; [done|lia].
Qed.

Lemma run_inv_wrap t hd :
  run_inv t hd -> (n < hd + m)%nat -> run_inv (t + (n - hd)) 0.
Proof.
  intros [Hr Hinv] Hn. destruct Hinv as [(Ht & Htn & Hhd)|[Hend ->]]; [|lia].
  assert (no_run (t + (n - hd))) as Hr'.
  { intros a Ha. destruct (Nat.le_gt_cases a (n - m)) as [Hle|Hgt]; [|apply run_too_late; lia].
    apply Hr. rewrite (elem_of_tested _ _ _ Ht Hhd). unfold tested in Ht.
    destruct (Nat.leb_spec t (n - h)).
    - destruct Ht as [[_ ->]|[? ->]]; [|lia].
      replace (t + (n - (h + t)))%nat with (n - h)%nat in Ha by lia.
      unfold order in Ha. rewrite take_app_length' in Ha by (by rewrite length_seq).
      apply elem_of_seq in Ha. lia.
    - apply elem_of_take' in Ha. unfold order in Ha. rewrite elem_of_app, !elem_of_seq in Ha. lia. }
  split; [done|]. unfold tested in *. lia.
Qed.

Lemma search_run fuel t hd :
  run_inv t hd -> (2 * (n - t) + (if hd =? n then 1 else 0) + 1 < fuel)%nat ->
  search_loop fuel k ub c s true m hd t [] = Ok (first_slot ok true n m h).
Proof.
  revert t hd. induction fuel as [|fuel IH]; intros t hd Hinv Hfuel; [lia|].
  cbn [search_loop]. rewrite Hsz. destruct (Nat.ltb_spec n (hd + m)) as [Hw|Hw].
  - apply IH; [by apply run_inv_wrap|].
    replace (0 =? n)%nat with false by (symmetry; apply Nat.eqb_neq; lia).
    destruct Hinv as [_ [(Ht & Htn & Hhd)|[Hend ->]]]; [|lia].
    destruct (Nat.eqb_spec hd n); lia.
  - pose proof (test_run m hd t [] ltac:(lia)) as Htest.
    destruct (forallb ok (List.seq hd m)) eqn:Ef.
    + rewrite Htest. cbn [mbind result_bind app]. rewrite length_seq, Nat.eqb_refl.
      assert (run_at ok n m hd = true) as Hrun.
      { unfold run_at. rewrite Ef. replace (hd + m <=? n)%nat with true by (symmetry; apply Nat.leb_le; lia). done. }
      destruct Hinv as [Hr [(Ht & Htn & Hhd)|[Hend ->]]].
      * by rewrite (run_found t hd Hr (order_lookup _ _ _ _ Hh Ht Htn ltac:(lia)) Hrun).
      * enough (0%nat ∈ take t (order n h)) as Hin by (specialize (Hr _ Hin); congruence).
        rewrite take_ge by (rewrite length_order; lia). unfold order. rewrite elem_of_app, !elem_of_seq. lia.
    + destruct Htest as (j & Hj & Hoj & ->). cbn [mbind result_bind app]. rewrite length_seq.
      replace (j =? m)%nat with false by (symmetry; apply Nat.eqb_neq; lia).
      destruct (run_inv_fail t hd j Hinv Hj Hw Hoj) as [[Hend Hr]|[Hlt Hinv']].
      * replace (n <=? S (t + j))%nat with true by (symmetry; apply Nat.leb_le; lia).
        by rewrite (no_run_end _ Hend Hr).
      * replace (n <=? S (t + j))%nat with false by (symmetry; apply Nat.leb_gt; lia).
        apply IH; [done|].
        destruct (hd =? n)%nat, (S (hd + j) =? n)%nat; lia.
Qed.
End Search.

(** ** What the first slot is *)

Lemma order_perm n h : (h <= n)%nat -> order n h ≡ₚ List.seq 0 n.
Proof.
  intros Hh. unfold order. rewrite Permutation_app_comm.
  replace n with (h + (n - h))%nat at 2 by lia. by rewrite List.seq_app.
Qed.

Lemma first_slot_Some ok cont n m h row :
  (h <= n)%nat -> first_slot ok cont n m h = Some row ->
  length row = m /\ NoDup row /\ Forall (fun i => i < n /\ ok i = true)%nat row /\
  (cont = true -> exists a, row = List.seq a m).
Proof.
  intros Hh H. unfold first_slot in H. destruct cont.
  - apply fmap_Some in H as (a & Ha & ->). rewrite length_seq. split_and!; [done|apply NoDup_seq| |eauto].
    apply head_Some_elem_of, list_elem_of_filter in Ha as [Hr _]. unfold run_at in Hr.
    apply andb_true_iff in Hr as [Hn%Nat.leb_le Hf]. apply Forall_forall. intros i Hi%elem_of_seq.
    split; [lia|]. rewrite forallb_forall in Hf. apply Hf, in_seq. lia.
  - case_match eqn:E; simplify_eq. apply Nat.leb_le in E. split_and!; [rewrite length_take; lia| | |done].
    + eapply sublist_NoDup; [|apply sublist_take]. apply NoDup_filter.
      rewrite order_perm by done. apply NoDup_seq.
    + apply Forall_take, Forall_forall. intros i [Ho Hi]%list_elem_of_filter.
      rewrite order_perm in Hi by done. apply elem_of_seq in Hi. split; [lia|done].
Qed.

Lemma first_slot_None ok cont n m h :
  (h <= n)%nat -> (0 < m)%nat -> first_slot ok cont n m h = None ->
  if cont then forall a, (a + m <= n)%nat -> exists i, (a <= i < a + m)%nat /\ ok i = false
  else (length (filter (fun i => ok i = true) (List.seq 0 n)) < m)%nat.
Proof.
  intros Hh Hm H. unfold first_slot in H. destruct cont.
  - apply fmap_None, head_None in H. intros a Ha.
    destruct (forallb ok (List.seq a m)) eqn:Ef.
    + exfalso. assert (Hin : a ∈ filter (fun a => run_at ok n m a = true) (order n h)); [|rewrite H in Hin; by apply elem_of_nil in Hin].
      apply list_elem_of_filter. unfold run_at. rewrite Ef.
      replace (a + m <=? n)%nat with true by (symmetry; apply Nat.leb_le; lia). split; [done|].
      rewrite order_perm by done. apply elem_of_seq. lia.
    + apply not_true_iff_false in Ef. rewrite forallb_forall in Ef.
      destruct (decide (Exists (fun i => ok i = false) (List.seq a m))) as [He|Hne].
      * apply Exists_exists in He as (i & Hi%elem_of_seq & Ho). eauto.
      * exfalso. apply Ef. intros i Hi. apply not_false_iff_true. intros Ho. apply Hne, Exists_exists.
        exists i. split; [|done]. by apply list_elem_of_In.
  - case_match eqn:E; [done|]. apply Nat.leb_gt in E. by rewrite <- (order_perm n h Hh).
Qed.

(** ** The slot of a ubatch *)

Definition ok_at (k : kv_cache) (l : list cell) (i : nat) : bool :=
  match l !! i with Some x => usable k l x | None => false end.

(** The head at which the search starts. *)
Definition start_at (l : list cell) (h m : nat) : nat :=
  if u32 (Z.of_nat (length (used_cells l)) + 2 * Z.of_nat m) <? Z.of_nat h then 0%nat else h.

Definition n_seqs_of (k : kv_cache) (ub : llama_ubatch) : nat :=
  if (1 <? n_stream k)%nat then Batch.u_n_seqs_unq ub else 1%nat.

Definition n_tokens_of (k : kv_cache) (ub : llama_ubatch) : nat :=
  (Batch.u_n_tokens ub / n_seqs_of k ub)%nat.

Definition stream_of_ub (k : kv_cache) (ub : llama_ubatch) (s : nat) : option nat :=
  id ← Batch.u_seq_id_unq ub !! s; stream_of_seq (seq_to_stream k) id.

(** What the search relies on: there are tokens, the sequences have streams, and with
    several streams the tokens of each sequence follow each other. *)
Record ubatch_ok (k : kv_cache) (ub : llama_ubatch) : Prop := {
  uo_tokens : (0 < Batch.u_n_tokens ub)%nat;
  uo_streams : forall s, (s < n_seqs_of k ub)%nat -> is_Some (stream_of_ub k ub s);
  uo_seqs : (1 < n_stream k)%nat ->
    Batch.u_n_seqs_unq ub <> 0%nat /\ (Batch.u_n_tokens ub mod Batch.u_n_seqs_unq ub = 0)%nat /\
    forall s id, (s < n_seqs_of k ub)%nat -> Batch.u_seq_id_unq ub !! s = Some id ->
      Batch.u_n_seq_id ub !! (s * n_tokens_of k ub)%nat = Some 1 /\
      token_ids ub (s * n_tokens_of k ub)%nat = Ok [id];
}.

(** The slot in a stream. *)
Definition stream_slot (k : kv_cache) (ls : list spec) (n : nat) (cont : bool) (m st : nat)
    : option (list nat) :=
  match (ls !! st : option spec), v_heads k !! st with
  | Some lh, Some h =>
      if (n <? m)%nat then None else first_slot (ok_at k lh.1) cont n m (start_at lh.1 h m)
  | _, _ => None
  end.

Lemma get_used_rep c l h : rep c l h -> get_used c = length (used_cells l).
Proof.
  intros HR. unfold get_used. rewrite <- (Permutation_length (elements_used _ _ _ HR)). done.
Qed.

Lemma find_stream_rep n k ls (ub : llama_ubatch) cont s st :
  cache_rep n k ls -> search_ok k ls -> ubatch_ok k ub -> (s < n_seqs_of k ub)%nat ->
  (0 < n_tokens_of k ub)%nat ->
  stream_of_ub k ub s = Some st ->
  find_stream k ub cont (n_tokens_of k ub) s = Ok (st, stream_slot k ls n cont (n_tokens_of k ub) st).
Proof.
  intros HC HS HU Hs Hm Hst. unfold stream_of_ub in Hst. apply bind_Some_inv in Hst as (id & Hid & Hst).
  unfold find_stream. rewrite (at_lookup _ _ _ Hid). cbn [mbind result_bind].
  match goal with |- mbind _ ?x = _ => assert (x = Ok tt) as -> end.
  { destruct (Nat.ltb_spec 1 (n_stream k)) as [H1|H1]; [|done].
    destruct (uo_seqs _ _ HU H1) as (_ & _ & Hrow). destruct (Hrow s id Hs Hid) as [H2 H3].
    rewrite (at_lookup _ _ _ H2). cbn [mbind result_bind ensure Z.eqb Pos.eqb]. rewrite H3.
    cbn [mbind result_bind]. by rewrite bool_decide_eq_true_2. }
  cbn [mbind result_bind]. destruct (stream_lookup _ _ _ _ _ HC Hst) as (E & _ & _ & lh & Hlh).
  rewrite E. cbn [mbind result_bind].
  destruct (cache_rep_stream _ _ _ _ _ HC Hlh) as (c & h & Hc & Hh & HR & Hl & Hhn & Hsz).
  rewrite (at_lookup _ _ _ Hc), (at_lookup _ _ _ Hh). cbn [mbind result_bind].
  unfold stream_slot. rewrite Hlh, Hh, Hsz.
  destruct (Nat.ltb_spec n (n_tokens_of k ub)); [done|].
  assert (start_head c h (n_tokens_of k ub) = start_at lh.1 h (n_tokens_of k ub)) as ->.
  { unfold start_head, start_at. by rewrite (get_used_rep _ _ _ HR). }
  assert (start_at lh.1 h (n_tokens_of k ub) <= n)%nat as Hle by (unfold start_at; destruct (_ <? _); lia).
  assert (Hcan : forall found i, (i < n)%nat -> can_use k ub c id found i = Ok (ok_at k lh.1 i)).
  { intros found i Hi. rewrite <- Hl in Hi. destruct (lookup_lt_is_Some_2 _ _ Hi) as [x Hx].
    unfold ok_at. rewrite Hx. destruct lh as [l b]. eapply can_use_rep; [done| |done|done].
    by eapply list_elem_of_lookup_2. }
  assert (Hmn : (0 < n_tokens_of k ub <= n)%nat) by lia. destruct cont.
  - rewrite (search_run _ _ _ _ _ _ _ _ Hsz Hle Hmn Hcan); [done| |destruct (_ =? _)%nat; lia].
    split; [|left; split_and!; [left; lia|lia|done]]. intros a Ha. by apply elem_of_nil in Ha.
  - rewrite (search_plain _ _ _ _ _ _ _ _ Hsz Hle Hmn Hcan); [done|left; lia|lia|done|done|simpl; lia|].
    destruct (_ =? _)%nat; lia.
Qed.

(** A slot for [m] tokens in a stream, and that there is none. *)
Definition slot_in (k : kv_cache) (l : list cell) (cont : bool) (m : nat) (row : list nat) : Prop :=
  length row = m /\ NoDup row /\
  Forall (fun i => exists x, l !! i = Some x /\ usable k l x = true) row /\
  (cont = true -> exists a, row = List.seq a m).

Definition no_slot_in (k : kv_cache) (l : list cell) (cont : bool) (m : nat) : Prop :=
  if cont then forall a, (a + m <= length l)%nat ->
    exists i x, (a <= i < a + m)%nat /\ l !! i = Some x /\ usable k l x = false
  else (length (filter (fun x => usable k l x = true) l) < m)%nat.

Lemma length_filter_at {A} (f : A -> bool) (l : list A) :
  length (filter (fun i => match l !! i with Some x => f x | None => false end = true) (List.seq 0 (length l)))
    = length (filter (fun x => f x = true) l).
Proof.
  induction l as [|x l IH] using rev_ind; [done|].
  rewrite length_app, Nat.add_1_r, seq_S, !filter_app, !length_app. cbn [Nat.add].
  f_equal.
  - rewrite <- IH. f_equal. apply filter_iff_in. intros i Hi%elem_of_seq.
    by rewrite lookup_app_l by lia.
  - rewrite !filter_cons, lookup_app_r, Nat.sub_diag by lia. simpl. by repeat case_decide.
Qed.

Lemma stream_slot_Some k ls n cont m st row :
  cache_rep n k ls -> stream_slot k ls n cont m st = Some row ->
  exists lh : spec, ls !! st = Some lh /\ slot_in k lh.1 cont m row.
Proof.
  intros HC H. unfold stream_slot in H. destruct (ls !! st) as [lh|] eqn:Hst; [|done].
  destruct (cache_rep_stream _ _ _ _ _ HC Hst) as (c & h & _ & Hh & HR & Hl & Hhn & _). rewrite Hh in H.
  destruct (n <? m)%nat; [done|]. exists lh. split; [done|].
  apply first_slot_Some in H as (? & ? & Hf & ?); [|unfold start_at; destruct (_ <? _); lia].
  split_and!; [done|done| |done]. eapply Forall_impl; [exact Hf|]. intros i [_ Hi]. unfold ok_at in Hi.
  destruct (lh.1 !! i) as [x|]; [eauto|done].
Qed.

Lemma stream_slot_None k ls n cont m st (lh : spec) :
  cache_rep n k ls -> ls !! st = Some lh -> (0 < m)%nat -> stream_slot k ls n cont m st = None ->
  no_slot_in k lh.1 cont m.
Proof.
  intros HC Hst Hm H. unfold stream_slot in H. rewrite Hst in H. unfold no_slot_in.
  destruct (cache_rep_stream _ _ _ _ _ HC Hst) as (c & h & _ & Hh & HR & Hl & Hhn & _). rewrite Hh in H.
  destruct (Nat.ltb_spec n m) as [Hlt|Hge].
  - destruct cont; [intros a Ha; lia|].
    pose proof (sublist_length _ _ (sublist_filter (fun x => usable k lh.1 x = true) lh.1)). lia.
  - apply first_slot_None in H; [|unfold start_at; destruct (_ <? _); lia|done]. rewrite Hl.
    destruct cont.
    + intros a Ha. destruct (H a Ha) as (i & Hi & Ho). unfold ok_at in Ho.
      destruct (lookup_lt_is_Some_2 lh.1 i) as [x Hx]; [lia|]. rewrite Hx in Ho. eauto.
    + rewrite <- length_filter_at, Hl. exact H.
Qed.

(** The streams of the ubatch with their slots. *)
Definition ub_slot (k : kv_cache) (ls : list spec) (n : nat) (ub : llama_ubatch) (cont : bool) (s : nat)
    : option (nat * list nat) :=
  st ← stream_of_ub k ub s;
  row ← stream_slot k ls n cont (n_tokens_of k ub) st;
  Some (st, row).

Lemma find_streams_rep n k ls (ub : llama_ubatch) cont todo res :
  cache_rep n k ls -> search_ok k ls -> ubatch_ok k ub -> (0 < n_tokens_of k ub)%nat ->
  Forall (fun s => s < n_seqs_of k ub)%nat todo ->
  find_streams k ub cont (n_tokens_of k ub) res todo =
    Ok match mapM (ub_slot k ls n ub cont) todo with
       | None => no_slot
       | Some rows =>
           mk_slot (foldl (fun a (r : nat * list nat) => Z.min a (Z.of_nat r.1)) (s0 res) rows)
             (foldl (fun a (r : nat * list nat) => Z.max a (Z.of_nat r.1)) (s1 res) rows)
             (strm res ++ rows.*1) (idxs res ++ rows.*2)
       end.
Proof.
  intros HC HS HU Hm. revert res. induction todo as [|s todo IH]; intros res Ht.
  - simpl. rewrite !app_nil_r. by destruct res.
  - apply Forall_cons in Ht as [Hs Ht]. destruct (uo_streams _ _ HU s Hs) as [st Hst].
    cbn [find_streams mapM]. rewrite (find_stream_rep _ _ _ _ _ _ _ HC HS HU Hs Hm Hst).
    cbn [mbind result_bind snd fst].
    assert (ub_slot k ls n ub cont s = (row ← stream_slot k ls n cont (n_tokens_of k ub) st; Some (st, row)))
      as -> by (unfold ub_slot; by rewrite Hst).
    destruct (stream_slot k ls n cont (n_tokens_of k ub) st) as [row|]; [|done]. bind_simpl.
    rewrite IH by done. destruct (mapM (ub_slot k ls n ub cont) todo) as [rows|]; [|done]. bind_simpl.
    cbn [s0 s1 strm idxs fmap list_fmap foldl fst snd]. by rewrite <- !app_assoc.
Qed.

Lemma tokens_of_pos k (ub : llama_ubatch) :
  ubatch_ok k ub -> (0 < n_seqs_of k ub)%nat /\ (0 < n_tokens_of k ub)%nat /\
    Batch.u_n_tokens ub = (n_seqs_of k ub * n_tokens_of k ub)%nat.
Proof.
  intros HU. pose proof (uo_tokens _ _ HU). unfold n_tokens_of, n_seqs_of.
  destruct (Nat.ltb_spec 1 (n_stream k)) as [H1|H1].
  - destruct (uo_seqs _ _ HU H1) as (Hne & Hmod & _).
    pose proof (Nat.div_mod (Batch.u_n_tokens ub) _ Hne). rewrite Hmod in *.
    destruct (Batch.u_n_tokens ub / Batch.u_n_seqs_unq ub)%nat eqn:E; lia.
  - rewrite Nat.div_1_r. lia.
Qed.

Lemma foldl_min_le {A} (f : A -> Z) a l : foldl (fun a r => Z.min a (f r)) a l <= a.
Proof. revert a. induction l as [|x l IH]; intros a; simpl; [lia|]. specialize (IH (Z.min a (f x))). lia. Qed.

Lemma foldl_max_ge {A} (f : A -> Z) a l : a <= foldl (fun a r => Z.max a (f r)) a l.
Proof. revert a. induction l as [|x l IH]; intros a; simpl; [lia|]. specialize (IH (Z.max a (f x))). lia. Qed.

Lemma find_slot_rep n k ls (ub : llama_ubatch) cont :
  cache_rep n k ls -> search_ok k ls -> ubatch_ok k ub ->
  find_slot k ub cont =
    Ok match mapM (ub_slot k ls n ub cont) (List.seq 0 (n_seqs_of k ub)) with
       | None => no_slot
       | Some rows =>
           mk_slot (foldl (fun a (r : nat * list nat) => Z.min a (Z.of_nat r.1)) LLAMA_MAX_SEQ rows)
             (foldl (fun a (r : nat * list nat) => Z.max a (Z.of_nat r.1)) 0 rows) rows.*1 rows.*2
       end.
Proof.
  intros HC HS HU. unfold find_slot. destruct (tokens_of_pos k ub HU) as (Hs & Hm & Htot).
  match goal with |- mbind _ ?x = _ => assert (x = Ok (n_seqs_of k ub, n_tokens_of k ub)) as -> end.
  { unfold n_tokens_of, n_seqs_of. destruct (Nat.ltb_spec 1 (n_stream k)) as [H1|H1].
    - destruct (uo_seqs _ _ HU H1) as (Hne & Hmod & _). apply Nat.eqb_neq in Hne. rewrite Hne, Hmod. done.
    - by rewrite Nat.div_1_r. }
  cbn [mbind result_bind fst snd].
  replace (1 <? allocation_group_size k)%nat with false
    by (symmetry; apply Nat.ltb_ge; apply (so_groups _ _ HS)).
  cbn [andb]. rewrite (find_streams_rep _ _ _ _ _ _ _ HC HS HU Hm).
  2: { apply Forall_forall. intros s Hin%elem_of_seq. lia. }
  cbn [mbind result_bind s0 s1 strm idxs app].
  destruct (mapM (ub_slot k ls n ub cont) (List.seq 0 (n_seqs_of k ub))) as [rows|] eqn:E; [|done].
  pose proof (length_mapM _ _ _ E) as Hl. rewrite length_seq in Hl.
  unfold slot_empty. cbn [idxs s0 s1]. rewrite length_fmap.
  replace (length rows =? 0)%nat with false by (symmetry; apply Nat.eqb_neq; lia). cbn [orb].
  destruct rows as [|r rows]; [simpl in Hl; lia|]. cbn [foldl].
  pose proof (foldl_min_le (fun r : nat * list nat => Z.of_nat r.1) (Z.min LLAMA_MAX_SEQ (Z.of_nat r.1)) rows).
  pose proof (foldl_max_ge (fun r : nat * list nat => Z.of_nat r.1) (Z.max 0 (Z.of_nat r.1)) rows).
  match goal with |- context [ensure ?b _] => replace b with true by lia end. done.
Qed.

Lemma find_slot_spec n k ls (ub : llama_ubatch) cont :
  cache_rep n k ls -> search_ok k ls -> ubatch_ok k ub ->
  exists si, find_slot k ub cont = Ok si /\
    (slot_empty si = true -> exists s st (lh : spec), (s < n_seqs_of k ub)%nat /\ stream_of_ub k ub s = Some st /\
       ls !! st = Some lh /\ no_slot_in k lh.1 cont (n_tokens_of k ub)) /\
    (slot_empty si = false -> length (idxs si) = n_seqs_of k ub /\ length (strm si) = n_seqs_of k ub /\
       forall s, (s < n_seqs_of k ub)%nat -> exists st (lh : spec) row,
         stream_of_ub k ub s = Some st /\ ls !! st = Some lh /\
         strm si !! s = Some st /\ idxs si !! s = Some row /\
         slot_in k lh.1 cont (n_tokens_of k ub) row /\
         stream_slot k ls n cont (n_tokens_of k ub) st = Some row).
Proof.
  intros HC HS HU. rewrite (find_slot_rep _ _ _ _ _ HC HS HU). eexists. split; [done|].
  destruct (tokens_of_pos k ub HU) as (Hs & Hm & _).
  destruct (mapM (ub_slot k ls n ub cont) (List.seq 0 (n_seqs_of k ub))) as [rows|] eqn:E.
  - pose proof (length_mapM _ _ _ E) as Hl. rewrite length_seq in Hl. unfold slot_empty. cbn [idxs strm].
    rewrite !length_fmap. split; [intros H%Nat.eqb_eq; lia|]. intros _. split_and!; [done|done|].
    intros s Hlt. assert (Hseq : List.seq 0 (n_seqs_of k ub) !! s = Some s) by (apply lookup_seq; lia).
    destruct (mapM_lookup_Some _ _ _ _ _ E Hseq) as ([st row] & Hrow & Hub).
    unfold ub_slot in Hub. apply bind_Some_inv in Hub as (st' & Hst & Hub).
    apply bind_Some_inv in Hub as (row' & Hr & [= -> ->]).
    destruct (stream_slot_Some _ _ _ _ _ _ _ HC Hr) as (lh & Hlh & Hin).
    exists st, lh, row. rewrite !list_lookup_fmap, Hrow. done.
  - split; [|done]. intros _. apply mapM_None in E. apply Exists_exists in E as (s & Hin & Hub).
    apply elem_of_seq in Hin. destruct (uo_streams _ _ HU s) as [st Hst]; [lia|].
    unfold ub_slot in Hub. rewrite Hst in Hub. cbn in Hub.
    destruct (stream_slot k ls n cont (n_tokens_of k ub) st) eqn:Er; [done|].
    assert (exists lh : spec, ls !! st = Some lh) as [lh Hlh].
    { unfold stream_of_ub in Hst. apply bind_Some_inv in Hst as (id & _ & Hst).
      by destruct (stream_lookup _ _ _ _ _ HC Hst) as (_ & _ & _ & ?). }
    exists s, st, lh. split_and!; [lia|done|done|]. by eapply stream_slot_None.
Qed.

(** C3: the search for a slot, in a cache without structured allocation (groups of one cell:
    [so_groups]), whose window is defined and whose positions leave room for a next one. It
    returns for every well-formed ubatch, continuous or not. A slot has one row of cells for each sequence of the ubatch (one row in a cache of
    one stream), in the stream of the sequence: distinct usable cells, as many as
    there are tokens, consecutive for a continuous slot, and the first ones in the
    order from the head. When it returns no slot, the stream of some sequence has
    too few usable cells, or no run of consecutive ones long enough. *)
Theorem slot_search n k ls (ub : llama_ubatch) cont :
  cache_rep n k ls -> search_ok k ls -> ubatch_ok k ub ->
  exists si, find_slot k ub cont = Ok si /\
    (slot_empty si = true -> exists s st (lh : spec), (s < n_seqs_of k ub)%nat /\ stream_of_ub k ub s = Some st /\
       ls !! st = Some lh /\ no_slot_in k lh.1 cont (n_tokens_of k ub)) /\
    (slot_empty si = false -> length (idxs si) = n_seqs_of k ub /\ length (strm si) = n_seqs_of k ub /\
       forall s, (s < n_seqs_of k ub)%nat -> exists st (lh : spec) row,
         stream_of_ub k ub s = Some st /\ ls !! st = Some lh /\
         strm si !! s = Some st /\ idxs si !! s = Some row /\
         slot_in k lh.1 cont (n_tokens_of k ub) row /\
         stream_slot k ls n cont (n_tokens_of k ub) st = Some row).
Proof. apply find_slot_spec. Qed.

End Float.

(** ** Examples *)

(** Two tokens of sequence 1, at the positions 0 and 1, in the cache of [KvCacheWf]
    whose first stream is full. *)
Definition example_ub : Batch.llama_ubatch Z :=
  Batch.mk_ubatch true 2 2 1 1 1 (Some [7; 8]) None [0; 1] [1; 1] [0%nat; 1%nat] [1] [] [0; 1] [1; 1].

Definition example_streams : list spec := [(example_cells_of, true); (replicate 4 free, false)].

Lemma example_search_ok : search_ok example_cache example_streams.
Proof. split; [by apply Nat.leb_le|done|]. refine (bool_decide_eq_true_1 _ _). vm_compute. reflexivity. Qed.

Lemma example_ubatch_ok : ubatch_ok example_cache example_ub.
Proof.
  split; [by apply Nat.ltb_lt| |].
  - intros [|s] Hs; [vm_compute; eauto|]. apply Nat.ltb_lt in Hs. vm_compute in Hs. done.
  - intros _. split; [done|]. split; [by vm_compute|]. intros [|s] id Hs Hid.
    + vm_compute in Hid. injection Hid as <-. by vm_compute.
    + apply Nat.ltb_lt in Hs. vm_compute in Hs. done.
Qed.

Lemma slot_search_witness : exists si, find_slot example_cache example_ub true = Ok si /\
  (slot_empty si = true -> exists s st (lh : spec), (s < n_seqs_of example_cache example_ub)%nat /\
     stream_of_ub example_cache example_ub s = Some st /\
     example_streams !! st = Some lh /\ no_slot_in example_cache lh.1 true (n_tokens_of example_cache example_ub)) /\
  (slot_empty si = false -> length (idxs si) = n_seqs_of example_cache example_ub /\
     length (strm si) = n_seqs_of example_cache example_ub /\
     forall s, (s < n_seqs_of example_cache example_ub)%nat -> exists st (lh : spec) row,
       stream_of_ub example_cache example_ub s = Some st /\ example_streams !! st = Some lh /\
       strm si !! s = Some st /\ idxs si !! s = Some row /\
       slot_in example_cache lh.1 true (n_tokens_of example_cache example_ub) row /\
       stream_slot example_cache example_streams 4 true (n_tokens_of example_cache example_ub) st = Some row).
Proof. exact (slot_search 4 _ _ _ _ example_cache_rep example_search_ok example_ubatch_ok). Defined.

Lemma slot_search_result : find_slot example_cache example_ub true = Ok (mk_slot 1 1 [1%nat] [[0%nat; 1%nat]]).
Proof. vm_compute. reflexivity. Qed.

(** The structured allocation (groups of four cells): the groups are meant to belong
    to one set of sequences each, but the cells given to earlier tokens of the same
    ubatch are not looked at, and four tokens of two sequences share a group. *)
Definition grouped_cache : kv_cache :=
  with_allocation (init_cells 1 8 2 1 0 LLAMA_SWA_TYPE_NONE) 4 2 [0%nat; 0%nat].

Definition mixed_ub : Batch.llama_ubatch Z :=
  Batch.mk_ubatch false 4 1 4 2 1 (Some [7; 8; 9; 10]) None [0; 0; 1; 1] [1; 1; 1; 1]
    [0%nat; 1%nat; 2%nat; 3%nat] [0; 1] [] [0; 0; 0; 1] [0; 1; 0; 1].

Lemma structured_group_shared :
  set_allocation_group_size (init_cells 1 8 2 1 0 LLAMA_SWA_TYPE_NONE) 4 2 = Ok grouped_cache /\
  find_slot grouped_cache mixed_ub false = Ok (mk_slot 0 0 [0%nat] [[0%nat; 1%nat; 2%nat; 3%nat]]).
Proof. split; vm_compute; reflexivity. Qed.

End KvSlotWf.
