(* ===== verification/KvApplyWf.v ===== *)
(** Placing a ubatch in its slot, and the dry run over all ubatches of a batch
    ([KvSlot]), on the abstract cache of [KvCacheWf]. *)

From S2P Require Import Prelude.
From S2P Require Import KvCells.
From S2P Require Import Memory.
From S2P Require Import Batch.
From S2P Require Import KvCache.
From S2P Require Import KvCacheWf.
From S2P Require Import KvSlot.
From S2P Require Import KvSlotWf.

Module KvApplyWf.
Import Cells KvCache KvCacheWf KvSlot KvSlotWf.

Definition cell_at (ls : list spec) (st idx : nat) : option cell :=
  match (ls !! st : option spec) with Some lh => lh.1 !! idx | None => None end.

Definition set_cell_at (ls : list spec) (st idx : nat) (x : cell) : list spec :=
  alter (fun lh : spec => (<[idx := x]> lh.1, lh.2)) st ls.

Lemma cell_at_set ls st idx x y st' idx' :
  cell_at ls st idx = Some x ->
  cell_at (set_cell_at ls st idx y) st' idx' =
    if decide ((st', idx') = (st, idx)) then Some y else cell_at ls st' idx'.
Proof.
  unfold cell_at, set_cell_at. intros Hx. destruct (decide (st' = st)) as [->|Hne].
  - rewrite list_lookup_alter_eq. destruct (ls !! st) as [lh|]; [|done]. cbn.
    destruct (decide (idx' = idx)) as [->|Hni].
    + rewrite decide_True by done. apply list_lookup_insert_eq. by eapply lookup_lt_Some.
    + rewrite decide_False by congruence. by rewrite list_lookup_insert_ne by done.
  - rewrite list_lookup_alter_ne by done. by rewrite decide_False by congruence.
Qed.

(** A cell that may be overwritten: free, or of one sequence. *)
Definition replaceable (x : cell) : Prop := c_pos x = -1 \/ exists s, elements (c_seq x) = [s].

Lemma usable_replaceable k l x : usable k l x = true -> replaceable x.
Proof.
  unfold usable, replaceable. intros [?%Z.eqb_eq|H]%orb_prop; [by left|right].
  destruct (elements (c_seq x)) as [|s [|]]; [done|eauto|done].
Qed.

(** The largest positions overwritten, once [x] is. *)
Definition overwrite (rmv : list Z) (x : cell) : list Z :=
  if c_pos x =? -1 then rmv else
  match elements (c_seq x) with
  | [s] => <[Z.to_nat s := Z.max (default (-1) (rmv !! Z.to_nat s)) (c_pos x)]> rmv
  | _ => rmv
  end.

Lemma length_overwrite rmv x : length (overwrite rmv x) = length rmv.
Proof.
  unfold overwrite. destruct (c_pos x =? -1); [done|].
  destruct (elements (c_seq x)) as [|s [|]]; [done| |done]. apply length_insert.
Qed.

(** The cell once it is freed. *)
Definition emptied (x : cell) : cell := if c_pos x =? -1 then x else free.

Lemma elements_singleton (b : gset Z) s : elements b = [s] -> b = {[s]}.
Proof. intros He. apply set_eq. intros y. rewrite <- elem_of_elements, He. set_solver. Qed.

Lemma free_cell_rep c l h rmv idx x :
  rep c l h -> l !! idx = Some x -> replaceable x -> length rmv = Z.to_nat LLAMA_MAX_SEQ ->
  exists c', free_cell c rmv idx = Ok (c', overwrite rmv x) /\ rep c' (<[idx := emptied x]> l) h.
Proof.
  intros HR Hx Hrep Hl. unfold free_cell, overwrite, emptied.
  rewrite (is_empty_rep _ _ _ _ _ HR Hx). cbn [deref mbind result_bind].
  destruct (Z.eqb_spec (c_pos x) (-1)) as [He|Hne].
  { eexists. split; [done|]. by rewrite list_insert_id. }
  destruct Hrep as [|[s Hs]]; [done|]. pose proof (elements_singleton _ _ Hs) as Hb.
  rewrite (seq_count_rep _ _ _ _ _ HR Hx), Hb, size_singleton by done.
  cbn [deref mbind result_bind ensure Nat.eqb].
  rewrite (seq_get_rep _ _ _ _ _ _ HR Hx Hs), (pos_get_rep _ _ _ _ _ HR Hx) by done.
  cbn [deref mbind result_bind].
  assert (0 <= s < LLAMA_MAX_SEQ) by (eapply rep_at_bits; [done..|rewrite Hb; set_solver]).
  destruct (lookup_lt_is_Some_2 rmv (Z.to_nat s)) as [old Ho]; [lia|].
  rewrite (at_lookup _ _ _ Ho). cbn [mbind result_bind].
  destruct (rm_sim idx c l h (<[idx := free]> l) h false HR) as (c' & E & HR').
  { cbn [spec_op]. rewrite Hx. bind_simpl. by replace (c_pos x =? -1) with false by lia. }
  cbn [run_op] in E. apply no_result_Some in E. rewrite E. cbn [deref mbind result_bind].
  exists c'. split; [|done]. rewrite <- Hb, Hs, Ho. done.
Qed.

(** The owners of a token join its cell. *)
Lemma add_owners_rep c l h hs idx x ids :
  rep c l h -> l !! idx = Some x -> c_pos x <> -1 -> NoDup ids ->
  Forall (fun s => 0 <= s < LLAMA_MAX_SEQ) ids -> (forall s, s ∈ ids -> s ∉ c_seq x) ->
  exists c', foldM (add_owner false idx) (c, hs) ids = Ok (c', hs) /\
    rep c' (<[idx := mk_cell (c_pos x) (c_ext x) (c_shift x) (c_seq x ∪ list_to_set ids)]> l) h.
Proof.
  revert c l x. induction ids as [|s ids IH]; intros c l x HR Hx Hne Hnd Hr Hnew.
  - exists c. split; [done|]. rewrite list_insert_id; [done|]. rewrite Hx. f_equal. destruct x; simpl. f_equal.
    set_solver.
  - apply NoDup_cons in Hnd as [Hs Hnd]. apply Forall_cons in Hr as [Hs' Hr].
    pose proof (Hnew s (list_elem_of_here _ _)) as Hns.
    destruct (seq_add_sim idx s c l h
      (<[idx := mk_cell (c_pos x) (c_ext x) (c_shift x) (c_seq x ∪ {[s]})]> l) h false HR) as (c1 & E & HR1).
    { cbn [spec_op]. rewrite Hx. bind_simpl. replace (c_pos x =? -1) with false by lia.
      replace (0 <=? s) with true by lia. replace (s <? LLAMA_MAX_SEQ) with true by lia.
      by rewrite bool_decide_eq_false_2 by done. }
    cbn [run_op] in E. apply no_result_Some in E. cbn [foldM].
    assert (add_owner false idx (c, hs) s = Ok (c1, hs)) as -> by (unfold add_owner; cbn [fst snd]; by rewrite E).
    cbn [mbind result_bind].
    destruct (IH c1 _ (mk_cell (c_pos x) (c_ext x) (c_shift x) (c_seq x ∪ {[s]})) HR1) as (c2 & E2 & HR2);
      [apply list_lookup_insert_eq; by eapply lookup_lt_Some|done|done|done| |].
    + intros s' Hs2. simpl. specialize (Hnew s' (list_elem_of_further _ _ _ Hs2)).
      intros [?| ->%elem_of_singleton]%elem_of_union; done.
    + exists c2. split; [done|]. rewrite list_insert_insert_eq in HR2. simpl in HR2.
      by rewrite <- (assoc_L (∪)) in HR2.
Qed.

Section Float.
Context {float : Type}.
Abbreviation llama_ubatch := (Batch.llama_ubatch float).

(** The data of a token that placing it uses. *)
Record token := mk_token { t_pos : Z; t_ext : option llama_kv_cell_ext; t_ids : list Z }.

Record token_is (ub : llama_ubatch) (i : nat) (t : token) : Prop := {
  ti_pos : Batch.u_pos ub !! i = Some (t_pos t) /\ 0 <= t_pos t < 2 ^ 31;
  ti_ext : if is_pos_2d ub then
      exists x y, Batch.u_pos ub !! (i + Batch.u_n_tokens ub * 2)%nat = Some x /\
        Batch.u_pos ub !! (i + Batch.u_n_tokens ub)%nat = Some y /\ t_ext t = Some (mk_ext x y)
    else t_ext t = None;
  ti_ids : token_ids ub i = Ok (t_ids t) /\ NoDup (t_ids t) /\
    Forall (fun s => 0 <= s < LLAMA_MAX_SEQ) (t_ids t);
}.

(** The cell [x] once the token is placed in it. *)
Definition placed (t : token) (x : cell) : cell :=
  mk_cell (t_pos t) (default (c_ext (emptied x)) (t_ext t)) 0 (list_to_set (t_ids t)).

Lemma emptied_fields x : cell_ok x ->
  c_pos (emptied x) = -1 /\ c_seq (emptied x) = ∅ /\ c_shift (emptied x) = 0.
Proof.
  intros (_ & Hf & _). unfold emptied. destruct (Z.eqb_spec (c_pos x) (-1)) as [E|]; [|done].
  destruct (Hf E). done.
Qed.

(** What placing does not change. *)
Definition same_rest (k k' : kv_cache) : Prop :=
  config k' = config k /\ sc_info k' = sc_info k /\ v_heads k' = v_heads k.

Lemma place_token_rep n k ls rmv (ub : llama_ubatch) i t st idx x :
  cache_rep n k ls -> (allocation_group_size k <= 1)%nat ->
  cell_at ls st idx = Some x -> replaceable x -> length rmv = Z.to_nat LLAMA_MAX_SEQ ->
  token_is ub i t ->
  exists k', place_token k rmv ub i st idx = Ok (k', overwrite rmv x) /\
    cache_rep n k' (set_cell_at ls st idx (placed t x)) /\ same_rest k k'.
Proof.
  intros HC Hg Hx Hrep Hl [[Hp Hpr] He (Hids & Hnd & Hr)].
  unfold cell_at in Hx. destruct (ls !! st) as [[l b]|] eqn:Hst; [|done]. cbn [fst] in Hx.
  destruct (cache_rep_stream _ _ _ _ _ HC Hst) as (c & h & Hc & Hh & HR & Hln & Hhn & _). cbn [fst snd] in *.
  unfold place_token. rewrite (at_lookup _ _ _ Hc). cbn [mbind result_bind].
  destruct (free_cell_rep _ _ _ _ _ _ HR Hx Hrep Hl) as (c1 & -> & HR1). cbn [mbind result_bind fst snd].
  rewrite (at_lookup _ _ _ Hp). cbn [mbind result_bind].
  destruct (emptied_fields x (rep_ok _ _ _ HR _ _ Hx)) as (E1 & E2 & E3).
  pose proof (lookup_lt_Some _ _ _ Hx) as Hlt.
  destruct (pos_set_sim idx (t_pos t) c1 _ b
    (<[idx := mk_cell (t_pos t) (c_ext (emptied x)) 0 ∅]> l) b false HR1) as (c2 & Es & HR2).
  { cbn [spec_op]. rewrite list_lookup_insert_eq by done. bind_simpl. rewrite E1.
    replace (0 <=? t_pos t) with true by lia. replace (t_pos t <? 2 ^ 31) with true by lia. cbn.
    by rewrite list_insert_insert_eq. }
  cbn [run_op] in Es. apply no_result_Some in Es. rewrite Es. cbn [deref mbind result_bind].
  assert (exists c3, (if is_pos_2d ub then
            x ← at_ (Batch.u_pos ub) (i + Batch.u_n_tokens ub * 2)%nat;
            y ← at_ (Batch.u_pos ub) (i + Batch.u_n_tokens ub)%nat;
            deref (ext_set c2 idx (mk_ext x y))
          else Ok c2) = Ok (E := kv_error) c3 /\
          rep c3 (<[idx := mk_cell (t_pos t) (default (c_ext (emptied x)) (t_ext t)) 0 ∅]> l) b) as (c3 & -> & HR3).
  { destruct (is_pos_2d ub).
    - destruct He as (ex & ey & Hex & Hey & ->). rewrite (at_lookup _ _ _ Hex), (at_lookup _ _ _ Hey).
      cbn [mbind result_bind default].
      destruct (ext_set_sim idx (mk_ext ex ey) c2 _ b
        (<[idx := mk_cell (t_pos t) (mk_ext ex ey) 0 ∅]> l) b false HR2) as (c3 & Ee & HR3).
      { cbn [spec_op]. rewrite list_lookup_insert_eq by done. bind_simpl. cbn.
        by rewrite list_insert_insert_eq. }
      cbn [run_op] in Ee. apply no_result_Some in Ee. rewrite Ee. eauto.
    - rewrite He. eauto. }
  cbn [mbind result_bind]. rewrite Hids. cbn [mbind result_bind].
  replace (1 <? allocation_group_size k)%nat with false by (symmetry; apply Nat.ltb_ge; lia). cbn [andb].
  destruct (add_owners_rep c3 _ b (allocation_seq_heads k) idx
    (mk_cell (t_pos t) (default (c_ext (emptied x)) (t_ext t)) 0 ∅) (t_ids t) HR3) as (c4 & -> & HR4);
    [by apply list_lookup_insert_eq|simpl; lia|done|done|simpl; set_solver|].
  cbn [mbind result_bind fst snd]. eexists. split; [done|].
  rewrite list_insert_insert_eq in HR4. cbn [c_pos c_ext c_shift c_seq] in HR4. rewrite (left_id_L ∅ (∪)) in HR4.
  split; [|done]. apply cache_rep_alloc; [|apply (ck_alloc _ _ _ HC)].
  assert (set_cell_at ls st idx (placed t x) = <[st := (<[idx := placed t x]> l, b)]> ls) as ->.
  { unfold set_cell_at. apply list_eq. intros j. destruct (decide (j = st)) as [->|Hj].
    - rewrite list_lookup_alter_eq, Hst, list_lookup_insert_eq by (by eapply lookup_lt_Some). done.
    - by rewrite list_lookup_alter_ne, list_lookup_insert_ne by done. }
  assert (with_streams k (<[st := c4]> (v_cells k)) (v_heads k) = set_stream k st c4 h) as ->.
  { unfold set_stream. by rewrite (list_insert_id (v_heads k)). }
  eapply cache_rep_set; [done|exact HR4| |done]. simpl. by rewrite length_insert.
Qed.

(** ** All tokens *)

(** The stream and the cell of token [j] of a slot with [m] tokens in each stream. *)
Definition slot_pos (si : slot_info) (m j : nat) : option (nat * nat) :=
  st ← strm si !! (j / m)%nat;
  row ← idxs si !! (j / m)%nat;
  idx ← row !! (j mod m)%nat;
  Some (st, idx).

(** The token, among the first [t], that goes to a cell. *)
Definition token_at (si : slot_info) (m t st idx : nat) : option nat :=
  head (filter (fun j => slot_pos si m j = Some (st, idx)) (List.seq 0 t)).

(** The slot can be filled: rows of [m] different cells of the cache that may be
    overwritten. *)
Record slot_ok (ls : list spec) (si : slot_info) (m : nat) : Prop := {
  sk_size : (0 < m)%nat /\ (0 < length (strm si))%nat /\ length (idxs si) = length (strm si);
  sk_rows : Forall (fun row => length row = m) (idxs si);
  sk_cells : forall j, (j < length (strm si) * m)%nat -> exists st idx x,
    slot_pos si m j = Some (st, idx) /\ cell_at ls st idx = Some x /\ replaceable x;
  sk_inj : forall j1 j2 p, slot_pos si m j1 = Some p -> slot_pos si m j2 = Some p -> j1 = j2;
}.

Lemma token_at_S si m t st idx :
  token_at si m (S t) st idx =
    match token_at si m t st idx with
    | Some j => Some j
    | None => if decide (slot_pos si m t = Some (st, idx)) then Some t else None
    end.
Proof.
  unfold token_at. rewrite seq_S, filter_app. cbn [Nat.add].
  destruct (filter _ (List.seq 0 t)) as [|j l]; [|done]. cbn [app head]. rewrite filter_cons. by case_decide.
Qed.

Lemma token_at_Some si m t st idx j :
  token_at si m t st idx = Some j -> (j < t)%nat /\ slot_pos si m j = Some (st, idx).
Proof.
  unfold token_at. intros H%head_Some_elem_of. apply list_elem_of_filter in H as [? H%elem_of_seq]. split; [lia|done].
Qed.

Lemma div_mod_at s m ii : (ii < m)%nat -> ((s * m + ii) / m = s /\ (s * m + ii) mod m = ii)%nat.
Proof.
  intros Hi. split; symmetry; [apply (Nat.div_unique _ _ _ ii)|apply (Nat.mod_unique _ _ s)]; lia.
Qed.

Section Place.
  Context (n : nat) (k : kv_cache) (ls : list spec) (ub : llama_ubatch) (si : slot_info) (m : nat).
  Context (tok : nat -> token).
  Context (HC : cache_rep n k ls) (Hg : (allocation_group_size k <= 1)%nat) (HS : slot_ok ls si m).
  Context (Htok : forall j, (j < length (strm si) * m)%nat -> token_is ub j (tok j)).

Definition placed_at (t st idx : nat) (x : cell) : cell :=
  match token_at si m t st idx with Some j => placed (tok j) x | None => x end.

(** The largest positions overwritten by the first [t] tokens. *)
Definition removed (t : nat) : list Z :=
  foldl (fun r j =>
    match slot_pos si m j with
    | Some (st, idx) => match cell_at ls st idx with Some x => overwrite r x | None => r end
    | None => r
    end) (replicate (Z.to_nat LLAMA_MAX_SEQ) (-1)) (List.seq 0 t).

Lemma removed_S t st idx x :
  slot_pos si m t = Some (st, idx) -> cell_at ls st idx = Some x -> removed (S t) = overwrite (removed t) x.
Proof. intros Hp Hx. unfold removed. rewrite seq_S, foldl_app. simpl. by rewrite Hp, Hx. Qed.

Lemma length_removed t : length (removed t) = Z.to_nat LLAMA_MAX_SEQ.
Proof.
  unfold removed. induction (List.seq 0 t) as [|j l IH] using rev_ind; [apply length_replicate|].
  rewrite foldl_app. cbn [foldl]. destruct (slot_pos si m j) as [[st idx]|]; [|done].
  destruct (cell_at ls st idx); [|done]. by rewrite length_overwrite.
Qed.

Definition place_inv (t : nat) (kr : kv_cache * list Z) : Prop :=
  same_rest k kr.1 /\ kr.2 = removed t /\ exists ls1, cache_rep n kr.1 ls1 /\ snd <$> ls1 = snd <$> ls /\
    forall st idx, cell_at ls1 st idx = placed_at t st idx <$> cell_at ls st idx.

Lemma place_step t k1 r1 st idx :
  (t < length (strm si) * m)%nat -> slot_pos si m t = Some (st, idx) -> place_inv t (k1, r1) ->
  exists kr2, place_token k1 r1 ub t st idx = Ok kr2 /\ place_inv (S t) kr2.
Proof.
  intros Ht Hp (Hsame & Hr & ls1 & HC1 & Hsnd & Hcells). cbn [fst snd] in *. subst r1.
  destruct (sk_cells _ _ _ HS t Ht) as (st' & idx' & x & Hp' & Hx & Hrep). rewrite Hp in Hp'. simplify_eq.
  assert (Hno : token_at si m t st' idx' = None).
  { destruct (token_at si m t st' idx') as [j|] eqn:E; [|done]. apply token_at_Some in E as [Hj Hpj].
    pose proof (sk_inj _ _ _ HS _ _ _ Hp Hpj). lia. }
  assert (Hx1 : cell_at ls1 st' idx' = Some x).
  { rewrite Hcells, Hx. cbn. unfold placed_at. by rewrite Hno. }
  destruct (place_token_rep n k1 ls1 (removed t) ub t (tok t) st' idx' x HC1) as (k2 & E & HC2 & Hc2 & Hs2 & Hh2);
    [|done|done|apply length_removed|by apply Htok|].
  { destruct Hsame as (Hc & _). unfold config in Hc. simplify_eq. lia. }
  exists (k2, overwrite (removed t) x). split; [done|]. split_and!.
  - destruct Hsame as (? & ? & ?). split_and!; cbn [fst]; congruence.
  - simpl. by rewrite (removed_S _ _ _ _ Hp Hx).
  - exists (set_cell_at ls1 st' idx' (placed (tok t) x)). split; [done|]. split.
    { rewrite <- Hsnd. unfold set_cell_at. apply list_eq. intros j. rewrite !list_lookup_fmap.
      destruct (decide (j = st')) as [->|Hj].
      - rewrite list_lookup_alter_eq. by rewrite <- option_fmap_compose.
      - by rewrite list_lookup_alter_ne. }
    intros st idx. rewrite (cell_at_set _ _ _ x) by done. unfold placed_at. rewrite token_at_S.
    destruct (decide ((st, idx) = (st', idx'))) as [[= -> ->]|Hne].
    + rewrite Hx, Hno. cbn [fmap option_fmap option_map]. by rewrite decide_True by done.
    + rewrite Hcells. destruct (cell_at ls st idx) as [y|]; [|done].
      cbn [fmap option_fmap option_map]. unfold placed_at.
      destruct (token_at si m t st idx); [done|]. rewrite decide_False; [done|]. congruence.
Qed.

Lemma place_tokens_rep :
  exists kr, place_tokens k si m ub = Ok kr /\ place_inv (length (strm si) * m) kr.
Proof.
  destruct (sk_size _ _ _ HS) as (Hm & Hns & Hli). unfold place_tokens, slot_n_stream.
  apply (for_total (fun s => place_inv (s * m))).
  2: { split; [done|]. split; [done|]. exists ls. split; [done|]. split; [done|]. intros st idx.
       unfold placed_at, token_at. cbn. by destruct (cell_at ls st idx). }
  intros s kr Hs Hinv. destruct (lookup_lt_is_Some_2 (strm si) s Hs) as [st Hst].
  destruct (lookup_lt_is_Some_2 (idxs si) s) as [row Hrow]; [lia|].
  pose proof (Forall_lookup_1 _ _ _ _ (sk_rows _ _ _ HS) Hrow) as Hlr. cbn beta in Hlr.
  rewrite (at_lookup _ _ _ Hst). cbn [mbind result_bind].
  replace (S s * m)%nat with (s * m + m)%nat by lia.
  apply (for_total (fun ii => place_inv (s * m + ii))); [|by rewrite Nat.add_0_r].
  intros ii [k1 r1] Hii Hinv1. rewrite (at_lookup _ _ _ Hrow). cbn [mbind result_bind].
  destruct (lookup_lt_is_Some_2 row ii) as [idx Hidx]; [lia|].
  rewrite (at_lookup _ _ _ Hidx). cbn [mbind result_bind fst snd]. rewrite Nat.add_succ_r.
  apply place_step; [nia| |done]. unfold slot_pos.
  destruct (div_mod_at s m ii) as [-> ->]; [lia|].
  rewrite Hst, Hrow. bind_simpl. rewrite Hidx. done.
Qed.
End Place.

(** ** The purge *)

(** Sequence [s] leaves a cell of its stream with a position up to the one overwritten. *)
Definition drop_old (sts : list nat) (rmv : list Z) (st : nat) (x : cell) (s : Z) : cell :=
  match rmv !! Z.to_nat s with
  | Some m =>
      if negb (m =? -1) && bool_decide (sts !! Z.to_nat s = Some st) && bool_decide (s ∈ c_seq x) &&
         (c_pos x <=? m)
      then leave s x else x
  | None => x
  end.

Definition purged (sts : list nat) (rmv : list Z) (st : nat) (x : cell) : cell :=
  foldl (drop_old sts rmv st) x (seqZ 0 LLAMA_MAX_SEQ).

(** What the purge relies on: a sequence with a position to purge has a stream. *)
Definition purgeable (k : kv_cache) (rmv : list Z) : Prop :=
  length rmv = Z.to_nat LLAMA_MAX_SEQ /\
  forall i m, rmv !! i = Some m -> m = -1 \/ (0 <= m < 2 ^ 31 - 1 /\ (i < length (seq_to_stream k))%nat).

Lemma min_pos_le l i x s : l !! i = Some x -> s ∈ c_seq x -> min_pos l s <= c_pos x.
Proof.
  intros Hx Hs. assert (Hin : c_pos x ∈ positions l s).
  { apply list_elem_of_fmap. exists x. split; [done|]. apply list_elem_of_filter. split; [done|].
    by eapply list_elem_of_lookup_2. }
  unfold min_pos. destruct (list_min (positions l s)) as [m|] eqn:E; simpl.
  - apply list_min_Some in E as [_ Hm]. by apply Hm.
  - apply list_min_None in E. rewrite E in Hin. by apply elem_of_nil in Hin.
Qed.

Lemma change_cells_pure (g : cell_change) (f : cell -> cell) l (b : bool) :
  (forall x, g x = Some (f x, false)) -> change_cells g (l, b) = Some (f <$> l, b).
Proof.
  intros Hg. unfold change_cells. cbn [fst snd].
  assert (mapM g l = Some ((fun x => (f x, false)) <$> l)) as ->.
  { apply mapM_Some. induction l; constructor; auto. }
  bind_simpl. rewrite <- list_fmap_compose. f_equal. f_equal.
  replace (existsb snd _) with false; [by rewrite orb_false_r|]. symmetry. clear. by induction l as [|x l IH].
Qed.

Definition drop_range (lo m s : Z) (x : cell) : cell :=
  if in_range lo (m + 1) x && bool_decide (s ∈ c_seq x) then leave s x else x.

(** The cells of the stream of [s] change, all others stay. *)
Lemma cell_at_insert ls st (lh : spec) (f : cell -> cell) b st' idx :
  (ls !! st : option spec) = Some lh ->
  cell_at (<[st := (f <$> lh.1, b)]> ls) st' idx =
    (if decide (st' = st) then f else id) <$> cell_at ls st' idx.
Proof.
  intros Hst. unfold cell_at. destruct (decide (st' = st)) as [->|Hne].
  - rewrite list_lookup_insert_eq by (by eapply lookup_lt_Some). rewrite Hst. cbn. apply list_lookup_fmap.
  - rewrite list_lookup_insert_ne by done. by rewrite option_fmap_id.
Qed.

Lemma purge_step n rmv k ls s :
  cache_rep n k ls -> purgeable k rmv -> 0 <= s < LLAMA_MAX_SEQ ->
  exists k' ls', purge rmv k s = Ok k' /\ cache_rep n k' ls' /\ config k' = config k /\
    snd <$> ls' = snd <$> ls /\
    forall st idx, cell_at ls' st idx =
      (fun x => drop_old (seq_to_stream k) rmv st x s) <$> cell_at ls st idx.
Proof.
  intros HC [Hl Hrmv] Hs. destruct (lookup_lt_is_Some_2 rmv (Z.to_nat s)) as [m Hm]; [lia|].
  unfold purge, drop_old. rewrite (at_lookup _ _ _ Hm), Hm. cbn [mbind result_bind].
  destruct (Z.eqb_spec m (-1)) as [He|Hne].
  { exists k, ls. split_and!; [done..|]. intros st idx. cbn [negb andb]. by destruct (cell_at ls st idx). }
  destruct (Hrmv _ _ Hm) as [|[Hr Hlt]]; [done|].
  replace (s <? Z.of_nat (length (seq_to_stream k))) with true by lia. cbn [ensure mbind result_bind negb andb].
  destruct (lookup_lt_is_Some_2 _ _ Hlt) as [st Hst].
  assert (Hs' : stream_of_seq (seq_to_stream k) s = Some st).
  { unfold stream_of_seq. by replace (0 <=? s) with true by lia. }
  destruct (stream_lookup _ _ _ _ _ HC Hs') as (E & _ & _ & lh & Hlh). rewrite E. cbn [mbind result_bind].
  destruct (cache_rep_stream _ _ _ _ _ HC Hlh) as (c & h & Hc & _ & HR & _ & _ & _).
  rewrite (at_lookup _ _ _ Hc). cbn [mbind result_bind]. rewrite (seq_pos_min_spec _ _ _ _ HR Hs).
  fold (min_pos lh.1 s). cbn [deref mbind result_bind].
  assert (Hout : forall st' idx x, cell_at ls st' idx = Some x -> c_pos x < min_pos lh.1 s ->
    bool_decide (seq_to_stream k !! Z.to_nat s = Some st') && bool_decide (s ∈ c_seq x) = false).
  { intros st' idx x Hx Hp. apply andb_false_iff. destruct (decide (st' = st)) as [->|Hn];
      [right|left; apply bool_decide_eq_false_2; congruence].
    apply bool_decide_eq_false_2. intros Hin. unfold cell_at in Hx. rewrite Hlh in Hx.
    pose proof (min_pos_le _ _ _ _ Hx Hin). lia. }
  destruct (Z.leb_spec (min_pos lh.1 s) m) as [Hlo|Hlo].
  - unfold int_. replace (in_i32 (m + 1)) with true by (unfold in_i32; lia). cbn [mbind result_bind].
    destruct (seq_rm_ok n k ls s (min_pos lh.1 s) (m + 1)
      (<[st := (drop_range (min_pos lh.1 s) m s <$> lh.1, lh.2)]> ls)) as (k' & Ek & HC' & _ & Hc'); [lia|done| |].
    { unfold on_stream. rewrite Hs'. bind_simpl. rewrite Hlh. bind_simpl.
      destruct lh as [l b]. rewrite (change_cells_pure _ (drop_range (min_pos l s) m s)); [done|].
      intros x. unfold of_range, drop_range, rm_change. cbn [fst]. by destruct (_ && _). }
    exists k', (<[st := (drop_range (min_pos lh.1 s) m s <$> lh.1, lh.2)]> ls). split_and!; [done|done|done| |].
    { rewrite list_fmap_insert. cbn [snd]. apply list_insert_id. rewrite list_lookup_fmap. exact (f_equal (fmap snd) Hlh). }
    intros st' idx. rewrite (cell_at_insert _ _ lh) by done.
    destruct (cell_at ls st' idx) as [x|] eqn:Hx; [|done]. cbn. f_equal.
    destruct (decide (st' = st)) as [->|Hn].
    + rewrite (bool_decide_eq_true_2 _ Hst). cbn [andb]. unfold drop_range, in_range.
      case_bool_decide as Hin; [|by rewrite andb_false_r].
      unfold cell_at in Hx. rewrite Hlh in Hx. pose proof (min_pos_le _ _ _ _ Hx Hin).
      destruct (rep_ok _ _ _ HR _ _ Hx) as (Hok & _). pose proof (rep_at_seq _ _ _ HR _ _ _ Hx Hin).
      assert (p0_of (min_pos lh.1 s) <= c_pos x) by (unfold p0_of; destruct (Z.ltb_spec (min_pos lh.1 s) 0); lia).
      unfold p1_of. replace (m + 1 <? 0) with false by lia. rewrite andb_true_r. cbn [andb].
      replace (p0_of (min_pos lh.1 s) <=? c_pos x) with true by lia. cbn [andb].
      destruct (Z.ltb_spec (c_pos x) (m + 1)), (Z.leb_spec (c_pos x) m); done || lia.
    + rewrite (bool_decide_eq_false_2 (seq_to_stream k !! Z.to_nat s = Some st')) by congruence. done.
  - exists k, ls. split_and!; [done..|]. intros st' idx.
    destruct (cell_at ls st' idx) as [x|] eqn:Hx; [|done]. cbn. f_equal.
    destruct (Z.leb_spec (c_pos x) m); [|by rewrite andb_false_r].
    rewrite andb_true_r. by rewrite (Hout _ _ _ Hx) by lia.
Qed.

Lemma purge_rep n rmv k ls :
  cache_rep n k ls -> purgeable k rmv ->
  exists k' ls', foldM (purge rmv) k (seqZ 0 LLAMA_MAX_SEQ) = Ok k' /\ cache_rep n k' ls' /\
    config k' = config k /\ snd <$> ls' = snd <$> ls /\
    forall st idx, cell_at ls' st idx = purged (seq_to_stream k) rmv st <$> cell_at ls st idx.
Proof.
  intros HC Hp.
  destruct (foldM_total (fun pre k' => exists ls', cache_rep n k' ls' /\ config k' = config k /\
    snd <$> ls' = snd <$> ls /\
    forall st idx, cell_at ls' st idx =
      (fun x => foldl (drop_old (seq_to_stream k) rmv st) x pre) <$> cell_at ls st idx)
    (purge rmv) (seqZ 0 LLAMA_MAX_SEQ) k) as (k' & E & ls' & HC' & Hc' & Hsnd & Hcells).
  - intros pre s k1 Hpre (ls1 & HC1 & Hc1 & Hsnd1 & Hcells1).
    assert (Hs : 0 <= s < LLAMA_MAX_SEQ).
    { assert (Hin : s ∈ seqZ 0 LLAMA_MAX_SEQ) by (destruct Hpre as [z ->]; set_solver).
      apply elem_of_seqZ in Hin. lia. }
    assert (Hst : seq_to_stream k1 = seq_to_stream k) by (unfold config in Hc1; congruence).
    destruct (purge_step n rmv k1 ls1 s HC1) as (k2 & ls2 & E2 & HC2 & Hc2 & Hsnd2 & Hcells2); [|done|].
    { unfold purgeable. by rewrite Hst. }
    exists k2. split; [done|]. exists ls2. split_and!; [done|congruence|congruence|]. intros st idx.
    rewrite Hcells2, Hcells1, Hst. destruct (cell_at ls st idx) as [x|]; [|done]. cbn. by rewrite foldl_app.
  - exists ls. split_and!; [done..|]. intros st idx. by destruct (cell_at ls st idx).
  - exists k', ls'. done.
Qed.

(** Every sequence in the cells has a stream. *)
Definition owned (k : kv_cache) (ls : list spec) : Prop :=
  forall st idx x s, cell_at ls st idx = Some x -> s ∈ c_seq x ->
  (Z.to_nat s < length (seq_to_stream k))%nat.

Lemma cell_at_rep n k ls st idx x : cache_rep n k ls -> cell_at ls st idx = Some x -> cell_ok x /\ (idx < n)%nat.
Proof.
  intros HC Hx. unfold cell_at in Hx. destruct (ls !! st) as [lh|] eqn:Hst; [|done].
  destruct (cache_rep_stream _ _ _ _ _ HC Hst) as (c & h & _ & _ & HR & Hl & _).
  split; [by eapply rep_ok|]. rewrite <- Hl. by eapply lookup_lt_Some.
Qed.

Lemma removed_purgeable n k ls si m t :
  cache_rep n k ls -> search_ok k ls -> owned k ls -> purgeable k (removed ls si m t).
Proof.
  intros HC HS Ho. split; [apply length_removed|]. unfold removed.
  induction (List.seq 0 t) as [|j l IH] using rev_ind; intros i q Hq.
  - apply lookup_replicate in Hq as [-> _]. by left.
  - rewrite foldl_app in Hq. cbn [foldl] in Hq. revert IH Hq. generalize (foldl (fun r j =>
      match slot_pos si m j with
      | Some (st, idx) => match cell_at ls st idx with Some x => overwrite r x | None => r end
      | None => r
      end) (replicate (Z.to_nat LLAMA_MAX_SEQ) (-1)) l) as r. intros r IH Hq.
    destruct (slot_pos si m j) as [[st idx]|]; [|by apply IH].
    destruct (cell_at ls st idx) as [x|] eqn:Hx; [|by apply IH].
    destruct (cell_at_rep _ _ _ _ _ _ HC Hx) as [(Hr & _) _].
    assert (c_pos x < 2 ^ 31 - 1).
    { pose proof (so_room _ _ HS) as Hroom. unfold cell_at in Hx.
      destruct (ls !! st) as [lh|] eqn:Hst; [|done].
      pose proof (Forall_lookup_1 _ _ _ _ Hroom Hst) as Hf. by apply (Forall_lookup_1 _ _ _ _ Hf Hx). }
    unfold overwrite in Hq. destruct (Z.eqb_spec (c_pos x) (-1)); [by apply IH|].
    destruct (elements (c_seq x)) as [|s [|]] eqn:He; [by apply IH| |by apply IH].
    pose proof (elements_singleton _ _ He) as Hb.
    destruct (decide (i = Z.to_nat s)) as [->|Hi]; [|rewrite list_lookup_insert_ne in Hq by done; by apply IH].
    apply list_lookup_insert_Some in Hq as [(_ & <- & Hlt)|[]]; [|done].
    destruct (lookup_lt_is_Some_2 r _ Hlt) as [old Hold]. rewrite Hold. cbn [default].
    assert ((Z.to_nat s < length (seq_to_stream k))%nat) by (eapply Ho; [done|rewrite Hb; set_solver]).
    destruct (IH _ _ Hold) as [->|[? _]]; right; unfold default, id; lia.
Qed.

(** The heads move past the last cell of each row. *)
Lemma move_heads_rep n k0 ls0 k ls si m :
  cache_rep n k0 ls0 -> cache_rep n k ls -> length ls = length ls0 -> slot_ok ls0 si m -> NoDup (strm si) ->
  exists k', foldM (move_head si) k (List.seq 0 (slot_n_stream si)) = Ok k' /\ cache_rep n k' ls /\
    config k' = config k /\ forall s st row i, strm si !! s = Some st -> idxs si !! s = Some row ->
      last row = Some i -> v_heads k' !! st = Some (S i).
Proof.
  intros HC0 HC Hlen HS Hnd. destruct (sk_size _ _ _ HS) as (Hm & _ & Hli). unfold slot_n_stream.
  destruct (for_total (fun j k' => cache_rep n k' ls /\ config k' = config k /\
    forall s st row i, (s < j)%nat -> strm si !! s = Some st -> idxs si !! s = Some row ->
      last row = Some i -> v_heads k' !! st = Some (S i))
    (move_head si) (length (strm si)) k) as (k' & E & HC' & Hc' & Hh').
  - intros s k1 Hs (HC1 & Hc1%(conj I) & Hh1). destruct (lookup_lt_is_Some_2 (strm si) s Hs) as [st Hst].
    destruct (lookup_lt_is_Some_2 (idxs si) s) as [row Hrow]; [lia|].
    pose proof (Forall_lookup_1 _ _ _ _ (sk_rows _ _ _ HS) Hrow) as Hlr. cbn beta in Hlr.
    destruct (last row) as [i|] eqn:Hlast; [|apply last_None in Hlast; subst row; simpl in Hlr; lia].
    rewrite last_lookup, Hlr in Hlast.
    destruct (sk_cells _ _ _ HS (s * m + (m - 1))%nat) as (st' & i' & x & Hp & Hx & _); [nia|].
    unfold slot_pos in Hp. destruct (div_mod_at s m (m - 1)) as [E1 E2]; [lia|].
    rewrite E1, E2, Hst, Hrow in Hp. cbn in Hp. replace (pred m) with (m - 1)%nat in Hlast by lia.
    rewrite Hlast in Hp. cbn in Hp. simplify_eq.
    destruct (cell_at_rep _ _ _ _ _ _ HC0 Hx) as [_ Hi].
    assert (Hst' : (st' < length ls)%nat).
    { unfold cell_at in Hx. destruct (ls0 !! st') eqn:El; [|done]. rewrite Hlen. by eapply lookup_lt_Some. }
    destruct (lookup_lt_is_Some_2 (v_heads k1) st') as [h Hh]; [by rewrite (ck_heads _ _ _ HC1)|].
    exists (with_streams k1 (v_cells k1) (<[st' := S i']> (v_heads k1))).
    unfold move_head. rewrite (at_lookup _ _ _ Hst), (at_lookup _ _ _ Hrow). cbn [mbind result_bind].
    rewrite last_lookup. replace (pred (length row)) with (length row - 1)%nat by lia. rewrite Hlast.
    cbn [deref mbind result_bind]. rewrite (at_lookup _ _ _ Hh). cbn [mbind result_bind]. split; [done|].
    split_and!; [|apply Hc1|].
    + destruct HC1. split; cbn [other v_cells v_heads n_stream seq_to_stream n_seq_max allocation_seq_heads with_streams];
        rewrite ?length_insert; try done. apply Forall_insert; [done|lia].
    + intros s1 st1 row1 i1 Hs1 Hst1 Hrow1 Hl1. cbn [v_heads with_streams].
      destruct (decide (s1 = s)) as [->|Hne].
      * rewrite Hst in Hst1. rewrite Hrow in Hrow1. injection Hst1 as <-. injection Hrow1 as <-.
        rewrite last_lookup in Hl1. replace (pred (length row)) with (length row - 1)%nat in Hl1 by lia.
        rewrite Hlast in Hl1. injection Hl1 as <-. apply list_lookup_insert_eq. by eapply lookup_lt_Some.
      * assert (st1 <> st') by (intros ->; apply Hne; by eapply NoDup_lookup).
        rewrite list_lookup_insert_ne by done. eapply Hh1; [|done..]. lia.
  - split_and!; [done|done|]. intros; lia.
  - exists k'. split_and!; [done|done|done|]. intros s st row i Hst. apply Hh'; [|done]. by eapply lookup_lt_Some.
Qed.

(** ** Placing in the slot found *)

(** The sequences of the ubatch have streams of their own. *)
Definition own_streams (k : kv_cache) (ub : llama_ubatch) : Prop :=
  NoDup (omap (stream_of_ub k ub) (List.seq 0 (n_seqs_of k ub))).

Lemma strm_eq (k : kv_cache) (ub : llama_ubatch) (l : list nat) :
  length l = n_seqs_of k ub ->
  (forall s, (s < n_seqs_of k ub)%nat -> exists st, stream_of_ub k ub s = Some st /\ l !! s = Some st) ->
  l = omap (stream_of_ub k ub) (List.seq 0 (n_seqs_of k ub)).
Proof.
  intros Hl. rewrite <- Hl. clear Hl. induction l as [|st l IH] using rev_ind; [done|]. intros Hs.
  rewrite length_app, Nat.add_1_r, seq_S, omap_app. f_equal.
  - apply IH. intros s Hlt. destruct (Hs s) as (st' & ? & Hst); [rewrite length_app; simpl; lia|].
    rewrite lookup_app_l in Hst by done. eauto.
  - destruct (Hs (length l)) as (st' & E & Hst); [rewrite length_app; simpl; lia|].
    rewrite lookup_app_r, Nat.sub_diag in Hst by lia. injection Hst as ->. simpl. by rewrite E.
Qed.

Lemma found_slot_ok n k ls ub cont si :
  cache_rep n k ls -> search_ok k ls -> ubatch_ok k ub -> own_streams k ub ->
  find_slot k ub cont = Ok si -> slot_empty si = false ->
  slot_ok ls si (n_tokens_of k ub) /\ NoDup (strm si) /\
  Batch.u_n_tokens ub = (length (strm si) * n_tokens_of k ub)%nat.
Proof.
  intros HC HS HU Hown Hf Hne.
  destruct (find_slot_spec n k ls ub cont HC HS HU) as (si' & Hf' & _ & Hspec).
  rewrite Hf in Hf'. injection Hf' as <-. destruct (Hspec Hne) as (Hli & Hls & Hrows).
  destruct (tokens_of_pos k ub HU) as (Hns & Hm & Htot).
  assert (Hnd : NoDup (strm si)).
  { unfold own_streams in Hown. rewrite <- (strm_eq k ub (strm si)) in Hown; [done|done|].
    intros s Hs. destruct (Hrows s Hs) as (st & lh & row & ? & _ & ? & _). eauto. }
  split_and!; [|done|by rewrite Hls].
  revert Hm Hrows. generalize (n_tokens_of k ub) as m. intros m Hm Hrows.
  assert (Hat : forall j, (j < length (strm si) * m)%nat -> (j / m < n_seqs_of k ub)%nat).
  { intros j Hj. rewrite <- Hls. by apply Nat.Div0.div_lt_upper_bound; lia. }
  split.
  - lia.
  - apply Forall_lookup. intros s row Hrow. pose proof (lookup_lt_Some _ _ _ Hrow).
    destruct (Hrows s) as (st & lh & row' & _ & _ & _ & Hrow' & (Hl & _) & _); [lia|].
    rewrite Hrow in Hrow'. by injection Hrow' as ->.
  - intros j Hj. destruct (Hrows (j / m)%nat (Hat j Hj)) as (st & lh & row & _ & Hlh & Hst & Hrow & (Hl & _ & Hc & _) & _).
    destruct (lookup_lt_is_Some_2 row (j mod m)%nat) as [idx Hidx]; [rewrite Hl; apply Nat.mod_upper_bound; lia|].
    destruct (Forall_lookup_1 _ _ _ _ Hc Hidx) as (x & Hx & Hu).
    exists st, idx, x. unfold slot_pos, cell_at. rewrite Hst, Hrow. bind_simpl. rewrite Hidx, Hlh.
    split_and!; [done|done|by eapply usable_replaceable].
  - intros j1 j2 [st idx] H1 H2. unfold slot_pos in H1, H2.
    apply bind_Some_inv in H1 as (st1 & Hs1 & H1). apply bind_Some_inv in H1 as (row1 & Hr1 & H1).
    apply bind_Some_inv in H1 as (idx1 & Hi1 & [= -> ->]).
    apply bind_Some_inv in H2 as (st2 & Hs2 & H2). apply bind_Some_inv in H2 as (row2 & Hr2 & H2).
    apply bind_Some_inv in H2 as (idx2 & Hi2 & [= -> ->]).
    pose proof (NoDup_lookup _ _ _ _ Hnd Hs1 Hs2) as Hd. rewrite Hd in Hr1. rewrite Hr1 in Hr2. injection Hr2 as ->.
    pose proof (lookup_lt_Some _ _ _ Hs2).
    destruct (Hrows (j2 / m)%nat) as (st' & lh & row' & _ & _ & _ & Hrow' & (_ & Hndr & _) & _); [lia|].
    rewrite Hr1 in Hrow'. injection Hrow' as ->.
    pose proof (NoDup_lookup _ _ _ _ Hndr Hi1 Hi2) as Hmod.
    rewrite (Nat.div_mod_eq j1 m), (Nat.div_mod_eq j2 m). by rewrite Hd, Hmod.
Qed.

(** The run of [apply_ubatch] in a slot. *)
Lemma apply_ubatch_rep n k ls ub si m tok :
  cache_rep n k ls -> search_ok k ls -> owned k ls -> slot_ok ls si m -> NoDup (strm si) ->
  Batch.u_n_tokens ub = (length (strm si) * m)%nat ->
  (forall j, (j < Batch.u_n_tokens ub)%nat -> token_is ub j (tok j)) ->
  exists k' ls', apply_ubatch k si ub = Ok k' /\ cache_rep n k' ls' /\ config k' = config k /\
    snd <$> ls' = snd <$> ls /\
    (forall st idx, cell_at ls' st idx =
       (fun x => purged (seq_to_stream k) (removed ls si m (Batch.u_n_tokens ub)) st
                   (placed_at si m tok (Batch.u_n_tokens ub) st idx x)) <$> cell_at ls st idx) /\
    (forall s st row i, strm si !! s = Some st -> idxs si !! s = Some row -> last row = Some i ->
       v_heads k' !! st = Some (S i)).
Proof.
  intros HC HS Ho HK Hnd Htot Htok. rewrite Htot in Htok. unfold apply_ubatch. rewrite (ck_other _ _ _ HC).
  destruct (sk_size _ _ _ HK) as (Hm & Hns & Hli).
  assert (slot_size si = Ok m) as ->.
  { unfold slot_size. rewrite Hli, Nat.eqb_refl. cbn [ensure mbind result_bind].
    destruct (lookup_lt_is_Some_2 (idxs si) 0%nat) as [row Hrow]; [lia|].
    rewrite (at_lookup _ _ _ Hrow). cbn [mbind result_bind].
    by rewrite (Forall_lookup_1 _ _ _ _ (sk_rows _ _ _ HK) Hrow). }
  cbn [mbind result_bind]. unfold slot_n_stream at 1. rewrite Htot, Nat.eqb_refl. cbn [ensure mbind result_bind].
  destruct (place_tokens_rep n k ls ub si m tok HC (so_groups _ _ HS) HK Htok)
    as ([k1 r1] & -> & (Hc1 & _ & _) & Hr1 & ls1 & HC1 & Hsnd1 & Hcells1).
  cbn [mbind result_bind fst snd] in *. subst r1.
  assert (Hst1 : seq_to_stream k1 = seq_to_stream k) by (unfold config in Hc1; congruence).
  destruct (purge_rep n (removed ls si m (length (strm si) * m)) k1 ls1 HC1) as (k2 & ls2 & -> & HC2 & Hc2 & Hsnd2 & Hcells2).
  { unfold purgeable. rewrite Hst1. by eapply removed_purgeable. }
  cbn [mbind result_bind].
  assert (Hlen : length ls2 = length ls).
  { pose proof (f_equal length Hsnd1) as H1. pose proof (f_equal length Hsnd2) as H2.
    rewrite !length_fmap in H1, H2. etrans; [exact H2|exact H1]. }
  destruct (move_heads_rep n k ls k2 ls2 si m HC HC2 Hlen HK Hnd) as (k3 & E3 & HC3 & Hc3 & Hh3).
  unfold slot_n_stream in E3 |- *. exists k3, ls2. rewrite E3. split_and!; [done|done|congruence|congruence| |done].
  intros st idx. rewrite Hcells2, Hcells1, Hst1. by destruct (cell_at ls st idx).
Qed.

(** C4: placing a ubatch in the slot found for it, in a cache without structured allocation
    (groups of one cell: [so_groups]). The cell of each token holds its
    position, its 2D coordinates and exactly its sequences; a sequence that lost a
    cell to a token also leaves every other cell of its stream with a position up to
    the largest one it lost; all other cells are as before, the head of each stream
    is past the last cell of its row, and nothing fails. *)
Theorem slot_apply n k ls ub cont si tok :
  cache_rep n k ls -> search_ok k ls -> owned k ls -> ubatch_ok k ub -> own_streams k ub ->
  find_slot k ub cont = Ok si -> slot_empty si = false ->
  (forall j, (j < Batch.u_n_tokens ub)%nat -> token_is ub j (tok j)) ->
  exists k' ls', apply_ubatch k si ub = Ok k' /\ cache_rep n k' ls' /\ config k' = config k /\
    snd <$> ls' = snd <$> ls /\
    (forall st idx, cell_at ls' st idx =
       (fun x => purged (seq_to_stream k) (removed ls si (n_tokens_of k ub) (Batch.u_n_tokens ub)) st
                   (placed_at si (n_tokens_of k ub) tok (Batch.u_n_tokens ub) st idx x)) <$> cell_at ls st idx) /\
    (forall s st row i, strm si !! s = Some st -> idxs si !! s = Some row -> last row = Some i ->
       v_heads k' !! st = Some (S i)).
Proof.
  intros HC HS Ho HU Hown Hf Hne Htok.
  destruct (found_slot_ok _ _ _ _ _ _ HC HS HU Hown Hf Hne) as (HK & Hnd & Htot).
  by apply apply_ubatch_rep.
Qed.

End Float.

(** ** Example *)

Definition all_owned (k : kv_cache) (ls : list spec) : Prop :=
  Forall (fun lh : spec => Forall (fun x =>
    set_Forall (fun s => (Z.to_nat s < length (seq_to_stream k))%nat) (c_seq x)) lh.1) ls.

Lemma all_owned_ok k ls : all_owned k ls -> owned k ls.
Proof.
  intros Ha st idx x s Hx Hs. unfold cell_at in Hx. destruct (ls !! st) as [lh|] eqn:Hst; [|done].
  pose proof (Forall_lookup_1 _ _ _ _ Ha Hst) as Hf. pose proof (Forall_lookup_1 _ _ _ _ Hf Hx) as Hc. by apply Hc.
Qed.

Definition example_token (j : nat) : token := mk_token (Z.of_nat j) None [1].

Lemma example_owned : owned example_cache example_streams.
Proof. apply all_owned_ok. refine (bool_decide_eq_true_1 _ _). vm_compute. reflexivity. Qed.

Lemma example_own_streams : own_streams example_cache example_ub.
Proof. refine (bool_decide_eq_true_1 _ _). vm_compute. reflexivity. Qed.

Lemma example_tokens j : (j < Batch.u_n_tokens example_ub)%nat -> token_is example_ub j (example_token j).
Proof.
  intros Hj. destruct j as [|[|j]]; [| |simpl in Hj; lia];
    (split; [split; [done|vm_compute; split; done]|done|split; [done|split]];
     refine (bool_decide_eq_true_1 _ _); vm_compute; reflexivity).
Qed.

Definition example_slot : slot_info := mk_slot 1 1 [1%nat] [[0%nat; 1%nat]].

Lemma slot_apply_witness : exists k' ls', apply_ubatch example_cache example_slot example_ub = Ok k' /\
  cache_rep 4 k' ls' /\ config k' = config example_cache /\ snd <$> ls' = snd <$> example_streams /\
  (forall st idx, cell_at ls' st idx =
     (fun x => purged (seq_to_stream example_cache)
         (removed example_streams example_slot (n_tokens_of example_cache example_ub) (Batch.u_n_tokens example_ub)) st
         (placed_at example_slot (n_tokens_of example_cache example_ub) example_token
            (Batch.u_n_tokens example_ub) st idx x)) <$> cell_at example_streams st idx) /\
  (forall s st row i, strm example_slot !! s = Some st -> idxs example_slot !! s = Some row -> last row = Some i ->
     v_heads k' !! st = Some (S i)).
Proof.
  refine (slot_apply 4 _ _ _ true _ _ example_cache_rep example_search_ok example_owned example_ubatch_ok
    example_own_streams _ _ example_tokens); vm_compute; reflexivity.
Defined.

End KvApplyWf.
