(* ===== verification/KvPrepareWf.v ===== *)
(** The dry run of a batch ([prepare] in [KvSlot]): it finds the slots the ubatches
    get when they are placed one after the other, and puts every cell back. *)

From S2P Require Import Prelude.
From S2P Require Import KvCells.
From S2P Require Import Memory.
From S2P Require Import Batch.
From S2P Require Import KvCache.
From S2P Require Import KvCacheWf.
From S2P Require Import KvSlot.
From S2P Require Import KvSlotWf.
From S2P Require Import KvApplyWf.

Module KvPrepareWf.
Import Cells KvCache KvCacheWf KvSlot KvSlotWf KvApplyWf.

(** ** Restoring the cells of a row *)

Lemma spec_set_rows l row xs :
  NoDup row -> length xs = length row -> Forall cell_ok xs ->
  Forall (fun i => exists x, l !! i = Some x /\ c_shift x = 0) row ->
  exists l', spec_set l (zip row xs) = Some l' /\ length l' = length l /\
    (forall j i x, row !! j = Some i -> xs !! j = Some x -> l' !! i = Some x) /\
    (forall i, i ∉ row -> l' !! i = l !! i).
Proof.
  revert l xs. induction row as [|i row IH]; intros l xs Hnd Hl Hok Hrow.
  - exists l. by destruct xs.
  - destruct xs as [|x xs]; [done|]. apply NoDup_cons in Hnd as [Hi Hnd]. apply Forall_cons in Hok as [Hx Hok].
    apply Forall_cons in Hrow as [(y & Hy & Hsh) Hrow]. injection Hl as Hl.
    destruct (IH (<[i := x]> l) xs Hnd Hl Hok) as (l' & E & Hlen & Hin & Hout).
    { apply Forall_forall. intros j Hj. rewrite Forall_forall in Hrow. destruct (Hrow j Hj) as (z & Hz & ?).
      exists z. split; [|done]. rewrite list_lookup_insert_ne; [done|]. by intros ->. }
    exists l'. cbn [zip zip_with spec_set]. rewrite Hy. bind_simpl. rewrite Hsh, bool_decide_eq_true_2 by done.
    cbn [Z.eqb andb assert_]. bind_simpl. rewrite length_insert in Hlen. split_and!; [done|done| |].
    + intros [|j] i' x' Hj Hj'; simpl in Hj, Hj'; [|by eapply Hin]. injection Hj as <-. injection Hj' as <-.
      rewrite Hout by done. apply list_lookup_insert_eq. by eapply lookup_lt_Some.
    + intros i' Hi'. rewrite Hout by set_solver. rewrite list_lookup_insert_ne; [done|]. set_solver.
Qed.

(** The cells of a row are back when the others never changed. *)
Lemma restore_row c l1 b o l0 row xs :
  rep c l1 b -> NoDup row -> sized o (length row) -> snapshot o = xs ->
  Forall2 (fun idx x => l0 !! idx = Some x /\ c_shift x = 0) row xs -> Forall cell_ok xs ->
  length l1 = length l0 -> Forall (fun i => exists x, l1 !! i = Some x /\ c_shift x = 0) row ->
  (forall i, i ∉ row -> l1 !! i = l0 !! i) ->
  exists c', set_idxs c row o = Some c' /\ rep c' l0 b.
Proof.
  intros HR Hnd (Hp & He & Hs) Hsnap Hxs Hok Hlen Hrow Hout.
  destruct (spec_set_rows l1 row xs Hnd) as (l' & E & Hl' & Hin & Hout'); [by rewrite (Forall2_length _ _ _ Hxs)|done|done|].
  assert (l' = l0) as ->.
  { apply list_eq. intros i. destruct (decide (i ∈ row)) as [Hi|Hi]; [|by rewrite Hout', Hout].
    apply list_elem_of_lookup in Hi as [j Hj]. destruct (Forall2_lookup_l _ _ _ _ _ Hxs Hj) as (x & Hx & Hx0 & _).
    by rewrite (Hin j i x Hj Hx). }
  destruct (set_idxs_sim row o c l1 b l0 b false HR) as (c' & E' & HR').
  { cbn [spec_op]. rewrite Hp, He, Hs. rewrite !bool_decide_eq_true_2 by done. cbn [andb assert_]. bind_simpl.
    by rewrite Hsnap, E. }
  cbn [run_op] in E'. apply no_result_Some in E'. eauto.
Qed.

(** Two abstract caches with the same cells are equal. *)
Lemma stream_ext ls0 ls1 st (lh0 lh1 : spec) :
  (ls0 !! st : option spec) = Some lh0 -> (ls1 !! st : option spec) = Some lh1 -> lh0.2 = lh1.2 ->
  (forall idx, cell_at ls0 st idx = cell_at ls1 st idx) -> lh0 = lh1.
Proof.
  intros H0 H1 Hs Hc. destruct lh0 as [l0 b0], lh1 as [l1 b1]. simpl in Hs. subst b1. f_equal.
  apply list_eq. intros idx. specialize (Hc idx). unfold cell_at in Hc. by rewrite H0, H1 in Hc.
Qed.

Section Float.
Context {float : Type}.
Abbreviation llama_ubatch := (Batch.llama_ubatch float).

(** ** What is saved *)

Record saved (ls : list spec) (state : state_t) (heads : list nat) : Prop := {
  sv_heads : st_heads state = heads;
  sv_cells : length (st_cells state) = length (strm (st_sinfo state)) /\
    forall s st row (lh : spec), strm (st_sinfo state) !! s = Some st -> idxs (st_sinfo state) !! s = Some row ->
      (ls !! st : option spec) = Some lh -> exists o xs, st_cells state !! s = Some o /\
      sized o (length row) /\ snapshot o = xs /\
      Forall2 (fun idx x => lh.1 !! idx = Some x /\ c_shift x = 0) row xs;
}.

(** A slot of free cells. *)
Record free_slot (ls : list spec) (si : slot_info) (m : nat) : Prop := {
  fs_ok : slot_ok ls si m;
  fs_streams : NoDup (strm si);
  fs_rows : Forall NoDup (idxs si);
  fs_free : forall s st row i, strm si !! s = Some st -> idxs si !! s = Some row -> i ∈ row ->
    exists x, cell_at ls st i = Some x /\ c_pos x = -1;
}.

Lemma free_shift n k ls st i x : cache_rep n k ls -> cell_at ls st i = Some x -> c_pos x = -1 -> c_shift x = 0.
Proof. intros HC Hx Hp. destruct (cell_at_rep _ _ _ _ _ _ HC Hx) as [(_ & Hf & _) _]. by apply Hf. Qed.

Lemma save_rep n k ls si m :
  cache_rep n k ls -> free_slot ls si m ->
  exists state, save k si = Ok state /\ st_sinfo state = si /\ saved ls state (v_heads k).
Proof.
  intros HC HF. destruct (sk_size _ _ _ (fs_ok _ _ _ HF)) as (_ & _ & Hli).
  assert (forall s, s ∈ List.seq 0 (slot_n_stream si) -> exists o,
    (st ← at_ (strm si) s; row ← at_ (idxs si) s; c ← at_ (v_cells k) st; deref (cp_idxs c row)) = Ok (E := kv_error) o /\
    forall st row (lh : spec), strm si !! s = Some st -> idxs si !! s = Some row ->
      (ls !! st : option spec) = Some lh -> exists xs, sized o (length row) /\ snapshot o = xs /\
      Forall2 (fun idx x => lh.1 !! idx = Some x /\ c_shift x = 0) row xs) as Hone.
  { intros s [_ Hs]%elem_of_seq. unfold slot_n_stream in Hs.
    destruct (lookup_lt_is_Some_2 (strm si) s) as [st Hst]; [lia|].
    destruct (lookup_lt_is_Some_2 (idxs si) s) as [row Hrow]; [lia|].
    rewrite (at_lookup _ _ _ Hst), (at_lookup _ _ _ Hrow). cbn [mbind result_bind].
    assert (exists lh : spec, (ls !! st : option spec) = Some lh) as [lh Hlh].
    { pose proof (Forall_lookup_1 _ _ _ _ (sk_rows _ _ _ (fs_ok _ _ _ HF)) Hrow) as Hl. cbn beta in Hl.
      destruct (sk_size _ _ _ (fs_ok _ _ _ HF)) as (Hm & _). destruct row as [|i row]; [simpl in Hl; lia|].
      destruct (fs_free _ _ _ HF s st _ i Hst Hrow) as (x & Hx & _); [left|].
      unfold cell_at in Hx. destruct (ls !! st); [eauto|done]. }
    destruct (cache_rep_stream _ _ _ _ _ HC Hlh) as (c & h & Hc & _ & HR & _).
    rewrite (at_lookup _ _ _ Hc). cbn [mbind result_bind].
    assert (exists xs, Forall2 (fun idx x => lh.1 !! idx = Some x /\ c_shift x = 0) row xs) as [xs Hxs].
    { assert (Forall (fun i => exists x, lh.1 !! i = Some x /\ c_shift x = 0) row) as Hall.
      { apply Forall_forall. intros i Hi. destruct (fs_free _ _ _ HF _ _ _ _ Hst Hrow Hi) as (x & Hx & Hp).
        pose proof (free_shift _ _ _ _ _ _ HC Hx Hp). unfold cell_at in Hx. rewrite Hlh in Hx. eauto. }
      clear - Hall. induction Hall as [|i row (x & ?) _ [xs IH]]; [by exists []|]. exists (x :: xs). by constructor. }
    destruct (cp_idxs_snapshot c lh.1 lh.2 row xs HR Hxs) as (o & E & Hsz & Hsn). exists o.
    rewrite E. split; [done|]. intros st' row' lh' Hst' Hrow' Hlh'.
    assert (st' = st /\ row' = row) as [-> ->] by (split; congruence). rewrite Hlh in Hlh'. injection Hlh' as <-. eauto. }
  destruct (mapM_exists (fun s => st ← at_ (strm si) s; row ← at_ (idxs si) s;
      c ← at_ (v_cells k) st; deref (cp_idxs c row)) (List.seq 0 (slot_n_stream si))) as [os Eos].
  { intros s Hs. destruct (Hone s Hs) as (o & E & _). eauto. }
  unfold save. rewrite Eos. cbn [mbind result_bind]. eexists. split; [done|]. split; [done|]. split; [done|].
  cbn [st_cells st_sinfo]. apply mapM_Ok in Eos. split.
  { rewrite <- (Forall2_length _ _ _ Eos). by rewrite length_seq. }
  intros s st row lh Hst Hrow Hlh. pose proof (lookup_lt_Some _ _ _ Hst).
  assert (Hseq : List.seq 0 (slot_n_stream si) !! s = Some s) by (apply lookup_seq; unfold slot_n_stream; lia).
  destruct (Forall2_lookup_l _ _ _ _ _ Eos Hseq) as (o & Ho & E).
  destruct (Hone s) as (o' & E' & Hspec); [by eapply list_elem_of_lookup_2|].
  rewrite E in E'. injection E' as <-. destruct (Hspec st row lh Hst Hrow Hlh) as (xs & ? & ? & ?).
  exists o, xs. done.
Qed.

(** ** Restoring one state *)

(** What placing in a slot may have changed. *)
Record moved (ls0 ls1 : list spec) (si : slot_info) : Prop := {
  mv_length : length ls1 = length ls0;
  mv_shift : forall st (lh0 lh1 : spec), (ls0 !! st : option spec) = Some lh0 ->
    (ls1 !! st : option spec) = Some lh1 -> lh0.2 = lh1.2;
  mv_other : forall st i, (forall s row, strm si !! s = Some st -> idxs si !! s = Some row -> i ∉ row) ->
    cell_at ls1 st i = cell_at ls0 st i;
  mv_row : forall s st row i, strm si !! s = Some st -> idxs si !! s = Some row -> i ∈ row ->
    exists x, cell_at ls1 st i = Some x /\ c_shift x = 0;
}.

Lemma stream_some n k ls si m s st row :
  cache_rep n k ls -> free_slot ls si m -> strm si !! s = Some st -> idxs si !! s = Some row ->
  exists lh : spec, (ls !! st : option spec) = Some lh.
Proof.
  intros HC HF Hst Hrow.
  pose proof (Forall_lookup_1 _ _ _ _ (sk_rows _ _ _ (fs_ok _ _ _ HF)) Hrow) as Hl. cbn beta in Hl.
  destruct (sk_size _ _ _ (fs_ok _ _ _ HF)) as (Hm & _). destruct row as [|i row]; [simpl in Hl; lia|].
  destruct (fs_free _ _ _ HF s st _ i Hst Hrow) as (x & Hx & _); [left|].
  unfold cell_at in Hx. destruct (ls !! st) as [lh|]; [by exists lh|done].
Qed.

Lemma strm_bound n k ls si m s st :
  cache_rep n k ls -> free_slot ls si m -> strm si !! s = Some st -> (st < length ls)%nat.
Proof.
  intros HC HF Hst. destruct (sk_size _ _ _ (fs_ok _ _ _ HF)) as (_ & _ & Hli).
  pose proof (lookup_lt_Some _ _ _ Hst).
  destruct (lookup_lt_is_Some_2 (idxs si) s) as [row Hrow]; [lia|].
  destruct (stream_some _ _ _ _ _ _ _ _ HC HF Hst Hrow) as [lh Hlh]. by eapply lookup_lt_Some.
Qed.

Lemma strm_length n k ls si m : cache_rep n k ls -> free_slot ls si m -> (length (strm si) <= length ls)%nat.
Proof.
  intros HC HF. rewrite <- (length_seq (length ls) 0). apply submseteq_length, NoDup_submseteq.
  - apply (fs_streams _ _ _ HF).
  - intros st [s Hs]%list_elem_of_lookup. apply elem_of_seq. pose proof (strm_bound _ _ _ _ _ _ _ HC HF Hs). lia.
Qed.

Lemma restore_step n k0 ls0 k1 ls1 ls2 si m state s st :
  cache_rep n k0 ls0 -> free_slot ls0 si m -> st_sinfo state = si -> saved ls0 state (v_heads k0) ->
  length ls1 = length ls0 -> moved ls0 ls1 si -> cache_rep n k1 ls2 -> strm si !! s = Some st ->
  (ls2 !! st : option spec) = ls1 !! st ->
  exists k2 lh0, restore_stream state k1 s = Ok k2 /\ cache_rep n k2 (<[st := lh0]> ls2) /\
    config k2 = config k1 /\ (ls0 !! st : option spec) = Some lh0.
Proof.
  intros HC0 HF Hsi Hsv Hlen Hmv HC1 Hst Hsame. destruct (sk_size _ _ _ (fs_ok _ _ _ HF)) as (_ & _ & Hli).
  pose proof (lookup_lt_Some _ _ _ Hst) as Hlt.
  destruct (lookup_lt_is_Some_2 (idxs si) s) as [row Hrow]; [lia|].
  destruct (stream_some _ _ _ _ _ _ _ _ HC0 HF Hst Hrow) as [lh0 Hlh0].
  destruct (lookup_lt_is_Some_2 ls1 st) as [lh1 Hlh1]; [rewrite Hlen; by eapply lookup_lt_Some|].
  rewrite Hlh1 in Hsame.
  destruct (cache_rep_stream _ _ _ _ _ HC1 Hsame) as (c & h & Hc & Hh & HR & Hl1 & _).
  destruct (cache_rep_stream _ _ _ _ _ HC0 Hlh0) as (c0 & h0 & _ & _ & HR0 & Hl0 & _).
  destruct (sv_cells _ _ _ Hsv) as [_ Hcells]. rewrite Hsi in Hcells.
  destruct (Hcells s st row lh0 Hst Hrow Hlh0) as (o & xs & Ho & Hsz & Hsn & Hxs).
  destruct (restore_row c lh1.1 lh1.2 o lh0.1 row xs HR) as (c' & E & HR'); [|done|done|done| |lia| | |].
  { by apply (Forall_lookup_1 _ _ _ _ (fs_rows _ _ _ HF) Hrow). }
  { apply Forall_lookup. intros j x Hj. destruct (Forall2_lookup_r _ _ _ _ _ Hxs Hj) as (i & _ & Hx & _).
    by eapply rep_ok. }
  { apply Forall_forall. intros i Hi. destruct (mv_row _ _ _ Hmv _ _ _ _ Hst Hrow Hi) as (x & Hx & ?).
    unfold cell_at in Hx. rewrite Hlh1 in Hx. eauto. }
  { intros i Hi. pose proof (mv_other _ _ _ Hmv st i) as Hm. unfold cell_at in Hm. rewrite Hlh0, Hlh1 in Hm.
    apply Hm. intros s' row' Hst' Hrow'. pose proof (NoDup_lookup _ _ _ _ (fs_streams _ _ _ HF) Hst Hst') as <-.
    rewrite Hrow in Hrow'. by injection Hrow' as <-. }
  destruct (lookup_lt_is_Some_2 (v_heads k0) s) as [hs Hhs].
  { rewrite (ck_heads _ _ _ HC0). pose proof (strm_length _ _ _ _ _ HC0 HF). lia. }
  exists (set_stream k1 st c' hs), lh0. unfold restore_stream. rewrite Hsi, (sv_heads _ _ _ Hsv).
  rewrite (at_lookup _ _ _ Hst), (at_lookup _ _ _ Hrow). cbn [mbind result_bind].
  rewrite (at_lookup _ _ _ Hc). cbn [mbind result_bind]. rewrite (at_lookup _ _ _ Hh). cbn [mbind result_bind].
  rewrite (at_lookup _ _ _ Ho). cbn [mbind result_bind]. rewrite E. cbn [deref mbind result_bind].
  rewrite (at_lookup _ _ _ Hhs). cbn [mbind result_bind]. split; [done|]. split; [|done].
  eapply cache_rep_set; [done| |done|by apply (Forall_lookup_1 _ _ _ _ (ck_head _ _ _ HC0) Hhs)].
  by rewrite (mv_shift _ _ _ Hmv st lh0 lh1 Hlh0 Hlh1).
Qed.

Lemma restore_rep n k0 ls0 k1 ls1 si m state :
  cache_rep n k0 ls0 -> free_slot ls0 si m -> st_sinfo state = si -> saved ls0 state (v_heads k0) ->
  moved ls0 ls1 si -> cache_rep n k1 ls1 ->
  exists k2, restore k1 state = Ok k2 /\ cache_rep n k2 ls0 /\ config k2 = config k1.
Proof.
  intros HC0 HF Hsi Hsv Hmv HC1. pose proof (mv_length _ _ _ Hmv) as Hlen. unfold restore. rewrite Hsi.
  destruct (for_total (fun j k2 => config k2 = config k1 /\ exists ls2, cache_rep n k2 ls2 /\
    length ls2 = length ls1 /\
    forall st, (ls2 !! st : option spec) = if decide (st ∈ take j (strm si)) then ls0 !! st else ls1 !! st)
    (restore_stream state) (slot_n_stream si) k1) as (k2 & E & Hc2 & ls2 & HC2 & Hl2 & Hls2).
  - unfold slot_n_stream. intros s k2 Hs (Hc2 & ls2 & HC2 & Hl2 & Hls2).
    destruct (lookup_lt_is_Some_2 (strm si) s) as [st Hst]; [done|].
    assert (Hnew : st ∉ take s (strm si)).
    { intros [s' Hs']%list_elem_of_lookup. apply lookup_take_Some in Hs' as [Hs' ?].
      pose proof (NoDup_lookup _ _ _ _ (fs_streams _ _ _ HF) Hst Hs'). lia. }
    destruct (restore_step n k0 ls0 k2 ls1 ls2 si m state s st HC0 HF Hsi Hsv Hlen Hmv HC2 Hst)
      as (k3 & lh0 & E3 & HC3 & Hc3 & Hlh0).
    { rewrite Hls2. by rewrite decide_False by done. }
    exists k3. split; [done|]. split; [congruence|]. exists (<[st := lh0]> ls2). split; [done|].
    split; [by rewrite length_insert|]. intros st'. rewrite (take_S_r _ _ _ Hst).
    destruct (decide (st' = st)) as [->|Hn].
    + rewrite decide_True by set_solver. rewrite list_lookup_insert_eq; [done|].
      rewrite Hl2, Hlen. by eapply lookup_lt_Some.
    + rewrite list_lookup_insert_ne by done. rewrite Hls2.
      destruct (decide (st' ∈ take s (strm si))); [rewrite decide_True by set_solver; done|].
      rewrite decide_False by set_solver. done.
  - split; [done|]. exists ls1. split; [done|]. split; [done|]. intros st. rewrite take_0.
    by rewrite decide_False by set_solver.
  - exists k2. split; [done|]. split; [|done]. assert (ls2 = ls0) as ->; [|done].
    apply list_eq. intros st. unfold slot_n_stream in Hls2. rewrite take_ge in Hls2 by lia. etrans; [apply Hls2|].
    destruct (decide (st ∈ strm si)) as [|Hn]; [done|].
    destruct (ls1 !! st : option spec) as [lh1|] eqn:H1.
    + destruct (lookup_lt_is_Some_2 ls0 st) as [lh0 H0]; [rewrite <- Hlen; by eapply lookup_lt_Some|].
      etrans; [|symmetry; exact H0]. f_equal. symmetry.
      eapply stream_ext; [exact H0|exact H1|by eapply mv_shift|]. intros i. symmetry. apply (mv_other _ _ _ Hmv).
      intros s row Hs _. exfalso. apply Hn. by eapply list_elem_of_lookup_2.
    + symmetry. apply lookup_ge_None. apply lookup_ge_None in H1. lia.
Qed.

(** ** A ubatch placed in free cells *)

(** What a ubatch needs in every state of the cache. *)
Record ubatch_fits (k : kv_cache) (ub : llama_ubatch) : Prop := {
  uf_ok : ubatch_ok k ub;
  uf_own : own_streams k ub;
  uf_tokens : exists tok, forall j, (j < Batch.u_n_tokens ub)%nat ->
    token_is ub j (tok j) /\ t_pos (tok j) < 2 ^ 31 - 1 /\
    Forall (fun s => Z.to_nat s < length (seq_to_stream k))%nat (t_ids (tok j));
}.

Lemma ubatch_fits_config k k' (ub : llama_ubatch) : config k' = config k -> ubatch_fits k ub -> ubatch_fits k' ub.
Proof.
  intros Hc [[H1 H2 H3] H4 H5].
  assert (n_stream k' = n_stream k /\ seq_to_stream k' = seq_to_stream k) as [Hn Hs]
    by (unfold config in Hc; split; congruence).
  assert (forall s, stream_of_ub k' ub s = stream_of_ub k ub s) as Hub by (intros s; unfold stream_of_ub; by rewrite Hs).
  assert (n_seqs_of k' ub = n_seqs_of k ub) as Hns by (unfold n_seqs_of; by rewrite Hn).
  assert (n_tokens_of k' ub = n_tokens_of k ub) as Hnt by (unfold n_tokens_of; by rewrite Hns).
  split.
  - split; [done| |]; rewrite Hns; [intros s; rewrite Hub; apply H2|]. rewrite Hn, Hnt. exact H3.
  - unfold own_streams in *. rewrite Hns. rewrite (list_omap_ext _ (stream_of_ub k ub) _ (List.seq 0 (n_seqs_of k ub))); [done|].
    apply Forall2_same_length_lookup. split; [done|]. intros i x y Hx Hy. rewrite Hx in Hy. injection Hy as ->. apply Hub.
  - by rewrite Hs.
Qed.

Lemma usable_none k l x : swa_type k = LLAMA_SWA_TYPE_NONE -> usable k l x = true -> c_pos x = -1.
Proof.
  intros Hn. unfold usable. rewrite Hn. destruct (Z.eqb_spec (c_pos x) (-1)); [done|]. cbn [orb].
  destruct (elements (c_seq x)) as [|s [|]]; try done. unfold is_masked_swa.
  by destruct ((0 <=? c_pos x) && (0 <=? max_pos l s + 1)).
Qed.

Lemma found_free_slot n k ls (ub : llama_ubatch) si :
  cache_rep n k ls -> search_ok k ls -> swa_type k = LLAMA_SWA_TYPE_NONE -> ubatch_ok k ub -> own_streams k ub ->
  find_slot k ub false = Ok si -> slot_empty si = false -> free_slot ls si (n_tokens_of k ub).
Proof.
  intros HC HS Hn HU Hown Hf Hne.
  destruct (found_slot_ok _ _ _ _ _ _ HC HS HU Hown Hf Hne) as (HK & Hnd & _).
  destruct (find_slot_spec n k ls ub false HC HS HU) as (si' & Hf' & _ & Hspec).
  rewrite Hf in Hf'. injection Hf' as <-. destruct (Hspec Hne) as (Hli & Hls & Hrows).
  assert (forall s st row, strm si !! s = Some st -> idxs si !! s = Some row -> exists lh : spec,
    (ls !! st : option spec) = Some lh /\ slot_in k lh.1 false (n_tokens_of k ub) row) as Hin.
  { intros s st row Hst Hrow. pose proof (lookup_lt_Some _ _ _ Hst).
    destruct (Hrows s) as (st' & lh & row' & _ & Hlh & Hst' & Hrow' & Hin & _); [lia|].
    assert (st' = st /\ row' = row) as [-> ->] by (split; congruence). by exists lh. }
  split; [done|done| |].
  - apply Forall_lookup. intros s row Hrow. pose proof (lookup_lt_Some _ _ _ Hrow).
    destruct (lookup_lt_is_Some_2 (strm si) s) as [st Hst]; [lia|].
    by destruct (Hin _ _ _ Hst Hrow) as (lh & _ & _ & ? & _).
  - intros s st row i Hst Hrow Hi. destruct (Hin _ _ _ Hst Hrow) as (lh & Hlh & _ & _ & Hc & _).
    rewrite Forall_forall in Hc. destruct (Hc i Hi) as (x & Hx & Hu). exists x. unfold cell_at. rewrite Hlh.
    split; [done|]. by eapply usable_none.
Qed.

Lemma slot_pos_row si m j st idx : slot_pos si m j = Some (st, idx) ->
  exists row, strm si !! (j / m)%nat = Some st /\ idxs si !! (j / m)%nat = Some row /\ idx ∈ row.
Proof.
  unfold slot_pos. intros H. apply bind_Some_inv in H as (st' & Hs & H). apply bind_Some_inv in H as (row & Hr & H).
  apply bind_Some_inv in H as (i & Hi & [= -> ->]). exists row. split_and!; [done|done|by eapply list_elem_of_lookup_2].
Qed.

(** Nothing is overwritten, and nothing is purged. *)
Lemma removed_free ls si m t : free_slot ls si m -> removed ls si m t = replicate (Z.to_nat LLAMA_MAX_SEQ) (-1).
Proof.
  intros HF. unfold removed. induction (List.seq 0 t) as [|j l IH] using rev_ind; [done|].
  rewrite foldl_app, IH. cbn [foldl]. destruct (slot_pos si m j) as [[st idx]|] eqn:Hp; [|done].
  destruct (slot_pos_row _ _ _ _ _ Hp) as (row & Hst & Hrow & Hi).
  destruct (fs_free _ _ _ HF _ _ _ _ Hst Hrow Hi) as (x & Hx & Hpx). rewrite Hx. unfold overwrite. by rewrite Hpx.
Qed.

Lemma purged_none sts st x : purged sts (replicate (Z.to_nat LLAMA_MAX_SEQ) (-1)) st x = x.
Proof.
  unfold purged. induction (seqZ 0 LLAMA_MAX_SEQ) as [|s l IH]; [done|]. cbn [foldl].
  replace (drop_old sts (replicate (Z.to_nat LLAMA_MAX_SEQ) (-1)) st x s) with x; [done|]. unfold drop_old.
  destruct (replicate (Z.to_nat LLAMA_MAX_SEQ) (-1) !! Z.to_nat s) as [m|] eqn:E; [|done].
  apply lookup_replicate in E as [-> _]. done.
Qed.

(** The states a dry run goes through. *)
Record prep_ok (n : nat) (k : kv_cache) (ls : list spec) : Prop := {
  pr_rep : cache_rep n k ls;
  pr_search : search_ok k ls;
  pr_owned : owned k ls;
  pr_swa : swa_type k = LLAMA_SWA_TYPE_NONE;
}.

Lemma place_free n k ls ub si :
  prep_ok n k ls -> ubatch_fits k ub -> find_slot k ub false = Ok si -> slot_empty si = false ->
  exists k' ls', apply_ubatch k si ub = Ok k' /\ prep_ok n k' ls' /\ config k' = config k /\
    free_slot ls si (n_tokens_of k ub) /\ moved ls ls' si.
Proof.
  intros [HC HS Ho Hn] [HU Hown [tok Htok]] Hf Hne.
  destruct (found_slot_ok _ _ _ _ _ _ HC HS HU Hown Hf Hne) as (HK & Hnd & Htot).
  pose proof (found_free_slot _ _ _ _ _ HC HS Hn HU Hown Hf Hne) as HF.
  destruct (apply_ubatch_rep n k ls ub si (n_tokens_of k ub) tok HC HS Ho HK Hnd Htot)
    as (k' & ls' & E & HC' & Hc' & Hsnd & Hcells & _); [intros j Hj; by apply Htok|].
  set (T := Batch.u_n_tokens ub) in *. set (m := n_tokens_of k ub) in *.
  assert (Hcells' : forall st idx, cell_at ls' st idx = placed_at si m tok T st idx <$> cell_at ls st idx).
  { intros st idx. rewrite Hcells, removed_free by done. destruct (cell_at ls st idx); [|done].
    cbn [fmap option_fmap option_map]. by rewrite purged_none. }
  (* A cell afterwards holds a token of the ubatch or is as before. *)
  assert (Hcase : forall st idx y, cell_at ls' st idx = Some y -> exists x, cell_at ls st idx = Some x /\
    ((exists j, (j < T)%nat /\ y = placed (tok j) x) \/ y = x)).
  { intros st idx y Hy. rewrite Hcells' in Hy. apply fmap_Some in Hy as (x & Hx & ->). exists x. split; [done|].
    unfold placed_at. destruct (token_at si m T st idx) as [j|] eqn:Ej; [left|by right].
    apply token_at_Some in Ej as [Hj _]. eauto. }
  exists k', ls'. split; [done|].
  assert (seq_to_stream k' = seq_to_stream k /\ swa_type k' = swa_type k /\
    allocation_group_size k' = allocation_group_size k) as (Hs & Hw & Hg)
    by (unfold config in Hc'; split_and!; congruence).
  assert (Hlen : length ls' = length ls).
  { pose proof (f_equal length Hsnd) as Hl. rewrite !length_fmap in Hl. exact Hl. }
  split_and!; [|done|done|].
  - split; [done| | |by rewrite Hw].
    + split; [by rewrite Hg; apply HS|by rewrite Hw, Hn|]. apply Forall_lookup. intros st lh Hlh.
      apply Forall_lookup. intros idx y Hy.
      destruct (Hcase st idx y) as (x & Hx & [(j & Hj & ->)| ->]); [unfold cell_at; by rewrite Hlh| |].
      * by apply Htok.
      * pose proof (so_room _ _ HS) as Hroom. unfold cell_at in Hx. destruct (ls !! st) as [lh0|] eqn:Hst; [|done].
        pose proof (Forall_lookup_1 _ _ _ _ Hroom Hst) as Hf0. by apply (Forall_lookup_1 _ _ _ _ Hf0 Hx).
    + intros st idx y s Hy Hin. rewrite Hs.
      destruct (Hcase st idx y Hy) as (x & Hx & [(j & Hj & ->)| ->]); [|by eapply Ho].
      destruct (Htok j Hj) as (_ & _ & Hids). rewrite Forall_forall in Hids. apply Hids.
      simpl in Hin. by apply elem_of_list_to_set in Hin.
  - split; [done| | |].
    + intros st lh0 lh1 H0 H1. assert (Some lh1.2 = Some lh0.2) as [= ->]; [|done].
      transitivity ((snd <$> ls') !! st); [rewrite list_lookup_fmap; symmetry; exact (f_equal (fmap snd) H1)|].
      rewrite Hsnd, list_lookup_fmap. exact (f_equal (fmap snd) H0).
    + intros st i Hout. rewrite Hcells'. destruct (cell_at ls st i) as [x|]; [|done].
      cbn [fmap option_fmap option_map]. unfold placed_at.
      destruct (token_at si m T st i) as [j|] eqn:Ej; [|done]. apply token_at_Some in Ej as [_ Hp].
      destruct (slot_pos_row _ _ _ _ _ Hp) as (row & Hst & Hrow & Hi). by destruct (Hout _ _ Hst Hrow).
    + intros s st row i Hst Hrow Hi. destruct (fs_free _ _ _ HF _ _ _ _ Hst Hrow Hi) as (x & Hx & Hp).
      rewrite Hcells', Hx. eexists. split; [done|]. unfold placed_at.
      destruct (token_at si m T st i); [done|]. exact (free_shift _ _ _ _ _ _ HC Hx Hp).
Qed.

(** The slots of ubatches placed one after the other. *)
Inductive placed_run : kv_cache -> list llama_ubatch -> list slot_info -> kv_cache -> Prop :=
| run_nil k : placed_run k [] [] k
| run_cons k ub ubs si k1 res k2 :
    find_slot k ub false = Ok si -> slot_empty si = false -> apply_ubatch k si ub = Ok k1 ->
    placed_run k1 ubs res k2 -> placed_run k (ub :: ubs) (si :: res) k2.

(** Some ubatch has no slot after the ones before it. *)
Definition no_room (k : kv_cache) (ubs : list llama_ubatch) : Prop :=
  exists pre ub post res k1 si, ubs = pre ++ ub :: post /\ placed_run k pre res k1 /\
    find_slot k1 ub false = Ok si /\ slot_empty si = true.

Lemma prepare_loop_rep n ubs : forall k ls res states,
  prep_ok n k ls -> Forall (ubatch_fits k) ubs ->
  exists k2 ls2 new news success, prepare_loop k ubs res states = Ok (k2, res ++ new, news ++ states, success) /\
    cache_rep n k2 ls2 /\ config k2 = config k /\
    (if success then length news = length ubs /\ exists k3, placed_run k ubs new k3 else no_room k ubs) /\
    forall k3, cache_rep n k3 ls2 -> exists k4, foldM restore k3 news = Ok k4 /\ cache_rep n k4 ls /\
      config k4 = config k3.
Proof.
  induction ubs as [|ub ubs IH]; intros k ls res states HP Hub.
  - exists k, ls, [], [], true. rewrite app_nil_r. split_and!; [done|by destruct HP|done|done|eexists; constructor|].
    intros k3 H3. by exists k3.
  - apply Forall_cons in Hub as [Hu Hub]. pose proof HP as [HC HS Ho Hn].
    destruct (find_slot_spec n k ls ub false HC HS (uf_ok _ _ Hu)) as (si & Hf & _).
    cbn [prepare_loop]. rewrite Hf. cbn [mbind result_bind]. destruct (slot_empty si) eqn:Hne.
    { exists k, ls, [], [], false. rewrite app_nil_r. split_and!; [done|done|done| |].
      - exists [], ub, ubs, [], k, si. split_and!; [done|constructor|done|done].
      - intros k3 H3. by exists k3. }
    destruct (place_free n k ls ub si HP Hu Hf Hne) as (k1 & ls1 & E1 & HP1 & Hc1 & HF & Hmv).
    destruct (save_rep n k ls si _ HC HF) as (state & Es & Hsi & Hsv). rewrite Es. cbn [mbind result_bind].
    rewrite E1. cbn [mbind result_bind].
    destruct (IH k1 ls1 (res ++ [si]) (state :: states) HP1) as (k2 & ls2 & new & news & success & E & HC2 & Hc2 & Hs & Hr).
    { eapply Forall_impl; [exact Hub|]. intros u. by apply ubatch_fits_config. }
    exists k2, ls2, (si :: new), (news ++ [state]), success. rewrite E. split_and!.
    + by rewrite <- !app_assoc.
    + done.
    + congruence.
    + destruct success.
      * destruct Hs as (Hl & k3 & Hrun). rewrite length_app. simpl. split; [lia|]. exists k3. by econstructor.
      * destruct Hs as (pre & u & post & rs & k3 & si' & -> & Hrun & Hfu & Heu).
        exists (ub :: pre), u, post, (si :: rs), k3, si'. split_and!; [done|by econstructor|done|done].
    + intros k3 H3. destruct (Hr k3 H3) as (k4 & E4 & HC4 & Hc4).
      destruct (restore_rep n k ls k4 ls1 si _ state HC HF Hsi Hsv Hmv HC4) as (k5 & E5 & HC5 & Hc5).
      exists k5. rewrite foldM_app, E4. cbn [mbind result_bind foldM]. rewrite E5. split_and!; [done|done|congruence].
Qed.

(** C5: the dry run of a batch in a cache without sliding window and without structured
    allocation (groups of one cell: [so_groups]). It returns the
    slots that the ubatches get when they are placed one after the other, or nothing
    when one of them has no slot after the ones before it; in both cases every cell
    of every stream is afterwards as it was, nothing fails, and the configuration
    is untouched. *)
Theorem slot_prepare n k ls ubs :
  prep_ok n k ls -> ubs <> [] -> Forall (ubatch_fits k) ubs ->
  exists k' res, prepare k ubs = Ok (k', res) /\ cache_rep n k' ls /\ config k' = config k /\
    (res = [] /\ no_room k ubs \/ res <> [] /\ exists k2, placed_run k ubs res k2).
Proof.
  intros HP Hne Hub. unfold prepare.
  destruct (prepare_loop_rep n ubs k ls [] [] HP Hub) as (k2 & ls2 & new & news & success & E & HC2 & Hc2 & Hs & Hr).
  rewrite E. cbn [mbind result_bind app]. rewrite app_nil_r.
  destruct (Hr k2 HC2) as (k4 & E4 & HC4 & Hc4).
  assert (negb (length news =? 0)%nat || negb success = true) as ->.
  { destruct success; [|by rewrite orb_true_r]. destruct Hs as [Hl _]. rewrite Hl. by destruct ubs. }
  cbn [ensure mbind result_bind]. rewrite E4. cbn [mbind result_bind].
  exists k4, (if success then new else []). split_and!; [done|done|congruence|].
  destruct success; [right|by left]. destruct Hs as (_ & k3 & Hrun). split; [|eauto].
  destruct Hrun; [done|done].
Qed.

End Float.

(** ** Examples *)

Lemma example_prep_ok : prep_ok 4 example_cache example_streams.
Proof. split; [exact example_cache_rep|exact example_search_ok|exact example_owned|done]. Qed.

Lemma example_fits : ubatch_fits example_cache example_ub.
Proof.
  split; [exact example_ubatch_ok|exact example_own_streams|]. exists example_token. intros j Hj.
  split; [by apply example_tokens|]. simpl in Hj. split; [simpl; lia|].
  refine (bool_decide_eq_true_1 _ _). vm_compute. reflexivity.
Qed.

Lemma slot_prepare_witness : exists k' res, prepare example_cache [example_ub] = Ok (k', res) /\
  cache_rep 4 k' example_streams /\ config k' = config example_cache /\
  (res = [] /\ no_room example_cache [example_ub] \/
   res <> [] /\ exists k2, placed_run example_cache [example_ub] res k2).
Proof.
  apply (slot_prepare 4 _ _ _ example_prep_ok); [done|].
  apply Forall_cons. split; [exact example_fits|constructor].
Defined.

(** The heads are not restored: the slot of sequence 1 has one stream, number 1, and
    its head is restored from the head of stream 0. *)
Lemma prepare_wrong_head :
  v_heads example_cache = [4; 0]%nat /\
  (r ← prepare example_cache [example_ub]; Ok (v_heads r.1)) = Ok [4; 4]%nat.
Proof. split; vm_compute; reflexivity. Qed.

(** Nor are the cells that a placement purges: with a window of two, a first ubatch
    takes the cell of position 2 and purges the positions 0 and 1; the second one has
    no slot, the batch is refused, and the purged cells stay free. *)
Definition window_cells : list kv_op :=
  [KvCells.Cells.Resize 4; PosSet 0 2; KvCells.Cells.SeqAdd 0 0; PosSet 1 0; KvCells.Cells.SeqAdd 1 0;
   PosSet 2 1; KvCells.Cells.SeqAdd 2 0; PosSet 3 3; KvCells.Cells.SeqAdd 3 0].

Definition window_cache : kv_cache :=
  set_stream (init_cells 1 4 1 1 2 LLAMA_SWA_TYPE_STANDARD) 0 (default cells_init (run_ops window_cells cells_init)) 0.

Definition window_ub (p : Z) (n : nat) : Batch.llama_ubatch Z :=
  Batch.mk_ubatch true n n 1 1 1 (Some (replicate n 7)) None (seqZ p (Z.of_nat n)) (replicate n 1)
    (List.seq 0 n) [0] [] (replicate n 0) (replicate n 0).

Lemma prepare_loses_cells :
  pos <$> v_cells window_cache = [[2; 0; 1; 3]] /\
  (r ← prepare window_cache [window_ub 4 1; window_ub 5 5]; Ok (pos <$> v_cells r.1, r.2))
    = Ok ([[2; -1; -1; 3]], []).
Proof. split; vm_compute; reflexivity. Qed.

End KvPrepareWf.
